(* ===== verification/_CoqProject ===== *)
-Q . S2P
Prelude.v
Bytes.v
CText.v
PbEncode.v
AmpRing.v
OtlpHist.v
Channels.v
OtlpMetrics.v
OtlpTraces.v
OtlpHttpSpan.v
OtlpTransport.v
OtlpGrpc.v
CgText.v
OtlpEnrich.v
CgIr.v
CgAst.v
CgConst.v
CgAttach.v
TcpSlice.v
TcpServer.v
OtlpXlayer.v
RecordSchema.v
AmpDrain.v
AgentRecords.v
HostRuntime.v
HostSymbols.v
HostReports.v
OtlpPb.v
OtlpBatch.v
AgentSpans.v
OtlpAgent.v
RequestTree.v
OtlpPbMetrics.v
Json.v
OtlpJson.v
OtlpSame.v
AgentSignals.v
AmpAbi.v
AmpRuntime.v
AmpCheck.v
CgAmp.v
CgExpr.v
CgRead.v
CgLower.v
CgSem.v
CgSim.v
CgLimits.v
CgScope.v
AmpManifest.v
Capability.v
