(* ===== verification/Prelude.v ===== *)
(** * spinel-ebpf: a verification development

    spinel-ebpf compiles Ruby methods to eBPF programs.  A code generator turns the
    front end's syntax tree into kernel C (or into C for the real-time core of a
    heterogeneous system-on-chip, "AMP"); the programs report through ring buffers;
    a host runtime reads the records and exports them as OpenTelemetry (OTLP) logs,
    metrics and traces.  On the AMP target a probe is checked before deployment,
    installed into the running firmware through a command ring, and its events are
    drained from shared memory by the application core.

    This library is a shallow embedding: each C function is a Rocq function on
    explicit state, each fallible one returns an option, an error value or an
    outcome type, and each theorem is about those definitions.  Conventions:

    - a [w]-bit integer is a [Z] with its wrap-around written ([u8], [u16], [u32],
      [u64] are [wrap w]; [sgn w] reads two's complement);
    - a C string is the list of characters before its terminator ([text], CText.v),
      a pointer that may be NULL an [option]; a buffer is a [list Z] of bytes;
    - an array is a list, updated by [upd]; an access the code does not guard and
      that may be out of range is a visible outcome ([OutOfBounds], [Undefined]);
    - an operation that terminates the generator ([die]) is [None] or [Died].

    ** Files and the sources they model

    Paths are below [src/].

    - [Prelude], [Bytes], [CText]: integers at their width, lists, tactics and hint
      databases; little- and big-endian encodings; C strings, [snprintf], [sscanf],
      [strtoul] and [fgets] as far as the sources use them.
    - [AmpRing]: [include/spnl/amp_ring.h], the shared single-producer
      single-consumer ring.  [amp_ring_emit] refines a push on a bounded queue.
    - [AmpDrain]: [src/runtime/amp/amp_otlp.c] and [amp_a55_drain.c], the drain.  What
      one drain exports, and an interleaving of producer and consumer memory accesses
      as a step relation in which every record is exported exactly once, in order, and
      in the end if drains do not fail forever.
    - [AmpAbi]: [include/spnl/amp_abi*.h], the boards as instances of a class
      [Board], their memory layout and the command ring.
    - [AmpRuntime]: [src/runtime/amp/amp_m7_runtime.c], boot, install, run, teardown
      and the command loop, with the memory, the interrupt and MPU state and a log of
      effects.  The loop refines a loader whose state is the running blob.
    - [AmpCheck]: [src/runtime/amp/amp_check.c], the bytecode checker, and the
      instruction set as a step relation that over-approximates every data-dependent
      result.  What acceptance guarantees, and what it does not.
    - [Capability]: [src/runtime/amp/probe_capability.c], the table of attach
      points a firmware publishes, and admission of a probe against it.
    - [AmpManifest]: [src/runtime/amp/amp_manifest.c], [amp_manifest_dump.c] and
      [write_amp_manifest] of [bin/spinel-ebpf], the manifest and its reader.
    - [OtlpTraces]: [src/runtime/otlp/otlp_traces.c], span identities and the
      assembly of enter/exit events into a forest of spans.
    - [OtlpTransport]: [src/runtime/otlp/otlp_http.c] and [otlp_http.h]: header
      lists, endpoints, the request head, the exchange, and the choice of transport.
    - [OtlpGrpc]: [src/runtime/otlp/otlp_grpc.c]: HTTP/2 frames, header literals and
      the call, against a decoder written from the HTTP/2 format.
    - [OtlpEnrich]: [src/runtime/otlp/otlp_enrich.c], [otlp_k8s.c], [otlp_cri.c] and
      [otlp_peer.c]: pod, container and peer attributes of a record and the registry
      that merges them.
    - [OtlpHist]: the power-of-two slots of
      [src/codegen_c/templates/histogram.template.c], their folding onto the exported
      boundaries ([otlp_metrics.h]) and the percentiles of [src/runtime/spnl_runtime.c],
      with doubles as the binary64 floats of the standard library.
    - [OtlpMetrics]: [src/runtime/otlp/otlp_recmetric.c], the metric tables of
      [record_mirror_gen.h], the HTTP derivations of [otlp_agent.c] and the label
      registry of [otlp_metric.c]: accumulators keyed by labels, against the table of
      the events they are fed.
    - [OtlpHttpSpan]: [src/runtime/otlp/otlp_httpspan.c], incoming trace context,
      request durations, server and audit spans.
    - [Channels]: the balance per channel of [src/runtime/spnl_runtime.c], what went in,
      out and was dropped, with both reports; it refines a multiset of events.
    - [HostRuntime], [HostSymbols], [HostReports]: the same file.  The runtime handle
      over libbpf's answers and the report at exit; symbol tables and ELF lookup;
      histograms, stacks, leaks and lock inversions as text.
    - [PbEncode], [OtlpPb], [OtlpPbMetrics]: the vendored encoder
      ([src/runtime/otlp/nanopb]) with the generated descriptors, and the builders of
      [otlp_traces.c], [otlp_logs.c], [otlp_metrics.c] and [otlp_pbutil.h], read back by
      a decoder written from the wire format.
    - [Json], [OtlpJson], [OtlpSame]: [src/runtime/otlp/otlp_json.c]: the grammar of
      RFC 8259 and UTF-8, the writer with its seven builders, and that both encodings
      carry the same data.
    - [AgentRecords], [OtlpBatch], [AgentSpans], [OtlpAgent], [RequestTree],
      [AgentSignals]: [src/runtime/otlp/otlp_agent.c] with [record_mirror_gen.h].  Record
      decoding; the batch; one span builder per channel; the pushes and the typed
      consumers; the request tree; method traces, metrics, logs and audit spans.
    - [OtlpXlayer]: [src/runtime/otlp/otlp_xlayer.c], the keyed histogram template and
      the probe of [examples/observability/otlp/xlayer_correlate.rb].
    - [TcpSlice], [TcpServer]: [src/codegen_c/templates/tcp_slice.template.c], the TCP
      server that answers in the packet path, on frames of bytes; the peer as a decoder
      that verifies lengths and both checksums; an abstract server and the refinement.
    - [CgText], [CgIr], [CgAst], [CgConst], [CgAttach], [CgAmp]:
      [src/codegen_c/spinel_ebpf_cc.c] with [attach_schema.h] and
      [spinel_upstream_contract.h]: templates and decoders; the method table with its
      text form and its in-process construction; the syntax tree reader; constants,
      C names and the partition; attach points and context gates; instance variables
      and triggers of the real-time target.
    - [CgExpr], [CgRead], [CgLower], [CgSem], [CgSim], [CgLimits], [CgScope]: the same
      file with [builtin_schema.h].  [CgExpr] is the printer of C expressions, [CgRead]
      a lexer and the grammar of C that read its text back; [CgLower] the lowering of expressions, statements and
      method bodies and the unit of the real-time core ([amp_codegen_program]), with
      [g_body], [g_if_counter] and [g_amp_ivars] as the state of a monad; [CgSem] the
      meaning of the Ruby subset and of the emitted C, and the simulation; [CgSim]
      the handlers and the unit; [CgLimits] the gate, and programs outside the
      simulation's hypotheses on which C and Ruby differ; [CgScope] that the emitted
      C is well formed in the function around it: names declared once, before use and
      in scope.
    - [RecordSchema]: [src/codegen_c/record_schema.h], [tools/gen_record_mirror.c]
      and [src/runtime/otlp/record_mirror_gen.h]: the record channels from the
      kernel struct to the generated readers.

    ** How the parts meet

    The generator's promises are stated against the components that rely on them:
    the words compiled for instance variables ([CgAmp]) are those the checker
    ([AmpCheck]) admits and the loader ([AmpRuntime]) clears; the manifest the driver
    prints is the one the drain loads; the struct printed for a channel has the
    layout of the reader ([RecordSchema]); the ring the firmware fills ([AmpRing]) is
    the one the drain empties ([AmpDrain]).  [LogsEncoder] and [TracesEncoder] are what
    the drain and the agent ask of an encoder; [OtlpPb] implements them with the
    modelled encoder, so the theorems about exports speak of what a collector reads.
    Code outside the repository is an interface with its documented law: [Irq]
    (interrupt locking), [Upstream] (the front end's type names), the network of
    [OtlpTransport.Post] (the sequence of read results), [FileSystem] (the
    control-group hierarchy and the mapping files of [OtlpEnrich]), the answers of
    libbpf ([HostRuntime]) and the helpers of the kernel ([Slice.kernel] with
    [Server.kernel_ok]).  The simulation of [CgSim] runs a handler on the words that
    [CgAmp] assigns.

    ** What the theorems show

    - refinement: the ring is a bounded queue; the command loop is a loader; the
      assembler builds the call forest of a well-bracketed history;
    - simulation: the C function generated for a handler of the real-time core ends
      with the instance variables, published values and result of the Ruby handler,
      on every run whose arithmetic stays in the range of its C types and whose
      conditions are truth values, and its text reads back as what was executed;
    - exactly-once delivery under every interleaving of the ring's two sides;
    - isolation: an install never writes the running slot, every write to code
      memory is made with the MPU window open and interrupts locked, and a new probe
      starts with zero variables;
    - checker soundness on branch-free programs without sign-extending moves, and
      bounds on accepted programs with forward branches; programs it accepts and
      should not are exhibited;
    - round trips: capability table, manifest, header lists, HTTP/2
      request, percent encodings, records of every generation, C expressions; the
      reader of the syntax tree stores what the text says;
    - the gate of the real-time core accepts exactly the supported calls; enrichers
      are merged last-writer-wins; both spellings of a pod path are resolved;
    - equivalence of the two ways the method table is built, and of the exported
      histogram with the histogram of the samples;
    - exports: what a push drains from a ring arrives at the collector, in order and
      with the declared attributes, or is counted as dropped; the records of a thread
      arrive as its call tree; no child of a request tree is lost; protocol buffers
      read back, JSON parses, and the two agree;
    - the TCP server: every frame has the effect of one step of an abstract server, the
      replies to unfragmented frames without IP options decode at the peer with right
      checksums, and those of one connection never contradict each other;
    - the emitted C is well formed for every method body the generator accepts whose
      names do not clash with the generator's;
    - reports: leaks are ranked, lock inversions are all reported and once, every
      resource of the runtime is released, and the report at exit is begun at most
      once however signals interrupt it;
    - metrics: the accumulators count every record in its series and bucket, the
      declared number of series is never exceeded, percentiles are right to within
      one slot, and a request continues the trace it came with;
    - behaviours the code does not intend, each proved on a concrete input: a ring
      whose capacity does not divide 2^32, call depth beyond 64, stale variables with
      a small [ivars_size], a 32-bit size check that wraps, assignments under [&&]
      that are always executed ([CgLimits]), a
      route longer than its field in [HttpDur], a percentile of 2^34 samples, a request
      shorter than its response and one with IP options ([TcpServer.Limits]), and the
      smaller ones next to the
      definitions they concern.

    ** Bounds and fuel

    Loops the code bounds itself keep its bound.  Where Rocq needs fuel, it is the
    length of the input ([tpl_loop], [load_loop]), the number of pending commands
    ([poll_loop]) or the number of bits ([dec_digits], [strlen_loop]: ten groups of
    seven bits cover a 64-bit length), and a lemma or the theorem itself shows the
    fuel suffices.  The lowering recurses on a tree stored in a table and the reader of
    expressions on tokens, so their fuel bounds the depth; their theorems say that every
    sufficiently large fuel gives the same result ([CExprs.ev]), for trees of finite
    depth ([Collect.fin]).  Buffer capacities (2048-byte heads, 1024-byte responses, 256-byte lines,
    64 spans, 64 variables) are those of the sources.

    ** Not modelled

    - the builtins that only the kernel targets have, the loops over blocks and
      [ebpf_codegen_program]: they emit C whose meaning is that of kernel helpers and
      of the templates, and the lowering returns [Unmodelled] for such a call.  The
      simulation leaves out [ktime_ns] (C does not order its two operands' reads),
      assignments and [if] in operand position, and constant paths;
    - the templates other than the two histograms and the TCP server: accessors and
      stashes over kernel structures;
    - of the host runtime, the consumer cache nothing calls, the wrappers that unwrap
      the handle and the socket extension [sp_net_ext.c], which is system calls;
    - TLS (a wrapper of a library), the decoder of the vendored protocol buffer
      library, which nothing calls, the loader contract (a table of names that Ruby
      code and gates read), the command line driver and the build tools. *)

From Stdlib Require Export ZArith Bool Ascii String List Lia.
Export ListNotations.

Open Scope Z_scope.

(** ** Tactics *)

(** [inv H] inverts [H], substitutes and forgets it. *)
Ltac inv H := inversion H; subst; clear H.

(** [bools] turns boolean comparisons among the hypotheses into propositions. *)
Ltac bools :=
  repeat match goal with
  | H : (_ && _) = true |- _ => apply andb_true_iff in H; destruct H
  | H : (_ || _) = false |- _ => apply orb_false_iff in H; destruct H
  | H : negb _ = true |- _ => apply negb_true_iff in H
  | H : negb _ = false |- _ => apply negb_false_iff in H
  | H : (_ =? _) = true |- _ => apply Z.eqb_eq in H
  | H : (_ =? _) = false |- _ => apply Z.eqb_neq in H
  | H : (_ <? _) = true |- _ => apply Z.ltb_lt in H
  | H : (_ <? _) = false |- _ => apply Z.ltb_ge in H
  | H : (_ <=? _) = true |- _ => apply Z.leb_le in H
  | H : (_ <=? _) = false |- _ => apply Z.leb_gt in H
  end.

(** [case_if] splits on the condition of an [if] or the scrutinee of a [match]
    found in the goal or in a hypothesis, keeping the equation. *)
Ltac case_if :=
  match goal with
  | |- context [if ?b then _ else _] => let E := fresh "E" in destruct b eqn:E
  | H : context [if ?b then _ else _] |- _ => let E := fresh "E" in destruct b eqn:E
  end.

(** ** Machine integers

    A [w]-bit unsigned value is a [Z] in [0, 2^w); C's unsigned arithmetic is
    the operation on [Z] followed by [wrap w]. *)
Definition wrap (w x : Z) : Z := x mod 2 ^ w.

Abbreviation u8 := (wrap 8).
Abbreviation u16 := (wrap 16).
Abbreviation u32 := (wrap 32).
Abbreviation u64 := (wrap 64).

(** Reinterpretation of the low [w] bits as two's complement ([(int16_t)x] ...). *)
Definition sgn (w x : Z) : Z :=
  let y := wrap w x in if y <? 2 ^ (w - 1) then y else y - 2 ^ w.

Lemma pow2_pos w : 0 <= w -> 0 < 2 ^ w.
Proof. intros. apply Z.pow_pos_nonneg; lia. Qed.

Lemma wrap_range w x : 0 <= w -> 0 <= wrap w x < 2 ^ w.
Proof. intros. apply Z.mod_pos_bound, pow2_pos; assumption. Qed.

Lemma wrap_small w x : 0 <= x < 2 ^ w -> wrap w x = x.
Proof. apply Z.mod_small. Qed.

Lemma wrap_wrap w x : 0 <= w -> wrap w (wrap w x) = wrap w x.
Proof. intros. apply wrap_small, wrap_range; assumption. Qed.

Lemma wrap_add_l w x y : wrap w (wrap w x + y) = wrap w (x + y).
Proof. unfold wrap. now rewrite Zplus_mod_idemp_l. Qed.

Lemma wrap_add_r w x y : wrap w (x + wrap w y) = wrap w (x + y).
Proof. unfold wrap. now rewrite Zplus_mod_idemp_r. Qed.

Lemma wrap_sub_l w x y : wrap w (wrap w x - y) = wrap w (x - y).
Proof. unfold wrap. now rewrite Zminus_mod_idemp_l. Qed.

Lemma wrap_sub_r w x y : wrap w (x - wrap w y) = wrap w (x - y).
Proof. unfold wrap. now rewrite Zminus_mod_idemp_r. Qed.

Lemma sgn_range w x : 0 < w -> - 2 ^ (w - 1) <= sgn w x < 2 ^ (w - 1).
Proof.
  intros Hw. unfold sgn.
  pose proof (wrap_range w x ltac:(lia)) as R.
  assert (E : 2 ^ w = 2 * 2 ^ (w - 1)).
  { rewrite <- Z.pow_succ_r by lia. f_equal. lia. }
  destruct (Z.ltb_spec (wrap w x) (2 ^ (w - 1))); lia.
Qed.

(** A value in the signed range is unchanged. *)
Lemma sgn_small w x : 0 < w -> - 2 ^ (w - 1) <= x < 2 ^ (w - 1) -> sgn w x = x.
Proof.
  intros Hw Hx. unfold sgn.
  assert (E : 2 ^ w = 2 * 2 ^ (w - 1)).
  { rewrite <- Z.pow_succ_r by lia. f_equal. lia. }
  destruct (Z.leb_spec 0 x).
  - rewrite wrap_small by lia. destruct (Z.ltb_spec x (2 ^ (w - 1))); lia.
  - replace (wrap w x) with (x + 2 ^ w); [destruct (Z.ltb_spec (x + 2 ^ w) (2 ^ (w - 1))); lia|].
    unfold wrap. rewrite <- (Z.mod_add x 1 (2 ^ w)) by lia. rewrite Z.mul_1_l. symmetry. apply Z.mod_small. lia.
Qed.

(** Signed reinterpretation only changes the value by a multiple of [2^w]. *)
Lemma wrap_sgn w x : 0 <= w -> wrap w (sgn w x) = wrap w x.
Proof.
  intros Hw. unfold sgn. destruct (_ <? _).
  - now apply wrap_wrap.
  - unfold wrap at 1. rewrite <- Zminus_mod_idemp_r, Z_mod_same_full, Z.sub_0_r.
    now apply wrap_wrap.
Qed.

Create HintDb spnl.
Create Rewrite HintDb wrap.
Create Rewrite HintDb spnl.
#[export] Hint Resolve wrap_range wrap_small pow2_pos : spnl.
#[export] Hint Rewrite wrap_add_l wrap_add_r wrap_sub_l wrap_sub_r : wrap.

(** Shifting and or-ing in low bits is the positional sum. *)
Lemma lor_shiftl k a b : 0 <= k -> 0 <= b < 2 ^ k -> Z.lor (Z.shiftl a k) b = 2 ^ k * a + b.
Proof.
  intros Hk Hb.
  assert (L : Z.land (Z.shiftl a k) b = 0).
  { apply Z.bits_inj'. intros i Hi. rewrite Z.land_spec, Z.testbit_0_l.
    destruct (Z_lt_le_dec i k) as [H|H]; [now rewrite Z.shiftl_spec_low|].
    assert (T : Z.testbit b i = false); [|now rewrite T, andb_false_r].
    destruct (Z.eq_dec b 0) as [->|Hz]; [apply Z.testbit_0_l|].
    apply Z.bits_above_log2; [lia|]. assert (Z.log2 b < k) by (apply Z.log2_lt_pow2; lia). lia. }
  pose proof (Z.add_lor_land (Z.shiftl a k) b) as E. rewrite L, Z.shiftl_mul_pow2 in E by lia.
  rewrite Z.shiftl_mul_pow2 by lia. lia.
Qed.

(** ** Lists *)

Lemma nth_error_lt {A} (l : list A) i : (i < length l)%nat -> exists x, nth_error l i = Some x.
Proof.
  intros H. destruct (nth_error l i) eqn:E; eauto.
  apply nth_error_None in E. lia.
Qed.

(** In-place update of an array slot; an index out of range leaves it alone. *)
Fixpoint upd {A} (l : list A) (i : nat) (x : A) : list A :=
  match l, i with
  | [], _ => []
  | _ :: t, O => x :: t
  | y :: t, S j => y :: upd t j x
  end.

Lemma length_upd {A} (l : list A) i x : length (upd l i x) = length l.
Proof. revert i; induction l; intros [|i]; simpl; auto. Qed.

Lemma nth_error_upd_eq {A} (l : list A) i x :
  (i < length l)%nat -> nth_error (upd l i x) i = Some x.
Proof. revert i; induction l; intros [|i]; simpl; intros; try lia; auto. apply IHl; lia. Qed.

Lemma nth_error_upd_ne {A} (l : list A) i j x :
  i <> j -> nth_error (upd l i x) j = nth_error l j.
Proof.
  revert i j; induction l; intros [|i] [|j]; simpl; intros; try congruence; auto.
Qed.

Lemma nth_upd_eq {A} (l : list A) i x d : (i < length l)%nat -> nth i (upd l i x) d = x.
Proof. intros. apply nth_error_nth. now apply nth_error_upd_eq. Qed.

Lemma nth_upd_ne {A} (l : list A) i j x d : i <> j -> nth j (upd l i x) d = nth j l d.
Proof.
  revert i j; induction l; intros [|i] [|j]; simpl; intros; try congruence; auto.
Qed.

#[export] Hint Rewrite @length_upd : spnl.

Lemma upd_upd {A} (l : list A) i x y : upd (upd l i x) i y = upd l i y.
Proof. revert i; induction l; intros [|i]; simpl; congruence. Qed.

Lemma upd_id {A} (l : list A) i x : nth_error l i = Some x -> upd l i x = l.
Proof. revert i; induction l; intros [|i]; simpl; intros; try congruence. f_equal; auto. Qed.

Lemma upd_snoc {A} (l : list A) x y : upd (l ++ [x]) (length l) y = l ++ [y].
Proof. induction l; simpl; congruence. Qed.

Lemma Forall_upd {A} (P : A -> Prop) l i x : Forall P l -> P x -> Forall P (upd l i x).
Proof. intros H Hx. revert i. induction H; intros [|i]; cbn [upd]; constructor; auto. Qed.

Lemma upd_comm {A} (l : list A) i j x y : i <> j -> upd (upd l i x) j y = upd (upd l j y) i x.
Proof. revert i j; induction l; intros [|i] [|j] H; cbn [upd]; try congruence. f_equal. apply IHl. congruence. Qed.

Lemma firstn_upd {A} (l : list A) n i x : (n <= i)%nat -> firstn n (upd l i x) = firstn n l.
Proof.
  revert n i; induction l; intros [|n] [|i] H; cbn [upd firstn]; try reflexivity; try lia. f_equal. apply IHl. lia.
Qed.

Lemma skipn_upd {A} (l : list A) k i x : (i < k)%nat -> skipn k (upd l i x) = skipn k l.
Proof. revert k i; induction l; intros [|k] [|i] H; cbn [upd skipn]; try reflexivity; try lia. apply IHl. lia. Qed.

Lemma skipn_upd_in {A} (l : list A) k i x : (k <= i)%nat -> skipn k (upd l i x) = upd (skipn k l) (i - k) x.
Proof.
  revert k i; induction l; intros [|k] [|i] H; cbn [upd skipn Nat.sub]; try reflexivity; try lia; try (apply IHl; lia).
Qed.

Lemma skipn_nth {A} (l : list A) k d : (k < length l)%nat -> skipn k l = nth k l d :: skipn (S k) l.
Proof.
  revert k; induction l as [|a l IH]; intros [|k] H; simpl in *; try lia; [reflexivity|].
  apply IH. lia.
Qed.

Lemma skipn_min {A} (l : list A) n : skipn (Nat.min n (length l)) l = skipn n l.
Proof.
  destruct (Nat.min_spec n (length l)) as [[? ->]|[? ->]]; [reflexivity|].
  rewrite skipn_all. symmetry. now apply skipn_all2.
Qed.

Lemma map_seq_shift {A} (f : nat -> A) n m :
  map f (seq n m) = map (fun k => f (n + k)%nat) (seq 0 m).
Proof.
  revert n; induction m; intros n; simpl; [reflexivity|].
  rewrite Nat.add_0_r. f_equal. rewrite IHm.
  rewrite <- seq_shift, map_map. apply map_ext. intros k. f_equal. lia.
Qed.

(** Mapping over the indices of a list is mapping over its elements. *)
Lemma map_seq_nth {A B} (l : list A) (g : nat -> B) (h : A -> B) :
  (forall i a, nth_error l i = Some a -> g i = h a) -> map g (seq 0 (length l)) = map h l.
Proof.
  revert g. induction l as [|a l IH]; intros g H; [reflexivity|]. cbn [length seq map]. f_equal; [now apply (H 0%nat)|].
  rewrite <- seq_shift, map_map. apply IH. intros i x Hx. now apply (H (S i)).
Qed.

Lemma flat_map_seq_nth {A B} (l : list A) (g : nat -> list B) (h : A -> list B) :
  (forall i a, nth_error l i = Some a -> g i = h a) -> flat_map g (seq 0 (length l)) = flat_map h l.
Proof. intros H. rewrite !flat_map_concat_map. f_equal. now apply map_seq_nth. Qed.

Lemma Forall2_nth_error {A B} (P : A -> B -> Prop) l l' i a b :
  Forall2 P l l' -> nth_error l i = Some a -> nth_error l' i = Some b -> P a b.
Proof.
  intros H. revert i; induction H as [|x y l l' Hp _ IH]; intros [|i]; simpl; try discriminate; [congruence|apply IH].
Qed.

Lemma filter_flat_map {A B} (p : B -> bool) (f : A -> list B) l :
  filter p (flat_map f l) = flat_map (fun x => filter p (f x)) l.
Proof. induction l as [|x l IH]; [reflexivity|]. cbn [flat_map]. now rewrite filter_app, IH. Qed.
