(* ===== verification/Bytes.v ===== *)
(** * Byte strings

    Little-endian encodings of unsigned integers, slices of byte buffers and the
    multiplication/xor steps of the 64-bit mixers the runtime uses. *)

From S2P Require Import Prelude.

Definition is_byte (b : Z) : Prop := 0 <= b < 256.

(** The [n] low bytes of [v], least significant first. *)
Fixpoint le_enc (n : nat) (v : Z) : list Z :=
  match n with O => [] | S n' => v mod 256 :: le_enc n' (v / 256) end.

Fixpoint le_dec (l : list Z) : Z :=
  match l with [] => 0 | b :: l' => b + 256 * le_dec l' end.

Lemma length_le_enc n v : length (le_enc n v) = n.
Proof. revert v; induction n; intros; simpl; auto. Qed.

Lemma le_enc_bytes n v : Forall is_byte (le_enc n v).
Proof.
  revert v; induction n as [|n IH]; intros v; simpl; constructor; auto.
  apply (Z.mod_pos_bound v 256). lia.
Qed.

Lemma le_dec_enc n v : 0 <= v < 256 ^ Z.of_nat n -> le_dec (le_enc n v) = v.
Proof.
  revert v; induction n as [|n IH]; intros v Hv; [simpl in *; lia|].
  rewrite Nat2Z.inj_succ, Z.pow_succ_r in Hv by lia. cbn [le_enc le_dec].
  rewrite IH by (split; [apply Z.div_pos|apply Z.div_lt_upper_bound]; lia).
  pose proof (Z.div_mod v 256 ltac:(lia)). lia.
Qed.

Lemma le_dec_range l : Forall is_byte l -> 0 <= le_dec l < 256 ^ Z.of_nat (length l).
Proof.
  induction l as [|b l IH]; intros H; [simpl; lia|]. inv H. specialize (IH H3). unfold is_byte in H2.
  cbn [le_dec length]. rewrite Nat2Z.inj_succ, Z.pow_succ_r by lia. lia.
Qed.

Lemma le_enc_dec l : Forall is_byte l -> le_enc (length l) (le_dec l) = l.
Proof.
  induction l as [|b l IH]; intros H; [reflexivity|]. inv H. unfold is_byte in H2. cbn [length le_enc le_dec].
  rewrite (Z.mul_comm 256), Z.mod_add, Z.mod_small, Z.div_add, Z.div_small, Z.add_0_l, IH by (auto; lia).
  reflexivity.
Qed.

(** [n] bytes at offset [k]. *)
Definition slice (k n : nat) (l : list Z) : list Z := firstn n (skipn k l).

Lemma slice_app_l k n a b : (k + n <= length a)%nat -> slice k n (a ++ b) = slice k n a.
Proof.
  intros H. unfold slice. rewrite skipn_app, firstn_app, length_skipn.
  replace (n - (length a - k))%nat with 0%nat by lia. simpl. now rewrite app_nil_r.
Qed.

Lemma slice_app_r k n a b : (length a <= k)%nat -> slice k n (a ++ b) = slice (k - length a) n b.
Proof.
  intros H. unfold slice. rewrite skipn_app. rewrite (skipn_all2 a) by assumption. reflexivity.
Qed.

Lemma slice_here n a b : length a = n -> slice 0 n (a ++ b) = a.
Proof. intros <-. unfold slice. simpl. rewrite firstn_app, firstn_all, Nat.sub_diag. simpl. apply app_nil_r. Qed.

Lemma slice_at k n a b c : length a = k -> length b = n -> slice k n (a ++ b ++ c) = b.
Proof. intros <- Hn. rewrite slice_app_r, Nat.sub_diag by lia. now apply slice_here. Qed.

Lemma slice_bytes k n l : Forall is_byte l -> Forall is_byte (slice k n l).
Proof.
  intros H. unfold slice. rewrite <- (firstn_skipn k l) in H. apply Forall_app in H. destruct H as [_ H].
  rewrite <- (firstn_skipn n (skipn k l)) in H. now apply Forall_app in H.
Qed.

(** A slice does not see a store outside it. *)
Lemma slice_upd k n l i x : (i < k)%nat \/ (k + n <= i)%nat -> slice k n (upd l i x) = slice k n l.
Proof.
  intros H. unfold slice. destruct (Nat.ltb_spec i k).
  - now rewrite skipn_upd.
  - rewrite skipn_upd_in by lia. apply firstn_upd. lia.
Qed.

Lemma slice_firstn k n m l : (k + n <= m)%nat -> slice k n (firstn m l) = slice k n l.
Proof. intros H. unfold slice. rewrite skipn_firstn_comm, firstn_firstn. f_equal. lia. Qed.

(** [slices] reads the fields of a concatenation of encodings; the lengths of
    other pieces are taken from the hypotheses. *)
Ltac known_lengths :=
  rewrite ?length_le_enc, ?repeat_length;
  repeat match goal with H : length ?x = _ |- context [length ?x] => rewrite H end.
Ltac slices :=
  repeat first
    [ rewrite slice_here by (known_lengths; reflexivity)
    | rewrite slice_app_r by (known_lengths; lia); known_lengths; cbn [Nat.sub] ].

(** ** Xor and multiplication by an odd constant are invertible on 64 bits *)

Lemma lxor_range n a b : 0 <= n -> 0 <= a < 2 ^ n -> 0 <= b < 2 ^ n -> 0 <= Z.lxor a b < 2 ^ n.
Proof.
  intros Hn Ha Hb.
  assert (H : 0 <= Z.lxor a b) by (apply Z.lxor_nonneg; lia).
  split; [exact H|].
  destruct (Z.eq_dec (Z.lxor a b) 0) as [->|Hz]; [now apply pow2_pos|].
  apply Z.log2_lt_pow2; [lia|].
  pose proof (Z.log2_lxor a b ltac:(lia) ltac:(lia)).
  assert (forall x, 0 <= x < 2 ^ n -> Z.log2 x < n \/ x = 0).
  { intros x Hx. destruct (Z.eq_dec x 0); [auto|]. left. apply Z.log2_lt_pow2; lia. }
  assert (n <> 0) by (intros ->; assert (a = 0) by lia; assert (b = 0) by lia; subst; now cbn in Hz).
  destruct (H1 a Ha) as [?| ->], (H1 b Hb) as [?| ->]; simpl in *; lia.
Qed.

Lemma mul_odd_inj a ai x y : u64 (a * ai) = 1 ->
  0 <= x < 2 ^ 64 -> 0 <= y < 2 ^ 64 -> u64 (x * a) = u64 (y * a) -> x = y.
Proof.
  intros Ha Hx Hy E.
  assert (F : forall z, 0 <= z < 2 ^ 64 -> u64 (u64 (z * a) * ai) = z).
  { intros z Hz. unfold wrap in *. rewrite Zmult_mod_idemp_l, <- Z.mul_assoc.
    rewrite <- Zmult_mod_idemp_r, Ha, Z.mul_1_r. now apply Z.mod_small. }
  rewrite <- (F x Hx), <- (F y Hy). now rewrite E.
Qed.
