(* ===== verification/CText.v ===== *)
(** * C strings

    A NUL-terminated C string is modelled as the list of its characters before
    the terminator ([text]); a possibly-NULL [const char *] as an [option text].
    The library functions the sources use are the definitions below: [strcmp],
    [strncmp] against a literal, [strchr], [strstr], [strcspn], [snprintf] with a
    ["%s"], ["%d"]/["%llu"] or ["%02x"]-style conversion into a bounded buffer. *)

From S2P Require Import Prelude.

Definition text := list ascii.

(** A literal of the source. *)
Abbreviation lit := list_ascii_of_string.

(** A literal in which every single quote stands for a double quote. *)
Definition dquote : ascii := ascii_of_nat 34.
Definition qlit (s : string) : text :=
  map (fun c => if Ascii.eqb c "'" then dquote else c) (lit s).

(** Character codes, [0..255]. *)
Definition code (c : ascii) : Z := Z.of_N (N_of_ascii c).
Definition chr (z : Z) : ascii := ascii_of_N (Z.to_N (u8 z)).

Lemma code_range c : 0 <= code c < 256.
Proof. destruct c as [[] [] [] [] [] [] [] []]; vm_compute; split; congruence. Qed.

Lemma chr_code c : chr (code c) = c.
Proof. destruct c as [[] [] [] [] [] [] [] []]; reflexivity. Qed.

Lemma code_chr z : 0 <= z < 256 -> code (chr z) = z.
Proof.
  intros H. unfold code, chr. rewrite wrap_small by exact H.
  rewrite N_ascii_embedding by lia. lia.
Qed.

Lemma code_inj c d : code c = code d -> c = d.
Proof. intros H. rewrite <- (chr_code c), <- (chr_code d). now f_equal. Qed.

(** [strcmp(a, b) == 0] *)
Fixpoint text_eqb (a b : text) : bool :=
  match a, b with
  | [], [] => true
  | x :: a', y :: b' => Ascii.eqb x y && text_eqb a' b'
  | _, _ => false
  end.

Lemma text_eqb_eq a b : text_eqb a b = true <-> a = b.
Proof.
  revert b; induction a; intros [|y b]; simpl; split; intros; try congruence.
  - apply andb_true_iff in H as [H1 H2]. apply Ascii.eqb_eq in H1. apply IHa in H2. congruence.
  - injection H as -> ->. rewrite Ascii.eqb_refl. now apply IHa.
Qed.

Lemma text_eqb_refl a : text_eqb a a = true.
Proof. now apply text_eqb_eq. Qed.

Lemma text_eqb_spec a b : reflect (a = b) (text_eqb a b).
Proof. apply iff_reflect. symmetry. apply text_eqb_eq. Qed.

Lemma text_eqb_neq a b : text_eqb a b = false <-> a <> b.
Proof. destruct (text_eqb_spec a b); split; congruence. Qed.

(** [strncmp(s, p, strlen(p)) == 0]; the text after the prefix. *)
Fixpoint strip_prefix (p s : text) : option text :=
  match p, s with
  | [], _ => Some s
  | x :: p', y :: s' => if Ascii.eqb x y then strip_prefix p' s' else None
  | _ :: _, [] => None
  end.

Definition has_prefix (p s : text) : bool :=
  match strip_prefix p s with Some _ => true | None => false end.

Lemma strip_prefix_spec p s r : strip_prefix p s = Some r <-> s = p ++ r.
Proof.
  revert s; induction p as [|x p IH]; intros [|y s]; simpl; split; intros H; try congruence.
  - destruct (Ascii.eqb_spec x y); [|discriminate]. subst. f_equal. now apply IH.
  - injection H as -> ->. rewrite Ascii.eqb_refl. now apply IH.
Qed.

(** [strchr(s, c)]: the text before the first [c] and the text after it. *)
Fixpoint split_at (c : ascii) (s : text) : option (text * text) :=
  match s with
  | [] => None
  | x :: s' =>
      if Ascii.eqb x c then Some ([], s')
      else match split_at c s' with
           | Some (a, b) => Some (x :: a, b)
           | None => None
           end
  end.

Lemma split_at_spec c s a b : split_at c s = Some (a, b) -> s = a ++ c :: b /\ ~ In c a.
Proof.
  revert a b; induction s as [|x s IH]; simpl; intros a b H; [discriminate|].
  destruct (Ascii.eqb_spec x c).
  - injection H as <- <-. subst. auto.
  - destruct (split_at c s) as [[a' b']|]; [|discriminate]. injection H as <- <-.
    destruct (IH _ _ eq_refl) as [-> Hn]. simpl. split; auto. intros [?|?]; auto.
Qed.

Lemma split_at_none c s : split_at c s = None <-> ~ In c s.
Proof.
  induction s as [|x s IH]; simpl; [tauto|].
  destruct (Ascii.eqb_spec x c).
  - split; [discriminate|]. subst. tauto.
  - destruct (split_at c s) as [[a b]|].
    + split; [discriminate|]. intros H. exfalso.
      apply H. right. destruct IH as [_ IH]. destruct (in_dec ascii_dec c s); auto.
      specialize (IH n0). discriminate.
    + split; [|auto]. intros _ [?|?]; [congruence|]. now apply (proj1 IH).
Qed.

Lemma split_at_app c a b : ~ In c a -> split_at c (a ++ c :: b) = Some (a, b).
Proof.
  induction a as [|x a IH]; simpl; intros H.
  - now rewrite Ascii.eqb_refl.
  - destruct (Ascii.eqb_spec x c); [subst; tauto|]. rewrite IH; tauto.
Qed.

(** [strstr(s, p)]: the text from the first occurrence of [p] on. *)
Fixpoint strstr (s p : text) : option text :=
  match strip_prefix p s with
  | Some _ => Some s
  | None => match s with [] => None | _ :: s' => strstr s' p end
  end.

(** [strrchr(s, c)]: before and after the last [c]. *)
Fixpoint split_at_last (c : ascii) (s : text) : option (text * text) :=
  match s with
  | [] => None
  | x :: s' =>
      match split_at_last c s' with
      | Some (a, b) => Some (x :: a, b)
      | None => if Ascii.eqb x c then Some ([], s') else None
      end
  end.

(** [snprintf(dst, cap, "%s", s)]: what the buffer of [cap] bytes then holds. *)
Definition trunc (cap : nat) (s : text) : text := firstn (cap - 1) s.

Lemma length_trunc cap s : (0 < cap)%nat -> (length (trunc cap s) < cap)%nat.
Proof. intros. unfold trunc. rewrite length_firstn. lia. Qed.

Lemma trunc_id cap s : (length s < cap)%nat -> trunc cap s = s.
Proof. intros. unfold trunc. apply firstn_all2. lia. Qed.

Lemma trunc_trunc cap s : trunc cap (trunc cap s) = trunc cap s.
Proof. unfold trunc. rewrite firstn_firstn. f_equal. lia. Qed.

(** ** Decimal and hexadecimal conversions *)

Definition digit (d : Z) : ascii := chr (48 + d).

(** [fuel] bounds the number of digits; 20 are enough for a 64-bit value. *)
Fixpoint dec_digits (fuel : nat) (n : Z) (acc : text) : text :=
  match fuel with
  | O => acc
  | S f =>
      let acc' := digit (n mod 10) :: acc in
      if n <? 10 then acc' else dec_digits f (n / 10) acc'
  end.

Definition dec_fuel (n : Z) : nat := S (Z.to_nat (Z.log2 n)).

(** ["%llu"] / ["%d"] *)
Definition dec_u (n : Z) : text := dec_digits (dec_fuel n) n [].
Definition dec_s (n : Z) : text := if n <? 0 then "-"%char :: dec_u (- n) else dec_u n.

Definition is_digit (c : ascii) : bool := (48 <=? code c) && (code c <=? 57).

Definition dec_val (s : text) : Z := fold_left (fun a c => a * 10 + (code c - 48)) s 0.

Lemma code_digit d : 0 <= d < 10 -> code (digit d) = 48 + d.
Proof. intros. unfold digit. apply code_chr. lia. Qed.

Lemma is_digit_digit d : 0 <= d < 10 -> is_digit (digit d) = true.
Proof.
  intros. unfold is_digit. rewrite code_digit by lia.
  apply andb_true_iff; split; apply Z.leb_le; lia.
Qed.

Lemma dec_digits_digits f n acc : 0 <= n ->
  Forall (fun c => is_digit c = true) acc -> Forall (fun c => is_digit c = true) (dec_digits f n acc).
Proof.
  revert n acc; induction f; simpl; intros n acc Hn Ha; auto.
  pose proof (Z.mod_pos_bound n 10 ltac:(lia)).
  assert (Forall (fun c => is_digit c = true) (digit (n mod 10) :: acc))
    by (constructor; auto using is_digit_digit).
  destruct (n <? 10); auto. apply IHf; auto. apply Z.div_pos; lia.
Qed.

Lemma dec_u_digits n : 0 <= n -> Forall (fun c => is_digit c = true) (dec_u n).
Proof. intros. apply dec_digits_digits; auto. Qed.

Lemma dec_digits_nonempty f n acc : (0 < f)%nat -> dec_digits f n acc <> [].
Proof.
  revert n acc; induction f; simpl; intros n acc Hf; [lia|].
  destruct (n <? 10); [discriminate|]. destruct f; [discriminate|]. apply IHf. lia.
Qed.

Lemma dec_u_nonempty n : dec_u n <> [].
Proof. apply dec_digits_nonempty. unfold dec_fuel. lia. Qed.

Lemma dec_digits_app f n acc : dec_digits f n acc = dec_digits f n [] ++ acc.
Proof.
  revert n acc; induction f; simpl; intros n acc; [reflexivity|].
  destruct (n <? 10); [reflexivity|].
  rewrite IHf, (IHf _ [_]), <- app_assoc. reflexivity.
Qed.

Lemma dec_val_app a b : dec_val (a ++ b) = fold_left (fun a c => a * 10 + (code c - 48)) b (dec_val a).
Proof. unfold dec_val. now rewrite fold_left_app. Qed.

Lemma dec_val_digits f n : 0 <= n < 2 ^ Z.of_nat f -> (0 < f)%nat ->
  dec_val (dec_digits f n []) = n.
Proof.
  revert n; induction f; intros n Hn Hf; [lia|].
  cbn [dec_digits]. pose proof (Z.mod_pos_bound n 10 ltac:(lia)).
  destruct (Z.ltb_spec n 10).
  - unfold dec_val; simpl. rewrite code_digit by lia. rewrite Z.mod_small; lia.
  - assert (0 < f)%nat by (destruct f; [simpl in Hn; lia|lia]).
    rewrite dec_digits_app, dec_val_app, IHf; auto.
    + simpl. rewrite code_digit by lia. pose proof (Z.div_mod n 10). lia.
    + split; [apply Z.div_pos; lia|].
      rewrite Nat2Z.inj_succ, Z.pow_succ_r in Hn by lia.
      apply Z.div_lt_upper_bound; lia.
Qed.

(** Printing in decimal loses nothing. *)
Lemma dec_val_dec_u n : 0 <= n -> dec_val (dec_u n) = n.
Proof.
  intros Hn. apply dec_val_digits; unfold dec_fuel; [|lia].
  split; [lia|]. rewrite Nat2Z.inj_succ, Z2Nat.id by apply Z.log2_nonneg.
  destruct (Z.eq_dec n 0) as [->|]; [reflexivity|]. apply Z.log2_spec. lia.
Qed.

(** A number below [10^k] has at most [k] digits. *)
Lemma length_dec_u10 f m acc k : (0 < k)%nat -> 0 <= m < 10 ^ Z.of_nat k -> (length (dec_digits f m acc) <= k + length acc)%nat.
Proof.
  revert m acc k. induction f as [|f IH]; intros m acc k Hk Hm; cbn [dec_digits]; [lia|].
  destruct (Z.ltb_spec m 10); [cbn; lia|]. destruct k as [|k]; [lia|].
  destruct k as [|k]; [cbn in Hm; lia|].
  eapply Nat.le_trans; [apply (IH _ _ (S k)); [lia|]|cbn [length]; lia].
  rewrite Nat2Z.inj_succ, Z.pow_succ_r in Hm by lia. split; [apply Z.div_pos; lia|]. apply Z.div_lt_upper_bound; lia.
Qed.

Lemma dec_u_width n k : (0 < k)%nat -> 0 <= n < 10 ^ Z.of_nat k -> (length (dec_u n) <= k)%nat.
Proof. intros Hk Hn. pose proof (length_dec_u10 (dec_fuel n) n [] k Hk Hn) as L. cbn [length] in L. unfold dec_u. lia. Qed.

Lemma length_dec_u n : (length (dec_u n) <= dec_fuel n)%nat.
Proof.
  assert (G : forall f k acc, (length (dec_digits f k acc) <= f + length acc)%nat).
  { induction f as [|f IH]; intros k acc; cbn [dec_digits]; [lia|]. destruct (k <? 10); [cbn [length]; lia|].
    specialize (IH (k / 10) (digit (k mod 10) :: acc)). cbn [length] in IH. lia. }
  unfold dec_u. specialize (G (dec_fuel n) n []). cbn [length] in G. lia.
Qed.

Lemma length_dec_u_pow n w : 0 <= n < 2 ^ w -> 0 < w -> (length (dec_u n) <= Z.to_nat w)%nat.
Proof.
  intros H Hw. pose proof (length_dec_u n) as G. unfold dec_fuel in G.
  destruct (Z.eq_dec n 0) as [->|]; [change (Z.log2 0) with 0 in G; lia|].
  assert (Z.log2 n < w) by (apply Z.log2_lt_pow2; lia). lia.
Qed.

(** One lower-case hexadecimal digit. *)
Definition hexdigit (d : Z) : ascii := if d <? 10 then chr (48 + d) else chr (87 + d).

(** [hexval]/[cc_hexv]: the value of a hexadecimal digit of either case, or -1. *)
Definition hexval (c : ascii) : Z :=
  let x := code c in
  if (48 <=? x) && (x <=? 57) then x - 48
  else if (97 <=? x) && (x <=? 102) then x - 97 + 10
  else if (65 <=? x) && (x <=? 70) then x - 65 + 10
  else -1.

Lemma hexval_hexdigit d : 0 <= d < 16 -> hexval (hexdigit d) = d.
Proof.
  intros H. assert (E : In d (map Z.of_nat (seq 0 16))).
  { apply in_map_iff. exists (Z.to_nat d). split; [lia|]. apply in_seq. lia. }
  clear H. cbn in E. repeat destruct E as [<-|E]; try reflexivity. destruct E.
Qed.

Lemma hexval_range c : -1 <= hexval c < 16.
Proof. unfold hexval. pose proof (code_range c). repeat case_if; bools; lia. Qed.

(** The C string a buffer holds. *)
Fixpoint cstr (s : text) : text :=
  match s with
  | [] => []
  | c :: s' => if Ascii.eqb c "000" then [] else c :: cstr s'
  end.

Definition no_nul (s : text) : Prop := Forall (fun c => Ascii.eqb c "000" = false) s.

Lemma cstr_app a b : no_nul a -> cstr (a ++ b) = a ++ cstr b.
Proof. induction 1 as [|c a Hc _ IH]; [reflexivity|]. simpl. now rewrite Hc, IH. Qed.

Lemma cstr_id a : no_nul a -> cstr a = a.
Proof. intros H. rewrite <- (app_nil_r a) at 1. rewrite cstr_app by assumption. apply app_nil_r. Qed.

(** ** Scanning *)

Fixpoint drop_while (f : ascii -> bool) (s : text) : text :=
  match s with
  | [] => []
  | c :: s' => if f c then drop_while f s' else s
  end.

(** [sscanf]'s [%d]: white space, a sign, at least one digit. *)
Definition is_space (c : ascii) : bool := (code c =? 32) || ((9 <=? code c) && (code c <=? 13)).

Fixpoint digits (s : text) : text * text :=
  match s with
  | c :: s' => if is_digit c then let '(a, b) := digits s' in (c :: a, b) else ([], s)
  | [] => ([], [])
  end.

Definition take_sign (s : text) : bool * text :=
  match s with
  | c :: t => if Ascii.eqb c "-" then (true, t) else if Ascii.eqb c "+" then (false, t) else (false, s)
  | [] => (false, [])
  end.

Definition scan_d (s : text) : option (Z * text) :=
  let '(neg, s2) := take_sign (drop_while is_space s) in
  match digits s2 with
  | ([], _) => None
  | (d, rest) => Some (if neg then - dec_val d else dec_val d, rest)
  end.

(** [atoi]. *)
Definition atoi (s : text) : Z := match scan_d s with Some (v, _) => v | None => 0 end.

(** The C library reads a [long], which stops at its limits. *)
Definition to_long (v : Z) : Z := Z.max (- 2 ^ 63) (Z.min v (2 ^ 63 - 1)).

(** [atoi] into an [int]. *)
Definition atoi_int (s : text) : Z := sgn 32 (to_long (atoi s)).

(** [%d] of [scanf] into an [int], and [%lld]. *)
Definition scan_int (s : text) : option (Z * text) := option_map (fun vr => (sgn 32 (to_long (fst vr)), snd vr)) (scan_d s).
Definition scan_ll (s : text) : option (Z * text) := option_map (fun vr => (to_long (fst vr), snd vr)) (scan_d s).

Lemma to_long_id v : - 2 ^ 63 <= v < 2 ^ 63 -> to_long v = v.
Proof. unfold to_long. lia. Qed.

Lemma digits_app d r : Forall (fun c => is_digit c = true) d ->
  match r with [] => True | c :: _ => is_digit c = false end -> digits (d ++ r) = (d, r).
Proof.
  intros Hd Hr. induction Hd as [|c d Hc Hd IH]; simpl.
  - destruct r as [|c r]; [reflexivity|]. simpl. now rewrite Hr.
  - now rewrite Hc, IH.
Qed.

Lemma digit_not_special c : is_digit c = true -> is_space c = false /\ c <> "-"%char /\ c <> "+"%char.
Proof.
  unfold is_digit, is_space. intros H. bools.
  split; [|split; intros ->; vm_compute in H, H0; tauto || (exfalso; apply H0; reflexivity) || (exfalso; apply H; reflexivity)].
  apply orb_false_iff. rewrite Z.eqb_neq, andb_false_iff, !Z.leb_gt. lia.
Qed.

Lemma scan_d_dec n r : 0 <= n -> match r with [] => True | c :: _ => is_digit c = false end ->
  scan_d (dec_u n ++ r) = Some (n, r).
Proof.
  intros Hn Hr. pose proof (dec_u_digits n Hn) as Hd. pose proof (dec_u_nonempty n) as Hne.
  unfold scan_d. destruct (dec_u n) as [|c d] eqn:E; [congruence|].
  inv Hd. destruct (digit_not_special c H1) as (Hs & Hm & Hp).
  cbn [app drop_while]. rewrite Hs.
  assert (Hsign : take_sign (c :: d ++ r) = (false, c :: d ++ r)).
  { simpl. apply Ascii.eqb_neq in Hm, Hp. now rewrite Hm, Hp. }
  rewrite Hsign. change (c :: d ++ r) with ((c :: d) ++ r). rewrite digits_app by (auto; now constructor).
  rewrite <- E, dec_val_dec_u by assumption. reflexivity.
Qed.

Lemma scan_d_dec_s n r : match r with [] => True | c :: _ => is_digit c = false end ->
  scan_d (dec_s n ++ r) = Some (n, r).
Proof.
  intros Hr. unfold dec_s. destruct (Z.ltb_spec n 0); [|now apply scan_d_dec].
  pose proof (scan_d_dec (- n) r ltac:(lia) Hr) as E. unfold scan_d in *. cbn [app drop_while].
  change (is_space "-") with false. cbv iota. cbn [take_sign]. change (Ascii.eqb "-" "-") with true. cbv iota.
  pose proof (dec_u_digits (- n) ltac:(lia)) as Hd. pose proof (dec_u_nonempty (- n)) as Hne.
  destruct (dec_u (- n)) as [|c d]; [congruence|]. inv Hd. destruct (digit_not_special c H2) as (Hs & Hm & Hp).
  cbn [app drop_while take_sign] in E |- *. rewrite Hs in E. apply Ascii.eqb_neq in Hm, Hp.
  cbn [take_sign] in E. rewrite Hm, Hp in E.
  destruct (digits (c :: d ++ r)) as [[|x dd] rest]; [discriminate|]. injection E as E1 E2. subst rest. f_equal. f_equal. lia.
Qed.

Lemma atoi_dec_s n : atoi (dec_s n) = n.
Proof. unfold atoi. rewrite <- (app_nil_r (dec_s n)). now rewrite scan_d_dec_s. Qed.

Lemma atoi_int_dec_s n : - 2 ^ 31 <= n < 2 ^ 31 -> atoi_int (dec_s n) = n.
Proof. intros H. unfold atoi_int. rewrite atoi_dec_s, to_long_id by lia. apply sgn_small; cbn; lia. Qed.

Lemma scan_int_dec_s n r : - 2 ^ 31 <= n < 2 ^ 31 -> match r with [] => True | c :: _ => is_digit c = false end ->
  scan_int (dec_s n ++ r) = Some (n, r).
Proof.
  intros H Hr. unfold scan_int. rewrite scan_d_dec_s by assumption. cbn [option_map fst snd]. rewrite to_long_id by lia.
  rewrite sgn_small; [reflexivity|cbn; lia|cbn; lia].
Qed.

Lemma scan_ll_dec_s n r : - 2 ^ 63 <= n < 2 ^ 63 -> match r with [] => True | c :: _ => is_digit c = false end ->
  scan_ll (dec_s n ++ r) = Some (n, r).
Proof.
  intros H Hr. unfold scan_ll. rewrite scan_d_dec_s by assumption. cbn [option_map fst snd]. now rewrite to_long_id.
Qed.

(** ** [strtoul] *)

(** The value of a character as a digit of any base, 36 if it is none. *)
Definition digit_val (c : ascii) : Z :=
  let x := code c in
  if (48 <=? x) && (x <=? 57) then x - 48
  else if (97 <=? x) && (x <=? 122) then x - 97 + 10
  else if (65 <=? x) && (x <=? 90) then x - 65 + 10
  else 36.

Fixpoint radix_val (base acc : Z) (s : text) : Z :=
  match s with
  | c :: s' => if digit_val c <? base then radix_val base (acc * base + digit_val c) s' else acc
  | [] => acc
  end.

(** The prefix that base 0 recognises: [0x] before a hexadecimal digit, [0]. *)
Definition radix (base : Z) (s : text) : Z * text :=
  if base =? 0 then
    match s with
    | c :: s1 =>
        if Ascii.eqb c "0" then
          match s1 with
          | x :: d :: _ =>
              if (Ascii.eqb x "x" || Ascii.eqb x "X") && (digit_val d <? 16) then (16, tl s1) else (8, s)
          | _ => (8, s)
          end
        else (10, s)
    | [] => (10, s)
    end
  else (base, s).

(** [strtoul(s, NULL, base)] with a 64-bit [unsigned long], bases 0 and 10. *)
Definition strtoul (base : Z) (s : text) : Z :=
  let '(neg, s1) := take_sign (drop_while is_space s) in
  let '(b, s2) := radix base s1 in
  let v := radix_val b 0 s2 in
  if 2 ^ 64 <=? v then 2 ^ 64 - 1 else if neg then u64 (- v) else v.

Lemma digit_val_digit c : is_digit c = true -> digit_val c = code c - 48.
Proof. unfold is_digit, digit_val. now intros ->. Qed.

Lemma radix_val_digits d acc : Forall (fun c => is_digit c = true) d ->
  radix_val 10 acc d = fold_left (fun a c => a * 10 + (code c - 48)) d acc.
Proof.
  intros H. revert acc; induction H as [|c d Hc _ IH]; intros acc; [reflexivity|]. simpl.
  rewrite digit_val_digit by assumption. unfold is_digit in Hc. bools.
  rewrite (proj2 (Z.ltb_lt _ _)) by lia. apply IH.
Qed.

Lemma dec_digits_head f n acc c s : 0 < n < 2 ^ Z.of_nat f -> dec_digits f n acc = c :: s -> c <> "0"%char.
Proof.
  revert n acc; induction f as [|f IH]; intros n acc Hn; cbn [dec_digits]; [simpl in Hn; lia|].
  pose proof (Z.mod_pos_bound n 10 ltac:(lia)). destruct (Z.ltb_spec n 10).
  - intros E. injection E as <- _. intros E. apply (f_equal code) in E. rewrite code_digit in E by lia.
    rewrite Z.mod_small in E by lia. change (code "0") with 48 in E. lia.
  - apply IH. split; [apply Z.div_str_pos; lia|]. rewrite Nat2Z.inj_succ, Z.pow_succ_r in Hn by lia.
    apply Z.div_lt_upper_bound; lia.
Qed.

Lemma dec_u_head n c s : 0 < n -> dec_u n = c :: s -> c <> "0"%char.
Proof.
  intros Hn. apply dec_digits_head. split; [exact Hn|]. unfold dec_fuel.
  rewrite Nat2Z.inj_succ, Z2Nat.id by apply Z.log2_nonneg. apply Z.log2_spec. lia.
Qed.

Lemma strtoul_plain base d : Forall (fun c => is_digit c = true) d -> d <> [] ->
  radix base d = (10, d) -> dec_val d < 2 ^ 64 -> strtoul base d = dec_val d.
Proof.
  intros Hd Hne Hr Hv. unfold strtoul. destruct d as [|c d]; [congruence|]. pose proof Hd as Hd'. inv Hd'.
  destruct (digit_not_special c H1) as (Hs & Hm & Hp). cbn [drop_while]. rewrite Hs.
  unfold take_sign. apply Ascii.eqb_neq in Hm, Hp. rewrite Hm, Hp, Hr, radix_val_digits by assumption.
  fold (dec_val (c :: d)). destruct (Z.leb_spec (2 ^ 64) (dec_val (c :: d))); [lia|reflexivity].
Qed.

(** Both bases read a printed number back: it has no leading zero, or is zero. *)
Lemma strtoul_dec n : 0 <= n < 2 ^ 64 -> strtoul 10 (dec_u n) = n.
Proof.
  intros H. rewrite strtoul_plain; try rewrite dec_val_dec_u; try lia;
    auto using dec_u_digits, dec_u_nonempty. now apply dec_u_digits.
Qed.

Lemma strtoul0_dec n : 0 <= n < 2 ^ 64 -> strtoul 0 (dec_u n) = n.
Proof.
  intros H. destruct (Z.eq_dec n 0) as [->|Hn]; [reflexivity|].
  rewrite strtoul_plain; try rewrite dec_val_dec_u; try lia; [now apply dec_u_digits|apply dec_u_nonempty|].
  unfold radix. cbn [Z.eqb]. destruct (dec_u n) as [|c s] eqn:E; [reflexivity|].
  pose proof (dec_u_head n c s ltac:(lia) E) as Hc. apply Ascii.eqb_neq in Hc. now rewrite Hc.
Qed.

(** ** [fgets] *)

(** One call with a buffer of [room + 1] bytes: what is stored and what is left. *)
Fixpoint fgets (room : nat) (s : text) : text * text :=
  match room, s with
  | S r, c :: s' =>
      if Ascii.eqb c "010" then ([c], s') else let '(a, b) := fgets r s' in (c :: a, b)
  | _, _ => ([], s)
  end.

Lemma fgets_line room a b : (length a < room)%nat -> ~ In "010"%char a ->
  fgets room (a ++ "010"%char :: b) = (a ++ ["010"%char], b).
Proof.
  revert room; induction a as [|c a IH]; intros [|r] Hl Hn; simpl in Hl; try lia; [reflexivity|].
  cbn [app fgets]. destruct (Ascii.eqb_spec c "010"); [subst; simpl in Hn; tauto|].
  rewrite IH; [reflexivity|lia|simpl in Hn; tauto].
Qed.

Lemma fgets_shorter room s : (0 < room)%nat -> s <> [] -> (length (snd (fgets room s)) < length s)%nat.
Proof.
  revert room; induction s as [|c s IH]; intros [|r] Hr Hs; try lia; [congruence|]. cbn [fgets].
  destruct (Ascii.eqb c "010"); [simpl; lia|]. destruct r as [|r]; [destruct s; simpl; lia|].
  destruct s as [|d s]; [simpl; lia|]. pose proof (IH (S r) ltac:(lia) ltac:(discriminate)) as H.
  destruct (fgets (S r) (d :: s)) as [a b]. cbn [snd length] in *. lia.
Qed.

(** ** Words *)

(** Up to [n] characters that are no white space. *)
Fixpoint word (n : nat) (s : text) : text * text :=
  match n, s with
  | S n', c :: s' => if is_space c then ([], s) else let '(a, b) := word n' s' in (c :: a, b)
  | _, _ => ([], s)
  end.

(** [sscanf]'s [%<n>s]: white space is skipped, and there is at least one character. *)
Definition scan_word (n : nat) (s : text) : option (text * text) :=
  match word n (drop_while is_space s) with
  | ([], _) => None
  | (w, r) => Some (w, r)
  end.

Definition at_gap (r : text) : Prop := match r with [] => True | c :: _ => is_space c = true end.

Definition word_ok (n : nat) (k : text) : Prop :=
  k <> [] /\ (length k <= n)%nat /\ Forall (fun c => is_space c = false) k.

Lemma word_app n k r : (length k <= n)%nat -> Forall (fun c => is_space c = false) k -> at_gap r -> word n (k ++ r) = (k, r).
Proof.
  intros Hn Hk Hr. revert n Hn. induction Hk as [|c k Hc _ IH]; intros n Hn.
  - destruct n, r as [|c r]; cbn [word app]; try reflexivity. simpl in Hr. now rewrite Hr.
  - destruct n; [simpl in Hn; lia|]. cbn [word app]. rewrite Hc, IH by (simpl in Hn; lia). reflexivity.
Qed.

Lemma drop_spaces sp k r n : Forall (fun c => is_space c = true) sp -> word_ok n k ->
  drop_while is_space (sp ++ k ++ r) = k ++ r.
Proof.
  intros Hs (Hne & _ & Hk). induction Hs as [|c sp Hc _ IH]; cbn [app drop_while].
  - destruct k as [|c k]; [congruence|]. inv Hk. cbn [app drop_while]. now rewrite H1.
  - now rewrite Hc.
Qed.

Lemma scan_word_app n sp k r : Forall (fun c => is_space c = true) sp -> word_ok n k -> at_gap r ->
  scan_word n (sp ++ k ++ r) = Some (k, r).
Proof.
  intros Hs Hk Hr. unfold scan_word. rewrite (drop_spaces sp k r n) by assumption.
  destruct Hk as (Hne & Hl & Hk). rewrite word_app by assumption. now destruct k.
Qed.

Lemma scan_word_now n k r : word_ok n k -> at_gap r -> scan_word n (k ++ r) = Some (k, r).
Proof. intros Hk Hr. exact (scan_word_app n [] k r (Forall_nil _) Hk Hr). Qed.

Lemma drop_while_all f s : Forall (fun c => f c = true) s -> drop_while f s = [].
Proof. induction 1 as [|c s Hc _ IH]; [reflexivity|]. simpl. now rewrite Hc. Qed.

Lemma scan_word_none n s : Forall (fun c => is_space c = true) s -> scan_word n s = None.
Proof. intros H. unfold scan_word. rewrite drop_while_all by assumption. now destruct n. Qed.

(** [sscanf] with a sequence of [%<n>s] conversions: the words assigned. *)
Fixpoint scan_words (ns : list nat) (s : text) : list text :=
  match ns with
  | [] => []
  | n :: ns' =>
      match scan_word n s with
      | Some (w, r) => w :: scan_words ns' r
      | None => []
      end
  end.

(** [sscanf]'s [%llu]: a sign is accepted, the value saturates. *)
Definition scan_llu (s : text) : option (Z * text) :=
  let '(neg, s2) := take_sign (drop_while is_space s) in
  match digits s2 with
  | ([], _) => None
  | (d, rest) =>
      let v := dec_val d in
      Some (if 2 ^ 64 <=? v then 2 ^ 64 - 1 else if neg then u64 (- v) else v, rest)
  end.

Lemma scan_llu_dec n r : 0 <= n < 2 ^ 64 -> match r with [] => True | c :: _ => is_digit c = false end ->
  scan_llu (dec_u n ++ r) = Some (n, r).
Proof.
  intros Hn Hr. pose proof (dec_u_digits n ltac:(lia)) as Hd. pose proof (dec_u_nonempty n) as Hne.
  pose proof (dec_val_dec_u n ltac:(lia)) as Hv. unfold scan_llu. destruct (dec_u n) as [|c d] eqn:E; [congruence|].
  destruct (digit_not_special c (Forall_inv Hd)) as (Hs & Hm & Hp). cbn [app drop_while]. rewrite Hs.
  unfold take_sign. apply Ascii.eqb_neq in Hm, Hp. rewrite Hm, Hp.
  change (c :: d ++ r) with ((c :: d) ++ r). rewrite digits_app, Hv by assumption.
  destruct (Z.leb_spec (2 ^ 64) n); [lia|reflexivity].
Qed.

(** [while (fgets(line, room + 1, f))]: what each call stores, as a C string.  Every
    call consumes at least one character. *)
Fixpoint chunks (fuel room : nat) (s : text) : list text :=
  match fuel, s with
  | S f, _ :: _ => let '(a, b) := fgets room s in cstr a :: chunks f room b
  | _, _ => []
  end.

Definition file_lines (room : nat) (s : text) : list text := chunks (length s) room s.
