(* ===== verification/PbEncode.v ===== *)
(** * Protocol buffer encoding ([src/runtime/otlp/nanopb/pb_encode.c])

    - [Stream]: the output stream, which either fills a buffer or only counts, and the
      encoders of integers, tags, strings and submessages.
    - [Message]: messages as the field lists of their generated descriptors, and
      [pb_encode].
    - [Wire]: a reader of the wire format, written from its definition, and the bytes
      an encoder writes ([writes]): what fits is written completely, what does not fit
      is refused, and counting agrees with writing. *)

From S2P Require Import Prelude Bytes.

Module Stream.

(** [callback = false] is the sizing stream (a null callback pointer); [out] is what
    the callback has stored so far. *)
Record pb_ostream_t := mk_os { callback : bool; out : list Z; max_size : Z; bytes_written : Z }.

Definition encoder := pb_ostream_t -> bool * pb_ostream_t.

Definition pb_ostream_from_buffer (bufsize : Z) : pb_ostream_t := mk_os true [] bufsize 0.
Definition PB_OSTREAM_SIZING : pb_ostream_t := mk_os false [] 0 0.

(** The code's [if (!f(stream)) return false; return g(stream);]. *)
Definition andthen (f g : encoder) : encoder := fun st =>
  let '(ok, st') := f st in if ok then g st' else (false, st').

Definition succeed : encoder := fun st => (true, st).

Infix ">>>" := andthen (at level 61, right associativity).

Definition len (bs : list Z) : Z := Z.of_nat (length bs).

Definition pb_write (buf : list Z) : encoder := fun st =>
  let total := u64 (bytes_written st + len buf) in
  if (0 <? len buf) && callback st then
    if (total <? bytes_written st) || (max_size st <? total) then (false, st)
    else (true, mk_os (callback st) (out st ++ buf) (max_size st) total)
  else (true, mk_os (callback st) (out st) (max_size st) total).

(** [pb_write(stream, NULL, size)], called on a sizing stream only. *)
Definition pb_skip (size : Z) : encoder := fun st =>
  (true, mk_os (callback st) (out st) (max_size st) (u64 (bytes_written st + size))).

(** The first loop of [pb_encode_varint_32]: the bytes stored, then [byte] and [low]. *)
Fixpoint low_loop (n : nat) (low high byte : Z) : list Z * Z :=
  match n with
  | O => ([], byte)
  | S n' =>
      if (low =? 0) && (high =? 0) then ([], byte)
      else let '(bs, b) := low_loop n' (Z.shiftr low 7) high (Z.land low 0x7F) in (Z.lor byte 0x80 :: bs, b)
  end.

(** The second loop; [n] bounds its turns (five for 29 bits). *)
Fixpoint high_loop (n : nat) (high byte : Z) : list Z :=
  match n with
  | O => [byte]
  | S n' => if high =? 0 then [byte] else Z.lor byte 0x80 :: high_loop n' (Z.shiftr high 7) (Z.land high 0x7F)
  end.

Definition varint_32_bytes (low high : Z) : list Z :=
  let '(bs, byte) := low_loop 4 (Z.shiftr low 7) high (Z.land low 0x7F) in
  bs ++ if high =? 0 then [byte]
        else high_loop 5 (Z.shiftr high 3) (Z.lor byte (Z.shiftl (Z.land high 0x07) 4)).

Definition pb_encode_varint_32 (low high : Z) : encoder := pb_write (varint_32_bytes low high).

Definition pb_encode_varint (value : Z) : encoder :=
  if value <=? 0x7F then pb_write [value] else pb_encode_varint_32 (u32 value) (u32 (Z.shiftr value 32)).

Definition pb_encode_svarint (value : Z) : encoder :=
  pb_encode_varint (if value <? 0 then u64 (Z.lnot (u64 (Z.shiftl (Z.land (u64 value) (2 ^ 63 - 1)) 1)))
                    else u64 (Z.shiftl value 1)).

(** The value is the one in memory, as an unsigned number. *)
Definition pb_encode_fixed32 (val : Z) : encoder :=
  pb_write [Z.land val 0xFF; Z.land (Z.shiftr val 8) 0xFF; Z.land (Z.shiftr val 16) 0xFF; Z.land (Z.shiftr val 24) 0xFF].

Definition pb_encode_fixed64 (val : Z) : encoder :=
  pb_write [Z.land val 0xFF; Z.land (Z.shiftr val 8) 0xFF; Z.land (Z.shiftr val 16) 0xFF; Z.land (Z.shiftr val 24) 0xFF;
            Z.land (Z.shiftr val 32) 0xFF; Z.land (Z.shiftr val 40) 0xFF; Z.land (Z.shiftr val 48) 0xFF;
            Z.land (Z.shiftr val 56) 0xFF].

Definition pb_encode_tag (wiretype field_number : Z) : encoder :=
  pb_encode_varint (Z.lor (Z.shiftl field_number 3) wiretype).

Definition pb_encode_string (buffer : list Z) : encoder := pb_encode_varint (len buffer) >>> pb_write buffer.

(** [msg] is the encoding of the submessage; it is run once to count and once to write. *)
Definition pb_encode_submessage (msg : encoder) : encoder := fun st =>
  let '(ok, sub) := msg PB_OSTREAM_SIZING in
  if negb ok then (false, st)
  else
    let size := bytes_written sub in
    let '(ok, st) := pb_encode_varint size st in
    if negb ok then (false, st)
    else if negb (callback st) then pb_skip size st
    else if max_size st <? u64 (bytes_written st + size) then (false, st)
    else
      let '(status, sub) := msg (mk_os (callback st) (out st) size 0) in
      let st := mk_os (callback st) (out sub) (max_size st) (u64 (bytes_written st + bytes_written sub)) in
      if negb (bytes_written sub =? size) then (false, st) else (status, st).

End Stream.
Import Stream.
Infix ">>>" := andthen (at level 61, right associativity).

Module Message.

(** The field types of the descriptors (PB_LTYPE). *)
Inductive ltype := BOOL | VARINT | UVARINT | SVARINT | FIXED32 | FIXED64 | BYTES | STRING | SUBMESSAGE.

(** What a callback sees of its field. *)
Record fld := mk_fld { tag : Z; lt : ltype }.

(** A proto3 singular field, one with a [has_] flag, or a member of a union with its
    [which_] word. *)
Inductive htype := SINGULAR | OPTIONAL (has : bool) | ONEOF (which : Z).

(** A callback field may also be repeated; no message of the sources has a repeated
    field that is an array in memory ([encode_array]). *)
Inductive cbtype := Once (h : htype) | REPEATED.
Coercion Once : htype >-> cbtype.

(** A field of a message in memory: a number (the low bits of its value), a
    submessage, or a callback ([None]: a null function pointer). *)
Inductive field :=
| Static (f : fld) (h : htype) (v : Z)
| Sub (tag : Z) (h : htype) (m : list field)
| Callback (f : fld) (h : cbtype) (cb : option (fld -> encoder)).

Definition wiretype (l : ltype) : Z :=
  match l with
  | BOOL | VARINT | UVARINT | SVARINT => 0
  | FIXED32 => 5
  | FIXED64 => 1
  | BYTES | STRING | SUBMESSAGE => 2
  end.

Definition pb_encode_tag_for_field (f : fld) : encoder := pb_encode_tag (wiretype (lt f)) (tag f).

(** The value encoders of static numbers: [pb_enc_bool], [pb_enc_varint], [pb_enc_fixed]. *)
Definition encode_number (l : ltype) (v : Z) : encoder :=
  match l with
  | BOOL => pb_encode_varint (if v =? 0 then 0 else 1)
  | UVARINT => pb_encode_varint v
  | VARINT => pb_encode_varint (u64 v)
  | SVARINT => pb_encode_svarint v
  | FIXED32 => pb_encode_fixed32 (u32 v)
  | FIXED64 => pb_encode_fixed64 (u64 v)
  | _ => fun st => (false, st)
  end.

(** Whether a field without a flag has its default value. *)
Fixpoint pb_check_proto3_default_value (x : field) : bool :=
  match x with
  | Static _ h v =>
      match h with
      | SINGULAR => v =? 0
      | OPTIONAL has => negb has
      | ONEOF which => which =? 0
      end
  | Sub _ h m =>
      match h with
      | SINGULAR => forallb pb_check_proto3_default_value m
      | OPTIONAL has => negb has
      | ONEOF which => which =? 0
      end
  | Callback _ _ cb => match cb with None => true | Some _ => false end
  end.

(** The presence test at the head of [encode_field]; the default value is looked at
    for static singular fields only. *)
Definition skipped (x : field) : bool :=
  match x with
  | Static f (ONEOF w) _ => negb (w =? tag f)
  | Sub t (ONEOF w) _ => negb (w =? t)
  | Callback f (Once (ONEOF w)) _ => negb (w =? tag f)
  | Static _ (OPTIONAL has) _ | Sub _ (OPTIONAL has) _ | Callback _ (Once (OPTIONAL has)) _ => negb has
  | Static _ _ _ | Sub _ _ _ => pb_check_proto3_default_value x
  | Callback _ _ _ => false
  end.

Definition each {A} (f : A -> encoder) (l : list A) : encoder := fold_right (fun x e => f x >>> e) succeed l.

Fixpoint encode_field (x : field) : encoder :=
  if skipped x then succeed
  else
    match x with
    | Static f _ v => pb_encode_tag_for_field f >>> encode_number (lt f) v
    | Sub t _ m => pb_encode_tag_for_field (mk_fld t SUBMESSAGE) >>> pb_encode_submessage (each encode_field m)
    | Callback f _ None => succeed
    | Callback f _ (Some cb) => cb f
    end.

(** The fields in the order of the descriptor. *)
Definition pb_encode (m : list field) : encoder := each encode_field m.

(** [pb_encode] into a buffer of [cap] bytes: the bytes, [None] when it fails. *)
Definition encode_into (cap : Z) (m : list field) : option (list Z) :=
  let '(ok, st) := pb_encode m (pb_ostream_from_buffer cap) in if ok then Some (out st) else None.

End Message.
Import Message.

Module Wire.

(** ** The bytes an encoder writes *)

(** [f] counts the bytes [bs] on a sizing stream; on a buffer it appends them when
    they fit and fails when they do not. *)
Definition writes (f : encoder) (bs : list Z) : Prop :=
  (forall st, callback st = false -> 0 <= bytes_written st -> bytes_written st + len bs < 2 ^ 64 ->
     f st = (true, mk_os false (out st) (max_size st) (bytes_written st + len bs)))
  /\ (forall st, callback st = true -> 0 <= bytes_written st <= max_size st -> max_size st < 2 ^ 63 -> len bs < 2 ^ 63 ->
     if bytes_written st + len bs <=? max_size st
     then f st = (true, mk_os true (out st ++ bs) (max_size st) (bytes_written st + len bs))
     else fst (f st) = false).

Lemma len_app a b : len (a ++ b) = len a + len b.
Proof. unfold len. rewrite length_app. lia. Qed.

Lemma len_nonneg a : 0 <= len a.
Proof. unfold len. lia. Qed.

Lemma succeed_writes : writes succeed [].
Proof.
  split; intros [c o m b]; cbn [callback bytes_written max_size out]; intros; subst; unfold succeed, len; cbn [length Z.of_nat].
  - now rewrite Z.add_0_r.
  - rewrite Z.add_0_r, app_nil_r. destruct (Z.leb_spec b m); [reflexivity|lia].
Qed.

Lemma pb_write_writes bs : writes (pb_write bs) bs.
Proof.
  split; intros [c o m b]; cbn [callback bytes_written max_size out]; intros; subst; unfold pb_write;
    cbn [callback bytes_written max_size out]; pose proof (len_nonneg bs).
  - rewrite andb_false_r, wrap_small by lia. reflexivity.
  - rewrite andb_true_r, wrap_small by lia. destruct (Z.ltb_spec 0 (len bs)) as [P|P].
    + destruct (Z.ltb_spec (b + len bs) b); [lia|]. cbn [orb].
      destruct (Z.leb_spec (b + len bs) m), (Z.ltb_spec m (b + len bs)); try lia; reflexivity.
    + destruct bs as [|x bs]; [|unfold len in P; cbn [length] in P; lia].
      rewrite app_nil_r. change (len []) with 0 in *. destruct (Z.leb_spec (b + 0) m); [reflexivity|lia].
Qed.

Lemma andthen_writes f g a b : writes f a -> writes g b -> writes (f >>> g) (a ++ b).
Proof.
  intros [F1 F2] [G1 G2]. unfold andthen. pose proof (len_nonneg a). pose proof (len_nonneg b). split; intros st Hc.
  - intros H1 H2. rewrite len_app in *. rewrite F1 by (auto; lia). rewrite G1 by (cbn; auto; lia).
    cbn [callback bytes_written max_size out]. now rewrite Z.add_assoc.
  - intros H1 H2 H3. rewrite len_app in *. specialize (F2 st Hc H1 H2 ltac:(lia)).
    destruct (Z.leb_spec (bytes_written st + len a) (max_size st)) as [L|L].
    + rewrite F2. specialize (G2 (mk_os true (out st ++ a) (max_size st) (bytes_written st + len a)) eq_refl).
      cbn [callback bytes_written max_size out] in G2. specialize (G2 ltac:(lia) H2 ltac:(lia)).
      rewrite <- Z.add_assoc in G2. now rewrite app_assoc.
    + destruct (f st) as [ok st']. cbn [fst] in F2. subst ok.
      destruct (Z.leb_spec (bytes_written st + (len a + len b)) (max_size st)); [lia|reflexivity].
Qed.

Lemma each_writes {A} (f : A -> encoder) (bs : A -> list Z) l :
  (forall x, In x l -> writes (f x) (bs x)) -> writes (each f l) (flat_map bs l).
Proof.
  induction l as [|x l IH]; intros H; cbn [each fold_right flat_map]; [apply succeed_writes|].
  apply andthen_writes; [apply H; now left|apply IH; intros; apply H; now right].
Qed.

(** ** Base-128 integers *)

(** The definition of the format: seven bits at a time, least significant first. *)
Fixpoint varint_f (n : nat) (v : Z) : list Z :=
  match n with
  | O => [v]
  | S n' => if v <? 128 then [v] else (v mod 128 + 128) :: varint_f n' (v / 128)
  end.

Definition varint (v : Z) : list Z := varint_f 10 v.

Fixpoint read_varint_f (n : nat) (l : list Z) : option (Z * list Z) :=
  match n, l with
  | S n', b :: l' =>
      if b <? 128 then Some (b, l')
      else match read_varint_f n' l' with Some (v, r) => Some (b - 128 + 128 * v, r) | None => None end
  | _, _ => None
  end.

Definition read_varint (l : list Z) : option (Z * list Z) := read_varint_f 11 l.

Lemma read_varint_f_spec n v r : 0 <= v < 128 ^ (Z.of_nat n + 1) -> read_varint_f (S n) (varint_f n v ++ r) = Some (v, r).
Proof.
  revert v; induction n as [|n IH]; intros v Hv; cbn [varint_f app].
  { cbn [read_varint_f]. destruct (Z.ltb_spec v 128); [reflexivity|]. change (Z.of_nat 0 + 1) with 1 in Hv. lia. }
  destruct (Z.ltb_spec v 128) as [L|L].
  - cbn [read_varint_f app]. destruct (Z.ltb_spec v 128); [reflexivity|lia].
  - remember (S n) as k. cbn [read_varint_f app]. pose proof (Z.mod_pos_bound v 128 ltac:(lia)).
    destruct (Z.ltb_spec (v mod 128 + 128) 128); [lia|]. subst k. rewrite IH.
    + f_equal. f_equal. pose proof (Z.div_mod v 128 ltac:(lia)). lia.
    + replace (Z.of_nat (S n) + 1) with (Z.succ (Z.of_nat n + 1)) in Hv by lia. rewrite Z.pow_succ_r in Hv by lia.
      split; [apply Z.div_pos; lia|apply Z.div_lt_upper_bound; lia].
Qed.

Lemma read_varint_spec v r : 0 <= v < 2 ^ 64 -> read_varint (varint v ++ r) = Some (v, r).
Proof. intros H. apply read_varint_f_spec. change (128 ^ (Z.of_nat 10 + 1)) with (2 ^ 77). lia. Qed.

Lemma land_127 x : 0 <= x -> Z.land x 0x7F = x mod 128.
Proof. intros _. change 0x7F with (Z.ones 7). now rewrite Z.land_ones by lia. Qed.

Lemma lor_128 x : 0 <= x < 128 -> Z.lor x 0x80 = x + 128.
Proof.
  intros H. rewrite Z.lor_comm. change (Z.lor 0x80 x) with (Z.lor (Z.shiftl 1 7) x). rewrite lor_shiftl by (change (2 ^ 7) with 128; lia).
  change (2 ^ 7) with 128. lia.
Qed.

Lemma high_loop_spec n high byte : 0 <= byte < 128 -> 0 <= high < 128 ^ Z.of_nat n ->
  forall m, (n <= m)%nat -> high_loop n high byte = varint_f m (byte + 128 * high).
Proof.
  revert high byte; induction n as [|n IH]; intros high byte Hb Hh m Hm.
  { change (128 ^ Z.of_nat 0) with 1 in Hh. replace high with 0 by lia. rewrite Z.mul_0_r, Z.add_0_r.
    destruct m as [|m]; cbn [high_loop varint_f]; [reflexivity|]. destruct (Z.ltb_spec byte 128); [reflexivity|lia]. }
  destruct m as [|m]; [lia|]. cbn [high_loop varint_f]. destruct (Z.eqb_spec high 0) as [->|N].
  { rewrite Z.mul_0_r, Z.add_0_r. destruct (Z.ltb_spec byte 128); [reflexivity|lia]. }
  destruct (Z.ltb_spec (byte + 128 * high) 128); [lia|].
  rewrite lor_128 by lia. f_equal; [rewrite Z.mul_comm, Z.mod_add, Z.mod_small by lia; reflexivity|].
  rewrite (IH (Z.shiftr high 7) (Z.land high 0x7F)) with (m := m); try lia.
  - rewrite land_127, Z.shiftr_div_pow2 by lia. change (2 ^ 7) with 128. f_equal.
    rewrite (Z.mul_comm 128 high), Z.div_add, (Z.div_small byte) by lia.
    pose proof (Z.div_mod high 128 ltac:(lia)). lia.
  - rewrite land_127 by lia. apply Z.mod_pos_bound. lia.
  - rewrite Z.shiftr_div_pow2 by lia. change (2 ^ 7) with 128.
    rewrite Nat2Z.inj_succ, Z.pow_succ_r in Hh by lia.
    split; [apply Z.div_pos; lia|apply Z.div_lt_upper_bound; lia].
Qed.

Lemma high_tail n high byte : 0 <= byte < 16 -> 0 < high < 2 ^ 32 -> (5 <= n)%nat ->
  high_loop 5 (Z.shiftr high 3) (Z.lor byte (Z.shiftl (Z.land high 0x07) 4)) = varint_f n (byte + 16 * high).
Proof.
  intros Hb Hh Hn. change 0x07 with (Z.ones 3). rewrite Z.land_ones, Z.lor_comm, lor_shiftl by (change (2 ^ 4) with 16; lia).
  rewrite Z.shiftr_div_pow2 by lia. change (2 ^ 3) with 8. change (2 ^ 4) with 16.
  pose proof (Z.mod_pos_bound high 8 ltac:(lia)). pose proof (Z.div_mod high 8 ltac:(lia)).
  rewrite (high_loop_spec 5 _ _) with (m := n); try lia. f_equal. lia.
Qed.

(** With [n] turns left: what is left of the value is [byte], then [low], then [high]. *)
Lemma low_loop_spec n low high byte m : (n + 5 <= m)%nat ->
  0 <= byte < 128 -> (n = 0%nat -> byte < 16) -> 0 <= low -> 8 * low < 128 ^ Z.of_nat n -> 0 <= high < 2 ^ 32 ->
  (let '(bs, b) := low_loop n low high byte in
   bs ++ if high =? 0 then [b] else high_loop 5 (Z.shiftr high 3) (Z.lor b (Z.shiftl (Z.land high 0x07) 4)))
  = varint_f m (byte + 128 * low + 16 * 128 ^ Z.of_nat n * high).
Proof.
  revert low byte m; induction n as [|n IH]; intros low byte m Hm Hb H0 Hl0 Hl Hh.
  { change (128 ^ Z.of_nat 0) with 1 in *. replace low with 0 by lia. cbn [low_loop app].
    destruct (Z.eqb_spec high 0) as [->|N].
    - rewrite !Z.mul_0_r, !Z.add_0_r. destruct m as [|m]; cbn [varint_f]; [reflexivity|].
      destruct (Z.ltb_spec byte 128); [reflexivity|lia].
    - rewrite (high_tail m) by lia. f_equal. lia. }
  destruct m as [|m]; [lia|]. cbn [low_loop].
  rewrite Nat2Z.inj_succ, Z.pow_succ_r in * by lia.
  assert (Q : 0 < 128 ^ Z.of_nat n) by (apply Z.pow_pos_nonneg; lia).
  set (X := 128 ^ Z.of_nat n) in *.
  destruct ((low =? 0) && (high =? 0)) eqn:Z0.
  - apply andb_true_iff in Z0 as [E1 E2]. apply Z.eqb_eq in E1, E2. subst. cbn [app Z.eqb].
    rewrite !Z.mul_0_r, !Z.add_0_r. cbn [varint_f]. destruct (Z.ltb_spec byte 128); [reflexivity|lia].
  - assert (G : 0 < low \/ 0 < high).
    { apply andb_false_iff in Z0 as [E|E]; apply Z.eqb_neq in E; lia. }
    specialize (IH (Z.shiftr low 7) (Z.land low 0x7F) m). destruct (low_loop n _ high _) as [bs b].
    cbn [app varint_f].
    assert (V : byte + 128 * low + 16 * (128 * X) * high = byte + (low + 16 * X * high) * 128) by lia.
    rewrite V. destruct (Z.ltb_spec (byte + (low + 16 * X * high) * 128) 128); [nia|].
    rewrite lor_128, Z.mod_add, Z.mod_small, Z.div_add, (Z.div_small byte), Z.add_0_l by lia. f_equal.
    rewrite land_127, Z.shiftr_div_pow2 in IH by lia. change (2 ^ 7) with 128 in IH.
    pose proof (Z.mod_pos_bound low 128 ltac:(lia)). pose proof (Z.div_mod low 128 ltac:(lia)).
    rewrite IH; try lia; [f_equal; lia|].
    intros ->. unfold X in Hl. change (128 ^ Z.of_nat 0) with 1 in Hl. rewrite Z.mod_small; lia.
Qed.

Lemma varint_mono n m v : (n <= m)%nat -> 0 <= v < 128 ^ (Z.of_nat n + 1) -> varint_f n v = varint_f m v.
Proof.
  revert m v; induction n as [|n IH]; intros m v Hm Hv.
  { change (128 ^ (Z.of_nat 0 + 1)) with 128 in Hv. destruct m; cbn [varint_f]; [reflexivity|].
    destruct (Z.ltb_spec v 128); [reflexivity|lia]. }
  destruct m as [|m]; [lia|]. cbn [varint_f]. destruct (v <? 128); [reflexivity|]. f_equal. apply IH; [lia|].
  replace (Z.of_nat (S n) + 1) with (Z.succ (Z.of_nat n + 1)) in Hv by lia. rewrite Z.pow_succ_r in Hv by lia.
  split; [apply Z.div_pos; lia|apply Z.div_lt_upper_bound; lia].
Qed.

(** The encoder without 64-bit shifts writes the base-128 digits of the value. *)
Lemma pb_encode_varint_writes v : 0 <= v < 2 ^ 64 -> writes (pb_encode_varint v) (varint v).
Proof.
  intros Hv. unfold pb_encode_varint. destruct (Z.leb_spec v 0x7F) as [L|L].
  - replace (varint v) with [v]; [apply pb_write_writes|]. unfold varint; cbn [varint_f].
    destruct (Z.ltb_spec v 128); [reflexivity|lia].
  - replace (varint v) with (varint_32_bytes (u32 v) (u32 (Z.shiftr v 32))); [apply pb_write_writes|].
    rewrite (Z.shiftr_div_pow2 v) by lia. unfold varint_32_bytes, varint.
    assert (H1 : 0 <= v / 2 ^ 32 < 2 ^ 32) by (split; [apply Z.div_pos|apply Z.div_lt_upper_bound]; lia).
    rewrite (wrap_small 32 (v / 2 ^ 32)) by lia. pose proof (wrap_range 32 v ltac:(lia)) as H2.
    rewrite land_127, (Z.shiftr_div_pow2 (u32 v)) by lia. change (2 ^ 7) with 128.
    pose proof (Z.mod_pos_bound (u32 v) 128 ltac:(lia)). pose proof (Z.div_mod (u32 v) 128 ltac:(lia)).
    rewrite (low_loop_spec 4 _ _ _ 10); try lia.
    f_equal. change (16 * 128 ^ Z.of_nat 4) with (2 ^ 32). unfold wrap in *. pose proof (Z.div_mod v (2 ^ 32) ltac:(lia)). lia.
Qed.

(** ** The other scalars *)

Lemma land_255_shiftr v k : 0 <= k -> Z.land (Z.shiftr v k) 0xFF = v / 2 ^ k mod 256.
Proof. intros H. change 0xFF with (Z.ones 8). rewrite Z.land_ones, Z.shiftr_div_pow2 by lia. reflexivity. Qed.

Lemma land_255 v : Z.land v 0xFF = v mod 256.
Proof. change 0xFF with (Z.ones 8). now rewrite Z.land_ones by lia. Qed.

Lemma pb_encode_fixed64_writes v : writes (pb_encode_fixed64 v) (le_enc 8 v).
Proof.
  replace (le_enc 8 v) with
    [Z.land v 0xFF; Z.land (Z.shiftr v 8) 0xFF; Z.land (Z.shiftr v 16) 0xFF; Z.land (Z.shiftr v 24) 0xFF;
     Z.land (Z.shiftr v 32) 0xFF; Z.land (Z.shiftr v 40) 0xFF; Z.land (Z.shiftr v 48) 0xFF; Z.land (Z.shiftr v 56) 0xFF];
    [apply pb_write_writes|].
  rewrite !land_255_shiftr, land_255 by lia. cbn [le_enc]. rewrite !Z.div_div by lia. reflexivity.
Qed.

Lemma pb_encode_fixed32_writes v : writes (pb_encode_fixed32 v) (le_enc 4 v).
Proof.
  replace (le_enc 4 v) with
    [Z.land v 0xFF; Z.land (Z.shiftr v 8) 0xFF; Z.land (Z.shiftr v 16) 0xFF; Z.land (Z.shiftr v 24) 0xFF];
    [apply pb_write_writes|].
  rewrite !land_255_shiftr, land_255 by lia. cbn [le_enc]. rewrite !Z.div_div by lia. reflexivity.
Qed.

(** The sign-folding of SINT fields: 0, -1, 1, -2, ... become 0, 1, 2, 3, ... *)
Definition zigzag (v : Z) : Z := if v <? 0 then - 2 * v - 1 else 2 * v.

Lemma pb_encode_svarint_writes v : - 2 ^ 63 <= v < 2 ^ 63 -> writes (pb_encode_svarint v) (varint (zigzag v)).
Proof.
  intros Hv. unfold pb_encode_svarint, zigzag. destruct (Z.ltb_spec v 0) as [N|N].
  - replace (u64 (Z.lnot _)) with (- 2 * v - 1); [apply pb_encode_varint_writes; lia|].
    change (2 ^ 63 - 1) with (Z.ones 63). rewrite Z.land_ones, Z.shiftl_mul_pow2 by lia. change (2 ^ 1) with 2.
    assert (E : u64 v mod 2 ^ 63 = v + 2 ^ 63).
    { unfold wrap. symmetry. apply Z.mod_unique with (if v + 2 ^ 64 <? 2 ^ 63 then 0 else 1); [lia|].
      replace (v mod 2 ^ 64) with (v + 2 ^ 64) by (apply Z.mod_unique with (-1); lia).
      destruct (Z.ltb_spec (v + 2 ^ 64) (2 ^ 63)); lia. }
    rewrite E. replace (u64 ((v + 2 ^ 63) * 2)) with (2 * v + 2 ^ 64)
      by (unfold wrap; apply Z.mod_unique with 0; lia).
    unfold Z.lnot, wrap. apply Z.mod_unique with (-1); lia.
  - rewrite Z.shiftl_mul_pow2 by lia. rewrite wrap_small by lia. rewrite Z.mul_comm. change (2 ^ 1) with 2.
    apply pb_encode_varint_writes. lia.
Qed.

Lemma pb_encode_string_writes bs : len bs < 2 ^ 64 -> writes (pb_encode_string bs) (varint (len bs) ++ bs).
Proof.
  intros H. apply andthen_writes; [|apply pb_write_writes]. apply pb_encode_varint_writes. pose proof (len_nonneg bs). lia.
Qed.

(** A submessage is its length and its bytes: the counting run and the writing run
    agree. *)
Lemma pb_encode_submessage_writes msg bs : writes msg bs -> len bs < 2 ^ 63 ->
  writes (pb_encode_submessage msg) (varint (len bs) ++ bs).
Proof.
  intros [M1 M2] Hl. pose proof (len_nonneg bs). unfold pb_encode_submessage.
  rewrite (M1 PB_OSTREAM_SIZING eq_refl) by (cbn [PB_OSTREAM_SIZING bytes_written]; lia).
  cbn [PB_OSTREAM_SIZING callback out max_size bytes_written negb]. rewrite Z.add_0_l.
  destruct (pb_encode_varint_writes (len bs) ltac:(lia)) as [V1 V2]. pose proof (len_nonneg (varint (len bs))).
  split; intros st Hc.
  - intros H1 H2. rewrite len_app in *. rewrite V1 by (auto; lia). cbn [negb callback]. unfold pb_skip.
    cbn [callback out max_size bytes_written]. rewrite wrap_small, Z.add_assoc by lia. reflexivity.
  - intros H1 H2 H3. rewrite len_app in *. specialize (V2 st Hc H1 H2 ltac:(lia)).
    destruct (Z.leb_spec (bytes_written st + len (varint (len bs))) (max_size st)) as [L|L].
    + rewrite V2. cbn [negb callback out max_size bytes_written]. rewrite wrap_small, <- Z.add_assoc by lia.
      destruct (Z.ltb_spec (max_size st) (bytes_written st + (len (varint (len bs)) + len bs))) as [F|F].
      * destruct (Z.leb_spec (bytes_written st + (len (varint (len bs)) + len bs)) (max_size st)); [lia|reflexivity].
      * specialize (M2 (mk_os true (out st ++ varint (len bs)) (len bs) 0) eq_refl). cbn [bytes_written max_size out] in M2.
        specialize (M2 ltac:(lia) ltac:(lia) ltac:(lia)). rewrite Z.add_0_l, Z.leb_refl in M2. rewrite M2.
        cbn [callback out max_size bytes_written]. rewrite Z.eqb_refl, wrap_small by lia. cbn [negb].
        destruct (Z.leb_spec (bytes_written st + (len (varint (len bs)) + len bs)) (max_size st)); [|lia].
        now rewrite <- app_assoc, <- Z.add_assoc.
    + destruct (pb_encode_varint (len bs) st) as [ok st']. cbn [fst] in V2. subst ok. cbn [negb].
      destruct (Z.leb_spec (bytes_written st + (len (varint (len bs)) + len bs)) (max_size st)); [lia|reflexivity].
Qed.

(** ** Fields on the wire *)

Inductive wire := WVarint (v : Z) | W64 (v : Z) | WLen (bs : list Z) | W32 (v : Z).

Definition wire_type (w : wire) : Z := match w with WVarint _ => 0 | W64 _ => 1 | WLen _ => 2 | W32 _ => 5 end.

Definition payload (w : wire) : list Z :=
  match w with
  | WVarint v => varint v
  | W64 v => le_enc 8 v
  | WLen bs => varint (len bs) ++ bs
  | W32 v => le_enc 4 v
  end.

(** A field: its number and its value. *)
Definition wfield : Type := Z * wire.

Definition enc (f : wfield) : list Z := varint (8 * fst f + wire_type (snd f)) ++ payload (snd f).
Definition bytes (fs : list wfield) : list Z := flat_map enc fs.

(** *** The reader *)

Definition take (n : Z) (l : list Z) : option (list Z * list Z) :=
  if n <=? len l then Some (firstn (Z.to_nat n) l, skipn (Z.to_nat n) l) else None.

Definition read_wire (t : Z) (l : list Z) : option (wire * list Z) :=
  if t =? 0 then match read_varint l with Some (v, r) => Some (WVarint v, r) | None => None end
  else if t =? 1 then match take 8 l with Some (b, r) => Some (W64 (le_dec b), r) | None => None end
  else if t =? 2 then
    match read_varint l with
    | Some (n, r) => match take n r with Some (b, r) => Some (WLen b, r) | None => None end
    | None => None
    end
  else if t =? 5 then match take 4 l with Some (b, r) => Some (W32 (le_dec b), r) | None => None end
  else None.

Fixpoint fields_f (fuel : nat) (l : list Z) : option (list wfield) :=
  match l, fuel with
  | [], _ => Some []
  | _, O => None
  | _, S fuel' =>
      match read_varint l with
      | None => None
      | Some (k, r) =>
          match read_wire (k mod 8) r with
          | None => None
          | Some (w, r) => match fields_f fuel' r with Some fs => Some ((k / 8, w) :: fs) | None => None end
          end
      end
  end.

(** A message as the list of its fields. *)
Definition fields (l : list Z) : option (list wfield) := fields_f (length l) l.

(** Numbers within the widths of the format. *)
Definition num_ok (f : wfield) : Prop :=
  0 < fst f < 2 ^ 29 /\
  match snd f with WVarint v | W64 v => 0 <= v < 2 ^ 64 | W32 v => 0 <= v < 2 ^ 32 | WLen _ => True end.

Lemma take_app a b : take (len a) (a ++ b) = Some (a, b).
Proof.
  unfold take. rewrite len_app. pose proof (len_nonneg b). destruct (Z.leb_spec (len a) (len a + len b)); [|lia].
  unfold len. rewrite Nat2Z.id, firstn_app, firstn_all, Nat.sub_diag, skipn_app, skipn_all, Nat.sub_diag.
  cbn [firstn skipn]. now rewrite app_nil_r.
Qed.

Lemma take_le n v b : take (Z.of_nat n) (le_enc n v ++ b) = Some (le_enc n v, b).
Proof. rewrite <- (length_le_enc n v) at 1. apply take_app. Qed.

Lemma read_wire_payload f r : num_ok f -> len (payload (snd f)) < 2 ^ 63 ->
  read_wire (wire_type (snd f)) (payload (snd f) ++ r) = Some (snd f, r).
Proof.
  destruct f as [n w]. intros [_ H] L. cbn [snd] in *. unfold read_wire.
  destruct w as [v|v|bs|v]; cbn [wire_type payload Z.eqb Pos.eqb] in *.
  - now rewrite read_varint_spec.
  - rewrite (take_le 8), le_dec_enc by (change (256 ^ Z.of_nat 8) with (2 ^ 64); lia). reflexivity.
  - rewrite len_app in L. pose proof (len_nonneg (varint (len bs))). pose proof (len_nonneg bs).
    rewrite <- app_assoc, read_varint_spec, take_app by lia. reflexivity.
  - rewrite (take_le 4), le_dec_enc by (change (256 ^ Z.of_nat 4) with (2 ^ 32); lia). reflexivity.
Qed.

Lemma varint_nonempty v : varint v <> [].
Proof. unfold varint; cbn [varint_f]. destruct (v <? 128); discriminate. Qed.

Lemma wire_type_range w : 0 <= wire_type w < 8.
Proof. destruct w; cbn; lia. Qed.

Lemma fields_f_bytes fs : Forall num_ok fs -> len (bytes fs) < 2 ^ 63 ->
  forall fuel, (length (bytes fs) <= fuel)%nat -> fields_f fuel (bytes fs) = Some fs.
Proof.
  induction 1 as [|f fs Hf _ IH]; intros L fuel Hfu; [destruct fuel; reflexivity|].
  change (bytes (f :: fs)) with (enc f ++ bytes fs) in *. rewrite len_app in L.
  pose proof (len_nonneg (bytes fs)). pose proof (len_nonneg (enc f)). pose proof (wire_type_range (snd f)).
  pose proof Hf as [[N1 N2] _].
  assert (NE : exists b t, varint (8 * fst f + wire_type (snd f)) = b :: t).
  { destruct (varint _) as [|b t] eqn:E; [now apply varint_nonempty in E|now exists b, t]. }
  destruct NE as (b & t & E). destruct fuel as [|fuel].
  { unfold enc in Hfu. rewrite E in Hfu. cbn [app length] in Hfu. lia. }
  assert (Hs : (length (bytes fs) <= fuel)%nat).
  { unfold enc in Hfu. rewrite E, !length_app in Hfu. cbn [length] in Hfu. lia. }
  assert (C : fields_f (S fuel) (enc f ++ bytes fs) =
    match read_varint (enc f ++ bytes fs) with
    | None => None
    | Some (k, r) => match read_wire (k mod 8) r with
                     | None => None
                     | Some (w, r) => match fields_f fuel r with Some fs => Some ((k / 8, w) :: fs) | None => None end
                     end
    end) by (unfold enc; rewrite E; reflexivity).
  rewrite C. unfold enc. rewrite <- app_assoc, read_varint_spec by lia.
  rewrite (Z.mul_comm 8), Z.add_comm, Z.mod_add, Z.mod_small by lia.
  unfold enc in L. rewrite len_app in L. pose proof (len_nonneg (varint (8 * fst f + wire_type (snd f)))).
  pose proof (len_nonneg (payload (snd f))). rewrite read_wire_payload by (auto; lia). rewrite IH by (auto; lia).
  rewrite Z.div_add, Z.div_small, Z.add_0_l by lia. now destruct f.
Qed.

Lemma fields_bytes fs : Forall num_ok fs -> len (bytes fs) < 2 ^ 63 -> fields (bytes fs) = Some fs.
Proof. intros H L. now apply fields_f_bytes. Qed.

(** *** Encoders of fields *)

(** [f] writes the fields [fs], whenever they are short enough to have a length. *)
Definition emits (f : encoder) (fs : list wfield) : Prop :=
  Forall num_ok fs /\ (len (bytes fs) < 2 ^ 63 -> writes f (bytes fs)).

Lemma bytes_app a b : bytes (a ++ b) = bytes a ++ bytes b.
Proof. apply flat_map_app. Qed.

Lemma emits_nil : emits succeed [].
Proof. split; [constructor|intros _; apply succeed_writes]. Qed.

Lemma emits_andthen f g a b : emits f a -> emits g b -> emits (f >>> g) (a ++ b).
Proof.
  intros [F1 F2] [G1 G2]. split; [now apply Forall_app|]. rewrite bytes_app, len_app. intros L.
  pose proof (len_nonneg (bytes a)). pose proof (len_nonneg (bytes b)).
  apply andthen_writes; [apply F2|apply G2]; lia.
Qed.

Lemma emits_each {A} (f : A -> encoder) (fs : A -> list wfield) l :
  (forall x, In x l -> emits (f x) (fs x)) -> emits (each f l) (flat_map fs l).
Proof.
  induction l as [|x l IH]; intros H; cbn [each fold_right flat_map]; [apply emits_nil|].
  apply emits_andthen; [apply H; now left|apply IH; intros; apply H; now right].
Qed.

(** A tag followed by an encoder of the value. *)
Lemma emits_field t n w f : 0 < n < 2 ^ 29 -> num_ok (n, w) -> t = wire_type w ->
  (len (payload w) < 2 ^ 63 -> writes f (payload w)) -> emits (pb_encode_tag t n >>> f) [(n, w)].
Proof.
  intros Hn Hok -> Hf. split; [now constructor|]. unfold bytes; cbn [flat_map]. rewrite app_nil_r.
  unfold enc; cbn [fst snd]. rewrite len_app. intros L. pose proof (wire_type_range w).
  pose proof (len_nonneg (varint (8 * n + wire_type w))).
  apply andthen_writes; [|apply Hf; lia]. unfold pb_encode_tag.
  rewrite lor_shiftl by (change (2 ^ 3) with 8; lia). change (2 ^ 3) with 8. apply pb_encode_varint_writes. lia.
Qed.

Lemma emits_string f bs : wiretype (lt f) = 2 -> 0 < tag f < 2 ^ 29 ->
  emits (pb_encode_tag_for_field f >>> pb_encode_string bs) [(tag f, WLen bs)].
Proof.
  intros Hw Ht. unfold pb_encode_tag_for_field. rewrite Hw. apply emits_field; auto; [split; cbn [fst snd]; auto|].
  cbn [payload]. rewrite len_app. intros L. apply pb_encode_string_writes. pose proof (len_nonneg (varint (len bs))). lia.
Qed.

Lemma emits_submessage f msg fs : wiretype (lt f) = 2 -> 0 < tag f < 2 ^ 29 -> emits msg fs ->
  emits (pb_encode_tag_for_field f >>> pb_encode_submessage msg) [(tag f, WLen (bytes fs))].
Proof.
  intros Hw Ht [M1 M2]. unfold pb_encode_tag_for_field. rewrite Hw.
  apply emits_field; auto; [split; cbn [fst snd]; auto|].
  cbn [payload]. rewrite len_app. intros L. pose proof (len_nonneg (varint (len (bytes fs)))).
  apply pb_encode_submessage_writes; [apply M2|]; lia.
Qed.

Lemma emits_cons x m a b : emits (encode_field x) a -> emits (pb_encode m) b -> emits (pb_encode (x :: m)) (a ++ b).
Proof. apply emits_andthen. Qed.

(** Numbers: what a present static field puts on the wire. *)
Definition number_wire (l : ltype) (v : Z) : wire :=
  match l with
  | BOOL => WVarint (if v =? 0 then 0 else 1)
  | UVARINT => WVarint v
  | VARINT => WVarint (u64 v)
  | SVARINT => WVarint (zigzag v)
  | FIXED32 => W32 (u32 v)
  | _ => W64 (u64 v)
  end.

Definition number_ok (l : ltype) (v : Z) : Prop :=
  match l with
  | BOOL | VARINT | FIXED32 | FIXED64 => True
  | UVARINT => 0 <= v < 2 ^ 64
  | SVARINT => - 2 ^ 63 <= v < 2 ^ 63
  | _ => False
  end.

Lemma emits_number f v : number_ok (lt f) v -> 0 < tag f < 2 ^ 29 ->
  emits (pb_encode_tag_for_field f >>> encode_number (lt f) v) [(tag f, number_wire (lt f) v)].
Proof.
  intros Hv Ht. unfold pb_encode_tag_for_field.
  assert (W : forall w, 0 <= w -> forall x, 0 <= wrap w x < 2 ^ w) by (intros; now apply wrap_range).
  assert (Zz : - 2 ^ 63 <= v < 2 ^ 63 -> 0 <= zigzag v < 2 ^ 64)
    by (intros; unfold zigzag; destruct (Z.ltb_spec v 0); lia).
  assert (B : 0 <= (if v =? 0 then 0 else 1) < 2 ^ 64) by (destruct (v =? 0); lia).
  apply emits_field; auto.
  - split; [exact Ht|]. cbn [fst snd]. destruct (lt f); cbn [number_ok number_wire] in *; auto with zarith; contradiction.
  - destruct (lt f); cbn [number_ok] in Hv; try contradiction; reflexivity.
  - intros _. destruct (lt f); cbn [number_ok] in Hv; try contradiction; cbn [encode_number payload number_wire];
      auto using pb_encode_varint_writes, pb_encode_svarint_writes, pb_encode_fixed64_writes, pb_encode_fixed32_writes with zarith.
Qed.

Lemma emits_singular f v : number_ok (lt f) v -> 0 < tag f < 2 ^ 29 ->
  emits (encode_field (Static f SINGULAR v)) (if v =? 0 then [] else [(tag f, number_wire (lt f) v)]).
Proof.
  intros Hv Ht. cbn [encode_field skipped pb_check_proto3_default_value]. destruct (v =? 0); [apply emits_nil|].
  now apply emits_number.
Qed.

Lemma encode_into_emits cap m fs : emits (pb_encode m) fs -> 0 <= cap < 2 ^ 63 -> len (bytes fs) < 2 ^ 63 ->
  encode_into cap m = if len (bytes fs) <=? cap then Some (bytes fs) else None.
Proof.
  intros [_ W] Hc L. destruct (W L) as [_ B]. specialize (B (pb_ostream_from_buffer cap) eq_refl ltac:(cbn; lia) ltac:(cbn; lia) L).
  unfold encode_into. cbn [bytes_written max_size pb_ostream_from_buffer Z.add Stream.out app] in *.
  destruct (len (bytes fs) <=? cap).
  - rewrite B. reflexivity.
  - destruct (pb_encode m _) as [ok st]. cbn [fst] in B. now subst ok.
Qed.

(** *** Whole messages *)

(** The fields of a message on the wire; [cb] gives those of a callback. *)
Section Fields.
Variable cb : fld -> (fld -> encoder) -> list wfield.

Fixpoint wire_of (x : field) : list wfield :=
  if skipped x then []
  else
    match x with
    | Static f _ v => [(tag f, number_wire (lt f) v)]
    | Sub t _ m => [(t, WLen (bytes (flat_map wire_of m)))]
    | Callback _ _ None => []
    | Callback f _ (Some g) => cb f g
    end.

(** Field numbers in the range of the format, numbers in the range of their type, and
    callbacks that write the fields they are said to. *)
Fixpoint field_ok (x : field) : Prop :=
  match x with
  | Static f _ v => 0 < tag f < 2 ^ 29 /\ number_ok (lt f) v
  | Sub t _ m => 0 < t < 2 ^ 29 /\ fold_right (fun x P => field_ok x /\ P) True m
  | Callback _ _ None => True
  | Callback f _ (Some g) => emits (g f) (cb f g)
  end.

Definition message_ok (m : list field) : Prop := fold_right (fun x P => field_ok x /\ P) True m.

Fixpoint field_emits (x : field) : field_ok x -> emits (encode_field x) (wire_of x).
Proof.
  destruct x as [f h v|t h m|f h [g|]]; intros H; cbn [encode_field wire_of]; destruct (skipped _); try apply emits_nil.
  - destruct H. now apply emits_number.
  - destruct H as [Ht Hm]. apply (emits_submessage (mk_fld t SUBMESSAGE)); [reflexivity|exact Ht|].
    revert Hm. clear -field_emits. induction m as [|x m IH]; intros Hm; [apply emits_nil|].
    destruct Hm as [Hx Hm]. cbn [each fold_right flat_map]. apply emits_andthen; [now apply field_emits|now apply IH].
  - exact H.
Qed.

Lemma message_emits m : message_ok m -> emits (pb_encode m) (flat_map wire_of m).
Proof.
  induction m as [|x m IH]; intros H; [apply emits_nil|]. destruct H. cbn [flat_map].
  apply emits_cons; [now apply field_emits|now apply IH].
Qed.

End Fields.

(** C15: encoding a message, nested to any depth, writes its bytes when they fit the
    buffer and fails otherwise (the size pass and the writing pass over a submessage
    agree); a reader of the wire format recovers from the bytes exactly the present
    fields with their values, in descriptor order, and leaves out exactly the fields
    that are absent or at their default. *)
Theorem pb_encode_read_back cb m cap : message_ok cb m -> 0 <= cap < 2 ^ 63 ->
  let bs := bytes (flat_map (wire_of cb) m) in
  len bs < 2 ^ 63 ->
  encode_into cap m = (if len bs <=? cap then Some bs else None) /\ fields bs = Some (flat_map (wire_of cb) m).
Proof.
  intros H Hc bs L. pose proof (message_emits cb m H) as E. split; [now apply encode_into_emits|]. apply fields_bytes; [apply E|exact L].
Qed.

Definition sample_message : list field :=
  [Static (mk_fld 1 FIXED64) SINGULAR 1700; Static (mk_fld 2 UVARINT) SINGULAR 0;
   Sub 5 (OPTIONAL true) [Static (mk_fld 3 VARINT) (ONEOF 3) (-1)]; Static (mk_fld 6 SVARINT) SINGULAR (-2)].

Lemma pb_encode_read_back_witness :
  exists bs, encode_into 64 sample_message = Some bs /\ encode_into 20 sample_message = None /\
    fields bs = Some [(1, W64 1700); (5, WLen (bytes [(3, WVarint (2 ^ 64 - 1))])); (6, WVarint 3)].
Proof.
  assert (M : message_ok (fun _ _ => []) sample_message) by (cbn; lia).
  destruct (pb_encode_read_back (fun _ _ => []) sample_message 64 M) as [B R]; [lia|vm_compute; reflexivity|].
  eexists. split; [exact B|]. split; [vm_compute; reflexivity|]. rewrite R. vm_compute. reflexivity.
Defined.

End Wire.
