(* ===== verification/AmpRing.v ===== *)
(** * The shared rings ([include/spnl/amp_ring.h])

    Single-producer/single-consumer rings in the DDR carveout.  The event ring
    ([struct amp_ring]) and the command ring ([struct amp_cmd_ring], AmpAbi.v)
    share one control block followed by the record slots; [prod] and [cons] are
    32-bit counters that wrap.

    - [Spsc]: the control block over any record type, the queue it stands for and
      the index arithmetic, whenever the capacity divides [2^32].
    - [Ring]: the event ring; the producer refines a bounded FIFO queue, and what
      happens at the counters' wrap-around when the capacity does not divide
      [2^32]. *)

From S2P Require Import Prelude.

Module Spsc.

(** The control block and the slots behind it. *)
Record ctrl_ring (R : Type) := mk_ring {
  magic : Z;
  ring_version : Z;
  capacity : Z;
  rec_size : Z;
  prod : Z;
  cons : Z;
  pad : Z * Z;
  slots : list R
}.
Arguments mk_ring {R}.
Arguments magic {R}.
Arguments ring_version {R}.
Arguments capacity {R}.
Arguments rec_size {R}.
Arguments prod {R}.
Arguments cons {R}.
Arguments pad {R}.
Arguments slots {R}.

(** A record of zero bytes. *)
Class Zeroed (R : Type) := zeroed : R.

(** The abstract specification: a FIFO queue that refuses an element when full. *)
Definition fifo_push {A} (cap : nat) (q : list A) (x : A) : list A * Z :=
  if (length q <? cap)%nat then (q ++ [x], 1) else (q, 0).

Section Queue.
Context {R : Type} {z : Zeroed R}.
Implicit Type r : ctrl_ring R.

(** [&slots(r)[i % r->capacity]], as an index. *)
Definition slot_ix (r : ctrl_ring R) (i : Z) : nat := Z.to_nat (i mod capacity r).

Definition set_slot (r : ctrl_ring R) (i : nat) (x : R) : ctrl_ring R :=
  mk_ring (magic r) (ring_version r) (capacity r) (rec_size r) (prod r) (cons r) (pad r)
    (upd (slots r) i x).

Definition set_prod (r : ctrl_ring R) (p : Z) : ctrl_ring R :=
  mk_ring (magic r) (ring_version r) (capacity r) (rec_size r) p (cons r) (pad r) (slots r).

Definition set_cons (r : ctrl_ring R) (c : Z) : ctrl_ring R :=
  mk_ring (magic r) (ring_version r) (capacity r) (rec_size r) (prod r) c (pad r) (slots r).

(** ** The queue the ring stands for *)

(** Number of records published and not yet consumed. *)
Definition count (r : ctrl_ring R) : nat := Z.to_nat (u32 (prod r - cons r)).

Definition slot_at (r : ctrl_ring R) (i : Z) : R := nth (slot_ix r i) (slots r) z.

Definition pending (r : ctrl_ring R) : list R :=
  map (fun k => slot_at r (u32 (cons r + Z.of_nat k))) (seq 0 (count r)).

(** A ring whose counters and slots fit together. *)
Record ring_ok (r : ctrl_ring R) : Prop := {
  ok_cap : 0 < capacity r < 2 ^ 32;
  ok_div : (capacity r | 2 ^ 32);
  ok_prod : 0 <= prod r < 2 ^ 32;
  ok_cons : 0 <= cons r < 2 ^ 32;
  ok_slots : length (slots r) = Z.to_nat (capacity r);
  ok_fill : u32 (prod r - cons r) <= capacity r
}.

(** ** Index arithmetic *)

Lemma u32_mod_cap cap x : 0 < cap -> (cap | 2 ^ 32) -> u32 x mod cap = x mod cap.
Proof.
  intros Hc [q Hq]. unfold wrap. rewrite Hq.
  assert (0 < q) by nia.
  apply Z.mod_mod_divide. exists q; lia.
Qed.

(** Two counters less than a capacity apart never share a slot. *)
Lemma mod_window_inj cap c a b :
  0 <= a < cap -> 0 <= b < cap -> (c + a) mod cap = (c + b) mod cap -> a = b.
Proof.
  intros Ha Hb E.
  assert (H : (a - b) mod cap = 0).
  { replace (a - b) with ((c + a) - (c + b)) by lia.
    rewrite Zminus_mod, E, Z.sub_diag. apply Z.mod_0_l. lia. }
  apply Z.mod_divide in H; [|lia]. destruct H as [k Hk].
  assert (-1 < k < 1) by nia. nia.
Qed.

Lemma slot_ix_lt r i : ring_ok r -> (slot_ix r i < length (slots r))%nat.
Proof.
  intros [Hc _ _ _ Hl _]. rewrite Hl. unfold slot_ix.
  pose proof (Z.mod_pos_bound i (capacity r) ltac:(lia)). lia.
Qed.

Lemma slot_ix_u32 r i : ring_ok r -> slot_ix r (u32 i) = slot_ix r i.
Proof. intros [Hc Hd _ _ _ _]. unfold slot_ix. rewrite u32_mod_cap; auto; lia. Qed.

Lemma slot_ix_inj r c a b : ring_ok r ->
  0 <= a < capacity r -> 0 <= b < capacity r ->
  slot_ix r (u32 (c + a)) = slot_ix r (u32 (c + b)) -> a = b.
Proof.
  intros Hok Ha Hb E. rewrite !slot_ix_u32 in E by assumption.
  unfold slot_ix in E.
  pose proof (Z.mod_pos_bound (c + a) (capacity r) ltac:(lia)).
  pose proof (Z.mod_pos_bound (c + b) (capacity r) ltac:(lia)).
  apply mod_window_inj with (c := c) (cap := capacity r); lia.
Qed.

Lemma prod_as_offset r : ring_ok r -> prod r = u32 (cons r + u32 (prod r - cons r)).
Proof.
  intros [_ _ Hp _ _ _]. rewrite wrap_add_r.
  replace (cons r + (prod r - cons r)) with (prod r) by lia. symmetry. now apply wrap_small.
Qed.

Lemma length_pending r : length (pending r) = count r.
Proof. unfold pending. now rewrite length_map, length_seq. Qed.

Lemma count_le_cap r : ring_ok r -> (count r <= Z.to_nat (capacity r))%nat.
Proof. intros [_ _ _ _ _ Hf]. unfold count. lia. Qed.

Lemma fill_nonneg r : 0 <= u32 (prod r - cons r) < 2 ^ 32.
Proof. apply wrap_range. lia. Qed.

(** Writing the slot of the producer's counter leaves every pending record alone. *)
Lemma slot_at_write_free r x k : ring_ok r ->
  0 <= k < u32 (prod r - cons r) -> u32 (prod r - cons r) < capacity r ->
  slot_at (set_slot r (slot_ix r (prod r)) x) (u32 (cons r + k)) = slot_at r (u32 (cons r + k)).
Proof.
  intros Hok Hk Hlt. unfold slot_at. simpl.
  apply nth_upd_ne. unfold slot_ix at 2; simpl.
  fold (slot_ix r (u32 (cons r + k))).
  rewrite (prod_as_offset r Hok). intros E.
  apply slot_ix_inj in E; auto; try lia.
Qed.

Lemma u32_succ_diff p c : u32 (u32 (p + 1) - c) = u32 (u32 (p - c) + 1).
Proof. autorewrite with wrap. f_equal. lia. Qed.

Lemma pending_publish r x : ring_ok r -> u32 (prod r - cons r) < capacity r ->
  let r' := set_prod (set_slot r (slot_ix r (prod r)) x) (u32 (prod r + 1)) in
  pending r' = pending r ++ [x].
Proof.
  intros Hok Hlt r'. pose proof (fill_nonneg r) as Hn.
  assert (Hcnt : count r' = S (count r)).
  { unfold count, r'; simpl. rewrite u32_succ_diff, wrap_small; [lia|].
    destruct Hok; lia. }
  unfold pending. rewrite Hcnt, seq_S, map_app. simpl. f_equal.
  - apply map_ext_in. intros k Hk%in_seq.
    unfold r'. apply (slot_at_write_free r x); auto. unfold count in *. lia.
  - f_equal. unfold count. rewrite Z2Nat.id by lia.
    rewrite <- (prod_as_offset r Hok). unfold slot_at, r'; simpl.
    unfold slot_ix; simpl. fold (slot_ix r (prod r)).
    apply nth_upd_eq. now apply slot_ix_lt.
Qed.

(** Advancing the consumer's counter by [n] drops the [n] oldest records. *)
Lemma pending_consume r n : ring_ok r -> (n <= count r)%nat ->
  let r' := set_cons r (u32 (cons r + Z.of_nat n)) in
  ring_ok r' /\ pending r' = skipn n (pending r).
Proof.
  intros Hok Hn r'. pose proof (fill_nonneg r) as Hf. unfold count in Hn.
  assert (Hd : u32 (prod r' - cons r') = u32 (prod r - cons r) - Z.of_nat n).
  { unfold r'; simpl. rewrite wrap_sub_r, Z.sub_add_distr, <- wrap_sub_l.
    apply wrap_small. lia. }
  split.
  - destruct Hok. split; auto; try (unfold r'; simpl; apply wrap_range; lia).
    rewrite Hd. unfold r'; simpl; lia.
  - unfold pending, count. rewrite Hd.
    rewrite skipn_map, skipn_seq, Nat.add_0_l, (map_seq_shift _ n).
    replace (Z.to_nat (u32 (prod r - cons r) - Z.of_nat n))
      with (Z.to_nat (u32 (prod r - cons r)) - n)%nat by lia.
    apply map_ext. intros k. unfold slot_at, slot_ix, r'; simpl.
    rewrite wrap_add_l, Nat2Z.inj_add, Z.add_assoc. reflexivity.
Qed.

(** ** What a consumer takes *)

Lemma nth_pending r k (d : R) : (k < count r)%nat ->
  nth k (pending r) d = slot_at r (u32 (cons r + Z.of_nat k)).
Proof.
  intros H. unfold pending.
  rewrite nth_indep with (d' := (fun k => slot_at r (u32 (cons r + Z.of_nat k))) 0%nat)
    by (rewrite length_map, length_seq; lia).
  rewrite (map_nth (fun k => slot_at r (u32 (cons r + Z.of_nat k)))), seq_nth by assumption.
  reflexivity.
Qed.

(** The consumer's counter meets the producer's exactly when all is read. *)
Lemma counter_meets r k : ring_ok r -> (k <= count r)%nat ->
  (u32 (cons r + Z.of_nat k) =? prod r) = (k =? count r)%nat.
Proof.
  intros Hok Hk. pose proof (fill_nonneg r) as Hn. unfold count in *.
  destruct (Nat.eqb_spec k (Z.to_nat (u32 (prod r - cons r)))) as [->|Hne].
  - rewrite Z2Nat.id by lia. rewrite <- prod_as_offset by assumption. apply Z.eqb_refl.
  - apply Z.eqb_neq. intros E. apply Hne.
    assert (u32 (prod r - cons r) = Z.of_nat k); [|lia].
    rewrite <- E, wrap_sub_l. replace (cons r + Z.of_nat k - cons r) with (Z.of_nat k) by lia.
    apply wrap_small. lia.
Qed.

Lemma consume_upto r n : ring_ok r ->
  let r' := set_cons r (u32 (cons r + Z.of_nat (Nat.min n (count r)))) in
  ring_ok r' /\ pending r' = skipn n (pending r).
Proof.
  intros Hok r'. destruct (pending_consume r (Nat.min n (count r)) Hok) as [H1 H2]; [lia|].
  split; [exact H1|]. unfold r'. rewrite H2, <- length_pending. apply skipn_min.
Qed.

(** The push every producer of such a ring performs. *)
Definition ring_push r (x : R) : ctrl_ring R * Z :=
  if capacity r <=? u32 (prod r - cons r) then (r, 0)
  else (set_prod (set_slot r (slot_ix r (prod r)) x) (u32 (prod r + 1)), 1).

Lemma ring_ok_push r x : ring_ok r -> ring_ok (fst (ring_push r x)).
Proof.
  intros Hok. unfold ring_push. case_if; [assumption|]. bools.
  pose proof (fill_nonneg r). destruct Hok as [? ? ? ? ? ?].
  split; simpl; auto.
  - apply wrap_range; lia.
  - now rewrite length_upd.
  - rewrite u32_succ_diff, wrap_small by lia. lia.
Qed.

Lemma ring_push_fifo r x : ring_ok r ->
  (pending (fst (ring_push r x)), snd (ring_push r x)) =
    fifo_push (Z.to_nat (capacity r)) (pending r) x.
Proof.
  intros Hok. unfold fifo_push. rewrite length_pending. unfold ring_push.
  pose proof (fill_nonneg r). unfold count.
  destruct (Z.leb_spec (capacity r) (u32 (prod r - cons r))).
  - destruct (Nat.ltb_spec (Z.to_nat (u32 (prod r - cons r))) (Z.to_nat (capacity r)));
      [lia|reflexivity].
  - destruct (Nat.ltb_spec (Z.to_nat (u32 (prod r - cons r))) (Z.to_nat (capacity r))); [|lia].
    simpl. f_equal. now apply pending_publish.
Qed.

End Queue.

End Spsc.

Module Ring.
Import Spsc.

Definition AMP_RING_MAGIC : Z := 0x474E5241.
Definition AMP_RING_VERSION : Z := 1.
Definition AMP_EVT_USER_BASE : Z := 0x0100.

Record amp_evt_hdr := mk_hdr {
  type : Z;
  version : Z;
  reserved : Z;
  timestamp : Z
}.

Record amp_ring_rec := mk_rec {
  hdr : amp_evt_hdr;
  value : Z
}.

(** [sizeof(struct amp_ring_rec)]: 2 + 2 + 4 + 8 header bytes and an int64. *)
Definition sizeof_rec : Z := 24.

Abbreviation amp_ring := (ctrl_ring amp_ring_rec).

#[export] Instance rec0 : Zeroed amp_ring_rec := mk_rec (mk_hdr 0 0 0 0) 0.

(** The control block is initialised; the slots keep whatever memory held. *)
Definition amp_ring_init (r : amp_ring) (cap : Z) : amp_ring :=
  mk_ring AMP_RING_MAGIC AMP_RING_VERSION cap sizeof_rec 0 0 (0, 0) (slots r).

Definition emitted (ts v : Z) : amp_ring_rec :=
  mk_rec (mk_hdr AMP_EVT_USER_BASE AMP_RING_VERSION 0 ts) v.

Definition amp_ring_emit (r : amp_ring) (ts v : Z) : amp_ring * Z :=
  let p := prod r in
  let c := cons r in
  if capacity r <=? u32 (p - c) then (r, 0)
  else
    let r1 := set_slot r (slot_ix r p) (emitted ts v) in
    (set_prod r1 (u32 (p + 1)), 1).

Lemma amp_ring_emit_push r ts v : amp_ring_emit r ts v = ring_push r (emitted ts v).
Proof. reflexivity. Qed.

Lemma ring_ok_emit r ts v : ring_ok r -> ring_ok (fst (amp_ring_emit r ts v)).
Proof. apply ring_ok_push. Qed.

(** A freshly initialised ring is well formed and empty. *)
Lemma amp_ring_init_ok r cap : 0 < cap < 2 ^ 32 -> (cap | 2 ^ 32) ->
  length (slots r) = Z.to_nat cap ->
  ring_ok (amp_ring_init r cap) /\ pending (amp_ring_init r cap) = [].
Proof.
  intros Hc Hd Hl. split; [|reflexivity].
  split; simpl; auto; try lia. rewrite wrap_small; lia.
Qed.

(** C2: [amp_ring_emit] implements a bounded FIFO queue: on a well-formed ring
    whose capacity divides 2^32 it keeps the ring well formed and, on the queue of
    unread records, either appends exactly the emitted record and returns 1, or,
    when the queue is full, drops the new record, changes nothing and returns 0 --
    across the wrap-around of the 32-bit counters too. *)
Theorem amp_ring_emit_refines_fifo (r : amp_ring) (ts v : Z) : ring_ok r ->
  ring_ok (fst (amp_ring_emit r ts v)) /\
  (pending (fst (amp_ring_emit r ts v)), snd (amp_ring_emit r ts v)) =
    fifo_push (Z.to_nat (capacity r)) (pending r) (emitted ts v).
Proof.
  intros Hok. rewrite amp_ring_emit_push. split; [now apply ring_ok_push|now apply ring_push_fifo].
Qed.

(** A two-slot ring whose producer counter sits on the wrap-around. *)
Definition sample_ring : amp_ring :=
  mk_ring AMP_RING_MAGIC AMP_RING_VERSION 2 sizeof_rec (2 ^ 32 - 1) (2 ^ 32 - 2) (0, 0)
    [emitted 10 100; emitted 9 90].

Lemma sample_ring_ok : ring_ok sample_ring.
Proof.
  split; simpl; try (vm_compute; intuition congruence).
  exists (2 ^ 31). reflexivity.
Defined.

Lemma amp_ring_emit_refines_fifo_witness :
  ring_ok sample_ring /\
  (pending (fst (amp_ring_emit sample_ring 11 110)), snd (amp_ring_emit sample_ring 11 110)) =
    ([emitted 10 100; emitted 11 110], 1).
Proof.
  split; [exact sample_ring_ok|].
  exact (proj2 (amp_ring_emit_refines_fifo sample_ring 11 110 sample_ring_ok)).
Defined.

(** the capacity must divide 2^32.  On a three-slot ring whose counters have
    just reached 2^32 - 1, two successive emits both report success (1) although
    only two records are unread, and the second one has overwritten the first: the
    consumer sees the newer record twice and never the older one. *)
Theorem amp_ring_emit_clobbers_at_wrap (s0 s1 s2 : amp_ring_rec) (t1 v1 t2 v2 : Z) :
  let r0 := mk_ring AMP_RING_MAGIC AMP_RING_VERSION 3 sizeof_rec (2 ^ 32 - 1) (2 ^ 32 - 1) (0, 0)
              [s0; s1; s2] in
  let r1 := fst (amp_ring_emit r0 t1 v1) in
  let r2 := fst (amp_ring_emit r1 t2 v2) in
  snd (amp_ring_emit r0 t1 v1) = 1 /\ snd (amp_ring_emit r1 t2 v2) = 1 /\
  pending r1 = [emitted t1 v1] /\ pending r2 = [emitted t2 v2; emitted t2 v2].
Proof. repeat split. Qed.

End Ring.
