(* ===== verification/OtlpHist.v ===== *)
(** * Latency histograms, from the kernel's slots to the exported buckets

    - [Doubles]: the binary64 arithmetic of the C code, on the formal floats of the
      standard library.
    - [Kernel]: the power-of-two slots the generated kernel code counts in
      ([src/codegen_c/templates/histogram.template.c]).
    - [Fold]: [otlp_log2_fold] of [src/runtime/otlp/otlp_metrics.h], against the
      histogram one would build from the samples themselves.
    - [Percentile]: [_spnl_hist_percentile_counts] of [src/runtime/spnl_runtime.c]. *)

From Stdlib Require Import SpecFloat.
From S2P Require Import Prelude.

Module Doubles.

Definition double := spec_float.

Definition d_of_Z (z : Z) : double := binary_normalize 53 1024 z 0 false.
Definition d_add (x y : double) : double := SFadd 53 1024 x y.
Definition d_sub (x y : double) : double := SFsub 53 1024 x y.
Definition d_mul (x y : double) : double := SFmul 53 1024 x y.
Definition d_div (x y : double) : double := SFdiv 53 1024 x y.
Definition d_le (x y : double) : bool := SFleb x y.
Definition d_lt (x y : double) : bool := SFltb x y.

(** A decimal literal [n / 10^k], rounded once as the compiler does: both integers
    are exact, so the division rounds the exact quotient. *)
Definition d_dec (n k : Z) : double := d_div (d_of_Z n) (d_of_Z (10 ^ k)).

(** The conversion to [uint64_t]: towards zero ([None]: the value does not fit,
    and the conversion is undefined). *)
Definition d_to_u64 (x : double) : option Z :=
  let fit z := if (0 <=? z) && (z <? 2 ^ 64) then Some z else None in
  match x with
  | S754_zero _ => Some 0
  | S754_finite s m e =>
      let a := if 0 <=? e then Z.pos m * 2 ^ e else Z.pos m / 2 ^ (- e) in
      fit (if s then - a else a)
  | _ => None
  end.

Lemma d_to_u64_range x z : d_to_u64 x = Some z -> 0 <= z < 2 ^ 64.
Proof.
  assert (F : forall a, (if (0 <=? a) && (a <? 2 ^ 64) then Some a else None) = Some z -> 0 <= z < 2 ^ 64).
  { intros a E. destruct (Z.leb_spec 0 a), (Z.ltb_spec a (2 ^ 64)); inv E; lia. }
  destruct x; cbn [d_to_u64]; try discriminate; [intros E; inv E; lia|apply F].
Qed.

End Doubles.
Import Doubles.

(** ** Counting *)

Definition count {A} (p : A -> bool) (l : list A) : Z := Z.of_nat (length (filter p l)).

Lemma count_nil {A} (p : A -> bool) : count p [] = 0.
Proof. reflexivity. Qed.

Lemma count_cons {A} (p : A -> bool) x l : count p (x :: l) = (if p x then 1 else 0) + count p l.
Proof. unfold count; cbn [filter]. destruct (p x); cbn [length]; lia. Qed.

Lemma count_range {A} (p : A -> bool) l : 0 <= count p l <= Z.of_nat (length l).
Proof. unfold count. pose proof (filter_length_le p l). lia. Qed.

Lemma count_ext {A} (p q : A -> bool) l : Forall (fun x => p x = q x) l -> count p l = count q l.
Proof. induction 1 as [|x l E _ IH]; [reflexivity|]. now rewrite !count_cons, E, IH. Qed.

Lemma count_all {A} (p : A -> bool) l : Forall (fun x => p x = true) l -> count p l = Z.of_nat (length l).
Proof. induction 1 as [|x l E _ IH]; [reflexivity|]. rewrite count_cons, E, IH. cbn [length]. lia. Qed.

(** The position of the first element that satisfies [p], the length without one:
    the shape of every bucket search of the runtime. *)
Fixpoint first_index {A} (p : A -> bool) (l : list A) : nat :=
  match l with
  | [] => O
  | x :: l' => if p x then O else S (first_index p l')
  end.

Lemma first_index_le {A} (p : A -> bool) l : (first_index p l <= length l)%nat.
Proof. induction l as [|x l IH]; cbn [first_index length]; [lia|]. destruct (p x); lia. Qed.

Lemma first_index_at {A} (p : A -> bool) l j :
  (j <= length l)%nat -> forallb (fun x => negb (p x)) (firstn j l) = true ->
  match nth_error l j with Some x => p x = true | None => True end -> first_index p l = j.
Proof.
  revert j; induction l as [|x l IH]; intros [|j] Hj Hf Hn; cbn [first_index length firstn forallb nth_error] in *;
    try lia; try reflexivity.
  - now rewrite Hn.
  - apply andb_true_iff in Hf as [Hx Hf]. destruct (p x); [discriminate|]. f_equal. apply IH; auto; lia.
Qed.

(** Sums over the slots, and the exchange with counting the samples. *)
Definition zsum {A} (f : A -> Z) (l : list A) : Z := fold_right (fun x a => f x + a) 0 l.

Lemma zsum_cons {A} (f : A -> Z) x l : zsum f (x :: l) = f x + zsum f l.
Proof. reflexivity. Qed.

Lemma zsum_add {A} (f g : A -> Z) l : zsum (fun x => f x + g x) l = zsum f l + zsum g l.
Proof. induction l as [|x l IH]; [reflexivity|]. rewrite !zsum_cons, IH. lia. Qed.

Lemma zsum_ext {A} (f g : A -> Z) l : (forall x, In x l -> f x = g x) -> zsum f l = zsum g l.
Proof.
  induction l as [|x l IH]; intros E; [reflexivity|]. rewrite !zsum_cons, (E x), IH; [reflexivity| |now left].
  intros y Hy; apply E; now right.
Qed.

Lemma zsum_zero {A} (f : A -> Z) l : (forall x, In x l -> f x = 0) -> zsum f l = 0.
Proof. intros E. rewrite (zsum_ext f (fun _ => 0)) by exact E. clear E. induction l; [reflexivity|]. rewrite zsum_cons; lia. Qed.

Lemma zsum_indicator (l : list nat) (q : nat -> bool) s : NoDup l -> In s l ->
  zsum (fun i => if q i then (if (s =? i)%nat then 1 else 0) else 0) l = if q s then 1 else 0.
Proof.
  induction 1 as [|i l Hni Hnd IH]; intros Hin; [easy|]. rewrite zsum_cons.
  destruct (Nat.eqb_spec s i) as [->|N].
  - rewrite zsum_zero; [destruct (q i); lia|]. intros j Hj.
    destruct (Nat.eqb_spec i j) as [->|]; [contradiction|]. now destruct (q j).
  - destruct Hin as [<-|Hin]; [easy|]. rewrite IH by assumption. destruct (q i); lia.
Qed.

(** Summing the counts of the slots that satisfy [q] counts the samples whose slot does. *)
Lemma zsum_count {A} (slot : A -> nat) (q : nat -> bool) (ss : list nat) (vs : list A) :
  NoDup ss -> Forall (fun v => In (slot v) ss) vs ->
  zsum (fun s => if q s then count (fun v => (slot v =? s)%nat) vs else 0) ss = count (fun v => q (slot v)) vs.
Proof.
  intros Hnd. induction 1 as [|v vs Hv _ IH].
  - rewrite count_nil. apply zsum_zero. intros s _. now destruct (q s).
  - rewrite count_cons, <- IH, <- (zsum_indicator ss q (slot v)), <- zsum_add by assumption.
    apply zsum_ext. intros s _. rewrite count_cons. destruct (q s); [reflexivity|lia].
Qed.

Lemma zsum_filter_count {A} (p q : A -> bool) l :
  zsum (fun x => if q x then 1 else 0) (filter p l) = count (fun x => p x && q x) l.
Proof.
  induction l as [|x l IH]; [reflexivity|]. rewrite count_cons. cbn [filter]. destruct (p x); cbn [andb].
  - now rewrite zsum_cons, IH.
  - exact IH.
Qed.

(** ** The kernel side *)

Module Kernel.

Definition HISTOGRAM_SLOTS : nat := 64.

(** One comparison of [spnl_hist_log2]: [if (v >= (1 << k)) { v >>= k; r += k; }]. *)
Definition halve (k : Z) (s : Z * Z) : Z * Z :=
  let '(v, r) := s in
  if 2 ^ k <=? v then (Z.shiftr v k, r + k) else (v, r).

Definition spnl_hist_log2 (v : Z) : Z :=
  if v <=? 1 then 0
  else
    let '(_, r) := halve 1 (halve 2 (halve 4 (halve 8 (halve 16 (halve 32 (v, 0)))))) in
    if 63 <? r then 63 else r.

(** [spnl_hist_observe]: the map is an array of 64 words, so the lookup of a slot
    below 64 succeeds. *)
Definition spnl_hist_observe (hist : list Z) (v : Z) : list Z :=
  let slot := u32 (spnl_hist_log2 v) in
  if 64 <=? slot then hist
  else match nth_error hist (Z.to_nat slot) with
       | Some cur => upd hist (Z.to_nat slot) (u64 (cur + 1))
       | None => hist
       end.

(** The map as the loader creates it. *)
Definition bpf_hist : list Z := repeat 0 HISTOGRAM_SLOTS.

Definition s64_sample (v : Z) : Prop := - 2 ^ 63 <= v < 2 ^ 63.

Definition observed (vs : list Z) : list Z := fold_left spnl_hist_observe vs bpf_hist.

Lemma halve_spec k v r : 0 < k -> 0 < v < 2 ^ (2 * k) ->
  let '(v', r') := halve k (v, r) in 0 < v' < 2 ^ k /\ r' + Z.log2 v' = r + Z.log2 v.
Proof.
  intros Hk [Hv0 Hv]. unfold halve. destruct (Z.leb_spec (2 ^ k) v) as [H|H]; [|lia].
  assert (P := pow2_pos k). rewrite Z.shiftr_div_pow2 by lia.
  replace (2 * k) with (k + k) in Hv by lia. rewrite Z.pow_add_r in Hv by lia.
  split.
  - split; [apply Z.div_str_pos; lia|apply Z.div_lt_upper_bound; lia].
  - rewrite <- Z.shiftr_div_pow2, Z.log2_shiftr by lia.
    assert (k <= Z.log2 v) by (apply Z.log2_le_pow2; lia). lia.
Qed.

(** The binary search computes the floor of the logarithm. *)
Lemma spnl_hist_log2_floor v : 1 <= v < 2 ^ 63 -> spnl_hist_log2 v = Z.log2 v.
Proof.
  intros Hv. unfold spnl_hist_log2. destruct (Z.leb_spec v 1) as [H|H].
  { replace v with 1 by lia. reflexivity. }
  assert (Hs : forall k s, 0 < k -> 0 < fst s < 2 ^ (2 * k) ->
    0 < fst (halve k s) < 2 ^ k /\ snd (halve k s) + Z.log2 (fst (halve k s)) = snd s + Z.log2 (fst s)).
  { intros k [w r] Hk Hw. generalize (halve_spec k w r Hk Hw). now destruct (halve k (w, r)). }
  destruct (Hs 32 (v, 0)) as [B1 E1]; [lia| cbn [fst]; lia|].
  destruct (Hs 16 (halve 32 (v, 0))) as [B2 E2]; [lia|exact B1|].
  destruct (Hs 8 (halve 16 (halve 32 (v, 0)))) as [B3 E3]; [lia|exact B2|].
  destruct (Hs 4 (halve 8 (halve 16 (halve 32 (v, 0))))) as [B4 E4]; [lia|exact B3|].
  destruct (Hs 2 (halve 4 (halve 8 (halve 16 (halve 32 (v, 0)))))) as [B5 E5]; [lia|exact B4|].
  destruct (Hs 1 (halve 2 (halve 4 (halve 8 (halve 16 (halve 32 (v, 0))))))) as [B6 E6]; [lia|exact B5|].
  destruct (halve 1 _) as [w r]; cbn [fst snd] in *.
  replace w with 1 in E6 by lia. change (Z.log2 1) with 0 in E6.
  assert (Z.log2 v < 63) by (apply Z.log2_lt_pow2; lia).
  destruct (Z.ltb_spec 63 r); lia.
Qed.

Lemma spnl_hist_log2_low v : v <= 1 -> spnl_hist_log2 v = 0.
Proof. intros H. unfold spnl_hist_log2. now destruct (Z.leb_spec v 1); [|lia]. Qed.

Lemma spnl_hist_log2_range v : s64_sample v -> 0 <= spnl_hist_log2 v < 63.
Proof.
  intros [_ Hv]. destruct (Z.leb_spec v 1) as [H|H]; [rewrite spnl_hist_log2_low; lia|].
  rewrite spnl_hist_log2_floor by lia. split; [apply Z.log2_nonneg|apply Z.log2_lt_pow2; lia].
Qed.

(** The slot of a sample, as an index. *)
Definition slot_of (v : Z) : nat := Z.to_nat (spnl_hist_log2 v).

Lemma slot_of_lt v : s64_sample v -> (slot_of v < 63)%nat.
Proof. intros Hv. unfold slot_of. pose proof (spnl_hist_log2_range v Hv). lia. Qed.

(** The samples of one slot lie between two powers of two. *)
Lemma slot_of_bounds v : s64_sample v ->
  (slot_of v = O \/ 2 ^ Z.of_nat (slot_of v) <= v) /\ v <= 2 ^ (Z.of_nat (slot_of v) + 1) - 1.
Proof.
  intros Hv. unfold slot_of. pose proof (spnl_hist_log2_range v Hv) as R. rewrite Z2Nat.id by lia.
  destruct (Z.leb_spec v 1) as [H|H].
  - rewrite spnl_hist_log2_low by lia. split; [now left|]. cbn. lia.
  - destruct Hv. rewrite spnl_hist_log2_floor by lia. pose proof (Z.log2_spec v ltac:(lia)). split; [right|]; lia.
Qed.

Lemma observe_upd hist v : s64_sample v -> length hist = 64%nat ->
  spnl_hist_observe hist v = upd hist (slot_of v) (u64 (nth (slot_of v) hist 0 + 1)).
Proof.
  intros Hv Hl. unfold spnl_hist_observe. pose proof (spnl_hist_log2_range v Hv) as R.
  rewrite (wrap_small 32) by lia. destruct (Z.leb_spec 64 (spnl_hist_log2 v)); [lia|]. fold (slot_of v).
  pose proof (slot_of_lt v Hv).
  rewrite (nth_error_nth' hist 0) by lia. reflexivity.
Qed.

Lemma length_fold_observe vs hist : Forall s64_sample vs -> length hist = 64%nat ->
  length (fold_left spnl_hist_observe vs hist) = 64%nat.
Proof.
  intros H; revert hist; induction H as [|v vs Hv _ IH]; intros hist Hl; cbn [fold_left]; [exact Hl|].
  apply IH. now rewrite observe_upd, length_upd.
Qed.

Lemma nth_fold_observe vs hist s : Forall s64_sample vs -> length hist = 64%nat ->
  u64 (nth s (fold_left spnl_hist_observe vs hist) 0) = u64 (nth s hist 0 + count (fun v => (slot_of v =? s)%nat) vs).
Proof.
  intros H; revert hist; induction H as [|v vs Hv _ IH]; intros hist Hl; cbn [fold_left].
  { now rewrite count_nil, Z.add_0_r. }
  rewrite IH by (now rewrite observe_upd, length_upd). rewrite observe_upd, count_cons by assumption.
  pose proof (slot_of_lt v Hv).
  destruct (Nat.eqb_spec (slot_of v) s) as [<-|N].
  - rewrite nth_upd_eq by lia. rewrite wrap_add_l. f_equal; lia.
  - rewrite nth_upd_ne by assumption. f_equal.
Qed.

Lemma observed_nth vs s : Forall s64_sample vs ->
  u64 (nth s (observed vs) 0) = u64 (count (fun v => (slot_of v =? s)%nat) vs).
Proof.
  intros H. unfold observed. rewrite nth_fold_observe by (assumption || reflexivity).
  unfold bpf_hist. now rewrite nth_repeat.
Qed.

Lemma length_observed vs : Forall s64_sample vs -> length (observed vs) = 64%nat.
Proof. intros H. now apply length_fold_observe. Qed.

Lemma observed_words vs : Forall s64_sample vs -> Forall (fun x => u64 x = x) (observed vs).
Proof.
  intros H. unfold observed. assert (W : Forall (fun x => u64 x = x) bpf_hist).
  { apply Forall_forall. intros x Hx. now rewrite (repeat_spec _ _ _ Hx). }
  assert (L : length bpf_hist = 64%nat) by reflexivity. revert W L. generalize bpf_hist.
  induction H as [|v vs Hv _ IH]; intros hist W L; cbn [fold_left]; [exact W|].
  rewrite observe_upd by assumption. apply IH; [|now rewrite length_upd].
  apply Forall_upd; [exact W|apply wrap_wrap; lia].
Qed.

(** Below 2^64 samples the slots count exactly. *)
Lemma observed_count vs s : Forall s64_sample vs -> Z.of_nat (length vs) < 2 ^ 64 ->
  nth s (observed vs) 0 = count (fun v => (slot_of v =? s)%nat) vs.
Proof.
  intros H Hn. pose proof (count_range (fun v => (slot_of v =? s)%nat) vs).
  rewrite <- (wrap_small 64 (count _ vs)), <- (observed_nth vs s H) by lia.
  destruct (Nat.lt_ge_cases s (length (observed vs))) as [L|L]; [|now rewrite nth_overflow].
  symmetry. apply (proj1 (Forall_forall _ _) (observed_words vs H)). now apply nth_In.
Qed.

End Kernel.
Import Kernel.

(** ** The exporter's buckets *)

Module Fold.

Definition OTLP_HIST_SLOTS : nat := 64.
Definition SPNL_BOUNDS_LOG2_NS_31 : list Z :=
  [1; 3; 7; 15; 31; 63; 127; 255; 511; 1023; 2047; 4095; 8191; 16383; 32767; 65535; 131071; 262143; 524287;
   1048575; 2097151; 4194303; 8388607; 16777215; 33554431; 67108863; 134217727; 536870911; 2147483647;
   8589934591; 34359738367].
Definition OTLP_LOG2_NBOUNDS : nat := 31.
Definition OTLP_LOG2_NBUCKETS : nat := OTLP_LOG2_NBOUNDS + 1.

Definition otlp_log2_ns_bounds : list double := map d_of_Z SPNL_BOUNDS_LOG2_NS_31.

(** The upper edge of a slot, [(double)((uint64_t)1 << s) * 2.0 - 1.0]. *)
Definition edge (s : nat) : double :=
  d_sub (d_mul (d_of_Z (2 ^ Z.of_nat s)) (d_of_Z 2)) (d_of_Z 1).

Definition fold_bucket (s : nat) : nat := first_index (fun b => d_le (edge s) b) otlp_log2_ns_bounds.

(** The representative value of a slot in the sum. *)
Definition slot_midpoint (s : nat) : double :=
  if (s =? 0)%nat then d_of_Z 1 else d_mul (d_dec 15 1) (d_of_Z (2 ^ Z.of_nat s)).

Definition fold_slot (slots : list Z) (acc : list Z * Z * double) (s : nat) : list Z * Z * double :=
  let '(out, total, sum) := acc in
  let c := nth s slots 0 in
  if c =? 0 then acc
  else
    let j := fold_bucket s in
    (upd out j (u64 (nth j out 0 + c)), u64 (total + c), d_add sum (d_mul (d_of_Z c) (slot_midpoint s))).

Definition otlp_log2_fold (slots : list Z) : list Z * Z * double :=
  fold_left (fold_slot slots) (seq 0 OTLP_HIST_SLOTS) (repeat 0 OTLP_LOG2_NBUCKETS, 0, d_of_Z 0).

(** *** The reference: every sample put on the ruler itself *)

(** Bucket [j] of an explicit-bounds histogram holds the samples above
    [bounds[j-1]] and not above [bounds[j]]. *)
Definition ruler_bucket (v : Z) : nat := first_index (fun b => v <=? b) SPNL_BOUNDS_LOG2_NS_31.

Definition explicit_histogram (vs : list Z) : list Z :=
  map (fun j => u64 (count (fun v => (ruler_bucket v =? j)%nat) vs)) (seq 0 OTLP_LOG2_NBUCKETS).

Definition slot_fits (s : nat) : bool :=
  let j := fold_bucket s in
  (j <=? OTLP_LOG2_NBOUNDS)%nat
  && forallb (fun b => b <? 2 ^ Z.of_nat s) (firstn j SPNL_BOUNDS_LOG2_NS_31)
  && negb ((s =? 0)%nat && negb (j =? 0)%nat)
  && match nth_error SPNL_BOUNDS_LOG2_NS_31 j with
     | Some b => 2 ^ (Z.of_nat s + 1) - 1 <=? b
     | None => true
     end.

Lemma all_slots_fit : forallb slot_fits (seq 0 OTLP_HIST_SLOTS) = true.
Proof. vm_compute. reflexivity. Qed.

(** No boundary cuts a slot: the bucket of a sample's slot is the sample's bucket. *)
Lemma fold_bucket_ruler v : s64_sample v -> fold_bucket (slot_of v) = ruler_bucket v.
Proof.
  intros Hv. destruct (slot_of_bounds v Hv) as [Lo Hi]. pose proof (slot_of_lt v Hv) as Lt.
  assert (F : slot_fits (slot_of v) = true).
  { apply (proj1 (forallb_forall _ _) all_slots_fit). apply in_seq. unfold OTLP_HIST_SLOTS. lia. }
  unfold slot_fits in F. rewrite !andb_true_iff in F. destruct F as [[[F1 F2] F3] F4].
  set (j := fold_bucket (slot_of v)) in *. symmetry. apply first_index_at.
  - apply Nat.leb_le in F1. exact F1.
  - apply forallb_forall. intros b Hb. destruct Lo as [Z0|Lo].
    + rewrite Z0 in F3. destruct (Nat.eqb_spec j 0) as [J|]; [now rewrite J in Hb|discriminate].
    + apply (proj1 (forallb_forall _ _) F2), Z.ltb_lt in Hb. apply negb_true_iff, Z.leb_gt. lia.
  - destruct (nth_error SPNL_BOUNDS_LOG2_NS_31 j) as [b|]; [|exact I].
    apply Z.leb_le in F4. apply Z.leb_le. lia.
Qed.

Lemma fold_bucket_lt s : (fold_bucket s < OTLP_LOG2_NBUCKETS)%nat.
Proof.
  unfold fold_bucket. pose proof (first_index_le (fun b => d_le (edge s) b) otlp_log2_ns_bounds) as H.
  change (length otlp_log2_ns_bounds) with 31%nat in H. unfold OTLP_LOG2_NBUCKETS, OTLP_LOG2_NBOUNDS. lia.
Qed.

(** What the loop has accumulated after the slots [ss]. *)
Lemma fold_slots_spec slots ss out total sum :
  length out = OTLP_LOG2_NBUCKETS ->
  let '(out', total', _) := fold_left (fold_slot slots) ss (out, total, sum) in
  length out' = OTLP_LOG2_NBUCKETS
  /\ u64 total' = u64 (total + zsum (fun s => nth s slots 0) ss)
  /\ forall j, u64 (nth j out' 0) = u64 (nth j out 0 + zsum (fun s => if (fold_bucket s =? j)%nat then nth s slots 0 else 0) ss).
Proof.
  revert out total sum; induction ss as [|s ss IH]; intros out total sum Hl; cbn [fold_left].
  { cbn [zsum fold_right]. rewrite Z.add_0_r. repeat split; try assumption. intros j; now rewrite Z.add_0_r. }
  unfold fold_slot at 2. destruct (Z.eqb_spec (nth s slots 0) 0) as [E|E].
  - specialize (IH out total sum Hl). destruct (fold_left _ ss _) as [[out' total'] sum'].
    destruct IH as (L & T & B). rewrite zsum_cons, E. repeat split; [exact L|exact T|].
    intros j. rewrite zsum_cons, E, B. now destruct (_ =? j)%nat.
  - match goal with |- context [fold_left _ ss (?o, ?t, ?d)] => specialize (IH o t d); destruct (fold_left _ ss (o, t, d)) as [[out' total'] sum'] end.
    destruct IH as (L & T & B); [now rewrite length_upd|]. rewrite zsum_cons. repeat split; [exact L| |].
    + rewrite T, wrap_add_l. f_equal; lia.
    + intros j. rewrite zsum_cons, B. pose proof (fold_bucket_lt s).
      destruct (Nat.eqb_spec (fold_bucket s) j) as [<-|N].
      * rewrite nth_upd_eq by lia. rewrite wrap_add_l. f_equal; lia.
      * rewrite nth_upd_ne by assumption. reflexivity.
Qed.

(** The words of the output are words. *)
Lemma fold_slots_words slots ss out total sum :
  Forall (fun x => u64 x = x) out -> u64 total = total ->
  let '(out', total', _) := fold_left (fold_slot slots) ss (out, total, sum) in
  Forall (fun x => u64 x = x) out' /\ u64 total' = total'.
Proof.
  revert out total sum; induction ss as [|s ss IH]; intros out total sum Ho Ht; cbn [fold_left]; [easy|].
  unfold fold_slot at 2. destruct (nth s slots 0 =? 0); apply IH; auto; [|apply wrap_wrap; lia].
  apply Forall_upd; [exact Ho|apply wrap_wrap; lia].
Qed.

Lemma u64_zsum {A} (f g : A -> Z) l : (forall x, u64 (f x) = u64 (g x)) -> u64 (zsum f l) = u64 (zsum g l).
Proof.
  intros E. induction l as [|x l IH]; [reflexivity|]. rewrite !zsum_cons.
  rewrite <- (wrap_add_l 64 (f x)), <- (wrap_add_r 64 _ (zsum f l)), E, IH, wrap_add_l, wrap_add_r. reflexivity.
Qed.

Lemma samples_in_slots vs : Forall s64_sample vs -> Forall (fun v => In (slot_of v) (seq 0 OTLP_HIST_SLOTS)) vs.
Proof.
  intros H. eapply Forall_impl; [|exact H]. intros v Hv. apply in_seq. pose proof (slot_of_lt v Hv).
  unfold OTLP_HIST_SLOTS. lia.
Qed.

Lemma slots_total vs (q : nat -> bool) : Forall s64_sample vs ->
  u64 (zsum (fun s => if q s then nth s (observed vs) 0 else 0) (seq 0 OTLP_HIST_SLOTS))
  = u64 (count (fun v => q (slot_of v)) vs).
Proof.
  intros H. rewrite <- (zsum_count slot_of q (seq 0 OTLP_HIST_SLOTS)) by (apply seq_NoDup || now apply samples_in_slots).
  apply u64_zsum. intros s. destruct (q s); [now apply observed_nth|reflexivity].
Qed.

(** C29: The exported latency histogram is the histogram of the samples.  For every
    sequence of 64-bit samples, counting them in the kernel's power-of-two slots
    and folding the slots onto the exporter's 31 boundaries gives exactly the
    bucket counts that putting each sample on the boundaries itself gives, and the
    exact total: no slot is split, none is counted twice, also in the slots whose
    upper edge a double cannot represent (all counts modulo 2^64, their width). *)
Theorem log2_fold_exact (vs : list Z) (Hs : Forall s64_sample vs) :
  let '(buckets, total, _) := otlp_log2_fold (fold_left spnl_hist_observe vs bpf_hist) in
  buckets = explicit_histogram vs /\ total = u64 (Z.of_nat (length vs)).
Proof.
  change (fold_left spnl_hist_observe vs bpf_hist) with (observed vs). unfold otlp_log2_fold.
  pose proof (fold_slots_spec (observed vs) (seq 0 OTLP_HIST_SLOTS) (repeat 0 OTLP_LOG2_NBUCKETS) 0 (d_of_Z 0) (repeat_length _ _)) as Sp.
  pose proof (fold_slots_words (observed vs) (seq 0 OTLP_HIST_SLOTS) (repeat 0 OTLP_LOG2_NBUCKETS) 0 (d_of_Z 0)) as W.
  destruct (fold_left (fold_slot (observed vs)) _ _) as [[out total] sum].
  destruct Sp as (L & T & B). destruct W as [Wo Wt]; [apply Forall_forall; intros x Hx; now rewrite (repeat_spec _ _ _ Hx)|reflexivity|].
  split.
  - apply (nth_ext _ _ 0 (u64 (count (fun v => (ruler_bucket v =? 0)%nat) vs))).
    { unfold explicit_histogram. now rewrite length_map, length_seq. }
    intros j Hj. rewrite <- (proj1 (Forall_forall _ _) Wo (nth j out 0)) by now apply nth_In.
    rewrite B, nth_repeat, Z.add_0_l, (slots_total vs (fun s : nat => (fold_bucket s =? j)%nat) Hs).
    unfold explicit_histogram. rewrite (map_nth (fun j => u64 (count (fun v => (ruler_bucket v =? j)%nat) vs)) _ 0%nat), seq_nth by lia.
    f_equal. apply count_ext. eapply Forall_impl; [|exact Hs]. intros v Hv. now rewrite fold_bucket_ruler.
  - rewrite <- Wt, T, Z.add_0_l, (slots_total vs (fun _ : nat => true) Hs).
    f_equal. apply count_all. apply Forall_forall. reflexivity.
Qed.

Lemma log2_fold_exact_witness :
  let vs := [-5; 0; 1; 2; 700; 200000000; 300000000; 2 ^ 60] in
  Forall s64_sample vs
  /\ (let '(buckets, total, _) := otlp_log2_fold (fold_left spnl_hist_observe vs bpf_hist) in
      buckets = explicit_histogram vs /\ total = 8)
  /\ nth 27 (explicit_histogram vs) 0 = 2.
Proof.
  cbv zeta. assert (H : Forall s64_sample [-5; 0; 1; 2; 700; 200000000; 300000000; 2 ^ 60])
    by (repeat constructor; vm_compute; congruence).
  split; [exact H|]. split; [exact (log2_fold_exact _ H)|vm_compute; reflexivity].
Defined.

End Fold.

(** ** Percentiles *)

Module Percentile.

(** [(__u64)((double)total * percentile + 0.999999)], at least 1. *)
Definition percentile_target (total : Z) (percentile : double) : option Z :=
  match d_to_u64 (d_add (d_mul (d_of_Z total) percentile) (d_dec 999999 6)) with
  | Some t => Some (if t =? 0 then 1 else t)
  | None => None
  end.

(** [(i == 0) ? 1 : ((1ULL << (i + 1)) - 1)]; a shift by 64 is undefined. *)
Definition upper_edge (i : nat) : option Z :=
  if (i =? 0)%nat then Some 1
  else if (i + 1 <? 64)%nat then Some (2 ^ (Z.of_nat i + 1) - 1)
  else None.

Fixpoint percentile_walk (n : nat) (target : Z) (counts : list Z) (i : nat) (cum : Z) : option Z :=
  match counts with
  | [] => Some (2 ^ (Z.of_nat n - 1))
  | c :: counts' =>
      let cum := u64 (cum + c) in
      if target <=? cum then upper_edge i else percentile_walk n target counts' (S i) cum
  end.

(** [_spnl_hist_percentile_counts]; [None] where the C is undefined. *)
Definition _spnl_hist_percentile_counts (counts : list Z) (percentile : double) : option Z :=
  let total := fold_left (fun t c => u64 (t + c)) counts 0 in
  if total =? 0 then Some 0
  else
    match percentile_target total percentile with
    | Some target => percentile_walk (length counts) target counts O 0
    | None => None
    end.

(** The number of samples below slot [i]. *)
Definition below (vs : list Z) (i : nat) : Z := count (fun v => (slot_of v <? i)%nat) vs.

Lemma below_0 vs : below vs 0 = 0.
Proof. induction vs as [|v vs IH]; [reflexivity|]. unfold below in *. now rewrite count_cons, IH. Qed.

Lemma below_S vs i : below vs (S i) = below vs i + count (fun v => (slot_of v =? i)%nat) vs.
Proof.
  unfold below. induction vs as [|v vs IH]; [reflexivity|]. rewrite !count_cons, IH.
  destruct (Nat.ltb_spec (slot_of v) (S i)), (Nat.ltb_spec (slot_of v) i), (Nat.eqb_spec (slot_of v) i); lia.
Qed.

Lemma below_all vs i : Forall s64_sample vs -> (63 <= i)%nat -> below vs i = Z.of_nat (length vs).
Proof.
  intros H Hi. apply count_all. eapply Forall_impl; [|exact H]. intros v Hv. apply Nat.ltb_lt.
  pose proof (slot_of_lt v Hv). lia.
Qed.

(** The slots below [i + 1] hold the samples up to the upper edge of slot [i]. *)
Lemma below_edge vs i : Forall s64_sample vs ->
  below vs (S i) = count (fun v => v <=? 2 ^ (Z.of_nat i + 1) - 1) vs.
Proof.
  intros H. apply count_ext. eapply Forall_impl; [|exact H]. intros v Hv.
  destruct (slot_of_bounds v Hv) as [Lo Hi].
  assert (M : forall a b : nat, (a <= b)%nat -> 2 ^ Z.of_nat a <= 2 ^ Z.of_nat b)
    by (intros; apply Z.pow_le_mono_r; lia).
  replace (Z.of_nat (slot_of v) + 1) with (Z.of_nat (S (slot_of v))) in Hi by lia.
  replace (Z.of_nat i + 1) with (Z.of_nat (S i)) by lia.
  destruct (Nat.ltb_spec (slot_of v) (S i)) as [L|L].
  - symmetry. apply Z.leb_le. pose proof (M (S (slot_of v)) (S i)). lia.
  - symmetry. apply Z.leb_gt. destruct Lo as [Lo|Lo]; [lia|]. pose proof (M (S i) (slot_of v)). lia.
Qed.

Lemma total_of_counts vs : Forall s64_sample vs -> Z.of_nat (length vs) < 2 ^ 64 ->
  fold_left (fun t c => u64 (t + c)) (observed vs) 0 = Z.of_nat (length vs).
Proof.
  intros H Hn. assert (G : forall l t, u64 t = t -> fold_left (fun t c => u64 (t + c)) l t = u64 (t + zsum (fun c => c) l)).
  { induction l as [|c l IH]; intros t Ht; cbn [fold_left]; [cbn; now rewrite Z.add_0_r|].
    rewrite IH by (apply wrap_wrap; lia). rewrite zsum_cons, wrap_add_l. f_equal; lia. }
  rewrite G, Z.add_0_l by reflexivity.
  assert (E : zsum (fun c => c) (observed vs) = zsum (fun s => nth s (observed vs) 0) (seq 0 64)).
  { rewrite <- (length_observed vs H). generalize (observed vs) as l. induction l as [|c l IH]; [reflexivity|].
    cbn [length seq]. rewrite !zsum_cons, IH. cbn [nth]. f_equal. rewrite <- seq_shift. clear.
    induction (seq 0 (length l)) as [|k ks IH]; [reflexivity|]. cbn [map]. now rewrite !zsum_cons, IH. }
  rewrite E, (zsum_ext _ (fun s => if (fun _ : nat => true) s then count (fun v => (slot_of v =? s)%nat) vs else 0))
    by (intros; now apply observed_count).
  rewrite (zsum_count slot_of (fun _ => true)) by (apply seq_NoDup || now apply Fold.samples_in_slots).
  rewrite count_all by (apply Forall_forall; reflexivity). apply wrap_small. lia.
Qed.

Lemma percentile_walk_stops vs target k i : Forall s64_sample vs -> Z.of_nat (length vs) < 2 ^ 64 ->
  target <= Z.of_nat (length vs) -> (i + k = 64)%nat -> below vs i < target ->
  exists i', (i' < 63)%nat /\ below vs i' < target <= below vs (S i')
    /\ percentile_walk 64 target (skipn i (observed vs)) i (below vs i) = upper_edge i'.
Proof.
  intros H Hn Ht. revert i; induction k as [|k IH]; intros i Hi Hb.
  { rewrite below_all in Hb by (assumption || lia). lia. }
  rewrite (skipn_nth (observed vs) i 0) by (rewrite length_observed by assumption; lia).
  cbn [percentile_walk]. rewrite observed_count, <- below_S by assumption.
  rewrite wrap_small by (pose proof (count_range (fun v => (slot_of v <? S i)%nat) vs); unfold below; lia).
  destruct (Z.leb_spec target (below vs (S i))) as [L|L]; [|apply IH; lia].
  exists i. repeat split; try lia. destruct (Nat.lt_ge_cases i 63) as [|G]; [assumption|].
  rewrite below_all in Hb by assumption. lia.
Qed.

(** The percentile read from a histogram is right to within one slot.  For
    every non-empty sequence of samples and every percentile whose rank [t] lies
    among the samples, the reader returns (never undefined behaviour) a value [w]
    such that at least [t] samples are at most [w] while fewer than [t] are at most
    [(w - 1) / 2]: [w] over-approximates the sample of rank [t] by less than a
    factor of two, as its comment says. *)
Theorem percentile_brackets (vs : list Z) (p : double) (t : Z)
  (Hs : Forall s64_sample vs) (Hn : 0 < Z.of_nat (length vs) < 2 ^ 64)
  (Hp : percentile_target (Z.of_nat (length vs)) p = Some t) (Ht : t <= Z.of_nat (length vs)) :
  exists w, _spnl_hist_percentile_counts (fold_left spnl_hist_observe vs bpf_hist) p = Some w
    /\ t <= count (fun v => v <=? w) vs
    /\ (w = 1 \/ count (fun v => v <=? (w - 1) / 2) vs < t).
Proof.
  change (fold_left spnl_hist_observe vs bpf_hist) with (observed vs).
  unfold _spnl_hist_percentile_counts. rewrite total_of_counts, length_observed by (assumption || lia).
  destruct (Z.eqb_spec (Z.of_nat (length vs)) 0) as [|_]; [lia|]. rewrite Hp.
  assert (T1 : 1 <= t).
  { unfold percentile_target in Hp. destruct (d_to_u64 _) as [z|] eqn:D; [|discriminate].
    apply d_to_u64_range in D. destruct (Z.eqb_spec z 0); inv Hp; lia. }
  destruct (percentile_walk_stops vs t 64 0) as (i & Hi & [Lo Hi'] & E); try assumption; try lia.
  { rewrite below_0. lia. }
  rewrite below_0 in E. cbn [skipn] in E. rewrite E. rewrite below_edge in Hi' by assumption.
  unfold upper_edge. destruct i as [|i].
  - exists 1. cbn [Nat.eqb]. split; [reflexivity|]. split; [exact Hi'|now left].
  - rewrite (proj2 (Nat.ltb_lt _ _)) by lia. cbn [Nat.eqb]. eexists; split; [reflexivity|]. split; [exact Hi'|right].
    rewrite below_edge in Lo by assumption.
    replace ((2 ^ (Z.of_nat (S i) + 1) - 1 - 1) / 2) with (2 ^ (Z.of_nat i + 1) - 1); [exact Lo|].
    replace (Z.of_nat (S i) + 1) with (Z.succ (Z.of_nat i + 1)) by lia. rewrite Z.pow_succ_r by lia.
    apply Z.div_unique with 0; lia.
Qed.

Lemma percentile_brackets_witness :
  let vs := [3; 900; 40; 17; 1000000] in
  percentile_target 5 (d_dec 5 1) = Some 3
  /\ exists w, _spnl_hist_percentile_counts (fold_left spnl_hist_observe vs bpf_hist) (d_dec 5 1) = Some w
    /\ 3 <= count (fun v => v <=? w) vs
    /\ (w = 1 \/ count (fun v => v <=? (w - 1) / 2) vs < 3).
Proof.
  cbv zeta. split; [vm_compute; reflexivity|].
  apply (percentile_brackets [3; 900; 40; 17; 1000000] (d_dec 5 1) 3);
    [repeat constructor; vm_compute; congruence|cbn; lia|vm_compute; reflexivity|cbn; lia].
Defined.

(** The hypothesis on the rank is needed.  From 2^34 samples on, the sum with
    0.999999 rounds up to the next integer: the rank of the maximum is one past the
    last sample, no slot reaches it, and the largest edge is returned, here for
    samples that are all 1. *)
Theorem maximum_of_many_overflows :
  percentile_target (2 ^ 34) (d_of_Z 1) = Some (2 ^ 34 + 1)
  /\ _spnl_hist_percentile_counts (2 ^ 34 :: repeat 0 63) (d_of_Z 1) = Some (2 ^ 63)
  /\ _spnl_hist_percentile_counts (2 ^ 33 :: repeat 0 63) (d_of_Z 1) = Some 1.
Proof. repeat split; vm_compute; reflexivity. Qed.

End Percentile.
