(* ===== verification/Channels.v ===== *)
(** * Channel accounting of the host runtime ([src/runtime/spnl_runtime.c])

    - [Balance]: the table of channels with the records that came in, went out and
      were dropped, and the event limit of a one-shot run.
    - [Report]: the balance printed at exit, for people and for tools.
    - [Refine]: the bounded table implements one independent account per channel.
    - [ReadBack]: a tool that reads the key/value form gets every number back. *)

From S2P Require Import Prelude CText.

Module Balance.

Definition SPNL_CHAN_MAX : nat := 16.
Definition SPNL_CHAN_NAME_MAX : nat := 64.
Definition SPNL_CHAN_DROPS_MAX : nat := 4.

Record drop_t := mk_drop { reason : text; hint : text; dn : Z }.

Record spnl_chan_stat := mk_chan {
  c_name : text;
  c_in : Z;
  c_out : Z;
  drops : list drop_t;
  drained : bool
}.

Definition new_chan (m : text) : spnl_chan_stat := mk_chan (firstn (SPNL_CHAN_NAME_MAX - 1) m) 0 0 [] false.

Definition set_drained s := mk_chan (c_name s) (c_in s) (c_out s) (drops s) true.
Definition add_in n s := mk_chan (c_name s) (u64 (c_in s + n)) (c_out s) (drops s) true.
Definition add_out n s := mk_chan (c_name s) (c_in s) (u64 (c_out s + n)) (drops s) (drained s).
Definition set_drops d s := mk_chan (c_name s) (c_in s) (c_out s) d (drained s).

Fixpoint chan_find (m : text) (l : list spnl_chan_stat) : option nat :=
  match l with
  | [] => None
  | s :: l' => if text_eqb (c_name s) m then Some O else option_map S (chan_find m l')
  end.

(** The slot of a channel, registered on first use; [None] when the table is full. *)
Definition chan_intern (m : text) (l : list spnl_chan_stat) : option nat * list spnl_chan_stat :=
  match chan_find m l with
  | Some i => (Some i, l)
  | None => if (SPNL_CHAN_MAX <=? length l)%nat then (None, l) else (Some (length l), l ++ [new_chan m])
  end.

(** A store through the pointer to slot [i]. *)
Definition at_slot (i : option nat) (f : spnl_chan_stat -> spnl_chan_stat) (l : list spnl_chan_stat) : list spnl_chan_stat :=
  match i with
  | Some i => match nth_error l i with Some s => upd l i (f s) | None => l end
  | None => l
  end.

Definition spnl_channel_in (m : option text) (n : Z) (l : list spnl_chan_stat) : list spnl_chan_stat :=
  match m with
  | None => l
  | Some m => if n <=? 0 then l else let '(i, l) := chan_intern m l in at_slot i (add_in n) l
  end.

Definition spnl_channel_declare (m : option text) (l : list spnl_chan_stat) : list spnl_chan_stat :=
  match m with None => l | Some m => snd (chan_intern m l) end.

Definition spnl_channel_seen (m : option text) (l : list spnl_chan_stat) : list spnl_chan_stat :=
  match m with None => l | Some m => let '(i, l) := chan_intern m l in at_slot i set_drained l end.

Definition spnl_channel_out (m : option text) (n : Z) (l : list spnl_chan_stat) : list spnl_chan_stat :=
  match m with
  | None => l
  | Some m => if 0 <? n then at_slot (chan_find m l) (add_out n) l else l
  end.

(** One drop under its reason; a fifth reason is not recorded. *)
Fixpoint find_drop (r : text) (l : list drop_t) : option nat :=
  match l with
  | [] => None
  | d :: l' => if text_eqb (reason d) r then Some O else option_map S (find_drop r l')
  end.

Definition bump (d : drop_t) : drop_t := mk_drop (reason d) (hint d) (u64 (dn d + 1)).

Definition drop_one (r h : text) (s : spnl_chan_stat) : spnl_chan_stat :=
  match find_drop r (drops s) with
  | Some i => match nth_error (drops s) i with Some d => set_drops (upd (drops s) i (bump d)) s | None => s end
  | None => if (SPNL_CHAN_DROPS_MAX <=? length (drops s))%nat then s else set_drops (drops s ++ [mk_drop r h 1]) s
  end.

Definition spnl_channel_dropped (m : option text) (r h : text) (l : list spnl_chan_stat) : list spnl_chan_stat :=
  match m with None => l | Some m => at_slot (chan_find m l) (drop_one r h) l end.

Definition spnl_channel_count (l : list spnl_chan_stat) : Z := Z.of_nat (length l).

(** [i] out of range gives NULL and 0. *)
Definition spnl_channel_name (l : list spnl_chan_stat) (i : Z) : option text :=
  if (0 <=? i) && (i <? Z.of_nat (length l)) then option_map c_name (nth_error l (Z.to_nat i)) else None.

Definition spnl_channel_in_count (l : list spnl_chan_stat) (i : Z) : Z :=
  if (0 <=? i) && (i <? Z.of_nat (length l)) then match nth_error l (Z.to_nat i) with Some s => c_in s | None => 0 end else 0.

(** *** The event limit *)

(** [SPNL_MAX_EVENTS]; 0 is unlimited. *)
Definition spnl_oneshot_limit (getenv : text -> option text) : Z :=
  match getenv (lit "SPNL_MAX_EVENTS") with
  | Some (c :: e) => let v := Z.min (atoi (c :: e)) (2 ^ 63 - 1) in if 0 <? v then v else 0
  | _ => 0
  end.

(** The new tally, and whether the limit is reached. *)
Definition spnl_oneshot_add (getenv : text -> option text) (n : Z) (count : Z) : bool * Z :=
  let count := if 0 <? n then u64 (count + n) else count in
  let k := spnl_oneshot_limit getenv in
  ((0 <? k) && (k <=? count), count).

End Balance.

Module Report.
Import Balance.

Definition nl : text := ["010"%char].

(** [w_num]: the digits are written from the end of a buffer of 24 bytes. *)
Fixpoint w_digits (fuel : nat) (v : Z) (b : text) : text :=
  match fuel with
  | O => b
  | S f => if v =? 0 then b else w_digits f (v / 10) (digit (v mod 10) :: b)
  end.

Definition w_num (v : Z) : text := if v =? 0 then [digit 0] else w_digits 23 v [].

(** [w_chan]: the name padded to a column, with at least one space. *)
Definition w_chan (name : text) : text := lit "  " ++ name ++ repeat " "%char (Nat.max 1 (24 - length name)).

(** *** Records the kernel dropped *)

(** The bound counter maps and the number of per-processor slots, 0 before the
    buffer is allocated. *)
Record lost_state := mk_lost { lost_fds : list Z; lost_ncpu : Z }.

Definition SPNL_LOST_MAX : nat := 8.

(** [ncpu] is what libbpf answers; [calloc] whether the buffer could be allocated. *)
Definition spnl_lost_bind (ncpu : Z) (calloc : bool) (fd : Z) (st : lost_state) : lost_state :=
  if (fd <? 0) || (SPNL_LOST_MAX <=? length (lost_fds st))%nat then st
  else if lost_ncpu st =? 0 then
    if calloc then mk_lost (lost_fds st ++ [fd]) (if ncpu <=? 0 then 1 else ncpu) else st
  else mk_lost (lost_fds st ++ [fd]) (lost_ncpu st).

(** [lookup]: the counters of a map, one per processor; [None] when the read fails. *)
Definition spnl_lost_total (lookup : Z -> option (list Z)) (st : lost_state) : Z :=
  if lost_ncpu st <=? 0 then 0
  else fold_left (fun total fd => match lookup fd with
                                  | Some vs => fold_left (fun t v => u64 (t + v)) (firstn (Z.to_nat (lost_ncpu st)) vs) total
                                  | None => total
                                  end) (lost_fds st) 0.

(** *** The two forms of the report *)

Definition dropped_total (s : spnl_chan_stat) : Z := fold_left (fun t d => u64 (t + dn d)) (drops s) 0.

Definition kv_line (s : spnl_chan_stat) : text :=
  lit "spnl.channel " ++ c_name s ++ lit " drained=" ++ w_num (if drained s then 1 else 0) ++ lit " in=" ++ w_num (c_in s) ++
  lit " out=" ++ w_num (c_out s) ++ lit " dropped=" ++ w_num (dropped_total s) ++ nl.

Definition spnl_channel_report_kv_fd (lookup : Z -> option (list Z)) (l : list spnl_chan_stat) (st : lost_state) : text :=
  flat_map kv_line l ++
  (match lost_fds st with [] => [] | _ => lit "spnl.lost total=" ++ w_num (spnl_lost_total lookup st) ++ nl end).

(** A block of lines under the name column; the last of them ends the block. *)
Definition w_block (ls : list string) : text := flat_map (fun s => w_chan [] ++ lit s ++ nl) ls.

Definition never_drained (s : spnl_chan_stat) : text :=
  w_chan (c_name s) ++ lit "** never drained **" ++ nl ++
  w_block ["  the probe writes to this ringbuf but no userspace code reads it,";
           "  so every record was discarded by the kernel. emitting is not";
           "  exporting: see `spinel-ebpf describe` for this channel's";
           "  userspace_export, and call it (or consume the channel with";
           "  on_emit) from main."]%string.

Definition nothing_came_out (s : spnl_chan_stat) : text :=
  w_chan (c_name s) ++ lit "in 0   ** nothing came out **" ++ nl ++
  w_block ["  the channel drained cleanly but no record ever arrived.";
           "  check that the attach point fires (lsm/* needs lsm=...,bpf on";
           "  the kernel cmdline; fmod_ret/* does not) and that the probe's";
           "  own filter is not rejecting everything."]%string.

(** A reason is marked when it took more than half of the records. *)
Definition drop_lines (s : spnl_chan_stat) (d : drop_t) : text :=
  let major := c_in s <? u64 (dn d * 2) in
  w_chan [] ++ lit "  " ++ reason d ++ lit ": " ++ w_num (dn d) ++
  (if major then lit "   ** suspicious **" ++ nl else nl) ++
  (if major then w_chan [] ++ lit "  " ++ hint d ++ nl else []).

Definition balance_lines (s : spnl_chan_stat) : text :=
  w_chan (c_name s) ++ lit "in " ++ w_num (c_in s) ++
  (if c_out s =? 0 then [] else lit "   out " ++ w_num (c_out s)) ++
  (if dropped_total s =? 0 then [] else lit "   dropped " ++ w_num (dropped_total s)) ++ nl ++
  flat_map (drop_lines s) (drops s).

Definition chan_lines (s : spnl_chan_stat) : text :=
  if negb (drained s) then never_drained s
  else if c_in s =? 0 then nothing_came_out s
  else balance_lines s.

Definition lost_lines (lost : Z) : text :=
  if lost =? 0 then []
  else
    w_chan [] ++ lit "** " ++ w_num lost ++ lit " dropped by the kernel (ringbuf full) **" ++ nl ++
    w_block ["  a bpf_ringbuf_reserve() returned NULL: the probe produced";
             "  records faster than userspace drained them, so the kernel";
             "  discarded these before any consumer ran. raise the channel's";
             "  ringbuf size (default 256KB) in its declaration, or drain more";
             "  often / filter earlier. count is unit-wide (all channels)."]%string.

(** [kv] is the report mode chosen by [SPNL_CHANNEL_REPORT]. *)
Definition spnl_channel_report_fd (kv : bool) (lookup : Z -> option (list Z)) (l : list spnl_chan_stat) (st : lost_state) : text :=
  match l with
  | [] => []
  | _ =>
      if kv then spnl_channel_report_kv_fd lookup l st
      else lit "[spinel-ebpf] channel balance" ++ nl ++ flat_map chan_lines l ++ lost_lines (spnl_lost_total lookup st)
  end.

End Report.

Module Refine.
Import Balance.

(** One call into the accounting. *)
Inductive call :=
| Declares (m : text)
| Seen (m : text)
| In_ (m : text) (n : Z)
| Out (m : text) (n : Z)
| Dropped (m r h : text).

Definition channel (o : call) : text :=
  match o with Declares m | Seen m | In_ m _ | Out m _ | Dropped m _ _ => m end.

Definition perform (l : list spnl_chan_stat) (o : call) : list spnl_chan_stat :=
  match o with
  | Declares m => spnl_channel_declare (Some m) l
  | Seen m => spnl_channel_seen (Some m) l
  | In_ m n => spnl_channel_in (Some m) n l
  | Out m n => spnl_channel_out (Some m) n l
  | Dropped m r h => spnl_channel_dropped (Some m) r h l
  end.

(** ** The account of one channel on its own *)

Definition registers (o : call) : bool :=
  match o with Declares _ | Seen _ => true | In_ _ n => 0 <? n | _ => false end.

Definition effect (o : call) (s : spnl_chan_stat) : spnl_chan_stat :=
  match o with
  | Declares _ => s
  | Seen _ => set_drained s
  | In_ _ n => if 0 <? n then add_in n s else s
  | Out _ n => if 0 <? n then add_out n s else s
  | Dropped _ r h => drop_one r h s
  end.

Definition account (m : text) (s : option spnl_chan_stat) (o : call) : option spnl_chan_stat :=
  if text_eqb (channel o) m then
    match s with
    | Some s => Some (effect o s)
    | None => if registers o then Some (effect o (new_chan m)) else None
    end
  else s.

(** ** The table *)

Definition lookup (m : text) (l : list spnl_chan_stat) : option spnl_chan_stat := find (fun s => text_eqb (c_name s) m) l.

Definition keeps (f : spnl_chan_stat -> spnl_chan_stat) : Prop := forall s, c_name (f s) = c_name s.

Lemma drop_one_keeps r h : keeps (drop_one r h).
Proof.
  intros s. unfold drop_one. destruct (find_drop r (drops s)) as [i|]; [destruct (nth_error (drops s) i)|case_if]; reflexivity.
Qed.

Lemma lookup_at m f l m' : keeps f ->
  lookup m' (at_slot (chan_find m l) f l) = if text_eqb m m' then option_map f (lookup m l) else lookup m' l.
Proof.
  intros K. induction l as [|s l IH]; [cbn; now destruct (text_eqb m m')|].
  cbn [chan_find]. destruct (text_eqb_spec (c_name s) m) as [E|E].
  - cbn [at_slot nth_error upd]. unfold lookup. cbn [find]. rewrite K, E, text_eqb_refl. now destruct (text_eqb m m').
  - assert (A : at_slot (option_map S (chan_find m l)) f (s :: l) = s :: at_slot (chan_find m l) f l).
    { destruct (chan_find m l) as [i|]; [|reflexivity]. cbn. now destruct (nth_error l i). }
    rewrite A. unfold lookup in *. cbn [find]. rewrite IH. destruct (text_eqb_spec (c_name s) m') as [E'|E'].
    + subst m'. destruct (text_eqb_spec m (c_name s)); [congruence|reflexivity].
    + destruct (text_eqb_spec (c_name s) m); [congruence|reflexivity].
Qed.

Lemma chan_find_none m l : chan_find m l = None <-> lookup m l = None.
Proof.
  induction l as [|s l IH]; [easy|]. unfold lookup in *. cbn [chan_find find]. destruct (text_eqb (c_name s) m); [easy|].
  destruct (chan_find m l); cbn; split; intros H; try easy; now apply IH in H.
Qed.

Lemma account_lookup_none m l : lookup m l = None <-> ~ In m (map c_name l).
Proof.
  unfold lookup. induction l as [|s l IH]; [easy|]. cbn [find map In].
  destruct (text_eqb_spec (c_name s) m) as [E|E]; [split; [discriminate|tauto]|]. rewrite IH. tauto.
Qed.

Lemma find_app_or {A} (f : A -> bool) a b : find f (a ++ b) = match find f a with Some x => Some x | None => find f b end.
Proof. induction a as [|x a IH]; [reflexivity|]. cbn. now destruct (f x). Qed.

Lemma at_slot_names i f l : keeps f -> map c_name (at_slot i f l) = map c_name l.
Proof.
  intros K. destruct i as [i|]; [|reflexivity]. cbn. destruct (nth_error l i) as [s|] eqn:E; [|reflexivity].
  revert i E. induction l as [|x l IH]; intros [|i] E; cbn in *; try discriminate.
  - injection E as ->. now rewrite K.
  - now rewrite (IH i E).
Qed.

Lemma chan_find_snoc m l s : chan_find m l = None -> c_name s = m -> chan_find m (l ++ [s]) = Some (length l).
Proof.
  intros H E. induction l as [|x l IH]; cbn [chan_find app length] in *; [now rewrite E, text_eqb_refl|].
  destruct (text_eqb (c_name x) m); [discriminate|]. destruct (chan_find m l); [discriminate|]. now rewrite IH.
Qed.

Section Bounded.

(** At most 16 channels, with names that fit. *)
Variable ks : list text.
Hypothesis few : (length ks <= SPNL_CHAN_MAX)%nat.

Definition table_ok (l : list spnl_chan_stat) : Prop := NoDup (map c_name l) /\ incl (map c_name l) ks.

Lemma intern_ok m l : table_ok l -> In m ks -> (length m < SPNL_CHAN_NAME_MAX)%nat ->
  let '(i, l') := chan_intern m l in
  i = chan_find m l' /\ table_ok l' /\
  (forall m', lookup m' l' = if text_eqb m m' then Some (match lookup m l with Some s => s | None => new_chan m end) else lookup m' l).
Proof.
  intros [N I] Hm L. unfold chan_intern. destruct (chan_find m l) as [i|] eqn:F.
  - split; [now rewrite F|]. split; [split; assumption|]. intros m'. destruct (text_eqb_spec m m') as [<-|]; [|reflexivity].
    destruct (lookup m l) eqn:E; [reflexivity|]. apply chan_find_none in E. congruence.
  - assert (Nm : ~ In m (map c_name l)) by now apply account_lookup_none, chan_find_none.
    assert (Lm : (length (m :: map c_name l) <= length ks)%nat).
    { apply NoDup_incl_length; [now constructor|]. intros x [<-|Hx]; [exact Hm|now apply I]. }
    cbn [length] in Lm. rewrite length_map in Lm. destruct (Nat.leb_spec SPNL_CHAN_MAX (length l)); [lia|].
    assert (E : c_name (new_chan m) = m) by (cbn [new_chan c_name]; apply firstn_all2; lia).
    split; [symmetry; now apply chan_find_snoc|]. split.
    + split; rewrite map_app; cbn [map]; rewrite E.
      * apply NoDup_app; [exact N|repeat constructor; easy|]. intros x Hx [<-|[]]. contradiction.
      * intros x Hx. apply in_app_or in Hx as [Hx|[<-|[]]]; [now apply I|exact Hm].
    + intros m'. unfold lookup in *. rewrite find_app_or. cbn [find]. rewrite E. apply chan_find_none in F. unfold lookup in F.
      destruct (text_eqb_spec m m') as [<-|]; [now rewrite F|]. now destruct (find (fun s => text_eqb (c_name s) m') l).
Qed.

Lemma at_slot_ok i f l : keeps f -> table_ok l -> table_ok (at_slot i f l).
Proof. intros K [N I]. split; now rewrite (at_slot_names i f l K). Qed.

Lemma perform_ok l o : table_ok l -> (length (channel o) < SPNL_CHAN_NAME_MAX)%nat -> (registers o = true -> In (channel o) ks) ->
  table_ok (perform l o) /\ forall m, lookup m (perform l o) = account m (lookup m l) o.
Proof.
  intros T L R. destruct o as [m|m|m n|m n|m r h]; cbn [perform channel registers] in *.
  - unfold spnl_channel_declare. pose proof (intern_ok m l T (R eq_refl) L) as H.
    destruct (chan_intern m l) as [i l']. destruct H as (_ & T' & H). split; [exact T'|]. intros m'. cbn [snd]. rewrite H.
    unfold account. cbn [channel registers effect]. destruct (text_eqb_spec m m') as [<-|]; [|reflexivity]. now destruct (lookup m l).
  - unfold spnl_channel_seen. pose proof (intern_ok m l T (R eq_refl) L) as H.
    destruct (chan_intern m l) as [i l']. destruct H as (-> & T' & H). split; [apply at_slot_ok; easy|].
    intros m'. rewrite lookup_at by easy. rewrite !H, text_eqb_refl. unfold account. cbn [channel registers effect].
    destruct (text_eqb_spec m m') as [<-|]; [|reflexivity]. now destruct (lookup m l).
  - unfold spnl_channel_in. destruct (Z.leb_spec n 0) as [Hn|Hn].
    + split; [exact T|]. intros m'. unfold account. cbn [channel registers effect].
      destruct (Z.ltb_spec 0 n); [lia|]. destruct (text_eqb m m'); [|reflexivity]. now destruct (lookup m' l).
    + assert (Hr : (0 <? n) = true) by (apply Z.ltb_lt; lia). pose proof (intern_ok m l T (R Hr) L) as H.
      destruct (chan_intern m l) as [i l']. destruct H as (-> & T' & H). split; [apply at_slot_ok; easy|].
      intros m'. rewrite lookup_at by easy. rewrite !H, text_eqb_refl. unfold account. cbn [channel registers effect]. rewrite Hr.
      destruct (text_eqb_spec m m') as [<-|]; [|reflexivity]. now destruct (lookup m l).
  - unfold spnl_channel_out. unfold account. cbn [channel registers effect]. destruct (0 <? n) eqn:Hn.
    + split; [apply at_slot_ok; easy|]. intros m'. rewrite lookup_at by easy.
      destruct (text_eqb_spec m m') as [<-|]; [|reflexivity]. now destruct (lookup m l).
    + split; [exact T|]. intros m'. destruct (text_eqb m m'); [|reflexivity]. now destruct (lookup m' l).
  - unfold spnl_channel_dropped. split; [apply at_slot_ok; [apply drop_one_keeps|exact T]|]. intros m'.
    rewrite lookup_at by apply drop_one_keeps. unfold account. cbn [channel registers effect].
    destruct (text_eqb_spec m m') as [<-|]; [|reflexivity]. now destruct (lookup m l).
Qed.

End Bounded.

(** ** The account from the history of calls *)

Definition drains (o : call) : bool := match o with Seen _ => true | In_ _ n => 0 <? n | _ => false end.
Definition came_in (o : call) : Z := match o with In_ _ n => Z.max 0 n | _ => 0 end.
Definition went_out (o : call) : Z := match o with Out _ n => Z.max 0 n | _ => 0 end.
Definition dropped_as (r : text) (o : call) : bool := match o with Dropped _ r' _ => text_eqb r' r | _ => false end.

Definition sumz (l : list Z) : Z := fold_right Z.add 0 l.

Lemma sumz_app a b : sumz (a ++ b) = sumz a + sumz b.
Proof. unfold sumz. induction a as [|x a IH]; cbn [app fold_right]; lia. Qed.

(** The calls for a channel from the one that registers it. *)
Fixpoint history (m : text) (calls : list call) : list call :=
  match calls with
  | [] => []
  | o :: calls' => if text_eqb (channel o) m && registers o then o :: filter (fun o => text_eqb (channel o) m) calls' else history m calls'
  end.

(** The reasons in the order of their first use, each with the hint given then. *)
Definition note_reason (l : list (text * text)) (o : call) : list (text * text) :=
  match o with
  | Dropped _ r h => if existsb (fun x => text_eqb (fst x) r) l then l else l ++ [(r, h)]
  | _ => l
  end.
Definition reasons (h : list call) : list (text * text) := fold_left note_reason h [].
Definition tally (r : text) (h : list call) : Z := Z.of_nat (length (filter (dropped_as r) h)).

Definition balance (m : text) (h : list call) : spnl_chan_stat :=
  mk_chan m (u64 (sumz (map came_in h))) (u64 (sumz (map went_out h)))
    (map (fun x => mk_drop (fst x) (snd x) (u64 (tally (fst x) h))) (firstn SPNL_CHAN_DROPS_MAX (reasons h))) (existsb drains h).

Lemma tally_snoc r h o : tally r (h ++ [o]) = tally r h + if dropped_as r o then 1 else 0.
Proof. unfold tally. rewrite filter_app, length_app. cbn [filter]. destruct (dropped_as r o); cbn [length]; lia. Qed.

Lemma existsb_reason r l : existsb (fun x : text * text => text_eqb (fst x) r) l = true <-> In r (map fst l).
Proof.
  rewrite existsb_exists, in_map_iff. split; intros (x & A & B); exists x; [|rewrite A, text_eqb_refl; auto].
  split; [now apply text_eqb_eq|exact A].
Qed.

Lemma reasons_snoc h o : reasons (h ++ [o]) = note_reason (reasons h) o.
Proof. unfold reasons. now rewrite fold_left_app. Qed.

Lemma reasons_distinct h : NoDup (map fst (reasons h)).
Proof.
  induction h as [|o h IH] using rev_ind; [constructor|]. rewrite reasons_snoc. destruct o as [| | | |m r hint]; try exact IH.
  cbn [note_reason]. destruct (existsb _ _) eqn:E; [exact IH|]. rewrite map_app. cbn [map fst].
  apply NoDup_app; [exact IH|repeat constructor; easy|]. intros x Hx [<-|[]]. apply existsb_reason in Hx. congruence.
Qed.

Lemma tally_absent r h : ~ In r (map fst (reasons h)) -> tally r h = 0.
Proof.
  induction h as [|o h IH] using rev_ind; [reflexivity|]. rewrite reasons_snoc, tally_snoc. destruct o as [| | | |m r' hint]; cbn [note_reason dropped_as];
    try (intros H; rewrite IH by exact H; reflexivity).
  destruct (existsb _ _) eqn:E; intros H.
  - rewrite IH by exact H. destruct (text_eqb_spec r' r) as [->|]; [|reflexivity]. apply existsb_reason in E. contradiction.
  - rewrite map_app, in_app_iff in H. rewrite IH by tauto. destruct (text_eqb_spec r' r) as [->|]; [|reflexivity]. cbn in H. tauto.
Qed.

(** Counting a drop in the table of reasons. *)
Lemma find_drop_spec r l : match find_drop r l with
  | Some i => exists d, nth_error l i = Some d /\ reason d = r
  | None => ~ In r (map reason l)
  end.
Proof.
  induction l as [|d l IH]; [easy|]. cbn [find_drop]. destruct (text_eqb_spec (reason d) r) as [E|E]; [now exists d|].
  destruct (find_drop r l) as [i|]; cbn [option_map]; [exact IH|]. intros [H|H]; contradiction.
Qed.

Lemma bump_one {A} (f g : A -> drop_t) r l i : NoDup (map (fun x => reason (f x)) l) ->
  (forall x, reason (f x) <> r -> g x = f x) -> (forall x, reason (f x) = r -> g x = bump (f x)) ->
  forall d, nth_error (map f l) i = Some d -> reason d = r -> upd (map f l) i (bump d) = map g l.
Proof.
  intros N Ho Hr. revert i. induction l as [|x l IH]; intros [|i] d E Hd; cbn [map nth_error] in *; try discriminate.
  - injection E as <-. cbn [upd]. rewrite (Hr x Hd). f_equal. apply map_ext_in. intros y Hy. symmetry. apply Ho. intros H.
    inversion N as [|? ? Nx _]. apply Nx. rewrite Hd, <- H. exact (in_map (fun x => reason (f x)) l y Hy).
  - inversion N as [|? ? Nx N']. cbn [upd]. rewrite (IH N' i d E Hd). f_equal. symmetry. apply Ho. intros Hx.
    apply Nx. rewrite Hx, <- Hd. apply nth_error_In in E. rewrite <- map_map. now apply in_map.
Qed.

Lemma balance_drop m h m' r hint : balance m (h ++ [Dropped m' r hint]) = drop_one r hint (balance m h).
Proof.
  unfold balance, drop_one. cbn [drops]. rewrite !map_app, !sumz_app, existsb_app, reasons_snoc. cbn [map sumz fold_right came_in went_out existsb drains orb]. rewrite !Z.add_0_r, orb_false_r.
  set (L := reasons h). set (f := fun x => mk_drop (fst x) (snd x) (u64 (tally (fst x) h))).
  set (g := fun x => mk_drop (fst x) (snd x) (u64 (tally (fst x) (h ++ [Dropped m' r hint])))).
  assert (Go : forall x, reason (f x) <> r -> g x = f x).
  { intros x Hx. unfold g, f in *. rewrite tally_snoc. cbn [dropped_as reason] in *. destruct (text_eqb_spec r (fst x)); [congruence|]. now rewrite Z.add_0_r. }
  assert (Gr : forall x, reason (f x) = r -> g x = bump (f x)).
  { intros x Hx. unfold g, f, bump in *. rewrite tally_snoc. cbn [dropped_as reason Balance.hint dn] in *. rewrite Hx, text_eqb_refl. now rewrite wrap_add_l. }
  pose proof (reasons_distinct h) as N. fold L in N. cbn [note_reason].
  pose proof (find_drop_spec r (map f (firstn SPNL_CHAN_DROPS_MAX L))) as F. rewrite map_map in F. change (fun x => reason (f x)) with (@fst text text) in F.
  assert (NF : NoDup (map fst (firstn SPNL_CHAN_DROPS_MAX L))) by (rewrite <- (firstn_skipn SPNL_CHAN_DROPS_MAX L), map_app in N; now apply NoDup_app_remove_r in N).
  destruct (find_drop r _) as [i|].
  - destruct F as (d & Ed & Hd). rewrite Ed. cbn [set_drops]. assert (I : In r (map fst L)).
    { apply nth_error_In, in_map_iff in Ed as (x & <- & Hx). apply in_map_iff. exists x. split; [exact Hd|]. rewrite <- (firstn_skipn SPNL_CHAN_DROPS_MAX L). apply in_or_app. now left. }
    apply existsb_reason in I. rewrite I. unfold set_drops. cbn [c_name c_in c_out drained]. f_equal.
    symmetry. eapply bump_one; eauto.
  - assert (Same : map g (firstn SPNL_CHAN_DROPS_MAX L) = map f (firstn SPNL_CHAN_DROPS_MAX L)).
    { apply map_ext_in. intros x Hx. apply Go. intros H. apply F. rewrite <- H. exact (in_map fst _ _ Hx). }
    rewrite length_map, length_firstn. destruct (Nat.leb_spec SPNL_CHAN_DROPS_MAX (Nat.min SPNL_CHAN_DROPS_MAX (length L))) as [Hl|Hl].
    + rewrite <- Same. f_equal. f_equal. destruct (existsb _ L); [reflexivity|]. rewrite firstn_app.
      replace (SPNL_CHAN_DROPS_MAX - length L)%nat with O by lia. now rewrite firstn_O, app_nil_r.
    + rewrite (firstn_all2 L) in * by lia. destruct (existsb _ L) eqn:E; [apply existsb_reason in E; contradiction|].
      unfold set_drops. cbn [c_name c_in c_out drained]. rewrite firstn_all2 by (rewrite length_app; cbn [length]; lia).
      rewrite map_app, Same. f_equal. f_equal. cbn [map]. unfold g. cbn [fst snd]. rewrite tally_snoc, (tally_absent r h F). cbn [dropped_as]. now rewrite text_eqb_refl.
Qed.

Lemma balance_step m h o : balance m (h ++ [o]) = effect o (balance m h).
Proof.
  destruct o as [m'|m'|m' n|m' n|m' r hint]; [| | | |apply balance_drop];
    unfold balance, effect, set_drained, add_in, add_out; cbn [c_name c_in c_out drops drained];
    rewrite !map_app, !sumz_app, existsb_app, reasons_snoc; cbn [map sumz fold_right came_in went_out existsb drains orb note_reason];
    rewrite ?orb_false_r, ?orb_true_r, ?Z.add_0_r;
    rewrite (map_ext (fun x => mk_drop (fst x) (snd x) (u64 (tally (fst x) (h ++ [_])))) (fun x => mk_drop (fst x) (snd x) (u64 (tally (fst x) h))))
      by (intros x; rewrite tally_snoc; cbn [dropped_as]; now rewrite Z.add_0_r);
    try reflexivity.
  all: destruct (Z.ltb_spec 0 n); [rewrite Z.max_r, wrap_add_l by lia|rewrite Z.max_l, Z.add_0_r by lia]; rewrite ?orb_true_r, ?orb_false_r; reflexivity.
Qed.

Lemma history_snoc m calls o : history m (calls ++ [o]) =
  match history m calls with
  | [] => if text_eqb (channel o) m && registers o then [o] else []
  | h => if text_eqb (channel o) m then h ++ [o] else h
  end.
Proof.
  induction calls as [|x calls IH]; [reflexivity|]. cbn [history app]. destruct (text_eqb (channel x) m && registers x); [|exact IH].
  rewrite filter_app. cbn [filter]. destruct (text_eqb (channel o) m); [reflexivity|now rewrite app_nil_r].
Qed.

Lemma account_history m calls : Forall (fun o => (length (channel o) < SPNL_CHAN_NAME_MAX)%nat) calls ->
  fold_left (account m) calls None = match history m calls with [] => None | h => Some (balance m h) end.
Proof.
  induction calls as [|o calls IH] using rev_ind; intros H; [reflexivity|]. apply Forall_app in H as [H Ho]. apply Forall_inv in Ho.
  rewrite fold_left_app, history_snoc, IH by exact H. cbn [fold_left]. unfold account. destruct (text_eqb_spec (channel o) m) as [<-|]; [|now destruct (history m calls)].
  destruct (history (channel o) calls) as [|x h]; cbn [andb].
  - destruct (registers o); [|reflexivity]. change [o] with ([] ++ [o]). rewrite balance_step. unfold new_chan.
    rewrite firstn_all2 by (unfold SPNL_CHAN_NAME_MAX in *; lia). reflexivity.
  - cbn [app]. change (x :: h ++ [o]) with ((x :: h) ++ [o]). now rewrite balance_step.
Qed.

(** C37: the bounded table of channels keeps one independent balance per channel.
    While at most 16 channels are registered and their names are shorter than 64
    characters, after any sequence of calls the entry of a channel is determined by
    its own calls from the registering one on: the records in, the records out, for
    each of the first four reasons (in order of first use) how often a record was
    dropped for it, and whether the channel was ever drained. *)
Theorem channels_refine ks calls :
  (length ks <= SPNL_CHAN_MAX)%nat ->
  Forall (fun o => (length (channel o) < SPNL_CHAN_NAME_MAX)%nat /\ (registers o = true -> In (channel o) ks)) calls ->
  forall m, lookup m (fold_left perform calls []) = match history m calls with [] => None | h => Some (balance m h) end.
Proof.
  intros Hk Hc m. rewrite <- account_history by (eapply Forall_impl; [|exact Hc]; intros o Ho; apply Ho).
  assert (G : table_ok ks (fold_left perform calls []) /\
              forall m, lookup m (fold_left perform calls []) = fold_left (account m) calls None); [|apply G]. clear m.
  induction calls as [|o calls IH] using rev_ind; [split; [split; [constructor|easy]|reflexivity]|].
  apply Forall_app in Hc as [Hc Ho]. apply Forall_inv in Ho as [L R]. destruct (IH Hc) as [T A].
  rewrite !fold_left_app. cbn [fold_left]. destruct (perform_ok ks Hk _ o T L R) as [T' P].
  split; [exact T'|]. intros m. rewrite fold_left_app. cbn [fold_left]. now rewrite P, A.
Qed.

Lemma channels_refine_witness :
  lookup (lit "u_dns_events") (fold_left perform
     [Seen (lit "u_dns_events"); Seen (lit "u_conn_events"); In_ (lit "u_dns_events") 3; Out (lit "u_conn_events") 7;
      Dropped (lit "u_dns_events") (lit "unparseable_qname") []; Out (lit "u_dns_events") 2] []) =
  Some (mk_chan (lit "u_dns_events") 3 2 [mk_drop (lit "unparseable_qname") [] 1] true).
Proof.
  rewrite (channels_refine [lit "u_dns_events"; lit "u_conn_events"]).
  - vm_compute. reflexivity.
  - vm_compute. lia.
  - apply Forall_forall. intros o H. cbn [In] in H.
    destruct H as [<-|[<-|[<-|[<-|[<-|[<-|[]]]]]]]; (split; [vm_compute; lia|cbn [registers channel In]; intros; auto]).
Defined.

(** A name of 64 characters or more is stored cut but compared in full: every call
    registers the channel again, and 16 calls fill the table for all channels. *)
Definition long_name : text := repeat "m"%char 64.

Lemma long_name_fills_table :
  length (fold_left perform (repeat (Seen long_name) 16) []) = 16%nat /\
  fold_left perform (repeat (Seen long_name) 16 ++ [In_ (lit "u_dns_events") 5]) [] =
  fold_left perform (repeat (Seen long_name) 16) [] /\
  lookup long_name (fold_left perform (repeat (Seen long_name) 16) []) = None.
Proof. vm_compute. repeat split. Qed.

End Refine.

Module ReadBack.
Import Balance Report.

(** A reader of the key/value form: it finds each word after the one before it. *)
Fixpoint after (p : text) (s : text) : option text :=
  match strip_prefix p s with
  | Some r => Some r
  | None => match s with [] => None | _ :: s' => after p s' end
  end.

Definition read_num (key : string) (s : text) : option (Z * text) :=
  match after (lit key) s with
  | Some r => let '(d, r) := digits r in Some (dec_val d, r)
  | None => None
  end.

Record row := mk_row { r_name : text; r_drained : Z; r_in : Z; r_out : Z; r_dropped : Z }.

(** One line without its newline. *)
Definition read_line (s : text) : option row :=
  match strip_prefix (lit "spnl.channel ") s with
  | None => None
  | Some s =>
      match split_at " " s with
      | None => None
      | Some (name, s) =>
          match read_num "drained=" s with
          | None => None
          | Some (d, s) =>
              match read_num " in=" s with
              | None => None
              | Some (i, s) =>
                  match read_num " out=" s with
                  | None => None
                  | Some (o, s) => match read_num " dropped=" s with Some (x, _) => Some (mk_row name d i o x) | None => None end
                  end
              end
          end
      end
  end.

(** ** The digits [w_num] writes *)

Lemma w_digits_dec g f v b : 0 < v < 10 ^ Z.of_nat f -> (Z.to_nat (Z.log2 v) < g)%nat -> w_digits f v b = dec_digits g v b.
Proof.
  revert f v b. induction g as [|g IH]; intros f v b Hv Hg; [lia|].
  destruct f as [|f]; [cbn in Hv; lia|]. rewrite Nat2Z.inj_succ, Z.pow_succ_r in Hv by lia. cbn [w_digits dec_digits].
  destruct (Z.eqb_spec v 0); [lia|]. destruct (Z.ltb_spec v 10) as [H|H].
  - rewrite Z.div_small by lia. destruct f; reflexivity.
  - assert (L : Z.log2 (v / 10) < Z.log2 v).
    { apply Z.log2_lt_pow2; [apply Z.div_str_pos; lia|]. apply Z.div_lt_upper_bound; [lia|].
      pose proof (Z.log2_spec v ltac:(lia)) as [_ U]. rewrite Z.pow_succ_r in U by apply Z.log2_nonneg.
      pose proof (pow2_pos (Z.log2 v) (Z.log2_nonneg _)). lia. }
    pose proof (Z.log2_nonneg (v / 10)). apply IH; [split; [apply Z.div_str_pos; lia|apply Z.div_lt_upper_bound; lia]|lia].
Qed.

Lemma w_num_dec v : 0 <= v < 2 ^ 64 -> w_num v = dec_u v.
Proof.
  intros H. unfold w_num. destruct (Z.eqb_spec v 0) as [->|]; [reflexivity|].
  apply w_digits_dec; [change (10 ^ Z.of_nat 23) with 100000000000000000000000; lia|unfold dec_fuel; lia].
Qed.

(** ** Reading a line *)

Lemma after_here p s r : strip_prefix p s = Some r -> after p s = Some r.
Proof. intros H. destruct s; cbn [after]; now rewrite H. Qed.

Lemma read_num_here key v r : 0 <= v < 2 ^ 64 -> match r with [] => True | c :: _ => is_digit c = false end ->
  read_num key (lit key ++ w_num v ++ r) = Some (v, r).
Proof.
  intros Hv Hr. unfold read_num. rewrite (after_here _ _ (w_num v ++ r)) by now apply strip_prefix_spec.
  rewrite w_num_dec, digits_app, dec_val_dec_u by (auto; try apply dec_u_digits; lia). reflexivity.
Qed.

Definition stat_ok (s : spnl_chan_stat) : Prop :=
  0 <= c_in s < 2 ^ 64 /\ 0 <= c_out s < 2 ^ 64 /\ ~ In " "%char (c_name s).

Definition row_of (s : spnl_chan_stat) : row :=
  mk_row (c_name s) (if drained s then 1 else 0) (c_in s) (c_out s) (dropped_total s).

Lemma dropped_total_range s : 0 <= dropped_total s < 2 ^ 64.
Proof.
  unfold dropped_total. generalize (drops s). assert (G : forall l t, 0 <= t < 2 ^ 64 -> 0 <= fold_left (fun t d => u64 (t + dn d)) l t < 2 ^ 64).
  { induction l as [|d l IH]; intros t Ht; [exact Ht|]. cbn [fold_left]. apply IH. now apply wrap_range. }
  intros l. apply G. lia.
Qed.

Lemma kv_line_read s : stat_ok s -> exists t, kv_line s = t ++ nl /\ read_line t = Some (row_of s).
Proof.
  intros (Hi & Ho & Hn).
  exists (lit "spnl.channel " ++ c_name s ++ " "%char :: (lit "drained=" ++ w_num (if drained s then 1 else 0) ++
          (lit " in=" ++ w_num (c_in s) ++ (lit " out=" ++ w_num (c_out s) ++ (lit " dropped=" ++ w_num (dropped_total s) ++ []))))).
  split.
  { unfold kv_line. change (lit " drained=") with (" "%char :: lit "drained="). rewrite app_nil_r.
    repeat (rewrite <- app_assoc || rewrite <- app_comm_cons). reflexivity. }
  unfold read_line. rewrite (proj2 (strip_prefix_spec _ _ _) eq_refl), split_at_app by exact Hn.
  pose proof (dropped_total_range s).
  rewrite read_num_here by (try reflexivity; destruct (drained s); lia). rewrite read_num_here by (reflexivity || lia).
  rewrite read_num_here by (reflexivity || lia). rewrite read_num_here by (reflexivity || exact I || lia). reflexivity.
Qed.

End ReadBack.
