(* ===== verification/OtlpMetrics.v ===== *)
(** * Metric accumulators: time series keyed by labels

    - [Keyed]: the shape the accumulators share - find the series of a key, append
      it when it is new and there is room, fold the event into it - and the table
      of the events such a loop is meant to compute.
    - [HttpRecord]: method, path and status of an HTTP record
      ([src/runtime/otlp/otlp_agent.c]).
    - [Recmetric]: the metrics declared on record channels
      ([src/runtime/otlp/otlp_recmetric.c] and the generated tables of
      [src/runtime/otlp/record_mirror_gen.h]).
    - [HttpDur]: the request durations of [src/runtime/otlp/otlp_httpspan.c].
    - [Registry]: the labels of keyed histograms ([src/runtime/otlp/otlp_metric.c]). *)

From S2P Require Import Prelude CText OtlpHist.
Import Doubles.
Local Open Scope string_scope.
Local Open Scope list_scope.
Local Open Scope Z_scope.

(** The position of the first element that satisfies a test: the lookup loops. *)
Fixpoint find_index {A} (p : A -> bool) (l : list A) : option nat :=
  match l with
  | [] => None
  | x :: l' => if p x then Some O else option_map S (find_index p l')
  end.

Lemma find_index_ext {A} (p q : A -> bool) l : (forall x, In x l -> p x = q x) -> find_index p l = find_index q l.
Proof.
  induction l as [|x l IH]; intros E; cbn [find_index]; [reflexivity|].
  rewrite (E x) by now left. rewrite IH by (intros; apply E; now right). reflexivity.
Qed.

Lemma find_index_some {A} (p : A -> bool) l i : find_index p l = Some i ->
  exists x, nth_error l i = Some x /\ p x = true.
Proof.
  revert i; induction l as [|x l IH]; intros i E; cbn [find_index] in E; [discriminate|].
  destruct (p x) eqn:P; [inv E; now exists x|].
  destruct (find_index p l) as [j|]; inv E. exact (IH j eq_refl).
Qed.

Module Keyed.

Section Table.

Context {E A K : Type} (key : E -> K) (akey : A -> K) (keyb : K -> K -> bool).
Context (new : E -> A) (step : A -> E -> A) (cap : nat).
Context (keyb_eq : forall k k', keyb k k' = true <-> k = k').
Context (akey_new : forall e, akey (new e) = key e) (akey_step : forall a e, akey (step a e) = akey a).

(** One event: into its series, into a new one, or dropped. *)
Definition record (l : list A) (e : E) : list A :=
  match find_index (fun a => keyb (akey a) (key e)) l with
  | Some i => match nth_error l i with Some a => upd l i (step a e) | None => l end
  | None => if (cap <=? length l)%nat then l else l ++ [step (new e) e]
  end.

(** The first event of every key, in order. *)
Definition firsts (evs : list E) : list E :=
  fold_left (fun acc e => if existsb (fun x => keyb (key x) (key e)) acc then acc else acc ++ [e]) evs [].

(** One series per key: all the events of the key, in order, folded into it. *)
Definition series (evs : list E) (e0 : E) : A :=
  fold_left step (filter (fun e => keyb (key e) (key e0)) evs) (new e0).

Definition table (evs : list E) : list A := map (series evs) (firsts evs).

Lemma keyb_refl k : keyb k k = true.
Proof. now apply keyb_eq. Qed.

Lemma firsts_snoc evs e : firsts (evs ++ [e]) =
  if existsb (fun x => keyb (key x) (key e)) (firsts evs) then firsts evs else firsts evs ++ [e].
Proof. unfold firsts. now rewrite fold_left_app. Qed.

Lemma firsts_incl evs : incl (firsts evs) evs.
Proof.
  induction evs as [|e evs IH] using rev_ind; [easy|]. rewrite firsts_snoc.
  destruct (existsb _ _); intros x Hx; [apply in_or_app; left; now apply IH|].
  apply in_app_or in Hx as [Hx|Hx]; apply in_or_app; [left; now apply IH|now right].
Qed.

Lemma firsts_nodup evs : NoDup (map key (firsts evs)).
Proof.
  induction evs as [|e evs IH] using rev_ind; [constructor|]. rewrite firsts_snoc.
  destruct (existsb _ _) eqn:X; [exact IH|]. rewrite map_app.
  apply NoDup_app; [exact IH|repeat constructor; easy|].
  intros k Hk [<-|[]]. apply in_map_iff in Hk as (x & Ek & Hx).
  apply Bool.not_true_iff_false in X. apply X, existsb_exists. exists x. split; [exact Hx|now apply keyb_eq].
Qed.

Lemma firsts_covers evs e : In e evs -> exists x, In x (firsts evs) /\ key x = key e.
Proof.
  induction evs as [|f evs IH] using rev_ind; [easy|]. intros H. rewrite firsts_snoc.
  destruct (existsb _ _) eqn:X; apply in_app_or in H as [H|[->|[]]].
  - now apply IH.
  - apply existsb_exists in X as (x & Hx & Ek). exists x. split; [exact Hx|now apply keyb_eq].
  - destruct (IH H) as (x & Hx & Ek). exists x. split; [apply in_or_app; now left|exact Ek].
  - exists e. split; [apply in_or_app; right; now left|reflexivity].
Qed.

Lemma akey_series evs e0 : akey (series evs e0) = key e0.
Proof.
  assert (G : forall l a, akey (fold_left step l a) = akey a).
  { induction l as [|e l IH]; intros a; cbn [fold_left]; [reflexivity|]. now rewrite IH, akey_step. }
  unfold series. now rewrite G, akey_new.
Qed.

Lemma series_snoc evs e e0 :
  series (evs ++ [e]) e0 = if keyb (key e) (key e0) then step (series evs e0) e else series evs e0.
Proof.
  unfold series. rewrite filter_app, fold_left_app. cbn [filter]. now destruct (keyb (key e) (key e0)).
Qed.

Lemma series_fresh evs e : existsb (fun x => keyb (key x) (key e)) (firsts evs) = false ->
  series evs e = new e.
Proof.
  intros X. unfold series. enough (F : filter (fun x => keyb (key x) (key e)) evs = []) by now rewrite F.
  destruct (filter (fun x => keyb (key x) (key e)) evs) as [|x l] eqn:F; [reflexivity|].
  assert (Hx : In x (filter (fun x => keyb (key x) (key e)) evs)) by (rewrite F; now left).
  apply filter_In in Hx as [Hx Ek]. destruct (firsts_covers evs x Hx) as (y & Hy & Ey).
  apply Bool.not_true_iff_false in X. exfalso. apply X, existsb_exists. exists y. split; [exact Hy|now rewrite Ey].
Qed.

Lemma find_index_known evs e xs : existsb (fun x => keyb (key x) (key e)) xs = true ->
  exists i, find_index (fun a => keyb (akey a) (key e)) (map (series evs) xs) = Some i.
Proof.
  induction xs as [|x xs IH]; intros H; cbn [map find_index existsb] in *; [discriminate|].
  rewrite akey_series. destruct (keyb (key x) (key e)); [now exists O|].
  destruct (IH H) as [i F]. rewrite F. now exists (S i).
Qed.

(** Updating the series of [e] among those of [xs]. *)
Lemma record_old evs e xs : NoDup (map key xs) -> existsb (fun x => keyb (key x) (key e)) xs = true ->
  record (map (series evs) xs) e = map (series (evs ++ [e])) xs.
Proof.
  unfold record. induction xs as [|x xs IH]; intros Hnd Hin; [discriminate|].
  cbn [map existsb find_index] in *. rewrite akey_series. inv Hnd.
  destruct (keyb (key x) (key e)) eqn:B.
  - cbn [nth_error upd]. apply keyb_eq in B. f_equal.
    + rewrite series_snoc, <- B, keyb_refl. reflexivity.
    + apply map_ext_in. intros y Hy. rewrite series_snoc. destruct (keyb (key e) (key y)) eqn:C; [|reflexivity].
      apply keyb_eq in C. exfalso. apply H1. rewrite B, C. now apply in_map.
  - cbn [orb] in Hin. specialize (IH H2 Hin). rewrite series_snoc.
    destruct (keyb (key e) (key x)) eqn:C; [apply keyb_eq in C; rewrite C, keyb_refl in B; discriminate|].
    destruct (find_index_known evs e xs Hin) as [i F]. rewrite F in *.
    cbn [option_map nth_error]. destruct (find_index_some _ _ _ F) as (a & Ha & _). rewrite Ha in *.
    cbn [upd]. now rewrite IH.
Qed.

Lemma find_index_fresh evs e xs : existsb (fun x => keyb (key x) (key e)) xs = false ->
  find_index (fun a => keyb (akey a) (key e)) (map (series evs) xs) = None.
Proof.
  induction xs as [|x xs IH]; intros H; cbn [map find_index existsb] in *; [reflexivity|].
  apply orb_false_iff in H as [B H]. now rewrite akey_series, B, IH.
Qed.

(** As long as the distinct keys fit, the loop computes the table of its events. *)
Lemma record_table evs : (length (firsts evs) <= cap)%nat -> fold_left record evs [] = table evs.
Proof.
  induction evs as [|e evs IH] using rev_ind; [reflexivity|]. rewrite firsts_snoc. intros Hc.
  rewrite fold_left_app. cbn [fold_left]. unfold table. rewrite firsts_snoc.
  destruct (existsb _ (firsts evs)) eqn:X.
  - rewrite IH by exact Hc. apply record_old; [apply firsts_nodup|exact X].
  - rewrite length_app in Hc. cbn [length] in Hc. rewrite IH by lia. unfold record, table.
    rewrite (find_index_fresh evs e (firsts evs) X), length_map.
    destruct (Nat.leb_spec cap (length (firsts evs))); [lia|]. rewrite map_app. cbn [map]. f_equal.
    + apply map_ext_in. intros y Hy. rewrite series_snoc. destruct (keyb (key e) (key y)) eqn:C; [|reflexivity].
      apply keyb_eq in C. apply Bool.not_true_iff_false in X. exfalso. apply X, existsb_exists. exists y.
      split; [exact Hy|]. now rewrite C, keyb_refl.
    + now rewrite series_snoc, keyb_refl, (series_fresh evs e X).
Qed.

(** Distinct keys drawn from a finite universe fit into its size. *)
Lemma firsts_bounded evs (universe : list K) :
  Forall (fun e => In (key e) universe) evs -> (length (firsts evs) <= length universe)%nat.
Proof.
  intros H. rewrite <- (length_map key). apply NoDup_incl_length; [apply firsts_nodup|].
  intros k Hk. apply in_map_iff in Hk as (x & <- & Hx). apply firsts_incl in Hx.
  exact (proj1 (Forall_forall _ _) H x Hx).
Qed.

(** Looking a key up in the table. *)
Lemma table_find evs k : find (fun a => keyb (akey a) k) (table evs) =
  option_map (series evs) (find (fun e => keyb (key e) k) (firsts evs)).
Proof.
  unfold table. induction (firsts evs) as [|e l IH]; [reflexivity|]. cbn [map find].
  rewrite akey_series. now destruct (keyb (key e) k).
Qed.

Lemma firsts_find_none evs k : find (fun e => keyb (key e) k) (firsts evs) = None ->
  filter (fun e => keyb (key e) k) evs = [].
Proof.
  intros N. destruct (filter (fun e => keyb (key e) k) evs) as [|x l] eqn:F; [reflexivity|].
  assert (Hx : In x (filter (fun e => keyb (key e) k) evs)) by (rewrite F; now left).
  apply filter_In in Hx as [Hx Ek]. destruct (firsts_covers evs x Hx) as (y & Hy & Ey).
  pose proof (find_none _ _ N y Hy) as C. cbv beta in C. rewrite Ey in C. congruence.
Qed.

Lemma akey_table evs : map akey (table evs) = map key (firsts evs).
Proof. unfold table. rewrite map_map. apply map_ext. intros e. apply akey_series. Qed.

(** A counter of the series that each event advances by [w] counts modulo 2^64. *)
Lemma table_counter (P : A -> Prop) (f : A -> Z) (w : E -> Z) evs k :
  (forall e, P (new e)) -> (forall a e, P a -> P (step a e)) ->
  (forall e, f (new e) = 0) -> (forall a e, P a -> f (step a e) = u64 (f a + w e)) ->
  match find (fun a => keyb (akey a) k) (table evs) with Some a => f a | None => 0 end
  = u64 (zsum w (filter (fun e => keyb (key e) k) evs)).
Proof.
  intros Pn Ps Fn Fs. rewrite table_find. destruct (find _ (firsts evs)) as [e0|] eqn:F.
  - apply find_some in F as [_ Ek]. apply keyb_eq in Ek. cbn [option_map]. unfold series. rewrite Ek.
    assert (G : forall l a, P a -> u64 (f a) = f a -> f (fold_left step l a) = u64 (f a + zsum w l)).
    { induction l as [|e l IH]; intros a Pa Fa; cbn [fold_left].
      - cbn [zsum fold_right]. now rewrite Z.add_0_r.
      - rewrite IH, Fs, zsum_cons, wrap_add_l by (rewrite ?Fs; auto using wrap_wrap with zarith; apply wrap_wrap; lia).
        f_equal; lia. }
    rewrite G by (auto; now rewrite Fn). now rewrite Fn.
  - cbn [option_map]. now rewrite firsts_find_none.
Qed.

End Table.

End Keyed.

(** ** Method, path and status of an HTTP record *)

Module HttpRecord.

Definition token_end (c : ascii) : bool :=
  (code c =? 32) || (code c =? 13) || (code c =? 10) || (code c =? 0).

Definition printable (c : ascii) : bool := (32 <=? code c) && (code c <? 127).

(** [http_token] into a buffer of [room + 1] bytes. *)
Fixpoint http_token (room : nat) (src : text) : text :=
  match room, src with
  | S room', c :: src' =>
      if token_end c then []
      else (if printable c then c else "."%char) :: http_token room' src'
  | _, _ => []
  end.

Definition spnl_http_method (cap : nat) (req : text) : text := http_token (cap - 1) req.

Definition is_sp (c : ascii) : bool := code c =? 32.

Definition spnl_http_path (cap : nat) (req : text) : text :=
  http_token (cap - 1) (drop_while is_sp (drop_while (fun c => negb (token_end c)) req)).

Fixpoint status_digits (d : nat) (status : Z) (s : text) : Z :=
  match d, s with
  | S d', c :: s' => if is_digit c then status_digits d' (status * 10 + (code c - 48)) s' else status
  | _, _ => status
  end.

Definition spnl_http_status (resp : text) : Z :=
  status_digits 3 0 (drop_while is_sp (drop_while (fun c => negb (is_sp c)) resp)).

(** What the kernel captures: the first 64 bytes of the request, the first 16 of
    the response. *)
Definition is_token (t : text) : Prop := Forall (fun c => token_end c = false /\ printable c = true) t.

Lemma http_token_full room t : is_token t -> http_token room t = firstn room t.
Proof.
  intros H; revert room; induction H as [|c t [E P] _ IH]; intros [|room]; cbn [http_token firstn]; try reflexivity.
  now rewrite E, P, IH.
Qed.

Lemma http_token_stop room t c r : is_token t -> token_end c = true -> http_token room (t ++ c :: r) = firstn room t.
Proof.
  intros H Hc; revert room; induction H as [|d t [E P] _ IH]; intros [|room]; cbn [http_token firstn app]; try reflexivity.
  - now rewrite Hc.
  - now rewrite E, P, IH.
Qed.

Lemma drop_token t r : is_token t -> drop_while (fun c => negb (token_end c)) (t ++ r) = drop_while (fun c => negb (token_end c)) r.
Proof. induction 1 as [|c t [E _] _ IH]; cbn [app drop_while]; [reflexivity|]. now rewrite E. Qed.

Lemma token_no_space t c : is_token (c :: t) -> is_sp c = false.
Proof. intros H. inv H. destruct H2 as [E _]. unfold token_end in E. unfold is_sp. now destruct (code c =? 32). Qed.

(** The captured request line [METHOD path ...] gives back its method, and its path
    up to where the capture ends, when the buffers are as large as the capture. *)
Theorem http_request_line_parsed (m p rest : text) :
  is_token m -> is_token p -> p <> [] -> (length m + 1 < 64)%nat ->
  let req := firstn 64 (m ++ " "%char :: p ++ " "%char :: rest) in
  spnl_http_method 65 req = m /\ spnl_http_path 65 req = firstn (63 - length m) p.
Proof.
  intros Hm Hp Hne Hl. cbv zeta. rewrite firstn_app, (firstn_all2 m) by lia.
  replace (64 - length m)%nat with (S (63 - length m)) by lia. cbn [firstn]. split.
  - unfold spnl_http_method. rewrite http_token_stop by easy. apply firstn_all2. lia.
  - unfold spnl_http_path. rewrite drop_token by assumption. cbn [drop_while token_end negb].
    change (negb (token_end " ")) with false. cbv iota. cbn [drop_while]. change (is_sp " ") with true. cbv iota.
    destruct p as [|c p]; [easy|]. replace (63 - length m)%nat with (S (62 - length m)) by lia. cbn [app firstn drop_while].
    rewrite (token_no_space p c Hp). rewrite firstn_app.
    pose proof (Forall_inv Hp) as Hc. pose proof (Forall_inv_tail Hp) as Ht. remember (62 - length m)%nat as k eqn:Ek.
    change (c :: firstn k p ++ firstn (k - length p) (" "%char :: rest)) with ((c :: firstn k p) ++ firstn (k - length p) (" "%char :: rest)).
    assert (T : is_token (c :: firstn k p)).
    { constructor; [assumption|]. apply Forall_forall. intros x Hx. apply (proj1 (Forall_forall _ _) Ht).
      rewrite <- (firstn_skipn k p). apply in_or_app. now left. }
    assert (L : (length (c :: firstn k p) <= 64)%nat) by (cbn [length]; rewrite length_firstn; lia).
    destruct (k - length p)%nat as [|j].
    + cbn [firstn]. rewrite app_nil_r, http_token_full by assumption. apply firstn_all2. lia.
    + cbn [firstn]. rewrite http_token_stop by (assumption || reflexivity). apply firstn_all2. lia.
Qed.

(** The captured status line [HTTP/x NNN ...] gives back its three digits. *)
Theorem http_status_line_parsed (v rest : text) (a b c : Z) :
  Forall (fun x => is_sp x = false) v -> 0 <= a < 10 -> 0 <= b < 10 -> 0 <= c < 10 ->
  spnl_http_status (v ++ " "%char :: digit a :: digit b :: digit c :: rest) = 100 * a + 10 * b + c.
Proof.
  intros Hv Ha Hb Hc. unfold spnl_http_status.
  replace (drop_while (fun c => negb (is_sp c)) _) with (" "%char :: digit a :: digit b :: digit c :: rest).
  - cbn [drop_while]. change (is_sp " ") with true. cbv iota. cbn [drop_while].
    replace (is_sp (digit a)) with false by (unfold is_sp; rewrite code_digit by assumption; symmetry; apply Z.eqb_neq; lia).
    cbn [status_digits]. rewrite !is_digit_digit, !code_digit by assumption. lia.
  - induction Hv as [|x v E _ IH]; cbn [app drop_while]; [reflexivity|]. now rewrite E.
Qed.

End HttpRecord.
Import HttpRecord.

Fixpoint texts_eqb (a b : list text) : bool :=
  match a, b with
  | [], [] => true
  | x :: a', y :: b' => text_eqb x y && texts_eqb a' b'
  | _, _ => false
  end.

Lemma texts_eqb_eq a b : texts_eqb a b = true <-> a = b.
Proof.
  revert b; induction a as [|x a IH]; intros [|y b]; cbn [texts_eqb]; try easy.
  rewrite andb_true_iff, text_eqb_eq, IH. split; [intros [-> ->]|intros E; inv E]; auto.
Qed.

(** The bucket of a value among the boundaries: the first one that is not below it. *)
Definition bucket_of (bounds : list double) (v : double) : nat := first_index (fun b => d_le v b) bounds.

Definition incr (buckets : list Z) (b : nat) : list Z := upd buckets b (u64 (nth b buckets 0 + 1)).

Lemma nth_incr buckets b i : (b < length buckets)%nat ->
  nth i (incr buckets b) 0 = if (b =? i)%nat then u64 (nth i buckets 0 + 1) else nth i buckets 0.
Proof.
  intros Hb. unfold incr. destruct (Nat.eqb_spec b i) as [<-|N]; [now apply nth_upd_eq|now apply nth_upd_ne].
Qed.

Definition SPNL_BOUNDS_OTEL_DURATION_S : list double :=
  [d_of_Z 0; d_dec 5 3; d_dec 1 2; d_dec 25 3; d_dec 5 2; d_dec 75 3; d_dec 1 1; d_dec 25 2; d_dec 5 1;
   d_dec 75 2; d_of_Z 1; d_dec 25 1; d_of_Z 5; d_dec 75 1; d_of_Z 10].

(** ** The metrics declared on record channels *)

Module Recmetric.

(** [l_values = None] is the null pointer: the label's property is closed. *)
Record spnl_metric_label_t := mk_label {
  l_key : text; l_values : option (list text); l_fallback : text; l_bound : Z }.

Record spnl_metric_desc_t := mk_desc {
  d_channel : text; d_id : text; d_name : text; d_unit : text; is_hist : bool;
  bounds : list double; labels : list spnl_metric_label_t; series_bound : Z }.

Definition SPNL_RECMETRIC_MAX_LABELS : nat := 2.
Definition SPNL_RECMETRIC_MAX_BOUNDS : nat := 31.
Definition SPNL_RECMETRIC_LABEL_VAL_MAX : nat := 16.
Definition SPNL_RECMETRIC_COUNT : Z := 2.
Definition SPNL_RECMETRIC_MAX_SERIES : nat := 256.
Definition SPNL_RECMETRIC_TOTAL_SERIES_BOUND : nat := 183.

Definition spnl_ml_conn_count : list spnl_metric_label_t := [mk_label (lit "spnl.conn.direction") None [] 3].

Definition spnl_mlv_http_duration_0 : list text :=
  map lit ["CONNECT"; "DELETE"; "GET"; "HEAD"; "OPTIONS"; "PATCH"; "POST"; "PUT"; "TRACE"].

Definition spnl_mlv_http_duration_1 : list text :=
  map lit ["200"; "201"; "202"; "204"; "301"; "302"; "304"; "400"; "401"; "403"; "404"; "409"; "429"; "500";
           "502"; "503"; "504"].

Definition spnl_ml_http_duration : list spnl_metric_label_t :=
  [mk_label (lit "http.request.method") (Some spnl_mlv_http_duration_0) (lit "_OTHER") 10;
   mk_label (lit "http.response.status_code") (Some spnl_mlv_http_duration_1) (lit "_OTHER") 18].

Definition spnl_recmetrics : list spnl_metric_desc_t :=
  [mk_desc (lit "conn") (lit "count") (lit "spnl.conn.count") (lit "{connection}") false [] spnl_ml_conn_count 3;
   mk_desc (lit "http") (lit "duration") (lit "spnl.http.client.request.duration") (lit "s") true
     SPNL_BOUNDS_OTEL_DURATION_S spnl_ml_http_duration 180].

(** A series in use; [s_val] holds the values of the metric's labels. *)
Record recmetric_series_t := mk_series {
  s_metric : Z; s_val : list text; s_count : Z; s_sum : double; s_buckets : list Z }.

Record state := mk_state {
  g_series : list recmetric_series_t; g_start_ns : Z; g_overflow_warned : bool }.

Definition initial : state := mk_state [] 0 false.

Definition project (l : spnl_metric_label_t) (raw : text) : text :=
  match l_values l with
  | None => raw
  | Some vs => if existsb (fun v => text_eqb v raw) vs then raw else l_fallback l
  end.

(** [intern]: the index of the series, or [None] when the array is full. *)
Definition intern (st : state) (metric : Z) (proj : list text) : option nat * state :=
  match find_index (fun s => (s_metric s =? metric) && texts_eqb (s_val s) proj) (g_series st) with
  | Some i => (Some i, st)
  | None =>
      if (SPNL_RECMETRIC_MAX_SERIES <=? length (g_series st))%nat
      then (None, mk_state (g_series st) (g_start_ns st) true)
      else (Some (length (g_series st)),
            mk_state (g_series st ++
                        [mk_series metric (map (trunc SPNL_RECMETRIC_LABEL_VAL_MAX) proj) 0 (d_of_Z 0)
                           (repeat 0 (SPNL_RECMETRIC_MAX_BOUNDS + 1))])
              (g_start_ns st) (g_overflow_warned st))
  end.

(** The update of the interned series. *)
Definition observe_in (d : spnl_metric_desc_t) (value : option double) (s : recmetric_series_t) : recmetric_series_t :=
  let n := u64 (s_count s + 1) in
  match value with
  | Some v =>
      if is_hist d
      then mk_series (s_metric s) (s_val s) n (d_add (s_sum s) v) (incr (s_buckets s) (bucket_of (bounds d) v))
      else mk_series (s_metric s) (s_val s) n (s_sum s) (s_buckets s)
  | None => mk_series (s_metric s) (s_val s) n (s_sum s) (s_buckets s)
  end.

(** [spnl_recmetric_observe], at the wall-clock time [now]; [has_value] and [value]
    are one option. *)
Definition spnl_recmetric_observe (now : Z) (st : state) (metric : Z) (label_values : list text)
  (value : option double) : state :=
  if (metric <? 0) || (SPNL_RECMETRIC_COUNT <=? metric) then st
  else
    match nth_error spnl_recmetrics (Z.to_nat metric) with
    | None => st
    | Some d =>
        if negb (length label_values =? length (labels d))%nat
           || (SPNL_RECMETRIC_MAX_LABELS <? length label_values)%nat then st
        else
          let proj := map (fun '(l, raw) => project l raw) (combine (labels d) label_values) in
          match intern st metric proj with
          | (None, st') => st'
          | (Some i, st') =>
              let start := if g_start_ns st' =? 0 then now else g_start_ns st' in
              match nth_error (g_series st') i with
              | Some s => mk_state (upd (g_series st') i (observe_in d value s)) start (g_overflow_warned st')
              | None => st'
              end
          end
    end.

Definition spnl_recmetric_series_count (st : state) : nat := length (g_series st).

Definition spnl_valmap_conn_direction (v : Z) (cap : nat) : text :=
  trunc cap (if v =? 2 then lit "active" else if v =? 3 then lit "passive" else lit "other").

Definition spnl_recmetric_observe_conn (now : Z) (st : state) (oldstate : Z) : state :=
  spnl_recmetric_observe now st 0 [spnl_valmap_conn_direction oldstate 16] None.

Definition spnl_recmetric_observe_http (now : Z) (st : state) (req resp : text) (duration_ns : Z) : state :=
  let lb0 := spnl_http_method 65 req in
  let lb1 := trunc 24 (dec_s (spnl_http_status resp)) in
  spnl_recmetric_observe now st 1 [lb0; lb1] (Some (d_div (d_of_Z duration_ns) (d_of_Z (10 ^ 9)))).

(** A drained record of one of the two channels. *)
Inductive rec := Conn (oldstate : Z) | Http (req resp : text) (duration_ns : Z).

Definition feed (st : state) (r : Z * rec) : state :=
  match r with
  | (now, Conn oldstate) => spnl_recmetric_observe_conn now st oldstate
  | (now, Http req resp duration_ns) => spnl_recmetric_observe_http now st req resp duration_ns
  end.

(** *** The reference: which series a record belongs to *)

Definition in_set (vs : list text) (raw : text) : text :=
  if existsb (fun v => text_eqb v raw) vs then raw else lit "_OTHER".

Definition series_key (r : rec) : Z * list text :=
  match r with
  | Conn oldstate => (0, [if oldstate =? 2 then lit "active" else if oldstate =? 3 then lit "passive" else lit "other"])
  | Http req resp _ =>
      (1, [in_set spnl_mlv_http_duration_0 (spnl_http_method 65 req);
           in_set spnl_mlv_http_duration_1 (dec_s (spnl_http_status resp))])
  end.

Definition duration_bucket (r : rec) : option nat :=
  match r with
  | Conn _ => None
  | Http _ _ d => Some (bucket_of SPNL_BOUNDS_OTEL_DURATION_S (d_div (d_of_Z d) (d_of_Z (10 ^ 9))))
  end.

Definition keyb (a b : Z * list text) : bool := (fst a =? fst b) && texts_eqb (snd a) (snd b).

Definition series_at (st : state) (k : Z * list text) : option recmetric_series_t :=
  find (fun s => keyb (s_metric s, s_val s) k) (g_series st).

Definition count_at (st : state) (k : Z * list text) : Z :=
  match series_at st k with Some s => s_count s | None => 0 end.

Definition bucket_at (st : state) (k : Z * list text) (b : nat) : Z :=
  match series_at st k with Some s => nth b (s_buckets s) 0 | None => 0 end.

(** Every key a record can have. *)
Definition universe : list (Z * list text) :=
  map (fun d => (0, [lit d])) ["active"; "passive"; "other"]
  ++ flat_map (fun m => map (fun s => (1, [m; s])) (lit "_OTHER" :: spnl_mlv_http_duration_1))
       (lit "_OTHER" :: spnl_mlv_http_duration_0).

(** *** The accumulator computes the table of its records *)

Definition value_of (r : rec) : option double :=
  match r with Conn _ => None | Http _ _ d => Some (d_div (d_of_Z d) (d_of_Z (10 ^ 9))) end.

Definition hist_of (r : rec) : spnl_metric_desc_t :=
  nth (Z.to_nat (fst (series_key r))) spnl_recmetrics (mk_desc [] [] [] [] false [] [] 0).

Definition akey (s : recmetric_series_t) : Z * list text := (s_metric s, s_val s).

Definition fresh (k : Z * list text) : recmetric_series_t :=
  mk_series (fst k) (snd k) 0 (d_of_Z 0) (repeat 0 (SPNL_RECMETRIC_MAX_BOUNDS + 1)).

Definition new (r : rec) : recmetric_series_t := fresh (series_key r).
Definition step (s : recmetric_series_t) (r : rec) : recmetric_series_t := observe_in (hist_of r) (value_of r) s.

Abbreviation record := (Keyed.record series_key akey keyb new step SPNL_RECMETRIC_MAX_SERIES).
Abbreviation table := (Keyed.table series_key keyb new step).

Lemma keyb_eq a b : keyb a b = true <-> a = b.
Proof.
  destruct a as [m l], b as [m' l']. unfold keyb; cbn [fst snd]. rewrite andb_true_iff, Z.eqb_eq, texts_eqb_eq.
  split; [intros [-> ->]|intros E; inv E]; auto.
Qed.

Lemma akey_observe_in d v s : akey (observe_in d v s) = akey s.
Proof. unfold observe_in. destruct v; [destruct (is_hist d)|]; reflexivity. Qed.

Lemma akey_new r : akey (new r) = series_key r.
Proof. unfold new, fresh, akey; cbn [s_metric s_val]. now destruct (series_key r). Qed.

Lemma akey_step s r : akey (step s r) = akey s.
Proof. apply akey_observe_in. Qed.

Lemma in_set_in vs raw : In (in_set vs raw) (lit "_OTHER" :: vs).
Proof.
  unfold in_set. destruct (existsb _ vs) eqn:X; [right|now left].
  apply existsb_exists in X as (v & Hv & E). apply text_eqb_eq in E. now subst.
Qed.

Lemma key_in_universe r : In (series_key r) universe.
Proof.
  unfold universe. apply in_or_app. destruct r as [o|req resp d]; cbn [series_key].
  - left. destruct (o =? 2); [now left|]. destruct (o =? 3); [right; now left|do 2 right; now left].
  - right. apply in_flat_map. eexists; split; [apply in_set_in|].
    apply (in_map (fun s => (1, [in_set spnl_mlv_http_duration_0 (spnl_http_method 65 req); s]))), in_set_in.
Qed.

Lemma universe_short : forallb (fun k => forallb (fun t => (length t <? SPNL_RECMETRIC_LABEL_VAL_MAX)%nat) (snd k)) universe = true.
Proof. vm_compute. reflexivity. Qed.

Lemma key_untruncated r : map (trunc SPNL_RECMETRIC_LABEL_VAL_MAX) (snd (series_key r)) = snd (series_key r).
Proof.
  pose proof (proj1 (forallb_forall _ _) universe_short _ (key_in_universe r)) as S.
  rewrite <- (map_id (snd (series_key r))) at 2. apply map_ext_in. intros t Ht.
  apply trunc_id, Nat.ltb_lt. exact (proj1 (forallb_forall _ _) S t Ht).
Qed.

(** One observation, once its labels are projected. *)
Lemma observe_record now st metric d ls v r :
  0 <= metric < SPNL_RECMETRIC_COUNT -> nth_error spnl_recmetrics (Z.to_nat metric) = Some d ->
  length ls = length (labels d) -> (length ls <= SPNL_RECMETRIC_MAX_LABELS)%nat ->
  series_key r = (metric, map (fun '(l, raw) => project l raw) (combine (labels d) ls)) -> value_of r = v ->
  let st' := spnl_recmetric_observe now st metric ls v in
  g_series st' = record (g_series st) r
  /\ ((length (g_series st) < SPNL_RECMETRIC_MAX_SERIES)%nat -> g_overflow_warned st' = g_overflow_warned st).
Proof.
  intros Hm Hd Hl Hl2 Hk Hv. cbv zeta. unfold spnl_recmetric_observe, SPNL_RECMETRIC_COUNT in *.
  destruct (Z.ltb_spec metric 0); [lia|]. destruct (Z.leb_spec 2 metric); [lia|]. cbn [orb]. rewrite Hd.
  rewrite (proj2 (Nat.eqb_eq _ _) Hl), (proj2 (Nat.ltb_ge _ _) Hl2). cbn [negb orb].
  set (proj := map _ (combine _ _)) in *.
  assert (Hh : hist_of r = d) by (unfold hist_of; rewrite Hk; cbn [fst]; now apply nth_error_nth).
  unfold intern, Keyed.record. rewrite Hk.
  change (fun a => keyb (akey a) (metric, proj)) with (fun s => (s_metric s =? metric) && texts_eqb (s_val s) proj).
  destruct (find_index _ (g_series st)) as [i|] eqn:F.
  - destruct (find_index_some _ _ _ F) as (s & Hs & _). rewrite Hs. cbn [g_series g_overflow_warned].
    unfold step. now rewrite Hh, Hv.
  - destruct (Nat.leb_spec SPNL_RECMETRIC_MAX_SERIES (length (g_series st))) as [L|L]; cbn [g_series g_overflow_warned].
    + split; [reflexivity|lia].
    + rewrite nth_error_app2, Nat.sub_diag by lia. cbn [nth_error g_series g_overflow_warned]. rewrite upd_snoc.
      split; [|reflexivity]. pose proof (key_untruncated r) as U. rewrite Hk in U. cbn [snd] in U. rewrite U.
      unfold step, new, fresh. now rewrite Hh, Hv, Hk.
Qed.

Lemma status_range resp : 0 <= spnl_http_status resp <= 999.
Proof.
  unfold spnl_http_status. generalize (drop_while is_sp (drop_while (fun c => negb (is_sp c)) resp)) as s. intros s.
  assert (D : forall c, is_digit c = true -> 0 <= code c - 48 <= 9).
  { intros c H. unfold is_digit in H. apply andb_true_iff in H as [A B]. apply Z.leb_le in A, B. lia. }
  destruct s as [|a s]; cbn [status_digits]; [lia|]. destruct (is_digit a) eqn:A; [apply D in A|lia].
  destruct s as [|b s]; cbn [status_digits]; [lia|]. destruct (is_digit b) eqn:B; [apply D in B|lia].
  destruct s as [|c s]; cbn [status_digits]; [lia|]. destruct (is_digit c) eqn:C; [apply D in C|]; lia.
Qed.

Lemma status_text resp : trunc 24 (dec_s (spnl_http_status resp)) = dec_s (spnl_http_status resp).
Proof.
  pose proof (status_range resp). apply trunc_id. unfold dec_s. destruct (Z.ltb_spec (spnl_http_status resp) 0); [lia|].
  pose proof (length_dec_u_pow (spnl_http_status resp) 10 ltac:(lia) ltac:(lia)). lia.
Qed.

Lemma feed_record st now r :
  g_series (feed st (now, r)) = record (g_series st) r
  /\ ((length (g_series st) < SPNL_RECMETRIC_MAX_SERIES)%nat -> g_overflow_warned (feed st (now, r)) = g_overflow_warned st).
Proof.
  destruct r as [o|req resp d]; cbn [feed].
  - eapply observe_record with (d := nth 0 spnl_recmetrics (hist_of (Conn o))); try reflexivity; try (unfold SPNL_RECMETRIC_COUNT; lia).
    + unfold SPNL_RECMETRIC_MAX_LABELS; cbn [length]; lia.
    + unfold spnl_valmap_conn_direction. cbn [series_key]. destruct (o =? 2); [reflexivity|]. now destruct (o =? 3).
  - unfold spnl_recmetric_observe_http. rewrite status_text.
    eapply observe_record with (d := nth 1 spnl_recmetrics (hist_of (Conn 0))); try reflexivity; try (unfold SPNL_RECMETRIC_COUNT; lia).
Qed.

Lemma firsts_fit rs : (length (Keyed.firsts series_key keyb rs) <= SPNL_RECMETRIC_TOTAL_SERIES_BOUND)%nat.
Proof.
  transitivity (length universe); [|vm_compute; lia].
  apply Keyed.firsts_bounded; [exact keyb_eq|]. apply Forall_forall. intros r _. apply key_in_universe.
Qed.

Lemma feed_table rs : g_series (fold_left feed rs initial) = table (map snd rs) /\ g_overflow_warned (fold_left feed rs initial) = false.
Proof.
  induction rs as [|[now r] rs [IH W]] using rev_ind; [easy|].
  rewrite fold_left_app, map_app. cbn [fold_left map snd].
  destruct (feed_record (fold_left feed rs initial) now r) as [E Ew]. rewrite E, Ew, IH.
  - split; [|exact W].
    rewrite <- !(Keyed.record_table series_key akey keyb new step SPNL_RECMETRIC_MAX_SERIES keyb_eq akey_new akey_step)
      by (eapply Nat.le_trans; [apply firsts_fit|apply Nat.leb_le; reflexivity]).
    now rewrite fold_left_app.
  - rewrite IH. unfold Keyed.table. rewrite length_map. eapply Nat.le_lt_trans; [apply firsts_fit|apply Nat.ltb_lt; reflexivity].
Qed.

(** What one record adds to the count and to bucket [b] of its series. *)
Lemma count_step s r : s_count (step s r) = u64 (s_count s + 1).
Proof. unfold step, observe_in. destruct (value_of r); [destruct (is_hist _)|]; reflexivity. Qed.

Definition wide (s : recmetric_series_t) : Prop := length (s_buckets s) = (SPNL_RECMETRIC_MAX_BOUNDS + 1)%nat.

Lemma wide_step s r : wide s -> wide (step s r).
Proof.
  unfold wide, step, observe_in. intros H. destruct (value_of r); [destruct (is_hist _)|]; cbn [s_buckets]; try exact H.
  unfold incr. now rewrite length_upd.
Qed.

Definition in_bucket (b : nat) (r : rec) : bool :=
  match duration_bucket r with Some b' => (b' =? b)%nat | None => false end.

Lemma bucket_step b s r : wide s -> u64 (nth b (s_buckets s) 0) = nth b (s_buckets s) 0 ->
  nth b (s_buckets (step s r)) 0 = u64 (nth b (s_buckets s) 0 + (if in_bucket b r then 1 else 0)).
Proof.
  intros H W. unfold step, in_bucket. destruct r as [o|req resp d]; cbn [value_of duration_bucket].
  - unfold observe_in. cbn [s_buckets]. now rewrite Z.add_0_r.
  - unfold observe_in. change (hist_of (Http req resp d)) with (nth 1 spnl_recmetrics (hist_of (Conn 0))).
    cbn [nth spnl_recmetrics is_hist bounds s_buckets]. rewrite nth_incr.
    + destruct (_ =? b)%nat; [reflexivity|now rewrite Z.add_0_r].
    + unfold wide in H. rewrite H. eapply Nat.le_lt_trans; [apply first_index_le|apply Nat.ltb_lt; reflexivity].
Qed.

Lemma bucket_word b s r : wide s -> u64 (nth b (s_buckets s) 0) = nth b (s_buckets s) 0 ->
  u64 (nth b (s_buckets (step s r)) 0) = nth b (s_buckets (step s r)) 0.
Proof. intros H W. rewrite bucket_step by assumption. apply wrap_wrap. lia. Qed.

(** C33: The metrics of the record channels are exact and never overflow.  After any
    sequence of drained connection and HTTP records, of whatever bytes, at whatever
    times: every label combination has the count of the records that project onto
    it, each of its buckets the count of those whose duration falls into it (modulo
    2^64), no two series have the same labels, the number of series stays within the
    declared bound of 183, and the overflow branch is never taken. *)
Theorem recmetric_exact (rs : list (Z * rec)) :
  let st := fold_left feed rs initial in
  (forall k, count_at st k = u64 (count (fun r => keyb (series_key (snd r)) k) rs))
  /\ (forall k b, bucket_at st k b = u64 (count (fun r => keyb (series_key (snd r)) k && in_bucket b (snd r)) rs))
  /\ NoDup (map (fun s => (s_metric s, s_val s)) (g_series st))
  /\ (spnl_recmetric_series_count st <= SPNL_RECMETRIC_TOTAL_SERIES_BOUND)%nat
  /\ g_overflow_warned st = false.
Proof.
  cbv zeta. destruct (feed_table rs) as [T W].
  assert (C : forall p : rec -> bool, count (fun r => p (snd r)) rs = count p (map snd rs)).
  { intros p. clear. induction rs as [|r rs IH]; [reflexivity|]. cbn [map]. now rewrite !count_cons, IH. }
  unfold count_at, bucket_at, series_at, spnl_recmetric_series_count. rewrite T. repeat split.
  - intros k. rewrite (C (fun r => keyb (series_key r) k)).
    rewrite (Keyed.table_counter series_key akey keyb new step keyb_eq akey_new akey_step (fun _ => True) s_count (fun _ => 1));
      auto using count_step.
    rewrite (zsum_filter_count _ (fun _ => true)). f_equal. apply count_ext, Forall_forall. intros r _. apply andb_true_r.
  - intros k b. rewrite (C (fun r => keyb (series_key r) k && in_bucket b r)), <- zsum_filter_count.
    apply (Keyed.table_counter series_key akey keyb new step keyb_eq akey_new akey_step
             (fun s => wide s /\ u64 (nth b (s_buckets s) 0) = nth b (s_buckets s) 0)).
    + intros r. split; [reflexivity|]. cbn [new fresh s_buckets]. now rewrite nth_repeat.
    + intros s r [H1 H2]. auto using wide_step, bucket_word.
    + intros r. cbn [new fresh s_buckets]. apply nth_repeat.
    + intros s r [H1 H2]. now apply bucket_step.
  - change (fun s => (s_metric s, s_val s)) with akey.
    rewrite (Keyed.akey_table series_key akey keyb new step akey_new akey_step).
    apply Keyed.firsts_nodup. exact keyb_eq.
  - unfold Keyed.table. rewrite length_map. apply firsts_fit.
  - exact W.
Qed.

(** The bound the tables declare is the number of label combinations. *)
Lemma declared_bound_exact :
  Z.of_nat (length universe) = fold_right (fun d a => series_bound d + a) 0 spnl_recmetrics
  /\ Z.of_nat SPNL_RECMETRIC_TOTAL_SERIES_BOUND = Z.of_nat (length universe)
  /\ forallb (fun d => series_bound d =? fold_right (fun l a => l_bound l * a) 1 (labels d)) spnl_recmetrics = true.
Proof. vm_compute. auto. Qed.

(** *** Sending: one request per metric *)

(** The series of a metric as the builders receive them: labels, count, sum and buckets. *)
Definition exported : Type := list (text * text) * Z * double * list Z.

Definition exported_series (d : spnl_metric_desc_t) (s : recmetric_series_t) : exported :=
  (combine (map l_key (labels d)) (s_val s), s_count s, s_sum s, s_buckets s).

Definition series_of_metric (mi : Z) (st : state) : list recmetric_series_t :=
  filter (fun s => (s_metric s =? mi) && negb (s_count s =? 0)) (g_series st).

Section Push.

(** The builder and the transport: the HTTP status, or a negative number. *)
Context (send : spnl_metric_desc_t -> Z -> Z -> list exported -> Z).

(** [push_one]: the status and whether anything was sent. *)
Definition push_one (d : spnl_metric_desc_t) (mi : Z) (now : Z) (st : state) : Z * bool :=
  match series_of_metric mi st with
  | [] => (0, false)
  | ss => let rc := send d now (g_start_ns st) (map (exported_series d) ss) in (if rc <? 0 then -1 else rc, true)
  end.

Fixpoint push_loop (ds : list spnl_metric_desc_t) (mi : Z) (now : Z) (st : state) (last : Z) (any : bool) : Z :=
  match ds with
  | [] => if any then last else 0
  | d :: ds' =>
      let '(rc, a) := push_one d mi now st in
      if rc <? 0 then -1
      else push_loop ds' (mi + 1) now st (if rc =? 0 then last else rc) (any || a)
  end.

Definition spnl_otlp_record_metrics_push (now : Z) (st : state) (endpoint : option text) : state * Z :=
  match endpoint with
  | None | Some [] => (st, -1)
  | Some _ =>
      let st := mk_state (g_series st) (if g_start_ns st =? 0 then now else g_start_ns st) (g_overflow_warned st) in
      (st, push_loop spnl_recmetrics 0 now st 0 false)
  end.

End Push.

(** An empty accumulator sends nothing, and pushing never changes the series. *)
Lemma push_keeps_series send now st ep : g_series (fst (spnl_otlp_record_metrics_push send now st ep)) = g_series st.
Proof. now destruct ep as [[|c ep]|]. Qed.

(** A metric that cannot be sent keeps the ones after it from being sent. *)
Theorem push_stops_at_failure send now st ep :
  series_of_metric 0 st <> [] -> ep <> [] ->
  (forall n s x, send (nth 0 spnl_recmetrics (hist_of (Conn 0))) n s x = -1) ->
  snd (spnl_otlp_record_metrics_push send now st (Some ep)) = -1.
Proof.
  intros Hs He H. destruct ep as [|c ep]; [easy|].
  unfold spnl_otlp_record_metrics_push, spnl_recmetrics. cbn [snd push_loop]. unfold push_one.
  change (series_of_metric 0 (mk_state (g_series st) _ _)) with (series_of_metric 0 st).
  destruct (series_of_metric 0 st) as [|s ss]; [easy|]. cbn [nth spnl_recmetrics] in H. now rewrite H.
Qed.

End Recmetric.

(** ** The label registry of keyed histograms *)

Module Registry.

Definition OTLP_METRIC_MAX_SERIES : nat := 256.
Definition OTLP_METRIC_MAX_LABELS : nat := 8.

Record series_reg_t := mk_reg { r_key : Z; r_labels : list (text * text) }.

(** A label as [otlp_kv_t] stores it. *)
Definition kv (lk lv : option text) : text * text :=
  let t o := match o with Some t => t | None => [] end in (trunc 128 (t lk), trunc 512 (t lv)).

Definition add_label (s : series_reg_t) (l : text * text) : Z * series_reg_t :=
  if (OTLP_METRIC_MAX_LABELS <=? length (r_labels s))%nat then (-1, s)
  else (0, mk_reg (r_key s) (r_labels s ++ [l])).

Definition spnl_otlp_series_label (g : list series_reg_t) (key : Z) (lk lv : option text) : Z * list series_reg_t :=
  match find_index (fun s => r_key s =? key) g with
  | Some i =>
      match nth_error g i with
      | Some s => let '(rc, s') := add_label s (kv lk lv) in (rc, upd g i s')
      | None => (-1, g)
      end
  | None =>
      if (OTLP_METRIC_MAX_SERIES <=? length g)%nat then (-1, g)
      else let '(rc, s') := add_label (mk_reg key []) (kv lk lv) in (rc, g ++ [s'])
  end.

(** A call: the key and the label. *)
Definition call : Type := Z * (text * text).

Definition new (c : call) : series_reg_t := mk_reg (fst c) [].
Definition step (s : series_reg_t) (c : call) : series_reg_t := snd (add_label s (snd c)).

Definition register (g : list series_reg_t) (c : Z * (option text * option text)) : list series_reg_t :=
  snd (spnl_otlp_series_label g (fst c) (fst (snd c)) (snd (snd c))).

Definition stored (c : Z * (option text * option text)) : call := (fst c, kv (fst (snd c)) (snd (snd c))).

Lemma register_record g c : register g c = Keyed.record fst r_key Z.eqb new step OTLP_METRIC_MAX_SERIES g (stored c).
Proof.
  unfold register, spnl_otlp_series_label, Keyed.record, step, new. cbn [stored fst snd].
  destruct (find_index _ g) as [i|].
  - destruct (nth_error g i) as [s|]; [|reflexivity]. now destruct (add_label s _).
  - destruct (_ <=? _)%nat; [reflexivity|]. now destruct (add_label _ _).
Qed.

Lemma r_key_step s c : r_key (step s c) = r_key s.
Proof. unfold step, add_label. now destruct (_ <=? _)%nat. Qed.

Lemma fold_step_labels cs s : r_labels (fold_left step cs s)
  = r_labels s ++ firstn (OTLP_METRIC_MAX_LABELS - length (r_labels s)) (map snd cs).
Proof.
  revert s; induction cs as [|c cs IH]; intros s; cbn [fold_left map].
  { now rewrite firstn_nil, app_nil_r. }
  rewrite IH. unfold step, add_label. destruct (Nat.leb_spec OTLP_METRIC_MAX_LABELS (length (r_labels s))) as [L|L]; cbn [snd r_labels].
  - now replace (OTLP_METRIC_MAX_LABELS - length (r_labels s))%nat with O by lia.
  - rewrite length_app, <- app_assoc. cbn [length app].
    replace (OTLP_METRIC_MAX_LABELS - length (r_labels s))%nat with (S (OTLP_METRIC_MAX_LABELS - (length (r_labels s) + 1))) by lia.
    reflexivity.
Qed.

(** While at most 256 keys are registered, a key carries the first eight labels
    given for it, in order. *)
Theorem registry_labels (cs : list (Z * (option text * option text))) (k : Z) :
  (length (Keyed.firsts fst Z.eqb (map stored cs)) <= OTLP_METRIC_MAX_SERIES)%nat ->
  match find (fun s => r_key s =? k) (fold_left register cs []) with Some s => r_labels s | None => [] end
  = firstn OTLP_METRIC_MAX_LABELS (map snd (filter (fun c => fst c =? k) (map stored cs))).
Proof.
  intros H. assert (E : fold_left register cs [] = Keyed.table fst Z.eqb new step (map stored cs)).
  { rewrite <- (Keyed.record_table fst r_key Z.eqb new step OTLP_METRIC_MAX_SERIES Z.eqb_eq) by (easy || apply r_key_step).
    clear H. generalize (@nil series_reg_t). induction cs as [|c cs IH]; intros g; cbn [fold_left map]; [reflexivity|].
    now rewrite register_record, IH. }
  rewrite E, (Keyed.table_find fst r_key Z.eqb new step) by (easy || apply r_key_step).
  destruct (find _ (Keyed.firsts fst Z.eqb (map stored cs))) as [e|] eqn:F; cbn [option_map].
  - apply find_some in F as [_ Ek]. apply Z.eqb_eq in Ek. unfold Keyed.series. rewrite Ek.
    rewrite fold_step_labels. reflexivity.
  - rewrite (Keyed.firsts_find_none fst Z.eqb Z.eqb_eq) by exact F. reflexivity.
Qed.

(** *** Sending the rate and the latency *)

Section Push.

(** [read] looks the count and the 64 slots of a key up in the kernel's map; the
    senders are the builders with the transport, given the current and the start
    time: the HTTP status, or a negative number. *)
Context (read : Z -> Z * list Z) (explicit_hist : bool) (now : Z).
Context (send_sum : text -> Z -> Z -> list (list (text * text) * Z * list Z) -> Z).
Context (send_hist : text -> Z -> Z -> list (list (text * text) * (list Z * Z * double)) -> Z).
Context (send_exphist : text -> Z -> Z -> list (list (text * text) * Z * list Z) -> Z).

Definition metric_push_one (name : text) (is_latency : bool) (start : Z) (series : list (list (text * text) * Z * list Z)) : Z :=
  let rc := if negb is_latency then send_sum name now start series
            else if explicit_hist then send_hist name now start (map (fun '(l, _, b) => (l, Fold.otlp_log2_fold b)) series)
            else send_exphist name now start series in
  if rc <? 0 then -1 else rc.

(** The new start time and the answer; [None] is a null pointer argument. *)
Definition spnl_otlp_metric_push_obj (g : list series_reg_t) (g_start_ns : Z) (metric_name endpoint : option text) : Z * Z :=
  match metric_name, endpoint with
  | Some metric_name, Some _ =>
      let out := map (fun s => (r_labels s, fst (read (r_key s)), snd (read (r_key s)))) g in
      let start := if g_start_ns =? 0 then now else g_start_ns in
      let latname := trunc 160 (metric_name ++ lit "_latency_ns") in
      let rate := metric_push_one metric_name false start out in
      let lat := metric_push_one latname true start out in
      (start, if (rate <? 0) || (lat <? 0) then -1 else if negb (rate =? 200) then rate else lat)
  | _, _ => (g_start_ns, -1)
  end.

(** Both requests are made whatever the first one answers, and only two successes
    are reported as success. *)
Lemma metric_push_200 g start n ep :
  let out := map (fun s => (r_labels s, fst (read (r_key s)), snd (read (r_key s)))) g in
  let start' := if start =? 0 then now else start in
  snd (spnl_otlp_metric_push_obj g start (Some n) (Some ep)) = 200 <->
  metric_push_one n false start' out = 200 /\ metric_push_one (trunc 160 (n ++ lit "_latency_ns")) true start' out = 200.
Proof.
  cbv zeta. unfold spnl_otlp_metric_push_obj. cbn [snd].
  set (rate := metric_push_one n _ _ _). set (lat := metric_push_one _ true _ _).
  destruct (Z.ltb_spec rate 0), (Z.ltb_spec lat 0), (Z.eqb_spec rate 200); cbn [orb negb]; split; intros; lia.
Qed.

End Push.

End Registry.
