(* ===== verification/OtlpTraces.v ===== *)
(** * Span identities and span assembly ([src/runtime/otlp/otlp_traces.c])

    - [Ids]: the splitmix64 generator, big-endian id bytes, root/child spans and
      W3C trace-context adoption.
    - [Assemble]: the per-thread stack machine that turns enter/exit events into
      spans, against a reference that walks a call tree. *)

From Stdlib Require Import Permutation.
From S2P Require Import Prelude Bytes CText.

Module Ids.

Definition splitmix64 (s : Z) : Z * Z :=
  let s' := u64 (s + 0x9E3779B97F4A7C15) in
  let z := u64 (Z.lxor s' (Z.shiftr s' 30) * 0xBF58476D1CE4E5B9) in
  let z := u64 (Z.lxor z (Z.shiftr z 27) * 0x94D049BB133111EB) in
  (Z.lxor z (Z.shiftr z 31), s').

Definition put_u64_be (v : Z) : list Z :=
  map (fun i => u8 (Z.shiftr v (56 - 8 * Z.of_nat i))) (seq 0 8).

(** One attribute, [otlp_kv_t]: both fields are bounded character arrays. *)
Record otlp_kv_t := mk_kv { key : text; val : text }.

Record otlp_generic_span_t := mk_gspan {
  trace_id : list Z;
  span_id : list Z;
  parent_span_id : list Z;
  has_parent : bool;
  start_unix_ns : Z;
  end_unix_ns : Z;
  name : text;
  kind : Z;
  is_error : bool;
  attrs : list otlp_kv_t
}.

Definition zeros (n : nat) : list Z := repeat 0 n.

Definition set_ids (s : otlp_generic_span_t) (t i p : list Z) (hp : bool) : otlp_generic_span_t :=
  mk_gspan t i p hp (start_unix_ns s) (end_unix_ns s) (name s) (kind s) (is_error s) (attrs s).

Definition otlp_span_new_root (s : otlp_generic_span_t) (seed : Z) : otlp_generic_span_t * Z :=
  let '(a, s1) := splitmix64 seed in
  let '(b, s2) := splitmix64 s1 in
  let '(c, s3) := splitmix64 s2 in
  (set_ids s (put_u64_be a ++ put_u64_be b) (put_u64_be c) (zeros 8) false, s3).

Definition otlp_span_new_child (child parent : otlp_generic_span_t) (seed : Z)
  : otlp_generic_span_t * Z :=
  let '(a, s1) := splitmix64 seed in
  (set_ids child (trace_id parent) (put_u64_be a) (span_id parent) true, s1).

(** [parse_hex]: [n] bytes from [2n] hex digits; an all-zero id is refused.  A
    missing digit (the terminating NUL is not a hex digit) fails the same way. *)
Fixpoint parse_hex (s : text) (n : nat) : option (list Z * bool) :=
  match n with
  | O => Some ([], false)
  | S n' =>
      match s with
      | h :: l :: s' =>
          if (hexval h <? 0) || (hexval l <? 0) then None
          else
            let b := u8 (Z.lor (Z.shiftl (hexval h) 4) (hexval l)) in
            match parse_hex s' n' with
            | Some (bs, any) => Some (b :: bs, negb (b =? 0) || any)
            | None => None
            end
      | _ => None
      end
  end.

Definition hex_id (s : text) (n : nat) : option (list Z) :=
  match parse_hex s n with
  | Some (bs, true) => Some bs
  | _ => None
  end.

Definition is_dash (s : text) (i : nat) : bool :=
  match nth_error s i with Some c => Ascii.eqb c "-" | None => false end.

(** The incoming trace id and parent span id, when the header is well formed. *)
Definition traceparent_ids (tp : option text) : option (list Z * list Z) :=
  match tp with
  | None => None
  | Some t =>
      if (55 <=? length t)%nat && is_dash t 2 && is_dash t 35 && is_dash t 52 then
        match hex_id (skipn 3 t) 16, hex_id (skipn 36 t) 8 with
        | Some tid, Some pid => Some (tid, pid)
        | _, _ => None
        end
      else None
  end.

Definition otlp_span_root_from_traceparent (s : otlp_generic_span_t) (tp : option text) (seed : Z)
  : otlp_generic_span_t * Z * Z :=
  match traceparent_ids tp with
  | Some (tid, pid) =>
      let '(a, s1) := splitmix64 seed in
      (set_ids s tid (put_u64_be a) pid true, s1, 1)
  | None =>
      let '(s', s1) := otlp_span_new_root s seed in (s', s1, 0)
  end.

Definition otlp_child_in_window (child_tgid child_ktime parent_tgid parent_start parent_dur : Z)
  : bool :=
  if parent_start =? 0 then false
  else if negb (child_tgid =? parent_tgid) then false
  else (parent_start <=? child_ktime) && (child_ktime <=? u64 (parent_start + parent_dur)).

(** ** splitmix64 never repeats an output before its state does *)

Lemma shiftr_range n a k : 0 <= n -> 0 <= k -> 0 <= a < 2 ^ n -> 0 <= Z.shiftr a k < 2 ^ n.
Proof.
  intros Hn Hk Ha. rewrite Z.shiftr_div_pow2 by lia.
  pose proof (pow2_pos k Hk). split; [apply Z.div_pos; lia|].
  apply Z.div_lt_upper_bound; nia.
Qed.

Lemma xorshift_inv x k : 0 <= x < 2 ^ 64 -> 22 <= k ->
  let y := Z.lxor x (Z.shiftr x k) in
  Z.lxor y (Z.lxor (Z.shiftr y k) (Z.shiftr y (k + k))) = x.
Proof.
  intros Hx Hk y. unfold y.
  rewrite !Z.shiftr_lxor, !Z.shiftr_shiftr by lia.
  assert (E : Z.shiftr x (k + (k + k)) = 0).
  { rewrite Z.shiftr_div_pow2 by lia. apply Z.div_small. split; [lia|].
    apply Z.lt_le_trans with (2 ^ 64); [lia|]. apply Z.pow_le_mono_r; lia. }
  rewrite E, Z.lxor_0_r.
  rewrite (Z.lxor_assoc x), <- (Z.lxor_assoc (Z.shiftr x k) _ (Z.shiftr x (k + k))).
  rewrite <- (Z.lxor_assoc (Z.shiftr x k) (Z.shiftr x k)), Z.lxor_nilpotent, Z.lxor_0_l.
  now rewrite Z.lxor_nilpotent, Z.lxor_0_r.
Qed.

Lemma xorshift_inj x y k : 0 <= x < 2 ^ 64 -> 0 <= y < 2 ^ 64 -> 22 <= k ->
  Z.lxor x (Z.shiftr x k) = Z.lxor y (Z.shiftr y k) -> x = y.
Proof.
  intros Hx Hy Hk E. rewrite <- (xorshift_inv x k), <- (xorshift_inv y k) by assumption.
  now rewrite E.
Qed.

(** The output function of the generator, on its 64-bit state. *)
Definition mix (s : Z) : Z := fst (splitmix64 s).

Lemma mix_range s : 0 <= mix s < 2 ^ 64.
Proof.
  unfold mix, splitmix64; cbn [fst]. apply lxor_range; try lia.
  - apply wrap_range; lia.
  - apply shiftr_range; try lia. apply wrap_range; lia.
Qed.

Lemma mix_inj s t : 0 <= s < 2 ^ 64 -> 0 <= t < 2 ^ 64 -> mix s = mix t -> s = t.
Proof.
  unfold mix, splitmix64; cbn [fst]. intros Hs Ht E.
  assert (W : forall x, 0 <= u64 x < 2 ^ 64) by (intros; apply wrap_range; lia).
  assert (X : forall x k, 0 <= k -> 0 <= Z.lxor (u64 x) (Z.shiftr (u64 x) k) < 2 ^ 64)
    by (intros; apply lxor_range; auto using shiftr_range with zarith; apply shiftr_range; auto; lia).
  apply xorshift_inj in E; auto; try lia.
  apply (mul_odd_inj _ 0x319642B2D24D8EC3) in E; try apply X; try reflexivity; try lia.
  apply xorshift_inj in E; auto; try lia.
  apply (mul_odd_inj _ 0x96DE1B173F119089) in E; try apply X; try reflexivity; try lia.
  apply xorshift_inj in E; auto; try lia.
  assert (F : forall x, 0 <= x < 2 ^ 64 ->
    u64 (u64 (x + 0x9E3779B97F4A7C15) - 0x9E3779B97F4A7C15) = x).
  { intros x Hx. rewrite wrap_sub_l, Z.add_simpl_r. now apply wrap_small. }
  rewrite <- (F s Hs), <- (F t Ht). now rewrite E.
Qed.

(** ** Big-endian bytes *)

Definition be_val (l : list Z) : Z := fold_left (fun a b => a * 256 + b) l 0.

Lemma be_val_put_u64_be v : 0 <= v < 2 ^ 64 -> be_val (put_u64_be v) = v.
Proof.
  intros Hv. unfold put_u64_be, be_val; cbn [seq map fold_left Z.of_nat].
  repeat match goal with |- context [56 - 8 * ?n] =>
    let r := eval vm_compute in (56 - 8 * n) in change (56 - 8 * n) with r end.
  rewrite !Z.shiftr_div_pow2 by lia. unfold wrap.
  assert (S : forall k, 0 <= k -> v / 2 ^ (k + 8) * 2 ^ 8 + v / 2 ^ k mod 2 ^ 8 = v / 2 ^ k).
  { intros k Hk. rewrite Z.pow_add_r, <- Z.div_div by (try lia; apply pow2_pos; lia).
    pose proof (Z.div_mod (v / 2 ^ k) (2 ^ 8)). lia. }
  pose proof (S 0). pose proof (S 8). pose proof (S 16). pose proof (S 24).
  pose proof (S 32). pose proof (S 40). pose proof (S 48).
  assert (v / 2 ^ 56 mod 2 ^ 8 = v / 2 ^ 56).
  { apply Z.mod_small. split; [apply Z.div_pos; lia|]. apply Z.div_lt_upper_bound; lia. }
  change (2 ^ 0) with 1 in *. rewrite Z.div_1_r in *.
  cbn [Z.add Pos.add Pos.add_carry Pos.succ] in *. change (2 ^ 8) with 256 in *. lia.
Qed.

Lemma put_u64_be_inj v w : 0 <= v < 2 ^ 64 -> 0 <= w < 2 ^ 64 ->
  put_u64_be v = put_u64_be w -> v = w.
Proof. intros Hv Hw E. rewrite <- (be_val_put_u64_be v), <- (be_val_put_u64_be w); congruence. Qed.

(** ** The sequence of draws from a seed *)

Definition gamma : Z := 0x9E3779B97F4A7C15.

Definition state_at (seed k : Z) : Z := u64 (seed + k * gamma).
Definition draw (seed k : Z) : Z := mix (state_at seed k).
Definition id_at (seed k : Z) : list Z := put_u64_be (draw seed k).

Lemma splitmix64_at seed k :
  splitmix64 (state_at seed k) = (draw seed k, state_at seed (k + 1)).
Proof.
  rewrite (surjective_pairing (splitmix64 (state_at seed k))). f_equal.
  unfold splitmix64; cbn [snd]. unfold state_at. rewrite wrap_add_l.
  unfold gamma. f_equal. lia.
Qed.

Lemma state_at_inj seed i j : 0 <= i < 2 ^ 64 -> 0 <= j < 2 ^ 64 ->
  state_at seed i = state_at seed j -> i = j.
Proof.
  intros Hi Hj E. apply (mul_odd_inj gamma 0xF1DE83E19937733D); try reflexivity; auto.
  unfold state_at in E.
  assert (F : forall k, u64 (k * gamma) = u64 (u64 (seed + k * gamma) - seed))
    by (intros; rewrite wrap_sub_l; f_equal; lia).
  now rewrite (F i), (F j), E.
Qed.

(** Two draws of one generator are different ids. *)
Lemma id_at_inj seed i j : 0 <= i < 2 ^ 64 -> 0 <= j < 2 ^ 64 ->
  id_at seed i = id_at seed j -> i = j.
Proof.
  intros Hi Hj E. unfold id_at, draw in E.
  apply put_u64_be_inj in E; try apply mix_range.
  apply mix_inj in E; try (apply wrap_range; lia).
  now apply state_at_inj in E.
Qed.

End Ids.

Module Assemble.
Import Ids.

Definition OTLP_TRACE_MAX_TIDS : nat := 64.
Definition OTLP_TRACE_MAX_DEPTH : nat := 64.

(** [ev_kind] is 0 for an enter, anything else for an exit. *)
Record otlp_span_event_t := mk_ev { ev_kind : Z; ev_idx : Z; ktime_ns : Z; ev_tid : Z }.

Record otlp_span_t := mk_span {
  s_trace_id : list Z;
  s_span_id : list Z;
  s_parent_span_id : list Z;
  s_has_parent : bool;
  method_idx : Z;
  s_start : Z;
  s_end : Z
}.

Record pending_t := mk_pending {
  p_span_id : list Z;
  p_parent_span_id : list Z;
  p_has_parent : bool;
  p_trace_id : list Z;
  p_start : Z;
  p_idx : Z
}.

(** A thread's slot; [stack[depth-1]] is the head of the list. *)
Record tidslot_t := mk_slot { slot_tid : Z; slot_trace : list Z; stack : list pending_t }.

Record asm := mk_asm { slots : list tidslot_t; rng : Z; out : list otlp_span_t }.

Fixpoint find_slot (t : Z) (l : list tidslot_t) : option nat :=
  match l with
  | [] => None
  | s :: l' =>
      if slot_tid s =? t then Some 0%nat
      else match find_slot t l' with Some n => Some (S n) | None => None end
  end.

(** The slot of the event's thread, created when there is room for one. *)
Definition get_slot (t : Z) (l : list tidslot_t) : option (list tidslot_t * nat) :=
  match find_slot t l with
  | Some n => Some (l, n)
  | None =>
      if (OTLP_TRACE_MAX_TIDS <=? length l)%nat then None
      else Some (l ++ [mk_slot t (zeros 16) []], length l)
  end.

Definition unix_ns (off : Z) (e : otlp_span_event_t) : Z := u64 (ktime_ns e + off).

(** An enter pushes a frame; the outermost one of a thread opens a new trace. *)
Definition enter (off : Z) (e : otlp_span_event_t) (s : tidslot_t) (r : Z) : tidslot_t * Z :=
  let '(trace, r1) :=
    match stack s with
    | [] => let '(a, ra) := splitmix64 r in
            let '(b, rb) := splitmix64 ra in (put_u64_be a ++ put_u64_be b, rb)
    | _ :: _ => (slot_trace s, r)
    end in
  let '(i, r2) := splitmix64 r1 in
  let '(hp, par) :=
    match stack s with
    | [] => (false, zeros 8)
    | top :: _ => (true, p_span_id top)
    end in
  (mk_slot (slot_tid s) trace
     (mk_pending (put_u64_be i) par hp trace (unix_ns off e) (ev_idx e) :: stack s), r2).

Definition close_span (off : Z) (e : otlp_span_event_t) (p : pending_t) : otlp_span_t :=
  mk_span (p_trace_id p) (p_span_id p)
    (if p_has_parent p then p_parent_span_id p else zeros 8) (p_has_parent p)
    (p_idx p) (p_start p) (unix_ns off e).

Definition asm_step (off : Z) (max_out : nat) (st : asm) (e : otlp_span_event_t) : asm :=
  match get_slot (ev_tid e) (slots st) with
  | None => st
  | Some (l, n) =>
      match nth_error l n with
      | None => st
      | Some s =>
          if ev_kind e =? 0 then
            if (OTLP_TRACE_MAX_DEPTH <=? length (stack s))%nat then mk_asm l (rng st) (out st)
            else let '(s', r') := enter off e s (rng st) in mk_asm (upd l n s') r' (out st)
          else
            match stack s with
            | [] => mk_asm l (rng st) (out st)
            | p :: rest =>
                mk_asm (upd l n (mk_slot (slot_tid s) (slot_trace s) rest)) (rng st)
                  (if (max_out <=? length (out st))%nat then out st
                   else out st ++ [close_span off e p])
            end
      end
  end.

Definition otlp_traces_assemble (ev : list otlp_span_event_t) (off seed : Z) (max_out : nat)
  : list otlp_span_t :=
  out (fold_left (asm_step off max_out) ev (mk_asm [] seed [])).

(** ** The reference: a call tree, walked once

    A forest of completed calls of one thread: its first call, that call's nested
    calls, and the calls that follow it. *)
Inductive forest :=
| Nil
| Call (idx t_enter t_exit : Z) (nested rest : forest).

Fixpoint events (tid : Z) (f : forest) : list otlp_span_event_t :=
  match f with
  | Nil => []
  | Call i t0 t1 k r => mk_ev 0 i t0 tid :: events tid k ++ mk_ev 1 i t1 tid :: events tid r
  end.

Fixpoint fdepth (f : forest) : nat :=
  match f with Nil => 0 | Call _ _ _ k r => Nat.max (S (fdepth k)) (fdepth r) end.

Fixpoint fsize (f : forest) : nat :=
  match f with Nil => 0 | Call _ _ _ k r => S (fsize k + fsize r) end.

(** Spans in order of completion; [parent] is the enclosing call's span id. *)
Fixpoint spans_of (off : Z) (trace : list Z) (parent : option (list Z)) (r : Z) (f : forest)
  : list otlp_span_t * Z :=
  match f with
  | Nil => ([], r)
  | Call i t0 t1 k rest =>
      let '(tr, r1) :=
        match parent with
        | None => let '(a, ra) := splitmix64 r in
                  let '(b, rb) := splitmix64 ra in (put_u64_be a ++ put_u64_be b, rb)
        | Some _ => (trace, r)
        end in
      let '(id, r2) := splitmix64 r1 in
      let '(inner, r3) := spans_of off tr (Some (put_u64_be id)) r2 k in
      let '(after, r4) := spans_of off tr parent r3 rest in
      (inner ++
       [mk_span tr (put_u64_be id) (match parent with Some p => p | None => zeros 8 end)
          (match parent with Some _ => true | None => false end) i (u64 (t0 + off)) (u64 (t1 + off))]
       ++ after, r4)
  end.

Lemma find_slot_some t l n : find_slot t l = Some n ->
  exists s, nth_error l n = Some s /\ slot_tid s = t.
Proof.
  revert n; induction l as [|s l IH]; simpl; intros n H; [discriminate|].
  destruct (Z.eqb_spec (slot_tid s) t).
  - injection H as <-. exists s. auto.
  - destruct (find_slot t l) as [m|]; [|discriminate]. injection H as <-. now apply IH.
Qed.

Lemma find_slot_upd t l n s : find_slot t l = Some n -> slot_tid s = t ->
  find_slot t (upd l n s) = Some n.
Proof.
  revert n; induction l as [|s0 l IH]; simpl; intros n H Hs; [discriminate|].
  destruct (Z.eqb_spec (slot_tid s0) t).
  - injection H as <-. simpl. now rewrite Hs, Z.eqb_refl.
  - destruct (find_slot t l) as [m|]; [|discriminate]. injection H as <-.
    simpl. rewrite (IH m) by auto. now destruct (Z.eqb_spec (slot_tid s0) t).
Qed.

Lemma find_slot_snoc t l s : find_slot t l = None -> slot_tid s = t ->
  find_slot t (l ++ [s]) = Some (length l).
Proof.
  induction l as [|s0 l IH]; simpl; intros H Hs; [now rewrite Hs, Z.eqb_refl|].
  destruct (Z.eqb_spec (slot_tid s0) t); [discriminate|].
  destruct (find_slot t l); [discriminate|]. now rewrite IH.
Qed.

Section Run.
Context (off : Z) (max_out : nat).
Local Abbreviation run := (fold_left (asm_step off max_out)).

(** Where the machine stands inside a thread: the slot's parent and trace. *)
Definition parent_of (stk : list pending_t) : option (list Z) :=
  match stk with [] => None | p :: _ => Some (p_span_id p) end.

Lemma get_slot_found t l n : find_slot t l = Some n -> get_slot t l = Some (l, n).
Proof. unfold get_slot. now intros ->. Qed.

Lemma step_enter st n s i t0 t : find_slot t (slots st) = Some n ->
  nth_error (slots st) n = Some s -> (length (stack s) < OTLP_TRACE_MAX_DEPTH)%nat ->
  asm_step off max_out st (mk_ev 0 i t0 t) =
    let '(s', r') := enter off (mk_ev 0 i t0 t) s (rng st) in
    mk_asm (upd (slots st) n s') r' (out st).
Proof.
  intros Hf Hn Hd. unfold asm_step. simpl ev_tid. rewrite (get_slot_found _ _ _ Hf), Hn.
  cbn [ev_kind Z.eqb]. destruct (Nat.leb_spec OTLP_TRACE_MAX_DEPTH (length (stack s))); [lia|reflexivity].
Qed.

Lemma step_exit st n s p rest i t1 t : find_slot t (slots st) = Some n ->
  nth_error (slots st) n = Some s -> stack s = p :: rest -> (length (out st) < max_out)%nat ->
  asm_step off max_out st (mk_ev 1 i t1 t) =
    mk_asm (upd (slots st) n (mk_slot (slot_tid s) (slot_trace s) rest)) (rng st)
      (out st ++ [close_span off (mk_ev 1 i t1 t) p]).
Proof.
  intros Hf Hn Hs Hm. unfold asm_step. simpl ev_tid. rewrite (get_slot_found _ _ _ Hf), Hn.
  cbn [ev_kind Z.eqb]. rewrite Hs. destruct (Nat.leb_spec max_out (length (out st))); [lia|reflexivity].
Qed.

Lemma length_spans_of tr par r f : length (fst (spans_of off tr par r f)) = fsize f.
Proof.
  revert tr par r; induction f as [|i t0 t1 k IHk rest IHr]; intros tr par r; [reflexivity|].
  cbn [spans_of]. destruct (match par with None => _ | Some _ => _ end) as [tr' r1].
  destruct (splitmix64 r1) as [id r2].
  specialize (IHk tr' (Some (put_u64_be id)) r2).
  destruct (spans_of off tr' (Some (put_u64_be id)) r2 k) as [inner r3].
  specialize (IHr tr' par r3). destruct (spans_of off tr' par r3 rest) as [after r4].
  cbn [fst fsize] in *. rewrite length_app. simpl. lia.
Qed.

(** An enter, seen as the reference sees it: the trace it continues or opens,
    then the span id. *)
Lemma enter_split s i t0 r :
  exists tr r1 id r2,
    enter off (mk_ev 0 i t0 (slot_tid s)) s r =
      (mk_slot (slot_tid s) tr (mk_pending (put_u64_be id)
         (match parent_of (stack s) with Some p => p | None => zeros 8 end)
         (match parent_of (stack s) with Some _ => true | None => false end)
         tr (u64 (t0 + off)) i :: stack s), r2) /\
    match parent_of (stack s) with
    | None => let '(a, ra) := splitmix64 r in
              let '(b, rb) := splitmix64 ra in (put_u64_be a ++ put_u64_be b, rb)
    | Some _ => (slot_trace s, r)
    end = (tr, r1) /\
    splitmix64 r1 = (id, r2) /\ (stack s <> [] -> tr = slot_trace s).
Proof.
  unfold enter. destruct (stack s) as [|top stk]; cbn [parent_of].
  - destruct (splitmix64 r) as [a ra]. destruct (splitmix64 ra) as [b rb] eqn:Eb.
    destruct (splitmix64 rb) as [id r2] eqn:Ei.
    exists (put_u64_be a ++ put_u64_be b), rb, id, r2. repeat split; auto. congruence.
  - destruct (splitmix64 r) as [id r2] eqn:Ei.
    exists (slot_trace s), r, id, r2. repeat split; auto.
Qed.

(** Running the events of a forest from inside a thread produces exactly the
    reference's spans and leaves every stack as it was. *)
Lemma run_forest t f : forall st n s,
  find_slot t (slots st) = Some n -> nth_error (slots st) n = Some s ->
  (length (stack s) + fdepth f <= OTLP_TRACE_MAX_DEPTH)%nat ->
  (length (out st) + fsize f <= max_out)%nat ->
  exists tr', (stack s <> [] -> tr' = slot_trace s) /\
    let '(sp, r') := spans_of off (slot_trace s) (parent_of (stack s)) (rng st) f in
    run (events t f) st =
      mk_asm (upd (slots st) n (mk_slot t tr' (stack s))) r' (out st ++ sp).
Proof.
  induction f as [|i t0 t1 k IHk rest IHr]; intros st n s Hf Hn Hd Hm.
  - exists (slot_trace s). split; [auto|]. simpl. rewrite app_nil_r.
    destruct (find_slot_some _ _ _ Hf) as (s' & Hs' & Ht). rewrite Hn in Hs'.
    injection Hs' as <-. rewrite upd_id; [destruct st; reflexivity|].
    rewrite Hn. destruct s; simpl in *; congruence.
  - cbn [fdepth fsize] in Hd, Hm. cbn [events fold_left].
    destruct (find_slot_some _ _ _ Hf) as (s0 & Hs0 & Ht). rewrite Hn in Hs0. injection Hs0 as <-.
    assert (Hlt : (n < length (slots st))%nat) by (apply nth_error_Some; congruence).
    rewrite (step_enter st n s) by (auto; lia).
    cbn [spans_of].
    destruct (enter_split s i t0 (rng st)) as (tr & r1 & id & r2 & He & Hp & Hi & Htr).
    rewrite Ht in He. rewrite He, Hp, Hi. clear He.
    set (p0 := mk_pending _ _ _ _ _ _).
    set (s1 := mk_slot t tr (p0 :: stack s)).
    set (st1 := mk_asm (upd (slots st) n s1) r2 (out st)).
    rewrite fold_left_app.
    destruct (IHk st1 n s1) as (trk & Htrk & Hk).
    { simpl. now apply find_slot_upd. }
    { simpl. now apply nth_error_upd_eq. }
    { simpl. lia. }
    { simpl. lia. }
    rewrite Htrk in Hk by discriminate. clear Htrk trk. cbn [s1 slot_trace stack parent_of p_span_id p0] in Hk.
    simpl rng in Hk. simpl out in Hk. simpl slots in Hk. rewrite upd_upd in Hk.
    pose proof (length_spans_of tr (Some (put_u64_be id)) r2 k) as Lk.
    destruct (spans_of off tr (Some (put_u64_be id)) r2 k) as [inner r3]. simpl in Lk.
    rewrite Hk. cbn [fold_left]. fold p0. fold s1.
    erewrite step_exit with (n := n) (s := s1);
      [|simpl; now apply find_slot_upd|simpl; now apply nth_error_upd_eq|reflexivity
       |simpl; rewrite length_app; lia].
    cbn [slots rng out slot_tid slot_trace stack s1]. rewrite upd_upd.
    set (st3 := mk_asm _ _ _).
    destruct (IHr st3 n (mk_slot t tr (stack s))) as (trr & Htrr & Hr).
    { simpl. now apply find_slot_upd. }
    { simpl. now apply nth_error_upd_eq. }
    { simpl. lia. }
    { simpl. rewrite !length_app. simpl. lia. }
    cbn [slot_trace stack st3 rng] in Hr. simpl slots in Hr. simpl out in Hr.
    destruct (spans_of off tr (parent_of (stack s)) r3 rest) as [after r4].
    exists trr. split.
    + intros Hne. rewrite Htrr by assumption. simpl. auto.
    + rewrite Hr, upd_upd. f_equal. rewrite <- !app_assoc. do 2 f_equal.
      simpl. f_equal. unfold close_span, p0; simpl.
      destruct (parent_of (stack s)); reflexivity.
Qed.

End Run.

(** ** Span ids *)

Section SpanIds.
Context (off seed : Z) (max_out : nat).

Definition frame_ids (s : tidslot_t) : list (list Z) := map p_span_id (stack s).

(** Every id the assembler has handed out and still holds. *)
Definition live (st : asm) : list (list Z) :=
  map s_span_id (out st) ++ concat (map frame_ids (slots st)).

Definition drawn_before (k : Z) (id : list Z) : Prop := exists j, 0 <= j < k /\ id = id_at seed j.

Definition ids_inv (k : Z) (st : asm) : Prop :=
  0 <= k /\ rng st = state_at seed k /\ NoDup (live st) /\ Forall (drawn_before k) (live st).

Lemma frames_upd l n s : nth_error l n = Some s ->
  exists rest, Permutation (concat (map frame_ids l)) (frame_ids s ++ rest) /\
    forall s', Permutation (concat (map frame_ids (upd l n s'))) (frame_ids s' ++ rest).
Proof.
  revert n; induction l as [|s0 l IH]; intros [|n] H; simpl in H; try discriminate.
  - injection H as ->. exists (concat (map frame_ids l)). split; [|intros]; reflexivity.
  - destruct (IH n H) as (rest & Hp & Hu). exists (frame_ids s0 ++ rest). simpl. split; [|intros s'].
    + rewrite Hp, !app_assoc. now rewrite (Permutation_app_comm (frame_ids s0)).
    + rewrite Hu, !app_assoc. now rewrite (Permutation_app_comm (frame_ids s0)).
Qed.

Lemma ids_inv_sub k k' st st' : ids_inv k st -> k <= k' -> rng st' = state_at seed k' ->
  (exists dead new, Permutation (dead ++ live st') (new ++ live st) /\
     NoDup new /\ Forall (fun id => exists j, k <= j < k' /\ id = id_at seed j) new) ->
  k' < 2 ^ 64 -> ids_inv k' st'.
Proof.
  intros (Hk & _ & Hn & Hf) Hle Hr (dead & new & Hp & Hnn & Hnew) Hmax.
  rewrite Forall_forall in Hnew, Hf.
  assert (Hall : NoDup (new ++ live st)).
  { apply NoDup_app; auto. intros x Hx Hx'.
    destruct (Hnew x Hx) as (j & Hj & ->). destruct (Hf _ Hx') as (i & Hi & E).
    apply id_at_inj in E; lia. }
  split; [lia|]. split; [assumption|].
  split.
  - apply (Permutation_NoDup (Permutation_sym Hp)) in Hall. now apply NoDup_app_remove_l in Hall.
  - apply Forall_forall. intros x Hx.
    assert (Hin : In x (new ++ live st)).
    { rewrite <- Hp. apply in_or_app. now right. }
    apply in_app_or in Hin. destruct Hin as [Hin|Hin].
    + destruct (Hnew x Hin) as (j & Hj & ->). exists j. split; [lia|reflexivity].
    + destruct (Hf x Hin) as (j & Hj & ->). exists j. split; [lia|reflexivity].
Qed.

Lemma enter_ids e s k s' r' : enter off e s (state_at seed k) = (s', r') ->
  exists k', k < k' <= k + 3 /\ r' = state_at seed k' /\ frame_ids s' = id_at seed (k' - 1) :: frame_ids s.
Proof.
  unfold enter. destruct (stack s) as [|top stk] eqn:Es; rewrite splitmix64_at; cbv iota beta.
  - do 2 (rewrite splitmix64_at; cbv iota beta). intros [= <- <-]. exists (k + 3).
    split; [lia|]. split; [f_equal; lia|]. unfold frame_ids; simpl. rewrite Es. unfold id_at. simpl.
    replace (k + 3 - 1) with (k + 1 + 1) by lia. reflexivity.
  - intros [= <- <-]. exists (k + 1). split; [lia|]. split; [reflexivity|].
    unfold frame_ids; simpl. rewrite Es. replace (k + 1 - 1) with k by lia. reflexivity.
Qed.

Lemma slots_get t l l' n : get_slot t l = Some (l', n) ->
  concat (map frame_ids l') = concat (map frame_ids l) /\ exists s, nth_error l' n = Some s.
Proof.
  unfold get_slot. destruct (find_slot t l) as [m|] eqn:E.
  - intros [= <- <-]. destruct (find_slot_some _ _ _ E) as (s & Hs & _). eauto.
  - case_if; [discriminate|]. intros [= <- <-]. split.
    + rewrite map_app, concat_app. simpl. now rewrite !app_nil_r.
    + rewrite nth_error_app2, Nat.sub_diag by lia. simpl. eauto.
Qed.

Lemma asm_step_ids k st e : ids_inv k st -> k + 3 < 2 ^ 64 ->
  exists k', k <= k' <= k + 3 /\ ids_inv k' (asm_step off max_out st e).
Proof.
  intros H Hmax. pose proof H as (Hk & Hr & _).
  unfold asm_step. destruct (get_slot _ _) as [[l n]|] eqn:Eg; [|exists k; auto with zarith].
  destruct (slots_get _ _ _ _ Eg) as (El & s & Hs). rewrite Hs.
  assert (Hkeep : forall r', r' = rng st -> ids_inv k (mk_asm l r' (out st))).
  { intros r' ->. eapply ids_inv_sub; eauto; [lia| |lia].
    exists [], []. unfold live; simpl. rewrite El. split; [reflexivity|split; constructor]. }
  destruct (frames_upd _ _ _ Hs) as (rest & Hl & Hu). rewrite El in Hl.
  case_if.
  - case_if; [exists k; auto with zarith|].
    destruct (enter off e s (rng st)) as [s' r'] eqn:Ee. rewrite Hr in Ee.
    destruct (enter_ids _ _ _ _ _ Ee) as (k' & Hk' & -> & Hf). exists k'. split; [lia|].
    eapply ids_inv_sub; eauto; [lia| |lia]. exists [], [id_at seed (k' - 1)].
    split; [|split; repeat constructor; [intros []|exists (k' - 1); split; [lia|reflexivity]]].
    unfold live; simpl. rewrite Hu, Hf, Hl. simpl. symmetry. apply Permutation_middle.
  - destruct (stack s) as [|p stk] eqn:Es; [exists k; auto with zarith|].
    exists k. split; [lia|]. eapply ids_inv_sub; eauto; [lia| |lia].
    exists (if (max_out <=? length (out st))%nat then [p_span_id p] else []), [].
    split; [|split; constructor]. unfold live; simpl. rewrite Hu, Hl.
    unfold frame_ids; simpl. rewrite Es. simpl.
    destruct (max_out <=? length (out st))%nat; simpl.
    + apply Permutation_middle.
    + rewrite map_app, <- app_assoc. reflexivity.
Qed.

Lemma run_ids ev : forall k st, ids_inv k st -> k + 3 * Z.of_nat (length ev) < 2 ^ 64 ->
  exists k', ids_inv k' (fold_left (asm_step off max_out) ev st).
Proof.
  induction ev as [|e ev IH]; intros k st H Hb; [eauto|].
  cbn [length fold_left] in *.
  destruct (asm_step_ids k st e H) as (k' & Hk' & H'); [lia|]. apply (IH k'); [assumption|lia].
Qed.

End SpanIds.

(** ** Theorems *)

(** One thread's events, assembled, give the spans of its call tree. *)
Lemma assemble_forest tid f off seed max_out :
  (fdepth f <= OTLP_TRACE_MAX_DEPTH)%nat -> (fsize f <= max_out)%nat ->
  otlp_traces_assemble (events tid f) off seed max_out =
    fst (spans_of off (zeros 16) None seed f).
Proof.
  intros Hd Hm. destruct f as [|i t0 t1 k rest]; [reflexivity|].
  set (f := Call i t0 t1 k rest) in *.
  assert (E : otlp_traces_assemble (events tid f) off seed max_out =
              out (fold_left (asm_step off max_out) (events tid f)
                     (mk_asm [mk_slot tid (zeros 16) []] seed []))).
  { unfold otlp_traces_assemble. subst f. cbn [events fold_left]. f_equal. f_equal.
    unfold asm_step. simpl ev_tid. unfold get_slot. simpl. now rewrite Z.eqb_refl. }
  rewrite E.
  destruct (run_forest off max_out tid f (mk_asm [mk_slot tid (zeros 16) []] seed []) 0
              (mk_slot tid (zeros 16) [])) as (tr' & _ & H).
  { simpl. now rewrite Z.eqb_refl. }
  { reflexivity. }
  { assumption. }
  { assumption. }
  simpl stack in H. simpl slot_trace in H. simpl rng in H. cbn [parent_of] in H.
  destruct (spans_of off (zeros 16) None seed f) as [sp r']. now rewrite H.
Qed.

(** The spans of one thread's calls are those of the call tree: emitted in
    completion order, each with the enclosing call's span id as parent, the
    trace of its outermost call, and its own times. *)
Theorem otlp_traces_assemble_forest tid f off seed max_out :
  (fdepth f <= OTLP_TRACE_MAX_DEPTH)%nat -> (fsize f <= max_out)%nat ->
  otlp_traces_assemble (events tid f) off seed max_out =
    fst (spans_of off (zeros 16) None seed f).
Proof. apply assemble_forest. Qed.

(** No two spans of one assembly share a span id, whatever the events. *)
Theorem otlp_traces_assemble_ids_unique ev off seed max_out :
  0 <= seed < 2 ^ 64 -> 3 * Z.of_nat (length ev) < 2 ^ 64 ->
  NoDup (map s_span_id (otlp_traces_assemble ev off seed max_out)).
Proof.
  intros Hs Hb.
  destruct (run_ids off seed max_out ev 0 (mk_asm [] seed [])) as (k & _ & _ & Hn & _).
  - split; [lia|]. split; [|repeat constructor].
    unfold state_at. now rewrite Z.mul_0_l, Z.add_0_r, wrap_small.
  - lia.
  - unfold live in Hn. now apply NoDup_app_remove_r in Hn.
Qed.

Definition sample_calls : forest :=
  Call 0 100 900 (Call 1 200 300 Nil (Call 2 400 800 (Call 1 500 600 Nil Nil) Nil)) (Call 3 950 960 Nil Nil).

Lemma otlp_traces_assemble_forest_witness :
  map (fun s => (method_idx s, s_start s, s_end s, s_has_parent s))
      (otlp_traces_assemble (events 7 sample_calls) 1000 42 16) =
  [(1, 1200, 1300, true); (1, 1500, 1600, true); (2, 1400, 1800, true); (0, 1100, 1900, false);
   (3, 1950, 1960, false)].
Proof.
  rewrite (otlp_traces_assemble_forest 7 sample_calls 1000 42 16); [vm_compute; reflexivity| |];
    vm_compute; repeat constructor.
Defined.

Lemma otlp_traces_assemble_ids_unique_witness :
  length (otlp_traces_assemble (events 7 sample_calls) 1000 42 16) = 5%nat /\
  NoDup (map s_span_id (otlp_traces_assemble (events 7 sample_calls) 1000 42 16)).
Proof.
  split; [vm_compute; reflexivity|].
  apply otlp_traces_assemble_ids_unique; [lia|vm_compute; reflexivity].
Defined.

(** A chain of [n] nested calls; call [k] enters at [k] and leaves at [1000 - k]. *)
Fixpoint nest (n : nat) (k : Z) : forest :=
  match n with O => Nil | S n' => Call k k (1000 - k) (nest n' (k + 1)) Nil end.

(** when a thread nests deeper than the stack, the enter that does not fit is
    dropped but its exit is not: it closes the enclosing call's span, here at 936
    where call 63 leaves at 937, and every outer call inherits its callee's end. *)
Theorem otlp_traces_assemble_overflow_misends :
  map (fun s => (method_idx s, s_end s))
    (firstn 3 (otlp_traces_assemble (events 1 (nest 65 0)) 0 1 100)) =
  [(63, 936); (62, 937); (61, 938)] /\
  length (otlp_traces_assemble (events 1 (nest 65 0)) 0 1 100) = 64%nat.
Proof. split; vm_compute; reflexivity. Qed.

End Assemble.
