(* ===== verification/OtlpHttpSpan.v ===== *)
(** * HTTP server spans and request durations ([src/runtime/otlp/otlp_httpspan.c])

    - [Traceparent]: the reader of the incoming trace context, compared with the one
      of [src/runtime/otlp/otlp_traces.c].
    - [HttpDur]: the accumulator of [http.server.request.duration].
    - [Span]: the span of one request, its entry points, and the audit span. *)

From S2P Require Import Prelude Bytes CText OtlpHist OtlpMetrics OtlpTraces.
Import Doubles.
Local Open Scope string_scope.
Local Open Scope list_scope.
Local Open Scope Z_scope.

Module Traceparent.

(** [hexdec] overwrites [out] byte by byte and stops at the first non-digit, which
    the end of the string also is. *)
Fixpoint hexdec (s : text) (out : list Z) : bool * list Z :=
  match out with
  | [] => (true, [])
  | _ :: out' =>
      match s with
      | h :: l :: s' =>
          if (hexval h <? 0) || (hexval l <? 0) then (false, out)
          else let '(ok, r) := hexdec s' out' in (ok, u8 (Z.lor (Z.shiftl (hexval h) 4) (hexval l)) :: r)
      | _ => (false, out)
      end
  end.

Definition is_tp_blank (c : ascii) : bool := (code c =? 32) || (code c =? 9).

Definition all_zero (l : list Z) : bool := forallb (fun b => b =? 0) l.

Definition hex_at (s : text) (i : nat) : bool :=
  match nth_error s i with Some c => 0 <=? hexval c | None => false end.

(** [parse_traceparent]: the result, and the two arrays as it leaves them. *)
Definition parse_traceparent (tp : option text) (trace_id parent : list Z) : bool * list Z * list Z :=
  match tp with
  | None => (false, trace_id, parent)
  | Some tp =>
      let tp := drop_while is_tp_blank tp in
      if (length tp <? 55)%nat then (false, trace_id, parent)
      else if negb (Ids.is_dash tp 2) || negb (Ids.is_dash tp 35) || negb (Ids.is_dash tp 52)
      then (false, trace_id, parent)
      else if negb (hex_at tp 0) || negb (hex_at tp 1) then (false, trace_id, parent)
      else
        let '(ok, trace_id) := hexdec (skipn 3 tp) trace_id in
        if negb ok then (false, trace_id, parent)
        else
          let '(ok, parent) := hexdec (skipn 36 tp) parent in
          if negb ok then (false, trace_id, parent)
          else (negb (all_zero trace_id || all_zero parent), trace_id, parent)
  end.

(** The two readers of hexadecimal ids accept the same digits. *)
Lemma hexdec_parse_hex s out :
  match Ids.parse_hex s (length out) with
  | Some (bs, any) => hexdec s out = (true, bs) /\ any = negb (all_zero bs)
  | None => fst (hexdec s out) = false
  end.
Proof.
  revert s; induction out as [|o out IH]; intros s.
  { destruct s as [|h [|l s]]; split; reflexivity. }
  destruct s as [|h [|l s]]; try reflexivity. cbn [length Ids.parse_hex hexdec].
  destruct (_ || _); [reflexivity|]. specialize (IH s).
  destruct (Ids.parse_hex s (length out)) as [[bs any]|]; destruct (hexdec s out) as [ok r]; cbn [fst] in *.
  - destruct IH as [E ->]. inv E. split; [reflexivity|]. cbn [all_zero forallb]. now rewrite negb_andb.
  - exact IH.
Qed.

(** A header the outer tests let through: a hexadecimal version and no blank before it. *)
Definition plain_header (t : text) : Prop :=
  drop_while is_tp_blank t = t /\ hex_at t 0 = true /\ hex_at t 1 = true.

Lemma parse_traceparent_agrees t tid par : length tid = 16%nat -> length par = 8%nat -> plain_header t ->
  match Ids.traceparent_ids (Some t) with
  | Some (a, b) => parse_traceparent (Some t) tid par = (true, a, b)
  | None => fst (fst (parse_traceparent (Some t) tid par)) = false
  end.
Proof.
  intros Lt Lp (B & V0 & V1). unfold parse_traceparent, Ids.traceparent_ids. rewrite B, V0, V1. cbn [negb orb].
  destruct (Nat.ltb_spec (length t) 55) as [L|L].
  { now rewrite (proj2 (Nat.leb_gt _ _) L). }
  rewrite (proj2 (Nat.leb_le _ _) L). cbn [andb].
  destruct (Ids.is_dash t 2), (Ids.is_dash t 35), (Ids.is_dash t 52); try reflexivity. cbn [negb orb andb].
  unfold Ids.hex_id. pose proof (hexdec_parse_hex (skipn 3 t) tid) as H1. rewrite Lt in H1.
  pose proof (hexdec_parse_hex (skipn 36 t) par) as H2. rewrite Lp in H2.
  destruct (Ids.parse_hex (skipn 3 t) 16) as [[a anya]|].
  - destruct H1 as [-> ->]. cbn [negb].
    destruct (Ids.parse_hex (skipn 36 t) 8) as [[b anyb]|].
    + destruct H2 as [-> ->]. cbn [negb]. destruct (all_zero a), (all_zero b); reflexivity.
    + destruct (hexdec (skipn 36 t) par) as [ok r]. cbn [fst] in H2. subst ok. now destruct (all_zero a).
  - destruct (hexdec (skipn 3 t) tid) as [ok r]. cbn [fst] in H1. subst ok. reflexivity.
Qed.

Definition sample_tail : text := lit "-0af7651916cd43dd8448eb211c80319c-b7ad6b7169203331-01".

(** The readers differ on a leading blank and on the version, and neither looks at
    the flags. *)
Theorem traceparent_readers_differ :
  let http t := fst (fst (parse_traceparent (Some t) (repeat 0 16) (repeat 0 8))) in
  let generic t := match Ids.traceparent_ids (Some t) with Some _ => true | None => false end in
  http (lit " 00" ++ sample_tail) = true /\ generic (lit " 00" ++ sample_tail) = false
  /\ http (lit "zz" ++ sample_tail) = false /\ generic (lit "zz" ++ sample_tail) = true
  /\ http (lit "00" ++ firstn 51 sample_tail ++ lit "??") = true.
Proof. vm_compute. auto. Qed.

End Traceparent.
Import Traceparent.

(** ** The accumulator of request durations *)

Module HttpDur.

Definition HTTP_DUR_MAX_SERIES : nat := 64.
Definition g_http_dur_bounds : list double := SPNL_BOUNDS_OTEL_DURATION_S.
Definition HTTP_DUR_NBOUNDS : nat := 15.

(** A series in use. *)
Record http_dur_series_t := mk_dur {
  method : text; route : text; has_route : bool; status : Z; hcount : Z; sum : double; buckets : list Z }.

(** The arguments of one call; a null text is the empty one. *)
Record request := mk_request {
  q_method : text; q_route : text; q_has_route : bool; q_status : Z; q_dur : double }.

Definition clamp (d : double) : double := if d_lt d (d_of_Z 0) then d_of_Z 0 else d.

Definition add_duration (s : http_dur_series_t) (dur_s : double) : http_dur_series_t :=
  let d := clamp dur_s in
  mk_dur (method s) (route s) (has_route s) (status s) (u64 (hcount s + 1)) (d_add (sum s) d)
    (incr (buckets s) (bucket_of g_http_dur_bounds d)).

Definition http_dur_record (g : list http_dur_series_t) (q : request) : list http_dur_series_t :=
  match find_index (fun c => (status c =? q_status q) && text_eqb (method c) (q_method q)
                             && text_eqb (route c) (q_route q)) g with
  | Some i => match nth_error g i with Some s => upd g i (add_duration s (q_dur q)) | None => g end
  | None =>
      if (HTTP_DUR_MAX_SERIES <=? length g)%nat then g
      else g ++ [add_duration (mk_dur (trunc 16 (q_method q)) (trunc 128 (q_route q)) (q_has_route q) (q_status q)
                                 0 (d_of_Z 0) (repeat 0 (HTTP_DUR_NBOUNDS + 1))) (q_dur q)]
  end.

(** *** The table of the requests *)

Definition dkey : Type := Z * text * text.
Definition key (q : request) : dkey := (q_status q, q_method q, q_route q).
Definition akey (s : http_dur_series_t) : dkey := (status s, method s, route s).
Definition keyb (a b : dkey) : bool :=
  let '(s, m, r) := a in let '(s', m', r') := b in (s =? s') && text_eqb m m' && text_eqb r r'.

Definition new (q : request) : http_dur_series_t :=
  mk_dur (q_method q) (q_route q) (q_has_route q) (q_status q) 0 (d_of_Z 0) (repeat 0 (HTTP_DUR_NBOUNDS + 1)).
Definition step (s : http_dur_series_t) (q : request) : http_dur_series_t := add_duration s (q_dur q).

(** The texts fit the fields of the series. *)
Definition fits (q : request) : Prop := (length (q_method q) < 16)%nat /\ (length (q_route q) < 128)%nat.

Definition distinct (qs : list request) : nat := length (Keyed.firsts key keyb qs).

Definition duration_count (g : list http_dur_series_t) (k : dkey) : Z :=
  match find (fun s => keyb (akey s) k) g with Some s => hcount s | None => 0 end.

Definition duration_bucket (g : list http_dur_series_t) (k : dkey) (b : nat) : Z :=
  match find (fun s => keyb (akey s) k) g with Some s => nth b (buckets s) 0 | None => 0 end.

Definition in_bucket (b : nat) (q : request) : bool := (bucket_of g_http_dur_bounds (clamp (q_dur q)) =? b)%nat.

Lemma dkeyb_eq a b : keyb a b = true <-> a = b.
Proof.
  destruct a as [[s m] r], b as [[s' m'] r']. unfold keyb. rewrite !andb_true_iff, Z.eqb_eq, !text_eqb_eq.
  split; [intros [[-> ->] ->]|intros E; inv E]; auto.
Qed.

Lemma record_fits g q : fits q -> http_dur_record g q = Keyed.record key akey keyb new step HTTP_DUR_MAX_SERIES g q.
Proof. intros [Hm Hr]. unfold http_dur_record. now rewrite !trunc_id by assumption. Qed.

Lemma record_all qs : Forall fits qs -> (distinct qs <= HTTP_DUR_MAX_SERIES)%nat ->
  fold_left http_dur_record qs [] = Keyed.table key keyb new step qs.
Proof.
  intros F D. rewrite <- (Keyed.record_table key akey keyb new step HTTP_DUR_MAX_SERIES dkeyb_eq) by (easy || exact D).
  clear D. generalize (@nil http_dur_series_t). induction F as [|q qs Hq _ IH]; intros g; cbn [fold_left]; [reflexivity|].
  now rewrite record_fits, IH.
Qed.

Definition sound (b : nat) (s : http_dur_series_t) : Prop :=
  length (buckets s) = (HTTP_DUR_NBOUNDS + 1)%nat /\ u64 (nth b (buckets s) 0) = nth b (buckets s) 0.

Lemma dur_bucket_step b s q : sound b s ->
  nth b (buckets (step s q)) 0 = u64 (nth b (buckets s) 0 + (if in_bucket b q then 1 else 0)).
Proof.
  intros [L W]. unfold step, add_duration, in_bucket. cbn [buckets]. rewrite nth_incr.
  - destruct (_ =? b)%nat; [reflexivity|now rewrite Z.add_0_r].
  - rewrite L. eapply Nat.le_lt_trans; [apply first_index_le|apply Nat.ltb_lt; reflexivity].
Qed.

Lemma sound_step b s q : sound b s -> sound b (step s q).
Proof.
  intros H. split; [|rewrite dur_bucket_step by exact H; apply wrap_wrap; lia].
  unfold step, add_duration, incr. cbn [buckets]. rewrite length_upd. apply H.
Qed.

(** Request durations are counted exactly while they fit.  After any sequence
    of requests whose methods and routes fit the fields of a series and that have at
    most 64 distinct (status, method, route) triples, every triple has the count of
    its requests and every bucket the count of those whose duration falls into it
    (modulo 2^64), and no two series share a triple. *)
Theorem http_dur_exact (qs : list request) (Hf : Forall fits qs) (Hd : (distinct qs <= HTTP_DUR_MAX_SERIES)%nat) :
  let g := fold_left http_dur_record qs [] in
  (forall k, duration_count g k = u64 (count (fun q => keyb (key q) k) qs))
  /\ (forall k b, duration_bucket g k b = u64 (count (fun q => keyb (key q) k && in_bucket b q) qs))
  /\ NoDup (map akey g) /\ length g = distinct qs.
Proof.
  cbv zeta. rewrite record_all by assumption. unfold duration_count, duration_bucket. repeat split.
  - intros k. rewrite (Keyed.table_counter key akey keyb new step dkeyb_eq (fun _ => eq_refl) (fun _ _ => eq_refl)
                         (fun _ => True) hcount (fun _ => 1)); auto.
    rewrite (zsum_filter_count _ (fun _ => true)). f_equal. apply count_ext, Forall_forall.
    intros q _. apply andb_true_r.
  - intros k b. rewrite <- zsum_filter_count.
    apply (Keyed.table_counter key akey keyb new step dkeyb_eq (fun _ => eq_refl) (fun _ _ => eq_refl) (sound b));
      auto using sound_step, dur_bucket_step.
    + intros q. split; [reflexivity|]. cbn [new buckets]. now rewrite nth_repeat.
    + intros q. cbn [new buckets]. apply nth_repeat.
  - rewrite (Keyed.akey_table key akey keyb new step) by easy. apply Keyed.firsts_nodup, dkeyb_eq.
  - unfold Keyed.table. apply length_map.
Qed.

Definition sample : list request :=
  [mk_request (lit "GET") (lit "/users/:id") true 200 (d_dec 3 3);
   mk_request (lit "GET") (lit "/users/:id") true 200 (d_dec 3 1);
   mk_request (lit "POST") (lit "/users") true 201 (d_dec 3 3)].

Lemma http_dur_exact_witness :
  let g := fold_left http_dur_record sample [] in
  duration_count g (200, lit "GET", lit "/users/:id") = 2
  /\ duration_bucket g (200, lit "GET", lit "/users/:id") 1 = 1 /\ length g = 2%nat.
Proof.
  assert (F : Forall fits sample) by (repeat constructor; apply Nat.ltb_lt; reflexivity).
  destruct (http_dur_exact sample F ltac:(apply Nat.leb_le; vm_compute; reflexivity)) as (C & B & _ & L).
  cbv zeta. rewrite C, B, L. vm_compute. auto.
Defined.

(** A route that does not fit is stored cut off and compared whole: it never finds
    its series again.  64 requests for one such route fill the array, and the first
    request for anything else is dropped. *)
Theorem long_route_exhausts_series :
  let long := mk_request (lit "GET") (repeat "a"%char 128) true 200 (d_dec 1 1) in
  let other := mk_request (lit "GET") (lit "/") true 200 (d_dec 1 1) in
  let g := fold_left http_dur_record (repeat long 64) [] in
  length g = 64%nat /\ Forall (fun s => hcount s = 1 /\ akey s = (200, lit "GET", repeat "a"%char 127)) g
  /\ http_dur_record g other = g.
Proof.
  cbv zeta. split; [vm_compute; reflexivity|]. split; [|vm_compute; reflexivity].
  apply Forall_forall. apply (proj1 (Forall_forall _ _)).
  match goal with |- Forall _ ?l => let r := eval vm_compute in l in replace l with r by (vm_compute; reflexivity) end.
  repeat (constructor; [split; reflexivity|]). constructor.
Qed.

End HttpDur.
Import HttpDur.

(** ** The spans *)

Module Span.

Record otlp_http_span_t := mk_hspan {
  trace_id : list Z; span_id : list Z; parent_span_id : list Z; has_parent : bool;
  start_unix_ns : Z; end_unix_ns : Z; name : text;
  http_method : option text; url_path : option text; status_code : Z;
  server_address : option text; server_port : Z; client_address : option text; url_scheme : text;
  hroute : option text; tenant : option text; tcp_established : Z; tcp_state_changes : Z }.

(** A socket address: its family and the text and port of an internet address. *)
Inductive sockaddr := Inet (addr : text) (port : Z) | Inet6 (addr : text) (port : Z) | OtherFamily.

Definition addr_to_str (ss : sockaddr) : text * Z :=
  match ss with
  | Inet a p | Inet6 a p => (a, p)
  | OtherFamily => ([], 0)
  end.

(** What the two lookups of a connected socket answer; [None] is a failed call. *)
Record socket := mk_socket { sockname : option sockaddr; peername : option sockaddr }.

Definition given (t : option text) : option text :=
  match t with Some (c :: t') => Some (c :: t') | _ => None end.

Definition or_empty (t : option text) : text := match t with Some t => t | None => [] end.

Record state := mk_span_state { counter : Z; audit_counter : Z; g_http_dur : list http_dur_series_t; g_http_dur_start : Z }.

Definition fnv : Z := 0x100000001B3.

(** The seed of the ids of a span: time, process and a counter. *)
Definition seed_of (pid t0 t1 c : Z) : Z :=
  Z.lxor (Z.lxor (if t1 =? 0 then t0 else t1) (u64 (Z.shiftl pid 32))) (u64 (c * fnv)).

(** Trace id, span id, parent and whether there is one. *)
Definition span_ids (traceparent : option text) (seed : Z) : list Z * list Z * list Z * bool :=
  let '(ok, tid, par) := parse_traceparent traceparent (Ids.zeros 16) (Ids.zeros 8) in
  if ok then
    let '(c, _) := Ids.splitmix64 seed in (tid, Ids.put_u64_be c, par, true)
  else
    let '(a, s1) := Ids.splitmix64 seed in
    let '(b, s2) := Ids.splitmix64 s1 in
    let '(c, _) := Ids.splitmix64 s2 in
    (Ids.put_u64_be a ++ Ids.put_u64_be b, Ids.put_u64_be c, par, false).

Section Entry.

(** The process id, the wall clock of a call, and the encoder with its transport:
    the HTTP status, or a negative number for a failure. *)
Context (pid now : Z) (export : otlp_http_span_t -> Z).

Definition http_span_fd_core (st : state) (fd : option socket) (traceparent method target route : option text)
  (status t0 t1 : Z) (ten : option text) (established changes : Z) (endpoint : option text) : state * Z :=
  match endpoint with
  | None => (st, -1)
  | Some _ =>
      let c := u64 (counter st + 1) in
      let '(tid, sid, par, hp) := span_ids traceparent (seed_of pid t0 t1 c) in
      let '(srv, port) := match fd with
                          | Some s => match sockname s with Some a => addr_to_str a | None => ([], 0) end
                          | None => ([], 0)
                          end in
      let cli := match fd with
                 | Some s => match peername s with Some a => fst (addr_to_str a) | None => [] end
                 | None => []
                 end in
      let has_route := match given route with Some _ => true | None => false end in
      let name_path := if has_route then route else target in
      let nm := trunc 300 (or_empty method ++ " "%char :: or_empty name_path) in
      let start := if g_http_dur_start st =? 0 then now else g_http_dur_start st in
      let dur_s := if t0 <? t1 then d_div (d_of_Z (t1 - t0)) (d_of_Z (10 ^ 9)) else d_of_Z 0 in
      let g := http_dur_record (g_http_dur st)
                 (mk_request (or_empty method) (or_empty name_path) has_route status dur_s) in
      let s := mk_hspan tid sid par hp t0 t1 nm method target status (given (Some srv)) port (given (Some cli))
                 (lit "http") (given route) (given ten) established changes in
      let rc := export s in
      (mk_span_state c (audit_counter st) g start, if rc <? 0 then -1 else rc)
  end.

Definition spnl_otlp_http_span_fd (st : state) (fd : option socket) (traceparent method target route : option text)
  (status t0 t1 : Z) (endpoint : option text) : state * Z :=
  http_span_fd_core st fd traceparent method target route status t0 t1 None (-1) (-1) endpoint.

Definition spnl_otlp_http_span_fd_x := http_span_fd_core.

Definition spnl_otlp_http_span (st : state) (traceparent method target : option text) (status t0 t1 : Z)
  (endpoint : option text) : state * Z :=
  spnl_otlp_http_span_fd st None traceparent method target None status t0 t1 endpoint.

(** The audit span; [export_audit] encodes and sends a generic span. *)
Context (export_audit : Ids.otlp_generic_span_t -> Z).

Definition attribute (k : text) (v : option text) : list Ids.otlp_kv_t :=
  match given v with Some v => [Ids.mk_kv (trunc 128 k) (trunc 512 v)] | None => [] end.

Definition spnl_otlp_audit_file_span (st : state) (traceparent exe_path parent_exe_path file_path verdict : option text)
  (deny : bool) (t0 t1 : Z) (endpoint : option text) : state * Z :=
  match endpoint with
  | None => (st, -1)
  | Some _ =>
      let c := u64 (audit_counter st + 1) in
      let '(tid, sid, par, hp) := span_ids traceparent (seed_of pid t0 t1 c) in
      let attrs := attribute (lit "process.executable.path") exe_path
                   ++ attribute (lit "process.parent.executable.path") parent_exe_path
                   ++ attribute (lit "file.path") file_path ++ attribute (lit "verdict") verdict in
      let s := Ids.mk_gspan tid sid par hp t0 t1 (trunc 300 (lit "file_open " ++ or_empty file_path)) 0 deny attrs in
      let rc := export_audit s in
      (mk_span_state (counter st) c (g_http_dur st) (g_http_dur_start st), if rc <? 0 then -1 else rc)
  end.

End Entry.

(** [spnl_otlp_http_metrics_push]: the labelled series it hands to the builder. *)
Definition hseries_labels (s : http_dur_series_t) : list (text * text) :=
  [(lit "http.request.method", method s)]
  ++ (if HttpDur.has_route s then [(lit "http.route", route s)] else [])
  ++ [(lit "http.response.status_code", dec_s (status s))].

Definition pushed_series (g : list http_dur_series_t) : list (list (text * text) * Z * double * list Z) :=
  map (fun s => (hseries_labels s, hcount s, sum s, buckets s)) (filter (fun s => negb (hcount s =? 0)) g).

Definition spnl_otlp_http_metrics_push (now : Z)
  (export_hist : Z -> Z -> list (list (text * text) * Z * double * list Z) -> Z)
  (st : state) (endpoint : option text) : state * Z :=
  match endpoint with
  | None => (st, -1)
  | Some _ =>
      let start := if g_http_dur_start st =? 0 then now else g_http_dur_start st in
      let rc := export_hist now start (pushed_series (g_http_dur st)) in
      (mk_span_state (counter st) (audit_counter st) (g_http_dur st) start, if rc <? 0 then -1 else rc)
  end.

(** A valid header is continued: its trace, its span as the parent, a new span id. *)
Lemma span_ids_continue t a b seed : plain_header t -> Ids.traceparent_ids (Some t) = Some (a, b) ->
  span_ids (Some t) seed = (a, Ids.put_u64_be (Ids.mix seed), b, true).
Proof.
  intros P E. pose proof (parse_traceparent_agrees t (Ids.zeros 16) (Ids.zeros 8) eq_refl eq_refl P) as H.
  rewrite E in H. unfold span_ids. rewrite H. unfold Ids.mix. now destruct (Ids.splitmix64 seed).
Qed.

(** Any other header starts a trace: three draws, no parent. *)
Lemma span_ids_root tp seed : 0 <= seed < 2 ^ 64 ->
  fst (fst (parse_traceparent tp (Ids.zeros 16) (Ids.zeros 8))) = false ->
  exists par, span_ids tp seed = (Ids.id_at seed 0 ++ Ids.id_at seed 1, Ids.id_at seed 2, par, false).
Proof.
  intros R H. unfold span_ids. destruct (parse_traceparent _ _ _) as [[ok tid] par]. cbn [fst] in H. subst ok.
  assert (S0 : seed = Ids.state_at seed 0) by (unfold Ids.state_at; rewrite Z.add_0_r; symmetry; now apply wrap_small).
  replace (Ids.splitmix64 seed) with (Ids.splitmix64 (Ids.state_at seed 0)) by now rewrite <- S0.
  rewrite Ids.splitmix64_at, Ids.splitmix64_at, Ids.splitmix64_at. now exists par.
Qed.

Lemma seed_range pid t0 t1 c : 0 <= t0 < 2 ^ 64 -> 0 <= t1 < 2 ^ 64 -> 0 <= seed_of pid t0 t1 c < 2 ^ 64.
Proof.
  intros H0 H1. unfold seed_of. apply lxor_range; [lia| |apply wrap_range; lia].
  apply lxor_range; [lia| |apply wrap_range; lia]. now destruct (t1 =? 0).
Qed.

Lemma seed_inj pid t0 t1 c d : 0 <= c < 2 ^ 64 -> 0 <= d < 2 ^ 64 ->
  seed_of pid t0 t1 c = seed_of pid t0 t1 d -> c = d.
Proof.
  intros Hc Hd E. unfold seed_of in E. set (x := Z.lxor (if t1 =? 0 then t0 else t1) _) in E.
  apply (f_equal (Z.lxor x)) in E. rewrite <- !Z.lxor_assoc, Z.lxor_nilpotent, !Z.lxor_0_l in E.
  now apply (mul_odd_inj fnv 0xce965057aff6957b) in E.
Qed.

Lemma u64_succ_neq x : 0 <= x < 2 ^ 64 -> x <> u64 (x + 1).
Proof.
  intros H. destruct (Z.eq_dec x (2 ^ 64 - 1)) as [->|N]; [vm_compute; discriminate|].
  rewrite wrap_small by lia. lia.
Qed.

Definition answer (rc : Z) : Z := if rc <? 0 then -1 else rc.

(** One request with a valid header: the span it exports and the counter it leaves. *)
Lemma core_continues pid now st fd t m tg r status t0 t1 ten est chg ep a b :
  plain_header t -> Ids.traceparent_ids (Some t) = Some (a, b) ->
  exists s, trace_id s = a /\ parent_span_id s = b /\ has_parent s = true
    /\ span_id s = Ids.put_u64_be (Ids.mix (seed_of pid t0 t1 (u64 (counter st + 1))))
    /\ forall export,
         snd (http_span_fd_core pid now export st fd (Some t) m tg r status t0 t1 ten est chg (Some ep)) = answer (export s)
         /\ counter (fst (http_span_fd_core pid now export st fd (Some t) m tg r status t0 t1 ten est chg (Some ep)))
            = u64 (counter st + 1).
Proof.
  intros P E. unfold http_span_fd_core. rewrite (span_ids_continue t a b _ P E).
  destruct (match fd with Some _ => _ | None => _ end) as [srv port].
  eexists; repeat split; cbn [trace_id parent_span_id has_parent span_id]; reflexivity.
Qed.

(** An incoming trace is continued.  A request with a valid trace-context header
    exports exactly one span, in the header's trace, with the header's span as its
    parent; a second request with the same header in the same nanosecond and
    process exports another span of the same trace and parent whose id differs. *)
Theorem http_span_continues pid now (st : state) fd (t : text) m tg r status t0 t1 ten est chg ep a b
  (Hh : plain_header t) (Hi : Ids.traceparent_ids (Some t) = Some (a, b))
  (H0 : 0 <= t0 < 2 ^ 64) (H1 : 0 <= t1 < 2 ^ 64) :
  exists s1 s2,
    (forall export,
       let run st := http_span_fd_core pid now export st fd (Some t) m tg r status t0 t1 ten est chg (Some ep) in
       snd (run st) = answer (export s1) /\ snd (run (fst (run st))) = answer (export s2))
    /\ trace_id s1 = a /\ trace_id s2 = a /\ parent_span_id s1 = b /\ parent_span_id s2 = b
    /\ has_parent s1 = true /\ has_parent s2 = true /\ span_id s1 <> span_id s2.
Proof.
  destruct (core_continues pid now st fd t m tg r status t0 t1 ten est chg ep a b Hh Hi) as (s1 & T1 & P1 & B1 & I1 & R1).
  set (st2 := fst (http_span_fd_core pid now (fun _ => 0) st fd (Some t) m tg r status t0 t1 ten est chg (Some ep))).
  destruct (core_continues pid now st2 fd t m tg r status t0 t1 ten est chg ep a b Hh Hi) as (s2 & T2 & P2 & B2 & I2 & R2).
  assert (C : counter st2 = u64 (counter st + 1)) by apply (R1 (fun _ => 0)).
  exists s1, s2. repeat split; try assumption; [apply R1| |].
  - replace (fst (http_span_fd_core pid now export st fd (Some t) m tg r status t0 t1 ten est chg (Some ep))) with st2; [apply R2|].
    unfold st2, http_span_fd_core. destruct (span_ids _ _) as [[[? ?] ?] ?]. now destruct (match fd with Some _ => _ | None => _ end).
  - rewrite I1, I2, C. intros X. apply Ids.put_u64_be_inj in X; try apply Ids.mix_range.
    apply Ids.mix_inj in X; try now apply seed_range.
    apply seed_inj in X; try (apply wrap_range; lia).
    now apply u64_succ_neq in X; [|apply wrap_range; lia].
Qed.

Lemma http_span_continues_witness :
  let t := lit "00" ++ sample_tail in
  plain_header t
  /\ exists s1 s2,
    (forall export,
       let run st := http_span_fd_core 7 5 export st None (Some t) (Some (lit "GET")) (Some (lit "/")) None 200 10 20
                       None (-1) (-1) (Some (lit "http://c:4318")) in
       let st := mk_span_state 0 0 [] 0 in
       snd (run st) = answer (export s1) /\ snd (run (fst (run st))) = answer (export s2))
    /\ parent_span_id s1 = [183; 173; 107; 113; 105; 32; 51; 49] /\ has_parent s1 = true /\ span_id s1 <> span_id s2.
Proof.
  cbv zeta. assert (P : plain_header (lit "00" ++ sample_tail)) by (repeat split; vm_compute; reflexivity).
  split; [exact P|].
  destruct (http_span_continues 7 5 (mk_span_state 0 0 [] 0) None (lit "00" ++ sample_tail) (Some (lit "GET"))
              (Some (lit "/")) None 200 10 20 None (-1) (-1) (lit "http://c:4318")
              [10; 247; 101; 25; 22; 205; 67; 221; 132; 72; 235; 33; 28; 128; 49; 156]
              [183; 173; 107; 113; 105; 32; 51; 49] P ltac:(vm_compute; reflexivity) ltac:(lia) ltac:(lia))
    as (s1 & s2 & R & _ & _ & P1 & _ & B1 & _ & D).
  exists s1, s2. exact (conj R (conj P1 (conj B1 D))).
Defined.

End Span.
