(* ===== verification/OtlpTransport.v ===== *)
(** * Export destinations and the HTTP request ([src/runtime/otlp/otlp_http.c],
      [otlp_http.h], the dispatch of [otlp_grpc.c])

    - [EnvKv]: the ["k1=v1,k2=v2"] grammar shared by the header and the resource
      attribute variables.
    - [Endpoint]: host, port and path of an endpoint URL.
    - [Http]: the request head and the response status.
    - [Dispatch]: which transport, address and path a signal is sent to.

    [getenv] is a parameter; sockets, TLS and gzip are not modelled. *)

From S2P Require Import Prelude CText OtlpTraces.

Module EnvKv.
Import Ids.

Definition is_blank (c : ascii) : bool := Ascii.eqb c " " || Ascii.eqb c "009".
Definition is_sep (c : ascii) : bool := Ascii.eqb c "," || Ascii.eqb c " ".

(** Both ends moved inwards over blanks. *)
Definition trim (s : text) : text := rev (drop_while is_blank (rev (drop_while is_blank s))).

(** One pass of the loop body on a segment: the pair it stores, if any. *)
Definition kv_of_segment (seg : text) : option otlp_kv_t :=
  match split_at "=" seg with
  | None => None
  | Some (k, v) =>
      let key := trunc 128 (trim k) in
      let val := trunc 512 (trim v) in
      match key with [] => None | _ => Some (mk_kv key val) end
  end.

(** The loop; every pass consumes at least one character. *)
Fixpoint kv_loop (fuel : nat) (p : text) (n max : nat) : list otlp_kv_t :=
  match fuel with
  | O => []
  | S f =>
      match p with
      | [] => []
      | _ =>
          if (max <=? n)%nat then []
          else
            match drop_while is_sep p with
            | [] => []
            | p1 =>
                let '(seg, rest) :=
                  match split_at "," p1 with Some (a, b) => (a, b) | None => (p1, []) end in
                match kv_of_segment seg with
                | Some kv => kv :: kv_loop f rest (S n) max
                | None => kv_loop f rest n max
                end
            end
      end
  end.

Definition otlp_env_kv_list (getenv : text -> option text) (envname : option text) (max : nat)
  : list otlp_kv_t :=
  match envname with
  | None => []
  | Some nm =>
      match getenv nm with
      | None | Some [] => []
      | Some e => kv_loop (S (length e)) e 0 max
      end
  end.

Definition otlp_env_headers (getenv : text -> option text) (max : nat) : list otlp_kv_t :=
  otlp_env_kv_list getenv (Some (lit "OTEL_EXPORTER_OTLP_HEADERS")) max.

(** ** Printing a list of pairs, and reading it back *)

Definition print_kv (kv : otlp_kv_t) : text := key kv ++ "="%char :: val kv.

Fixpoint print_kvs (l : list otlp_kv_t) : text :=
  match l with
  | [] => []
  | [kv] => print_kv kv
  | kv :: l' => print_kv kv ++ ","%char :: print_kvs l'
  end.

(** No blank at either end. *)
Definition trimmed (s : text) : Prop := trim s = s.

Definition kv_ok (kv : otlp_kv_t) : Prop :=
  key kv <> [] /\ ~ In "="%char (key kv) /\ ~ In ","%char (key kv) /\ ~ In ","%char (val kv) /\
  trimmed (key kv) /\ trimmed (val kv) /\ (length (key kv) < 128)%nat /\ (length (val kv) < 512)%nat.

Lemma kv_segment_print kv : kv_ok kv -> kv_of_segment (print_kv kv) = Some kv.
Proof.
  destruct kv as [k v]. intros (Hne & He & _ & _ & Hk & Hv & Lk & Lv). cbn [key val] in *.
  unfold kv_of_segment, print_kv; cbn [key val]. rewrite split_at_app by assumption.
  rewrite Hk, Hv, !trunc_id by assumption. destruct k; [congruence|reflexivity].
Qed.

(** A trimmed, separator-free key is not touched by the skipping of separators. *)
Lemma drop_sep_print kv rest : kv_ok kv -> drop_while is_sep (print_kv kv ++ rest) = print_kv kv ++ rest.
Proof.
  destruct kv as [k v]. intros (Hne & _ & Hc & _ & Hk & _). cbn [key val] in *.
  destruct k as [|c k]; [congruence|]. unfold print_kv; cbn [key val app drop_while].
  destruct (is_sep c) eqn:E; [|reflexivity]. exfalso. unfold is_sep in E. apply orb_true_iff in E.
  destruct E as [E|E]; apply Ascii.eqb_eq in E; subst c; [apply Hc; now left|].
  unfold trimmed, trim in Hk. cbn [drop_while is_blank] in Hk.
  assert (L : length (rev (drop_while is_blank (rev (drop_while is_blank k)))) = S (length k))
    by (change (is_blank " ") with true in Hk; cbv iota in Hk; rewrite Hk; reflexivity).
  assert (D : forall f s, (length (drop_while f s) <= length s)%nat).
  { intros f s. induction s as [|x s IH]; simpl; [lia|]. destruct (f x); simpl; lia. }
  rewrite length_rev in L. pose proof (D is_blank (rev (drop_while is_blank k))).
  rewrite length_rev in H. pose proof (D is_blank k). lia.
Qed.

Lemma print_kv_no_comma kv : kv_ok kv -> ~ In ","%char (print_kv kv).
Proof.
  destruct kv as [k v]. intros (_ & _ & Hk & Hv & _) H. unfold print_kv in H; cbn [key val] in *.
  apply in_app_or in H. destruct H as [H|[H|H]]; [auto|discriminate|auto].
Qed.

Lemma print_kv_cons kv : exists c s, print_kv kv = c :: s.
Proof. destruct kv as [[|c k] v]; unfold print_kv; simpl; eauto. Qed.

Lemma kv_loop_print l : Forall kv_ok l -> forall fuel n max, (length (print_kvs l) < fuel)%nat ->
  (n + length l <= max)%nat -> kv_loop fuel (print_kvs l) n max = l.
Proof.
  induction 1 as [|kv l Hkv Hl IH]; intros fuel n max Hf Hm; [destruct fuel; reflexivity|].
  destruct fuel as [|f]; [simpl in Hf; lia|].
  assert (E : exists rest, print_kvs (kv :: l) = print_kv kv ++ rest /\
    match split_at "," (print_kv kv ++ rest) with Some (a, b) => (a, b) | None => (print_kv kv ++ rest, []) end
      = (print_kv kv, print_kvs l) /\ (length (print_kvs l) <= length rest)%nat).
  { pose proof (print_kv_no_comma kv Hkv) as Hc. destruct l as [|kv' l].
    - exists []. rewrite app_nil_r. split; [reflexivity|].
      apply split_at_none in Hc. rewrite Hc. split; [reflexivity|simpl; lia].
    - exists (","%char :: print_kvs (kv' :: l)). split; [reflexivity|].
      rewrite split_at_app by assumption. split; [reflexivity|cbn [length]; lia]. }
  destruct E as (rest & Ep & Es & Hlen). rewrite Ep in *. cbn [length] in Hm.
  destruct (print_kv_cons kv) as (c & s & Ec).
  pose proof (drop_sep_print kv rest Hkv) as Hd.
  assert (Hlt : (length (print_kvs l) < f)%nat)
    by (rewrite length_app, Ec in Hf; simpl in Hf; lia).
  cbn [kv_loop]. rewrite Hd. destruct (print_kv kv ++ rest) as [|c0 p0] eqn:Ep0;
    [rewrite Ec in Ep0; discriminate|].
  destruct (Nat.leb_spec max n); [lia|]. rewrite Es, kv_segment_print by assumption.
  f_equal. apply IH; lia.
Qed.

(** a variable holding ["k1=v1,k2=v2,..."] with trimmed, comma-free pairs
    that fit their fields parses back to exactly those pairs. *)
Theorem otlp_env_kv_list_roundtrip getenv nm l max :
  Forall kv_ok l -> (length l <= max)%nat -> getenv nm = Some (print_kvs l) ->
  otlp_env_kv_list getenv (Some nm) max = l.
Proof.
  intros Hl Hm He. unfold otlp_env_kv_list. rewrite He.
  destruct (print_kvs l) as [|c s] eqn:E.
  - destruct l as [|kv [|kv' l]]; [reflexivity| |]; exfalso; destruct (print_kv_cons kv) as (c & s & Ec);
      simpl in E; rewrite Ec in E; discriminate.
  - rewrite <- E. apply kv_loop_print; auto.
Qed.

Definition sample_headers : list otlp_kv_t :=
  [mk_kv (lit "Authorization") (lit "Api-Token abc=def"); mk_kv (lit "x-env") (lit "prod")].

Lemma otlp_env_kv_list_roundtrip_witness :
  otlp_env_headers (fun _ => Some (lit "Authorization=Api-Token abc=def,x-env=prod")) 16 = sample_headers.
Proof.
  apply (otlp_env_kv_list_roundtrip _ _ sample_headers); [|vm_compute; repeat constructor|reflexivity].
  repeat constructor; vm_compute; try discriminate; try (repeat constructor); intuition discriminate.
Defined.

End EnvKv.

Module Endpoint.

(** The longest prefix free of the characters [f] selects (strcspn), and the rest. *)
Fixpoint span_until (f : ascii -> bool) (s : text) : text * text :=
  match s with
  | [] => ([], [])
  | c :: s' => if f c then ([], s) else let '(a, b) := span_until f s' in (c :: a, b)
  end.

Definition slash (c : ascii) : bool := Ascii.eqb c "/".
Definition colon_slash (c : ascii) : bool := Ascii.eqb c ":" || slash c.

(** The scheme chain, with the default port it selects. *)
Definition strip_scheme (e : text) : text * text :=
  match strip_prefix (lit "http://") e with
  | Some p => (p, lit "4318")
  | None =>
      match strip_prefix (lit "https://") e with
      | Some p => (p, lit "443")
      | None =>
          match strip_prefix (lit "grpcs://") e with
          | Some p => (p, lit "4317")
          | None =>
              match strip_prefix (lit "grpc://") e with
              | Some p => (p, lit "4317")
              | None => (e, lit "4318")
              end
          end
      end
  end.

Definition otlp_http_parse_endpoint (endpoint : option text) (hostlen portlen : nat) : option (text * text) :=
  match endpoint with
  | None => None
  | Some e =>
      if (hostlen =? 0)%nat || (portlen =? 0)%nat then None
      else
        let '(p, defport) := strip_scheme e in
        let '(host, rest) := span_until colon_slash p in
        if (length host =? 0)%nat || (hostlen <=? length host)%nat then None
        else
          match rest with
          | ":"%char :: r =>
              let '(port, _) := span_until slash r in
              if (length port =? 0)%nat || (portlen <=? length port)%nat then None else Some (host, port)
          | _ => Some (host, trunc portlen defport)
          end
  end.

Definition otlp_http_endpoint_path (endpoint : option text) (pathlen : nat) : option text :=
  match endpoint with
  | None => None
  | Some e =>
      if (pathlen =? 0)%nat then None
      else
        let '(p, _) := strip_scheme e in
        match split_at "/" p with
        | None => Some []
        | Some (_, after) =>
            let path := "/"%char :: after in
            if (pathlen <? length path + 1)%nat then None else Some path
        end
  end.

Inductive scheme := SHttp | SHttps | SGrpc | SGrpcs.

Definition scheme_text (s : scheme) : text :=
  match s with SHttp => lit "http://" | SHttps => lit "https://" | SGrpc => lit "grpc://" | SGrpcs => lit "grpcs://" end.
Definition scheme_port (s : scheme) : text :=
  match s with SHttp => lit "4318" | SHttps => lit "443" | SGrpc | SGrpcs => lit "4317" end.

(** [scheme://host[:port][/path]]. *)
Definition port_part (port : option text) : text := match port with Some p => ":"%char :: p | None => [] end.
Definition print_url (s : scheme) (host : text) (port : option text) (path : text) : text :=
  scheme_text s ++ host ++ port_part port ++ path.

Lemma strip_scheme_print s x : strip_scheme (scheme_text s ++ x) = (x, scheme_port s).
Proof. destruct s; reflexivity. Qed.

Lemma span_until_app f a b : Forall (fun c => f c = false) a ->
  match b with [] => True | c :: _ => f c = true end -> span_until f (a ++ b) = (a, b).
Proof.
  intros Ha Hb. induction Ha as [|c a Hc Ha IH]; simpl.
  - destruct b as [|c b]; [reflexivity|]. simpl. now rewrite Hb.
  - now rewrite Hc, IH.
Qed.

Definition path_ok (path : text) : Prop := match path with [] => True | c :: _ => c = "/"%char end.

Lemma no_slash_colon h : Forall (fun c => colon_slash c = false) h -> ~ In "/"%char h.
Proof.
  intros H Hi. rewrite Forall_forall in H. specialize (H _ Hi). discriminate.
Qed.

Lemma no_slash_port p : Forall (fun c => slash c = false) p -> ~ In "/"%char p.
Proof. intros H Hi. rewrite Forall_forall in H. specialize (H _ Hi). discriminate. Qed.

(** An endpoint URL of any of the four schemes is taken apart into exactly
    its host, its port (or the scheme's default) and its path, whenever they fit
    the caller's buffers. *)
Lemma endpoint_roundtrip s host port path hl pl tl :
  Forall (fun c => colon_slash c = false) host -> host <> [] -> (length host < hl)%nat ->
  match port with
  | Some p => Forall (fun c => slash c = false) p /\ p <> [] /\ (length p < pl)%nat
  | None => (4 < pl)%nat
  end ->
  path_ok path -> (length path < tl)%nat ->
  otlp_http_parse_endpoint (Some (print_url s host port path)) hl pl =
    Some (host, match port with Some p => p | None => scheme_port s end) /\
  otlp_http_endpoint_path (Some (print_url s host port path)) tl = Some path.
Proof.
  intros Hh Hne Lh Hp Hpath Lt. unfold otlp_http_parse_endpoint, otlp_http_endpoint_path, print_url.
  rewrite strip_scheme_print.
  assert (E0 : (hl =? 0)%nat = false /\ (pl =? 0)%nat = false /\ (tl =? 0)%nat = false)
    by (rewrite !Nat.eqb_neq; destruct port; [destruct Hp as (_ & _ & ?)|]; lia).
  destruct E0 as (-> & -> & ->). cbn [orb].
  assert (Eh : (length host =? 0)%nat || (hl <=? length host)%nat = false).
  { apply orb_false_iff. rewrite Nat.eqb_neq, Nat.leb_gt. destruct host; [congruence|simpl in *; lia]. }
  assert (Hs : forall f : ascii -> bool, f "/"%char = true -> match path with [] => True | c :: _ => f c = true end)
    by (intros f Hf; destruct path; [exact I|simpl in Hpath; now subst]).
  split.
  - rewrite span_until_app; [|assumption|destruct port; [reflexivity|now apply Hs]].
    rewrite Eh. unfold port_part. destruct port as [p|].
    + destruct Hp as (Hp & Pne & Lp). cbn [app].
      rewrite span_until_app by (auto; now apply Hs).
      assert (Ep : (length p =? 0)%nat || (pl <=? length p)%nat = false).
      { apply orb_false_iff. rewrite Nat.eqb_neq, Nat.leb_gt. destruct p; [congruence|simpl in *; lia]. }
      now rewrite Ep.
    + cbn [app]. assert (Et : trunc pl (scheme_port s) = scheme_port s) by (apply trunc_id; destruct s; simpl; lia).
      destruct path as [|c path]; [now rewrite Et|]. simpl in Hpath. subst c. now rewrite Et.
  - rewrite app_assoc. set (hp := host ++ port_part port).
    assert (Hn : ~ In "/"%char hp).
    { unfold hp. intros H. apply in_app_or in H. destruct H as [H|H]; [exact (no_slash_colon _ Hh H)|].
      destruct port as [p|]; [|destruct H]. destruct H as [H|H]; [discriminate|].
      exact (no_slash_port p (proj1 Hp) H). }
    destruct path as [|c path].
    + rewrite app_nil_r. apply split_at_none in Hn. now rewrite Hn.
    + simpl in Hpath. subst c. rewrite split_at_app by assumption.
      destruct (Nat.ltb_spec tl (length ("/"%char :: path) + 1)); [lia|reflexivity].
Qed.

End Endpoint.

Module Http.
Import Ids EnvKv.

Definition crlf : text := ["013"%char; "010"%char].
Definition header_cap : nat := 2048.

(** The fixed headers of the request. *)
Definition base_head (path host port content_type : text) (body_len : Z) (gzipped : bool) : text :=
  lit "POST " ++ path ++ lit " HTTP/1.1" ++ crlf ++
  lit "Host: " ++ host ++ lit ":" ++ port ++ crlf ++
  lit "User-Agent: spinel-ebpf-otlp/0" ++ crlf ++
  lit "Content-Type: " ++ content_type ++ crlf ++
  lit "Content-Length: " ++ dec_u body_len ++ crlf ++
  lit "Connection: close" ++ crlf ++
  (if gzipped then lit "Content-Encoding: gzip" ++ crlf else []).

Definition header_line (kv : otlp_kv_t) : text := key kv ++ lit ": " ++ val kv ++ crlf.

(** The loop that appends the configured headers to the 2048-byte buffer. *)
Fixpoint append_headers (h : text) (l : list otlp_kv_t) : option text :=
  match l with
  | [] => Some h
  | kv :: l' =>
      let h' := h ++ header_line kv in
      if (header_cap <=? length h')%nat then None else append_headers h' l'
  end.

(** The request head [otlp_http_post] sends, or [None] for "header(s) too long". *)
Definition request_head (path host port content_type : text) (body_len : Z) (gzipped : bool)
  (hdrs : list otlp_kv_t) : option text :=
  let h := base_head path host port content_type body_len gzipped in
  if (header_cap <=? length h)%nat then None
  else
    match append_headers h hdrs with
    | None => None
    | Some h' => if (header_cap <=? length h' + 2)%nat then None else Some (h' ++ crlf)
    end.

(** [sscanf(resp, "HTTP/%*d.%*d %d", &code)]: the code, when it matches. *)
Definition response_status (resp : text) : option Z :=
  match strip_prefix (lit "HTTP/") resp with
  | None => None
  | Some r1 =>
      match scan_d r1 with
      | Some (_, "."%char :: r2) =>
          match scan_d r2 with
          | Some (_, r3) =>
              match scan_d (drop_while is_space r3) with Some (c, _) => Some c | None => None end
          | None => None
          end
      | _ => None
      end
  end.

Definition all_lines (l : list otlp_kv_t) : text := concat (map header_line l).

Lemma append_headers_spec l : forall h,
  append_headers h l = if (length l =? 0)%nat then Some h
    else if (header_cap <=? length (h ++ all_lines l))%nat then None else Some (h ++ all_lines l).
Proof.
  induction l as [|kv l IH]; intros h; [reflexivity|].
  cbn [append_headers length Nat.eqb all_lines map concat]. fold (all_lines l).
  rewrite app_assoc. rewrite IH.
  destruct (Nat.leb_spec header_cap (length (h ++ header_line kv))) as [H|H].
  - destruct (Nat.leb_spec header_cap (length ((h ++ header_line kv) ++ all_lines l))); [reflexivity|].
    rewrite !length_app in *. lia.
  - destruct l; [|reflexivity]. change (all_lines []) with (@nil ascii). rewrite app_nil_r.
    cbn [length Nat.eqb].
    destruct (Nat.leb_spec header_cap (length (h ++ header_line kv))); [lia|reflexivity].
Qed.

(** The request head is either the complete head -- request line, host,
    content type and length, every configured header, blank line -- or nothing
    is sent: the 2048-byte buffer never truncates it. *)
Theorem request_head_complete path host port ct n gz hdrs :
  let full := base_head path host port ct n gz ++ all_lines hdrs ++ crlf in
  request_head path host port ct n gz hdrs = if (length full <? header_cap)%nat then Some full else None.
Proof.
  intros full. unfold request_head. set (h := base_head path host port ct n gz) in *.
  unfold full. rewrite !length_app. change (length crlf) with 2%nat.
  rewrite append_headers_spec.
  destruct (Nat.leb_spec header_cap (length h));
    [destruct (Nat.ltb_spec (length h + (length (all_lines hdrs) + 2)) header_cap); [lia|reflexivity]|].
  destruct hdrs as [|kv hdrs]; cbn [length Nat.eqb].
  - change (all_lines []) with (@nil ascii). cbn [app length].
    destruct (Nat.leb_spec header_cap (length h + 2)), (Nat.ltb_spec (length h + (0 + 2)) header_cap); try lia; reflexivity.
  - rewrite length_app. set (L := length (all_lines (kv :: hdrs))).
    destruct (Nat.leb_spec header_cap (length h + L)), (Nat.ltb_spec (length h + (L + 2)) header_cap); try lia; try reflexivity.
    + rewrite length_app. fold L. destruct (Nat.leb_spec header_cap (length h + L + 2)); [lia|]. now rewrite app_assoc.
    + rewrite length_app. fold L. destruct (Nat.leb_spec header_cap (length h + L + 2)); [reflexivity|lia].
Qed.

(** Any status line of the HTTP/1 grammar yields its status code. *)
Lemma response_status_line a b n rest : 0 <= a -> 0 <= b -> 0 <= n ->
  match rest with [] => True | c :: _ => is_digit c = false end ->
  response_status (lit "HTTP/" ++ dec_u a ++ lit "." ++ dec_u b ++ lit " " ++ dec_u n ++ rest) = Some n.
Proof.
  intros Ha Hb Hn Hr. unfold response_status.
  assert (Hp : forall p r, strip_prefix p (p ++ r) = Some r) by (intros; now apply strip_prefix_spec).
  rewrite Hp, scan_d_dec by (auto; reflexivity). cbn [lit list_ascii_of_string app].
  rewrite (scan_d_dec b (" "%char :: dec_u n ++ rest)) by (auto; reflexivity).
  cbn [drop_while]. change (is_space " ") with true. cbv iota.
  pose proof (dec_u_digits n Hn) as Hd. pose proof (dec_u_nonempty n) as Hne.
  assert (E : drop_while is_space (dec_u n ++ rest) = dec_u n ++ rest).
  { destruct (dec_u n) as [|c d]; [congruence|]. inv Hd. destruct (digit_not_special c H1) as (Hs & _). simpl. now rewrite Hs. }
  now rewrite E, scan_d_dec.
Qed.

End Http.

(** ** The exchange itself *)

Module Post.
Import Ids EnvKv Http.

(** What a read on the connection returns; the end of the list is the peer closing. *)
Inductive read_ev :=
| Chunk (d : text)
| Eintr
| ReadErr.

(** The network as one call sees it: which connection attempts succeed, whether
    TLS is built in and its handshake succeeds, which writes succeed, what is read. *)
Record net := mk_net {
  up : nat -> bool;
  tls_built : bool;
  tls_handshake : bool;
  write_ok : nat -> bool;
  incoming : list read_ev
}.

Inductive post_err := EConnect | ETlsNotBuilt | ETlsHandshake | EHeader | ESend | ERecv | EMalformed.

Record exchange := mk_exchange { status : post_err + Z; slept : list Z; sent : list (list Z) }.

(** [ms = 100L << attempt], at most two seconds. *)
Definition backoff (attempt : nat) : Z := Z.min 2000 (Z.shiftl 100 (Z.of_nat attempt)).

(** The connection loop: connected or not, and the pauses taken. *)
Fixpoint connect_loop (u : nat -> bool) (attempt left : nat) : bool * list Z :=
  match left with
  | O => (false, [])
  | S l =>
      if u attempt then (true, [])
      else let '(c, s) := connect_loop u (S attempt) l in (c, backoff attempt :: s)
  end.

Definition retries (max_retries : Z) : nat := if max_retries <=? 0 then 5 else Z.to_nat max_retries.

Definition resp_room : nat := 1023.

Definition has_nl (s : text) : bool := existsb (Ascii.eqb "010") s.

(** The receive loop: the buffer when it stops, [None] for a receive error. *)
Fixpoint recv_loop (evs : list read_ev) (got : text) : option text :=
  if (resp_room <=? length got)%nat then Some got
  else
    match evs with
    | [] => Some got
    | Eintr :: evs' => recv_loop evs' got
    | ReadErr :: _ => None
    | Chunk d :: evs' =>
        match firstn (resp_room - length got) d with
        | [] => Some got
        | d' => if has_nl (got ++ d') then Some (got ++ d') else recv_loop evs' (got ++ d')
        end
    end.

Section Post.
Variable getenv : text -> option text.
(** [otlp_gzip_if_enabled]: the compressed body, when compression is on and fits. *)
Variable gzip : list Z -> option (list Z).

Definition otlp_http_post (n : net) (host port path content_type : text) (body : list Z) (tls : bool)
  (max_retries : Z) : exchange :=
  let '(connected, sl) := connect_loop (up n) 0 (retries max_retries) in
  if negb connected then mk_exchange (inl EConnect) sl []
  else if tls && negb (tls_built n) then mk_exchange (inl ETlsNotBuilt) sl []
  else if tls && negb (tls_handshake n) then mk_exchange (inl ETlsHandshake) sl []
  else
    let '(gzipped, sendb) := match gzip body with Some z => (true, z) | None => (false, body) end in
    match request_head path host port content_type (Z.of_nat (length sendb)) gzipped (otlp_env_headers getenv 16) with
    | None => mk_exchange (inl EHeader) sl []
    | Some header =>
        let h := map code header in
        if negb (write_ok n 0) then mk_exchange (inl ESend) sl []
        else if negb (length sendb =? 0)%nat && negb (write_ok n 1) then mk_exchange (inl ESend) sl [h]
        else
          let out := if (length sendb =? 0)%nat then [h] else [h; sendb] in
          match recv_loop (incoming n) [] with
          | None => mk_exchange (inl ERecv) sl out
          | Some resp =>
              match response_status (cstr resp) with
              | None => mk_exchange (inl EMalformed) sl out
              | Some code => mk_exchange (inr code) sl out
              end
          end
    end.
End Post.

(** ** Chunking does not matter *)

Definition delivered (evs : list read_ev) : text :=
  concat (map (fun e => match e with Chunk d => d | _ => [] end) evs).

(** No receive error and no premature end of file. *)
Definition calm (evs : list read_ev) : Prop :=
  Forall (fun e => match e with Chunk d => d <> [] | Eintr => True | ReadErr => False end) evs.

Lemma has_nl_app a b : has_nl (a ++ b) = has_nl a || has_nl b.
Proof. apply existsb_app. Qed.

(** A prefix of a line and its tail lies in the line, or holds the newline. *)
Lemma prefix_of_line a b l r : a ++ b = l ++ "010"%char :: r -> has_nl l = false ->
  if has_nl a then exists r', a = l ++ "010"%char :: r' else (length a <= length l)%nat.
Proof.
  revert l. induction a as [|c a IH]; intros l E Hl; [simpl; lia|].
  destruct l as [|x l]; injection E as -> E.
  - simpl. now exists a.
  - cbn [has_nl existsb] in *. apply orb_false_iff in Hl. destruct Hl as [-> Hl]. cbn [orb].
    specialize (IH l E Hl). unfold has_nl in IH. destruct (existsb (Ascii.eqb "010") a); [|simpl; lia].
    destruct IH as [r' ->]. now exists r'.
Qed.

Lemma recv_loop_line evs : forall got line rest, calm evs -> got ++ delivered evs = line ++ "010"%char :: rest ->
  (length line < resp_room)%nat -> has_nl line = false -> has_nl got = false ->
  exists r', recv_loop evs got = Some (line ++ "010"%char :: r').
Proof.
  induction evs as [|e evs IH]; intros got line rest Hc E Hl Hn Hg;
    pose proof (prefix_of_line got _ line rest E Hn) as Hpre; rewrite Hg in Hpre.
  - cbn [delivered map concat] in E. rewrite app_nil_r in E. subst got. rewrite length_app in Hpre. simpl in Hpre. lia.
  - inv Hc. cbn [recv_loop]. destruct (Nat.leb_spec resp_room (length got)) as [|Hr]; [lia|].
    destruct e as [d| |]; [|now apply (IH got line rest)|contradiction].
    unfold delivered in E. cbn [map concat] in E. fold (delivered evs) in E.
    destruct d as [|c0 d0]; [congruence|]. set (d := c0 :: d0) in *.
    destruct (firstn (resp_room - length got) d) as [|c d'] eqn:Ef.
    { apply (f_equal (@length ascii)) in Ef. rewrite length_firstn in Ef. unfold d in Ef. cbn [length] in Ef. lia. }
    rewrite <- Ef. clear Ef.
    assert (E' : (got ++ firstn (resp_room - length got) d) ++ (skipn (resp_room - length got) d ++ delivered evs) =
                 line ++ "010"%char :: rest)
      by now rewrite <- app_assoc, (app_assoc (firstn _ d)), firstn_skipn.
    pose proof (prefix_of_line _ _ _ _ E' Hn) as Hp.
    destruct (has_nl (got ++ firstn (resp_room - length got) d)) eqn:Eg; [destruct Hp as [r' ->]; now exists r'|].
    assert (Ed : firstn (resp_room - length got) d = d).
    { apply firstn_all2. rewrite length_app, length_firstn in Hp. lia. }
    rewrite Ed in *. apply (IH _ line rest); auto. now rewrite <- app_assoc.
Qed.

Lemma digits_no_nul s : Forall (fun c => is_digit c = true) s -> no_nul s.
Proof.
  intros H. eapply Forall_impl; [|exact H]. intros c Hc. apply Ascii.eqb_neq. intros ->. discriminate Hc.
Qed.

Lemma digits_no_nl s : Forall (fun c => is_digit c = true) s -> has_nl s = false.
Proof.
  induction 1 as [|c s Hc _ IH]; [reflexivity|]. cbn [has_nl existsb]. fold (has_nl s). rewrite IH, orb_false_r.
  apply Ascii.eqb_neq. intros <-. discriminate Hc.
Qed.

(** A response: status line of version [a.b], code [n] and a reason, then anything. *)
Definition status_line (a b n : Z) (reason : text) : text :=
  lit "HTTP/" ++ dec_u a ++ lit "." ++ dec_u b ++ lit " " ++ dec_u n ++ reason.

Definition reason_ok (reason : text) : Prop :=
  has_nl reason = false /\ match reason with [] => True | c :: _ => is_digit c = false end.

Lemma received_status a b n reason r' : 0 <= a -> 0 <= b -> 0 <= n -> reason_ok reason ->
  response_status (cstr (status_line a b n reason ++ "010"%char :: r')) = Some n.
Proof.
  intros Ha Hb Hn [_ Hr]. unfold status_line. rewrite <- !app_assoc.
  rewrite !cstr_app by (apply digits_no_nul, dec_u_digits; assumption) || (repeat constructor).
  apply response_status_line; auto.
  destruct reason as [|c reason]; [reflexivity|]. cbn [app cstr]. destruct (Ascii.eqb c "000"); [exact I|exact Hr].
Qed.

(** The connection succeeds when one of the allowed attempts does. *)
Lemma connect_loop_ok u k : forall a left, (k < left)%nat -> u (a + k)%nat = true -> fst (connect_loop u a left) = true.
Proof.
  induction k as [|k IH]; intros a left Hk Hu; destruct left as [|l]; try lia; cbn [connect_loop].
  - rewrite Nat.add_0_r in Hu. now rewrite Hu.
  - destruct (u a); [reflexivity|]. specialize (IH (S a) l ltac:(lia)).
    rewrite Nat.add_succ_comm in IH. specialize (IH Hu). now destruct (connect_loop u (S a) l).
Qed.

Lemma line_no_nl a b n reason : 0 <= a -> 0 <= b -> 0 <= n -> reason_ok reason ->
  has_nl (status_line a b n reason) = false.
Proof.
  intros Ha Hb Hn [Hr _]. unfold status_line. rewrite !has_nl_app, Hr.
  rewrite (digits_no_nl (dec_u a)), (digits_no_nl (dec_u b)), (digits_no_nl (dec_u n)) by now apply dec_u_digits.
  reflexivity.
Qed.

(** When one of the connection attempts succeeds, the head fits and the writes
    go through, the complete request is sent once and the caller gets the status
    code of the server's status line -- however the response is cut into reads,
    interrupted reads included. *)
Theorem otlp_http_post_status getenv gzip n host port path ct body tls k a b st reason rest :
  up n k = true -> (k < 5)%nat -> (tls = true -> tls_built n = true /\ tls_handshake n = true) ->
  write_ok n 0 = true -> write_ok n 1 = true ->
  let sendb := match gzip body with Some z => z | None => body end in
  let gz := match gzip body with Some _ => true | None => false end in
  let full := base_head path host port ct (Z.of_nat (length sendb)) gz ++ all_lines (otlp_env_headers getenv 16) ++ crlf in
  (length full < header_cap)%nat ->
  calm (incoming n) -> delivered (incoming n) = status_line a b st reason ++ "010"%char :: rest ->
  (length (status_line a b st reason) < resp_room)%nat -> 0 <= a -> 0 <= b -> 0 <= st -> reason_ok reason ->
  status (otlp_http_post getenv gzip n host port path ct body tls 0) = inr st /\
  concat (sent (otlp_http_post getenv gzip n host port path ct body tls 0)) = map code full ++ sendb.
Proof.
  intros Hu Hk Ht W0 W1 sendb gz full Hf Hc Hd Hlen Ha Hb Hst Hr. unfold otlp_http_post.
  pose proof (connect_loop_ok (up n) k 0 5 Hk Hu) as Hconn. change (retries 0) with 5%nat.
  destruct (connect_loop (up n) 0 5) as [conn sl]. cbn [fst] in Hconn. subst conn. cbn [negb].
  assert (T : tls && negb (tls_built n) = false /\ tls && negb (tls_handshake n) = false).
  { destruct tls; [|auto]. destruct (Ht eq_refl) as [-> ->]. auto. }
  destruct T as [-> ->].
  assert (Eg : (match gzip body with Some z => (true, z) | None => (false, body) end) = (gz, sendb))
    by (unfold gz, sendb; now destruct (gzip body)).
  rewrite Eg, request_head_complete. fold full. destruct (Nat.ltb_spec (length full) header_cap); [|lia].
  rewrite W0, W1. cbn [negb]. rewrite andb_false_r.
  destruct (recv_loop_line (incoming n) [] (status_line a b st reason) rest Hc Hd Hlen
              (line_no_nl a b st reason Ha Hb Hst Hr) eq_refl) as [r' ->].
  rewrite received_status by assumption. cbn [status sent]. split; [reflexivity|].
  destruct sendb as [|x sb]; cbn [length Nat.eqb concat]; rewrite !app_nil_r; reflexivity.
Qed.

Definition sample_net : net :=
  mk_net (fun k => (k =? 2)%nat) false false (fun _ => true)
    [Chunk (lit "HTTP/1."); Eintr; Chunk (lit "1 20"); Chunk (lit "0 OK" ++ crlf ++ lit "Content")].

Lemma otlp_http_post_status_witness :
  status (otlp_http_post (fun _ => None) (fun _ => None) sample_net (lit "h") (lit "4318") (lit "/v1/logs")
            (lit "application/json") [1; 2; 3] false 0) = inr 200.
Proof.
  apply (otlp_http_post_status (fun _ => None) (fun _ => None) sample_net (lit "h") (lit "4318") (lit "/v1/logs")
           (lit "application/json") [1; 2; 3] false 2 1 1 200 (lit " OK" ++ ["013"%char]) (lit "Content"));
    try reflexivity; try lia; try discriminate.
  - apply Nat.ltb_lt. vm_compute. reflexivity.
  - repeat constructor; discriminate.
  - apply Nat.ltb_lt. vm_compute. reflexivity.
  - split; reflexivity.
Defined.

End Post.

Module Dispatch.
Import Endpoint.

(** What [otlp_transport_send] decides before any I/O. *)
Inductive plan :=
| BadEndpoint
| InvalidArgument
| SendGrpc (host port grpc_path : text) (tls : bool)
| SendHttp (host port path content_type : text) (tls : bool).

Definition contains (s p : text) : bool := match strstr s p with Some _ => true | None => false end.

Definition otlp_signal_endpoint_env (http_path : option text) : option text :=
  match http_path with
  | None => None
  | Some p =>
      if contains p (lit "traces") then Some (lit "OTEL_EXPORTER_OTLP_TRACES_ENDPOINT")
      else if contains p (lit "metrics") then Some (lit "OTEL_EXPORTER_OTLP_METRICS_ENDPOINT")
      else if contains p (lit "logs") then Some (lit "OTEL_EXPORTER_OTLP_LOGS_ENDPOINT")
      else None
  end.

(** The endpoint and path after the per-signal override. *)
Definition effective (getenv : text -> option text) (endpoint http_path : option text) : option text * option text :=
  let sig_ep := match otlp_signal_endpoint_env http_path with Some v => getenv v | None => None end in
  match sig_ep with
  | Some (c :: e) =>
      (sig_ep,
       match otlp_http_endpoint_path sig_ep 512 with
       | Some (c' :: p) => Some (c' :: p)
       | _ => Some (lit "/")
       end)
  | _ => (endpoint, http_path)
  end.

Definition otlp_transport_plan (getenv : text -> option text) (endpoint http_path : option text)
  (grpc_path : text) (content_type : option text) : plan :=
  let '(ep, path) := effective getenv endpoint http_path in
  match otlp_http_parse_endpoint ep 256 16, ep with
  | Some (host, port), Some e =>
      let is_grpc := has_prefix (lit "grpc://") e || has_prefix (lit "grpcs://") e in
      let tls := has_prefix (lit "https://") e || has_prefix (lit "grpcs://") e in
      if is_grpc then SendGrpc host port grpc_path tls
      else
        match path with
        | None => InvalidArgument
        | Some p =>
            SendHttp host port p (match content_type with Some c => c | None => lit "application/x-protobuf" end) tls
        end
  | _, _ => BadEndpoint
  end.

Definition url_ok (host : text) (port : option text) (path : text) : Prop :=
  Forall (fun c => colon_slash c = false) host /\ host <> [] /\ (length host < 256)%nat /\
  match port with
  | Some p => Forall (fun c => slash c = false) p /\ p <> [] /\ (length p < 16)%nat
  | None => True
  end /\ path_ok path /\ (length path < 512)%nat.

Definition grpc_scheme (s : scheme) : bool := match s with SGrpc | SGrpcs => true | _ => false end.
Definition tls_scheme (s : scheme) : bool := match s with SHttps | SGrpcs => true | _ => false end.

(** The plan an endpoint URL and a path stand for. *)
Definition url_plan (s : scheme) (host : text) (port : option text) (path grpc_path : text)
  (content_type : option text) : plan :=
  let p := match port with Some p => p | None => scheme_port s end in
  if grpc_scheme s then SendGrpc host p grpc_path (tls_scheme s)
  else SendHttp host p path (match content_type with Some c => c | None => lit "application/x-protobuf" end)
         (tls_scheme s).

Lemma url_nonempty s h p t : exists c e, print_url s h p t = c :: e.
Proof. destruct s; do 2 eexists; reflexivity. Qed.

Lemma url_parts s host port path : url_ok host port path ->
  otlp_http_parse_endpoint (Some (print_url s host port path)) 256 16 =
    Some (host, match port with Some p => p | None => scheme_port s end) /\
  otlp_http_endpoint_path (Some (print_url s host port path)) 512 = Some path.
Proof.
  intros (Hh & Hn & Lh & Hp & Hpa & Lp). apply endpoint_roundtrip; auto. destruct port; [exact Hp|lia].
Qed.

Lemma url_scheme s h p t :
  has_prefix (lit "grpc://") (print_url s h p t) || has_prefix (lit "grpcs://") (print_url s h p t) = grpc_scheme s /\
  has_prefix (lit "https://") (print_url s h p t) || has_prefix (lit "grpcs://") (print_url s h p t) = tls_scheme s.
Proof. destruct s; split; reflexivity. Qed.

(** Every signal goes where the configuration says.  A per-signal endpoint
    variable, when set, is used verbatim: its host, port, scheme and path (root
    when it has none), with nothing appended and the base endpoint ignored.
    Otherwise the base endpoint's address is used with the caller's path.  In
    both cases the scheme alone selects the transport and TLS. *)
Theorem otlp_transport_plan_destination getenv base http_path grpc_path ct s host port path :
  url_ok host port path ->
  (forall v, otlp_signal_endpoint_env (Some http_path) = Some v -> getenv v = Some (print_url s host port path) ->
   otlp_transport_plan getenv base (Some http_path) grpc_path ct =
     url_plan s host port (match path with [] => lit "/" | _ => path end) grpc_path ct) /\
  (match otlp_signal_endpoint_env (Some http_path) with Some v => getenv v | None => None end = None ->
   otlp_transport_plan getenv (Some (print_url s host port path)) (Some http_path) grpc_path ct =
     url_plan s host port http_path grpc_path ct).
Proof.
  intros Hu. destruct (url_parts s host port path Hu) as [Hp Hpath].
  destruct (url_scheme s host port path) as [Hg Ht].
  destruct (url_nonempty s host port path) as (c & e & Ee).
  assert (Hplan : forall p', (let '(ep, path) := (Some (print_url s host port path), Some p') in
    match otlp_http_parse_endpoint ep 256 16, ep with
    | Some (host, port), Some e =>
        if has_prefix (lit "grpc://") e || has_prefix (lit "grpcs://") e
        then SendGrpc host port grpc_path (has_prefix (lit "https://") e || has_prefix (lit "grpcs://") e)
        else SendHttp host port (match path with Some p => p | None => [] end)
               (match ct with Some c => c | None => lit "application/x-protobuf" end)
               (has_prefix (lit "https://") e || has_prefix (lit "grpcs://") e)
    | _, _ => BadEndpoint
    end) = url_plan s host port p' grpc_path ct).
  { intros p'. cbv beta iota. rewrite Hp, Hg, Ht. unfold url_plan. now destruct (grpc_scheme s). }
  unfold otlp_transport_plan, effective. split.
  - intros v Hv Hgv. rewrite Hv, Hgv, Hpath. rewrite Ee at 1. rewrite <- (Hplan (match path with [] => lit "/" | _ => path end)).
    destruct path; reflexivity.
  - intros H. rewrite H. apply Hplan.
Qed.

Lemma otlp_transport_plan_destination_witness :
  otlp_transport_plan (fun _ => Some (lit "https://tenant.example/v2/trace/otlp")) None (Some (lit "/v1/traces"))
    (lit "/svc/Export") None =
  SendHttp (lit "tenant.example") (lit "443") (lit "/v2/trace/otlp") (lit "application/x-protobuf") true.
Proof.
  destruct (otlp_transport_plan_destination (fun _ => Some (lit "https://tenant.example/v2/trace/otlp")) None
    (lit "/v1/traces") (lit "/svc/Export") None SHttps (lit "tenant.example") None (lit "/v2/trace/otlp"))
    as [H _].
  - repeat split; try (vm_compute; repeat constructor); discriminate.
  - exact (H (lit "OTEL_EXPORTER_OTLP_TRACES_ENDPOINT") eq_refl eq_refl).
Defined.

End Dispatch.
