(* ===== verification/OtlpGrpc.v ===== *)
(** * The gRPC client ([src/runtime/otlp/otlp_grpc.c])

    - [Hpack]: the literal header encoding into a bounded buffer, against a
      decoder for the part of RFC 7541 it uses.
    - [H2]: frames, the whole request as bytes, and the response loop as a
      function of the bytes received.

    Connecting, TLS and gzip are outside: the body handed in is what is sent. *)

From S2P Require Import Prelude Bytes CText OtlpTraces OtlpTransport.

Module Hpack.

(** The bytes of a C string. *)
Definition bytes_of (s : text) : list Z := map code s.
Definition text_of (l : list Z) : text := map chr l.

(** Append one byte, or fail when the buffer is full. *)
Definition put (cap : nat) (buf : list Z) (b : Z) : option (list Z) :=
  if (cap <? length buf + 1)%nat then None else Some (buf ++ [b]).

(** The continuation bytes of an HPACK integer; a 64-bit length needs at most ten. *)
Fixpoint strlen_loop (fuel cap : nat) (buf : list Z) (v : Z) : option (list Z) :=
  match fuel with
  | O => None
  | S f =>
      if 128 <=? v then
        match put cap buf (u8 (Z.lor (Z.land v 0x7F) 0x80)) with
        | Some buf' => strlen_loop f cap buf' (Z.shiftr v 7)
        | None => None
        end
      else put cap buf (u8 v)
  end.

Definition hpack_strlen (cap : nat) (buf : list Z) (len : Z) : option (list Z) :=
  if len <? 127 then put cap buf (u8 len)
  else
    match put cap buf 0x7F with
    | Some buf' => strlen_loop 10 cap buf' (len - 127)
    | None => None
    end.

(** [memcpy(buf + *off, s, n)] after its bound check. *)
Definition put_str (cap : nat) (buf s : list Z) : option (list Z) :=
  if (cap <? length buf + length s)%nat then None else Some (buf ++ s).

Definition bind {A B} (x : option A) (f : A -> option B) : option B :=
  match x with Some a => f a | None => None end.

Definition hpack_lit (cap : nat) (buf : list Z) (name val : text) : option (list Z) :=
  bind (put cap buf 0x00) (fun b =>
  bind (hpack_strlen cap b (Z.of_nat (length name))) (fun b =>
  bind (put_str cap b (bytes_of name)) (fun b =>
  bind (hpack_strlen cap b (Z.of_nat (length val))) (fun b =>
  put_str cap b (bytes_of val))))).

Fixpoint hpack_fields (cap : nat) (buf : list Z) (l : list (text * text)) : option (list Z) :=
  match l with
  | [] => Some buf
  | (n, v) :: l' => bind (hpack_lit cap buf n v) (fun b => hpack_fields cap b l')
  end.

(** ** A decoder: literal fields without indexing, new names, no Huffman *)

(** Continuation bytes, least significant group first. *)
Fixpoint dec_groups (fuel : nat) (l : list Z) : option (Z * list Z) :=
  match fuel with
  | O => None
  | S f =>
      match l with
      | [] => None
      | b :: l' =>
          if b <? 128 then Some (b, l')
          else match dec_groups f l' with
               | Some (v, r) => Some (b - 128 + 128 * v, r)
               | None => None
               end
      end
  end.

(** A 7-bit prefix integer whose Huffman flag is clear. *)
Definition dec_len (l : list Z) : option (Z * list Z) :=
  match l with
  | [] => None
  | b :: l' =>
      if b <? 127 then Some (b, l')
      else if b =? 127 then
        match dec_groups 10 l' with Some (v, r) => Some (127 + v, r) | None => None end
      else None
  end.

Definition dec_str (l : list Z) : option (text * list Z) :=
  match dec_len l with
  | Some (n, r) =>
      if Z.of_nat (length r) <? n then None
      else Some (text_of (firstn (Z.to_nat n) r), skipn (Z.to_nat n) r)
  | None => None
  end.

Definition dec_field (l : list Z) : option (text * text * list Z) :=
  match l with
  | 0 :: r =>
      match dec_str r with
      | Some (n, r1) => match dec_str r1 with Some (v, r2) => Some (n, v, r2) | None => None end
      | None => None
      end
  | _ => None
  end.

Fixpoint dec_fields (fuel : nat) (l : list Z) : option (list (text * text)) :=
  match l with
  | [] => Some []
  | _ =>
      match fuel with
      | O => None
      | S f =>
          match dec_field l with
          | Some (n, v, r) => match dec_fields f r with Some fs => Some ((n, v) :: fs) | None => None end
          | None => None
          end
      end
  end.

Lemma text_of_bytes s : text_of (bytes_of s) = s.
Proof. unfold text_of, bytes_of. rewrite map_map. rewrite <- (map_id s) at 2. apply map_ext, chr_code. Qed.

Lemma length_bytes_of s : length (bytes_of s) = length s.
Proof. apply length_map. Qed.

(** ** What the encoders write, independently of the buffer *)

Fixpoint groups (fuel : nat) (v : Z) : list Z :=
  match fuel with
  | O => []
  | S f => if 128 <=? v then u8 (Z.lor (Z.land v 0x7F) 0x80) :: groups f (Z.shiftr v 7) else [u8 v]
  end.

Definition len_bytes (len : Z) : list Z := if len <? 127 then [u8 len] else 0x7F :: groups 10 (len - 127).

Definition lit_bytes (n v : text) : list Z :=
  0 :: len_bytes (Z.of_nat (length n)) ++ bytes_of n ++ len_bytes (Z.of_nat (length v)) ++ bytes_of v.

Lemma put_spec cap buf b buf' : put cap buf b = Some buf' -> buf' = buf ++ [b].
Proof. unfold put. case_if; congruence. Qed.

Lemma strlen_loop_spec fuel : forall cap buf v buf',
  strlen_loop fuel cap buf v = Some buf' -> buf' = buf ++ groups fuel v.
Proof.
  induction fuel as [|f IH]; intros cap buf v buf' H; [discriminate|]. cbn [strlen_loop groups] in *.
  destruct (128 <=? v).
  - destruct (put _ _ _) as [b|] eqn:E; [|discriminate]. apply put_spec in E. apply IH in H. subst.
    now rewrite <- app_assoc.
  - now apply put_spec in H.
Qed.

Lemma hpack_strlen_spec cap buf len buf' : hpack_strlen cap buf len = Some buf' -> buf' = buf ++ len_bytes len.
Proof.
  unfold hpack_strlen, len_bytes. destruct (len <? 127); [apply put_spec|].
  destruct (put cap buf 0x7F) as [b|] eqn:E; [|discriminate]. apply put_spec in E. intros H.
  apply strlen_loop_spec in H. subst. now rewrite <- app_assoc.
Qed.

Lemma put_str_spec cap buf s buf' : put_str cap buf s = Some buf' -> buf' = buf ++ s.
Proof. unfold put_str. case_if; congruence. Qed.

Lemma bind_some {A B} (x : option A) (f : A -> option B) y : bind x f = Some y -> exists a, x = Some a /\ f a = Some y.
Proof. destruct x; simpl; [eauto|discriminate]. Qed.

Lemma hpack_lit_spec cap buf n v buf' : hpack_lit cap buf n v = Some buf' -> buf' = buf ++ lit_bytes n v.
Proof.
  unfold hpack_lit. intros H.
  repeat (apply bind_some in H; destruct H as (? & ?E & H)).
  apply put_spec in E. apply hpack_strlen_spec in E0, E2. apply put_str_spec in E1, H. subst.
  unfold lit_bytes. cbn [app]. rewrite <- !app_assoc. reflexivity.
Qed.

Lemma hpack_fields_spec cap l : forall buf buf', hpack_fields cap buf l = Some buf' ->
  buf' = buf ++ flat_map (fun f => lit_bytes (fst f) (snd f)) l.
Proof.
  induction l as [|[n v] l IH]; intros buf buf' H; cbn [hpack_fields flat_map fst snd] in *.
  - inv H. now rewrite app_nil_r.
  - apply bind_some in H. destruct H as (b & E & H). apply hpack_lit_spec in E. apply IH in H. subst.
    now rewrite <- app_assoc.
Qed.

(** ** Reading it back *)

Lemma group_byte v : 0 <= v -> u8 (Z.lor (Z.land v 0x7F) 0x80) = v mod 128 + 128.
Proof.
  intros Hv. change 0x7F with (Z.ones 7). rewrite Z.land_ones by lia. change (2 ^ 7) with 128.
  pose proof (Z.mod_pos_bound v 128 ltac:(lia)) as Hm.
  assert (E : Z.lor (v mod 128) 0x80 = v mod 128 + 128).
  { rewrite <- Z.add_lor_land.
    assert (L : Z.land (v mod 128) 128 = 0).
    { apply Z.bits_inj'. intros k Hk. rewrite Z.land_spec, Z.testbit_0_l.
      destruct (Z.eq_dec k 7) as [->|Hne].
      - rewrite Z.testbit_eqb by lia. change (2 ^ 7) with 128. rewrite Z.div_small by lia. reflexivity.
      - assert (T : Z.testbit 128 k = false) by (change 128 with (2 ^ 7); apply Z.pow2_bits_false; congruence).
        rewrite T. apply andb_false_r. }
    lia. }
  rewrite E. apply wrap_small. lia.
Qed.

Lemma dec_groups_groups f : forall v rest, (0 < f)%nat -> 0 <= v < 128 ^ Z.of_nat f ->
  dec_groups f (groups f v ++ rest) = Some (v, rest).
Proof.
  induction f as [|f IH]; intros v rest Hf Hv; [lia|].
  rewrite Nat2Z.inj_succ, Z.pow_succ_r in Hv by lia. cbn [groups dec_groups].
  destruct (Z.leb_spec 128 v) as [H|H].
  - rewrite group_byte by lia. cbn [app]. pose proof (Z.mod_pos_bound v 128 ltac:(lia)).
    destruct (Z.ltb_spec (v mod 128 + 128) 128); [lia|].
    rewrite Z.shiftr_div_pow2 by lia. change (2 ^ 7) with 128.
    assert (Hf' : (0 < f)%nat) by (destruct f; [simpl in Hv|]; lia).
    assert (Hq : 0 <= v / 128 < 128 ^ Z.of_nat f)
      by (split; [apply Z.div_pos|apply Z.div_lt_upper_bound]; lia).
    rewrite (IH _ _ Hf' Hq).
    do 2 f_equal. pose proof (Z.div_mod v 128 ltac:(lia)). lia.
  - cbn [app]. rewrite wrap_small by lia. destruct (Z.ltb_spec v 128); [reflexivity|lia].
Qed.

Lemma dec_len_bytes len rest : 0 <= len < 2 ^ 64 -> dec_len (len_bytes len ++ rest) = Some (len, rest).
Proof.
  intros Hl. unfold len_bytes. destruct (Z.ltb_spec len 127) as [H|H].
  - cbn [app dec_len]. rewrite wrap_small by lia. destruct (Z.ltb_spec len 127); [reflexivity|lia].
  - cbn [app dec_len]. change (127 <? 127) with false. change (127 =? 127) with true. cbv iota.
    rewrite dec_groups_groups; [do 2 f_equal; lia|lia|]. change (128 ^ Z.of_nat 10) with (2 ^ 64 * 64). lia.
Qed.

Lemma dec_str_bytes s rest : Z.of_nat (length s) < 2 ^ 64 ->
  dec_str (len_bytes (Z.of_nat (length s)) ++ bytes_of s ++ rest) = Some (s, rest).
Proof.
  intros Hs. unfold dec_str. rewrite dec_len_bytes by lia.
  destruct (Z.ltb_spec (Z.of_nat (length (bytes_of s ++ rest))) (Z.of_nat (length s)));
    [rewrite length_app, length_bytes_of in *; lia|].
  rewrite Nat2Z.id, <- (length_bytes_of s). rewrite firstn_app, firstn_all, skipn_app, skipn_all, Nat.sub_diag.
  simpl. now rewrite app_nil_r, text_of_bytes.
Qed.

Lemma dec_field_bytes n v rest : Z.of_nat (length n) < 2 ^ 64 -> Z.of_nat (length v) < 2 ^ 64 ->
  dec_field (lit_bytes n v ++ rest) = Some (n, v, rest).
Proof.
  intros Hn Hv. unfold lit_bytes, dec_field. cbn [app]. rewrite <- !app_assoc.
  now rewrite dec_str_bytes, dec_str_bytes.
Qed.

Definition field_ok (f : text * text) : Prop :=
  Z.of_nat (length (fst f)) < 2 ^ 64 /\ Z.of_nat (length (snd f)) < 2 ^ 64.

Lemma dec_fields_bytes l : Forall field_ok l -> forall fuel, (length l <= fuel)%nat ->
  dec_fields fuel (flat_map (fun f => lit_bytes (fst f) (snd f)) l) = Some l.
Proof.
  induction 1 as [|[n v] l [Hn Hv] Hl IH]; intros fuel Hf; [destruct fuel; reflexivity|].
  destruct fuel as [|f]; [simpl in Hf; lia|]. cbn [flat_map fst snd] in *.
  pose proof (dec_field_bytes n v (flat_map (fun f => lit_bytes (fst f) (snd f)) l) Hn Hv) as Hd.
  cbn [dec_fields]. destruct (lit_bytes n v ++ _) as [|b r] eqn:E; [discriminate|].
  rewrite Hd, IH by (simpl in Hf; lia). reflexivity.
Qed.

(** Whatever fits the buffer is short. *)
Lemma put_str_fits cap buf s buf' : put_str cap buf s = Some buf' -> (length buf' <= cap)%nat.
Proof.
  unfold put_str. destruct (Nat.ltb_spec cap (length buf + length s)); [discriminate|]. intros [= <-].
  rewrite length_app. lia.
Qed.

Lemma hpack_lit_fits cap buf n v buf' : hpack_lit cap buf n v = Some buf' ->
  (length buf' <= cap)%nat /\ (length n <= cap)%nat /\ (length v <= cap)%nat.
Proof.
  intros H. pose proof (hpack_lit_spec _ _ _ _ _ H) as E. unfold hpack_lit in H.
  repeat (apply bind_some in H; destruct H as (? & _ & H)). apply put_str_fits in H.
  split; [assumption|]. rewrite E in H. unfold lit_bytes in H.
  rewrite length_app in H. cbn [length] in H. rewrite !length_app, !length_bytes_of in H. lia.
Qed.

Lemma hpack_fields_fits cap l : forall buf buf', hpack_fields cap buf l = Some buf' -> (length buf <= cap)%nat ->
  (length buf' <= cap)%nat /\ Forall (fun f : text * text => (length (fst f) <= cap)%nat /\ (length (snd f) <= cap)%nat) l.
Proof.
  induction l as [|[n v] l IH]; intros buf buf' H Hb; cbn [hpack_fields] in H.
  - inv H. auto.
  - apply bind_some in H. destruct H as (b & E & H). apply hpack_lit_fits in E. destruct E as (Hl & Hn & Hv).
    destruct (IH _ _ H Hl). auto.
Qed.

End Hpack.

Module H2.
Import Ids Hpack.

Definition H2_DATA : Z := 0.
Definition H2_HEADERS : Z := 1.
Definition H2_RSTSTREAM : Z := 3.
Definition H2_SETTINGS : Z := 4.
Definition H2_PING : Z := 6.
Definition H2_GOAWAY : Z := 7.
Definition H2_FLAG_ACK : Z := 1.
Definition H2_FLAG_END_STREAM : Z := 1.
Definition H2_FLAG_END_HEADERS : Z := 4.

Definition H2_PREFACE : list Z :=
  bytes_of (lit "PRI * HTTP/2.0" ++ Http.crlf ++ Http.crlf ++ lit "SM" ++ Http.crlf ++ Http.crlf).

Definition put_be24 (v : Z) : list Z := [u8 (Z.shiftr v 16); u8 (Z.shiftr v 8); u8 v].
Definition put_be32 (v : Z) : list Z := [u8 (Z.shiftr v 24); u8 (Z.shiftr v 16); u8 (Z.shiftr v 8); u8 v].
Definition get_be24 (p : list Z) : Z :=
  Z.lor (Z.lor (Z.shiftl (nth 0 p 0) 16) (Z.shiftl (nth 1 p 0) 8)) (nth 2 p 0).
Definition get_be32 (p : list Z) : Z :=
  Z.lor (Z.lor (Z.lor (Z.shiftl (nth 0 p 0) 24) (Z.shiftl (nth 1 p 0) 16)) (Z.shiftl (nth 2 p 0) 8)) (nth 3 p 0).

(** The bytes [send_frame] writes: a 9-byte header and [len] bytes of payload. *)
Definition send_frame (len type flags sid : Z) (payload : list Z) : list Z :=
  put_be24 len ++ [type; flags] ++ put_be32 (Z.land sid 0x7fffffff) ++ firstn (Z.to_nat len) payload.

Definition lower (c : ascii) : ascii :=
  if (65 <=? code c) && (code c <=? 90) then chr (code c - 65 + 97) else c.

(** Pseudo-headers, fixed headers, then the configured ones in lower case. *)
Definition request_fields (path authority : text) (gzipped : bool) (hdrs : list otlp_kv_t) : list (text * text) :=
  [(lit ":method", lit "POST"); (lit ":scheme", lit "http"); (lit ":path", path);
   (lit ":authority", authority); (lit "content-type", lit "application/grpc+proto");
   (lit "te", lit "trailers")] ++
  (if gzipped then [(lit "grpc-encoding", lit "gzip")] else []) ++
  map (fun kv => (map lower (trunc 128 (key kv)), val kv)) hdrs.

Definition header_block_cap : nat := 4096.

(** The length-prefixed message of the DATA frame. *)
Definition grpc_message (gzipped : bool) (body : list Z) : list Z :=
  (if gzipped then 1 else 0) :: put_be32 (u32 (Z.of_nat (length body))) ++ body.

(** Everything [otlp_grpc_export] writes before it reads; [None] when the header
    block does not fit. *)
Definition grpc_request (host port path : text) (body : list Z) (gzipped : bool) (hdrs : list otlp_kv_t)
  : option (list Z) :=
  let authority := trunc 300 (host ++ lit ":" ++ port) in
  match hpack_fields header_block_cap [] (request_fields path authority gzipped hdrs) with
  | None => None
  | Some hb =>
      let msg := grpc_message gzipped body in
      Some (H2_PREFACE ++ send_frame 0 H2_SETTINGS 0 0 [] ++
            send_frame (u32 (Z.of_nat (length hb))) H2_HEADERS H2_FLAG_END_HEADERS 1 hb ++
            send_frame (u32 (Z.of_nat (length msg))) H2_DATA H2_FLAG_END_STREAM 1 msg)
  end.

(** ** Frames as a receiver sees them *)

Record frame := mk_frame { f_type : Z; f_flags : Z; f_sid : Z; f_payload : list Z }.

Definition parse_frame (l : list Z) : option (frame * list Z) :=
  if (length l <? 9)%nat then None
  else
    let n := Z.to_nat (get_be24 l) in
    let rest := skipn 9 l in
    if (length rest <? n)%nat then None
    else Some (mk_frame (nth 3 l 0) (nth 4 l 0) (Z.land (get_be32 (skipn 5 l)) 0x7fffffff) (firstn n rest),
               skipn n rest).

Fixpoint parse_frames (fuel : nat) (l : list Z) : option (list frame) :=
  match l with
  | [] => Some []
  | _ =>
      match fuel with
      | O => None
      | S f =>
          match parse_frame l with
          | Some (x, r) => match parse_frames f r with Some fs => Some (x :: fs) | None => None end
          | None => None
          end
      end
  end.

Definition parse_message (l : list Z) : option (bool * list Z) :=
  match l with
  | c :: r =>
      let n := get_be32 r in
      let b := skipn 4 r in
      if (length r <? 4)%nat || negb (Z.of_nat (length b) =? n) then None else Some (c =? 1, b)
  | [] => None
  end.

(** ** The response loop *)

Definition max_payload : Z := 16384.

Record resp := mk_resp { r_ok : bool; r_sent : list (list Z) }.

(** [read_full]: [n] bytes and the rest, or nothing at end of stream. *)
Definition read_full (n : nat) (l : list Z) : option (list Z * list Z) :=
  if (length l <? n)%nat then None else Some (firstn n l, skipn n l).

(** What one received frame does: replies, end of loop, error. *)
Definition on_frame (ftype fflags fsid flen : Z) (payload : list Z) : list (list Z) * bool * bool :=
  if ftype =? H2_SETTINGS then
    (if Z.land fflags H2_FLAG_ACK =? 0 then [send_frame 0 H2_SETTINGS H2_FLAG_ACK 0 []] else [], false, false)
  else if ftype =? H2_PING then
    (if (Z.land fflags H2_FLAG_ACK =? 0) && (flen =? 8) then [send_frame 8 H2_PING H2_FLAG_ACK 0 payload] else [],
     false, false)
  else if ftype =? H2_GOAWAY then ([], true, true)
  else if ftype =? H2_RSTSTREAM then ([], fsid =? 1, fsid =? 1)
  else if (ftype =? H2_HEADERS) || (ftype =? H2_DATA) then
    ([], (fsid =? 1) && negb (Z.land fflags H2_FLAG_END_STREAM =? 0), false)
  else ([], false, false).

(** [while (!done && guard++ < 256)] over the bytes the server sends. *)
Fixpoint response_loop (guard : nat) (input : list Z) : resp :=
  match guard with
  | O => mk_resp false []
  | S g =>
      match read_full 9 input with
      | None => mk_resp false []
      | Some (fh, rest) =>
          let flen := get_be24 fh in
          if max_payload <? flen then response_loop g (skipn (Z.to_nat flen) rest)
          else
            match read_full (Z.to_nat flen) rest with
            | None => mk_resp false []
            | Some (payload, rest') =>
                let '(acks, fin, err) :=
                  on_frame (nth 3 fh 0) (nth 4 fh 0) (Z.land (get_be32 (skipn 5 fh)) 0x7fffffff) flen payload in
                if fin then mk_resp (negb err) acks
                else let r := response_loop g rest' in mk_resp (r_ok r) (acks ++ r_sent r)
            end
      end
  end.

Definition grpc_ok (input : list Z) : resp := response_loop 256 input.

(** ** Framing round trips *)

Lemma lor_byte a b : 0 <= a -> 0 <= b < 256 -> Z.lor (Z.shiftl a 8) b = 256 * a + b.
Proof. intros _ Hb. exact (lor_shiftl 8 a b ltac:(lia) Hb). Qed.

Lemma horner24 a b c : 0 <= a -> 0 <= b < 256 -> 0 <= c < 256 ->
  Z.lor (Z.lor (Z.shiftl a 16) (Z.shiftl b 8)) c = 256 * (256 * a + b) + c.
Proof.
  intros Ha Hb Hc. change 16 with (8 + 8). rewrite <- Z.shiftl_shiftl, <- Z.shiftl_lor by lia.
  rewrite (lor_byte a b), lor_byte by lia. reflexivity.
Qed.

Lemma horner32 a b c d : 0 <= a -> 0 <= b < 256 -> 0 <= c < 256 -> 0 <= d < 256 ->
  Z.lor (Z.lor (Z.lor (Z.shiftl a 24) (Z.shiftl b 16)) (Z.shiftl c 8)) d = 256 * (256 * (256 * a + b) + c) + d.
Proof.
  intros Ha Hb Hc Hd. change 24 with (16 + 8). change 16 with (8 + 8) at 2.
  rewrite <- !Z.shiftl_shiftl, <- !Z.shiftl_lor by lia.
  rewrite horner24, lor_byte by lia. reflexivity.
Qed.

Lemma u8_range v : 0 <= u8 v < 256.
Proof. apply (wrap_range 8). lia. Qed.

Lemma u8_shift v k : 0 <= k -> u8 (Z.shiftr v k) = v / 2 ^ k mod 256.
Proof. intros. unfold wrap. now rewrite Z.shiftr_div_pow2. Qed.

Lemma get_put_be24 v rest : 0 <= v -> get_be24 (put_be24 v ++ rest) = v mod 2 ^ 24.
Proof.
  intros Hv. unfold get_be24, put_be24. cbn [app nth]. rewrite horner24 by apply u8_range.
  rewrite !u8_shift by lia. unfold wrap.
  change (2 ^ 24) with (256 * (256 * 256)). change (2 ^ 16) with (256 * 256). change (2 ^ 8) with 256.
  rewrite !Z.rem_mul_r, Z.div_div by lia. lia.
Qed.

Lemma get_put_be32 v rest : 0 <= v < 2 ^ 32 -> get_be32 (put_be32 v ++ rest) = v.
Proof.
  intros Hv. unfold get_be32, put_be32. cbn [app nth]. rewrite horner32 by apply u8_range.
  rewrite !u8_shift by lia. unfold wrap.
  change (2 ^ 16) with (256 * 256). change (2 ^ 24) with (256 * (256 * 256)). change (2 ^ 8) with 256 in *.
  assert (E : v = v mod (256 * (256 * (256 * 256)))) by (symmetry; apply Z.mod_small; lia).
  rewrite E at 5. rewrite !Z.rem_mul_r, <- !Z.div_div by lia. lia.
Qed.

Lemma parse_send_frame len t fl sid payload rest :
  0 <= len < 2 ^ 24 -> Z.of_nat (length payload) = len -> 0 <= sid < 2 ^ 31 ->
  parse_frame (send_frame len t fl sid payload ++ rest) = Some (mk_frame t fl sid payload, rest).
Proof.
  intros Hl Hp Hs. unfold send_frame.
  assert (Ef : firstn (Z.to_nat len) payload = payload) by (apply firstn_all2; lia). rewrite Ef.
  assert (Esid : Z.land sid 0x7fffffff = sid)
    by (change 0x7fffffff with (Z.ones 31); rewrite Z.land_ones by lia; now apply Z.mod_small).
  rewrite Esid. unfold parse_frame. rewrite <- !app_assoc.
  set (l := put_be24 len ++ [t; fl] ++ put_be32 sid ++ payload ++ rest).
  assert (Eg : get_be24 l = len) by (unfold l; rewrite get_put_be24, Z.mod_small; lia).
  assert (E5 : skipn 5 l = put_be32 sid ++ payload ++ rest) by reflexivity.
  assert (E9 : skipn 9 l = payload ++ rest) by reflexivity.
  assert (L9 : (9 <= length l)%nat) by (unfold l; simpl; lia).
  destruct (Nat.ltb_spec (length l) 9); [lia|]. rewrite Eg, E9, E5.
  destruct (Nat.ltb_spec (length (payload ++ rest)) (Z.to_nat len)); [rewrite length_app in *; lia|].
  rewrite get_put_be32 by lia. rewrite Esid.
  replace (Z.to_nat len) with (length payload) by lia.
  rewrite firstn_app, firstn_all, skipn_app, skipn_all, Nat.sub_diag. simpl. now rewrite app_nil_r.
Qed.

Lemma parse_grpc_message gz body : Z.of_nat (length body) < 2 ^ 32 ->
  parse_message (grpc_message gz body) = Some (gz, body).
Proof.
  intros H. unfold parse_message, grpc_message. rewrite wrap_small by lia.
  rewrite get_put_be32 by lia.
  change (skipn 4 (put_be32 (Z.of_nat (length body)) ++ body)) with body. rewrite Z.eqb_refl.
  destruct (Nat.ltb_spec (length (put_be32 (Z.of_nat (length body)) ++ body)) 4); [simpl in *; lia|].
  now destruct gz.
Qed.

(** What the client sends for a body below 16 MiB is a correct gRPC call: a
    receiver that strips the preface and parses frames finds an empty SETTINGS,
    a HEADERS frame whose block decodes to exactly the intended fields, and a
    final DATA frame carrying exactly the body with its compression flag. *)
Theorem grpc_request_decodes host port path body gz hdrs bytes :
  grpc_request host port path body gz hdrs = Some bytes -> Z.of_nat (length body) + 5 < 2 ^ 24 ->
  exists rest hb msg, bytes = H2_PREFACE ++ rest /\
    parse_frames 3 rest = Some [mk_frame H2_SETTINGS 0 0 []; mk_frame H2_HEADERS H2_FLAG_END_HEADERS 1 hb;
                                mk_frame H2_DATA H2_FLAG_END_STREAM 1 msg] /\
    dec_fields (6 + (if gz then 1 else 0) + length hdrs) hb =
      Some (request_fields path (trunc 300 (host ++ lit ":" ++ port)) gz hdrs) /\
    parse_message msg = Some (gz, body).
Proof.
  unfold grpc_request. set (fs := request_fields path (trunc 300 (host ++ lit ":" ++ port)) gz hdrs).
  destruct (hpack_fields header_block_cap [] fs) as [hb|] eqn:E; [|discriminate]. cbv zeta. intros Heq Hb.
  apply (f_equal (fun o => match o with Some x => x | None => [] end)) in Heq. cbv beta iota in Heq. subst bytes.
  destruct (hpack_fields_fits _ _ _ _ E ltac:(simpl; lia)) as [Hlen Hfit]. apply hpack_fields_spec in E.
  unfold header_block_cap in *. set (msg := grpc_message gz body).
  assert (Lm : Z.of_nat (length msg) = Z.of_nat (length body) + 5)
    by (unfold msg, grpc_message; cbn [length]; rewrite length_app; simpl; lia).
  rewrite (wrap_small 32 (Z.of_nat (length hb))), (wrap_small 32 (Z.of_nat (length msg))) by lia.
  eexists. exists hb, msg. split; [reflexivity|]. split; [|split].
  - assert (P1 : forall r, parse_frame (send_frame 0 H2_SETTINGS 0 0 [] ++ r) = Some (mk_frame H2_SETTINGS 0 0 [], r))
      by (intros; apply parse_send_frame; simpl; lia).
    assert (P2 : forall r, parse_frame (send_frame (Z.of_nat (length hb)) H2_HEADERS H2_FLAG_END_HEADERS 1 hb ++ r) =
      Some (mk_frame H2_HEADERS H2_FLAG_END_HEADERS 1 hb, r)) by (intros; apply parse_send_frame; lia).
    assert (P3 : parse_frame (send_frame (Z.of_nat (length msg)) H2_DATA H2_FLAG_END_STREAM 1 msg) =
      Some (mk_frame H2_DATA H2_FLAG_END_STREAM 1 msg, []))
      by (rewrite <- (app_nil_r (send_frame _ _ _ _ _)); apply parse_send_frame; lia).
    cbn [parse_frames]. rewrite P1.
    assert (N : forall a b c d e r, send_frame a b c d e ++ r <> []) by discriminate.
    destruct (send_frame 0 H2_SETTINGS 0 0 [] ++ _) eqn:E1; [now apply N in E1|clear E1].
    destruct (send_frame (Z.of_nat (length hb)) H2_HEADERS H2_FLAG_END_HEADERS 1 hb ++ _) eqn:E2;
      [now apply N in E2|rewrite <- E2; clear E2]. rewrite P2.
    destruct (send_frame (Z.of_nat (length msg)) H2_DATA H2_FLAG_END_STREAM 1 msg) eqn:E3;
      [discriminate|rewrite P3]. reflexivity.
  - rewrite E, app_nil_l. apply dec_fields_bytes.
    + eapply Forall_impl; [|exact Hfit]. intros f Hf. unfold field_ok. cbn beta in Hf. lia.
    + unfold fs, request_fields. rewrite !length_app, length_map. destruct gz; simpl; lia.
  - apply parse_grpc_message. lia.
Qed.

Lemma grpc_request_decodes_witness :
  exists bytes rest hb msg,
    grpc_request (lit "collector") (lit "4317") (lit "/svc/Export") [1; 2; 3] false
      [mk_kv (lit "X-Token") (lit "abc")] = Some bytes /\ bytes = H2_PREFACE ++ rest /\
    dec_fields 7 hb = Some (request_fields (lit "/svc/Export") (lit "collector:4317") false
                              [mk_kv (lit "X-Token") (lit "abc")]) /\
    parse_message msg = Some (false, [1; 2; 3]).
Proof.
  destruct (grpc_request (lit "collector") (lit "4317") (lit "/svc/Export") [1; 2; 3] false
      [mk_kv (lit "X-Token") (lit "abc")]) as [bytes|] eqn:E; [|vm_compute in E; discriminate].
  destruct (grpc_request_decodes _ _ _ _ _ _ bytes E ltac:(vm_compute; reflexivity))
    as (rest & hb & msg & H1 & _ & H2 & H3).
  exists bytes, rest, hb, msg. auto.
Defined.

(** The length field of a frame is its low 24 bits: a message of 2^24 bytes or
    more goes out with a length that does not match the bytes that follow. *)
Lemma data_frame_length_wraps len t fl sid payload rest : 0 <= len ->
  get_be24 (send_frame len t fl sid payload ++ rest) = len mod 2 ^ 24.
Proof. intros H. unfold send_frame. rewrite <- !app_assoc. now apply get_put_be24. Qed.

(** ** The response, frame by frame *)

Definition enc_frame (f : frame) : list Z :=
  send_frame (Z.of_nat (length (f_payload f))) (f_type f) (f_flags f) (f_sid f) (f_payload f).

Definition frame_ok (f : frame) : Prop :=
  Z.of_nat (length (f_payload f)) <= max_payload /\ 0 <= f_sid f < 2 ^ 31.

(** The stream is complete: HEADERS or DATA with END_STREAM on stream 1. *)
Definition completes (f : frame) : bool :=
  ((f_type f =? H2_HEADERS) || (f_type f =? H2_DATA)) && (f_sid f =? 1) &&
  negb (Z.land (f_flags f) H2_FLAG_END_STREAM =? 0).

(** The server gave up: GOAWAY, or RST_STREAM on stream 1. *)
Definition fails (f : frame) : bool :=
  (f_type f =? H2_GOAWAY) || ((f_type f =? H2_RSTSTREAM) && (f_sid f =? 1)).

Lemma on_frame_decides f acks fin err :
  on_frame (f_type f) (f_flags f) (f_sid f) (Z.of_nat (length (f_payload f))) (f_payload f) = (acks, fin, err) ->
  fin = (completes f || fails f) /\ (fin = true -> err = negb (completes f)).
Proof.
  unfold on_frame, completes, fails, H2_SETTINGS, H2_PING, H2_GOAWAY, H2_RSTSTREAM, H2_HEADERS, H2_DATA.
  destruct (Z.eqb_spec (f_type f) 4) as [->|]; [intros [= <- <- <-]; auto|].
  destruct (Z.eqb_spec (f_type f) 6) as [->|]; [intros [= <- <- <-]; auto|].
  destruct (Z.eqb_spec (f_type f) 7) as [->|]; [intros [= <- <- <-]; auto|].
  destruct (Z.eqb_spec (f_type f) 3) as [->|]; [intros [= <- <- <-]; destruct (f_sid f =? 1); auto|].
  destruct ((f_type f =? 1) || (f_type f =? 0)); intros [= <- <- <-]; cbn [andb orb];
    destruct (f_sid f =? 1); cbn [andb orb]; auto;
    destruct (Z.land (f_flags f) H2_FLAG_END_STREAM =? 0); cbn; auto; discriminate.
Qed.

Lemma header_read l : (9 <= length l)%nat ->
  get_be24 (firstn 9 l) = get_be24 l /\ nth 3 (firstn 9 l) 0 = nth 3 l 0 /\
  nth 4 (firstn 9 l) 0 = nth 4 l 0 /\ get_be32 (skipn 5 (firstn 9 l)) = get_be32 (skipn 5 l).
Proof.
  intros H. do 9 (destruct l as [|? l]; [simpl in H; lia|]). repeat split.
Qed.

(** One turn of the loop on input that starts with a frame of acceptable size. *)
Lemma loop_parsed g l f rest : parse_frame l = Some (f, rest) ->
  get_be24 l = Z.of_nat (length (f_payload f)) -> Z.of_nat (length (f_payload f)) <= max_payload ->
  response_loop (S g) l =
    let '(acks, fin, err) :=
      on_frame (f_type f) (f_flags f) (f_sid f) (Z.of_nat (length (f_payload f))) (f_payload f) in
    if fin then mk_resp (negb err) acks
    else mk_resp (r_ok (response_loop g rest)) (acks ++ r_sent (response_loop g rest)).
Proof.
  intros Hp Hg Hm. unfold parse_frame in Hp. cbv zeta in Hp. rewrite Hg in Hp.
  destruct (Nat.ltb_spec (length l) 9) as [|H9]; [discriminate|].
  destruct (Nat.ltb_spec (length (skipn 9 l)) (Z.to_nat (Z.of_nat (length (f_payload f))))) as [|Hl]; [discriminate|].
  destruct (header_read l H9) as (E1 & E2 & E3 & E4).
  cbn [response_loop]. unfold read_full.
  destruct (Nat.ltb_spec (length l) 9) as [|_]; [lia|]. cbv zeta. rewrite E1, E2, E3, E4, Hg.
  destruct (Z.ltb_spec max_payload (Z.of_nat (length (f_payload f)))) as [|_]; [lia|].
  destruct (Nat.ltb_spec (length (skipn 9 l)) (Z.to_nat (Z.of_nat (length (f_payload f))))) as [|_]; [lia|].
  apply (f_equal (fun o => match o with Some x => x | None => (f, rest) end)) in Hp.
  pose proof (f_equal fst Hp) as Hf. pose proof (f_equal snd Hp) as Hr. cbn [fst snd] in Hf, Hr.
  pose proof (f_equal f_type Hf) as F1. pose proof (f_equal f_flags Hf) as F2.
  pose proof (f_equal f_sid Hf) as F3. pose proof (f_equal f_payload Hf) as F4.
  cbn [f_type f_flags f_sid f_payload] in F1, F2, F3, F4. now rewrite Hr, F1, F2, F3, F4.
Qed.

Lemma loop_frame g f rest : frame_ok f ->
  response_loop (S g) (enc_frame f ++ rest) =
    let '(acks, fin, err) :=
      on_frame (f_type f) (f_flags f) (f_sid f) (Z.of_nat (length (f_payload f))) (f_payload f) in
    if fin then mk_resp (negb err) acks
    else mk_resp (r_ok (response_loop g rest)) (acks ++ r_sent (response_loop g rest)).
Proof.
  intros [Hl Hs]. apply loop_parsed; [| |assumption]; unfold max_payload in Hl; unfold enc_frame.
  - rewrite parse_send_frame; [now destruct f|lia|reflexivity|assumption].
  - unfold send_frame. rewrite <- !app_assoc, get_put_be24, Z.mod_small; lia.
Qed.

(** The call is reported successful exactly when, among the frames the server
    sends (up to 256 of at most 16 KiB), the stream completes on stream 1 before
    any GOAWAY or reset of that stream; running out of input is a failure. *)
Theorem grpc_ok_iff fs : Forall frame_ok fs -> (length fs <= 256)%nat ->
  r_ok (grpc_ok (concat (map enc_frame fs))) = true <->
  exists pre f post, fs = pre ++ f :: post /\ completes f = true /\
    Forall (fun x => completes x = false /\ fails x = false) pre.
Proof.
  unfold grpc_ok. generalize 256%nat as g. intros g Hok. revert g.
  induction Hok as [|f fs Hf Hfs IH]; intros g Hg.
  - split; [|intros ([|x pre] & f & post & E & _); discriminate E]. destruct g; discriminate.
  - destruct g as [|g]; [simpl in Hg; lia|]. cbn [map concat]. rewrite loop_frame by assumption.
    destruct (on_frame _ _ _ _ _) as [[acks fin] err] eqn:E. apply on_frame_decides in E. destruct E as [-> Herr].
    assert (Hneg : completes f = true -> fails f = false).
    { unfold completes, fails. intros H. bools. apply orb_false_iff.
      apply orb_true_iff in H. rewrite !Z.eqb_eq in H.
      destruct H as [->| ->]; split; reflexivity. }
    destruct (completes f) eqn:Ec; cbn [orb].
    + rewrite (Herr eq_refl). split; [|reflexivity]. intros _. exists [], f, fs. auto.
    + destruct (fails f) eqn:Ef.
      * rewrite (Herr eq_refl). split; [discriminate|].
        intros ([|x pre] & f' & post & E & Hc & Hp); injection E as -> ->; [congruence|].
        inv Hp. destruct H1. congruence.
      * cbn [r_ok]. rewrite IH by (simpl in Hg; lia). split.
        -- intros (pre & f' & post & -> & Hc & Hp). exists (f :: pre), f', post. auto.
        -- intros ([|x pre] & f' & post & E & Hc & Hp); injection E as -> ->; [congruence|].
           inv Hp. exists pre, f', post. auto.
Qed.

Lemma grpc_ok_iff_witness :
  r_ok (grpc_ok (concat (map enc_frame [mk_frame H2_SETTINGS 0 0 []; mk_frame H2_HEADERS 4 1 [136];
                                        mk_frame H2_HEADERS 5 1 [64]]))) = true.
Proof.
  apply grpc_ok_iff; [|vm_compute; repeat constructor|].
  - repeat constructor; vm_compute; discriminate || reflexivity.
  - exists [mk_frame H2_SETTINGS 0 0 []; mk_frame H2_HEADERS 4 1 [136]], (mk_frame H2_HEADERS 5 1 [64]), [].
    split; [reflexivity|]. split; [reflexivity|]. repeat constructor.
Defined.

End H2.

(** * One call and the transport choice *)

Module Send.
Import Ids EnvKv Endpoint Post Dispatch Hpack H2.

(** [otlp_grpc_export] on a network: [input] is what the peer sends before it
    closes, fails or times out.  Write 0 stands for the preface and SETTINGS, write 1
    for the HEADERS and DATA frames.  An error, or the value of [*ok]. *)
Definition otlp_grpc_export (getenv : text -> option text) (gzip : list Z -> option (list Z)) (n : net)
  (input : list Z) (host port path : text) (body : list Z) (tls : bool) (max_retries : Z) : post_err + bool :=
  if negb (fst (connect_loop (up n) 0 (retries max_retries))) then inl EConnect
  else if tls && negb (tls_built n) then inl ETlsNotBuilt
  else if tls && negb (tls_handshake n) then inl ETlsHandshake
  else if negb (write_ok n 0) then inl ESend
  else
    let '(gzipped, gb) := match gzip body with Some z => (true, z) | None => (false, body) end in
    match grpc_request host port path gb gzipped (otlp_env_headers getenv 16) with
    | None => inl EHeader
    | Some _ => if negb (write_ok n 1) then inl ESend else inr (r_ok (grpc_ok input))
    end.

(** [otlp_transport_send]: [None] for a transport failure, else the status. *)
Definition otlp_transport_send (getenv : text -> option text) (gzip : list Z -> option (list Z)) (n : net)
  (input : list Z) (endpoint http_path : option text) (grpc_path : text) (content_type : option text)
  (body : list Z) : option Z :=
  match otlp_transport_plan getenv endpoint http_path grpc_path content_type with
  | BadEndpoint | InvalidArgument => None
  | SendGrpc host port path tls =>
      match otlp_grpc_export getenv gzip n input host port path body tls 0 with
      | inl _ => None
      | inr ok => Some (if ok then 200 else 0)
      end
  | SendHttp host port path ct tls =>
      match status (otlp_http_post getenv gzip n host port path ct body tls 0) with
      | inl _ => None
      | inr code => Some code
      end
  end.

End Send.
