(* ===== verification/CgText.v ===== *)
(** * Text utilities of the code generator

    [src/src/codegen_c/spinel_ebpf_cc.c]: template substitution ([tpl_emit]), field
    splitting ([split], [strtok_r] on newlines), the two decoders of the textual
    compiler input ([pct_decode], [cc_unescape]) and the two line cursors
    ([ir_payload], [after_fields]). *)

From S2P Require Import Prelude CText.

(** * Templates *)

Module Template.

(** [TplSlot]: the key, with its surrounding at-signs, and the value. *)
Record TplSlot := mk_slot { s_key : text; s_val : text }.

(** The first slot whose key starts the text: its value, and the text behind the key. *)
Fixpoint match_slot (p : text) (slots : list TplSlot) : option (text * text) :=
  match slots with
  | [] => None
  | sl :: slots' =>
      match strip_prefix (s_key sl) p with
      | Some rest => Some (s_val sl, rest)
      | None => match_slot p slots'
      end
  end.

Fixpoint tpl_loop (fuel : nat) (p : text) (slots : list TplSlot) : text :=
  match fuel with
  | O => []
  | S f =>
      match p with
      | [] => []
      | c :: p' =>
          if Ascii.eqb c "@" then
            match match_slot p slots with
            | Some (rep, rest) => rep ++ tpl_loop f rest slots
            | None => c :: tpl_loop f p' slots
            end
          else c :: tpl_loop f p' slots
      end
  end.

(** Every turn consumes a character, as no key is empty. *)
Definition tpl_emit (tpl : text) (slots : list TplSlot) : text := tpl_loop (S (length tpl)) tpl slots.

(** [tpl_emit_lines]: one entry, without the template's final newline. *)
Definition chomp (s : text) : text :=
  match rev s with
  | c :: r => if Ascii.eqb c "010" then rev r else s
  | [] => s
  end.

Definition tpl_emit_lines (L : list text) (tpl : text) (slots : list TplSlot) : list text :=
  L ++ [chomp (tpl_emit tpl slots)].

(** ** What a template means *)

(** A template as its author writes it: literal stretches and slots. *)
Inductive seg :=
| Lit (s : text)
| Slot (i : nat).

Definition slot_name (sl : TplSlot) (name : text) : Prop := s_key sl = "@"%char :: name ++ ["@"%char] /\ ~ In "@"%char name.

Definition seg_src (slots : list TplSlot) (g : seg) : text :=
  match g with
  | Lit s => s
  | Slot i => s_key (nth i slots (mk_slot [] []))
  end.

Definition seg_out (slots : list TplSlot) (g : seg) : text :=
  match g with
  | Lit s => s
  | Slot i => s_val (nth i slots (mk_slot [] []))
  end.

Definition seg_ok (slots : list TplSlot) (g : seg) : Prop :=
  match g with
  | Lit s => ~ In "@"%char s
  | Slot i => (i < length slots)%nat
  end.

Definition slots_ok (slots : list TplSlot) : Prop :=
  Forall (fun sl => exists name, slot_name sl name) slots /\ NoDup (map s_key slots).

(** A key is no proper prefix of text that starts with another key. *)
Lemma key_prefix a b na nb r : slot_name a na -> slot_name b nb ->
  strip_prefix (s_key a) (s_key b ++ r) <> None -> s_key a = s_key b.
Proof.
  intros [Ea Ha] [Eb Hb]. destruct (strip_prefix (s_key a) (s_key b ++ r)) as [t|] eqn:E; [|congruence].
  intros _. apply strip_prefix_spec in E. rewrite Ea, Eb in *. cbn [app] in E. injection E as E.
  rewrite <- !app_assoc in E. cbn [app] in E.
  pose proof (split_at_app "@" nb r Hb) as S1. rewrite E, (split_at_app "@" na t Ha) in S1. now injection S1 as ->.
Qed.

Lemma match_slot_nth slots i r : slots_ok slots -> (i < length slots)%nat ->
  match_slot (s_key (nth i slots (mk_slot [] [])) ++ r) slots = Some (s_val (nth i slots (mk_slot [] [])), r).
Proof.
  intros [Hn Hd] Hi. revert i Hi. induction slots as [|sl slots IH]; intros i Hi; [simpl in Hi; lia|].
  inv Hn. inv Hd. cbn [match_slot]. destruct i as [|i].
  - cbn [nth]. now replace (strip_prefix (s_key sl) (s_key sl ++ r)) with (Some r) by (symmetry; now apply strip_prefix_spec).
  - cbn [nth]. simpl in Hi. assert (Hin : In (nth i slots (mk_slot [] [])) slots) by (apply nth_In; lia).
    destruct (strip_prefix (s_key sl) (s_key (nth i slots (mk_slot [] [])) ++ r)) eqn:E; [exfalso|apply IH; auto; lia].
    destruct H1 as [na Ha]. destruct (proj1 (Forall_forall _ _) H2 _ Hin) as [nb Hb].
    apply H3. rewrite (key_prefix sl _ na nb r Ha Hb) by congruence. now apply in_map.
Qed.

Lemma tpl_loop_lit s slots : forall f r, ~ In "@"%char s ->
  tpl_loop (length s + f) (s ++ r) slots = s ++ tpl_loop f r slots.
Proof.
  induction s as [|c s IH]; intros f r H; [reflexivity|]. simpl.
  destruct (Ascii.eqb_spec c "@"); [subst; exfalso; apply H; now left|].
  rewrite IH; [reflexivity|]. intros Hin. apply H. now right.
Qed.

Lemma match_slot_shorter p slots v rest : Forall (fun sl => s_key sl <> []) slots ->
  match_slot p slots = Some (v, rest) -> (length rest < length p)%nat.
Proof.
  induction 1 as [|sl slots Hk _ IH]; cbn [match_slot]; [discriminate|].
  destruct (strip_prefix (s_key sl) p) as [r|] eqn:E; [intros [= <- <-]|exact IH].
  apply strip_prefix_spec in E. subst p. rewrite length_app. destruct (s_key sl); [congruence|simpl; lia].
Qed.

Lemma tpl_loop_fuel slots : Forall (fun sl => s_key sl <> []) slots -> forall f1 f2 p,
  (length p < f1)%nat -> (length p < f2)%nat -> tpl_loop f1 p slots = tpl_loop f2 p slots.
Proof.
  intros Hk. induction f1 as [|f1 IH]; intros f2 p H1 H2; [lia|]. destruct f2 as [|f2]; [lia|].
  cbn [tpl_loop]. destruct p as [|c p]; [reflexivity|]. simpl in H1, H2.
  rewrite (IH f2 p) by lia. destruct (Ascii.eqb c "@"); [|reflexivity].
  destruct (match_slot (c :: p) slots) as [[v rest]|] eqn:E; [|reflexivity].
  apply match_slot_shorter in E; [|assumption]. simpl in E. rewrite (IH f2 rest) by lia. reflexivity.
Qed.

Lemma tpl_loop_slot f p slots v rest : match_slot p slots = Some (v, rest) -> hd_error p = Some "@"%char ->
  tpl_loop (S f) p slots = v ++ tpl_loop f rest slots.
Proof. intros Hm Hp. destruct p as [|c p]; [discriminate|]. injection Hp as ->. cbn [tpl_loop]. now rewrite Hm. Qed.

Lemma slots_ok_nonempty slots : slots_ok slots -> Forall (fun sl => s_key sl <> []) slots.
Proof. intros [H _]. eapply Forall_impl; [|exact H]. intros sl (n & -> & _). discriminate. Qed.

(** Substitution is exact and hygienic.  A template written as literal text and
    slots is emitted with each slot replaced by its value, whatever characters the
    values contain (an inserted value is never scanned again), and everything
    else copied verbatim. *)
Theorem tpl_emit_segments slots segs : slots_ok slots -> Forall (seg_ok slots) segs ->
  tpl_emit (concat (map (seg_src slots) segs)) slots = concat (map (seg_out slots) segs).
Proof.
  intros Hs Hg. pose proof (slots_ok_nonempty slots Hs) as Hne. unfold tpl_emit.
  induction Hg as [|g segs Hg _ IH]; [reflexivity|]. cbn [map concat].
  set (r := concat (map (seg_src slots) segs)) in *. rewrite <- IH. destruct g as [s|i]; cbn [seg_src seg_out seg_ok] in *.
  - rewrite <- tpl_loop_lit by assumption. f_equal. rewrite length_app. lia.
  - destruct Hs as [Hn Hd]. destruct (proj1 (Forall_forall _ _) Hn _ (nth_In slots (mk_slot [] []) Hg)) as (n & Hk & _).
    rewrite (tpl_loop_slot _ _ _ _ _ (match_slot_nth slots i r (conj Hn Hd) Hg)) by (rewrite Hk; discriminate || reflexivity).
    f_equal. apply tpl_loop_fuel; [assumption| |lia]. rewrite Hk, length_app. simpl. lia.
Qed.

Definition sample_slots : list TplSlot := [mk_slot (lit "@SIG@") (lit "int f(@UNIT@)"); mk_slot (lit "@UNIT@") (lit "u1")].

Lemma tpl_emit_segments_witness :
  tpl_emit (lit "static @SIG@ { @UNIT@_map; }") sample_slots = lit "static int f(@UNIT@) { u1_map; }".
Proof.
  apply (tpl_emit_segments sample_slots [Lit (lit "static "); Slot 0; Lit (lit " { "); Slot 1; Lit (lit "_map; }")]).
  - split.
    + constructor; [exists (lit "SIG"); split; [reflexivity|simpl; intuition congruence]|].
      constructor; [exists (lit "UNIT"); split; [reflexivity|simpl; intuition congruence]|constructor].
    + simpl. constructor; [simpl; intuition congruence|]. constructor; [simpl; tauto|constructor].
  - repeat constructor; simpl; intuition congruence.
Defined.

End Template.

(** * Splitting *)

Module Fields.

(** [split(s, sep, &out)]: the fields, empty ones included; there is always one. *)
Fixpoint split (s : text) (sep : ascii) : list text :=
  match s with
  | [] => [[]]
  | c :: s' =>
      if Ascii.eqb c sep then [] :: split s' sep
      else match split s' sep with
           | f :: fs => (c :: f) :: fs
           | [] => [[c]]
           end
  end.

Fixpoint join (sep : ascii) (l : list text) : text :=
  match l with
  | [] => []
  | [f] => f
  | f :: l' => f ++ sep :: join sep l'
  end.

Lemma split_nonempty s sep : split s sep <> [].
Proof. destruct s as [|c s]; simpl; [discriminate|]. destruct (Ascii.eqb c sep); [discriminate|]. destruct (split s sep); discriminate. Qed.

Lemma join_cons sep f l : l <> [] -> join sep (f :: l) = f ++ sep :: join sep l.
Proof. destruct l; [congruence|reflexivity]. Qed.

Lemma join_split s sep : join sep (split s sep) = s.
Proof.
  induction s as [|c s IH]; [reflexivity|]. simpl. destruct (Ascii.eqb_spec c sep) as [->|].
  - rewrite join_cons by apply split_nonempty. now rewrite IH.
  - pose proof (split_nonempty s sep). destruct (split s sep) as [|f fs]; [congruence|].
    destruct fs; [simpl in *; congruence|]. rewrite join_cons in * by discriminate. cbn [app]. now rewrite IH.
Qed.

Lemma split_field f sep : ~ In sep f -> split f sep = [f].
Proof.
  induction f as [|c f IH]; intros H; [reflexivity|]. simpl.
  destruct (Ascii.eqb_spec c sep) as [->|]; [exfalso; apply H; now left|].
  rewrite IH; [reflexivity|]. intros Hin. apply H. now right.
Qed.

Lemma split_app f sep s : ~ In sep f -> split (f ++ sep :: s) sep = f :: split s sep.
Proof.
  induction f as [|c f IH]; intros H; simpl; [now rewrite Ascii.eqb_refl|].
  destruct (Ascii.eqb_spec c sep) as [->|]; [exfalso; apply H; now left|].
  rewrite IH; [reflexivity|]. intros Hin. apply H. now right.
Qed.

(** Joining separator-free fields and splitting gives the fields back. *)
Lemma split_join sep l : l <> [] -> Forall (fun f => ~ In sep f) l -> split (join sep l) sep = l.
Proof.
  intros Hne H. induction H as [|f l Hf Hl IH]; [congruence|]. destruct l as [|g l]; [now apply split_field|].
  rewrite join_cons by discriminate. rewrite split_app by assumption. rewrite IH by discriminate. reflexivity.
Qed.

(** Text free of a set of characters. *)
Definition clean (bad : list ascii) (s : text) : Prop := forall x, In x bad -> ~ In x s.

Lemma clean_nil bad : clean bad [].
Proof. intros x _ []. Qed.

Lemma clean_app bad a b : clean bad a -> clean bad b -> clean bad (a ++ b).
Proof. intros Ha Hb x Hx H. apply in_app_or in H. destruct H; [now apply (Ha x)|now apply (Hb x)]. Qed.

Lemma clean_cons bad c s : ~ In c bad -> clean bad s -> clean bad (c :: s).
Proof. intros Hc Hs x Hx [<-|H]; [now apply Hc|now apply (Hs x)]. Qed.

Lemma clean_sub bad bad' s : incl bad bad' -> clean bad' s -> clean bad s.
Proof. intros Hi Hs x Hx. apply Hs. now apply Hi. Qed.

Lemma clean_join bad sep l : ~ In sep bad -> Forall (clean bad) l -> clean bad (join sep l).
Proof.
  intros Hs H. induction H as [|f l Hf Hl IH]; [apply clean_nil|]. destruct l as [|g l]; [exact Hf|].
  rewrite join_cons by discriminate. apply clean_app; [exact Hf|]. now apply clean_cons.
Qed.

Lemma clean_digits bad s : Forall (fun c => is_digit c = true) s -> Forall (fun x => is_digit x = false) bad -> clean bad s.
Proof.
  intros Hs Hb x Hx Hin. pose proof (proj1 (Forall_forall _ _) Hs x Hin).
  pose proof (proj1 (Forall_forall _ _) Hb x Hx). simpl in *. congruence.
Qed.

Lemma clean_dec_u bad n : 0 <= n -> Forall (fun x => is_digit x = false) bad -> clean bad (dec_u n).
Proof. intros Hn. apply clean_digits. now apply dec_u_digits. Qed.

Lemma clean_dec_s bad n : ~ In "-"%char bad -> Forall (fun x => is_digit x = false) bad -> clean bad (dec_s n).
Proof.
  intros Hm Hb. unfold dec_s. destruct (Z.ltb_spec n 0).
  - apply clean_cons; [assumption|]. apply clean_dec_u; [lia|assumption].
  - now apply clean_dec_u.
Qed.

(** The cells of a table: the fields printed, and one empty cell for none. *)
Lemma split_cells {A} sep (f : A -> text) l : Forall (fun x => ~ In sep (f x)) l ->
  split (join sep (map f l)) sep = match l with [] => [[]] | _ => map f l end.
Proof.
  intros H. destruct l as [|x l]; [reflexivity|]. apply split_join; [discriminate|]. now apply Forall_map.
Qed.

(** The tokens of [strtok_r(s, "\n", ...)]: empty lines are skipped. *)
Definition nonempty (s : text) : bool := match s with [] => false | _ => true end.
Definition lines_of (s : text) : list text := filter nonempty (split s "010").

Definition unlines (l : list text) : text := concat (map (fun x => x ++ ["010"%char]) l).

Lemma lines_of_unlines l : Forall (fun x => x <> [] /\ ~ In "010"%char x) l -> lines_of (unlines l) = l.
Proof.
  unfold lines_of. induction 1 as [|x l [Hx Hn] _ IH]; [reflexivity|]. unfold unlines. cbn [map concat].
  rewrite <- app_assoc. cbn [app]. rewrite split_app by assumption. cbn [filter].
  destruct x as [|c x]; [congruence|]. cbn [nonempty]. fold (unlines l). now rewrite IH.
Qed.

(** A file of lines that fit the buffer is read line by line. *)
Definition line_ok (room : nat) (l : text) : Prop := (length l < room)%nat /\ ~ In "010"%char l /\ no_nul l.

Lemma chunks_unlines room ls : Forall (line_ok room) ls -> forall f, (length (unlines ls) <= f)%nat ->
  chunks f room (unlines ls) = map (fun l => l ++ ["010"%char]) ls.
Proof.
  induction 1 as [|l ls (Hl & Hn & Hz) _ IH]; intros f Hf; [destruct f; reflexivity|].
  change (unlines (l :: ls)) with ((l ++ ["010"%char]) ++ unlines ls) in *. rewrite <- app_assoc in *. cbn [app map] in *.
  rewrite length_app in Hf. cbn [length] in Hf. destruct f as [|f]; [lia|].
  cbn [chunks]. destruct (l ++ "010"%char :: unlines ls) as [|c s] eqn:E; [destruct l; discriminate|].
  rewrite <- E, fgets_line by assumption. rewrite cstr_app by assumption. change (cstr ["010"%char]) with ["010"%char].
  f_equal. apply IH. lia.
Qed.

Lemma file_lines_unlines room ls : Forall (line_ok room) ls ->
  file_lines room (unlines ls) = map (fun l => l ++ ["010"%char]) ls.
Proof. intros H. now apply chunks_unlines. Qed.

(** [after_fields(line, tok)]: behind the first [tok] space-separated fields. *)
Fixpoint skip_field (p : text) : text :=
  match p with
  | [] => []
  | c :: p' => if Ascii.eqb c " " then p' else skip_field p'
  end.

Fixpoint after_fields (line : text) (tok : nat) : text :=
  match tok with
  | O => line
  | S n => after_fields (skip_field line) n
  end.

Lemma skip_field_app f r : ~ In " "%char f -> skip_field (f ++ " "%char :: r) = r.
Proof.
  induction f as [|c f IH]; intros H; simpl; [reflexivity|].
  destruct (Ascii.eqb_spec c " ") as [->|]; [exfalso; apply H; now left|]. apply IH. intros Hin. apply H. now right.
Qed.

(** [ir_payload(line, key)]: behind "SA/IA key count ", or NULL. *)
Definition ir_payload (line key : text) : option text :=
  let after := match strip_prefix (lit "SA ") line with Some p => Some p | None => strip_prefix (lit "IA ") line end in
  match after with
  | None => None
  | Some p =>
      match strip_prefix key p with
      | Some (" "%char :: r) => Some (skip_field r)
      | _ => None
      end
  end.

End Fields.

(** * The two decoders *)

Module Decode.

(** [strtol(h, &end, 16)] on a two-character string, when it consumes both: white
    space and signs count as [strtol] counts them. *)
Definition strtol2 (a b : ascii) : option Z :=
  if hexval b <? 0 then None
  else if 0 <=? hexval a then Some (16 * hexval a + hexval b)
  else if (code a =? 32) || ((9 <=? code a) && (code a <=? 13)) then Some (hexval b)
  else if Ascii.eqb a "+" then Some (hexval b)
  else if Ascii.eqb a "-" then Some (- hexval b)
  else None.

Fixpoint pct_buf (s : text) : text :=
  match s with
  | [] => []
  | c :: t =>
      if Ascii.eqb c "%" then
        match t with
        | a :: b :: r =>
            match strtol2 a b with
            | Some v => chr v :: pct_buf r
            | None => c :: pct_buf t
            end
        | _ => c :: pct_buf t
        end
      else c :: pct_buf t
  end.

(** The decoded C string. *)
Definition pct_decode (s : text) : text := cstr (pct_buf s).

(** The character behind a backslash: what it stands for. *)
Definition backslash : ascii := ascii_of_nat 92.

Definition unescape1 (nx : ascii) : text :=
  if Ascii.eqb nx "n" then ["010"%char]
  else if Ascii.eqb nx "t" then ["009"%char]
  else if Ascii.eqb nx "r" then ["013"%char]
  else if Ascii.eqb nx backslash then [backslash]
  else if Ascii.eqb nx dquote then [dquote]
  else if Ascii.eqb nx "0" then ["000"%char]
  else [backslash; nx].

Fixpoint unescape_buf (s : text) : text :=
  match s with
  | [] => []
  | c :: t =>
      let plain :=
        if Ascii.eqb c backslash then
          match t with
          | nx :: r => unescape1 nx ++ unescape_buf r
          | [] => [c]
          end
        else c :: unescape_buf t in
      if Ascii.eqb c "%" then
        match t with
        | a :: b :: r =>
            if (0 <=? hexval a) && (0 <=? hexval b)
            then chr (Z.lor (Z.shiftl (hexval a) 4) (hexval b)) :: unescape_buf r
            else plain
        | _ => plain
        end
      else plain
  end.

Definition cc_unescape (s : text) : text := cstr (unescape_buf s).

(** ** Encoders that percent-escape a set of characters *)

Definition pct (c : ascii) : text := ["%"%char; hexdigit (code c / 16); hexdigit (code c mod 16)].

Definition escape (special : ascii -> bool) (s : text) : text :=
  concat (map (fun c => if special c then pct c else [c]) s).

Lemma escape_cons f c s : escape f (c :: s) = (if f c then pct c else [c]) ++ escape f s.
Proof. reflexivity. Qed.

Lemma code_nibbles c : 0 <= code c / 16 < 16 /\ 0 <= code c mod 16 < 16 /\ code c = 16 * (code c / 16) + code c mod 16.
Proof. pose proof (code_range c). Z.to_euclidean_division_equations. lia. Qed.

Lemma strtol2_pct c : strtol2 (hexdigit (code c / 16)) (hexdigit (code c mod 16)) = Some (code c).
Proof.
  destruct (code_nibbles c) as (H1 & H2 & E). unfold strtol2. rewrite !hexval_hexdigit by assumption.
  destruct (Z.ltb_spec (code c mod 16) 0); [lia|]. destruct (Z.leb_spec 0 (code c / 16)); [|lia]. now rewrite <- E.
Qed.

Lemma pct_buf_escape f s : f "%"%char = true -> pct_buf (escape f s) = s.
Proof.
  intros Hf. induction s as [|c s IH]; [reflexivity|]. rewrite escape_cons. destruct (f c) eqn:E.
  - unfold pct. cbn [app pct_buf]. change (Ascii.eqb "%" "%") with true. cbv iota.
    now rewrite strtol2_pct, IH, chr_code.
  - cbn [app pct_buf]. destruct (Ascii.eqb_spec c "%"); [congruence|]. now rewrite IH.
Qed.

Lemma unescape_buf_escape f s : f "%"%char = true -> f backslash = true -> unescape_buf (escape f s) = s.
Proof.
  intros Hf Hb. induction s as [|c s IH]; [reflexivity|]. rewrite escape_cons. destruct (f c) eqn:E.
  - unfold pct. cbn [app unescape_buf]. change (Ascii.eqb "%" "%") with true. cbv iota.
    destruct (code_nibbles c) as (H1 & H2 & Ec). rewrite !hexval_hexdigit by assumption.
    destruct (Z.leb_spec 0 (code c / 16)); [|lia]. destruct (Z.leb_spec 0 (code c mod 16)); [|lia]. cbn [andb].
    rewrite (lor_shiftl 4) by lia. change (2 ^ 4) with 16. rewrite <- Ec. now rewrite IH, chr_code.
  - cbn [app unescape_buf]. destruct (Ascii.eqb_spec c "%"); [congruence|].
    destruct (Ascii.eqb_spec c backslash); [congruence|]. now rewrite IH.
Qed.

(** An encoded newline is gone. *)
Lemma escape_no_nl f s : f "010"%char = true -> ~ In "010"%char (escape f s).
Proof.
  intros Hf. induction s as [|c s IH]; [intros []|]. rewrite escape_cons. intros Hin. apply in_app_or in Hin.
  destruct Hin as [Hin|Hin]; [|contradiction]. destruct (f c) eqn:E.
  - destruct (code_nibbles c) as (H1 & H2 & _).
    assert (Hx : forall d, 0 <= d < 16 -> hexdigit d <> "010"%char).
    { intros d Hd Heq. pose proof (hexval_hexdigit d Hd) as Hh. rewrite Heq in Hh. vm_compute in Hh. lia. }
    destruct Hin as [Hin|[Hin|[Hin|[]]]]; [discriminate|now apply (Hx _ H1)|now apply (Hx _ H2)].
  - destruct Hin as [->|[]]. congruence.
Qed.

(** Both decoders undo percent-encoding: whatever set of characters the compiler
    chooses to encode -- it has to contain the percent sign, and the backslash for
    the AST dump -- the text it encoded is read back. *)
Theorem decoders_roundtrip f s : f "%"%char = true -> no_nul s ->
  pct_decode (escape f s) = s /\ (f backslash = true -> cc_unescape (escape f s) = s).
Proof.
  intros Hf Hs. unfold pct_decode, cc_unescape. rewrite pct_buf_escape by assumption.
  split; [now apply cstr_id|]. intros Hb. rewrite unescape_buf_escape by assumption. now apply cstr_id.
Qed.

Lemma decoders_roundtrip_witness :
  escape (fun c => Ascii.eqb c "%" || Ascii.eqb c "|") (lit "a|b%c") = lit "a%7cb%25c" /\
  pct_decode (lit "a%7cb%25c") = lit "a|b%c".
Proof.
  split; [reflexivity|].
  refine (proj1 (decoders_roundtrip (fun c => Ascii.eqb c "%" || Ascii.eqb c "|") (lit "a|b%c") eq_refl _)).
  repeat constructor.
Defined.

(** A percent sign followed by a blank or a sign is decoded too: [strtol] accepts
    both before the digit, where [cc_unescape] leaves the text alone. *)
Lemma pct_decode_accepts_sign :
  pct_decode (lit "50% 5") = lit "50" ++ ["005"%char] /\ pct_decode (lit "%-1") = ["255"%char] /\
  cc_unescape (lit "50% 5") = lit "50% 5".
Proof. repeat split; reflexivity. Qed.

End Decode.
