(* ===== verification/OtlpEnrich.v ===== *)
(** * Attribute enrichment ([src/src/runtime/otlp/otlp_enrich.c], [otlp_k8s.c],
      [otlp_cri.c], [otlp_peer.c])

    - [K8s]: a cgroup id is resolved to a path below the cgroup mount, the path to
      the pod it belongs to, and the pod to its names through the uid map.
    - [Cri]: the container name of a cgroup id.
    - [Peer]: the identity of a connection's destination.
    - [Enrich]: the registry and its last-writer-wins merge.

    The file system, the environment and name resolution are parameters. *)

From S2P Require Import Prelude CText OtlpTraces CgText.

Module K8s.
Import Ids Fields.

Record spnl_k8s_pod_t := mk_pod {
  pod_uid : text;
  container_id : text;
  qos : text;
  namespace_ : text;
  pod_name : text;
  deployment : text;
  service : text
}.

Definition pod0 : spnl_k8s_pod_t := mk_pod [] [] [] [] [] [] [].

Definition set_qos q p := mk_pod (pod_uid p) (container_id p) q (namespace_ p) (pod_name p) (deployment p) (service p).
Definition set_uid u p := mk_pod u (container_id p) (qos p) (namespace_ p) (pod_name p) (deployment p) (service p).
Definition set_container c p := mk_pod (pod_uid p) c (qos p) (namespace_ p) (pod_name p) (deployment p) (service p).

Definition hexish (c : ascii) : bool :=
  ((48 <=? code c) && (code c <=? 57)) || ((97 <=? code c) && (code c <=? 102)).

(** The text behind the "pod" that starts the component or follows a dash and is
    followed by a digit of the uid.  A rejected occurrence is skipped whole. *)
Fixpoint find_pod (skip : nat) (before : option ascii) (s : text) : option text :=
  match s with
  | [] => None
  | c :: s' =>
      match skip with
      | S k => find_pod k (Some c) s'
      | O =>
          match strip_prefix (lit "pod") s with
          | Some rest =>
              if (match before with None => true | Some b => Ascii.eqb b "-" end) &&
                 (match rest with a :: _ => hexish a | [] => false end)
              then Some rest
              else find_pod 2 (Some c) s'
          | None => find_pod 0 (Some c) s'
          end
      end
  end.

Definition strip_suffix (comp : text) : text :=
  match split_at_last "." comp with
  | Some (a, b) => if text_eqb b (lit "slice") || text_eqb b (lit "scope") then a else comp
  | None => comp
  end.

Definition is_qos (comp : text) : bool :=
  text_eqb comp (lit "besteffort") || text_eqb comp (lit "burstable") || text_eqb comp (lit "guaranteed").

Definition contains (s p : text) : bool := match strstr s p with Some _ => true | None => false end.

Definition embedded_qos (comp old : text) : text :=
  match old with
  | _ :: _ => old
  | [] =>
      if contains comp (lit "burstable") then lit "burstable"
      else if contains comp (lit "besteffort") then lit "besteffort"
      else if contains comp (lit "guaranteed") then lit "guaranteed"
      else []
  end.

Definition dashes (s : text) : text := map (fun c => if Ascii.eqb c "_" then "-"%char else c) s.

Definition container_of (comp : text) : text :=
  match split_at_last "-" comp with
  | Some (_, id) => if (32 <=? length id)%nat then id else comp
  | None => comp
  end.

(** One component of the path. *)
Definition pod_step (p : spnl_k8s_pod_t) (tok : text) : spnl_k8s_pod_t :=
  let comp := strip_suffix (trunc 512 tok) in
  if is_qos comp then set_qos (trunc 16 comp) p
  else
    match find_pod 0 None comp with
    | Some uid => set_uid (dashes (trunc 40 uid)) (set_qos (embedded_qos comp (qos p)) p)
    | None =>
        match pod_uid p, container_id p with
        | _ :: _, [] => set_container (trunc 68 (container_of comp)) p
        | _, _ => p
        end
    end.

(** The returned flag, and the pod: zeroed when the path is not below kubepods. *)
Definition spnl_k8s_parse_kubepods_path (cgroup_path : text) : bool * spnl_k8s_pod_t :=
  match strstr cgroup_path (lit "kubepods") with
  | None => (false, pod0)
  | Some kp =>
      let p := fold_left pod_step (filter nonempty (split (trunc 1024 kp) "/")) pod0 in
      (match pod_uid p with [] => false | _ => true end, p)
  end.

(** ** The cgroup tree *)

(** [opendir]/[readdir]: the names in a directory; [lstat]: the inode of a path that
    is a directory. *)
Class FileSystem := {
  readdir : text -> option (list text);
  dir_inode : text -> option Z
}.

Section Walk.
Context `{FS : FileSystem}.

Definition is_dot (e : text) : bool := text_eqb e (lit ".") || text_eqb e (lit "..").

Definition entry_path (dir e : text) : text := trunc 1024 (dir ++ "/"%char :: e).

Fixpoint first_some {A B} (f : A -> option B) (l : list A) : option B :=
  match l with
  | [] => None
  | x :: l' => match f x with Some y => Some y | None => first_some f l' end
  end.

(** [fuel] bounds the depth: a path grows at every level and has at most 1023
    characters ([walk_find_exact]). *)
Fixpoint walk_find (fuel : nat) (cgid : Z) (dir : text) : option text :=
  match fuel with
  | O => None
  | S f =>
      match readdir dir with
      | None => None
      | Some es =>
          first_some (fun e =>
            if is_dot e then None
            else
              let path := entry_path dir e in
              match dir_inode path with
              | None => None
              | Some ino => if u64 ino =? cgid then Some (trunc 1024 path) else walk_find f cgid path
              end) es
      end
  end.

Definition max_depth : nat := 1024.

Definition spnl_k8s_lookup_by_cgroup_id (cgid : Z) (cgroup_root : option text) : bool * spnl_k8s_pod_t :=
  let root := match cgroup_root with Some r => r | None => lit "/sys/fs/cgroup" end in
  match walk_find max_depth cgid (trunc 1024 (root ++ lit "/kubepods")) with
  | Some path => spnl_k8s_parse_kubepods_path path
  | None =>
      match walk_find max_depth cgid (trunc 1024 (root ++ lit "/kubepods.slice")) with
      | Some path => spnl_k8s_parse_kubepods_path path
      | None => (false, pod0)
      end
  end.

(** ** The walk finds what is there *)

(** A directory somewhere below [dir]. *)
Inductive below (dir : text) : text -> Prop :=
| below_entry e es : readdir dir = Some es -> In e es -> is_dot e = false ->
    dir_inode (entry_path dir e) <> None -> below dir (entry_path dir e)
| below_deeper e es p : readdir dir = Some es -> In e es -> is_dot e = false ->
    dir_inode (entry_path dir e) <> None -> below (entry_path dir e) p -> below dir p.

(** No directory's path fills the buffer. *)
Definition paths_fit : Prop := forall p, dir_inode p <> None -> (length p < 1023)%nat.

Lemma first_some_in {A B} (f : A -> option B) l y : first_some f l = Some y -> exists x, In x l /\ f x = Some y.
Proof.
  induction l as [|x l IH]; simpl; [discriminate|]. destruct (f x) as [z|] eqn:E.
  - intros H. injection H as <-. eauto.
  - intros H. destruct (IH H) as (x' & Hx & Ey). eauto.
Qed.

Lemma first_some_none {A B} (f : A -> option B) l : first_some f l = None <-> Forall (fun x => f x = None) l.
Proof.
  induction l as [|x l IH]; simpl; [split; auto|]. destruct (f x) as [z|] eqn:E.
  - split; [discriminate|]. intros H. inv H. congruence.
  - rewrite IH. split; [auto|]. now intros H; inv H.
Qed.

Lemma entry_path_fits dir e : paths_fit -> dir_inode (entry_path dir e) <> None ->
  entry_path dir e = dir ++ "/"%char :: e /\ (length dir < length (entry_path dir e) < 1023)%nat.
Proof.
  intros Hf Hd. pose proof (Hf _ Hd) as Hl. unfold entry_path, trunc in *. rewrite length_firstn in Hl.
  rewrite firstn_all2 by lia. split; [reflexivity|]. rewrite length_app in *. cbn [length] in *. lia.
Qed.

Lemma walk_find_sound f cgid dir p : paths_fit -> walk_find f cgid dir = Some p ->
  below dir p /\ option_map (wrap 64) (dir_inode p) = Some cgid.
Proof.
  intros Hf. revert dir; induction f as [|f IH]; intros dir H; cbn [walk_find] in H; [discriminate|].
  destruct (readdir dir) as [es|] eqn:Er; [|discriminate].
  apply first_some_in in H as (e & He & H). destruct (is_dot e) eqn:Ed; [discriminate|].
  destruct (dir_inode (entry_path dir e)) as [ino|] eqn:Ei; [|discriminate].
  assert (Hd : dir_inode (entry_path dir e) <> None) by congruence.
  destruct (Z.eqb_spec (u64 ino) cgid) as [Ec|].
  - injection H as <-. rewrite trunc_id by (specialize (Hf _ Hd); lia).
    split; [eapply below_entry; eauto|]. rewrite Ei. simpl. now f_equal.
  - destruct (IH _ H) as [Hb Hi]. split; [eapply below_deeper; eauto|exact Hi].
Qed.

Lemma walk_find_complete f cgid dir p : paths_fit -> (1024 <= f + length dir)%nat -> (0 < f)%nat -> below dir p ->
  option_map (wrap 64) (dir_inode p) = Some cgid -> walk_find f cgid dir <> None.
Proof.
  intros Hf Hl H0 Hb. revert f Hl H0; induction Hb as [dir e es Hr He Hd Hn|dir e es p Hr He Hd Hn _ IH]; intros [|f] Hl H0 Hi; try lia;
    cbn [walk_find]; rewrite Hr, first_some_none, Forall_forall; intros H; specialize (H e He); rewrite Hd in H;
    destruct (dir_inode (entry_path dir e)) as [ino|] eqn:Ei; try congruence.
  - simpl in Hi. injection Hi as Hi. rewrite Hi, Z.eqb_refl in H. discriminate.
  - destruct (Z.eqb_spec (u64 ino) cgid); [discriminate|].
    assert (Hn' : dir_inode (entry_path dir e) <> None) by congruence.
    destruct (entry_path_fits dir e Hf Hn') as [_ Hlen]. exact (IH f ltac:(lia) ltac:(lia) Hi H).
Qed.

(** Hence the walk over a cgroup tree finds a directory with the given inode
    exactly when there is one. *)
Lemma walk_find_exact cgid dir : paths_fit ->
  match walk_find max_depth cgid dir with
  | Some p => below dir p /\ option_map (wrap 64) (dir_inode p) = Some cgid
  | None => forall p, below dir p -> option_map (wrap 64) (dir_inode p) <> Some cgid
  end.
Proof.
  intros Hf. destruct (walk_find max_depth cgid dir) as [p|] eqn:E; [now apply (walk_find_sound max_depth)|].
  intros p Hb Hi. apply (walk_find_complete max_depth cgid dir p Hf); unfold max_depth; (assumption || lia).
Qed.

End Walk.

(** ** The two spellings of a pod's path *)

Definition hexes (s : text) : Prop := Forall (fun c => hexish c = true) s.

(** A uid: hexadecimal groups separated by dashes.  A container id. *)
Definition uid_ok (u : text) : Prop :=
  (length u < 40)%nat /\ (exists c r, u = c :: r /\ hexish c = true) /\
  Forall (fun c => hexish c = true \/ c = "-"%char) u.

Definition cid_ok (c : text) : Prop := (32 <= length c < 68)%nat /\ hexes c.

Definition underscores (s : text) : text := map (fun c => if Ascii.eqb c "-" then "_"%char else c) s.

Definition class_dir (q : option text) : text := match q with Some q => lit "/" ++ q | None => [] end.

(** [cgroupfs] driver, and [systemd] driver with the containerd runtime. *)
Definition cgroupfs_path (root : text) (q : option text) (uid cid : text) : text :=
  root ++ lit "/kubepods" ++ class_dir q ++ lit "/pod" ++ uid ++ lit "/" ++ cid.

Definition systemd_path (root q uid cid : text) : text :=
  root ++ lit "/kubepods.slice/kubepods-" ++ q ++ lit ".slice/kubepods-" ++ q ++ lit "-pod" ++ underscores uid ++
  lit ".slice/cri-containerd-" ++ cid ++ lit ".scope".

Definition root_ok (root : text) : Prop := strstr (root ++ lit "/kubepods") (lit "kubepods") = Some (lit "kubepods").

Lemma strip_prefix_short p a r : (length p <= length a)%nat ->
  strip_prefix p (a ++ r) = option_map (fun s => s ++ r) (strip_prefix p a).
Proof.
  revert a; induction p as [|x p IH]; intros a Hl; [reflexivity|]. destruct a as [|y a]; [simpl in Hl; lia|].
  cbn [strip_prefix app]. destruct (Ascii.eqb x y); [apply IH; simpl in Hl; lia|reflexivity].
Qed.

Lemma strstr_shorter s p t : strstr s p = Some t -> exists a, s = a ++ t /\ exists r, t = p ++ r.
Proof.
  induction s as [|c s IH]; simpl.
  - destruct (strip_prefix p []) as [r|] eqn:E; [|discriminate]. intros H. injection H as <-.
    apply strip_prefix_spec in E. exists []. split; [reflexivity|now exists r].
  - destruct (strip_prefix p (c :: s)) as [r|] eqn:E.
    + intros H. injection H as <-. apply strip_prefix_spec in E. exists []. split; [reflexivity|now exists r].
    + intros H. destruct (IH H) as (a & -> & Hr). now exists (c :: a).
Qed.

Lemma strstr_app a p r : strstr (a ++ p) p = Some p -> strstr (a ++ p ++ r) p = Some (p ++ r).
Proof.
  induction a as [|c a IH]; intros H.
  - cbn [app]. destruct (p ++ r) as [|x s] eqn:E; cbn [strstr]; rewrite <- E, (proj2 (strip_prefix_spec p (p ++ r) r) eq_refl); reflexivity.
  - cbn [app strstr] in *. rewrite app_comm_cons, app_assoc, strip_prefix_short by (cbn [app length]; rewrite length_app; lia).
    destruct (strip_prefix p (c :: a ++ p)) as [t|] eqn:E.
    + injection H as H. apply (f_equal (@length ascii)) in H. cbn [length] in H. rewrite length_app in H. lia.
    + cbn [app option_map]. rewrite <- app_assoc, E. apply IH, H.
Qed.

Lemma strstr_absent s p c : In c p -> ~ In c s -> strstr s p = None.
Proof.
  intros Hp Hs. destruct (strstr s p) as [t|] eqn:E; [|reflexivity]. exfalso.
  apply strstr_shorter in E as (a & -> & r & ->). apply Hs. rewrite !in_app_iff. auto.
Qed.

Lemma find_pod_none c s b k : In c (lit "pod") -> ~ In c s -> find_pod k b s = None.
Proof.
  intros Hc. revert b k; induction s as [|x s IH]; intros b k Hs; [reflexivity|]. cbn [find_pod].
  assert (Hs' : ~ In c s) by (simpl in Hs; tauto).
  destruct k as [|k]; [|now apply IH].
  destruct (strip_prefix (lit "pod") (x :: s)) as [r|] eqn:E; [|now apply IH].
  apply strip_prefix_spec in E. exfalso. apply Hs. rewrite E, in_app_iff. auto.
Qed.

Lemma split_at_last_app c a b : ~ In c b -> split_at_last c (a ++ c :: b) = Some (a, b).
Proof.
  intros Hb. induction a as [|x a IH]; cbn [app split_at_last]; [|now rewrite IH].
  assert (E : split_at_last c b = None).
  { clear -Hb. induction b as [|x b IH]; [reflexivity|]. cbn [split_at_last]. simpl in Hb. rewrite IH by tauto.
    destruct (Ascii.eqb_spec x c); [subst; tauto|reflexivity]. }
  now rewrite E, Ascii.eqb_refl.
Qed.

Lemma split_at_last_none c s : ~ In c s -> split_at_last c s = None.
Proof.
  induction s as [|x s IH]; intros H; [reflexivity|]. cbn [split_at_last]. simpl in H. rewrite IH by tauto.
  destruct (Ascii.eqb_spec x c); [subst; tauto|reflexivity].
Qed.

(** ** The components *)

Lemma hexish_spec c : hexish c = true -> ~ In c (lit "ghijklmnopqrstuvwxyz._/-").
Proof.
  intros H. cbn. intros Hin. repeat destruct Hin as [<-|Hin]; try discriminate H. exact Hin.
Qed.

Definition absent (bad s : text) : Prop := forall x, In x bad -> ~ In x s.

Lemma hexes_absent bad s : hexes s -> incl bad (lit "ghijklmnopqrstuvwxyz._/-") -> absent bad s.
Proof.
  intros Hs Hb x Hx Hin. unfold hexes in Hs. rewrite Forall_forall in Hs. exact (hexish_spec x (Hs x Hin) (Hb x Hx)).
Qed.

Lemma uid_absent bad u : uid_ok u -> incl bad (lit "ghijklmnopqrstuvwxyz._/") -> absent bad u.
Proof.
  intros (_ & _ & Hu) Hb x Hx Hin. rewrite Forall_forall in Hu. specialize (Hb x Hx).
  destruct (Hu x Hin) as [Hh| ->].
  - apply (hexish_spec x Hh). change (lit "ghijklmnopqrstuvwxyz._/-") with (lit "ghijklmnopqrstuvwxyz._/" ++ ["-"%char]).
    apply in_or_app. now left.
  - cbn in Hb. intuition discriminate.
Qed.

Lemma absent_app bad a b : absent bad a -> absent bad b -> absent bad (a ++ b).
Proof. intros Ha Hb x Hx. rewrite in_app_iff. intros [H|H]; [exact (Ha x Hx H)|exact (Hb x Hx H)]. Qed.

Lemma not_qos comp c : In c comp -> ~ In c (lit "besteffort") -> ~ In c (lit "burstable") -> ~ In c (lit "guaranteed") -> is_qos comp = false.
Proof.
  intros H H1 H2 H3. unfold is_qos. rewrite !orb_false_iff, !text_eqb_neq. repeat split; intros ->; auto.
Qed.

Lemma dashes_underscores u : uid_ok u -> dashes (underscores u) = u.
Proof.
  intros (_ & _ & H). unfold dashes, underscores. rewrite map_map. rewrite <- (map_id u) at 2. apply map_ext_in.
  intros c Hc. rewrite Forall_forall in H. destruct (H c Hc) as [Hh| ->]; [|reflexivity].
  pose proof (hexish_spec c Hh) as Hn. destruct (Ascii.eqb_spec c "-") as [->|]; [reflexivity|].
  destruct (Ascii.eqb_spec c "_") as [->|]; [exfalso; apply Hn; cbn; tauto|reflexivity].
Qed.

Lemma dashes_id u : uid_ok u -> dashes u = u.
Proof.
  intros H. pose proof (uid_absent (lit "_") u H ltac:(intros x [<-|[]]; cbn; tauto)) as Ha.
  unfold dashes. rewrite <- (map_id u) at 2. apply map_ext_in. intros c Hc.
  destruct (Ascii.eqb_spec c "_") as [->|]; [|reflexivity]. exfalso. exact (Ha "_"%char (or_introl eq_refl) Hc).
Qed.

Definition pod_in (q uid cid : text) : spnl_k8s_pod_t := mk_pod uid cid q [] [] [] [].

Lemma strip_suffix_none comp : ~ In "."%char comp -> strip_suffix comp = comp.
Proof. intros H. unfold strip_suffix. now rewrite split_at_last_none. Qed.

Lemma strip_suffix_app comp e : e = lit "slice" \/ e = lit "scope" -> strip_suffix (comp ++ "."%char :: e) = comp.
Proof.
  intros H. unfold strip_suffix. rewrite split_at_last_app by (destruct H as [->| ->]; cbn; intuition discriminate).
  now destruct H as [->| ->].
Qed.

Lemma find_pod_cons b c s : find_pod 0 b (c :: s) =
  match strip_prefix (lit "pod") (c :: s) with
  | Some rest =>
      if (match b with None => true | Some x => Ascii.eqb x "-" end) && (match rest with a :: _ => hexish a | [] => false end)
      then Some rest else find_pod 2 (Some c) s
  | None => find_pod 0 (Some c) s
  end.
Proof. reflexivity. Qed.

Lemma find_pod_here b uid : uid <> [] -> (forall c r, uid = c :: r -> hexish c = true) ->
  b = None \/ b = Some "-"%char -> find_pod 0 b (lit "pod" ++ uid) = Some uid.
Proof.
  intros Hne Hh Hb. change (lit "pod" ++ uid) with ("p"%char :: (lit "od" ++ uid)). rewrite find_pod_cons.
  change ("p"%char :: (lit "od" ++ uid)) with (lit "pod" ++ uid). rewrite (proj2 (strip_prefix_spec (lit "pod") (lit "pod" ++ uid) uid) eq_refl).
  destruct uid as [|c r]; [congruence|]. rewrite (Hh c r eq_refl). destruct Hb as [->| ->]; reflexivity.
Qed.

(** What a component of each kind does. *)
Lemma step_uid p tok comp uid : strip_suffix (trunc 512 tok) = comp -> is_qos comp = false ->
  find_pod 0 None comp = Some uid -> (length uid < 40)%nat ->
  pod_step p tok = set_uid (dashes uid) (set_qos (embedded_qos comp (qos p)) p).
Proof. intros E Hq Hf Hl. unfold pod_step. rewrite E, Hq, Hf, trunc_id by assumption. reflexivity. Qed.

Lemma step_cid q u tok comp cid : strip_suffix (trunc 512 tok) = comp -> is_qos comp = false ->
  find_pod 0 None comp = None -> u <> [] -> container_of comp = cid -> (length cid < 68)%nat ->
  pod_step (pod_in q u []) tok = pod_in q u cid.
Proof.
  intros E Hq Hf Hu Hc Hl. unfold pod_step. rewrite E, Hq, Hf, Hc, trunc_id by assumption.
  destruct u; [congruence|reflexivity].
Qed.

Lemma uid_head u : uid_ok u -> u <> [] /\ forall c r, u = c :: r -> hexish c = true.
Proof. intros (_ & (c & r & -> & Hc) & _). split; [discriminate|]. intros c' r' E. injection E as <- _. exact Hc. Qed.

Lemma underscores_head u : uid_ok u -> underscores u <> [] /\ forall c r, underscores u = c :: r -> hexish c = true.
Proof.
  intros (_ & (c & r & -> & Hc) & _). split; [discriminate|]. intros c' r' E. injection E as <- _.
  destruct (Ascii.eqb_spec c "-"); [subst; discriminate|exact Hc].
Qed.

Lemma length_underscores u : length (underscores u) = length u.
Proof. apply length_map. Qed.

Ltac inclit := let x := fresh in let Hx := fresh in intros x Hx; cbn in Hx |- *; tauto.
Ltac solve_len :=
  repeat (cbn [join app length list_ascii_of_string]; rewrite ?length_app, ?length_underscores); lia.
Ltac notlit := cbn; intuition discriminate.

(** A pod component of the first spelling. *)
Lemma step_pod_cgroupfs q uid : uid_ok uid -> pod_step (pod_in q [] []) (lit "pod" ++ uid) = pod_in q uid [].
Proof.
  intros Hu. destruct (uid_head uid Hu) as [Hne Hh]. pose proof Hu as (Hl & _).
  pose proof (uid_absent (lit "gsut.") uid Hu ltac:(inclit)) as Ha.
  assert (Hp : absent (lit "gsut.") (lit "pod" ++ uid)).
  { apply absent_app; [intros x Hx; cbn in Hx |- *; intuition (subst; discriminate)|exact Ha]. }
  assert (Hlen : (length (lit "pod" ++ uid) < 512)%nat) by (rewrite length_app; change (length (lit "pod")) with 3%nat; lia).
  rewrite (step_uid _ _ (lit "pod" ++ uid) uid).
  - unfold embedded_qos, contains. rewrite (strstr_absent _ (lit "burstable") "u"), (strstr_absent _ (lit "besteffort") "t"),
      (strstr_absent _ (lit "guaranteed") "g") by (try (apply Hp; cbn; tauto); cbn; tauto).
    rewrite dashes_id by assumption. cbn [qos pod_in]. now destruct q.
  - rewrite trunc_id by exact Hlen. apply strip_suffix_none, Hp. cbn. tauto.
  - apply (not_qos _ "p"%char); notlit.
  - apply find_pod_here; auto.
  - exact Hl.
Qed.

Lemma step_cid_plain q u cid : u <> [] -> cid_ok cid -> pod_step (pod_in q u []) cid = pod_in q u cid.
Proof.
  intros Hu [Hl Hx]. pose proof (hexes_absent (lit "psu.-") cid Hx ltac:(inclit)) as Ha.
  apply (step_cid q u cid cid); auto; try lia.
  - rewrite trunc_id by lia. apply strip_suffix_none, Ha. cbn. tauto.
  - destruct cid as [|c r]; [simpl in Hl; lia|]. unfold is_qos. rewrite !orb_false_iff, !text_eqb_neq.
    repeat split; intros E; rewrite E in Ha; (apply (Ha "s"%char); cbn; tauto) || (apply (Ha "u"%char); cbn; tauto).
  - apply (find_pod_none "p"%char); [cbn; tauto|]. apply Ha. cbn. tauto.
  - unfold container_of. now rewrite split_at_last_none by (apply Ha; cbn; tauto).
Qed.

(** The components of the second spelling. *)
Definition systemd_class (q : text) : Prop := q = lit "burstable" \/ q = lit "besteffort".

Lemma step_pod_systemd q uid : systemd_class q -> uid_ok uid ->
  pod_step pod0 (lit "kubepods-" ++ q ++ lit "-pod" ++ underscores uid ++ lit ".slice") = pod_in q uid [].
Proof.
  intros Hq Hu. destruct (underscores_head uid Hu) as [Hne Hh]. pose proof Hu as (Hl & _).
  rewrite (step_uid _ _ (lit "kubepods-" ++ q ++ lit "-" ++ lit "pod" ++ underscores uid) (underscores uid)).
  - rewrite dashes_underscores by assumption.
    destruct Hq as [->| ->]; unfold embedded_qos, contains; [cbn; reflexivity|].
    rewrite (strstr_absent _ (lit "burstable") "l"); [cbn; reflexivity|cbn; tauto|].
    rewrite !in_app_iff. intros H. repeat destruct H as [H|H]; try (revert H; notlit).
    unfold underscores in H. apply in_map_iff in H as (x & E & Hx). pose proof (uid_absent (lit "l") uid Hu ltac:(inclit)) as Ha.
    destruct (Ascii.eqb x "-"); [discriminate|]. subst x. exact (Ha "l"%char ltac:(cbn; tauto) Hx).
  - rewrite trunc_id. 2:{ rewrite !length_app, length_underscores. destruct Hq as [->| ->]; cbn [length lit]; cbn; lia. }
    change (lit "-pod" ++ underscores uid ++ lit ".slice") with (lit "-" ++ lit "pod" ++ underscores uid ++ "."%char :: lit "slice").
    rewrite !app_assoc. apply strip_suffix_app. auto.
  - apply (not_qos _ "k"%char); notlit.
  - destruct Hq as [->| ->]; exact (find_pod_here (Some "-"%char) (underscores uid) Hne Hh (or_intror eq_refl)).
  - now rewrite length_underscores.
Qed.

Lemma step_cid_systemd q u cid : u <> [] -> cid_ok cid ->
  pod_step (pod_in q u []) (lit "cri-containerd-" ++ cid ++ lit ".scope") = pod_in q u cid.
Proof.
  intros Hu [Hl Hx]. pose proof (hexes_absent (lit "p.-") cid Hx ltac:(inclit)) as Ha.
  apply (step_cid q u _ (lit "cri-containerd-" ++ cid)); auto; try lia.
  - rewrite trunc_id by (rewrite !length_app; change (length (lit "cri-containerd-")) with 15%nat; change (length (lit ".scope")) with 6%nat; lia).
    rewrite app_assoc. apply (strip_suffix_app _ (lit "scope")). auto.
  - apply (find_pod_none "p"%char); [cbn; tauto|]. rewrite in_app_iff. intros [H|H]; [revert H; notlit|]. revert H. apply Ha. cbn. tauto.
  - unfold container_of. change (lit "cri-containerd-" ++ cid) with (lit "cri-containerd" ++ "-"%char :: cid).
    rewrite split_at_last_app by (apply Ha; cbn; tauto). now rewrite (proj2 (Nat.leb_le 32 (length cid))) by lia.
Qed.

Lemma kubepods_at root rest : root_ok root ->
  strstr (root ++ lit "/kubepods" ++ rest) (lit "kubepods") = Some (lit "kubepods" ++ rest).
Proof.
  intros H. unfold root_ok in H. change (lit "/kubepods") with (lit "/" ++ lit "kubepods") in *.
  rewrite <- (app_assoc (lit "/")), app_assoc. rewrite app_assoc in H. now apply strstr_app.
Qed.

Lemma tokens_join l : Forall (fun t => t <> [] /\ ~ In "/"%char t) l -> l <> [] ->
  filter nonempty (split (join "/" l) "/") = l.
Proof.
  intros H Hne. rewrite split_join; [|exact Hne|eapply Forall_impl; [|exact H]; now intros t [_ Ht]].
  induction H as [|t l [Ht _] Hl IH]; [reflexivity|]. cbn [filter]. destruct t; [congruence|]. cbn [nonempty].
  f_equal. destruct l; [reflexivity|]. now apply IH.
Qed.

Lemma parse_tokens root rest l p : root_ok root -> lit "kubepods" ++ rest = join "/" l ->
  Forall (fun t => t <> [] /\ ~ In "/"%char t) l -> l <> [] -> (length (join "/" l) < 1024)%nat ->
  fold_left pod_step l pod0 = p -> pod_uid p <> [] ->
  spnl_k8s_parse_kubepods_path (root ++ lit "/kubepods" ++ rest) = (true, p).
Proof.
  intros Hr Ej Hl Hne Hlen Hp Hu. unfold spnl_k8s_parse_kubepods_path. rewrite kubepods_at by assumption.
  rewrite Ej, trunc_id, tokens_join, Hp by assumption. now destruct (pod_uid p).
Qed.

Definition class_ok (q : option text) : Prop :=
  match q with Some q => systemd_class q \/ q = lit "guaranteed" | None => True end.

Lemma seg_ok_lit t : forallb (fun c => negb (Ascii.eqb c "/")) (lit t) = true -> t <> EmptyString -> lit t <> [] /\ ~ In "/"%char (lit t).
Proof.
  intros H Hne. split; [now destruct t|]. intros Hin. rewrite forallb_forall in H. specialize (H _ Hin). discriminate.
Qed.

Lemma seg_ok_app a b : a <> [] /\ ~ In "/"%char a -> ~ In "/"%char b -> a ++ b <> [] /\ ~ In "/"%char (a ++ b).
Proof. intros [Ha Hn] Hb. split; [now destruct a|]. rewrite in_app_iff. tauto. Qed.

Lemma uid_no_slash uid : uid_ok uid -> ~ In "/"%char uid /\ ~ In "/"%char (underscores uid).
Proof.
  intros Hu. pose proof (uid_absent (lit "/") uid Hu ltac:(inclit) "/"%char ltac:(cbn; tauto)) as H.
  split; [exact H|]. unfold underscores. intros Hin. apply in_map_iff in Hin as (x & E & Hx).
  destruct (Ascii.eqb x "-"); [discriminate|congruence].
Qed.

Lemma cid_seg cid : cid_ok cid -> cid <> [] /\ ~ In "/"%char cid.
Proof.
  intros [[Hl _] Hx]. split; [destruct cid; [simpl in Hl; lia|discriminate]|].
  exact (hexes_absent (lit "/") cid Hx ltac:(inclit) "/"%char ltac:(cbn; tauto)).
Qed.

Lemma cgroupfs_parsed root q uid cid : root_ok root -> uid_ok uid -> cid_ok cid -> class_ok q ->
  spnl_k8s_parse_kubepods_path (cgroupfs_path root q uid cid) = (true, pod_in (match q with Some q => q | None => [] end) uid cid).
Proof.
  intros Hr Hu Hc Hq. destruct (uid_head uid Hu) as [Hne _]. destruct (uid_no_slash uid Hu) as [Hus _].
  pose proof (cid_seg cid Hc) as Hcs. pose proof Hu as (Hul & _). pose proof Hc as ([Hcl Hcu] & Hcx). unfold cgroupfs_path.
  assert (Hp : lit "pod" ++ uid <> [] /\ ~ In "/"%char (lit "pod" ++ uid)) by (apply seg_ok_app; [now apply seg_ok_lit|exact Hus]).
  apply (parse_tokens _ _ (lit "kubepods" :: match q with Some q => [q] | None => [] end ++ [lit "pod" ++ uid; cid])); auto.
  - destruct q as [q|]; reflexivity.
  - constructor; [now apply seg_ok_lit|]. destruct q as [q|]; cbn [app]; auto.
    constructor; auto. destruct Hq as [[->| ->]| ->]; now apply seg_ok_lit.
  - discriminate.
  - destruct q as [q|]; [destruct Hq as [[->| ->]| ->]|]; solve_len.
  - cbn [fold_left]. change (pod_step pod0 (lit "kubepods")) with (pod_in [] [] []).
    assert (E : fold_left pod_step (match q with Some q => [q] | None => [] end) (pod_in [] [] []) =
                pod_in (match q with Some q => q | None => [] end) [] [])
      by (destruct q as [q|]; [destruct Hq as [[->| ->]| ->]|]; reflexivity).
    rewrite fold_left_app, E. cbn [fold_left]. rewrite step_pod_cgroupfs by assumption. now apply step_cid_plain.
Qed.

Lemma systemd_parsed root q uid cid : root_ok root -> uid_ok uid -> cid_ok cid -> systemd_class q ->
  spnl_k8s_parse_kubepods_path (systemd_path root q uid cid) = (true, pod_in q uid cid).
Proof.
  intros Hr Hu Hc Hq. destruct (uid_head uid Hu) as [Hne _]. destruct (uid_no_slash uid Hu) as [_ Hus].
  destruct (cid_seg cid Hc) as [Hcn Hcs]. pose proof Hu as (Hul & _). pose proof Hc as ([Hcl Hcu] & _). unfold systemd_path.
  change (lit "/kubepods.slice/kubepods-") with (lit "/kubepods" ++ lit ".slice/kubepods-"). rewrite <- (app_assoc (lit "/kubepods")).
  apply (parse_tokens _ _ [lit "kubepods.slice"; lit "kubepods-" ++ q ++ lit ".slice";
    lit "kubepods-" ++ q ++ lit "-pod" ++ underscores uid ++ lit ".slice"; lit "cri-containerd-" ++ cid ++ lit ".scope"]); auto.
  - destruct Hq as [->| ->]; cbn; rewrite <- !app_assoc; reflexivity.
  - repeat (constructor; [destruct Hq as [->| ->]; (split; [discriminate|]); rewrite ?in_app_iff;
      intros H; repeat destruct H as [H|H]; try (now revert H; notlit); tauto|]). constructor.
  - discriminate.
  - destruct Hq as [->| ->]; solve_len.
  - cbn [fold_left]. change (pod_step pod0 (lit "kubepods.slice")) with pod0.
    assert (E : pod_step pod0 (lit "kubepods-" ++ q ++ lit ".slice") = pod0) by (destruct Hq as [->| ->]; reflexivity).
    rewrite E, step_pod_systemd by assumption. now apply step_cid_systemd.
Qed.

(** Both spellings of a container's cgroup path name its pod.  Below any mount
    point that does not itself contain "kubepods", the path the cgroupfs driver
    makes (with or without a QoS directory) and the one the systemd driver makes
    are resolved to the pod's uid, with dashes, the container id and the QoS class. *)
Theorem kubepods_path_parsed root uid cid : root_ok root -> uid_ok uid -> cid_ok cid ->
  (forall q, class_ok q -> spnl_k8s_parse_kubepods_path (cgroupfs_path root q uid cid) =
     (true, pod_in (match q with Some q => q | None => [] end) uid cid)) /\
  (forall q, systemd_class q -> spnl_k8s_parse_kubepods_path (systemd_path root q uid cid) = (true, pod_in q uid cid)).
Proof. intros Hr Hu Hc. split; intros q Hq; [now apply cgroupfs_parsed|now apply systemd_parsed]. Qed.

Definition sample_uid : text := lit "3f2a-9b".
Definition sample_cid : text := repeat "a"%char 64.

Lemma kubepods_path_parsed_witness :
  spnl_k8s_parse_kubepods_path (systemd_path (lit "/sys/fs/cgroup") (lit "burstable") sample_uid sample_cid) =
  (true, pod_in (lit "burstable") sample_uid sample_cid).
Proof.
  apply (proj2 (kubepods_path_parsed (lit "/sys/fs/cgroup") sample_uid sample_cid ltac:(reflexivity)
    ltac:(split; [cbn; lia|]; split; [do 2 eexists; split; reflexivity|]; repeat (constructor; [auto; fail|]); constructor)
    ltac:(split; [cbn; lia|repeat constructor]))). now left.
Defined.

(** ** Names: the uid map *)

Definition set_names ns nm p := mk_pod (pod_uid p) (container_id p) (qos p) ns nm (deployment p) (service p).
Definition set_deployment d p := mk_pod (pod_uid p) (container_id p) (qos p) (namespace_ p) (pod_name p) d (service p).
Definition set_service s p := mk_pod (pod_uid p) (container_id p) (qos p) (namespace_ p) (pod_name p) (deployment p) s.

Definition placeholder (w : text) : bool := text_eqb w (lit "-").

(** A line that names the pod's uid; any other gives [None]. *)
Definition resolve_line (p : spnl_k8s_pod_t) (line : text) : option spnl_k8s_pod_t :=
  match scan_words [63; 399; 255; 255]%nat line with
  | uid :: nsname :: more =>
      if text_eqb uid (pod_uid p) then
        let p := match split_at "/" nsname with
                 | Some (ns, nm) => set_names (trunc 128 ns) (trunc 256 nm) p
                 | None => set_names (namespace_ p) (trunc 256 nsname) p
                 end in
        let p := match more with
                 | depl :: _ => if placeholder depl then p else set_deployment (trunc 256 depl) p
                 | [] => p
                 end in
        Some (match more with
              | _ :: svc :: _ => if placeholder svc then p else set_service (trunc 256 svc) p
              | _ => p
              end)
      else None
  | _ => None
  end.

(** [uidmap]: the content of the file, if it can be opened. *)
Definition spnl_k8s_resolve_name (p : spnl_k8s_pod_t) (uidmap : option text) : bool * spnl_k8s_pod_t :=
  match pod_uid p, uidmap with
  | _ :: _, Some f =>
      match first_some (resolve_line p) (file_lines 639 f) with
      | Some p' => (true, p')
      | None => (false, p)
      end
  | _, _ => (false, p)
  end.

(** [PUT]: non-empty values while there is room. *)
Definition put_attrs (kvs : list (text * text)) (max : nat) : list otlp_kv_t :=
  firstn max (map (fun kv => mk_kv (trunc 128 (fst kv)) (trunc 512 (snd kv))) (filter (fun kv => nonempty (snd kv)) kvs)).

Definition spnl_k8s_fill_attrs (p : spnl_k8s_pod_t) (max : nat) : list otlp_kv_t :=
  put_attrs [(lit "k8s.namespace.name", namespace_ p); (lit "k8s.pod.name", pod_name p); (lit "k8s.pod.uid", pod_uid p);
             (lit "k8s.container.name", container_id p); (lit "k8s.deployment.name", deployment p);
             (lit "k8s.service.name", service p)] max.

Definition spnl_k8s_enrich_attrs `{FileSystem} (cgid : Z) (root : option text) (uidmap_file : option (option text)) (max : nat)
  : list otlp_kv_t :=
  match spnl_k8s_lookup_by_cgroup_id cgid root with
  | (true, p) =>
      let p := match uidmap_file with Some f => snd (spnl_k8s_resolve_name p f) | None => p end in
      spnl_k8s_fill_attrs p max
  | (false, _) => []
  end.

(** A row of the map as kubectl's output is rewritten into it. *)
Record uid_row := mk_row { r_uid : text; r_ns : text; r_name : text; r_depl : text; r_svc : text }.

Definition row_line (r : uid_row) : text :=
  r_uid r ++ lit " " ++ r_ns r ++ lit "/" ++ r_name r ++ lit " " ++ r_depl r ++ lit " " ++ r_svc r.

Definition row_ok (r : uid_row) : Prop :=
  word_ok 63 (r_uid r) /\ word_ok 127 (r_ns r) /\ word_ok 255 (r_name r) /\ word_ok 255 (r_depl r) /\ word_ok 255 (r_svc r) /\
  ~ In "/"%char (r_ns r) /\ line_ok 639 (row_line r).

Definition named_by (p : spnl_k8s_pod_t) (r : uid_row) : spnl_k8s_pod_t :=
  let col w old := if placeholder w then old else w in
  mk_pod (pod_uid p) (container_id p) (qos p) (r_ns r) (r_name r) (col (r_depl r) (deployment p)) (col (r_svc r) (service p)).

Lemma word_app_ok a b n m : word_ok n a -> Forall (fun c => is_space c = false) b -> (length b <= m)%nat -> word_ok (n + m) (a ++ b).
Proof.
  intros (Hne & Hl & Hs) Hb Hm. split; [now destruct a|]. split; [rewrite length_app; lia|]. now apply Forall_app.
Qed.

Lemma row_words r : row_ok r -> scan_words [63; 399; 255; 255]%nat (row_line r ++ ["010"%char]) =
  [r_uid r; r_ns r ++ lit "/" ++ r_name r; r_depl r; r_svc r].
Proof.
  intros (Hu & Hn & Hm & Hd & Hs & _). unfold row_line. rewrite <- !app_assoc. cbn [scan_words].
  assert (H1 : Forall (fun c => is_space c = true) (lit " ")) by (repeat constructor).
  assert (Hnm : word_ok 399 (r_ns r ++ lit "/" ++ r_name r)).
  { destruct Hm as (_ & Hml & Hms). apply (word_app_ok _ _ 127 272); [exact Hn|apply Forall_app; split; [repeat constructor|exact Hms]|].
    rewrite length_app. change (length (lit "/")) with 1%nat. lia. }
  rewrite scan_word_now by (assumption || reflexivity).
  rewrite (app_assoc (lit "/")), (app_assoc (r_ns r)).
  rewrite (scan_word_app 399 (lit " ")) by (assumption || reflexivity).
  rewrite (scan_word_app 255 (lit " ")) by (assumption || reflexivity).
  rewrite (scan_word_app 255 (lit " ")) by (assumption || reflexivity). reflexivity.
Qed.

Lemma resolve_row p r : row_ok r ->
  resolve_line p (row_line r ++ ["010"%char]) = if text_eqb (r_uid r) (pod_uid p) then Some (named_by p r) else None.
Proof.
  intros H. unfold resolve_line. rewrite row_words by assumption. destruct H as (_ & Hn & Hm & Hd & Hs & Hsl & _).
  destruct (text_eqb _ _); [|reflexivity]. change (r_ns r ++ lit "/" ++ r_name r) with (r_ns r ++ "/"%char :: r_name r).
  rewrite split_at_app by assumption. destruct Hn as (_ & ? & _), Hm as (_ & ? & _), Hd as (_ & ? & _), Hs as (_ & ? & _).
  rewrite !trunc_id by lia. unfold named_by. now destruct (placeholder (r_depl r)), (placeholder (r_svc r)).
Qed.

(** The uid map resolves a pod with its first row for that uid, if there is one. *)
Lemma uidmap_resolves p rows : pod_uid p <> [] -> Forall row_ok rows ->
  spnl_k8s_resolve_name p (Some (unlines (map row_line rows))) =
  match find (fun r => text_eqb (r_uid r) (pod_uid p)) rows with
  | Some r => (true, named_by p r)
  | None => (false, p)
  end.
Proof.
  intros Hu Hr. unfold spnl_k8s_resolve_name. destruct (pod_uid p) as [|c u] eqn:E; [congruence|]. rewrite <- E.
  rewrite file_lines_unlines by (apply Forall_map; eapply Forall_impl; [|exact Hr]; intros r H; apply H).
  rewrite map_map. clear Hu E. induction Hr as [|r rows Hr _ IH]; [reflexivity|].
  cbn [map first_some find]. rewrite resolve_row by assumption. destruct (text_eqb (r_uid r) (pod_uid p)); [reflexivity|exact IH].
Qed.

End K8s.

(** * Container names ([otlp_cri.c]) *)

Module Cri.
Import Ids Fields.

(** [g_inited] and [g_map]. *)
Record cri_state := mk_cri { c_inited : Z; c_map : list (Z * text) }.

Definition cri0 : cri_state := mk_cri (-1) [].

Definition map_add (cgid : Z) (name : text) (m : list (Z * text)) : list (Z * text) := m ++ [(cgid, trunc 256 name)].

(** [sscanf(line, "%llu %255s")] *)
Definition cri_line (m : list (Z * text)) (line : text) : list (Z * text) :=
  match scan_llu line with
  | Some (cgid, r) =>
      match scan_word 255 r with
      | Some (name, _) => if cgid =? 0 then m else map_add cgid name m
      | None => m
      end
  | None => m
  end.

Section Env.
(** The value of [SPNL_K8S_CRIMAP] and the contents of files. *)
Variable crimap : option text.
Variable fopen : text -> option text.

Definition lazy_init (st : cri_state) : cri_state :=
  if 0 <=? c_inited st then st
  else
    match crimap with
    | Some ((_ :: _) as path) =>
        mk_cri 1 (match fopen path with
                  | Some f => fold_left cri_line (file_lines 511 f) (c_map st)
                  | None => c_map st
                  end)
    | _ => mk_cri 0 (c_map st)
    end.

Definition spnl_cri_lookup (cgid : Z) (cap : nat) (st : cri_state) : option text * cri_state :=
  if cgid =? 0 then (None, st)
  else
    let st := lazy_init st in
    if negb (c_inited st =? 1) then (None, st)
    else (option_map (fun e => trunc cap (snd e)) (find (fun e => fst e =? cgid) (c_map st)), st).

Definition spnl_cri_enrich_attrs (cgid : Z) (max : nat) (st : cri_state) : list otlp_kv_t * cri_state :=
  match max with
  | O => ([], st)
  | _ =>
      let '(r, st) := spnl_cri_lookup cgid 256 st in
      match r with
      | Some ((_ :: _) as name) => ([mk_kv (lit "k8s.container.name") (trunc 512 name)], st)
      | _ => ([], st)
      end
  end.

(** The map is read once: every later lookup sees the same table. *)
Lemma lazy_init_idempotent st : lazy_init (lazy_init st) = lazy_init st.
Proof.
  unfold lazy_init at 2 3. destruct (Z.leb_spec 0 (c_inited st)).
  - unfold lazy_init. now rewrite (proj2 (Z.leb_le _ _)) by assumption.
  - destruct crimap as [[|c p]|]; reflexivity.
Qed.

End Env.

(** A row of the map: a cgroup id and a name. *)
Definition cri_row (r : Z * text) : text := dec_u (fst r) ++ lit " " ++ snd r.
Definition cri_row_ok (r : Z * text) : Prop := 0 < fst r < 2 ^ 64 /\ word_ok 255 (snd r) /\ line_ok 511 (cri_row r).

Lemma cri_line_row m r : cri_row_ok r -> cri_line m (cri_row r ++ ["010"%char]) = m ++ [r].
Proof.
  intros (Hc & Hw & _). destruct r as [cgid name]. unfold cri_line, cri_row in *. cbn [fst snd] in *.
  rewrite <- !app_assoc, scan_llu_dec by (reflexivity || lia).
  rewrite (scan_word_app 255 (lit " ")) by (assumption || reflexivity || (repeat constructor)).
  destruct (Z.eqb_spec cgid 0); [lia|]. unfold map_add. destruct Hw as (_ & Hl & _). now rewrite trunc_id by lia.
Qed.

(** Reading the printed rows gives the rows. *)
Lemma cri_map_read rows : Forall cri_row_ok rows -> forall m,
  fold_left cri_line (file_lines 511 (unlines (map cri_row rows))) m = m ++ rows.
Proof.
  intros H. rewrite file_lines_unlines, map_map by (apply Forall_map; eapply Forall_impl; [|exact H]; intros r Hr; apply Hr).
  induction H as [|r rows Hr _ IH]; intros m; [now rewrite app_nil_r|].
  cbn [map fold_left]. rewrite cri_line_row, IH, <- app_assoc by assumption. reflexivity.
Qed.

End Cri.

(** * Destinations ([otlp_peer.c]) *)

Module Peer.
Import Ids Fields.

Inductive peer_kind := SPNL_PEER_NONE | SPNL_PEER_POD | SPNL_PEER_SERVICE | SPNL_PEER_EXTERNAL | SPNL_PEER_LOOPBACK | SPNL_PEER_CLUSTER.

Record spnl_peer_t := mk_peer { p_kind : peer_kind; p_address : text; p_namespace : text; p_name : text; p_hostname : text }.

Definition peer0 : spnl_peer_t := mk_peer SPNL_PEER_NONE [] [] [] [].

Record peer_ent_t := mk_ent { e_ip : text; e_kind : peer_kind; e_ns : text; e_name : text }.

(** [inet_pton(AF_INET, ...)]: four decimal octets, without leading zeros; the
    address in host order. *)
Definition octet (f : text) : option Z :=
  match f with
  | [] => None
  | c :: r =>
      if negb (forallb is_digit f) then None
      else if Ascii.eqb c "0" && nonempty r then None
      else if 255 <? dec_val f then None
      else Some (dec_val f)
  end.

Definition inet_pton4 (s : text) : option Z :=
  match map octet (split s ".") with
  | [Some a; Some b; Some c; Some d] => Some (((a * 256 + b) * 256 + c) * 256 + d)
  | _ => None
  end.

Definition parse_cidr (s : text) : option (Z * Z) :=
  match s with
  | [] => None
  | _ =>
      let buf := trunc 64 s in
      let '(addr, prefix) := match split_at "/" buf with Some (a, p) => (a, atoi_int p) | None => (buf, 32) end in
      if (prefix <? 0) || (32 <? prefix) then None
      else
        match inet_pton4 addr with
        | None => None
        | Some a =>
            let m := if prefix =? 0 then 0 else u32 (Z.shiftl 0xFFFFFFFF (32 - prefix)) in
            Some (Z.land a m, m)
        end
  end.

Definition unwrap_v4mapped (addr : text) (cap : nat) : text :=
  match (if has_prefix (lit "::ffff:") addr || has_prefix (lit "::FFFF:") addr
         then match split_at "." (skipn 7 addr) with Some _ => Some (skipn 7 addr) | None => None end
         else None) with
  | Some a => trunc cap a
  | None => trunc cap addr
  end.

Definition is_loopback (addr : text) : bool := has_prefix (lit "127.") addr || text_eqb addr (lit "::1").

Record peer_state := mk_pstate {
  p_inited : Z;
  p_map : list peer_ent_t;
  pod_cidr : option (Z * Z);
  svc_cidr : option (Z * Z);
  rdns : bool;
  cache : list (text * text)
}.

Definition peer_state0 : peer_state := mk_pstate (-1) [] None None false [].

Definition map_add (ip kind ns name : text) (m : list peer_ent_t) : list peer_ent_t :=
  m ++ [mk_ent (trunc 46 ip) (if text_eqb kind (lit "service") then SPNL_PEER_SERVICE else SPNL_PEER_POD) (trunc 128 ns) (trunc 256 name)].

Definition peer_line (m : list peer_ent_t) (line : text) : list peer_ent_t :=
  match scan_words [45; 15; 127; 255]%nat line with
  | [ip; kind; ns; name] => map_add ip kind ns name m
  | _ => m
  end.

Section Env.
(** [getenv], the contents of files and the reverse lookup of an IPv4 address. *)
Variable getenv : text -> option text.
Variable fopen : text -> option text.
Variable getnameinfo : text -> option text.

Definition env_or (name : text) (default : text) : text :=
  match getenv name with Some ((_ :: _) as v) => v | _ => default end.

Definition truthy (v : option text) : bool :=
  match v with
  | Some (c :: _) => Ascii.eqb c "1" || Ascii.eqb c "y" || Ascii.eqb c "Y" || Ascii.eqb c "t" || Ascii.eqb c "T"
  | _ => false
  end.

Definition lazy_init (st : peer_state) : peer_state :=
  if 0 <=? p_inited st then st
  else
    match getenv (lit "SPNL_K8S_IPMAP") with
    | Some ((_ :: _) as path) =>
        mk_pstate 1
          (match fopen path with Some f => fold_left peer_line (file_lines 639 f) (p_map st) | None => p_map st end)
          (parse_cidr (env_or (lit "SPNL_K8S_POD_CIDR") (lit "10.42.0.0/16")))
          (parse_cidr (env_or (lit "SPNL_K8S_SVC_CIDR") (lit "10.43.0.0/16")))
          (truthy (getenv (lit "SPNL_K8S_PEER_RDNS"))) (cache st)
    | _ => mk_pstate 0 (p_map st) (pod_cidr st) (svc_cidr st) (rdns st) (cache st)
    end.

Definition set_cache c st := mk_pstate (p_inited st) (p_map st) (pod_cidr st) (svc_cidr st) (rdns st) c.

(** The name, empty if there is none, and the cache of at most 256 names. *)
Definition rdns_cached (addr : text) (st : peer_state) : text * peer_state :=
  match find (fun e => text_eqb (fst e) addr) (cache st) with
  | Some (_, host) => (host, st)
  | None =>
      let host := match inet_pton4 addr with
                  | Some _ => match getnameinfo addr with Some h => trunc 256 h | None => [] end
                  | None => []
                  end in
      if (length (cache st) <? 256)%nat then (trunc 256 host, set_cache (cache st ++ [(trunc 46 addr, trunc 256 host)]) st)
      else (trunc 256 host, st)
  end.

Definition in_cidr (c : option (Z * Z)) (h : Z) : bool :=
  match c with Some (base, mask) => Z.land h mask =? base | None => false end.

Definition spnl_peer_classify (addr : text) (st : peer_state) : spnl_peer_t * peer_state :=
  let st := lazy_init st in
  if negb (p_inited st =? 1) || negb (nonempty addr) then (peer0, st)
  else
    let a := unwrap_v4mapped addr 46 in
    if is_loopback a then (mk_peer SPNL_PEER_LOOPBACK a [] [] [], st)
    else
      match find (fun e => text_eqb (e_ip e) a) (p_map st) with
      | Some e => (mk_peer (e_kind e) a (trunc 128 (e_ns e)) (trunc 256 (e_name e)) [], st)
      | None =>
          match inet_pton4 a with
          | Some h =>
              if in_cidr (pod_cidr st) h || in_cidr (svc_cidr st) h then (mk_peer SPNL_PEER_CLUSTER a [] [] [], st)
              else if rdns st then
                let '(hn, st) := rdns_cached a st in (mk_peer SPNL_PEER_EXTERNAL a [] [] (trunc 256 hn), st)
              else (mk_peer SPNL_PEER_EXTERNAL a [] [] [], st)
          | None => (mk_peer SPNL_PEER_EXTERNAL a [] [] [], st)
          end
      end.

Definition spnl_peer_fill_attrs (p : spnl_peer_t) (max : nat) : list otlp_kv_t :=
  match p_kind p with
  | SPNL_PEER_POD => K8s.put_attrs [(lit "peer.k8s.pod.name", p_name p); (lit "peer.k8s.namespace.name", p_namespace p)] max
  | SPNL_PEER_SERVICE => K8s.put_attrs [(lit "peer.k8s.service.name", p_name p); (lit "peer.k8s.namespace.name", p_namespace p)] max
  | SPNL_PEER_EXTERNAL => K8s.put_attrs [(lit "network.peer.external", lit "true"); (lit "peer.hostname", p_hostname p)] max
  | _ => []
  end.

Definition spnl_peer_enrich_attrs (addr : text) (max : nat) (st : peer_state) : list otlp_kv_t * peer_state :=
  match max with
  | O => ([], st)
  | _ =>
      let st := lazy_init st in
      if negb (p_inited st =? 1) || negb (nonempty addr) then ([], st)
      else let '(p, st) := spnl_peer_classify addr st in (spnl_peer_fill_attrs p max, st)
  end.

End Env.

(** ** IPv4 addresses *)

Definition byte_of (h k : Z) : Z := h / 2 ^ (8 * k) mod 256.

Definition ip_text (h : Z) : text :=
  dec_u (byte_of h 3) ++ lit "." ++ dec_u (byte_of h 2) ++ lit "." ++ dec_u (byte_of h 1) ++ lit "." ++ dec_u (byte_of h 0).

Lemma byte_of_range h k : 0 <= byte_of h k < 256.
Proof. apply Z.mod_pos_bound. lia. Qed.

Lemma no_dot n : 0 <= n -> ~ In "."%char (dec_u n).
Proof. intros H. apply (clean_dec_u (lit ".") n H ltac:(repeat constructor)). cbn. tauto. Qed.

Lemma octet_dec n : 0 <= n < 256 -> octet (dec_u n) = Some n.
Proof.
  intros H. pose proof (dec_u_digits n ltac:(lia)) as Hd. pose proof (dec_val_dec_u n ltac:(lia)) as Hv.
  unfold octet. destruct (dec_u n) as [|c r] eqn:E; [now destruct (dec_u_nonempty n)|].
  rewrite (proj2 (forallb_forall _ _) (proj1 (Forall_forall _ _) Hd)), Hv. cbn [negb].
  destruct (Z.ltb_spec 255 n); [lia|]. destruct (Z.eq_dec n 0) as [E0|Hn].
  - assert (r = []) by (rewrite E0 in E; change (dec_u 0) with ["0"%char] in E; congruence). subst r. now rewrite andb_false_r.
  - pose proof (dec_u_head n c r ltac:(lia) E) as Hc. apply Ascii.eqb_neq in Hc. now rewrite Hc.
Qed.

Lemma ip_fields h : split (ip_text h) "." = [dec_u (byte_of h 3); dec_u (byte_of h 2); dec_u (byte_of h 1); dec_u (byte_of h 0)].
Proof.
  unfold ip_text. cbn [list_ascii_of_string app].
  rewrite !split_app by (apply no_dot; apply byte_of_range). rewrite split_field by (apply no_dot; apply byte_of_range). reflexivity.
Qed.

Lemma bytes_value h : 0 <= h < 2 ^ 32 -> ((byte_of h 3 * 256 + byte_of h 2) * 256 + byte_of h 1) * 256 + byte_of h 0 = h.
Proof.
  intros H. unfold byte_of. change (2 ^ (8 * 3)) with (256 * 256 * 256). change (2 ^ (8 * 2)) with (256 * 256).
  change (2 ^ (8 * 1)) with 256. change (2 ^ (8 * 0)) with 1. change (2 ^ 32) with (256 * 256 * 256 * 256) in H.
  rewrite Z.div_1_r, <- !Z.div_div by lia.
  pose proof (Z.div_mod h 256 ltac:(lia)). pose proof (Z.div_mod (h / 256) 256 ltac:(lia)).
  pose proof (Z.div_mod (h / 256 / 256) 256 ltac:(lia)).
  rewrite (Z.mod_small (h / 256 / 256 / 256)); [lia|].
  split; [repeat apply Z.div_pos; lia|]. repeat apply Z.div_lt_upper_bound; lia.
Qed.

Lemma inet_pton4_ip h : 0 <= h < 2 ^ 32 -> inet_pton4 (ip_text h) = Some h.
Proof.
  intros H. unfold inet_pton4. rewrite ip_fields. cbn [map]. rewrite !octet_dec by apply byte_of_range.
  f_equal. now apply bytes_value.
Qed.

Lemma ip_length h : (length (ip_text h) <= 35)%nat.
Proof.
  unfold ip_text. rewrite !length_app. cbn [length list_ascii_of_string].
  pose proof (length_dec_u_pow (byte_of h 3) 8 (byte_of_range h 3)). pose proof (length_dec_u_pow (byte_of h 2) 8 (byte_of_range h 2)).
  pose proof (length_dec_u_pow (byte_of h 1) 8 (byte_of_range h 1)). pose proof (length_dec_u_pow (byte_of h 0) 8 (byte_of_range h 0)). lia.
Qed.

Lemma ip_clean h bad : ~ In "."%char bad -> Forall (fun x => is_digit x = false) bad -> clean bad (ip_text h).
Proof.
  intros Hd Hb. unfold ip_text. cbn [list_ascii_of_string app].
  repeat (apply clean_app; [apply clean_dec_u; [apply byte_of_range|exact Hb]|apply clean_cons; [exact Hd|]]).
  apply clean_dec_u; [apply byte_of_range|exact Hb].
Qed.

Lemma has_prefix_in p s c : In c p -> ~ In c s -> has_prefix p s = false.
Proof.
  intros Hp Hs. unfold has_prefix. destruct (strip_prefix p s) as [r|] eqn:E; [|reflexivity].
  apply strip_prefix_spec in E. exfalso. apply Hs. rewrite E, in_app_iff. auto.
Qed.

Lemma has_prefix_app p s : has_prefix p (p ++ s) = true.
Proof. unfold has_prefix. now rewrite (proj2 (strip_prefix_spec p (p ++ s) s) eq_refl). Qed.

(** Both spellings of an address are reduced to the plain one. *)
Definition spells (h : Z) (a : text) : Prop := a = ip_text h \/ a = lit "::ffff:" ++ ip_text h \/ a = lit "::FFFF:" ++ ip_text h.

Lemma unwrap_spelling h a : spells h a -> unwrap_v4mapped a 46 = ip_text h.
Proof.
  pose proof (ip_length h) as Hl. pose proof (ip_clean h (lit ":") ltac:(cbn; intuition discriminate) ltac:(repeat constructor)) as Hc.
  assert (Hdot : exists x y, split_at "." (ip_text h) = Some (x, y)).
  { unfold ip_text. cbn [list_ascii_of_string app]. rewrite split_at_app by (apply no_dot, byte_of_range). eauto. }
  destruct Hdot as (x & y & Hdot). unfold unwrap_v4mapped. intros [->|[->| ->]].
  - rewrite !(has_prefix_in _ _ ":"%char) by (cbn; tauto || (apply Hc; cbn; tauto)). cbn [orb]. apply trunc_id. lia.
  - rewrite has_prefix_app. cbn [orb]. change (skipn 7 (lit "::ffff:" ++ ip_text h)) with (ip_text h). rewrite Hdot. apply trunc_id. lia.
  - rewrite has_prefix_app, orb_true_r. change (skipn 7 (lit "::FFFF:" ++ ip_text h)) with (ip_text h). rewrite Hdot. apply trunc_id. lia.
Qed.

Lemma loopback_ip h : is_loopback (ip_text h) = (byte_of h 3 =? 127).
Proof.
  unfold is_loopback. assert (E1 : text_eqb (ip_text h) (lit "::1") = false).
  { apply text_eqb_neq. intros E. pose proof (ip_clean h (lit ":") ltac:(cbn; intuition discriminate) ltac:(repeat constructor) ":"%char) as Hc.
    rewrite E in Hc. apply Hc; cbn; tauto. }
  rewrite E1, orb_false_r. pose proof (byte_of_range h 3) as Hr. unfold has_prefix.
  destruct (strip_prefix (lit "127.") (ip_text h)) as [r|] eqn:E.
  - apply strip_prefix_spec in E. symmetry. apply Z.eqb_eq. apply (f_equal (split_at ".")) in E. unfold ip_text in E.
    change (lit "127." ++ r) with (lit "127" ++ "."%char :: r) in E. change (lit "." ++ ?x) with ("."%char :: x) in E.
    rewrite !split_at_app in E by (apply no_dot; lia || (cbn; intuition discriminate)). injection E as E _.
    apply (f_equal dec_val) in E. rewrite dec_val_dec_u in E by lia. exact E.
  - symmetry. apply Z.eqb_neq. intros E'. unfold ip_text in E. rewrite E' in E. discriminate E.
Qed.

(** ** Networks *)

Definition cidr_text (a p : Z) : text := ip_text a ++ lit "/" ++ dec_u p.

Definition netmask (p : Z) : Z := if p =? 0 then 0 else u32 (Z.shiftl 0xFFFFFFFF (32 - p)).

Lemma parse_cidr_text a p : 0 <= a < 2 ^ 32 -> 0 <= p <= 32 -> parse_cidr (cidr_text a p) = Some (Z.land a (netmask p), netmask p).
Proof.
  intros Ha Hp. pose proof (ip_length a) as Hl. pose proof (length_dec_u_pow p 6 ltac:(lia) ltac:(lia)) as Hd.
  pose proof (ip_clean a (lit "/") ltac:(cbn; intuition discriminate) ltac:(repeat constructor) "/"%char ltac:(cbn; tauto)) as Hs.
  unfold parse_cidr. assert (Hne : cidr_text a p <> []) by (unfold cidr_text; destruct (ip_text a); discriminate).
  destruct (cidr_text a p) as [|c t] eqn:E; [congruence|]. rewrite <- E. clear E Hne c t.
  rewrite trunc_id by (unfold cidr_text; rewrite !length_app; cbn [length list_ascii_of_string]; lia).
  unfold cidr_text. change (lit "/" ++ dec_u p) with ("/"%char :: dec_u p). rewrite split_at_app by exact Hs.
  assert (E : atoi_int (dec_u p) = p).
  { rewrite <- (atoi_int_dec_s p) at 2 by lia. unfold dec_s. destruct (Z.ltb_spec p 0); [lia|reflexivity]. }
  rewrite E. destruct (Z.ltb_spec p 0); [lia|]. destruct (Z.ltb_spec 32 p); [lia|]. cbn [orb].
  now rewrite inet_pton4_ip by assumption.
Qed.

Lemma land_netmask h p : 0 <= h < 2 ^ 32 -> 0 <= p <= 32 -> Z.land h (netmask p) = Z.shiftl (Z.shiftr h (32 - p)) (32 - p).
Proof.
  intros Hh Hp. unfold netmask. destruct (Z.eqb_spec p 0) as [->|Hp0].
  - rewrite Z.land_0_r, Z.sub_0_r, Z.shiftr_div_pow2, Z.div_small by lia. now rewrite Z.shiftl_0_l.
  - apply Z.bits_inj'. intros i Hi. rewrite Z.land_spec. unfold wrap.
    change 0xFFFFFFFF with (Z.ones 32). destruct (Z.lt_ge_cases i 32) as [Hlt|Hge].
    + rewrite Z.mod_pow2_bits_low, !Z.shiftl_spec by lia. destruct (Z.lt_ge_cases i (32 - p)) as [H1|H1].
      * rewrite (Z.testbit_neg_r (Z.ones 32)), (Z.testbit_neg_r (Z.shiftr h (32 - p))) by lia. apply andb_false_r.
      * rewrite Z.ones_spec_low, Z.shiftr_spec, andb_true_r by lia. f_equal. lia.
    + rewrite Z.mod_pow2_bits_high, andb_false_r by lia. rewrite Z.shiftl_spec, Z.shiftr_spec by lia.
      replace (i - (32 - p) + (32 - p)) with i by lia. symmetry.
      rewrite <- (Z.mod_small h (2 ^ 32)) by lia. now apply Z.mod_pow2_bits_high; lia.
Qed.

(** [h] is in the network [a/p]: the first [p] bits agree. *)
Definition same_net (a p h : Z) : bool := Z.shiftr h (32 - p) =? Z.shiftr a (32 - p).

Lemma in_cidr_text a p h : 0 <= a < 2 ^ 32 -> 0 <= p <= 32 -> 0 <= h < 2 ^ 32 ->
  in_cidr (parse_cidr (cidr_text a p)) h = same_net a p h.
Proof.
  intros Ha Hp Hh. rewrite parse_cidr_text by assumption. unfold in_cidr, same_net. rewrite !land_netmask by assumption.
  apply eq_true_iff_eq. rewrite !Z.eqb_eq. split; [|congruence]. intros E. apply (f_equal (fun x => Z.shiftr x (32 - p))) in E.
  now rewrite !Z.shiftr_shiftl_l, Z.sub_diag, !Z.shiftl_0_r in E by lia.
Qed.

Definition cidr_of (c : Z * Z) : text := cidr_text (fst c) (snd c).
Definition net_ok (c : Z * Z) : Prop := 0 <= fst c < 2 ^ 32 /\ 0 <= snd c <= 32.

(** What an IPv4 destination is: the map has priority over the networks. *)
Definition destination (m : list peer_ent_t) (pod svc : Z * Z) (h : Z) : peer_kind :=
  if byte_of h 3 =? 127 then SPNL_PEER_LOOPBACK
  else
    match find (fun e => text_eqb (e_ip e) (ip_text h)) m with
    | Some e => e_kind e
    | None =>
        if same_net (fst pod) (snd pod) h || same_net (fst svc) (snd svc) h then SPNL_PEER_CLUSTER else SPNL_PEER_EXTERNAL
    end.

(** Destinations are classified by their address alone.  With a map configured,
    an IPv4 address, in its plain or its IPv6-mapped spelling, is a loopback, the
    pod or service of its first row in the map, inside the cluster exactly when its
    leading bits are those of the configured pod or service network, and external
    otherwise. *)
Theorem peer_classify_ipv4 getenv fopen getnameinfo pod svc h a path :
  getenv (lit "SPNL_K8S_IPMAP") = Some path -> path <> [] ->
  getenv (lit "SPNL_K8S_POD_CIDR") = Some (cidr_of pod) -> getenv (lit "SPNL_K8S_SVC_CIDR") = Some (cidr_of svc) ->
  net_ok pod -> net_ok svc -> 0 <= h < 2 ^ 32 -> spells h a ->
  let m := match fopen path with Some f => fold_left peer_line (file_lines 639 f) [] | None => [] end in
  let p := fst (spnl_peer_classify getenv fopen getnameinfo a peer_state0) in
  p_kind p = destination m pod svc h /\ p_address p = ip_text h.
Proof.
  intros Hg Hne Hpod Hsvc [Hp1 Hp2] [Hs1 Hs2] Hh Ha m p.
  assert (Hcn : forall c, cidr_of c <> []) by (intros c; unfold cidr_of, cidr_text; destruct (ip_text (fst c)); discriminate).
  assert (Hi : lazy_init getenv fopen peer_state0 =
    mk_pstate 1 m (parse_cidr (cidr_of pod)) (parse_cidr (cidr_of svc)) (truthy (getenv (lit "SPNL_K8S_PEER_RDNS"))) []).
  { unfold lazy_init, env_or. rewrite Hg, Hpod, Hsvc. destruct path as [|c0 t0]; [congruence|].
    destruct (cidr_of pod) eqn:E1; [now destruct (Hcn pod)|]. destruct (cidr_of svc) eqn:E2; [now destruct (Hcn svc)|]. reflexivity. }
  assert (Hna : nonempty a = true).
  { destruct Ha as [->|[->| ->]]; try reflexivity. unfold ip_text. pose proof (dec_u_nonempty (byte_of h 3)). now destruct (dec_u (byte_of h 3)). }
  unfold p, spnl_peer_classify. rewrite Hi, Hna, (unwrap_spelling h a Ha), loopback_ip. cbn [p_inited Z.eqb negb orb p_map pod_cidr svc_cidr rdns Pos.eqb].
  unfold destination. destruct (byte_of h 3 =? 127); [split; reflexivity|].
  destruct (find _ m) as [e|]; [split; reflexivity|].
  rewrite inet_pton4_ip by assumption. unfold cidr_of. rewrite !in_cidr_text by assumption.
  destruct (same_net _ _ h || same_net _ _ h); [split; reflexivity|].
  destruct (truthy _); [|split; reflexivity]. destruct (rdns_cached _ _ _) as [hn st]. split; reflexivity.
Qed.

Definition sample_env (n : text) : option text :=
  if text_eqb n (lit "SPNL_K8S_IPMAP") then Some (lit "m")
  else if text_eqb n (lit "SPNL_K8S_POD_CIDR") then Some (cidr_of (0x0A2A0000, 16))
  else if text_eqb n (lit "SPNL_K8S_SVC_CIDR") then Some (cidr_of (0x0A2B0000, 16))
  else None.

Definition sample_map (f : text) : option text := Some (unlines [lit "10.43.0.10 service kube-system kube-dns"]).

Lemma peer_classify_ipv4_witness :
  p_kind (fst (spnl_peer_classify sample_env sample_map (fun _ => None) (lit "::ffff:10.43.0.10") peer_state0)) = SPNL_PEER_SERVICE /\
  p_kind (fst (spnl_peer_classify sample_env sample_map (fun _ => None) (lit "10.42.7.1") peer_state0)) = SPNL_PEER_CLUSTER.
Proof.
  assert (Hn : forall a, 0 <= a < 2 ^ 32 -> net_ok (a, 16)) by (intros a Ha; split; cbn [fst snd]; lia).
  split.
  - exact (proj1 (peer_classify_ipv4 sample_env sample_map (fun _ => None) (0x0A2A0000, 16) (0x0A2B0000, 16) 0x0A2B000A
      (lit "::ffff:10.43.0.10") (lit "m") eq_refl ltac:(discriminate) eq_refl eq_refl (Hn 0x0A2A0000 ltac:(lia)) (Hn 0x0A2B0000 ltac:(lia)) ltac:(lia)
      (or_intror (or_introl eq_refl)))).
  - exact (proj1 (peer_classify_ipv4 sample_env sample_map (fun _ => None) (0x0A2A0000, 16) (0x0A2B0000, 16) 0x0A2A0701
      (lit "10.42.7.1") (lit "m") eq_refl ltac:(discriminate) eq_refl eq_refl (Hn 0x0A2A0000 ltac:(lia)) (Hn 0x0A2B0000 ltac:(lia)) ltac:(lia)
      (or_introl eq_refl))).
Defined.

End Peer.

(** * The registry ([otlp_enrich.c]) *)

Module Enrich.
Import Ids Fields.

Inductive otlp_signal_t := OTLP_SIGNAL_CONN | OTLP_SIGNAL_DNS | OTLP_SIGNAL_L7 | OTLP_SIGNAL_HTTP | OTLP_SIGNAL_OFFCPU.

Definition signal_code (s : otlp_signal_t) : Z :=
  match s with OTLP_SIGNAL_CONN => 0 | OTLP_SIGNAL_DNS => 1 | OTLP_SIGNAL_L7 => 2 | OTLP_SIGNAL_HTTP => 3 | OTLP_SIGNAL_OFFCPU => 4 end.

Record otlp_enrich_ctx_t := mk_ctx { signal : otlp_signal_t; cgid : Z; peer_addr : option text }.

Definition OTLP_SIG_BIT (s : otlp_signal_t) : Z := Z.shiftl 1 (signal_code s).
Definition OTLP_SIG_ALL : Z := 0xFFFFFFFF.

(** The static state of the three enrichers. *)
Record estate := mk_estate {
  k_enabled : Z;
  k_root : text;
  k_uidmap : option text;
  cri : Cri.cri_state;
  peer : Peer.peer_state
}.

Definition estate0 : estate := mk_estate (-1) [] None Cri.cri0 Peer.peer_state0.

Section Env.
Context `{FS : K8s.FileSystem}.
(** [getenv], file contents, [stat] and [S_ISDIR], and name resolution. *)
Variable getenv : text -> option text.
Variable fopen : text -> option text.
Variable stat_dir : text -> bool.
Variable getnameinfo : text -> option text.

Definition k8s_init (st : estate) : estate :=
  if 0 <=? k_enabled st then st
  else
    let root := trunc 256 (Peer.env_or getenv (lit "SPNL_K8S_CGROUP_ROOT") (lit "/sys/fs/cgroup")) in
    let ok := stat_dir (trunc 300 (root ++ lit "/kubepods")) || stat_dir (trunc 300 (root ++ lit "/kubepods.slice")) in
    mk_estate (if ok then 1 else 0) root
      (match getenv (lit "SPNL_K8S_UIDMAP") with Some ((_ :: _) as um) => Some (trunc 512 um) | _ => k_uidmap st end)
      (cri st) (peer st).

Definition k8s_enrich (ctx : otlp_enrich_ctx_t) (cap : nat) (st : estate) : list otlp_kv_t * estate :=
  let st := k8s_init st in
  if negb (k_enabled st =? 1) || (cgid ctx =? 0) || (cap =? 0)%nat then ([], st)
  else (K8s.spnl_k8s_enrich_attrs (cgid ctx) (Some (k_root st)) (option_map fopen (k_uidmap st)) cap, st).

Definition set_cri c st := mk_estate (k_enabled st) (k_root st) (k_uidmap st) c (peer st).
Definition set_peer p st := mk_estate (k_enabled st) (k_root st) (k_uidmap st) (cri st) p.

Definition cri_enrich (ctx : otlp_enrich_ctx_t) (cap : nat) (st : estate) : list otlp_kv_t * estate :=
  if (cgid ctx =? 0) || (cap =? 0)%nat then ([], st)
  else
    let '(out, c) := Cri.spnl_cri_enrich_attrs (getenv (lit "SPNL_K8S_CRIMAP")) fopen (cgid ctx) cap (cri st) in
    (out, set_cri c st).

Definition peer_enrich (ctx : otlp_enrich_ctx_t) (cap : nat) (st : estate) : list otlp_kv_t * estate :=
  match peer_addr ctx with
  | Some ((_ :: _) as a) =>
      if (cap =? 0)%nat then ([], st)
      else
        let '(out, p) := Peer.spnl_peer_enrich_attrs getenv fopen getnameinfo a cap (peer st) in
        (out, set_peer p st)
  | _ => ([], st)
  end.

Record otlp_enricher_t := mk_enricher {
  e_name : text;
  signal_mask : Z;
  enrich : otlp_enrich_ctx_t -> nat -> estate -> list otlp_kv_t * estate
}.

Definition g_enrichers : list otlp_enricher_t :=
  [mk_enricher (lit "k8s") OTLP_SIG_ALL k8s_enrich; mk_enricher (lit "cri") OTLP_SIG_ALL cri_enrich;
   mk_enricher (lit "peer") (OTLP_SIG_BIT OTLP_SIGNAL_CONN) peer_enrich].

Fixpoint find_key (out : list otlp_kv_t) (k : text) (i : nat) : option nat :=
  match out with
  | [] => None
  | kv :: out' => if text_eqb (key kv) k then Some i else find_key out' k (S i)
  end.

(** One attribute merged into the output. *)
Definition merge1 (cap : nat) (out : list otlp_kv_t) (kv : otlp_kv_t) : list otlp_kv_t :=
  match find_key out (key kv) 0 with
  | Some i => upd out i kv
  | None => if (length out <? cap)%nat then out ++ [kv] else out
  end.

Fixpoint run_loop (es : list otlp_enricher_t) (ctx : otlp_enrich_ctx_t) (cap : nat) (out : list otlp_kv_t) (st : estate)
  : list otlp_kv_t * estate :=
  match es with
  | [] => (out, st)
  | e :: es' =>
      if (cap <=? length out)%nat then (out, st)
      else if Z.land (signal_mask e) (OTLP_SIG_BIT (signal ctx)) =? 0 then run_loop es' ctx cap out st
      else
        let '(scratch, st) := enrich e ctx (Nat.min (cap - length out) 16) st in
        run_loop es' ctx cap (fold_left (merge1 cap) scratch out) st
  end.

Definition otlp_enrich_run (ctx : otlp_enrich_ctx_t) (cap : nat) (st : estate) : list otlp_kv_t * estate :=
  match cap with
  | O => ([], st)
  | _ => run_loop g_enrichers ctx cap [] st
  end.

End Env.

(** ** Last writer wins *)

Definition lookup (out : list otlp_kv_t) (k : text) : option text :=
  option_map val (find (fun kv => text_eqb (key kv) k) out).

(** The value last written, and the keys in the order first written. *)
Definition last_written (ws : list otlp_kv_t) (k : text) : option text := lookup (rev ws) k.

Fixpoint first_keys (seen : list text) (ws : list otlp_kv_t) : list text :=
  match ws with
  | [] => []
  | kv :: ws' =>
      if existsb (text_eqb (key kv)) seen then first_keys seen ws' else key kv :: first_keys (seen ++ [key kv]) ws'
  end.

Lemma find_key_spec out k : forall i j, find_key out k i = Some j ->
  (i <= j)%nat /\ exists kv, nth_error out (j - i) = Some kv /\ key kv = k.
Proof.
  induction out as [|kv out IH]; intros i j H; [discriminate|]. cbn [find_key] in H.
  destruct (text_eqb_spec (key kv) k) as [E|].
  - injection H as <-. split; [lia|]. rewrite Nat.sub_diag. now exists kv.
  - destruct (IH _ _ H) as (Hl & kv' & Hn & E). split; [lia|]. exists kv'. split; [|exact E].
    now replace (j - i)%nat with (S (j - S i)) by lia.
Qed.

Lemma find_key_none out k : forall i, find_key out k i = None <-> ~ In k (map key out).
Proof.
  induction out as [|kv out IH]; intros i; simpl; [tauto|]. destruct (text_eqb_spec (key kv) k) as [E|E].
  - split; [discriminate|tauto].
  - rewrite IH. tauto.
Qed.

Lemma upd_keys out i kv : nth_error (map key out) i = Some (key kv) -> map key (upd out i kv) = map key out.
Proof.
  revert i; induction out as [|x out IH]; intros [|i] H; simpl in *; try discriminate; [congruence|]. now rewrite IH.
Qed.

Lemma merge1_keys cap out kv : NoDup (map key out) ->
  NoDup (map key (merge1 cap out kv)) /\ (length out <= length (merge1 cap out kv))%nat /\
  ((length out <= cap)%nat -> (length (merge1 cap out kv) <= cap)%nat) /\
  ((length (merge1 cap out kv) < cap)%nat ->
   map key (merge1 cap out kv) = if existsb (text_eqb (key kv)) (map key out) then map key out else map key out ++ [key kv]).
Proof.
  intros Hd. unfold merge1. destruct (find_key out (key kv) 0) as [i|] eqn:E.
  - destruct (find_key_spec out (key kv) 0 i E) as (_ & kv' & Hn & Ek). rewrite Nat.sub_0_r in Hn.
    assert (Hk : nth_error (map key out) i = Some (key kv)) by (rewrite nth_error_map, Hn; simpl; congruence).
    rewrite (upd_keys out i kv Hk), length_upd. repeat split; auto.
    assert (Hin : existsb (text_eqb (key kv)) (map key out) = true)
      by (apply existsb_exists; exists (key kv); split; [eapply nth_error_In; eauto|apply text_eqb_refl]).
    now rewrite Hin.
  - apply find_key_none in E.
    assert (Hin : existsb (text_eqb (key kv)) (map key out) = false).
    { apply Bool.not_true_is_false. intros H. apply existsb_exists in H as (x & Hx & Ex). apply text_eqb_eq in Ex. congruence. }
    rewrite Hin. destruct (Nat.ltb_spec (length out) cap).
    + rewrite length_app, map_app. cbn [length map]. repeat split; try lia; auto.
      apply NoDup_app; [exact Hd|constructor; [tauto|constructor]|]. now intros x Hx [<-|[]].
    + repeat split; auto; lia.
Qed.

Lemma lookup_app a b k : lookup (a ++ b) k = match lookup a k with Some v => Some v | None => lookup b k end.
Proof.
  unfold lookup. induction a as [|x a IH]; simpl; [now destruct (find _ b)|]. destruct (text_eqb (key x) k); [reflexivity|exact IH].
Qed.

Lemma lookup_none out k : ~ In k (map key out) -> lookup out k = None.
Proof.
  unfold lookup. induction out as [|x out IH]; simpl; [reflexivity|]. intros H. destruct (text_eqb_spec (key x) k); [tauto|].
  apply IH. tauto.
Qed.

Lemma lookup_upd out i kv k : NoDup (map key out) -> nth_error (map key out) i = Some (key kv) ->
  lookup (upd out i kv) k = if text_eqb (key kv) k then Some (val kv) else lookup out k.
Proof.
  revert i; induction out as [|x out IH]; intros [|i] Hd Hn; cbn [map nth_error upd] in *; try discriminate; inv Hd.
  - injection Hn as Hn. unfold lookup. cbn [find]. rewrite Hn. now destruct (text_eqb (key kv) k).
  - unfold lookup in *. cbn [find]. destruct (text_eqb_spec (key x) k) as [E|]; [|now apply IH].
    destruct (text_eqb_spec (key kv) k) as [E'|]; [|reflexivity]. exfalso. apply H1. rewrite E, <- E'. eapply nth_error_In; eauto.
Qed.

Lemma merge1_lookup cap out kv k : NoDup (map key out) -> (length (merge1 cap out kv) < cap)%nat ->
  lookup (merge1 cap out kv) k = if text_eqb (key kv) k then Some (val kv) else lookup out k.
Proof.
  intros Hd Hl. unfold merge1 in *. destruct (find_key out (key kv) 0) as [i|] eqn:E.
  - destruct (find_key_spec out (key kv) 0 i E) as (_ & kv' & Hn & Ek). rewrite Nat.sub_0_r in Hn.
    apply lookup_upd; [exact Hd|]. rewrite nth_error_map, Hn. simpl. congruence.
  - apply find_key_none in E. destruct (Nat.ltb_spec (length out) cap); [|lia]. rewrite lookup_app.
    destruct (text_eqb_spec (key kv) k) as [<-|Hk].
    + rewrite lookup_none by assumption. unfold lookup. simpl. now rewrite text_eqb_refl.
    + destruct (lookup out k); [reflexivity|]. unfold lookup. simpl. apply text_eqb_neq in Hk. now rewrite Hk.
Qed.

Lemma merge_all cap ws : forall out, NoDup (map key out) -> (length out <= cap)%nat ->
  let r := fold_left (merge1 cap) ws out in
  NoDup (map key r) /\ (length out <= length r <= cap)%nat /\
  ((length r < cap)%nat ->
   map key r = map key out ++ first_keys (map key out) ws /\
   forall k, lookup r k = match last_written ws k with Some v => Some v | None => lookup out k end).
Proof.
  induction ws as [|kv ws IH]; intros out Hd Hl; cbn [fold_left].
  - cbn zeta. repeat split; auto. cbn [first_keys]. now rewrite app_nil_r.
  - destruct (merge1_keys cap out kv Hd) as (Hd1 & Hm1 & Hc1 & Hk1).
    destruct (IH (merge1 cap out kv) Hd1 (Hc1 Hl)) as (Hd2 & Hl2 & H2). cbn zeta. repeat split; auto; try lia.
    + destruct (H2 H) as [-> _]. rewrite Hk1 by lia. cbn [first_keys].
      destruct (existsb _ _); [reflexivity|]. now rewrite <- app_assoc.
    + intros k. destruct (H2 H) as [_ ->]. unfold last_written. cbn [rev]. rewrite lookup_app.
      destruct (lookup (rev ws) k); [reflexivity|]. rewrite merge1_lookup by (assumption || lia).
      unfold lookup at 2. simpl. now destruct (text_eqb (key kv) k).
Qed.

(** New keys are appended until the output is full. *)
Lemma merge_fresh cap ws : forall out, NoDup (map key out ++ map key ws) -> (length out <= cap)%nat ->
  length (fold_left (merge1 cap) ws out) = Nat.min cap (length out + length ws).
Proof.
  induction ws as [|kv ws IH]; intros out Hd Hl; cbn [fold_left length map] in *; [lia|].
  assert (Hn : ~ In (key kv) (map key out)) by (intros H; apply NoDup_remove_2 in Hd; apply Hd; apply in_or_app; now left).
  unfold merge1 at 2. rewrite (proj2 (find_key_none out (key kv) 0) Hn). destruct (Nat.ltb_spec (length out) cap).
  - rewrite IH; [rewrite length_app; cbn [length]; lia| |rewrite length_app; cbn [length]; lia].
    rewrite map_app, <- app_assoc. exact Hd.
  - rewrite IH by (lia || now apply NoDup_remove_1 in Hd). lia.
Qed.

(** ** What an enricher writes into less room is the beginning of what it writes *)

Lemma put_attrs_firstn kvs n m : (n <= m)%nat -> K8s.put_attrs kvs n = firstn n (K8s.put_attrs kvs m).
Proof. intros H. unfold K8s.put_attrs. rewrite firstn_firstn. f_equal. lia. Qed.

Lemma put_attrs_length (kvs : list (text * text)) n : (length (K8s.put_attrs kvs n) <= length kvs)%nat.
Proof.
  unfold K8s.put_attrs. rewrite length_firstn, length_map. pose proof (filter_length_le (fun kv => nonempty (snd kv)) kvs). lia.
Qed.

Lemma put_attrs_keys (kvs : list (text * text)) n : Forall (fun kv => (length (fst kv) < 128)%nat) kvs -> NoDup (map fst kvs) ->
  NoDup (map key (K8s.put_attrs kvs n)) /\ incl (map key (K8s.put_attrs kvs n)) (map fst kvs).
Proof.
  intros Hs Hd. unfold K8s.put_attrs. rewrite <- firstn_map, map_map. set (l := filter _ kvs).
  assert (Hl : forall kv, In kv l -> In kv kvs) by (intros kv Hin; now apply filter_In in Hin as [Hin _]).
  rewrite (map_ext_in _ fst l) by (intros kv Hin; apply trunc_id; rewrite Forall_forall in Hs; auto).
  assert (Hsub : incl (map fst l) (map fst kvs)) by (intros x Hx; apply in_map_iff in Hx as (kv & <- & Hin); apply in_map; auto).
  assert (Hnd : NoDup (map fst l)).
  { unfold l. clear -Hd. induction kvs as [|kv kvs IH]; [constructor|]. cbn [map filter] in *. inv Hd.
    destruct (nonempty (snd kv)); [|now apply IH]. cbn [map]. constructor; [|now apply IH].
    intros Hin. apply H1. apply in_map_iff in Hin as (kv' & E & Hin). apply filter_In in Hin as [Hin _]. rewrite <- E. now apply in_map. }
  split; [apply (NoDup_app_remove_r _ (skipn n (map fst l))); now rewrite firstn_skipn|].
  intros x Hx. apply Hsub. rewrite <- (firstn_skipn n). apply in_or_app. now left.
Qed.

Definition k8s_keys : list text :=
  map (fun s : string => lit s) ["k8s.namespace.name"; "k8s.pod.name"; "k8s.pod.uid"; "k8s.container.name"; "k8s.deployment.name"; "k8s.service.name"]%string.
Definition peer_keys : list text :=
  map (fun s : string => lit s) ["peer.k8s.pod.name"; "peer.k8s.namespace.name"; "peer.k8s.service.name"; "network.peer.external"; "peer.hostname"]%string.

Ltac distinct_keys := repeat (constructor; [cbn; intuition discriminate|]); constructor.

Section Outputs.
Context `{FS : K8s.FileSystem}.
Variables (getenv fopen : text -> option text) (stat_dir : text -> bool) (getnameinfo : text -> option text).

Abbreviation K8S := (k8s_enrich getenv fopen stat_dir).
Abbreviation CRI := (cri_enrich getenv fopen).
Abbreviation PEER := (peer_enrich getenv fopen getnameinfo).

Lemma k8s_room ctx n st : (0 < n <= 16)%nat -> K8S ctx n st = (firstn n (fst (K8S ctx 16 st)), snd (K8S ctx 16 st)).
Proof.
  intros H. unfold k8s_enrich. destruct n as [|n]; [lia|]. cbn [Nat.eqb].
  destruct (negb _ || _ || false); [reflexivity|]. cbn [fst snd]. f_equal. unfold K8s.spnl_k8s_enrich_attrs.
  destruct (K8s.spnl_k8s_lookup_by_cgroup_id _ _) as [[|] p]; [|reflexivity]. apply put_attrs_firstn. lia.
Qed.

Lemma k8s_out ctx n st : let K := fst (K8S ctx n st) in (length K <= 6)%nat /\ NoDup (map key K) /\ incl (map key K) k8s_keys.
Proof.
  unfold k8s_enrich. cbn zeta. destruct (negb _ || _ || _); [cbn; repeat split; [lia|constructor|intros x []]|]. cbn [fst].
  unfold K8s.spnl_k8s_enrich_attrs. destruct (K8s.spnl_k8s_lookup_by_cgroup_id _ _) as [[|] p]; [|cbn; repeat split; [lia|constructor|intros x []]].
  unfold K8s.spnl_k8s_fill_attrs. set (q := match option_map fopen _ with Some f => _ | None => _ end).
  split; [etransitivity; [apply put_attrs_length|cbn; lia]|].
  apply put_attrs_keys; [repeat constructor; vm_compute; lia|cbn [map fst]; distinct_keys].
Qed.

Lemma cri_room ctx n st : (0 < n)%nat -> CRI ctx n st = CRI ctx 16 st.
Proof. intros H. unfold cri_enrich. destruct n as [|n]; [lia|]. reflexivity. Qed.

Lemma cri_out ctx n st : (length (fst (CRI ctx n st)) <= 1)%nat /\ incl (map key (fst (CRI ctx n st))) k8s_keys.
Proof.
  unfold cri_enrich. destruct (_ || _); [cbn; split; [lia|intros x []]|].
  unfold Cri.spnl_cri_enrich_attrs. destruct n as [|n]; [cbn; split; [lia|intros x []]|].
  destruct (Cri.spnl_cri_lookup _ _ _ _ _) as [[[|c nm]|] c']; cbn [fst map length]; (split; [lia|]); try (intros x []; fail).
  intros x [<-|[]]. cbn. tauto.
Qed.

Lemma peer_fill_firstn p n m : (n <= m)%nat -> Peer.spnl_peer_fill_attrs p n = firstn n (Peer.spnl_peer_fill_attrs p m).
Proof. intros H. unfold Peer.spnl_peer_fill_attrs. destruct (Peer.p_kind p); try (now apply put_attrs_firstn); now destruct n. Qed.

Lemma peer_room ctx n st : (0 < n <= 16)%nat -> PEER ctx n st = (firstn n (fst (PEER ctx 16 st)), snd (PEER ctx 16 st)).
Proof.
  intros H. unfold peer_enrich. destruct (peer_addr ctx) as [[|c a]|]; [now destruct n| |now destruct n].
  destruct n as [|n]; [lia|]. cbn [Nat.eqb]. unfold Peer.spnl_peer_enrich_attrs.
  destruct (negb _ || _); [reflexivity|]. destruct (Peer.spnl_peer_classify _ _ _ _ _) as [p s']. cbn [fst snd]. f_equal.
  apply peer_fill_firstn. lia.
Qed.

Lemma peer_out ctx n st : let P := fst (PEER ctx n st) in (length P <= 2)%nat /\ NoDup (map key P) /\ incl (map key P) peer_keys.
Proof.
  assert (E : forall l : list otlp_kv_t, l = [] -> (length l <= 2)%nat /\ NoDup (map key l) /\ incl (map key l) peer_keys)
    by (intros l ->; cbn; repeat split; [lia|constructor|intros x []]).
  unfold peer_enrich. cbn zeta. destruct (peer_addr ctx) as [[|c a]|]; try (now apply E).
  destruct (n =? 0)%nat; [now apply E|]. unfold Peer.spnl_peer_enrich_attrs. destruct n as [|n]; [now apply E|].
  destruct (negb _ || _); [now apply E|]. destruct (Peer.spnl_peer_classify _ _ _ _ _) as [p s']. cbn [fst].
  unfold Peer.spnl_peer_fill_attrs. destruct (Peer.p_kind p); try (now apply E);
    (split; [etransitivity; [apply put_attrs_length|cbn; lia]|];
     match goal with |- NoDup (map key (K8s.put_attrs ?l _)) /\ _ =>
       destruct (put_attrs_keys l (S n)) as [Hd Hi]; [repeat constructor; vm_compute; lia|cbn [map fst]; distinct_keys|] end;
     split; [exact Hd|]; intros x Hx; specialize (Hi x Hx); cbn in Hi |- *; tauto).
Qed.

Lemma keys_apart x : In x k8s_keys -> In x peer_keys -> False.
Proof. intros H. cbn in H. repeat destruct H as [<-|H]; try destruct H; cbn; intuition discriminate. Qed.

(** The complete outputs of the registry, in its order. *)
Definition all_outputs (ctx : otlp_enrich_ctx_t) (st : estate) : list otlp_kv_t :=
  let '(K, st) := K8S ctx 16 st in
  let '(C, st) := CRI ctx 16 st in
  K ++ C ++ (match signal ctx with OTLP_SIGNAL_CONN => fst (PEER ctx 16 st) | _ => [] end).

Lemma all_applies s : (Z.land OTLP_SIG_ALL (OTLP_SIG_BIT s) =? 0) = false.
Proof. now destruct s. Qed.

Lemma conn_applies s : (Z.land (OTLP_SIG_BIT OTLP_SIGNAL_CONN) (OTLP_SIG_BIT s) =? 0) =
  match s with OTLP_SIGNAL_CONN => false | _ => true end.
Proof. now destruct s. Qed.

Lemma merge_incl cap ws : forall out, incl (map key (fold_left (merge1 cap) ws out)) (map key out ++ map key ws).
Proof.
  induction ws as [|kv ws IH]; intros out; cbn [fold_left map]; [rewrite app_nil_r; apply incl_refl|].
  intros x Hx. apply IH in Hx. rewrite in_app_iff in *. destruct Hx as [Hx|Hx]; [|simpl; tauto].
  unfold merge1 in Hx. destruct (find_key out (key kv) 0) as [i|] eqn:E.
  - destruct (find_key_spec out (key kv) 0 i E) as (_ & kv' & Hn & Ek). rewrite Nat.sub_0_r in Hn.
    rewrite upd_keys in Hx by (rewrite nth_error_map, Hn; simpl; congruence). now left.
  - destruct (length out <? cap)%nat; [|now left]. rewrite map_app, in_app_iff in Hx. simpl in *. tauto.
Qed.

(** When room is left at the end, nobody was cut short. *)
Lemma run_complete ctx cap st : let r := fst (otlp_enrich_run getenv fopen stat_dir getnameinfo ctx cap st) in
  (length r < cap)%nat -> r = fold_left (merge1 cap) (all_outputs ctx st) [].
Proof.
  cbn zeta. unfold otlp_enrich_run, all_outputs. destruct cap as [|cap]; [cbn; lia|]. set (c := S cap).
  unfold g_enrichers. cbn [run_loop length signal_mask enrich]. rewrite all_applies, conn_applies.
  destruct (Nat.leb_spec c 0); [unfold c in *; lia|].
  rewrite k8s_room by (unfold c in *; lia). pose proof (k8s_out ctx 16 st) as (Kl & Kd & Ki).
  destruct (K8S ctx 16 st) as [K st1]. cbn [fst snd] in *.
  destruct (Nat.le_gt_cases c (length K)) as [Hfull|Hk].
  { assert (Hlen : length (fold_left (merge1 c) (firstn (Nat.min (c - 0) 16) K) []) = c).
    { rewrite merge_fresh; [rewrite length_firstn; cbn [length]; lia| |cbn; lia]. cbn [map app].
      rewrite <- firstn_map. apply (NoDup_app_remove_r _ (skipn (Nat.min (c - 0) 16) (map key K))). now rewrite firstn_skipn. }
    rewrite Hlen, Nat.leb_refl. cbn [fst]. lia. }
  rewrite firstn_all2 by lia. set (r1 := fold_left (merge1 c) K []).
  assert (Hr1 : length r1 = length K) by (unfold r1; rewrite merge_fresh; [cbn [length]; lia|exact Kd|cbn; lia]).
  destruct (Nat.leb_spec c (length r1)); [lia|].
  rewrite cri_room by lia. pose proof (cri_out ctx 16 st1) as (Cl & Ci). destruct (CRI ctx 16 st1) as [C st2]. cbn [fst snd] in *.
  rewrite !fold_left_app. fold r1. set (r2 := fold_left (merge1 c) C r1).
  destruct (Nat.leb_spec c (length r2)) as [Hc|Hc]; [cbn [fst]; intros; lia|].
  destruct (signal ctx); try (intros; reflexivity).
  rewrite peer_room by lia. pose proof (peer_out ctx 16 st2) as (Pl & Pd & Pi). destruct (PEER ctx 16 st2) as [P st3]. cbn [fst snd] in *.
  assert (Hd1 : NoDup (map key r1)) by (unfold r1; apply (merge_all c K []); [constructor|cbn; lia]).
  assert (Hd2 : NoDup (map key r2)) by (unfold r2; apply (merge_all c C r1); [exact Hd1|lia]).
  assert (Hin : forall x, In x (map key r2) -> In x k8s_keys).
  { intros x Hx. apply merge_incl in Hx. rewrite in_app_iff in Hx. destruct Hx as [Hx|Hx]; [|now apply Ci].
    apply merge_incl in Hx. cbn [map app] in Hx. now apply Ki. }
  assert (Hsep : forall n, NoDup (map key r2 ++ map key (firstn n P))).
  { intros n. apply NoDup_app; [exact Hd2| |].
    - rewrite <- firstn_map. apply (NoDup_app_remove_r _ (skipn n (map key P))). now rewrite firstn_skipn.
    - intros x Hx Hy. apply (keys_apart x); [now apply Hin|]. apply Pi. rewrite <- (firstn_skipn n P), map_app. apply in_or_app. now left. }
  destruct (Nat.le_gt_cases (length P) (Nat.min (c - length r2) 16)) as [Hp|Hp]; [now rewrite firstn_all2 by assumption|].
  rewrite merge_fresh by (apply Hsep || lia). rewrite length_firstn. lia.
Qed.

(** However the run goes, the keys are distinct and there is room for them. *)
Lemma run_bounds ctx cap st : let r := fst (otlp_enrich_run getenv fopen stat_dir getnameinfo ctx cap st) in
  NoDup (map key r) /\ (length r <= cap)%nat.
Proof.
  assert (Hrun : forall es out st, NoDup (map key out) -> (length out <= cap)%nat ->
    NoDup (map key (fst (run_loop es ctx cap out st))) /\ (length (fst (run_loop es ctx cap out st)) <= cap)%nat).
  { induction es as [|e es IH]; intros out st' Hd Hl; cbn [run_loop]; [auto|]. case_if; [auto|]. case_if; [now apply IH|].
    destruct (enrich e ctx _ st') as [sc st'']. destruct (merge_all cap sc out Hd Hl) as (H1 & H2 & _). apply IH; [exact H1|lia]. }
  cbn zeta. unfold otlp_enrich_run. destruct cap; [split; [constructor|cbn; lia]|]. apply Hrun; [constructor|cbn; lia].
Qed.

(** The merge is last-writer-wins.  No two attributes of the result have the same
    key and there are at most [cap]; and as long as the result is not full, it has
    the keys of all applicable enrichers in the order they were first written, each
    with the value written last (so a container name from the CRI map replaces the
    container id). *)
Theorem enrich_last_writer_wins ctx cap st :
  let r := fst (otlp_enrich_run getenv fopen stat_dir getnameinfo ctx cap st) in
  NoDup (map key r) /\ (length r <= cap)%nat /\
  ((length r < cap)%nat ->
   map key r = first_keys [] (all_outputs ctx st) /\ forall k, lookup r k = last_written (all_outputs ctx st) k).
Proof.
  cbn zeta. split; [apply run_bounds|]. split; [apply run_bounds|].
  intros Hl. pose proof (run_complete ctx cap st Hl) as E. cbn zeta in E. rewrite E in Hl |- *.
  destruct (merge_all cap (all_outputs ctx st) [] ltac:(constructor) ltac:(cbn; lia)) as (_ & _ & H).
  destruct (H Hl) as [Hk Hv]. split; [exact Hk|]. intros k. rewrite Hv. now destruct (last_written _ k).
Qed.

End Outputs.

(** ** A pod with a CRI name *)

#[local] Instance sample_fs : K8s.FileSystem := {|
  K8s.readdir := fun d =>
    if text_eqb d (lit "/c/kubepods") then Some [lit "."; lit ".."; lit "podab1"]
    else if text_eqb d (lit "/c/kubepods/podab1") then Some [lit "cgroup.procs"; lit "77aa"]
    else if text_eqb d (lit "/c/kubepods/podab1/77aa") then Some []
    else None;
  K8s.dir_inode := fun p =>
    if text_eqb p (lit "/c/kubepods/podab1") then Some 6
    else if text_eqb p (lit "/c/kubepods/podab1/77aa") then Some 7
    else None
|}.

Definition pod_env (n : text) : option text :=
  if text_eqb n (lit "SPNL_K8S_CGROUP_ROOT") then Some (lit "/c")
  else if text_eqb n (lit "SPNL_K8S_UIDMAP") then Some (lit "uids")
  else if text_eqb n (lit "SPNL_K8S_CRIMAP") then Some (lit "cri")
  else None.

Definition pod_files (f : text) : option text :=
  if text_eqb f (lit "uids") then Some (unlines [lit "ab1 shop/web-1 web web-svc"])
  else if text_eqb f (lit "cri") then Some (unlines [lit "7 nginx"])
  else None.

Definition pod_run (s : otlp_signal_t) (cap : nat) : list otlp_kv_t :=
  fst (otlp_enrich_run pod_env pod_files (fun _ => true) (fun _ => None) (mk_ctx s 7 None) cap estate0).

Lemma cri_name_replaces_id :
  map (fun kv => (string_of_list_ascii (key kv), string_of_list_ascii (val kv))) (pod_run OTLP_SIGNAL_DNS 8) =
  [("k8s.namespace.name", "shop"); ("k8s.pod.name", "web-1"); ("k8s.pod.uid", "ab1"); ("k8s.container.name", "nginx");
   ("k8s.deployment.name", "web"); ("k8s.service.name", "web-svc")]%string.
Proof. vm_compute. reflexivity. Qed.

(** A DNS span leaves room for five attributes: the Kubernetes enricher fills them, and
    the loop stops before the CRI enricher could replace the id. *)
Lemma full_output_keeps_container_id : lookup (pod_run OTLP_SIGNAL_DNS 5) (lit "k8s.container.name") = Some (lit "77aa").
Proof. vm_compute. reflexivity. Qed.

End Enrich.
