(* ===== verification/CgIr.v ===== *)
(** * The code generator's input: types, names, methods

    [src/src/codegen_c/spinel_ebpf_cc.c]: the legacy type tags, the C-safe names,
    the method table ([IR]), the textual IR ([cc_build_ir_text], [ir_parse]), the
    in-process construction of the same table ([fill_ir_from_compiler]) and the
    partition verdict. *)

From S2P Require Import Prelude CText CgText.

(** * Types *)

Module Types.

Inductive CcTy := CC_TY_UNKNOWN | CC_TY_INT | CC_TY_VOID | CC_TY_BOOL.

Definition CcTy_eqb (a b : CcTy) : bool :=
  match a, b with
  | CC_TY_UNKNOWN, CC_TY_UNKNOWN | CC_TY_INT, CC_TY_INT | CC_TY_VOID, CC_TY_VOID | CC_TY_BOOL, CC_TY_BOOL => true
  | _, _ => false
  end.

(** The tag without its nullable suffix. *)
Definition base_tag (s : text) : text :=
  match rev s with
  | c :: r => if Ascii.eqb c "?" then rev r else s
  | [] => s
  end.

Definition ty_from_legacy (s : text) : CcTy :=
  let b := base_tag s in
  if text_eqb b (lit "int") then CC_TY_INT
  else if text_eqb b (lit "bool") then CC_TY_BOOL
  else if text_eqb b (lit "void") || text_eqb b (lit "nil") then CC_TY_VOID
  else CC_TY_UNKNOWN.

Definition ty_legacy_name (t : CcTy) : text :=
  match t with CC_TY_INT => lit "int" | CC_TY_VOID => lit "void" | CC_TY_BOOL => lit "bool" | CC_TY_UNKNOWN => lit "?" end.

Definition ty_to_c (t : CcTy) : option text :=
  match t with
  | CC_TY_INT => Some (lit "__s64")
  | CC_TY_VOID => Some (lit "void")
  | CC_TY_BOOL => Some (lit "__s32")
  | CC_TY_UNKNOWN => None
  end.

(** Names are read back, and nullability does not change the type. *)
Lemma ty_name_roundtrip t : t <> CC_TY_UNKNOWN ->
  ty_from_legacy (ty_legacy_name t) = t /\ ty_from_legacy (ty_legacy_name t ++ lit "?") = t.
Proof. destruct t; [congruence|split; reflexivity..]. Qed.

End Types.

(** * Names *)

Module Names.

Definition upper (c : ascii) : bool := (65 <=? code c) && (code c <=? 90).
Definition lower_letter (c : ascii) : bool := (97 <=? code c) && (code c <=? 122).

Definition cc_lower (s : text) : text := map (fun c => if upper c then chr (code c + 32) else c) s.

(** The C11 reserved words. *)
Definition keywords : list text :=
  map (fun s : string => lit s)
  ["auto";"break";"case";"char";"const";"continue";"default";"do";"double";"else";"enum";"extern";
   "float";"for";"goto";"if";"inline";"int";"long";"register";"restrict";"return";"short";"signed";
   "sizeof";"static";"struct";"switch";"typedef";"union";"unsigned";"void";"volatile";"while";
   "_Bool";"_Complex";"_Imaginary";"_Atomic";"_Static_assert";"_Thread_local";
   "_Alignas";"_Alignof";"_Generic";"_Noreturn"]%string.

Definition cc_is_c_keyword (s : text) : bool := existsb (fun k => text_eqb k s) keywords.

Definition cc_safe_dup (name : text) : text :=
  match name with
  | [] => []
  | _ => if cc_is_c_keyword name then name ++ lit "_" else name
  end.

Definition ident_char (c : ascii) : bool := upper c || lower_letter c || is_digit c || Ascii.eqb c "_".

Definition cc_sanitize (s : text) : text :=
  (match s with c :: _ => if is_digit c then lit "u_" else [] | [] => [] end) ++
  map (fun c => if ident_char c then c else "_"%char) s.

(** No keyword ends in an underscore, so no renamed keyword is a keyword. *)
Lemma keyword_suffix s : cc_is_c_keyword (s ++ lit "_") = false.
Proof.
  unfold cc_is_c_keyword. apply not_true_iff_false. intros H. apply existsb_exists in H.
  destruct H as (k & Hk & E). apply text_eqb_eq in E.
  assert (Hf : forallb (fun k => match rev k with c :: _ => negb (Ascii.eqb c "_") | [] => false end) keywords = true)
    by (vm_compute; reflexivity).
  rewrite forallb_forall in Hf. specialize (Hf k Hk). rewrite E, rev_app_distr in Hf. discriminate Hf.
Qed.

(** Every name leaf is C-safe: the result is never a reserved word, an
    ordinary name is left alone, and renaming twice is renaming once. *)
Lemma cc_safe_dup_safe name :
  cc_is_c_keyword (cc_safe_dup name) = false /\
  (cc_is_c_keyword name = false -> cc_safe_dup name = name) /\
  cc_safe_dup (cc_safe_dup name) = cc_safe_dup name.
Proof.
  assert (H1 : cc_is_c_keyword (cc_safe_dup name) = false).
  { unfold cc_safe_dup. destruct name as [|c name]; [reflexivity|].
    destruct (cc_is_c_keyword (c :: name)) eqn:E; [apply keyword_suffix|exact E]. }
  split; [exact H1|]. split.
  - intros H. unfold cc_safe_dup. destruct name; [reflexivity|]. now rewrite H.
  - unfold cc_safe_dup at 1. destruct (cc_safe_dup name) eqn:E; [reflexivity|]. now rewrite H1.
Qed.

(** Two Ruby names can meet in one C name. *)
Lemma cc_safe_dup_collides : cc_safe_dup (lit "double") = cc_safe_dup (lit "double_").
Proof. reflexivity. Qed.

(** A sanitized name is an identifier: only identifier characters, no leading digit. *)
Lemma cc_sanitize_ident s :
  Forall (fun c => ident_char c = true) (cc_sanitize s) /\
  match cc_sanitize s with c :: _ => is_digit c = false | [] => s = [] end.
Proof.
  unfold cc_sanitize. split.
  - apply Forall_app. split; [destruct s as [|c s]; [constructor|]; destruct (is_digit c); repeat constructor|].
    apply Forall_forall. intros x Hx. apply in_map_iff in Hx. destruct Hx as (c & <- & _).
    destruct (ident_char c) eqn:E; [exact E|reflexivity].
  - destruct s as [|c s]; [reflexivity|]. destruct (is_digit c) eqn:E; [reflexivity|]. cbn [map app].
    destruct (ident_char c); [exact E|reflexivity].
Qed.

End Names.

(** * The method table and its textual form *)

Module Ir.
Import Types Names Fields Decode.

Inductive so_kind := SO_NONE | SO_TCP_CC | SO_SCHED_EXT | SO_QDISC.

Record Method := mk_method {
  m_name : text;
  m_cls : option text;
  m_params : list (text * CcTy);
  m_ret : CcTy;
  m_body : Z;
  m_so_kind : so_kind;
  m_so_member : option text
}.

Record IR := mk_IR {
  ir_m : list Method;
  cls_names : list text;
  cls_ivar_names : list text;
  cls_ivar_types : list text;
  cls_parents : list text
}.

(** [method_set_params]: sanitized names with the types at their positions. *)
Definition method_set_params (pn pt : text) : list (text * CcTy) :=
  match pn with
  | [] => []
  | _ =>
      let names := split pn "," in
      let tags := split pt "," in
      map (fun k => (cc_safe_dup (nth k names []), ty_from_legacy (nth k tags []))) (seq 0 (length names))
  end.

(** The tables of the textual IR: key and separator, in the order of the tests. *)
Definition ir_keys : list (text * ascii) :=
  [(lit "@meth_names", "|"); (lit "@meth_param_names", "|"); (lit "@meth_param_types", "|");
   (lit "@meth_return_types", "|"); (lit "@meth_body_ids", ","); (lit "@cls_names", "|");
   (lit "@cls_ivar_names", "|"); (lit "@cls_ivar_types", "|"); (lit "@cls_meth_names", "|");
   (lit "@cls_meth_params", "|"); (lit "@cls_meth_ptypes", "|"); (lit "@cls_meth_returns", "|");
   (lit "@cls_meth_bodies", "|"); (lit "@cls_parents", "|")]%char.

Fixpoint find_key (line : text) (keys : list (text * ascii)) (i : nat) : option (nat * list text) :=
  match keys with
  | [] => None
  | (key, sep) :: keys' =>
      match ir_payload line key with
      | Some pv => Some (i, split pv sep)
      | None => find_key line keys' (S i)
      end
  end.

(** One line: the table it names is replaced. *)
Definition ir_line (tabs : list (list text)) (line : text) : list (list text) :=
  match find_key line ir_keys 0 with
  | Some (i, fields) => upd tabs i fields
  | None => tabs
  end.

Definition ir_tables (txt : text) : list (list text) := fold_left ir_line (lines_of txt) (repeat [] 14).

Definition ret_at (rets : list text) (i : nat) : CcTy :=
  match nth_error rets i with Some r => ty_from_legacy r | None => CC_TY_UNKNOWN end.
Definition body_at (bids : list text) (i : nat) : Z :=
  match nth_error bids i with Some b => atoi_int b | None => -1 end.

(** A class whose parent is one of the struct_ops bases: kind and name prefix. *)
Definition so_of_parent (parent : text) : option (so_kind * text) :=
  if text_eqb parent (lit "BPF_SchedExt") then Some (SO_SCHED_EXT, lit "sched_ext")
  else if text_eqb parent (lit "BPF_Qdisc") then Some (SO_QDISC, lit "qdisc")
  else if text_eqb parent (lit "BPF_TcpCC") then Some (SO_TCP_CC, lit "tcp_cc")
  else None.

(** A class method: a struct_ops member becomes a top-level [prefix__member]. *)
Definition class_method (parent cls name : text) (ret : CcTy) (body : Z) (params : list (text * CcTy)) : Method :=
  match so_of_parent parent with
  | Some (k, prefix) => mk_method (prefix ++ lit "__" ++ name) None params ret body k (Some name)
  | None => mk_method name (Some cls) params ret body SO_NONE None
  end.

Definition top_methods (names rets bids pnames ptypes : list text) : list Method :=
  map (fun i => mk_method (nth i names []) None (method_set_params (nth i pnames []) (nth i ptypes []))
                  (ret_at rets i) (body_at bids i) SO_NONE None)
    (seq 0 (length names)).

(** The methods of class [c], from its cells of the class tables. *)
Definition methods_of_class (parent cls names rets bids params ptypes : option text) : list Method :=
  let cells o sep := match o with Some s => split s sep | None => [] end in
  let mn := cells names ";"%char in
  let rr := cells rets ";"%char in
  let bb := cells bids ";"%char in
  let pp := cells (option_map pct_decode params) "|"%char in
  let qq := cells (option_map pct_decode ptypes) "|"%char in
  map (fun j => class_method (match parent with Some p => p | None => [] end)
                  (match cls with Some n => n | None => [] end) (nth j mn []) (ret_at rr j) (body_at bb j)
                  (method_set_params (nth j pp []) (nth j qq [])))
    (seq 0 (length mn)).

Definition ir_parse (txt : text) : IR :=
  let tabs := ir_tables txt in
  let t i := nth i tabs [] in
  let tops := top_methods (t 0%nat) (t 3%nat) (t 4%nat) (t 1%nat) (t 2%nat) in
  let cell i c := nth_error (t i) c in
  let classes := flat_map (fun c => methods_of_class (cell 13%nat c) (cell 5%nat c) (cell 8%nat c) (cell 11%nat c)
                                      (cell 12%nat c) (cell 9%nat c) (cell 10%nat c))
                   (seq 0 (Nat.min (length (t 5%nat)) (length (t 8%nat)))) in
  mk_IR (tops ++ classes) (t 5%nat) (t 6%nat) (t 7%nat) (t 13%nat).

(** ** The in-process path *)

(** The compiler's structures, as the accessors of [spinel_upstream_contract.h]
    present them: [TyKind] with its names, and [scope_local]. *)
Class Upstream := {
  TyKind : Type;
  TY_INT : TyKind;
  ty_unresolved : TyKind -> bool;
  ty_object : TyKind -> option Z;
  ty_name : TyKind -> text
}.

Section Compiler.
Context {U : Upstream}.

Record Scope := mk_scope {
  sc_name : option text;
  sc_class : Z;
  sc_ret : TyKind;
  sc_body : Z;
  sc_params : list (option text * option TyKind);
  sc_locals : list (option text * TyKind)
}.

Record ClassInfo := mk_class {
  cl_name : option text;
  cl_parent : Z;
  cl_def_node : Z;
  cl_ivars : list (text * TyKind)
}.

(** The node-table accessors the generator calls. *)
Record NodeTable := mk_nt {
  nt_type : Z -> option text;
  nt_ref : Z -> text -> Z;
  nt_str : Z -> text -> option text
}.

Record Compiler := mk_compiler { scopes : list Scope; classes : list ClassInfo; c_nt : NodeTable }.

Definition opt_text (o : option text) : text := match o with Some s => s | None => [] end.

(** [c->classes[i]], for an index in range. *)
Definition class_at (c : Compiler) (i : Z) : option ClassInfo :=
  if i <? 0 then None else nth_error (classes c) (Z.to_nat i).

(** [cc_emit_parent_tag]: the registered superclass, else the name in the source. *)
Definition cc_emit_parent_tag (c : Compiler) (cl : ClassInfo) : text :=
  match (match class_at c (cl_parent cl) with Some p => cl_name p | None => None end) with
  | Some n => n
  | None =>
      if cl_def_node cl <? 0 then []
      else
        let sup := nt_ref (c_nt c) (cl_def_node cl) (lit "superclass") in
        if sup <? 0 then []
        else
          let name := opt_text (nt_str (c_nt c) sup (lit "name")) in
          match nt_type (c_nt c) sup with
          | None => []
          | Some ty =>
              if text_eqb ty (lit "ConstantPathNode") then
                let par := nt_ref (c_nt c) sup (lit "parent") in
                let pn := if 0 <=? par then opt_text (nt_str (c_nt c) par (lit "name")) else [] in
                match pn with [] => name | _ => pn ++ lit "_" ++ name end
              else if text_eqb ty (lit "ConstantReadNode") then name
              else []
          end
  end.

Definition verdict_prefixes : list text :=
  map (fun s : string => lit s)
  ["xdp__"; "xdp_tail__"; "tc__"; "sk_reuseport__"; "sk_msg__"; "sk_skb__"; "lsm__"; "fmod_ret__"; "cgroup__";
   "socket_filter__"; "flow_dissector__"; "sk_lookup__"; "iter__"; "kprobe__"; "kretprobe__"; "tracepoint__";
   "fentry__"; "fexit__"; "uprobe__"; "uretprobe__"; "usdt__"; "raw_tp__"; "sock_ops__"; "perf_event__";
   "user_ringbuf__"; "spnl_timer__"]%string.

Definition cc_verdict_handler (name : text) : bool := existsb (fun p => has_prefix p name) verdict_prefixes.

Definition cc_ty_tag (c : Compiler) (t : TyKind) : text :=
  match ty_object t with
  | Some cid =>
      match (match class_at c cid with Some cl => cl_name cl | None => None end) with
      | Some n => lit "obj_" ++ n
      | None => lit "object"
      end
  | None => ty_name t
  end.

Definition param_tag (c : Compiler) (p : option text * option TyKind) : text :=
  cc_ty_tag c (match snd p with Some t => if ty_unresolved t then TY_INT else t | None => TY_INT end).

Definition param_names (s : Scope) : text := join "," (map (fun p => opt_text (fst p)) (sc_params s)).
Definition param_tags (c : Compiler) (s : Scope) : text := join "," (map (param_tag c) (sc_params s)).

Definition named (s : Scope) : bool := match sc_name s with Some (_ :: _) => true | _ => false end.

(** The return tags of the two kinds of methods. *)
Definition free_ret_tag (c : Compiler) (s : Scope) : text :=
  if ty_unresolved (sc_ret s) then
    if cc_verdict_handler (opt_text (sc_name s)) then lit "int" else lit "nil"
  else cc_ty_tag c (sc_ret s).

Definition class_ret_tag (c : Compiler) (s : Scope) : text :=
  if text_eqb (opt_text (sc_name s)) (lit "initialize") then lit "void"
  else if ty_unresolved (sc_ret s) then lit "nil"
  else cc_ty_tag c (sc_ret s).

Definition kept_class (cl : ClassInfo) : bool :=
  match cl_name cl with Some ((_ :: _) as n) => negb (text_eqb n (lit "Method")) | _ => false end.

Definition ivar_tag (c : Compiler) (iv : text * TyKind) : text :=
  if ty_unresolved (snd iv) then lit "int" else cc_ty_tag c (snd iv).

(** The segments the walk over a comma list visits: not the empty one at the end. *)
Definition env_segments (ex : text) : list text :=
  match rev (split ex ",") with
  | [] :: r => rev r
  | _ => split ex ","
  end.

(** [cc_name_in_env_list(name, env)], on the value of the variable. *)
Definition cc_name_in_env_list (name : text) (env : option text) : bool :=
  match env with
  | None => false
  | Some ex => existsb (text_eqb name) (env_segments ex)
  end.

Section Excluded.
(** The value of [SPNL_EBPF_EXCLUDE]. *)
Variable exclude : option text.

Definition cc_is_consumer_fn (name : text) : bool := has_prefix (lit "__spnl_") name || cc_name_in_env_list name exclude.

Definition cc_is_free_fn (s : Scope) : bool :=
  (sc_class s <? 0) && named s && negb (cc_is_consumer_fn (opt_text (sc_name s))).

(** Scope 0 is the top level; the methods are the others. *)
Definition free_scopes (c : Compiler) : list Scope := filter cc_is_free_fn (tl (scopes c)).
Definition class_scopes (c : Compiler) (ci : nat) : list Scope :=
  filter (fun s => (sc_class s =? Z.of_nat ci) && named s) (tl (scopes c)).

(** The classes kept, with their index in the compiler. *)
Definition kept (c : Compiler) : list (nat * ClassInfo) :=
  filter (fun p => kept_class (snd p)) (combine (seq 0 (length (classes c))) (classes c)).

(** The struct_ops role of a kept class, and a method of it, as this path writes them. *)
Definition filled_so (parent : text) : option (so_kind * text) :=
  if text_eqb parent (lit "BPF_SchedExt") then Some (SO_SCHED_EXT, lit "sched_ext")
  else if text_eqb parent (lit "BPF_Qdisc") then Some (SO_QDISC, lit "qdisc")
  else if text_eqb parent (lit "BPF_TcpCC") then Some (SO_TCP_CC, lit "tcp_cc")
  else None.

Definition filled_method (c : Compiler) (cl : ClassInfo) (s : Scope) : Method :=
  let ret := ty_from_legacy (class_ret_tag c s) in
  let params := method_set_params (param_names s) (param_tags c s) in
  match filled_so (cc_emit_parent_tag c cl) with
  | Some (k, prefix) => mk_method (prefix ++ lit "__" ++ opt_text (sc_name s)) None params ret (sc_body s) k (Some (opt_text (sc_name s)))
  | None => mk_method (opt_text (sc_name s)) (Some (opt_text (cl_name cl))) params ret (sc_body s) SO_NONE None
  end.

Definition fill_ir_from_compiler (c : Compiler) : IR :=
  let free := map (fun s => mk_method (opt_text (sc_name s)) None (method_set_params (param_names s) (param_tags c s))
                              (ty_from_legacy (free_ret_tag c s)) (sc_body s) SO_NONE None) (free_scopes c) in
  let meths := flat_map (fun p =>
      map (filled_method c (snd p)) (class_scopes c (fst p))) (kept c) in
  mk_IR (free ++ meths)
    (map (fun p => opt_text (cl_name (snd p))) (kept c))
    (map (fun p => join ";" (map fst (cl_ivars (snd p)))) (kept c))
    (map (fun p => join ";" (map (ivar_tag c) (cl_ivars (snd p)))) (kept c))
    (map (fun p => cc_emit_parent_tag c (snd p)) (kept c)).

(** [cc_build_ir_text]: the same data as text. *)
Definition table (kind key : text) (n : nat) (payload : text) : text :=
  kind ++ lit " " ++ key ++ lit " " ++ dec_u (Z.of_nat n) ++ lit " " ++ payload ++ ["010"%char].

Fixpoint join_t (sep : text) (l : list text) : text :=
  match l with
  | [] => []
  | [f] => f
  | f :: l' => f ++ sep ++ join_t sep l'
  end.

Definition local_lines (c : Compiler) (s : Scope) : text :=
  if (sc_body s <? 0) || (length (sc_locals s) =? 0)%nat then []
  else
    lit "SN " ++ dec_s (sc_body s) ++ lit " " ++ join "|" (map (fun l => opt_text (fst l)) (sc_locals s)) ++ ["010"%char] ++
    lit "ST " ++ dec_s (sc_body s) ++ lit " " ++ join "|" (map (fun l => cc_ty_tag c (snd l)) (sc_locals s)) ++ ["010"%char].

Definition ir_trailer : text :=
  unlines (map (fun s : string => lit s)
    ["INT @needs_regexp 0"; "INT @needs_rand 0"; "INT @needs_lambda 0";
     "INT @needs_file_io 0"; "INT @needs_fiber 0"; "INT @needs_bigint 0"]%string).

Definition cc_build_ir_text (c : Compiler) : text :=
  let fs := free_scopes c in
  let nm := length fs in
  let ks := kept c in
  let nc := length ks in
  let SA := lit "SA" in
  let per_class (f : nat * ClassInfo -> text) := join "|" (map f ks) in
  let per_meth (sep : text) (f : Scope -> text) := per_class (fun p => join_t sep (map f (class_scopes c (fst p)))) in
  lit "SPINEL-IR v1" ++ ["010"%char] ++
  table SA (lit "@meth_names") nm (join "|" (map (fun s => opt_text (sc_name s)) fs)) ++
  table SA (lit "@meth_param_names") nm (join "|" (map param_names fs)) ++
  table SA (lit "@meth_param_types") nm (join "|" (map (param_tags c) fs)) ++
  table SA (lit "@meth_return_types") nm (join "|" (map (free_ret_tag c) fs)) ++
  table (lit "IA") (lit "@meth_body_ids") nm (join "," (map (fun s => dec_s (sc_body s)) fs)) ++
  table SA (lit "@cls_names") nc (per_class (fun p => opt_text (cl_name (snd p)))) ++
  table SA (lit "@cls_parents") nc (per_class (fun p => cc_emit_parent_tag c (snd p))) ++
  table SA (lit "@cls_ivar_names") nc (per_class (fun p => join ";" (map fst (cl_ivars (snd p))))) ++
  table SA (lit "@cls_ivar_types") nc (per_class (fun p => join ";" (map (ivar_tag c) (cl_ivars (snd p))))) ++
  table SA (lit "@cls_meth_names") nc (per_meth (lit ";") (fun s => opt_text (sc_name s))) ++
  table SA (lit "@cls_meth_returns") nc (per_meth (lit ";") (class_ret_tag c)) ++
  table SA (lit "@cls_meth_ptypes") nc (per_meth (lit "%7C") (param_tags c)) ++
  table SA (lit "@cls_meth_params") nc (per_meth (lit "%7C") param_names) ++
  table SA (lit "@cls_meth_bodies") nc (per_meth (lit ";") (fun s => dec_s (sc_body s))) ++
  concat (map (local_lines c) (scopes c)) ++ ir_trailer.
End Excluded.
End Compiler.

(** ** The partition *)

Definition cc_sig_eligible (me : Method) : bool :=
  (0 <=? m_body me) &&
  (CcTy_eqb (m_ret me) CC_TY_INT || CcTy_eqb (m_ret me) CC_TY_VOID || CcTy_eqb (m_ret me) CC_TY_BOOL) &&
  forallb (fun p => CcTy_eqb (snd p) CC_TY_INT || CcTy_eqb (snd p) CC_TY_BOOL) (m_params me).

(** ** The two paths agree *)

Lemma join_t_join c l : join_t [c] l = join c l.
Proof. induction l as [|f l IH]; [reflexivity|]. destruct l; [reflexivity|]. cbn [join_t join app] in *. now rewrite IH. Qed.

Lemma pct_buf_plain a r : ~ In "%"%char a -> pct_buf (a ++ r) = a ++ pct_buf r.
Proof.
  induction a as [|c a IH]; intros H; [reflexivity|]. cbn [app pct_buf].
  destruct (Ascii.eqb_spec c "%") as [->|]; [exfalso; apply H; now left|].
  rewrite IH; [reflexivity|]. intros Hin. apply H. now right.
Qed.

Lemma clean_no_nul bad s : In "000"%char bad -> clean bad s -> no_nul s.
Proof.
  intros Hb Hs. apply Forall_forall. intros c Hc. apply Ascii.eqb_neq. intros ->. exact (Hs _ Hb Hc).
Qed.

(** Decoding the escaped bars gives the bar-separated list. *)
Lemma pct_decode_bars l : Forall (clean ["%"; "000"]%char) l -> pct_decode (join_t (lit "%7C") l) = join "|" l.
Proof.
  intros H. unfold pct_decode.
  assert (E : pct_buf (join_t (lit "%7C") l) = join "|" l).
  { induction H as [|f l Hf Hl IH]; [reflexivity|].
    assert (Hp : ~ In "%"%char f) by (apply Hf; now left).
    destruct l as [|g l].
    - cbn [join_t join]. rewrite <- (app_nil_r f), pct_buf_plain by assumption. reflexivity.
    - rewrite join_cons by discriminate. change (join_t (lit "%7C") (f :: g :: l)) with
        (f ++ "%"%char :: "7"%char :: "C"%char :: join_t (lit "%7C") (g :: l)).
      rewrite pct_buf_plain by assumption. cbn [pct_buf]. change (Ascii.eqb "%" "%") with true. cbv iota.
      change (strtol2 "7" "C") with (Some 124). cbv iota. rewrite IH. reflexivity. }
  rewrite E. apply cstr_id. apply (clean_no_nul ["%"; "000"]%char); [simpl; tauto|].
  apply clean_join; [simpl; intuition congruence|exact H].
Qed.

(** Tables whose columns come from one list give one method per element. *)
Lemma column {A} (f : A -> text) (L : list A) i x : nth_error L i = Some x ->
  nth i (map f L) [] = f x /\ nth_error (map f L) i = Some (f x).
Proof. intros H. rewrite nth_error_map, H. split; [|reflexivity]. apply nth_error_nth. now rewrite nth_error_map, H. Qed.

Lemma top_methods_map {A} (n r b pn pt : A -> text) (L : list A) :
  top_methods (map n L) (map r L) (map b L) (map pn L) (map pt L) =
  map (fun x => mk_method (n x) None (method_set_params (pn x) (pt x)) (ty_from_legacy (r x)) (atoi_int (b x)) SO_NONE None) L.
Proof.
  unfold top_methods. rewrite length_map. apply map_seq_nth. intros i x Hx. unfold ret_at, body_at.
  destruct (column n L i x Hx) as [-> _], (column pn L i x Hx) as [-> _], (column pt L i x Hx) as [-> _],
    (column r L i x Hx) as [_ ->], (column b L i x Hx) as [_ ->]. reflexivity.
Qed.

Definition class_columns {A} (parent cls : text) (n r b pn pt : A -> text) (L : list A) : list Method :=
  methods_of_class (Some parent) (Some cls) (Some (join_t (lit ";") (map n L))) (Some (join_t (lit ";") (map r L)))
    (Some (join_t (lit ";") (map b L))) (Some (join_t (lit "%7C") (map pn L))) (Some (join_t (lit "%7C") (map pt L))).

Lemma class_columns_map {A} parent cls (n r b pn pt : A -> text) (L : list A) : L <> [] ->
  Forall (fun x => ~ In ";"%char (n x) /\ ~ In ";"%char (r x) /\ ~ In ";"%char (b x) /\
                   clean ["|"; "%"; "000"]%char (pn x) /\ clean ["|"; "%"; "000"]%char (pt x)) L ->
  class_columns parent cls n r b pn pt L =
  map (fun x => class_method parent cls (n x) (ty_from_legacy (r x)) (atoi_int (b x)) (method_set_params (pn x) (pt x))) L.
Proof.
  intros Hne H. unfold class_columns, methods_of_class, option_map. change (lit ";") with [";"%char]. rewrite !join_t_join.
  assert (Hs : forall f : A -> text, Forall (fun x => ~ In ";"%char (f x)) L -> split (join ";" (map f L)) ";" = map f L)
    by (intros f Hf; rewrite split_cells by assumption; destruct L; [congruence|reflexivity]).
  assert (Hb : forall f : A -> text, Forall (fun x => clean ["|"; "%"; "000"]%char (f x)) L ->
                split (pct_decode (join_t (lit "%7C") (map f L))) "|" = map f L).
  { intros f Hf. rewrite pct_decode_bars.
    - rewrite split_cells; [destruct L; [congruence|reflexivity]|].
      eapply Forall_impl; [|exact Hf]. intros x Hx. apply Hx. now left.
    - apply Forall_map. eapply Forall_impl; [|exact Hf]. intros x. apply clean_sub. intros y. simpl. tauto. }
  rewrite !Hs, !Hb by (eapply Forall_impl; [|exact H]; intros x Hx; apply Hx).
  rewrite length_map. apply map_seq_nth. intros i x Hx. unfold ret_at, body_at.
  destruct (column n L i x Hx) as [-> _], (column pn L i x Hx) as [-> _], (column pt L i x Hx) as [-> _],
    (column r L i x Hx) as [_ ->], (column b L i x Hx) as [_ ->]. reflexivity.
Qed.

(** A class without methods leaves one nameless method, which is never eligible. *)
Lemma class_columns_nil {A} parent cls (n r b pn pt : A -> text) :
  filter cc_sig_eligible (class_columns parent cls n r b pn pt []) = [].
Proof.
  unfold class_columns, methods_of_class, class_method. cbn.
  destruct (so_of_parent parent) as [[k pre]|]; reflexivity.
Qed.

Section Agree.
Context {U : Upstream}.
Variable exclude : option text.

(** Text that survives the tables: names without bars, semicolons and newlines,
    parameter names and tags without any separator. *)
Definition name_bad : list ascii := ["|"; ";"; "010"]%char.
Definition leaf_bad : list ascii := ["|"; ";"; ","; "%"; "010"; "000"]%char.

Record plain (c : Compiler) : Prop := {
  p_names : Forall (fun s => clean name_bad (opt_text (sc_name s))) (scopes c);
  p_params : Forall (fun s => Forall (fun p => clean leaf_bad (opt_text (fst p))) (sc_params s)) (scopes c);
  p_locals : Forall (fun s => Forall (fun l => clean name_bad (opt_text (fst l))) (sc_locals s)) (scopes c);
  p_tags : forall t, clean leaf_bad (cc_ty_tag c t);
  p_bodies : Forall (fun s => - 2 ^ 31 <= sc_body s < 2 ^ 31) (scopes c);
  p_classes : Forall (fun cl => clean name_bad (opt_text (cl_name cl)) /\ clean name_bad (cc_emit_parent_tag c cl) /\
                                Forall (fun iv => clean name_bad (fst iv)) (cl_ivars cl)) (classes c)
}.

Definition table_line (kind key : text) (n : nat) (payload : text) : text :=
  kind ++ lit " " ++ key ++ lit " " ++ dec_u (Z.of_nat n) ++ lit " " ++ payload.

Lemma skip_count n r : skip_field (dec_u (Z.of_nat n) ++ " "%char :: r) = r.
Proof. apply skip_field_app. apply (clean_dec_u [" "]%char); [lia|repeat constructor|now left]. Qed.

(** A table line is taken for the table it names. *)
Lemma find_key_table i key sep kind n payload : nth_error ir_keys i = Some (key, sep) ->
  kind = lit "SA" \/ kind = lit "IA" ->
  find_key (table_line kind key n payload) ir_keys 0 = Some (i, split payload sep).
Proof.
  intros Hk Hkind. unfold table_line. cbn [lit list_ascii_of_string app].
  set (r := dec_u (Z.of_nat n) ++ " "%char :: payload).
  assert (E : skip_field r = payload) by apply skip_count.
  do 14 (destruct i as [|i]; [injection Hk as <- <-; destruct Hkind as [-> | ->]; simpl; rewrite E; reflexivity|]).
  destruct i; discriminate Hk.
Qed.

Lemma find_key_other line : strip_prefix (lit "SA ") line = None -> strip_prefix (lit "IA ") line = None ->
  forall keys i, find_key line keys i = None.
Proof.
  intros H1 H2 keys. induction keys as [|[k s] keys IH]; intros i; [reflexivity|].
  cbn [find_key]. unfold ir_payload. rewrite H1, H2. apply IH.
Qed.

Lemma fold_ignored ls : Forall (fun l => find_key l ir_keys 0 = None) ls -> forall t, fold_left ir_line ls t = t.
Proof. induction 1 as [|l ls H _ IH]; intros t; [reflexivity|]. cbn [fold_left]. unfold ir_line at 2. now rewrite H, IH. Qed.

Lemma table_unlines kind key n payload : table kind key n payload = unlines [table_line kind key n payload].
Proof. unfold table, table_line, unlines. cbn [map concat]. rewrite app_nil_r, <- !app_assoc. reflexivity. Qed.

Lemma unlines_app a b : unlines (a ++ b) = unlines a ++ unlines b.
Proof. unfold unlines. now rewrite map_app, concat_app. Qed.

Definition local_list (c : Compiler) (s : Scope) : list text :=
  if (sc_body s <? 0) || (length (sc_locals s) =? 0)%nat then []
  else [lit "SN " ++ dec_s (sc_body s) ++ lit " " ++ join "|" (map (fun l => opt_text (fst l)) (sc_locals s));
        lit "ST " ++ dec_s (sc_body s) ++ lit " " ++ join "|" (map (fun l => cc_ty_tag c (snd l)) (sc_locals s))].

Lemma local_lines_unlines c ss : concat (map (local_lines c) ss) = unlines (concat (map (local_list c) ss)).
Proof.
  induction ss as [|s ss IH]; [reflexivity|]. cbn [map concat]. rewrite unlines_app, <- IH. f_equal.
  unfold local_lines, local_list. destruct (_ || _); [reflexivity|].
  unfold unlines. cbn [map concat]. rewrite app_nil_r, <- !app_assoc. reflexivity.
Qed.

Definition trailer_list : list text :=
  map (fun s : string => lit s)
    ["INT @needs_regexp 0"; "INT @needs_rand 0"; "INT @needs_lambda 0";
     "INT @needs_file_io 0"; "INT @needs_fiber 0"; "INT @needs_bigint 0"]%string.

(** The tables of the text, each with its key's index, in the order written. *)
Section Payloads.
Variable c : Compiler.
Let fs := free_scopes exclude c.
Let ks := kept c.
Definition per_class (f : nat * ClassInfo -> text) : text := join "|" (map f ks).
Definition per_meth (sep : text) (f : Scope -> text) : text :=
  per_class (fun p => join_t sep (map f (class_scopes c (fst p)))).

Definition payload (i : nat) : text :=
  match i with
  | 0 => join "|" (map (fun s => opt_text (sc_name s)) fs)
  | 1 => join "|" (map param_names fs)
  | 2 => join "|" (map (param_tags c) fs)
  | 3 => join "|" (map (free_ret_tag c) fs)
  | 4 => join "," (map (fun s => dec_s (sc_body s)) fs)
  | 5 => per_class (fun p => opt_text (cl_name (snd p)))
  | 13 => per_class (fun p => cc_emit_parent_tag c (snd p))
  | 6 => per_class (fun p => join ";" (map fst (cl_ivars (snd p))))
  | 7 => per_class (fun p => join ";" (map (ivar_tag c) (cl_ivars (snd p))))
  | 8 => per_meth (lit ";") (fun s => opt_text (sc_name s))
  | 11 => per_meth (lit ";") (class_ret_tag c)
  | 10 => per_meth (lit "%7C") (param_tags c)
  | 9 => per_meth (lit "%7C") param_names
  | _ => per_meth (lit ";") (fun s => dec_s (sc_body s))
  end%nat.

Definition written : list nat := [0; 1; 2; 3; 4; 5; 13; 6; 7; 8; 11; 10; 9; 12]%nat.

Definition table_at (i : nat) : text :=
  let '(key, _) := nth i ir_keys ([], "|"%char) in
  table_line (if (i =? 4)%nat then lit "IA" else lit "SA") key (if (i <? 5)%nat then length fs else length ks) (payload i).

Lemma text_lines : cc_build_ir_text exclude c =
  unlines (lit "SPINEL-IR v1" :: map table_at written ++ concat (map (local_list c) (scopes c)) ++ trailer_list).
Proof.
  unfold cc_build_ir_text. rewrite !table_unlines, local_lines_unlines.
  change ir_trailer with (unlines trailer_list).
  unfold unlines, written. cbn [map app]. rewrite map_app. cbn [concat]. rewrite concat_app.
  rewrite ?app_nil_r, <- ?app_assoc. reflexivity.
Qed.
End Payloads.

Section Clean.
Variable c : Compiler.
Hypothesis Hc : plain c.

Definition params_bad : list ascii := ["|"; ";"; "%"; "010"; "000"]%char.

Lemma tl_in {A} (x : A) l : In x (tl l) -> In x l.
Proof. destruct l; [auto|right; assumption]. Qed.

Lemma free_in s : In s (free_scopes exclude c) -> In s (scopes c).
Proof. intros H. apply filter_In in H. now apply tl_in. Qed.

Lemma class_in s i : In s (class_scopes c i) -> In s (scopes c).
Proof. intros H. apply filter_In in H. now apply tl_in. Qed.

Lemma kept_in p : In p (kept c) -> In (snd p) (classes c).
Proof. intros H. apply filter_In in H. destruct H as [H _]. destruct p. now apply in_combine_r in H. Qed.

Lemma body_int s : In s (scopes c) -> - 2 ^ 31 <= sc_body s < 2 ^ 31.
Proof. intros H. exact (proj1 (Forall_forall _ _) (p_bodies c Hc) s H). Qed.

Ltac bads := simpl; intuition congruence.

Lemma name_clean s : In s (scopes c) -> clean name_bad (opt_text (sc_name s)).
Proof. intros H. exact (proj1 (Forall_forall _ _) (p_names c Hc) s H). Qed.

Lemma param_names_clean s : In s (scopes c) -> clean params_bad (param_names s).
Proof.
  intros H. apply clean_join; [bads|]. apply Forall_map.
  eapply Forall_impl; [|exact (proj1 (Forall_forall _ _) (p_params c Hc) s H)].
  intros p. apply clean_sub. intros x. bads.
Qed.

Lemma param_tags_clean s : clean params_bad (param_tags c s).
Proof.
  apply clean_join; [bads|]. apply Forall_map. apply Forall_forall. intros p _.
  apply (clean_sub _ leaf_bad); [intros x; bads|]. apply (p_tags c Hc).
Qed.

Lemma lit_clean bad s : Forall (fun x => ~ In x (lit s)) bad -> clean bad (lit s).
Proof. intros H x Hx. exact (proj1 (Forall_forall _ _) H x Hx). Qed.

Lemma free_ret_clean s : clean leaf_bad (free_ret_tag c s).
Proof.
  unfold free_ret_tag. destruct (ty_unresolved _); [|apply (p_tags c Hc)].
  destruct (cc_verdict_handler _); apply lit_clean; repeat constructor; bads.
Qed.

Lemma class_ret_clean s : clean leaf_bad (class_ret_tag c s).
Proof.
  unfold class_ret_tag. destruct (text_eqb _ _); [apply lit_clean; repeat constructor; bads|].
  destruct (ty_unresolved _); [apply lit_clean; repeat constructor; bads|apply (p_tags c Hc)].
Qed.

Lemma ivar_tag_clean iv : clean leaf_bad (ivar_tag c iv).
Proof. unfold ivar_tag. destruct (ty_unresolved _); [apply lit_clean; repeat constructor; bads|apply (p_tags c Hc)]. Qed.

Lemma body_clean (b : Z) : clean leaf_bad (dec_s b).
Proof. apply clean_dec_s; [bads|repeat constructor]. Qed.

Lemma class_facts p : In p (kept c) ->
  clean name_bad (opt_text (cl_name (snd p))) /\ clean name_bad (cc_emit_parent_tag c (snd p)) /\
  Forall (fun iv => clean name_bad (fst iv)) (cl_ivars (snd p)).
Proof. intros H. exact (proj1 (Forall_forall _ _) (p_classes c Hc) _ (kept_in p H)). Qed.

(** The cells of the class tables, free of bars and newlines. *)
Definition cell_bad : list ascii := ["|"; "010"]%char.

Lemma clean_join_t bad sep l : clean bad sep -> Forall (clean bad) l -> clean bad (join_t sep l).
Proof.
  intros Hs H. induction H as [|f l Hf Hl IH]; [apply clean_nil|]. destruct l as [|g l]; [exact Hf|].
  change (join_t sep (f :: g :: l)) with (f ++ sep ++ join_t sep (g :: l)). now repeat apply clean_app.
Qed.

Lemma meth_cell_clean sep (f : Scope -> text) i : clean cell_bad sep ->
  (forall s, In s (class_scopes c i) -> clean cell_bad (f s)) -> clean cell_bad (join_t sep (map f (class_scopes c i))).
Proof. intros Hs Hf. apply clean_join_t; [exact Hs|]. apply Forall_map, Forall_forall. exact Hf. Qed.

Lemma class_table_clean f : (forall p, In p (kept c) -> clean cell_bad (f p)) -> clean ["010"]%char (per_class c f).
Proof.
  intros H. apply clean_join; [bads|]. apply Forall_map, Forall_forall. intros p Hp.
  apply (clean_sub _ cell_bad); [intros x; bads|auto].
Qed.

Lemma free_table_clean sep f : sep <> "010"%char -> (forall s, In s (scopes c) -> clean ["010"]%char (f s)) ->
  clean ["010"]%char (join sep (map f (free_scopes exclude c))).
Proof. intros Hs H. apply clean_join; [bads|]. apply Forall_map, Forall_forall. intros s Hin. apply H, free_in, Hin. Qed.

Ltac sub b := apply (clean_sub _ b); [intros x; bads|].

Lemma cell_facts :
  (forall p, In p (kept c) -> clean cell_bad (opt_text (cl_name (snd p)))) /\
  (forall p, In p (kept c) -> clean cell_bad (cc_emit_parent_tag c (snd p))) /\
  (forall p, In p (kept c) -> clean cell_bad (join ";" (map fst (cl_ivars (snd p))))) /\
  (forall p, In p (kept c) -> clean cell_bad (join ";" (map (ivar_tag c) (cl_ivars (snd p))))) /\
  (forall i, clean cell_bad (join_t (lit ";") (map (fun s => opt_text (sc_name s)) (class_scopes c i)))) /\
  (forall i, clean cell_bad (join_t (lit ";") (map (class_ret_tag c) (class_scopes c i)))) /\
  (forall i, clean cell_bad (join_t (lit "%7C") (map (param_tags c) (class_scopes c i)))) /\
  (forall i, clean cell_bad (join_t (lit "%7C") (map param_names (class_scopes c i)))) /\
  (forall i, clean cell_bad (join_t (lit ";") (map (fun s => dec_s (sc_body s)) (class_scopes c i)))).
Proof.
  repeat apply conj; intros p.
  - intros H. sub name_bad. apply class_facts, H.
  - intros H. sub name_bad. apply class_facts, H.
  - intros H. apply clean_join; [bads|]. apply Forall_map. eapply Forall_impl; [|apply class_facts, H].
    intros iv Hiv. sub name_bad. exact Hiv.
  - intros _. apply clean_join; [bads|]. apply Forall_map, Forall_forall. intros iv _. sub leaf_bad. apply ivar_tag_clean.
  - apply meth_cell_clean; [apply lit_clean; repeat constructor; bads|]. intros s H. sub name_bad. apply name_clean, (class_in _ _ H).
  - apply meth_cell_clean; [apply lit_clean; repeat constructor; bads|]. intros s _. sub leaf_bad. apply class_ret_clean.
  - apply meth_cell_clean; [apply lit_clean; repeat constructor; bads|]. intros s _. sub params_bad. apply param_tags_clean.
  - apply meth_cell_clean; [apply lit_clean; repeat constructor; bads|]. intros s H. sub params_bad. apply param_names_clean, (class_in _ _ H).
  - apply meth_cell_clean; [apply lit_clean; repeat constructor; bads|]. intros s _. sub leaf_bad. apply body_clean.
Qed.

Lemma payload_clean i : clean ["010"]%char (payload c i).
Proof.
  destruct cell_facts as (C1 & C2 & C3 & C4 & C5 & C6 & C7 & C8 & C9).
  destruct i as [|[|[|[|[|[|[|[|[|[|[|[|[|[|i]]]]]]]]]]]]]]; cbn [payload]; unfold per_meth;
    try (apply class_table_clean; auto; fail); (apply free_table_clean; [discriminate|]); intros s Hs.
  - sub name_bad. now apply name_clean.
  - sub params_bad. now apply param_names_clean.
  - sub params_bad. apply param_tags_clean.
  - sub leaf_bad. apply free_ret_clean.
  - sub leaf_bad. apply body_clean.
Qed.

Definition sep_at (i : nat) : ascii := snd (nth i ir_keys ([], "|"%char)).

Lemma ir_line_table t i : (i < 14)%nat -> ir_line t (table_at c i) = upd t i (split (payload c i) (sep_at i)).
Proof.
  intros Hi. unfold ir_line, table_at, sep_at.
  destruct (nth i ir_keys ([], "|"%char)) as [key sep] eqn:E.
  rewrite (find_key_table i key sep).
  - reflexivity.
  - rewrite <- E. now apply nth_error_nth'.
  - destruct (i =? 4)%nat; auto.
Qed.

Lemma nl_free s : clean ["010"]%char s -> ~ In "010"%char s.
Proof. intros H. apply H. now left. Qed.

Lemma table_at_line i : (i < 14)%nat -> table_at c i <> [] /\ ~ In "010"%char (table_at c i).
Proof.
  intros Hi. unfold table_at. destruct (nth i ir_keys ([], "|"%char)) as [key sep] eqn:E. split.
  - destruct (i =? 4)%nat; discriminate.
  - apply nl_free. unfold table_line. repeat apply clean_app.
    + destruct (i =? 4)%nat; apply lit_clean; repeat constructor; bads.
    + apply lit_clean. repeat constructor. bads.
    + assert (Hk : In (key, sep) ir_keys) by (rewrite <- E; now apply nth_In).
      clear E Hi. intros x [<-|[]]. assert (Hall : forallb (fun k => forallb (fun c => negb (Ascii.eqb c "010")) (fst k)) ir_keys = true)
        by reflexivity. rewrite forallb_forall in Hall. specialize (Hall _ Hk). rewrite forallb_forall in Hall.
      intros Hin. specialize (Hall _ Hin). discriminate Hall.
    + apply lit_clean. repeat constructor. bads.
    + apply clean_dec_u; [lia|repeat constructor].
    + apply lit_clean. repeat constructor. bads.
    + apply payload_clean.
Qed.

Lemma local_list_lines : Forall (fun l => (l <> [] /\ ~ In "010"%char l) /\ find_key l ir_keys 0 = None)
  (concat (map (local_list c) (scopes c))).
Proof.
  apply Forall_concat, Forall_map, Forall_forall. intros s Hs. unfold local_list. destruct (_ || _); [constructor|].
  assert (Hl : Forall (clean ["010"]%char) (map (fun l => opt_text (fst l)) (sc_locals s))).
  { apply Forall_map. eapply Forall_impl; [|exact (proj1 (Forall_forall _ _) (p_locals c Hc) s Hs)].
    intros l. apply clean_sub. intros x. bads. }
  assert (Ht : Forall (clean ["010"]%char) (map (fun l => cc_ty_tag c (snd l)) (sc_locals s))).
  { apply Forall_map, Forall_forall. intros l _. sub leaf_bad. apply (p_tags c Hc). }
  assert (Hd : clean ["010"]%char (dec_s (sc_body s))) by (sub leaf_bad; apply body_clean).
  repeat constructor; try discriminate; try (apply find_key_other; reflexivity);
    (apply nl_free; repeat apply clean_app;
     [apply lit_clean; repeat constructor; bads|exact Hd|apply lit_clean; repeat constructor; bads|apply clean_join; [bads|assumption]]).
Qed.

Lemma ir_tables_built : ir_tables (cc_build_ir_text exclude c) = map (fun i => split (payload c i) (sep_at i)) (seq 0 14).
Proof.
  pose proof local_list_lines as Hl.
  assert (Htr : Forall (fun l => (l <> [] /\ ~ In "010"%char l) /\ find_key l ir_keys 0 = None) trailer_list)
    by (repeat constructor; try discriminate; bads).
  unfold ir_tables. rewrite text_lines, lines_of_unlines.
  - cbn [fold_left]. change (ir_line (repeat [] 14) (lit "SPINEL-IR v1")) with (repeat (@nil text) 14).
    rewrite fold_left_app. rewrite (fold_ignored (_ ++ trailer_list))
      by (apply Forall_app; split; [eapply Forall_impl; [|exact Hl]|eapply Forall_impl; [|exact Htr]]; intros l H; apply H).
    unfold written. cbn [map fold_left]. rewrite !ir_line_table by lia. reflexivity.
  - constructor; [split; [discriminate|bads]|]. apply Forall_app. split.
    + apply Forall_map. unfold written. repeat constructor; apply table_at_line; lia.
    + apply Forall_app. split; [eapply Forall_impl; [|exact Hl]|eapply Forall_impl; [|exact Htr]]; intros l H; apply H.
Qed.

Lemma free_cells f : (forall s, In s (scopes c) -> ~ In "|"%char (f s)) ->
  split (join "|" (map f (free_scopes exclude c))) "|" =
  match free_scopes exclude c with [] => [[]] | _ => map f (free_scopes exclude c) end.
Proof. intros H. apply split_cells, Forall_forall. intros s Hs. apply H, free_in, Hs. Qed.

Lemma class_cells f : (forall p, In p (kept c) -> clean cell_bad (f p)) ->
  split (per_class c f) "|" = match kept c with [] => [[]] | _ => map f (kept c) end.
Proof. intros H. apply split_cells, Forall_forall. intros p Hp. apply (H p Hp). now left. Qed.

Definition cells (i : nat) : list text := split (payload c i) (sep_at i).

(** The top-level methods of the text are the compiler's. *)
Lemma top_agree : filter cc_sig_eligible (top_methods (cells 0) (cells 3) (cells 4) (cells 1) (cells 2)) =
  filter cc_sig_eligible (map (fun s => mk_method (opt_text (sc_name s)) None
    (method_set_params (param_names s) (param_tags c s)) (ty_from_legacy (free_ret_tag c s)) (sc_body s) SO_NONE None)
    (free_scopes exclude c)).
Proof.
  unfold cells. change (sep_at 0) with "|"%char. change (sep_at 1) with "|"%char. change (sep_at 2) with "|"%char.
  change (sep_at 3) with "|"%char. change (sep_at 4) with ","%char. cbn [payload].
  rewrite !free_cells.
  - rewrite split_cells by (apply Forall_forall; intros s _; apply body_clean; bads).
    destruct (free_scopes exclude c) as [|s0 fs] eqn:E; [reflexivity|]. rewrite <- E. clear E.
    rewrite top_methods_map. f_equal. apply map_ext_in. intros s Hs. now rewrite atoi_int_dec_s by now apply body_int, free_in.
  - intros s _. apply param_tags_clean. bads.
  - intros s H. apply (param_names_clean s H). bads.
  - intros s _. apply free_ret_clean. bads.
  - intros s H. apply (name_clean s H). bads.
Qed.

(** The methods of one class. *)
Lemma class_agree parent cls i :
  filter cc_sig_eligible (class_columns parent cls (fun s => opt_text (sc_name s)) (class_ret_tag c)
    (fun s => dec_s (sc_body s)) param_names (param_tags c) (class_scopes c i)) =
  filter cc_sig_eligible (map (fun s => class_method parent cls (opt_text (sc_name s)) (ty_from_legacy (class_ret_tag c s))
    (sc_body s) (method_set_params (param_names s) (param_tags c s))) (class_scopes c i)).
Proof.
  destruct (class_scopes c i) as [|s0 ss] eqn:E; [apply class_columns_nil|]. rewrite <- E.
  rewrite class_columns_map.
  - f_equal. apply map_ext_in. intros s Hs. now rewrite atoi_int_dec_s by now apply body_int, (class_in s i).
  - rewrite E. discriminate.
  - apply Forall_forall. intros s Hs. apply class_in in Hs. repeat split.
    + apply (name_clean s Hs). bads.
    + apply class_ret_clean. bads.
    + apply body_clean. bads.
    + sub params_bad. now apply param_names_clean.
    + sub params_bad. apply param_tags_clean.
Qed.

Definition text_class (k : nat) : list Method :=
  methods_of_class (nth_error (cells 13) k) (nth_error (cells 5) k) (nth_error (cells 8) k) (nth_error (cells 11) k)
    (nth_error (cells 12) k) (nth_error (cells 9) k) (nth_error (cells 10) k).

Lemma class_tables : cells 5 = match kept c with [] => [[]] | _ => map (fun p => opt_text (cl_name (snd p))) (kept c) end /\
  cells 6 = match kept c with [] => [[]] | _ => map (fun p => join ";" (map fst (cl_ivars (snd p)))) (kept c) end /\
  cells 7 = match kept c with [] => [[]] | _ => map (fun p => join ";" (map (ivar_tag c) (cl_ivars (snd p)))) (kept c) end /\
  cells 13 = match kept c with [] => [[]] | _ => map (fun p => cc_emit_parent_tag c (snd p)) (kept c) end.
Proof.
  destruct cell_facts as (C1 & C2 & C3 & C4 & _). unfold cells, sep_at. cbn [nth ir_keys snd payload].
  rewrite !class_cells by assumption. auto.
Qed.

Lemma classes_agree :
  filter cc_sig_eligible (flat_map text_class (seq 0 (Nat.min (length (cells 5)) (length (cells 8))))) =
  filter cc_sig_eligible (flat_map (fun p => map (fun s => class_method (cc_emit_parent_tag c (snd p)) (opt_text (cl_name (snd p)))
    (opt_text (sc_name s)) (ty_from_legacy (class_ret_tag c s)) (sc_body s) (method_set_params (param_names s) (param_tags c s)))
    (class_scopes c (fst p))) (kept c)).
Proof.
  destruct class_tables as (T5 & _ & _ & T13). destruct cell_facts as (_ & _ & _ & _ & C5 & C6 & C7 & C8 & C9).
  rewrite !filter_flat_map. unfold text_class. rewrite T5, T13. unfold cells, sep_at. cbn [nth ir_keys snd payload].
  unfold per_meth. rewrite !class_cells by auto.
  destruct (kept c) as [|p0 ps] eqn:E.
  - cbn [length Nat.min seq flat_map nth_error]. rewrite app_nil_r.
    exact (class_columns_nil (A := Scope) [] [] (fun _ => []) (fun _ => []) (fun _ => []) (fun _ => []) (fun _ => [])).
  - rewrite <- E. clear T5 T13. rewrite !length_map, Nat.min_id. apply flat_map_seq_nth. intros i p Hp.
    rewrite !nth_error_map, Hp. cbn [option_map]. apply class_agree.
Qed.
End Clean.

(** C17: the in-process table and the text agree, for a program none of whose names
    contains a separator of the text ([plain]: no vertical bar, semicolon or line end
    in any name, and no comma, percent sign or zero byte in parameter names and type
    tags either, and node numbers are those of an [int]; a Ruby operator method called [|] is lost in the text,
    [bar_method_lost]).  Parsing the text the generator prints for such a program gives
    the methods the in-process construction gives -- same names, owners, parameters,
    types, bodies and struct_ops roles, in the same order -- on all methods that may be
    compiled, and the same class tables when there is a class; what the text adds for
    empty tables is never eligible. *)
Theorem ir_text_agrees c : plain c ->
  filter cc_sig_eligible (ir_m (ir_parse (cc_build_ir_text exclude c))) =
  filter cc_sig_eligible (ir_m (fill_ir_from_compiler exclude c)) /\
  (kept c <> [] ->
   cls_names (ir_parse (cc_build_ir_text exclude c)) = cls_names (fill_ir_from_compiler exclude c) /\
   cls_ivar_names (ir_parse (cc_build_ir_text exclude c)) = cls_ivar_names (fill_ir_from_compiler exclude c) /\
   cls_ivar_types (ir_parse (cc_build_ir_text exclude c)) = cls_ivar_types (fill_ir_from_compiler exclude c) /\
   cls_parents (ir_parse (cc_build_ir_text exclude c)) = cls_parents (fill_ir_from_compiler exclude c)).
Proof.
  intros Hc. unfold ir_parse. rewrite ir_tables_built by assumption. cbn [seq map nth ir_m cls_names cls_ivar_names
    cls_ivar_types cls_parents fill_ir_from_compiler]. split.
  - rewrite !filter_app. f_equal; [exact (top_agree c Hc)|exact (classes_agree c Hc)].
  - intros Hk. destruct (class_tables c Hc) as (T5 & T6 & T7 & T13).
    fold (cells c 5) (cells c 6) (cells c 7) (cells c 13). rewrite T5, T6, T7, T13.
    destruct (kept c); [congruence|]. auto.
Qed.
End Agree.

(** ** A program through both paths *)

#[local] Instance sample_upstream : Upstream := {|
  TyKind := bool;
  TY_INT := true;
  ty_unresolved := fun t => negb t;
  ty_object := fun _ => None;
  ty_name := fun _ => lit "int"
|}.

Definition sample_compiler : Compiler :=
  mk_compiler
    [mk_scope None (-1) true 1 [] [];
     mk_scope (Some (lit "xdp__drop")) (-1) false 7 [] [(Some (lit "x"), true)];
     mk_scope (Some (lit "enqueue")) 0 true 9 [(Some (lit "skb"), Some true); (Some (lit "int"), None)] []]
    [mk_class (Some (lit "Fifo")) (-1) 3 [(lit "@n", true)]]
    (mk_nt (fun i => if i =? 4 then Some (lit "ConstantPathNode") else None) (fun i _ => i + 1)
       (fun i _ => if i =? 4 then Some (lit "Qdisc") else Some (lit "BPF"))).

Lemma ir_text_agrees_witness :
  filter cc_sig_eligible (ir_m (ir_parse (cc_build_ir_text None sample_compiler))) =
  [mk_method (lit "xdp__drop") None [] CC_TY_INT 7 SO_NONE None;
   mk_method (lit "qdisc__enqueue") None [(lit "skb", CC_TY_INT); (lit "int_", CC_TY_INT)] CC_TY_INT 9 SO_QDISC
     (Some (lit "enqueue"))].
Proof.
  refine (eq_trans (proj1 (ir_text_agrees None sample_compiler _)) eq_refl).
  assert (Hd : forall bad s, forallb (fun x => negb (existsb (Ascii.eqb x) s)) bad = true -> clean bad s).
  { intros bad s H x Hx Hin. rewrite forallb_forall in H. specialize (H x Hx). apply negb_true_iff in H.
    rewrite <- not_true_iff_false in H. apply H. apply existsb_exists. exists x. split; [exact Hin|apply Ascii.eqb_refl]. }
  constructor; repeat constructor; try (apply Hd; reflexivity); try discriminate.
  intros t. apply Hd. reflexivity.
Defined.

(** An operator method named with a bar breaks the text path: its class table
    gains a column, while the in-process path keeps the method. *)
Definition bar_compiler : Compiler :=
  mk_compiler
    [mk_scope None (-1) true 1 [] []; mk_scope (Some (lit "|")) 0 true 9 [(Some (lit "o"), None)] []]
    [mk_class (Some (lit "Bits")) (-1) (-1) []] (mk_nt (fun _ => None) (fun _ _ => -1) (fun _ _ => None)).

Lemma bar_method_lost :
  map m_name (filter cc_sig_eligible (ir_m (fill_ir_from_compiler None bar_compiler))) = [lit "|"] /\
  map m_name (filter cc_sig_eligible (ir_m (ir_parse (cc_build_ir_text None bar_compiler)))) = [[]].
Proof. split; vm_compute; reflexivity. Qed.

End Ir.
