(* ===== verification/CgAst.v ===== *)
(** * The syntax tree

    The node table of [src/src/codegen_c/spinel_ebpf_cc.c].

    - [Ast]: [ast_parse] reads the line-oriented text of the syntax tree, the [nt_*]
      accessors look fields up.
    - [Format]: the lines of the format, the node a text describes, and that the reader
      finds exactly those. *)

From S2P Require Import Prelude CText CgText.

Module Ast.
Import Fields Decode.

Record SpNode := mk_node {
  n_type : option text;
  n_s : list (text * text);
  n_i : list (text * Z);
  n_r : list (text * Z);
  n_a : list (text * list Z)
}.

Definition zero_node : SpNode := mk_node None [] [] [] [].

Definition AST := list SpNode.

Definition node_at (t : AST) (id : Z) : option SpNode :=
  if (id <? 0) || (Z.of_nat (length t) <=? id) then None
  else match nth_error t (Z.to_nat id) with
       | Some n => match n_type n with Some _ => Some n | None => None end
       | None => None
       end.

Definition ast_ensure (t : AST) (id : Z) : AST :=
  if id <? Z.of_nat (length t) then t
  else t ++ repeat zero_node (Z.to_nat (id + 64 - Z.of_nat (length t))).

(** The dump is read, the reader gives up ([die]), or it leaves the table: it writes
    before its start, or its size overflows an [int]. *)
Inductive outcome :=
| Parsed (t : AST)
| Died (msg : text)
| OutOfBounds.

(** [sscanf(line, "X %d %63s")] behind the letter. *)
Definition scan_head (r : text) : option (Z * text * text) :=
  match scan_int r with
  | Some (id, r1) => match scan_word 63 r1 with Some (w, r2) => Some (id, w, r2) | None => None end
  | None => None
  end.

Definition max_fields : nat := 8.

(** The update of an existing node; [full] is the field-overflow test. *)
Definition with_node (t : AST) (id : Z) (full : SpNode -> bool) (msg : text) (f : SpNode -> SpNode) : outcome :=
  match node_at t id with
  | None => Parsed t
  | Some nd => if full nd then Died msg else Parsed (upd t (Z.to_nat id) (f nd))
  end.

Definition csv_ids (csv : text) : list Z :=
  match csv with [] => [] | _ => map atoi_int (split csv ",") end.

Definition ast_line (t : AST) (line : text) : outcome :=
  match strip_prefix (lit "N ") line with
  | Some r =>
      match scan_head r with
      | Some (id, ty, _) =>
          if (id <? 0) || ((Z.of_nat (length t) <=? id) && (2 ^ 31 <=? id + 64)) then OutOfBounds
          else
            let t' := ast_ensure t id in
            match nth_error t' (Z.to_nat id) with
            | Some n => Parsed (upd t' (Z.to_nat id) (mk_node (Some ty) (n_s n) (n_i n) (n_r n) (n_a n)))
            | None => Parsed t'
            end
      | None => Parsed t
      end
  | None =>
  match strip_prefix (lit "S ") line with
  | Some r =>
      match scan_head r with
      | Some (id, key, _) =>
          with_node t id (fun nd => max_fields <=? length (n_s nd))%nat (lit "S-field overflow (raise SpNode cap)")
            (fun nd => mk_node (n_type nd) (n_s nd ++ [(key, cc_unescape (after_fields line 3))]) (n_i nd) (n_r nd) (n_a nd))
      | None => Parsed t
      end
  | None =>
  match strip_prefix (lit "I ") line with
  | Some r =>
      match scan_head r with
      | Some (id, key, r2) =>
          match scan_ll r2 with
          | Some (iv, _) =>
              with_node t id (fun nd => max_fields <=? length (n_i nd))%nat (lit "I-field overflow")
                (fun nd => mk_node (n_type nd) (n_s nd) (n_i nd ++ [(key, iv)]) (n_r nd) (n_a nd))
          | None => Parsed t
          end
      | None => Parsed t
      end
  | None =>
  match strip_prefix (lit "R ") line with
  | Some r =>
      match scan_head r with
      | Some (id, key, r2) =>
          match scan_int r2 with
          | Some (ref, _) =>
              with_node t id (fun nd => max_fields <=? length (n_r nd))%nat (lit "R-field overflow")
                (fun nd => mk_node (n_type nd) (n_s nd) (n_i nd) (n_r nd ++ [(key, ref)]) (n_a nd))
          | None => Parsed t
          end
      | None => Parsed t
      end
  | None =>
  match strip_prefix (lit "A ") line with
  | Some r =>
      match scan_head r with
      | Some (id, key, _) =>
          with_node t id (fun nd => max_fields <=? length (n_a nd))%nat (lit "A-field overflow")
            (fun nd => mk_node (n_type nd) (n_s nd) (n_i nd) (n_r nd) (n_a nd ++ [(key, csv_ids (after_fields line 3))]))
      | None => Parsed t
      end
  | None => Parsed t
  end end end end end.

Fixpoint ast_lines (t : AST) (ls : list text) : outcome :=
  match ls with
  | [] => Parsed t
  | l :: ls' => match ast_line t l with Parsed t' => ast_lines t' ls' | o => o end
  end.

Definition ast_parse (txt : text) : outcome := ast_lines [] (lines_of txt).

(** ** Accessors *)

Fixpoint assoc {A} (key : text) (l : list (text * A)) : option A :=
  match l with
  | [] => None
  | (k, v) :: l' => if text_eqb k key then Some v else assoc key l'
  end.

Definition nt_type (t : AST) (id : Z) : option text := match node_at t id with Some n => n_type n | None => None end.
Definition nt_str (t : AST) (id : Z) (key : text) : option text :=
  match node_at t id with Some n => assoc key (n_s n) | None => None end.
Definition nt_ref (t : AST) (id : Z) (key : text) : Z :=
  match node_at t id with
  | Some n => match assoc key (n_r n) with Some r => r | None => -1 end
  | None => -1
  end.
Definition nt_int (t : AST) (id : Z) (key : text) (dflt : Z) : Z :=
  match node_at t id with
  | Some n => match assoc key (n_i n) with Some v => v | None => dflt end
  | None => dflt
  end.
Definition nt_arr (t : AST) (id : Z) (key : text) : list Z :=
  match node_at t id with
  | Some n => match assoc key (n_a n) with Some l => l | None => [] end
  | None => []
  end.

(** A negative identifier in a declaring line is not rejected: the type is stored
    in front of the table. *)
Lemma negative_id_out_of_bounds : ast_parse (lit "N -1 CallNode") = OutOfBounds.
Proof. reflexivity. Qed.

End Ast.

Module Format.
Import Fields Decode Ast.

(** ** The lines of the format

    What [ast_parse] documents as its input: a line declares a node with its type, or
    adds a string, an integer, a reference or an array of node numbers to one. *)
Inductive record :=
| RN (id : Z) (ty : text)
| RS (id : Z) (key raw : text)
| RI (id : Z) (key : text) (v : Z)
| RR (id : Z) (key : text) (ref : Z)
| RA (id : Z) (key : text) (ids : list Z).

Definition rec_id (r : record) : Z := match r with RN id _ | RS id _ _ | RI id _ _ | RR id _ _ | RA id _ _ => id end.

Definition head_text (letter : ascii) (id : Z) (key : text) : text := letter :: " "%char :: dec_u id ++ " "%char :: key.

(** The value of a string field is the rest of the line, escapes and all. *)
Definition rec_text (r : record) : text :=
  match r with
  | RN id ty => head_text "N" id ty
  | RS id key raw => head_text "S" id key ++ " "%char :: raw
  | RI id key v => head_text "I" id key ++ " "%char :: dec_s v
  | RR id key ref => head_text "R" id key ++ " "%char :: dec_s ref
  | RA id key ids => head_text "A" id key ++ " "%char :: join "," (map dec_s ids)
  end.

Definition key_ok (k : text) : Prop := word_ok 63 k.
Definition int32 (v : Z) : Prop := - 2 ^ 31 <= v < 2 ^ 31.

(** Words of at most 63 characters, values of their C types, and a table whose size is
    an [int]. *)
Definition rec_ok (r : record) : Prop :=
  0 <= rec_id r < 2 ^ 31 - 64 /\
  match r with
  | RN _ ty => key_ok ty
  | RS _ key raw => key_ok key /\ ~ In "010"%char raw
  | RI _ key v => key_ok key /\ - 2 ^ 63 <= v < 2 ^ 63
  | RR _ key ref => key_ok key /\ int32 ref
  | RA _ key ids => key_ok key /\ Forall int32 ids
  end.

(** A node is declared once, and before its fields. *)
Definition declares (r : record) : list Z := match r with RN id _ => [id] | _ => [] end.

Definition in_order (seen : list Z) (r : record) : Prop :=
  match r with RN id _ => ~ In id seen | _ => In (rec_id r) seen end.

Fixpoint ordered (seen : list Z) (rs : list record) : Prop :=
  match rs with [] => True | r :: rs' => in_order seen r /\ ordered (declares r ++ seen) rs' end.

(** ** The node a text describes *)

Definition types (rs : list record) (id : Z) : list text :=
  flat_map (fun r => match r with RN i ty => if i =? id then [ty] else [] | _ => [] end) rs.
Definition strings (rs : list record) (id : Z) : list (text * text) :=
  flat_map (fun r => match r with RS i k raw => if i =? id then [(k, cc_unescape raw)] else [] | _ => [] end) rs.
Definition ints (rs : list record) (id : Z) : list (text * Z) :=
  flat_map (fun r => match r with RI i k v => if i =? id then [(k, v)] else [] | _ => [] end) rs.
Definition refs (rs : list record) (id : Z) : list (text * Z) :=
  flat_map (fun r => match r with RR i k v => if i =? id then [(k, v)] else [] | _ => [] end) rs.
Definition arrays (rs : list record) (id : Z) : list (text * list Z) :=
  flat_map (fun r => match r with RA i k l => if i =? id then [(k, l)] else [] | _ => [] end) rs.

(** Its type, and its fields of each kind in the order of their lines. *)
Definition described (rs : list record) (id : Z) : SpNode :=
  mk_node (hd_error (types rs id)) (strings rs id) (ints rs id) (refs rs id) (arrays rs id).

(** At most eight fields of each kind. *)
Definition room_for (rs : list record) : Prop := forall id,
  (length (strings rs id) <= max_fields /\ length (ints rs id) <= max_fields /\
   length (refs rs id) <= max_fields /\ length (arrays rs id) <= max_fields)%nat.

(** ** Reading a line *)

Definition gap (r : text) : Prop := match r with [] => True | c :: _ => c = " "%char end.

Lemma gap_at_gap r : gap r -> at_gap r.
Proof. destruct r as [|c r]; [auto|]. simpl. now intros ->. Qed.

Lemma scan_s_key k r : key_ok k -> gap r -> scan_word 63 (" "%char :: k ++ r) = Some (k, r).
Proof.
  intros Hk Hr. apply (scan_word_app 63 [" "%char] k r); [repeat constructor|exact Hk|now apply gap_at_gap].
Qed.

Lemma dec_s_u id : 0 <= id -> dec_s id = dec_u id.
Proof. intros H. unfold dec_s. destruct (Z.ltb_spec id 0); [lia|reflexivity]. Qed.

Lemma scan_head_ok id k r : 0 <= id < 2 ^ 31 -> key_ok k -> gap r -> scan_head (dec_u id ++ " "%char :: k ++ r) = Some (id, k, r).
Proof.
  intros Hi Hk Hr. unfold scan_head. rewrite <- dec_s_u, scan_int_dec_s by (lia || reflexivity). now rewrite scan_s_key.
Qed.

Lemma key_no_space k : Forall (fun c => is_space c = false) k -> ~ In " "%char k.
Proof. intros H Hin. pose proof (proj1 (Forall_forall _ _) H _ Hin). discriminate. Qed.

Lemma after_head c id k v : Ascii.eqb c " " = false -> 0 <= id -> key_ok k ->
  after_fields (head_text c id k ++ " "%char :: v) 3 = v.
Proof.
  intros Hc Hi (_ & _ & Hk). unfold head_text. cbn [app after_fields skip_field]. rewrite Hc.
  change (Ascii.eqb " " " ") with true. cbv iota. rewrite <- app_assoc. cbn [app].
  rewrite skip_field_app by (apply (clean_dec_u [" "]%char); [assumption|repeat constructor|now left]).
  now apply skip_field_app, key_no_space.
Qed.

Lemma room n : (n < max_fields)%nat -> (max_fields <=? n)%nat = false.
Proof. intros H. now apply Nat.leb_gt. Qed.

Lemma scan_ll_gap v : - 2 ^ 63 <= v < 2 ^ 63 -> scan_ll (" "%char :: dec_s v) = Some (v, []).
Proof. intros H. pose proof (scan_ll_dec_s v [] H I) as E. rewrite app_nil_r in E. exact E. Qed.

Lemma scan_int_gap v : int32 v -> scan_int (" "%char :: dec_s v) = Some (v, []).
Proof. intros H. pose proof (scan_int_dec_s v [] H I) as E. rewrite app_nil_r in E. exact E. Qed.

Lemma csv_ids_join l : Forall int32 l -> csv_ids (join "," (map dec_s l)) = l.
Proof.
  intros Hl. destruct l as [|x l]; [reflexivity|]. unfold csv_ids.
  assert (Hne : join "," (map dec_s (x :: l)) <> []).
  { cbn [map]. assert (Hd : dec_s x <> []) by (unfold dec_s; destruct (x <? 0); [discriminate|apply dec_u_nonempty]).
    destruct (map dec_s l); cbn [join]; [exact Hd|]. intros E. apply app_eq_nil in E. now destruct E. }
  destruct (join "," (map dec_s (x :: l))) eqn:E; [congruence|]. rewrite <- E. rewrite split_cells.
  - rewrite map_map. rewrite (map_ext_in _ (fun z => z)); [apply map_id|].
    intros z Hz. apply atoi_int_dec_s. exact (proj1 (Forall_forall _ _) Hl z Hz).
  - apply Forall_forall. intros z _. apply (clean_dec_s [","]%char); [simpl; intuition congruence|repeat constructor|now left].
Qed.

Definition add_s (n : SpNode) (f : text * text) : SpNode := mk_node (n_type n) (n_s n ++ [f]) (n_i n) (n_r n) (n_a n).
Definition add_i (n : SpNode) (f : text * Z) : SpNode := mk_node (n_type n) (n_s n) (n_i n ++ [f]) (n_r n) (n_a n).
Definition add_r (n : SpNode) (f : text * Z) : SpNode := mk_node (n_type n) (n_s n) (n_i n) (n_r n ++ [f]) (n_a n).
Definition add_a (n : SpNode) (f : text * list Z) : SpNode := mk_node (n_type n) (n_s n) (n_i n) (n_r n) (n_a n ++ [f]).

Section Lines.
Variables (t : AST) (id : Z) (nd : SpNode).
Hypothesis Hid : 0 <= id < 2 ^ 31.
Hypothesis Hnd : node_at t id = Some nd.

Lemma head_parse c k r : key_ok k -> gap r ->
  scan_head (dec_u id ++ " "%char :: k ++ r) = Some (id, k, r) /\
  head_text c id k ++ r = c :: " "%char :: dec_u id ++ " "%char :: k ++ r.
Proof.
  intros Hk Hr. split; [now apply scan_head_ok|]. unfold head_text. cbn [app]. rewrite <- app_assoc. reflexivity.
Qed.

(** Reads the head of the line, down to the update of the node. *)
Ltac head_step k r :=
  let H1 := fresh in let H2 := fresh in
  match goal with |- context [head_text ?c id k ++ r] =>
    destruct (head_parse c k r) as [H1 H2]; [assumption|reflexivity|]; unfold ast_line; rewrite H2;
    cbn -[dec_u scan_head scan_int scan_ll cc_unescape after_fields csv_ids upd max_fields]; rewrite H1;
    rewrite ?scan_ll_gap, ?scan_int_gap by assumption;
    unfold with_node; rewrite Hnd, room by assumption; rewrite <- ?H2
  end.

Lemma line_s k raw : key_ok k -> (length (n_s nd) < max_fields)%nat ->
  ast_line t (rec_text (RS id k raw)) = Parsed (upd t (Z.to_nat id) (add_s nd (k, cc_unescape raw))).
Proof.
  intros Hk Hn. cbn [rec_text]. head_step k (" "%char :: raw). rewrite after_head by (auto; lia || reflexivity). reflexivity.
Qed.

Lemma line_i k v : key_ok k -> - 2 ^ 63 <= v < 2 ^ 63 -> (length (n_i nd) < max_fields)%nat ->
  ast_line t (rec_text (RI id k v)) = Parsed (upd t (Z.to_nat id) (add_i nd (k, v))).
Proof. intros Hk Hv Hn. cbn [rec_text]. head_step k (" "%char :: dec_s v). reflexivity. Qed.

Lemma line_r k v : key_ok k -> int32 v -> (length (n_r nd) < max_fields)%nat ->
  ast_line t (rec_text (RR id k v)) = Parsed (upd t (Z.to_nat id) (add_r nd (k, v))).
Proof. intros Hk Hv Hn. cbn [rec_text]. head_step k (" "%char :: dec_s v). reflexivity. Qed.

Lemma line_a k l : key_ok k -> Forall int32 l -> (length (n_a nd) < max_fields)%nat ->
  ast_line t (rec_text (RA id k l)) = Parsed (upd t (Z.to_nat id) (add_a nd (k, l))).
Proof.
  intros Hk Hl Hn. cbn [rec_text]. head_step k (" "%char :: join "," (map dec_s l)).
  rewrite after_head by (auto; lia || reflexivity). now rewrite csv_ids_join.
Qed.
End Lines.

(** The declaring line of a node whose slot is still blank. *)
Lemma line_n t id ty : 0 <= id < 2 ^ 31 - 64 -> key_ok ty -> nth_error (ast_ensure t id) (Z.to_nat id) = Some zero_node ->
  ast_line t (rec_text (RN id ty)) = Parsed (upd (ast_ensure t id) (Z.to_nat id) (mk_node (Some ty) [] [] [] [])).
Proof.
  intros Hi Hk Hz. cbn [rec_text]. unfold ast_line, head_text. cbn -[dec_u scan_head ast_ensure upd Z.pow].
  rewrite <- (app_nil_r ty) at 1. rewrite scan_head_ok by (auto; lia || exact I).
  destruct (Z.ltb_spec id 0); [lia|]. destruct (Z.leb_spec (2 ^ 31) (id + 64)); [lia|]. rewrite andb_false_r. cbn [orb]. now rewrite Hz.
Qed.

(** ** The table as a total map of slots *)

Definition slot (t : AST) (id : Z) : SpNode := nth (Z.to_nat id) t zero_node.

Lemma node_at_slot t id : 0 <= id ->
  node_at t id = match n_type (slot t id) with Some _ => Some (slot t id) | None => None end.
Proof.
  intros Hi. unfold node_at, slot. destruct (Z.ltb_spec id 0); [lia|]. cbn [orb].
  destruct (Z.leb_spec (Z.of_nat (length t)) id).
  - rewrite nth_overflow by lia. reflexivity.
  - rewrite (nth_error_nth' t zero_node) by lia. reflexivity.
Qed.

Lemma slot_ensure t id x : slot (ast_ensure t id) x = slot t x.
Proof.
  unfold slot, ast_ensure. destruct (id <? Z.of_nat (length t)); [reflexivity|].
  destruct (Nat.ltb_spec (Z.to_nat x) (length t)); [now rewrite app_nth1|].
  rewrite app_nth2 by lia. rewrite (nth_overflow t) by lia. apply nth_repeat.
Qed.

Lemma ensure_length t id : 0 <= id -> (Z.to_nat id < length (ast_ensure t id))%nat.
Proof.
  intros H. unfold ast_ensure. destruct (Z.ltb_spec id (Z.of_nat (length t))); [lia|].
  rewrite length_app, repeat_length. lia.
Qed.

Lemma slot_upd t id n x : 0 <= id -> 0 <= x -> (Z.to_nat id < length t)%nat ->
  slot (upd t (Z.to_nat id) n) x = if x =? id then n else slot t x.
Proof.
  intros Hi Hx Hl. unfold slot. destruct (Z.eqb_spec x id) as [->|Hne]; [now apply nth_upd_eq|apply nth_upd_ne; lia].
Qed.

Lemma node_at_length t id n : node_at t id = Some n -> (Z.to_nat id < length t)%nat.
Proof. unfold node_at. destruct (Z.ltb_spec id 0), (Z.leb_spec (Z.of_nat (length t)) id); cbn [orb]; try discriminate. lia. Qed.

(** ** One record more *)

Lemma described_other rs r x : rec_id r <> x -> described (rs ++ [r]) x = described rs x.
Proof.
  intros H. unfold described, types, strings, ints, refs, arrays. rewrite !flat_map_app. cbn [flat_map].
  destruct r; cbn [rec_id] in H; rewrite ?(proj2 (Z.eqb_neq _ _) H); cbn [app]; rewrite !app_nil_r; reflexivity.
Qed.

Lemma described_snoc rs r : types rs (rec_id r) <> [] ->
  described (rs ++ [r]) (rec_id r) =
  match r with
  | RN _ _ => described rs (rec_id r)
  | RS _ k raw => add_s (described rs (rec_id r)) (k, cc_unescape raw)
  | RI _ k v => add_i (described rs (rec_id r)) (k, v)
  | RR _ k v => add_r (described rs (rec_id r)) (k, v)
  | RA _ k l => add_a (described rs (rec_id r)) (k, l)
  end.
Proof.
  intros H. assert (T : forall l, hd_error (types rs (rec_id r) ++ l) = hd_error (types rs (rec_id r)))
    by (intros l; destruct (types rs (rec_id r)); [contradiction|reflexivity]).
  unfold described at 1. unfold types, strings, ints, refs, arrays in *. rewrite !flat_map_app.
  destruct r; cbn [flat_map rec_id] in *; rewrite ?Z.eqb_refl; cbn [app]; rewrite ?app_nil_r, ?T; reflexivity.
Qed.

Lemma types_declared rs id : types rs id <> [] <-> In id (flat_map declares rs).
Proof.
  induction rs as [|r rs IH]; [cbn; tauto|]. unfold types in *. cbn [flat_map]. rewrite in_app_iff, <- IH.
  destruct r as [i ty|i k v|i k v|i k v|i k v]; cbn [declares app In]; try tauto.
  destruct (Z.eqb_spec i id) as [->|N]; cbn [app]; [split; [tauto|discriminate]|tauto].
Qed.

Lemma undescribed rs id : ordered [] rs -> types rs id = [] -> described rs id = zero_node.
Proof.
  intros O T. assert (N : ~ In id (flat_map declares rs)) by (rewrite <- types_declared, T; tauto).
  enough (G : forall seen, ordered seen rs -> ~ In id seen -> ~ In id (flat_map declares rs) ->
            strings rs id = [] /\ ints rs id = [] /\ refs rs id = [] /\ arrays rs id = []).
  { destruct (G [] O (fun x => x) N) as (E1 & E2 & E3 & E4). unfold described. now rewrite T, E1, E2, E3, E4. }
  clear O T N. unfold strings, ints, refs, arrays. induction rs as [|r rs IH]; intros seen O S N; [auto|].
  destruct O as [Or O]. cbn [flat_map] in N |- *. rewrite in_app_iff in N.
  destruct (IH (declares r ++ seen) O ltac:(rewrite in_app_iff; tauto) ltac:(tauto)) as (E1 & E2 & E3 & E4). rewrite E1, E2, E3, E4.
  destruct r; cbn [in_order rec_id] in Or; try (destruct (Z.eqb_spec id0 id) as [->|]; [contradiction|]); auto.
Qed.

Lemma ordered_snoc rs r : forall seen, ordered seen (rs ++ [r]) ->
  ordered seen rs /\ match r with RN id _ => ~ In id (flat_map declares rs) /\ ~ In id seen | _ => In (rec_id r) (flat_map declares rs) \/ In (rec_id r) seen end.
Proof.
  induction rs as [|x rs IH]; intros seen H; cbn [app ordered flat_map] in *.
  - destruct H as [H _]. split; [exact I|]. destruct r; cbn in *; tauto.
  - destruct H as [Hx H]. destruct (IH _ H) as [O C]. split; [now split|].
    destruct r; rewrite in_app_iff in *; try (rewrite in_app_iff in C); tauto.
Qed.

Lemma room_snoc rs r : room_for (rs ++ [r]) -> room_for rs /\
  match r with
  | RN _ _ => True
  | RS id _ _ => (length (strings rs id) < max_fields)%nat
  | RI id _ _ => (length (ints rs id) < max_fields)%nat
  | RR id _ _ => (length (refs rs id) < max_fields)%nat
  | RA id _ _ => (length (arrays rs id) < max_fields)%nat
  end.
Proof.
  intros H. unfold room_for, strings, ints, refs, arrays in *. split.
  - intros id. specialize (H id). rewrite !flat_map_app, !length_app in H. lia.
  - specialize (H (rec_id r)). rewrite !flat_map_app, !length_app in H.
    destruct r; cbn [flat_map rec_id] in H; rewrite ?Z.eqb_refl in H; cbn [length app] in H; try exact I; lia.
Qed.

(** ** The whole text *)

Lemma ast_lines_app a b : forall t, ast_lines t (a ++ b) = match ast_lines t a with Parsed t' => ast_lines t' b | o => o end.
Proof. induction a as [|l a IH]; intros t; [reflexivity|]. cbn [app ast_lines]. destruct (ast_line t l); auto. Qed.

(** The line of a field, on a table that holds the records before it. *)
Lemma line_field t rs r : rec_ok r -> In (rec_id r) (flat_map declares rs) -> room_for (rs ++ [r]) -> declares r = [] ->
  (forall x, 0 <= x -> slot t x = described rs x) ->
  exists t', ast_line t (rec_text r) = Parsed t' /\ forall x, 0 <= x -> slot t' x = described (rs ++ [r]) x.
Proof.
  intros [Hi Hr] Hd Hroom Hn Hs. apply types_declared in Hd. destruct (room_snoc rs r Hroom) as [_ Hroom'].
  assert (Hat : node_at t (rec_id r) = Some (described rs (rec_id r))).
  { rewrite node_at_slot, Hs by lia. cbn [described n_type]. destruct (types rs (rec_id r)); [contradiction|reflexivity]. }
  assert (E : ast_line t (rec_text r) = Parsed (upd t (Z.to_nat (rec_id r)) (described (rs ++ [r]) (rec_id r)))).
  { rewrite described_snoc by exact Hd. destruct r as [i ty|i k v|i k v|i k v|i k v]; cbn [rec_id] in *; [discriminate| | | |].
    - apply line_s; tauto || lia || assumption.
    - apply line_i; tauto || lia || assumption.
    - apply line_r; tauto || lia || assumption.
    - apply line_a; tauto || lia || assumption. }
  eexists. split; [exact E|]. intros x Hx. rewrite slot_upd by (lia || now apply (node_at_length t (rec_id r) (described rs (rec_id r)))).
  destruct (Z.eqb_spec x (rec_id r)) as [->|N]; [reflexivity|]. rewrite described_other by congruence. now apply Hs.
Qed.

Lemma records_read rs : Forall rec_ok rs -> ordered [] rs -> room_for rs ->
  exists t, ast_lines [] (map rec_text rs) = Parsed t /\ forall x, 0 <= x -> slot t x = described rs x.
Proof.
  induction rs as [|r rs IH] using rev_ind; intros Hok Ho Hroom.
  { exists []. split; [reflexivity|]. intros x _. unfold slot, described. now destruct (Z.to_nat x). }
  apply Forall_app in Hok as [Hok Hr]. apply Forall_inv in Hr. destruct (ordered_snoc rs r [] Ho) as [Ho' Hc].
  destruct (IH Hok Ho' (proj1 (room_snoc rs r Hroom))) as (t & E & Hs).
  rewrite map_app, ast_lines_app, E. cbn [map ast_lines].
  destruct (declares r) as [|i []] eqn:D; [|destruct r; inversion D; subst i|destruct r; discriminate].
  - destruct (line_field t rs r) as (t' & -> & Hs'); try assumption; [destruct r; try discriminate; cbn in Hc; tauto|]. eauto.
  - destruct Hr as [Hi Hk], Hc as [Hc _]. cbn [rec_id] in Hi.
    assert (T : types rs id = []) by (destruct (types rs id) eqn:T; [reflexivity|]; exfalso; apply Hc, types_declared; congruence).
    rewrite line_n; [|assumption|assumption|].
    2:{ rewrite (nth_error_nth' _ zero_node) by (apply ensure_length; lia). f_equal. change (slot (ast_ensure t id) id = zero_node).
        rewrite slot_ensure, Hs by lia. now apply undescribed. }
    eexists. split; [reflexivity|]. intros x Hx. rewrite slot_upd by (lia || apply ensure_length; lia). rewrite slot_ensure.
    destruct (Z.eqb_spec x id) as [->|N]; [|rewrite described_other by (cbn; congruence); now apply Hs].
    pose proof (undescribed rs id Ho' T) as U. unfold described, types, strings, ints, refs, arrays in *. rewrite !flat_map_app. cbn [flat_map].
    injection U as E0 E1 E2 E3 E4. rewrite E1, E2, E3, E4. rewrite T, Z.eqb_refl. reflexivity.
Qed.

(** *** Its lines are lines *)

Lemma key_clean k : key_ok k -> clean ["010"]%char k.
Proof. intros (_ & _ & Hk) x [<-|[]] Hin. pose proof (proj1 (Forall_forall _ _) Hk _ Hin). discriminate. Qed.

Lemma head_clean c id k : c <> "010"%char -> 0 <= id -> key_ok k -> clean ["010"]%char (head_text c id k).
Proof.
  intros Hc Hi Hk. apply clean_cons; [simpl; intuition congruence|]. apply clean_cons; [simpl; intuition congruence|].
  apply clean_app; [apply clean_dec_u; [assumption|repeat constructor]|].
  apply clean_cons; [simpl; intuition congruence|]. now apply key_clean.
Qed.

Lemma rec_line r : rec_ok r -> rec_text r <> [] /\ ~ In "010"%char (rec_text r).
Proof.
  intros [Hi Hr]. split; [now destruct r|].
  assert (Hdec : forall z, clean ["010"]%char (dec_s z)) by (intros z; apply clean_dec_s; [simpl; intuition congruence|repeat constructor]).
  assert (H : clean ["010"]%char (rec_text r)); [|apply H; now left].
  destruct r as [i ty|i k raw|i k v|i k v|i k l]; cbn [rec_text rec_id] in *; [apply head_clean; [discriminate|lia|tauto]| | | |];
    (apply clean_app; [apply head_clean; [discriminate|lia|tauto]|]; apply clean_cons; [simpl; intuition congruence|]).
  - intros x [<-|[]]. tauto.
  - apply Hdec.
  - apply Hdec.
  - apply clean_join; [simpl; intuition congruence|]. apply Forall_map, Forall_forall. intros z _. apply Hdec.
Qed.

(** C27: the reader of the syntax tree.  Take any text of lines in its format, the
    nodes declared once and before their fields and otherwise in any order and
    interleaving, with at most eight fields of each kind per node, words of at most 63
    characters and numbers within their C types.  The reader succeeds, and for every
    number the table holds exactly the node its lines describe: the declared type and
    the fields of each kind in the order of their lines, strings with their escapes
    undone; numbers without a declaration have no node. *)
Theorem ast_text_read rs : Forall rec_ok rs -> ordered [] rs -> room_for rs ->
  exists t, ast_parse (unlines (map rec_text rs)) = Parsed t /\
    forall id, node_at t id = if existsb (Z.eqb id) (flat_map declares rs) then Some (described rs id) else None.
Proof.
  intros Hok Ho Hr. destruct (records_read rs Hok Ho Hr) as (t & E & Hs). exists t. unfold ast_parse. rewrite lines_of_unlines.
  2:{ apply Forall_map. eapply Forall_impl; [|exact Hok]. apply rec_line. }
  split; [exact E|]. intros id.
  assert (D : existsb (Z.eqb id) (flat_map declares rs) = true <-> In id (flat_map declares rs)).
  { rewrite existsb_exists. split; [intros (x & Hx & Ex); apply Z.eqb_eq in Ex; now subst|intros H; exists id; now rewrite Z.eqb_refl]. }
  destruct (Z.ltb_spec id 0) as [Hneg|Hpos].
  - unfold node_at. apply Z.ltb_lt in Hneg as Hn. rewrite Hn. cbn [orb]. destruct (existsb _ _); [|reflexivity].
    exfalso. pose proof (proj1 D eq_refl) as B. apply in_flat_map in B as (r & Hin & Hd). pose proof (proj1 (Forall_forall _ _) Hok r Hin) as [Hi _].
    destruct r; cbn in Hd, Hi; try contradiction. lia.
  - rewrite node_at_slot, Hs by assumption. cbn [described n_type].
    rewrite <- types_declared in D. destruct (existsb _ _), (types rs id); try reflexivity.
    + now destruct (proj1 D eq_refl).
    + exfalso. enough (false = true) by discriminate. now apply D.
Qed.

(** Two nodes with their lines interleaved, and a string with an escape. *)
Definition sample_records : list record :=
  [RN 3 (lit "CallNode"); RN 0 (lit "IntegerNode"); RS 3 (lit "name") (lit "a%20b c"); RI 0 (lit "value") (-42);
   RR 3 (lit "receiver") (-1); RA 3 (lit "args") [1; 2]; RA 3 (lit "empty") []].

Lemma ast_text_read_witness :
  exists t, ast_parse (unlines (map rec_text sample_records)) = Parsed t /\
    node_at t 3 = Some (mk_node (Some (lit "CallNode")) [(lit "name", lit "a b c")] [] [(lit "receiver", -1)] [(lit "args", [1; 2]); (lit "empty", [])]) /\
    node_at t 0 = Some (mk_node (Some (lit "IntegerNode")) [] [(lit "value", -42)] [] []) /\ node_at t 1 = None.
Proof.
  assert (Hk : forall s, forallb (fun c => negb (is_space c)) s && (1 <=? length s)%nat && (length s <=? 63)%nat = true -> key_ok s).
  { intros s H. apply andb_true_iff in H. destruct H as [H H3]. apply andb_true_iff in H. destruct H as [H1 H2].
    apply Nat.leb_le in H2, H3. split; [intros ->; simpl in H2; lia|]. split; [exact H3|].
    apply Forall_forall. intros c Hc. rewrite forallb_forall in H1. now apply negb_true_iff, H1. }
  destruct (ast_text_read sample_records) as (t & E & H).
  - repeat (apply Forall_cons; [split; [cbn; lia|]; cbn; repeat split; try (apply Hk; reflexivity); unfold int32; try lia; try (intuition discriminate)|]);
      [..|apply Forall_nil]; repeat constructor; unfold int32; lia.
  - cbn. intuition discriminate.
  - intros id. unfold strings, ints, refs, arrays, sample_records, max_fields. cbn [flat_map]. destruct (3 =? id), (0 =? id); cbn; lia.
  - exists t. split; [exact E|]. rewrite !H. repeat split; vm_compute; reflexivity.
Defined.

End Format.
