(* ===== verification/CgConst.v ===== *)
(** * Names of the code generator that stand for values or C symbols

    [src/src/codegen_c/spinel_ebpf_cc.c]: the constants a probe may name
    ([cc_known_const], [cc_const_path_value], [cc_macro_path]), the operators, the C
    names of methods and instance variables, and the partition verdict that decides
    which methods are compiled. *)

From S2P Require Import Prelude CText CgText CgIr.

Module Const.

Definition known : list (string * Z) :=
  [
   ("XDP_ABORTED", 0); ("XDP_DROP", 1); ("XDP_PASS", 2); ("XDP_TX", 3); ("XDP_REDIRECT", 4); ("IPPROTO_IP", 0);
   ("IPPROTO_ICMP", 1); ("IPPROTO_TCP", 6); ("IPPROTO_UDP", 17); ("IPPROTO_ICMPV6", 58); ("ETH_P_IP", 2048);
   ("ETH_P_IPV6", 34525); ("ETH_P_ARP", 2054); ("TC_ACT_OK", 0); ("TC_ACT_RECLASSIFY", 1); ("TC_ACT_SHOT", 2);
   ("TC_ACT_PIPE", 3); ("TC_ACT_STOLEN", 4); ("TC_ACT_QUEUED", 5); ("TC_ACT_REPEAT", 6);
   ("TC_ACT_REDIRECT", 7); ("TC_ACT_TRAP", 8); ("SK_DROP", 0); ("SK_PASS", 1); ("TCP_FLAG_FIN", 1);
   ("TCP_FLAG_SYN", 2); ("TCP_FLAG_RST", 4); ("TCP_FLAG_PSH", 8); ("TCP_FLAG_ACK", 16); ("TCP_FLAG_URG", 32);
   ("TCP_FLAG_ECE", 64); ("TCP_FLAG_CWR", 128); ("TCP_STATE_ESTABLISHED", 1); ("TCP_STATE_SYN_SENT", 2);
   ("TCP_STATE_SYN_RECV", 3); ("TCP_STATE_FIN_WAIT1", 4); ("TCP_STATE_FIN_WAIT2", 5);
   ("TCP_STATE_TIME_WAIT", 6); ("TCP_STATE_CLOSE", 7); ("TCP_STATE_CLOSE_WAIT", 8); ("TCP_STATE_LAST_ACK", 9);
   ("TCP_STATE_LISTEN", 10); ("TCP_STATE_CLOSING", 11); ("BPF_SOCK_OPS_TIMEOUT_INIT", 1);
   ("BPF_SOCK_OPS_RWND_INIT", 2); ("BPF_SOCK_OPS_TCP_CONNECT_CB", 3);
   ("BPF_SOCK_OPS_ACTIVE_ESTABLISHED_CB", 4); ("BPF_SOCK_OPS_PASSIVE_ESTABLISHED_CB", 5);
   ("BPF_SOCK_OPS_NEEDS_ECN", 6); ("BPF_SOCK_OPS_BASE_RTT", 7); ("BPF_SOCK_OPS_RTO_CB", 8);
   ("BPF_SOCK_OPS_RETRANS_CB", 9); ("BPF_SOCK_OPS_STATE_CB", 10); ("BPF_SOCK_OPS_TCP_LISTEN_CB", 11);
   ("BPF_SOCK_OPS_RTT_CB", 12); ("AF_INET", 2); ("AF_INET6", 10); ("CAP_CHOWN", 0); ("CAP_DAC_OVERRIDE", 1);
   ("CAP_DAC_READ_SEARCH", 2); ("CAP_FOWNER", 3); ("CAP_FSETID", 4); ("CAP_KILL", 5); ("CAP_SETGID", 6);
   ("CAP_SETUID", 7); ("CAP_SETPCAP", 8); ("CAP_LINUX_IMMUTABLE", 9); ("CAP_NET_BIND_SERVICE", 10);
   ("CAP_NET_BROADCAST", 11); ("CAP_NET_ADMIN", 12); ("CAP_NET_RAW", 13); ("CAP_IPC_LOCK", 14);
   ("CAP_IPC_OWNER", 15); ("CAP_SYS_MODULE", 16); ("CAP_SYS_RAWIO", 17); ("CAP_SYS_CHROOT", 18);
   ("CAP_SYS_PTRACE", 19); ("CAP_SYS_PACCT", 20); ("CAP_SYS_ADMIN", 21); ("CAP_SYS_BOOT", 22);
   ("CAP_SYS_NICE", 23); ("CAP_SYS_RESOURCE", 24); ("CAP_SYS_TIME", 25); ("CAP_SYS_TTY_CONFIG", 26);
   ("CAP_MKNOD", 27); ("CAP_LEASE", 28); ("CAP_AUDIT_WRITE", 29); ("CAP_AUDIT_CONTROL", 30);
   ("CAP_SETFCAP", 31); ("CAP_MAC_OVERRIDE", 32); ("CAP_MAC_ADMIN", 33); ("CAP_SYSLOG", 34);
   ("CAP_WAKE_ALARM", 35); ("CAP_BLOCK_SUSPEND", 36); ("CAP_AUDIT_READ", 37); ("CAP_PERFMON", 38);
   ("CAP_BPF", 39); ("CAP_CHECKPOINT_RESTORE", 40); ("S_IFREG", 32768); ("S_IFDIR", 16384); ("S_IFLNK", 40960);
   ("S_IFSOCK", 49152); ("S_IFBLK", 24576); ("S_IFCHR", 8192); ("S_IFIFO", 4096)
  ]%string.

Fixpoint lookup {A} (l : list (string * A)) (name : text) : option A :=
  match l with
  | [] => None
  | (k, v) :: l' => if text_eqb (lit k) name then Some v else lookup l' name
  end.

Definition cc_known_const (name : text) : option Z := lookup known name.

Definition macro_paths : list (string * string) :=
  [("SCX::DSQ::GLOBAL", "SCX_DSQ_GLOBAL"); ("SCX::DSQ::LOCAL", "SCX_DSQ_LOCAL"); ("SCX::SLICE_DFL", "SCX_SLICE_DFL");
   ("SCX::SLICE_INF", "SCX_SLICE_INF"); ("SCX::KICK_PREEMPT", "SCX_KICK_PREEMPT"); ("SCX::ENQ_PREEMPT", "SCX_ENQ_PREEMPT")]%string.

Definition cc_macro_path (path : text) : option string := lookup macro_paths path.

Definition path_prefixes : list (string * string) :=
  [("BPF::SockOps::", "BPF_SOCK_OPS_"); ("TCP::Flag::", "TCP_FLAG_"); ("TCP::State::", "TCP_STATE_");
   ("IP::Proto::", "IPPROTO_"); ("TC::Act::", "TC_ACT_"); ("Eth::P::", "ETH_P_"); ("CAP::", "CAP_");
   ("FileType::", "S_IF"); ("XDP::", "XDP_"); ("SK::", "SK_")]%string.

Fixpoint path_value (l : list (string * string)) (path : text) : option Z :=
  match l with
  | [] => None
  | (pp, fp) :: l' =>
      match strip_prefix (lit pp) path with
      | Some rest => cc_known_const (trunc 128 (lit fp ++ rest))
      | None => path_value l' path
      end
  end.

Definition cc_const_path_value (path : text) : option Z := path_value path_prefixes path.

Definition cc_is_binary_op (name : text) : bool :=
  existsb (fun s => text_eqb name (lit s))
    ["+"; "-"; "*"; "/"; "%"; "=="; "!="; "<"; ">"; "<="; ">="; "&"; "|"; "^"; "<<"; ">>"]%string.


(** Every constant is found under its own name: no entry shadows another. *)
Lemma known_found : forallb (fun p => match cc_known_const (lit (fst p)) with Some v => v =? snd p | None => false end) known = true.
Proof. vm_compute. reflexivity. Qed.

(** The flat names a module prefix stands for, and that the paths find them. *)
Definition path_ok (pre : string * string) (c : string * Z) : bool :=
  match strip_prefix (lit (snd pre)) (lit (fst c)) with
  | None => true
  | Some rest => match cc_const_path_value (lit (fst pre) ++ rest) with Some v => v =? snd c | None => false end
  end.

Lemma paths_found : forallb (fun pre => forallb (path_ok pre) known) path_prefixes = true.
Proof. vm_compute. reflexivity. Qed.

(** Both spellings of a constant have the value of the table: the flat name, and
    the module path under every prefix the flat name starts with. *)
Lemma const_spellings_agree n v : In (n, v) known ->
  cc_known_const (lit n) = Some v /\
  forall pp fp rest, In (pp, fp) path_prefixes -> lit n = lit fp ++ rest -> cc_const_path_value (lit pp ++ rest) = Some v.
Proof.
  intros Hin. split.
  - pose proof known_found as H. rewrite forallb_forall in H. specialize (H _ Hin). cbn [fst snd] in H.
    destruct (cc_known_const (lit n)) as [w|]; [|discriminate]. apply Z.eqb_eq in H. congruence.
  - intros pp fp rest Hp E. pose proof paths_found as H. rewrite forallb_forall in H. specialize (H _ Hp).
    rewrite forallb_forall in H. specialize (H _ Hin). unfold path_ok in H. cbn [fst snd] in H.
    rewrite E, (proj2 (strip_prefix_spec (lit fp) (lit fp ++ rest) rest) eq_refl) in H.
    destruct (cc_const_path_value (lit pp ++ rest)) as [w|]; [|discriminate]. apply Z.eqb_eq in H. congruence.
Qed.

End Const.

(** * C names of methods and variables *)

Module CNames.
Import Names Ir.

Definition cc_func_name (me : Method) : text :=
  match m_cls me with
  | Some c => cc_lower c ++ lit "_" ++ m_name me
  | None => cc_safe_dup (m_name me)
  end.

Definition cc_qual_name (me : Method) : text :=
  match m_cls me with Some c => c ++ lit "#" ++ m_name me | None => m_name me end.

(** The map of an instance variable on the kernel targets. *)
Definition strip_at (ivar : text) : text := match ivar with c :: r => if Ascii.eqb c "@" then r else ivar | [] => [] end.

Definition cc_ivar_map (g_unit : text) (g_method : option Method) (ivar : text) : text :=
  match g_method with
  | Some (mk_method _ (Some cls) _ _ _ _ _) => cc_lower cls ++ lit "_at_" ++ strip_at ivar
  | _ => g_unit ++ lit "_top_" ++ strip_at ivar
  end.

(** A class method and a top-level method can get one C name. *)
Lemma func_name_collides :
  cc_func_name (mk_method (lit "inc") (Some (lit "Counter")) [] Types.CC_TY_INT 1 SO_NONE None) =
  cc_func_name (mk_method (lit "counter_inc") None [] Types.CC_TY_INT 2 SO_NONE None).
Proof. reflexivity. Qed.

End CNames.

(** * The partition *)

Module Partition.
Import Fields Ir CNames.

Section Verdict.
(** The value of [SPNL_PARTITION_NATIVE]. *)
Variable native : option text.

Definition cc_partition_native (me : Method) : bool :=
  cc_name_in_env_list (match m_cls me with Some c => trunc 256 (c ++ lit "#" ++ m_name me) | None => m_name me end) native.

Definition cc_method_eligible (me : Method) : bool := cc_sig_eligible me && negb (cc_partition_native me).

(** The overrides announced: exactly the disagreements. *)
Definition cc_report_partition_overrides (ir : IR) : list Method :=
  match native with
  | None | Some [] => []
  | Some _ => filter (fun me => cc_sig_eligible me && cc_partition_native me) (ir_m ir)
  end.

Definition cc_is_ebpf_method (ir : IR) (name : text) : bool :=
  existsb (fun me => cc_method_eligible me && text_eqb (m_name me) name) (ir_m ir).

(** A name without commas is found in the list exactly when it is one of its items. *)
Lemma env_list_member name ex : name <> [] -> cc_name_in_env_list name (Some ex) = true <-> In name (split ex ",").
Proof.
  intros Hne. unfold cc_name_in_env_list. rewrite existsb_exists.
  assert (Hseg : In name (env_segments ex) <-> In name (split ex ",")).
  { unfold env_segments. destruct (rev (split ex ",")) as [|[|c x] r] eqn:E; [tauto| |tauto].
    assert (Es : split ex "," = rev r ++ [[]]) by (rewrite <- (rev_involutive (split ex ",")), E; reflexivity).
    rewrite Es. rewrite in_app_iff. simpl. intuition congruence. }
  rewrite <- Hseg. split.
  - intros (x & Hx & E). apply text_eqb_eq in E. now subst x.
  - intros H. exists name. split; [exact H|apply text_eqb_refl].
Qed.

(** No method disappears silently.  Every method with a compilable signature is
    either compiled or announced as overruled, never both; and it is overruled
    exactly when its qualified name, of at most 255 characters, is an item of the
    list the partition passes. *)
Theorem partition_accounts_for_all ir me : In me (ir_m ir) -> cc_sig_eligible me = true -> m_name me <> [] ->
  (cc_method_eligible me = true <-> ~ In me (cc_report_partition_overrides ir)) /\
  (cc_method_eligible me = false <->
   exists ex, native = Some ex /\
     In (match m_cls me with Some c => trunc 256 (cc_qual_name me) | None => cc_qual_name me end) (split ex ",")).
Proof.
  intros Hin Hsig Hname. unfold cc_method_eligible. rewrite Hsig. cbn [andb].
  assert (Hq : (match m_cls me with Some c => trunc 256 (c ++ lit "#" ++ m_name me) | None => m_name me end) <> []).
  { destruct (m_cls me) as [c|]; [|exact Hname]. intros E. apply (f_equal (@length ascii)) in E.
    unfold trunc in E. rewrite length_firstn, !length_app in E. change (length (lit "#")) with 1%nat in E. cbn [length] in E. lia. }
  assert (Hnat : cc_partition_native me = true <-> exists ex, native = Some ex /\
     In (match m_cls me with Some c => trunc 256 (cc_qual_name me) | None => cc_qual_name me end) (split ex ",")).
  { unfold cc_partition_native, cc_qual_name. destruct native as [ex|].
    - destruct (m_cls me); rewrite env_list_member by exact Hq;
        (split; [intros H; exists ex; auto|intros (e & E & H); injection E as <-; exact H]).
    - split; [discriminate|intros (e & E & _); discriminate]. }
  split.
  - unfold cc_report_partition_overrides. destruct (cc_partition_native me) eqn:E; cbn [negb].
    + split; [discriminate|]. intros H. exfalso. apply H. unfold cc_partition_native in E.
      destruct native as [[|c ex]|] eqn:En; try discriminate E.
      apply filter_In. split; [exact Hin|]. rewrite Hsig. unfold cc_partition_native. rewrite En. exact E.
    + split; [|reflexivity]. intros _ H. destruct native as [[|c ex]|]; try contradiction.
      apply filter_In in H. destruct H as [_ H]. rewrite Hsig in H. cbn [andb] in H. congruence.
  - rewrite <- Hnat. destruct (cc_partition_native me); cbn [negb]; split; congruence.
Qed.
End Verdict.

Definition sample_ir : IR :=
  mk_IR [mk_method (lit "worker_loop") None [(lit "port", Types.CC_TY_INT)] Types.CC_TY_INT 4 SO_NONE None;
         mk_method (lit "inc") (Some (lit "Counter")) [] Types.CC_TY_VOID 5 SO_NONE None] [] [] [] [].

Lemma partition_accounts_for_all_witness :
  cc_method_eligible (Some (lit "a,Counter#inc")) (nth 1 (ir_m sample_ir) (mk_method [] None [] Types.CC_TY_INT 0 SO_NONE None)) = false.
Proof.
  apply (partition_accounts_for_all (Some (lit "a,Counter#inc")) sample_ir).
  - now right; left.
  - reflexivity.
  - discriminate.
  - exists (lit "a,Counter#inc"). split; [reflexivity|]. now right; left.
Defined.

End Partition.
