(* ===== verification/CgAttach.v ===== *)
(** * Attach points

    [src/src/codegen_c/attach_schema.h] and the functions of [spinel_ebpf_cc.c] that
    read it: the declaration table of the attach vocabulary, the detection of a
    handler from its method name, the context gates of the packet builtins and the
    monitor-mode verdict. *)

From S2P Require Import Prelude CText CgText CgIr.

Module Attach.

Inductive AttachKind :=
| AK_NONE | AK_KPROBE | AK_KRETPROBE | AK_TRACEPOINT | AK_FENTRY | AK_FEXIT | AK_XDP | AK_TC
| AK_SK_VERDICT | AK_UPROBE | AK_URETPROBE | AK_USDT | AK_LSM | AK_FMOD_RET | AK_ITER_TASK
| AK_RAW_TP | AK_PERF_EVENT | AK_SOCK_OPS | AK_KPROBE_MULTI | AK_TIMER | AK_USER_RINGBUF.

Inductive CcAttachDetect := CC_AD_PREFIX | CC_AD_CLASS.

Inductive CcSecMode := CC_SEC_FIXED | CC_SEC_TEMPLATE | CC_SEC_SPLIT2 | CC_SEC_NONE.

Record CcAttachDecl := mk_decl {
  ruby_kind : text;
  d_detect : CcAttachDetect;
  d_prefix : text;
  d_kind : AttachKind;
  sec_mode : CcSecMode;
  sec_pattern : text;
  d_ctx_type : option text;
  d_kname : text;
  d_ctx_prefixed : bool;
  d_verdict : bool;
  d_iter_guard : bool;
  d_usdt : bool;
  d_xdp_tail : bool;
  d_tcp_slice : bool;
  rest_needs_sep : bool;
  rest_excludes : option text
}.

(** The table; its order is the match order.  Class rows have no prefix. *)
Definition cc_attach_decls : list CcAttachDecl :=
  [
   mk_decl (lit "kprobe_multi") CC_AD_PREFIX (lit "kprobe_multi__") AK_KPROBE_MULTI CC_SEC_FIXED (lit "kprobe.multi") (Some (lit "struct pt_regs *")) (lit "kprobe_multi") false false false false false false false None;
   mk_decl (lit "kprobe") CC_AD_PREFIX (lit "kprobe__") AK_KPROBE CC_SEC_TEMPLATE (lit "kprobe/<func>") (Some (lit "struct pt_regs *")) (lit "kprobe") false false false false false false false None;
   mk_decl (lit "kretprobe") CC_AD_PREFIX (lit "kretprobe__") AK_KRETPROBE CC_SEC_TEMPLATE (lit "kretprobe/<func>") (Some (lit "struct pt_regs *")) (lit "kretprobe") false false false false false false false None;
   mk_decl (lit "fentry") CC_AD_PREFIX (lit "fentry__") AK_FENTRY CC_SEC_TEMPLATE (lit "fentry/<func>") (Some (lit "__u64 *")) (lit "fentry") false false false false false false false None;
   mk_decl (lit "fexit") CC_AD_PREFIX (lit "fexit__") AK_FEXIT CC_SEC_TEMPLATE (lit "fexit/<func>") (Some (lit "__u64 *")) (lit "fexit") false false false false false false false None;
   mk_decl (lit "tc_ingress") CC_AD_PREFIX (lit "tc__ingress__") AK_TC CC_SEC_FIXED (lit "tcx/ingress") (Some (lit "struct __sk_buff *")) (lit "tc_ingress") true true false false false false false None;
   mk_decl (lit "tc_egress") CC_AD_PREFIX (lit "tc__egress__") AK_TC CC_SEC_FIXED (lit "tcx/egress") (Some (lit "struct __sk_buff *")) (lit "tc_egress") true true false false false false false None;
   mk_decl (lit "sk_reuseport") CC_AD_PREFIX (lit "sk_reuseport__") AK_SK_VERDICT CC_SEC_FIXED (lit "sk_reuseport") (Some (lit "struct sk_reuseport_md *")) (lit "sk_reuseport") true true false false false false false None;
   mk_decl (lit "sk_msg") CC_AD_PREFIX (lit "sk_msg__") AK_SK_VERDICT CC_SEC_FIXED (lit "sk_msg") (Some (lit "struct sk_msg_md *")) (lit "sk_msg") true true false false false false false None;
   mk_decl (lit "sk_skb_verdict") CC_AD_PREFIX (lit "sk_skb__verdict__") AK_SK_VERDICT CC_SEC_FIXED (lit "sk_skb/stream_verdict") (Some (lit "struct __sk_buff *")) (lit "sk_skb_verdict") true true false false false false false None;
   mk_decl (lit "sk_skb_parser") CC_AD_PREFIX (lit "sk_skb__parser__") AK_SK_VERDICT CC_SEC_FIXED (lit "sk_skb/stream_parser") (Some (lit "struct __sk_buff *")) (lit "sk_skb_parser") true true false false false false false None;
   mk_decl (lit "socket_filter") CC_AD_PREFIX (lit "socket_filter__") AK_SK_VERDICT CC_SEC_FIXED (lit "socket") (Some (lit "struct __sk_buff *")) (lit "socket_filter") true true false false false false false None;
   mk_decl (lit "flow_dissector") CC_AD_PREFIX (lit "flow_dissector__") AK_SK_VERDICT CC_SEC_FIXED (lit "flow_dissector") (Some (lit "struct __sk_buff *")) (lit "flow_dissector") true true false false false false false None;
   mk_decl (lit "sk_lookup") CC_AD_PREFIX (lit "sk_lookup__") AK_SK_VERDICT CC_SEC_FIXED (lit "sk_lookup") (Some (lit "struct bpf_sk_lookup *")) (lit "sk_lookup") true true false false false false false None;
   mk_decl (lit "cgroup_connect4") CC_AD_PREFIX (lit "cgroup__connect4__") AK_SK_VERDICT CC_SEC_FIXED (lit "cgroup/connect4") (Some (lit "struct bpf_sock_addr *")) (lit "cgroup_connect4") true true false false false false false None;
   mk_decl (lit "cgroup_bind4") CC_AD_PREFIX (lit "cgroup__bind4__") AK_SK_VERDICT CC_SEC_FIXED (lit "cgroup/bind4") (Some (lit "struct bpf_sock_addr *")) (lit "cgroup_bind4") true true false false false false false None;
   mk_decl (lit "uprobe") CC_AD_PREFIX (lit "uprobe__") AK_UPROBE CC_SEC_FIXED (lit "uprobe") (Some (lit "struct pt_regs *")) (lit "uprobe") false false false false false false false None;
   mk_decl (lit "uretprobe") CC_AD_PREFIX (lit "uretprobe__") AK_URETPROBE CC_SEC_FIXED (lit "uretprobe") (Some (lit "struct pt_regs *")) (lit "uretprobe") false false false false false false false None;
   mk_decl (lit "usdt") CC_AD_PREFIX (lit "usdt__") AK_USDT CC_SEC_FIXED (lit "usdt") (Some (lit "struct pt_regs *")) (lit "usdt") false false false true false false true None;
   mk_decl (lit "lsm") CC_AD_PREFIX (lit "lsm__") AK_LSM CC_SEC_TEMPLATE (lit "lsm/<hook>") (Some (lit "__u64 *")) (lit "lsm") false true false false false false false None;
   mk_decl (lit "fmod_ret") CC_AD_PREFIX (lit "fmod_ret__") AK_FMOD_RET CC_SEC_TEMPLATE (lit "fmod_ret/<func>") (Some (lit "__u64 *")) (lit "fmod_ret") false true false false false false false None;
   mk_decl (lit "iter_task") CC_AD_PREFIX (lit "iter__task__") AK_ITER_TASK CC_SEC_FIXED (lit "iter/task") (Some (lit "struct bpf_iter__task *")) (lit "iter_task") true false true false false false false None;
   mk_decl (lit "sock_ops") CC_AD_PREFIX (lit "sock_ops__") AK_SOCK_OPS CC_SEC_FIXED (lit "sockops") (Some (lit "struct bpf_sock_ops *")) (lit "sock_ops") true false false false false false false None;
   mk_decl (lit "raw_tp") CC_AD_PREFIX (lit "raw_tp__") AK_RAW_TP CC_SEC_TEMPLATE (lit "raw_tp/<event>") (Some (lit "struct bpf_raw_tracepoint_args *")) (lit "raw_tp") false false false false false false false None;
   mk_decl (lit "perf_event") CC_AD_PREFIX (lit "perf_event__") AK_PERF_EVENT CC_SEC_FIXED (lit "perf_event") (Some (lit "struct bpf_perf_event_data *")) (lit "perf_event") true false false false false false false None;
   mk_decl (lit "timer") CC_AD_PREFIX (lit "spnl_timer__") AK_TIMER CC_SEC_FIXED (lit "syscall") (Some (lit "__u64 *")) (lit "timer") false false false false false false false None;
   mk_decl (lit "user_ringbuf") CC_AD_PREFIX (lit "user_ringbuf__") AK_USER_RINGBUF CC_SEC_NONE [] None (lit "user_ringbuf") false false false false false false false None;
   mk_decl (lit "xdp_tail") CC_AD_PREFIX (lit "xdp_tail__") AK_XDP CC_SEC_FIXED (lit "xdp") (Some (lit "struct xdp_md *")) (lit "xdp_tail") true true false false true false false None;
   mk_decl (lit "xdp_tcp_slice") CC_AD_PREFIX (lit "xdp__tcp_slice__") AK_XDP CC_SEC_FIXED (lit "xdp") (Some (lit "struct xdp_md *")) (lit "xdp_tcp_slice") true true false false false true false None;
   mk_decl (lit "xdp") CC_AD_PREFIX (lit "xdp__") AK_XDP CC_SEC_FIXED (lit "xdp") (Some (lit "struct xdp_md *")) (lit "xdp") true true false false false false false (Some (lit "tcp_slice__"));
   mk_decl (lit "tracepoint") CC_AD_PREFIX (lit "tracepoint__") AK_TRACEPOINT CC_SEC_SPLIT2 (lit "tracepoint/<cat>/<event>") (Some (lit "void *")) (lit "tracepoint") false false false false false false false None;
   mk_decl (lit "tcp_cc") CC_AD_CLASS [] AK_NONE CC_SEC_TEMPLATE (lit "struct_ops/<member>") None (lit "tcp_cc") false false false false false false false None;
   mk_decl (lit "sched_ext") CC_AD_CLASS [] AK_NONE CC_SEC_TEMPLATE (lit "struct_ops/<member>") None (lit "sched_ext") false false false false false false false None;
   mk_decl (lit "qdisc") CC_AD_CLASS [] AK_NONE CC_SEC_TEMPLATE (lit "struct_ops/<member>") None (lit "qdisc") false false false false false false false None
  ].

Record Attach := mk_attach {
  a_kind : AttachKind;
  a_sec : option text;
  a_ctx_type : option text;
  a_kname : option text;
  a_ctx_prefixed : bool;
  a_verdict : bool;
  a_tp_struct : option text;
  a_iter_guard : bool;
  a_usdt : bool;
  a_xdp_tail : bool;
  a_tcp_slice : bool;
  a_tp_cat : option text;
  a_tp_event : option text
}.

Definition no_attach : Attach :=
  mk_attach AK_NONE None None None false false None false false false false None None.

(** [strstr(rest, "__")]: before and behind the first double underscore. *)
Fixpoint split_dunder (s : text) : option (text * text) :=
  match strip_prefix (lit "__") s with
  | Some r => Some ([], r)
  | None =>
      match s with
      | [] => None
      | c :: s' => match split_dunder s' with Some (a, b) => Some (c :: a, b) | None => None end
      end
  end.

(** The pattern up to its placeholder. *)
Definition before_placeholder (p : text) : text := match split_at "<" p with Some (a, _) => a | None => p end.

(** A matched row: what the detection fills in. *)
Definition attach_of (d : CcAttachDecl) (rest : text) : Attach :=
  match sec_mode d with
  | CC_SEC_SPLIT2 =>
      match split_dunder rest with
      | None => no_attach
      | Some (c, evt) =>
          let cat := trunc 128 c in
          let st :=
            if text_eqb cat (lit "syscalls") && has_prefix (lit "sys_enter_") evt then Some (lit "trace_event_raw_sys_enter")
            else if text_eqb cat (lit "syscalls") && has_prefix (lit "sys_exit_") evt then Some (lit "trace_event_raw_sys_exit")
            else None in
          mk_attach (d_kind d) (Some (lit "tracepoint/" ++ cat ++ lit "/" ++ evt)) (d_ctx_type d) (Some (d_kname d))
            false false st false false false false (Some cat) (Some evt)
      end
  | m =>
      mk_attach (d_kind d)
        (match m with
         | CC_SEC_FIXED => Some (sec_pattern d)
         | CC_SEC_TEMPLATE => Some (before_placeholder (sec_pattern d) ++ rest)
         | _ => None
         end)
        (d_ctx_type d) (Some (d_kname d)) (d_ctx_prefixed d) (d_verdict d) None (d_iter_guard d) (d_usdt d)
        (d_xdp_tail d) (d_tcp_slice d) None None
  end.

Fixpoint detect_in (decls : list CcAttachDecl) (name : text) : Attach :=
  match decls with
  | [] => no_attach
  | d :: ds =>
      match d_detect d with
      | CC_AD_CLASS => detect_in ds name
      | CC_AD_PREFIX =>
          match strip_prefix (d_prefix d) name with
          | None => detect_in ds name
          | Some rest =>
              if rest_needs_sep d && (match split_dunder rest with None => true | Some _ => false end) then detect_in ds name
              else if (match rest_excludes d with Some x => has_prefix x rest | None => false end) then no_attach
              else attach_of d rest
          end
      end
  end.

Definition cc_detect_attach (name : text) : Attach := detect_in cc_attach_decls name.

Definition cc_is_tracing_kind (k : AttachKind) : bool :=
  match k with
  | AK_KPROBE | AK_KRETPROBE | AK_UPROBE | AK_URETPROBE | AK_USDT | AK_TRACEPOINT | AK_FENTRY | AK_FEXIT
  | AK_KPROBE_MULTI => true
  | _ => false
  end.

(** The verdict a monitor build substitutes, for the kinds that enforce. *)
Definition cc_monitor_allow (g_monitor : bool) (a : Attach) : option text :=
  if negb g_monitor then None
  else
    match a_kind a with
    | AK_LSM | AK_FMOD_RET => Some (lit "0")
    | _ =>
        match a_kname a with
        | Some k => if text_eqb k (lit "cgroup_connect4") || text_eqb k (lit "cgroup_bind4") then Some (lit "1") else None
        | None => None
        end
    end.

(** The packet context a handler supplies, as a bit of the gate's mask. *)
Definition CC_CTX_XDP : Z := 1.
Definition CC_CTX_TC_INGRESS : Z := 2.
Definition CC_CTX_TC_EGRESS : Z := 4.

Definition ctx_have (name : text) : Z :=
  let a := cc_detect_attach name in
  match a_kind a, a_kname a with
  | AK_XDP, _ => CC_CTX_XDP
  | AK_TC, Some k =>
      if text_eqb k (lit "tc_ingress") then CC_CTX_TC_INGRESS
      else if text_eqb k (lit "tc_egress") then CC_CTX_TC_EGRESS
      else 0
  | _, _ => 0
  end.

(** [cc_require_pkt_ctx]: the builtin is allowed in this handler. *)
Definition cc_require_pkt_ctx (name : text) (allow : Z) : bool := negb (Z.land (ctx_have name) allow =? 0).

(** [cc_require_sock_addr_ctx]. *)
Definition cc_require_sock_addr_ctx (name : text) : bool :=
  match a_kname (cc_detect_attach name) with
  | Some k => text_eqb k (lit "cgroup_connect4") || text_eqb k (lit "cgroup_bind4")
  | None => false
  end.

(** ** The hooks where a path can be read *)

Inductive CcDpathForm := CC_DP_FILE | CC_DP_PATH | CC_DP_BINPRM.

(** Section, form of the argument, null guard, and whether selecting on the path
    is meaningful ([no_select] is NULL). *)
Record CcDpathHook := mk_hook { h_sec : text; h_form : CcDpathForm; h_guard : bool; h_select : bool }.

Definition CC_DPATH_OK : list CcDpathHook :=
  [
   mk_hook (lit "lsm/file_open") CC_DP_FILE false true;
   mk_hook (lit "fmod_ret/security_file_open") CC_DP_FILE false true;
   mk_hook (lit "fmod_ret/security_file_permission") CC_DP_FILE false true;
   mk_hook (lit "lsm/mmap_file") CC_DP_FILE true true;
   mk_hook (lit "lsm/file_ioctl") CC_DP_FILE false true;
   mk_hook (lit "lsm/file_lock") CC_DP_FILE false true;
   mk_hook (lit "lsm/file_receive") CC_DP_FILE false true;
   mk_hook (lit "lsm/bprm_check_security") CC_DP_BINPRM true true;
   mk_hook (lit "lsm/bprm_creds_for_exec") CC_DP_BINPRM true true;
   mk_hook (lit "lsm/bprm_committed_creds") CC_DP_BINPRM true true;
   mk_hook (lit "lsm/path_unlink") CC_DP_PATH false true;
   mk_hook (lit "lsm/path_rename") CC_DP_PATH false true;
   mk_hook (lit "lsm/path_mkdir") CC_DP_PATH false true;
   mk_hook (lit "lsm/path_rmdir") CC_DP_PATH false true;
   mk_hook (lit "lsm/path_symlink") CC_DP_PATH false true;
   mk_hook (lit "lsm/path_link") CC_DP_PATH false true;
   mk_hook (lit "lsm/path_truncate") CC_DP_PATH false true;
   mk_hook (lit "lsm/path_chmod") CC_DP_PATH false true;
   mk_hook (lit "lsm/path_chown") CC_DP_PATH false true;
   mk_hook (lit "lsm/inode_getattr") CC_DP_PATH false true;
   mk_hook (lit "fmod_ret/security_path_truncate") CC_DP_PATH false true;
   mk_hook (lit "fmod_ret/security_inode_getattr") CC_DP_PATH false true;
   mk_hook (lit "fentry/filp_close") CC_DP_FILE false true;
   mk_hook (lit "fexit/filp_close") CC_DP_FILE false true;
   mk_hook (lit "fentry/vfs_fallocate") CC_DP_FILE false true;
   mk_hook (lit "fexit/vfs_fallocate") CC_DP_FILE false true;
   mk_hook (lit "fentry/vfs_truncate") CC_DP_PATH false true;
   mk_hook (lit "fexit/vfs_truncate") CC_DP_PATH false true;
   mk_hook (lit "fentry/dentry_open") CC_DP_PATH false false;
   mk_hook (lit "fexit/dentry_open") CC_DP_PATH false false;
   mk_hook (lit "fentry/vfs_getattr") CC_DP_PATH false false;
   mk_hook (lit "fexit/vfs_getattr") CC_DP_PATH false false
  ].

Definition cc_dpath_hook (sec : option text) : option CcDpathHook :=
  match sec with
  | None => None
  | Some s => find (fun h => text_eqb s (h_sec h)) CC_DPATH_OK
  end.

(** ** Detection is exact *)

(** The part of the name behind the prefix suits the row. *)
Definition admissible (d : CcAttachDecl) (rest : text) : Prop :=
  (rest_needs_sep d = true -> split_dunder rest <> None) /\
  match rest_excludes d with Some x => has_prefix x rest = false | None => True end.

Lemma has_prefix_false p s : has_prefix p s = false -> strip_prefix p s = None.
Proof. unfold has_prefix. destruct (strip_prefix p s); [discriminate|reflexivity]. Qed.

(** The plain XDP row is behind the TCP-slice row, whose prefix extends it. *)
Lemma detect_xdp_in ds d1 d rest t : d_detect d1 = CC_AD_PREFIX -> d_prefix d1 = d_prefix d ++ t -> rest_needs_sep d1 = false ->
  d_detect d = CC_AD_PREFIX -> rest_needs_sep d = false -> rest_excludes d = Some t -> has_prefix t rest = false ->
  detect_in (d1 :: d :: ds) (d_prefix d ++ rest) = attach_of d rest.
Proof.
  intros D1 P1 N1 D N X Hp. cbn [detect_in]. rewrite D1, D, P1, N, X. cbn [andb].
  assert (E : strip_prefix (d_prefix d ++ t) (d_prefix d ++ rest) = None).
  { destruct (strip_prefix (d_prefix d ++ t) (d_prefix d ++ rest)) as [r|] eqn:E; [|reflexivity].
    apply strip_prefix_spec in E. rewrite <- app_assoc in E. apply app_inv_head in E. subst rest.
    unfold has_prefix in Hp. now rewrite (proj2 (strip_prefix_spec t (t ++ r) r) eq_refl) in Hp. }
  rewrite E, (proj2 (strip_prefix_spec (d_prefix d) (d_prefix d ++ rest) rest) eq_refl), Hp. reflexivity.
Qed.

Definition row (i : nat) : CcAttachDecl :=
  nth i cc_attach_decls (mk_decl [] CC_AD_CLASS [] AK_NONE CC_SEC_NONE [] None [] false false false false false false false None).

Lemma detect_skip a b name : Forall (fun d => d_detect d = CC_AD_CLASS \/ strip_prefix (d_prefix d) name = None) a ->
  detect_in (a ++ b) name = detect_in b name.
Proof.
  induction 1 as [|d a Hd _ IH]; [reflexivity|]. cbn [app detect_in]. destruct Hd as [-> | ->]; [exact IH|].
  now destruct (d_detect d).
Qed.

Lemma detect_xdp rest : has_prefix (lit "tcp_slice__") rest = false ->
  cc_detect_attach (lit "xdp__" ++ rest) = attach_of (row 29) rest.
Proof.
  intros H. unfold cc_detect_attach. rewrite <- (firstn_skipn 28 cc_attach_decls). rewrite detect_skip.
  - change (skipn 28 cc_attach_decls) with (row 28 :: row 29 :: skipn 30 cc_attach_decls).
    change (lit "xdp__") with (d_prefix (row 29)).
    apply (detect_xdp_in _ _ _ _ (lit "tcp_slice__")); reflexivity || exact H.
  - cbn [firstn cc_attach_decls]. repeat (apply Forall_cons; [right; reflexivity|]). apply Forall_nil.
Qed.

(** No row is shadowed by an earlier one. *)
Lemma detect_reaches d rest : In d cc_attach_decls -> d_detect d = CC_AD_PREFIX -> admissible d rest ->
  cc_detect_attach (d_prefix d ++ rest) = attach_of d rest.
Proof.
  unfold cc_detect_attach, cc_attach_decls. intros Hin Hd [Hsep Hex].
  repeat (destruct Hin as [<-|Hin]; [first
    [ discriminate Hd
    | cbn -[attach_of]; reflexivity
    | cbn -[attach_of split_dunder] in Hsep |- *; destruct (split_dunder rest); [reflexivity|exfalso; now apply Hsep]
    | exact (detect_xdp rest Hex) ]|]).
  destruct Hin.
Qed.

Lemma detect_sound ds name : a_kind (detect_in ds name) <> AK_NONE ->
  exists d rest, In d ds /\ d_detect d = CC_AD_PREFIX /\ admissible d rest /\ name = d_prefix d ++ rest /\
    detect_in ds name = attach_of d rest.
Proof.
  induction ds as [|d ds IH]; cbn [detect_in]; intros Ha; [now exfalso|].
  assert (Hskip : a_kind (detect_in ds name) <> AK_NONE ->
    exists d' rest, In d' (d :: ds) /\ d_detect d' = CC_AD_PREFIX /\ admissible d' rest /\ name = d_prefix d' ++ rest /\
      detect_in ds name = attach_of d' rest).
  { intros Hk. destruct (IH Hk) as (d' & rest & Hin & H). exists d', rest. split; [now right|exact H]. }
  destruct (d_detect d) eqn:Ed; [|now apply Hskip].
  destruct (strip_prefix (d_prefix d) name) as [rest|] eqn:Ep; [|now apply Hskip].
  destruct (rest_needs_sep d && _) eqn:Es; [now apply Hskip|].
  destruct (match rest_excludes d with Some x => has_prefix x rest | None => false end) eqn:Ex; [now exfalso|].
  exists d, rest. apply strip_prefix_spec in Ep. split; [now left|]. split; [exact Ed|]. split; [|auto]. split.
  - intros Hn Hs. now rewrite Hn, Hs in Es.
  - now destruct (rest_excludes d).
Qed.

(** C28: a handler's name decides its attach point, exactly as declared.  Every row of
    the vocabulary is reachable: a name made of its prefix and a suitable rest is
    given that row's kind, section, context and facets, no earlier row intercepting
    it.  Conversely a method that is attached at all was named after a row, with a
    rest that suits it. *)
Theorem attach_detection_exact :
  (forall d rest, In d cc_attach_decls -> d_detect d = CC_AD_PREFIX -> admissible d rest ->
     cc_detect_attach (d_prefix d ++ rest) = attach_of d rest) /\
  (forall name, a_kind (cc_detect_attach name) <> AK_NONE ->
     exists d rest, In d cc_attach_decls /\ d_detect d = CC_AD_PREFIX /\ admissible d rest /\
       name = d_prefix d ++ rest /\ cc_detect_attach name = attach_of d rest).
Proof. split; [exact detect_reaches|]. intros name. unfold cc_detect_attach. apply detect_sound. Qed.

(** The kinds that carry an enforcement verdict. *)
Definition enforcing : list text :=
  map (fun s : string => lit s) ["lsm__"; "fmod_ret__"; "cgroup__connect4__"; "cgroup__bind4__"]%string.

Definition enforcing_row (d : CcAttachDecl) : bool :=
  match d_kind d with
  | AK_LSM | AK_FMOD_RET => true
  | _ => text_eqb (d_kname d) (lit "cgroup_connect4") || text_eqb (d_kname d) (lit "cgroup_bind4")
  end.

Lemma monitor_row d rest : cc_monitor_allow true (attach_of d rest) <> None -> enforcing_row d = true.
Proof.
  unfold attach_of, enforcing_row. destruct (sec_mode d); [| |destruct (split_dunder rest) as [[c e]|]; [|now intros []]|];
    unfold cc_monitor_allow; cbn [negb a_kind a_kname]; destruct (d_kind d); try reflexivity;
    destruct (text_eqb (d_kname d) (lit "cgroup_connect4") || text_eqb (d_kname d) (lit "cgroup_bind4")); congruence.
Qed.

Lemma monitor_in ds name : cc_monitor_allow true (detect_in ds name) <> None ->
  exists d rest, In d ds /\ name = d_prefix d ++ rest /\ d_detect d = CC_AD_PREFIX /\ enforcing_row d = true.
Proof.
  induction ds as [|d ds IH]; cbn [detect_in]; intros Ha; [now exfalso|].
  assert (Hskip : cc_monitor_allow true (detect_in ds name) <> None ->
    exists d' rest, In d' (d :: ds) /\ name = d_prefix d' ++ rest /\ d_detect d' = CC_AD_PREFIX /\ enforcing_row d' = true).
  { intros Hk. destruct (IH Hk) as (d' & rest & Hin & H). exists d', rest. split; [now right|exact H]. }
  destruct (d_detect d) eqn:Ed; [|now apply Hskip].
  destruct (strip_prefix (d_prefix d) name) as [rest|] eqn:Ep; [|now apply Hskip].
  destruct (rest_needs_sep d && _); [now apply Hskip|].
  destruct (match rest_excludes d with Some x => has_prefix x rest | None => false end); [now exfalso|].
  exists d, rest. apply strip_prefix_spec in Ep. apply monitor_row in Ha. split; [now left|auto].
Qed.

Lemma enforcing_rows : forallb (fun d => match d_detect d with CC_AD_CLASS => true | CC_AD_PREFIX =>
  negb (enforcing_row d) || existsb (text_eqb (d_prefix d)) enforcing end) cc_attach_decls = true.
Proof. vm_compute. reflexivity. Qed.

(** In a monitor build exactly the enforcing handlers get a fixed verdict, the one
    that allows; in any other build none does. *)
Lemma monitor_allows_enforcing name :
  (cc_monitor_allow true (cc_detect_attach name) <> None <-> existsb (fun p => has_prefix p name) enforcing = true) /\
  cc_monitor_allow false (cc_detect_attach name) = None.
Proof.
  split; [|reflexivity]. unfold cc_detect_attach. split.
  - intros H. destruct (monitor_in _ name H) as (d & rest & Hin & -> & Hd & He). clear H.
    pose proof enforcing_rows as Ht. rewrite forallb_forall in Ht. specialize (Ht d Hin). rewrite Hd, He in Ht.
    cbn [negb orb] in Ht. apply existsb_exists in Ht. destruct Ht as (p & Hp & E). apply text_eqb_eq in E.
    apply existsb_exists. exists p. split; [exact Hp|]. unfold has_prefix. rewrite E.
    now rewrite (proj2 (strip_prefix_spec p (p ++ rest) rest) eq_refl).
  - intros H. apply existsb_exists in H. destruct H as (p & Hp & Hn). unfold has_prefix in Hn.
    destruct (strip_prefix p name) as [rest|] eqn:E; [|discriminate]. apply strip_prefix_spec in E. subst name.
    repeat (destruct Hp as [<-|Hp]; [vm_compute; discriminate|]). destruct Hp.
Qed.

(** Every hook of the path table is the section some method name gets. *)
Definition name_of_sec (s : text) : text :=
  match split_at "/" s with Some (a, b) => a ++ lit "__" ++ b | None => s end.

Lemma dpath_hooks_reachable : Forall (fun h => a_sec (cc_detect_attach (name_of_sec (h_sec h))) = Some (h_sec h)) CC_DPATH_OK.
Proof. unfold CC_DPATH_OK. repeat (apply Forall_cons; [vm_compute; reflexivity|]). apply Forall_nil. Qed.

End Attach.
