(* ===== verification/TcpSlice.v ===== *)
(** * The TCP server that runs in the packet path

    [src/codegen_c/templates/tcp_slice.template.c]: a method named
    [xdp__tcp_slice__<name>] is replaced by a state machine that answers one HTTP
    request on port 8080 before the kernel's own TCP sees the packet.  [Packet] is
    the frame as bytes, with the loads and stores of the three headers; [Slice] the
    helpers and [spnl_tcp_slice_main], its branches as functions of their own;
    [Receiver] the decoder of the peer, written from the IPv4 and TCP formats, with the
    checksum of RFC 1071; [Server] the
    protocol on decoded segments that the state machine refines; [Sums] and [Built] that
    the frames built carry right checksums and decode to the intended segment.

    The kernel's helpers (checksum, SYN cookies, resizing of a frame, the LRU table)
    are a record of functions with the laws their documentation states.  A packet is
    processed without another processor changing the same table entry. *)

From S2P Require Import Prelude Bytes.

(** ** Frames *)
Module Packet.

(** Loads and stores of a little-endian machine at a byte offset. *)
Definition rd8 (f : list Z) (i : nat) : Z := nth i f 0.
Definition rd16 (f : list Z) (i : nat) : Z := rd8 f i + 256 * rd8 f (i + 1).
Definition rd32 (f : list Z) (i : nat) : Z := rd16 f i + 65536 * rd16 f (i + 2).

Definition wr8 (f : list Z) (i : nat) (v : Z) : list Z := upd f i (v mod 256).
Definition wr16 (f : list Z) (i : nat) (v : Z) : list Z := wr8 (wr8 f i v) (i + 1) (v / 256).
Definition wr32 (f : list Z) (i : nat) (v : Z) : list Z := wr16 (wr16 f i v) (i + 2) (v / 65536).

Fixpoint wrs (f : list Z) (i : nat) (bs : list Z) : list Z :=
  match bs with [] => f | b :: bs' => wrs (wr8 f i b) (S i) bs' end.

(** [bpf_htons] and [bpf_htonl], which are their own inverses. *)
Definition bswap16 (v : Z) : Z := v mod 256 * 256 + v / 256 mod 256.
Definition bswap32 (v : Z) : Z := bswap16 (v mod 65536) * 65536 + bswap16 (v / 65536 mod 65536).

(** One bit of a header byte ([tcp->fin], ...). *)
Definition bit (f : list Z) (i : nat) (k : Z) : bool := Z.testbit (rd8 f i) k.
Definition set_bit (f : list Z) (i : nat) (k : Z) (b : bool) : list Z :=
  wr8 f i (if b then Z.setbit (rd8 f i) k else Z.clearbit (rd8 f i) k).

(** Offsets of the fields used, from the start of their header. *)
Definition eth_proto := 12%nat.
Definition ip := 14%nat.
Definition ip_tot_len := (ip + 2)%nat.
Definition ip_id := (ip + 4)%nat.
Definition ip_ttl := (ip + 8)%nat.
Definition ip_protocol := (ip + 9)%nat.
Definition ip_check := (ip + 10)%nat.
Definition ip_saddr := (ip + 12)%nat.
Definition ip_daddr := (ip + 16)%nat.

(** The low nibble of the first byte, [iph->ihl], and the high one of the
    thirteenth of the TCP header, [tcp->doff]. *)
Definition ip_ihl (f : list Z) : Z := Z.land (rd8 f ip) 15.
Definition set_ihl (f : list Z) (v : Z) : list Z := wr8 f ip (Z.lor (Z.land (rd8 f ip) 240) v).
Definition tcp_doff (f : list Z) (t : nat) : Z := Z.shiftr (rd8 f (t + 12)) 4.
Definition set_doff (f : list Z) (t : nat) (v : Z) : list Z :=
  wr8 f (t + 12) (Z.lor (Z.land (rd8 f (t + 12)) 15) (Z.shiftl v 4)).

End Packet.

(** ** The kernel as the program sees it *)
Module Slice.
Import Packet.

Definition XDP_ABORTED : Z := 0.
Definition XDP_DROP : Z := 1.
Definition XDP_PASS : Z := 2.
Definition XDP_TX : Z := 3.

Record spnl_tcp_slice_key := Key { saddr : Z; daddr : Z; sport : Z; dport : Z }.

Definition key_eqb (a b : spnl_tcp_slice_key) : bool :=
  (saddr a =? saddr b) && (daddr a =? daddr b) && (sport a =? sport b) && (dport a =? dport b).

(** The connection of a 4-tuple.  [timer] is the timeout the embedded timer was
    last started with, if it is running. *)
Record spnl_tcp_slice_state :=
  St { server_seq : Z; client_seq : Z; mss : Z; state : Z; pad : Z; timer : option Z }.

Definition table := spnl_tcp_slice_key -> option spnl_tcp_slice_state.

Definition tset (t : table) (k : spnl_tcp_slice_key) (c : spnl_tcp_slice_state) : table :=
  fun k' => if key_eqb k' k then Some c else t k'.
Definition tdel (t : table) (k : spnl_tcp_slice_key) : table :=
  fun k' => if key_eqb k' k then None else t k'.

Record world := World { pkt : list Z; conntab : table; counters : list Z }.

Definition set_pkt (w : world) (f : list Z) : world := World f (conntab w) (counters w).
Definition set_tab (w : world) (t : table) : world := World (pkt w) t (counters w).

(** The helpers of the kernel: [bpf_csum_diff(0, 0, buf, n, 0)] on a buffer;
    [bpf_xdp_adjust_tail], [None] when it fails; the two SYN cookie functions on the
    bytes of the headers; [bpf_map_update_elem] on the LRU table, [None] when it fails;
    what [bpf_timer_init], [bpf_timer_set_callback] and [bpf_timer_start] make of a
    timer, also when they fail. *)
Record kernel := Kernel {
  csum_diff : list Z -> Z;
  adjust_tail : list Z -> Z -> option (list Z);
  gen_syncookie : list Z -> list Z -> Z -> Z;
  check_syncookie : list Z -> list Z -> Z;
  lru_update : table -> spnl_tcp_slice_key -> spnl_tcp_slice_state -> option table;
  timer_init : option Z -> option Z;
  timer_set_callback : option Z -> option Z;
  timer_start : option Z -> Z -> option Z }.

Definition SPNL_TS_NS_PER_SEC : Z := 1000000000.
Definition SPNL_TS_TTL_ESTAB : Z := 30 * SPNL_TS_NS_PER_SEC.
Definition SPNL_TS_TTL_RESP : Z := 30 * SPNL_TS_NS_PER_SEC.
Definition SPNL_TS_TTL_CLOSED : Z := 60 * SPNL_TS_NS_PER_SEC.

(** A lookup out of range of the counter array finds nothing. *)
Definition spnl_tcp_slice_inc (w : world) (k : nat) : world :=
  World (pkt w) (conntab w) (upd (counters w) k (u64 (nth k (counters w) 0 + 1))).

Definition spnl_tcp_slice_csum_fold (csum : Z) : Z :=
  let csum := u32 (Z.land csum 65535 + Z.shiftr csum 16) in
  let csum := u32 (Z.land csum 65535 + Z.shiftr csum 16) in
  u16 (Z.lnot csum).

(** [while (s >> 32) s = (s & 0xffffffff) + (s >> 32)]. *)
Fixpoint carry_loop (fuel : nat) (s : Z) : Z :=
  match fuel with
  | O => s
  | S fuel' =>
      if Z.shiftr s 32 =? 0 then s
      else carry_loop fuel' (u64 (Z.land s 4294967295 + Z.shiftr s 32))
  end.

Definition spnl_tcp_slice_csum_tcpudp (saddr daddr len proto csum : Z) : Z :=
  let s := u64 (csum + u32 saddr) in
  let s := u64 (s + u32 daddr) in
  let s := u64 (s + bswap16 (u16 (proto + len))) in
  spnl_tcp_slice_csum_fold (u32 (carry_loop 4 s)).

Definition spnl_tcp_slice_swap_mac (f : list Z) : list Z :=
  let buf := slice 0 6 f in
  let f := wrs f 0 (slice 6 6 f) in
  wrs f 6 buf.

(** [t = saddr; saddr = daddr; daddr = t], and the ports. *)
Definition swap_ip (f : list Z) : list Z :=
  let t := rd32 f ip_saddr in
  let f := wr32 f ip_saddr (rd32 f ip_daddr) in
  wr32 f ip_daddr t.
Definition swap_ports (f : list Z) (t : nat) : list Z :=
  let p := rd16 f t in
  let f := wr16 f t (rd16 f (t + 2)) in
  wr16 f (t + 2) p.

Definition tcp_flags (f : list Z) (t : nat) (fin syn rst psh ack urg ece cwr : bool) : list Z :=
  let i := (t + 13)%nat in
  let f := set_bit f i 0 fin in let f := set_bit f i 1 syn in
  let f := set_bit f i 2 rst in let f := set_bit f i 3 psh in
  let f := set_bit f i 4 ack in let f := set_bit f i 5 urg in
  let f := set_bit f i 6 ece in set_bit f i 7 cwr.

Definition spnl_tcp_slice_timeout_cb (w : world) (k : spnl_tcp_slice_key) : world :=
  let w := spnl_tcp_slice_inc w 15 in set_tab w (tdel (conntab w) k).

Section Kernel.
Context (K : kernel).

(** The results of the three calls are ignored. *)
Definition spnl_tcp_slice_arm (c : spnl_tcp_slice_state) (ttl_ns : Z) : spnl_tcp_slice_state :=
  let t := timer_init K (timer c) in
  let t := timer_set_callback K t in
  St (server_seq c) (client_seq c) (mss c) (state c) (pad c) (timer_start K t ttl_ns).

(** The two checksums; [i] and [t] are the offsets of the headers.  The frame is
    changed also when the result is -1. *)
Definition spnl_tcp_slice_recompute_csums (f : list Z) (i t seglen : nat) : list Z * Z :=
  let f := wr16 f (i + 10) 0 in
  let v := csum_diff K (slice i 20 f) in
  if v <? 0 then (f, -1) else
  let f := wr16 f (i + 10) (spnl_tcp_slice_csum_fold (u32 v)) in
  let f := wr16 f (t + 16) 0 in
  if (length f <? t + seglen)%nat then (f, -1) else
  let v := csum_diff K (slice t seglen f) in
  if v <? 0 then (f, -1) else
  (wr16 f (t + 16)
     (spnl_tcp_slice_csum_tcpudp (rd32 f (i + 12)) (rd32 f (i + 16)) (Z.of_nat seglen) 6 (u32 v)), 0).

Definition spnl_tcp_slice_build_synack (f : list Z) (t : nat) (cookie mss : Z) : list Z * Z :=
  let f := spnl_tcp_slice_swap_mac f in
  let f := swap_ip f in
  let f := swap_ports f t in
  let client_seq := bswap32 (rd32 f (t + 4)) in
  let f := wr32 f (t + 8) (bswap32 (u32 (client_seq + 1))) in
  let f := wr32 f (t + 4) (bswap32 cookie) in
  let f := tcp_flags f t false true false false true false false false in
  let f := set_doff f t 6 in
  let f := wr16 f (t + 14) (bswap16 65535) in
  let f := wr16 f (t + 18) 0 in
  let o := (t + 20)%nat in
  if (length f <? o + 4)%nat then (f, -1) else
  let f := wr8 f o 2 in
  let f := wr8 f (o + 1) 4 in
  let f := wr8 f (o + 2) (Z.land (Z.shiftr mss 8) 255) in
  (wr8 f (o + 3) (Z.land mss 255), 0).

Definition spnl_tcp_slice_resp_body : list Z :=
  [ 72; 84; 84; 80; 47; 49; 46; 48;
    32; 50; 48; 48; 32; 79; 75; 13;
    10; 67; 111; 110; 116; 101; 110; 116;
    45; 76; 101; 110; 103; 116; 104; 58;
    32; 51; 13; 10; 13; 10; 79; 75;
    10 ].

Definition spnl_tcp_slice_build_response (f : list Z) (t : nat) (srv_seq cli_seq : Z) : list Z * Z :=
  let f := spnl_tcp_slice_swap_mac f in
  let f := swap_ip f in
  let f := swap_ports f t in
  let f := wr32 f (t + 4) (bswap32 srv_seq) in
  let f := wr32 f (t + 8) (bswap32 cli_seq) in
  let f := tcp_flags f t true false false true true false false false in
  let f := set_doff f t 5 in
  let f := wr16 f (t + 14) (bswap16 65535) in
  let f := wr16 f (t + 18) 0 in
  let out := (t + 20)%nat in
  if (length f <? out + 41)%nat then (f, -1) else
  let f := wrs f out spnl_tcp_slice_resp_body in
  let f := set_ihl f 5 in
  let f := wr16 f ip_tot_len (bswap16 (20 + 20 + 41)) in
  let f := wr8 f ip_ttl 64 in
  (wr16 f ip_id 0, 0).

Definition spnl_tcp_slice_build_finack (f : list Z) (t : nat) (srv_seq cli_seq : Z) : list Z * Z :=
  let f := spnl_tcp_slice_swap_mac f in
  let f := swap_ip f in
  let f := swap_ports f t in
  let f := wr32 f (t + 4) (bswap32 srv_seq) in
  let f := wr32 f (t + 8) (bswap32 cli_seq) in
  let f := tcp_flags f t false false false false true false false false in
  let f := set_doff f t 5 in
  let f := wr16 f (t + 14) (bswap16 65535) in
  let f := wr16 f (t + 18) 0 in
  let f := set_ihl f 5 in
  let f := wr16 f ip_tot_len (bswap16 (20 + 20)) in
  let f := wr8 f ip_ttl 64 in
  (wr16 f ip_id 0, 0).

(** ["GET /health "]. *)
Definition route : list Z := [71; 69; 84; 32; 47; 104; 101; 97; 108; 116; 104; 32].

Fixpoint bytes_eqb (a b : list Z) : bool :=
  match a, b with
  | [], [] => true
  | x :: a', y :: b' => (x =? y) && bytes_eqb a' b'
  | _, _ => false
  end.

Definition spnl_tcp_slice_match_route (f : list Z) (p : nat) (len : Z) : Z :=
  if (12 <=? len) && (p + 12 <=? length f)%nat && bytes_eqb (slice p 12 f) route then 0 else -1.

Definition the_key (f : list Z) (t : nat) : spnl_tcp_slice_key :=
  Key (rd32 f ip_saddr) (rd32 f ip_daddr) (rd16 f t) (rd16 f (t + 2)).

(** The last resizing of a reply: nothing when the length is already [want]. *)
Definition resize (f : list Z) (want : Z) : option (list Z) :=
  let cur := Z.of_nat (length f) in
  if cur =? want then Some f else adjust_tail K f (want - cur).

(** Checksums, resizing and what follows them; [XDP_ABORTED] when one fails. *)
Definition finish_reply (w : world) (f : list Z) (t seglen : nat) (want : Z)
    (sent : world -> Z * world) : Z * world :=
  let (f, rc) := spnl_tcp_slice_recompute_csums f ip t seglen in
  let w := set_pkt w f in
  if rc <? 0 then (XDP_ABORTED, spnl_tcp_slice_inc w 12) else
  match resize f want with
  | None => (XDP_ABORTED, spnl_tcp_slice_inc w 12)
  | Some f => sent (set_pkt w f)
  end.

Definition on_rst (w : world) (t : nat) : Z * world :=
  let w := spnl_tcp_slice_inc w 13 in
  let w := set_tab w (tdel (conntab w) (the_key (pkt w) t)) in
  (XDP_DROP, spnl_tcp_slice_inc w 10).

Definition on_syn (w : world) (t : nat) : Z * world :=
  let w := spnl_tcp_slice_inc w 0 in
  let f := pkt w in
  let thl_in := tcp_doff f t * 4 in
  if (thl_in <? 20) || (length f <? t + Z.to_nat thl_in)%nat then (XDP_DROP, w) else
  match adjust_tail K f (60 - thl_in) with
  | None => (XDP_ABORTED, spnl_tcp_slice_inc w 12)
  | Some f =>
      let w := set_pkt w f in
      if (length f <? 14)%nat then (XDP_ABORTED, w) else
      if (length f <? ip + 60)%nat then (XDP_ABORTED, w) else
      let t := (ip + Z.to_nat (ip_ihl f * 4))%nat in
      if (length f <? t + 60)%nat then (XDP_ABORTED, w) else
      let cookie := gen_syncookie K (slice ip 20 f) (slice t (Z.to_nat thl_in) f) thl_in in
      if cookie <? 0 then (XDP_ABORTED, spnl_tcp_slice_inc w 12) else
      let cookie_seq := u32 cookie in
      let mss := u16 (Z.shiftr cookie 32) in
      let mss := if mss =? 0 then 1460 else mss in
      let (f, rc) := spnl_tcp_slice_build_synack f t cookie_seq mss in
      let w := set_pkt w f in
      if rc <? 0 then (XDP_ABORTED, spnl_tcp_slice_inc w 12) else
      let f := set_ihl f 5 in
      let f := wr16 f ip_tot_len (bswap16 (20 + 24)) in
      let f := wr8 f ip_ttl 64 in
      let f := wr16 f ip_id 0 in
      finish_reply w f t 24 (14 + 20 + 24) (fun w => (XDP_TX, spnl_tcp_slice_inc w 1))
  end.

(** The lookup, or the creation of the entry for a valid cookie: the entry, or the
    verdict of an early return. *)
Definition find_conn (w : world) (t : nat) : (Z + spnl_tcp_slice_state) * world :=
  let f := pkt w in
  let k := the_key f t in
  match conntab w k with
  | Some st => (inr st, w)
  | None =>
      let r := check_syncookie K (slice ip 20 f) (slice t 20 f) in
      if r <? 0 then (inl XDP_PASS, spnl_tcp_slice_inc w 3) else
      let w := spnl_tcp_slice_inc w 2 in
      let new_st := St (bswap32 (rd32 f (t + 8))) (bswap32 (rd32 f (t + 4))) 1460 1 0 None in
      let w := match lru_update K (conntab w) k new_st with
               | Some tab => spnl_tcp_slice_inc (set_tab w tab) 4
               | None => w
               end in
      match conntab w k with
      | None => (inl XDP_DROP, spnl_tcp_slice_inc w 10)
      | Some st =>
          let st := spnl_tcp_slice_arm st SPNL_TS_TTL_ESTAB in
          (inr st, set_tab w (tset (conntab w) k st))
      end
  end.

Definition on_fin (w : world) (t : nat) (payload_len : Z) (st : spnl_tcp_slice_state) : Z * world :=
  let f := pkt w in
  let k := the_key f t in
  let '(cli_seq_for_ack, w) :=
    if state st =? 2
    then (u32 (bswap32 (rd32 f (t + 4)) + payload_len + 1), spnl_tcp_slice_inc w 8)
    else (client_seq st, spnl_tcp_slice_inc w 16) in
  let (f, rc) := spnl_tcp_slice_build_finack f t (server_seq st) cli_seq_for_ack in
  let w := set_pkt w f in
  if rc <? 0 then (XDP_ABORTED, spnl_tcp_slice_inc w 12) else
  finish_reply w f t 20 (14 + 20 + 20) (fun w =>
    let st := if state st =? 2 then St (server_seq st) cli_seq_for_ack (mss st) 3 (pad st) (timer st) else st in
    let st := spnl_tcp_slice_arm st SPNL_TS_TTL_CLOSED in
    let w := set_tab w (tset (conntab w) k st) in
    (XDP_TX, spnl_tcp_slice_inc w 9)).

Definition on_data (w : world) (t : nat) (thl payload_len : Z) (st : spnl_tcp_slice_state) : Z * world :=
  let f := pkt w in
  let k := the_key f t in
  let kc_slot := spnl_tcp_slice_match_route f (t + Z.to_nat thl) payload_len in
  if 0 <=? kc_slot then
    let '(srv_seq_to_send, cli_seq_after, w) :=
      if state st =? 1
      then (server_seq st, u32 (bswap32 (rd32 f (t + 4)) + payload_len), spnl_tcp_slice_inc w 5)
      else (u32 (server_seq st - 41 - 1), client_seq st, spnl_tcp_slice_inc w 14) in
    let (f, rc) := spnl_tcp_slice_build_response f t srv_seq_to_send cli_seq_after in
    let w := set_pkt w f in
    if rc <? 0 then (XDP_ABORTED, spnl_tcp_slice_inc w 12) else
    finish_reply w f t (20 + 41) (14 + 20 + 20 + 41) (fun w =>
      let st := if state st =? 1
                then St (u32 (srv_seq_to_send + 41 + 1)) cli_seq_after (mss st) 2 (pad st) (timer st)
                else st in
      let st := spnl_tcp_slice_arm st SPNL_TS_TTL_RESP in
      let w := set_tab w (tset (conntab w) k st) in
      (XDP_TX, spnl_tcp_slice_inc w 7))
  else (XDP_DROP, spnl_tcp_slice_inc (spnl_tcp_slice_inc w 6) 10).

Definition on_ack (w : world) (ihl : Z) (t : nat) : Z * world :=
  let f := pkt w in
  let thl := tcp_doff f t * 4 in
  if (thl <? 20) || (length f <? t + Z.to_nat thl)%nat then (XDP_DROP, w) else
  let ip_tot := bswap16 (rd16 f ip_tot_len) in
  if ip_tot <? ihl + thl then (XDP_DROP, w) else
  let payload_len := ip_tot - ihl - thl in
  match find_conn w t with
  | (inl verdict, w) => (verdict, w)
  | (inr st, w) =>
      if bit f (t + 13) 0 && ((state st =? 2) || (state st =? 3)) then on_fin w t payload_len st else
      if (0 <? payload_len) && ((state st =? 1) || (state st =? 2)) then on_data w t thl payload_len st else
      (XDP_DROP, spnl_tcp_slice_inc w 10)
  end.

Definition spnl_tcp_slice_main (w : world) : Z * world :=
  let f := pkt w in
  if (length f <? 14)%nat then (XDP_PASS, w) else
  if negb (rd16 f eth_proto =? bswap16 2048) then (XDP_PASS, spnl_tcp_slice_inc w 11) else
  if (length f <? ip + 20)%nat then (XDP_PASS, w) else
  if negb (rd8 f ip_protocol =? 6) then (XDP_PASS, spnl_tcp_slice_inc w 11) else
  let ihl := ip_ihl f * 4 in
  if (ihl <? 20) || (length f <? ip + Z.to_nat ihl)%nat then (XDP_PASS, w) else
  let t := (ip + Z.to_nat ihl)%nat in
  if (length f <? t + 20)%nat then (XDP_PASS, w) else
  if negb (rd16 f (t + 2) =? bswap16 8080) then (XDP_PASS, spnl_tcp_slice_inc w 11) else
  if bit f (t + 13) 2 then on_rst w t else
  if bit f (t + 13) 1 && negb (bit f (t + 13) 4) then on_syn w t else
  if negb (bit f (t + 13) 4) then (XDP_PASS, w) else
  on_ack w ihl t.

End Kernel.
End Slice.

(** ** The peer *)
Module Receiver.

(** RFC 1071: the ones' complement sum of the 16-bit words of a buffer, most
    significant byte first, an odd last byte padded with zero. *)
Definition ones_add (x y : Z) : Z := let s := x + y in if 65535 <? s then s - 65535 else s.

Fixpoint words (l : list Z) : list Z :=
  match l with
  | a :: b :: l' => 256 * a + b :: words l'
  | [a] => [256 * a]
  | [] => []
  end.

Definition ones_sum (l : list Z) : Z := fold_right ones_add 0 (words l).

Definition be (l : list Z) : Z := fold_left (fun a b => 256 * a + b) l 0.

Record segment := Segment {
  mac_dst : list Z; mac_src : list Z; ip_src : list Z; ip_dst : list Z;
  port_src : Z; port_dst : Z; seq : Z; ack : Z; flags : Z; window : Z;
  options : list Z; payload : list Z }.

(** The fields of an IPv4 TCP frame whose TCP header begins at the byte [t], has [thl]
    bytes and is followed by [len] bytes of data. *)
Definition fields (f : list Z) (t : nat) (thl len : Z) : segment :=
  Segment (slice 0 6 f) (slice 6 6 f) (slice 26 4 f) (slice 30 4 f)
    (be (slice t 2 f)) (be (slice (t + 2) 2 f)) (be (slice (t + 4) 4 f)) (be (slice (t + 8) 4 f))
    (nth (t + 13) f 0) (be (slice (t + 14) 2 f))
    (slice (t + 20) (Z.to_nat (thl - 20)) f) (slice (t + Z.to_nat thl) (Z.to_nat len) f).

(** No part of a longer packet: more-fragments and the offset are zero. *)
Definition unfragmented (f : list Z) : bool := be (slice 20 2 f) mod 16384 =? 0.

(** What a host takes from a frame without IP options: nothing unless it is a whole
    packet, the lengths agree and both checksums are right. *)
Definition decode (f : list Z) : option segment :=
  if (length f <? 54)%nat then None else
  if negb (be (slice 12 2 f) =? 2048) then None else
  if negb (nth 14 f 0 =? 69) then None else
  let tot := be (slice 16 2 f) in
  if negb (Z.of_nat (length f) =? 14 + tot) then None else
  if negb (unfragmented f) then None else
  if negb (nth 23 f 0 =? 6) then None else
  if negb (ones_sum (slice 14 20 f) =? 65535) then None else
  let len := tot - 20 in
  let thl := nth 46 f 0 / 16 * 4 in
  if (thl <? 20) || (len <? thl) then None else
  let pseudo := slice 26 8 f ++ [0; 6; len / 256; len mod 256] in
  if negb (ones_sum (pseudo ++ skipn 34 f) =? 65535) then None else
  Some (fields f 34 thl (len - thl)).

End Receiver.

(** ** Checksums *)
Module Sums.
Import Slice Receiver.

(** The sum of the words as a little-endian machine reads them. *)
Fixpoint le_sum (l : list Z) : Z :=
  match l with
  | a :: b :: l' => a + 256 * b + le_sum l'
  | [a] => a
  | [] => 0
  end.

Lemma pair_ind (P : list Z -> Prop) :
  P [] -> (forall a, P [a]) -> (forall a b l, P l -> P (a :: b :: l)) -> forall l, P l.
Proof.
  intros H0 H1 H2. fix IH 1. intros [|a [|b l]]; [exact H0|apply H1|apply H2, IH].
Qed.

Lemma le_sum_app a b : Nat.Even (length a) -> le_sum (a ++ b) = le_sum a + le_sum b.
Proof.
  induction a as [|x|x y a IH] using pair_ind; intros [n Hn]; cbn [length app le_sum] in *; [lia|lia|].
  rewrite IH by (exists (n - 1)%nat; lia). lia.
Qed.

Lemma le_sum_nonneg l : Forall is_byte l -> 0 <= le_sum l.
Proof.
  unfold is_byte. induction l as [|x|x y l IH] using pair_ind; intros H; cbn [le_sum]; [lia|inv H; lia|].
  inv H. inv H3. specialize (IH H4). lia.
Qed.

Lemma ones_sum_spec l : Forall is_byte l ->
  0 <= ones_sum l <= 65535 /\ (ones_sum l - 256 * le_sum l) mod 65535 = 0 /\
  (0 < le_sum l -> 0 < ones_sum l).
Proof.
  unfold ones_sum, is_byte. induction l as [|x|x y l IH] using pair_ind; intros H; cbn [words fold_right le_sum].
  - repeat split; lia.
  - inv H. unfold ones_add. cbv zeta. destruct (Z.ltb_spec 65535 (256 * x + 0)); [lia|].
    replace (256 * x + 0 - 256 * x) with 0 by lia. repeat split; lia.
  - inv H. inv H3. destruct (IH H4) as (R & E & Z). fold (le_sum l) in *.
    pose proof (le_sum_nonneg l H4) as N.
    set (s := fold_right ones_add 0 (words l)) in *. unfold ones_add. cbv zeta.
    apply Z.mod_divide in E; [|lia]. destruct E as [q E].
    destruct (Z.ltb_spec 65535 (256 * x + y + s)); (split; [lia|split]).
    + apply Z.mod_divide; [lia|]. exists (q - 1 - y). lia.
    + intros. lia.
    + apply Z.mod_divide; [lia|]. exists (q - y). lia.
    + intros. destruct (Z.eq_dec (le_sum l) 0); lia.
Qed.

(** A buffer passes when its little-endian sum is a positive multiple of 65535. *)
Lemma ones_sum_passes l : Forall is_byte l -> 0 < le_sum l -> le_sum l mod 65535 = 0 -> ones_sum l = 65535.
Proof.
  intros B P M. destruct (ones_sum_spec l B) as (R & E & Z). specialize (Z P).
  apply Z.mod_divide in M as [q M]; [|lia]. apply Z.mod_divide in E as [p E]; [|lia]. lia.
Qed.

Lemma csum_fold_spec v : 0 <= v < 2 ^ 32 ->
  0 <= spnl_tcp_slice_csum_fold v < 65536 /\ (v + spnl_tcp_slice_csum_fold v) mod 65535 = 0.
Proof.
  intros H. unfold spnl_tcp_slice_csum_fold. cbv zeta.
  assert (M : forall a, Z.land a 65535 = a mod 65536) by (intros; apply (Z.land_ones a 16); lia).
  rewrite !M, !Z.shiftr_div_pow2 by lia. change (2 ^ 16) with 65536.
  pose proof (Z.div_mod v 65536 ltac:(lia)). pose proof (Z.mod_pos_bound v 65536 ltac:(lia)).
  assert (0 <= v / 65536 < 65536) by (split; [apply Z.div_pos|apply Z.div_lt_upper_bound]; lia).
  rewrite (wrap_small 32 (v mod 65536 + _)) by (change (2 ^ 32) with 4294967296; lia).
  set (x := v mod 65536 + v / 65536) in *.
  pose proof (Z.div_mod x 65536 ltac:(lia)). pose proof (Z.mod_pos_bound x 65536 ltac:(lia)).
  assert (0 <= x / 65536 < 2) by (split; [apply Z.div_pos|apply Z.div_lt_upper_bound]; lia).
  rewrite (wrap_small 32) by (change (2 ^ 32) with 4294967296; lia).
  set (y := x mod 65536 + x / 65536) in *. assert (0 <= y <= 65535) by lia.
  replace (wrap 16 (Z.lnot y)) with (65535 - y).
  - split; [lia|]. apply Z.mod_divide; [lia|]. exists (1 + v / 65536 + x / 65536). lia.
  - unfold wrap, Z.lnot. change (2 ^ 16) with 65536. rewrite <- (Z.mod_add (Z.pred (- y)) 1) by lia.
    symmetry. rewrite Z.mod_small; lia.
Qed.

(** The loop stops: four rounds are enough for what is added up. *)
Lemma carry_loop_spec s : 0 <= s < 2 ^ 34 ->
  0 <= carry_loop 4 s < 2 ^ 32 /\ (carry_loop 4 s - s) mod 65535 = 0.
Proof.
  intros H. change (2 ^ 34) with 17179869184 in H. change (2 ^ 32) with 4294967296.
  assert (Step : forall n x, 0 <= x < 17179869184 ->
    carry_loop (S n) x = (if x / 4294967296 =? 0 then x else carry_loop n (x mod 4294967296 + x / 4294967296)) /\
    0 <= x / 4294967296 < 4 /\ x = 4294967296 * (x / 4294967296) + x mod 4294967296 /\ 0 <= x mod 4294967296 < 4294967296).
  { intros n x Hx. pose proof (Z.div_mod x 4294967296 ltac:(lia)). pose proof (Z.mod_pos_bound x 4294967296 ltac:(lia)).
    assert (0 <= x / 4294967296 < 4) by (split; [apply Z.div_pos|apply Z.div_lt_upper_bound]; lia).
    repeat split; try lia. cbn [carry_loop]. change 4294967295 with (Z.ones 32).
    rewrite Z.land_ones, Z.shiftr_div_pow2 by lia. change (2 ^ 32) with 4294967296.
    now rewrite (wrap_small 64) by (change (2 ^ 64) with 18446744073709551616; lia). }
  destruct (Step 3%nat s H) as (-> & A1 & A2 & A3).
  destruct (Z.eqb_spec (s / 4294967296) 0); [rewrite Z.sub_diag; split; [lia|reflexivity]|].
  set (x := s mod 4294967296 + s / 4294967296) in *.
  destruct (Step 2%nat x ltac:(lia)) as (-> & B1 & B2 & B3).
  destruct (Z.eqb_spec (x / 4294967296) 0);
    [split; [lia|]; apply Z.mod_divide; [lia|]; exists (- 65537 * (s / 4294967296)); lia|].
  set (y := x mod 4294967296 + x / 4294967296) in *.
  destruct (Step 1%nat y ltac:(lia)) as (-> & C1 & C2 & C3).
  destruct (Z.eqb_spec (y / 4294967296) 0); [|lia].
  split; [lia|]. apply Z.mod_divide; [lia|]. exists (- 65537 * (s / 4294967296 + x / 4294967296)). lia.
Qed.

Lemma csum_tcpudp_spec s d len v : 0 <= s < 2 ^ 32 -> 0 <= d < 2 ^ 32 -> 0 <= v < 2 ^ 32 -> 0 <= 6 + len < 65536 ->
  let c := spnl_tcp_slice_csum_tcpudp s d len 6 v in
  0 <= c < 65536 /\ (v + s + d + Packet.bswap16 (6 + len) + c) mod 65535 = 0.
Proof.
  intros Hs Hd Hv Hl. unfold spnl_tcp_slice_csum_tcpudp. cbv zeta.
  rewrite (wrap_small 16) by (change (2 ^ 16) with 65536; lia).
  assert (Hb : 0 <= Packet.bswap16 (6 + len) < 65536).
  { unfold Packet.bswap16. pose proof (Z.mod_pos_bound (6 + len) 256). pose proof (Z.mod_pos_bound ((6 + len) / 256) 256). lia. }
  change (2 ^ 32) with 4294967296 in *.
  rewrite (wrap_small 32 s), (wrap_small 32 d) by (change (2 ^ 32) with 4294967296; lia).
  rewrite (wrap_small 64 (v + s)) by (change (2 ^ 64) with 18446744073709551616; lia).
  rewrite (wrap_small 64 (v + s + d)) by (change (2 ^ 64) with 18446744073709551616; lia).
  rewrite (wrap_small 64) by (change (2 ^ 64) with 18446744073709551616; lia).
  set (x := v + s + d + Packet.bswap16 (6 + len)) in *.
  destruct (carry_loop_spec x) as (R & E); [change (2 ^ 34) with 17179869184; lia|].
  rewrite (wrap_small 32) by assumption. destruct (csum_fold_spec _ R) as (R' & E').
  split; [assumption|]. apply Z.mod_divide in E as [q E]; [|lia]. apply Z.mod_divide in E' as [q' E']; [|lia].
  apply Z.mod_divide; [lia|]. exists (q' - q). lia.
Qed.

End Sums.

(** ** The protocol on decoded segments *)
Module Server.
Import Packet Slice Receiver Sums.

(** The three states of a connection: the next sequence number each side uses. *)
Inductive phase :=
| Established (snd rcv : Z)
| Answered (snd rcv : Z)
| Closed (snd rcv : Z).

(** An answer: flags, sequence and acknowledgement number, options and data. *)
Record answer := Answer { a_flags : Z; a_seq : Z; a_ack : Z; a_options : list Z; a_payload : list Z }.

Definition SYN_ACK : Z := 18.
Definition FIN_PSH_ACK : Z := 25.
Definition ACK : Z := 16.

Definition has (b : Z) (s : segment) : bool := Z.testbit (flags s) b.
Definition fin := has 0.
Definition syn := has 1.
Definition rst := has 2.
Definition acks := has 4.

Definition is_get (s : segment) : bool := bytes_eqb (firstn 12 (payload s)) route.
Definition len (s : segment) : Z := Z.of_nat (length (payload s)).

(** What the server does with an acknowledging segment of a connection, whose headers
    announce [n] bytes of data: the request is answered with the whole response and
    FIN, a request that is sent again with the same answer, the client's FIN with an
    ACK. *)
Definition respond (p : phase) (s : segment) (n : Z) : option (phase * answer) :=
  match p with
  | Established snd rcv =>
      if is_get s
      then let r := u32 (seq s + n) in
           Some (Answered (u32 (snd + 42)) r, Answer FIN_PSH_ACK snd r [] spnl_tcp_slice_resp_body)
      else None
  | Answered snd rcv =>
      if fin s
      then let r := u32 (seq s + n + 1) in Some (Closed snd r, Answer ACK snd r [] [])
      else if is_get s
      then Some (p, Answer FIN_PSH_ACK (u32 (snd - 42)) rcv [] spnl_tcp_slice_resp_body)
      else None
  | Closed snd rcv => if fin s then Some (p, Answer ACK snd rcv [] []) else None
  end.

(** A segment of an unknown connection opens one when its cookie is valid. *)
Definition accept (valid : bool) (c : option phase) (s : segment) : option phase :=
  match c with
  | Some p => Some p
  | None => if valid then Some (Established (ack s) (seq s)) else None
  end.

(** Where the TCP header begins, behind the options of IP. *)
Definition tcp_at (f : list Z) : nat := (14 + Z.to_nat (nth 14 f 0 mod 16 * 4)%Z)%nat.

(** The length of the TCP header at [t], the number of data bytes behind it according
    to the length in the IP header, the segment, and the one that answers it. *)
Definition header_len (f : list Z) (t : nat) : Z := nth (t + 12) f 0 / 16 * 4.
Definition announced (f : list Z) (t : nat) : Z := be (slice 16 2 f) - Z.of_nat (t - 14) - header_len f t.
Definition heard (f : list Z) (t : nat) : segment := fields f t (header_len f t) (announced f t).

Definition reply_to (f : list Z) (t : nat) (a : answer) : segment :=
  Segment (slice 6 6 f) (slice 0 6 f) (slice 30 4 f) (slice 26 4 f)
    (be (slice (t + 2) 2 f)) (be (slice t 2 f)) (a_seq a) (a_ack a) (a_flags a) 65535 (a_options a) (a_payload a).

(** An IPv4 frame without options that is not a fragment: those whose answers are
    well formed. *)
Definition plain (f : list Z) : bool := (nth 14 f 0 =? 69) && unfragmented f.

Definition phase_of (c : spnl_tcp_slice_state) : phase :=
  if state c =? 1 then Established (server_seq c) (client_seq c)
  else if state c =? 2 then Answered (server_seq c) (client_seq c)
  else Closed (server_seq c) (client_seq c).

(** What holds of an entry of the table: it is in one of the three states.  [timed]: the
    timer that deletes it runs with the time of that state. *)
Definition entry_ok (c : spnl_tcp_slice_state) : Prop :=
  0 <= server_seq c < 2 ^ 32 /\ 0 <= client_seq c < 2 ^ 32 /\ (state c = 1 \/ state c = 2 \/ state c = 3).

Definition timed (c : spnl_tcp_slice_state) : Prop :=
  timer c = Some (if state c =? 1 then SPNL_TS_TTL_ESTAB else if state c =? 2 then SPNL_TS_TTL_RESP else SPNL_TS_TTL_CLOSED).

Definition each (P : spnl_tcp_slice_state -> Prop) (t : table) : Prop := forall k c, t k = Some c -> P c.
Definition table_ok : table -> Prop := each entry_ok.

(** The documented behaviour of the helpers: the checksum is the sum of the
    16-bit words with its carries folded back to 32 bits; resizing keeps the bytes
    that remain; an update of the LRU table stores the entry or finds that it was
    evicted again, and may evict others; only [bpf_timer_start] changes the time a
    timer runs with, when it succeeds.  Any helper may fail; in particular nothing
    is assumed of the checksum of a length that is not a multiple of four, for which
    its documentation promises none ([TcpServer.Limits.unaligned_response_aborted]). *)
Record kernel_ok (K : kernel) : Prop := {
  csum_law : forall bs, Forall is_byte bs -> 0 <= csum_diff K bs ->
    csum_diff K bs < 2 ^ 32 /\ (csum_diff K bs - le_sum bs) mod 65535 = 0;
  tail_law : forall f d g, Forall is_byte f -> adjust_tail K f d = Some g ->
    Forall is_byte g /\ Z.of_nat (length g) = Z.of_nat (length f) + d /\
    firstn (Nat.min (length f) (length g)) g = firstn (Nat.min (length f) (length g)) f;
  lru_law : forall t k c t', lru_update K t k c = Some t' ->
    (t' k = Some c \/ t' k = None) /\ (forall k', key_eqb k' k = false -> t' k' = t k' \/ t' k' = None);
  timer_law : forall t ttl,
    timer_init K t = t /\ timer_set_callback K t = t /\ (timer_start K t ttl = Some ttl \/ timer_start K t ttl = t) }.

(** The calls that start a timer succeed. *)
Definition timers_start (K : kernel) : Prop := forall t ttl, timer_start K t ttl = Some ttl.

(** A TCP frame for port 8080, whose TCP header begins at [t]. *)
Definition for_us (f : list Z) (t : nat) : bool :=
  (34 <=? t)%nat && (t + 20 <=? length f)%nat && (be (slice 12 2 f) =? 2048) && (nth 23 f 0 =? 6) &&
  (be (slice (t + 2) 2 f) =? 8080).

(** The header lengths of [f] fit into it. *)
Definition well_sized (f : list Z) (t : nat) : bool :=
  (20 <=? header_len f t) && (t + Z.to_nat (header_len f t) <=? length f)%nat && (0 <=? announced f t).

(** The peer's maximum segment size from the cookie function, and its default. *)
Definition mss_option (m : Z) : list Z := [2; 4; m / 256; m mod 256].
Definition cookie_of (K : kernel) (f : list Z) (t : nat) : Z :=
  gen_syncookie K (slice 14 20 f) (slice t (Z.to_nat (header_len f t)) f) (header_len f t).
Definition cookie_mss (c : Z) : Z := let m := u16 (Z.shiftr c 32) in if m =? 0 then 1460 else m.
Definition cookie_valid (K : kernel) (f : list Z) (t : nat) : bool :=
  0 <=? check_syncookie K (slice 14 20 f) (slice t 20 f).

(** One frame: the verdict, the segment to send, and the connection of its 4-tuple
    before and after. *)
Inductive server_step (K : kernel) (f : list Z) (t : nat) (c : option phase) : Z -> option segment -> option phase -> Prop :=
| not_ours : for_us f t = false -> server_step K f t c XDP_PASS None c
| resets : for_us f t = true -> rst (heard f t) = true -> server_step K f t c XDP_DROP None None
| greets : for_us f t = true -> rst (heard f t) = false -> syn (heard f t) = true -> acks (heard f t) = false ->
    let k := cookie_of K f t in
    server_step K f t c XDP_TX
      (Some (reply_to f t (Answer SYN_ACK (u32 k) (u32 (seq (heard f t) + 1)) (mss_option (cookie_mss k)) []))) c
| no_greeting v : for_us f t = true -> rst (heard f t) = false -> syn (heard f t) = true -> acks (heard f t) = false ->
    v = XDP_ABORTED \/ v = XDP_DROP -> server_step K f t c v None c
| no_ack : for_us f t = true -> rst (heard f t) = false -> syn (heard f t) = false -> acks (heard f t) = false ->
    server_step K f t c XDP_PASS None c
| malformed : for_us f t = true -> rst (heard f t) = false -> acks (heard f t) = true -> well_sized f t = false ->
    server_step K f t c XDP_DROP None c
| unknown : for_us f t = true -> rst (heard f t) = false -> acks (heard f t) = true -> well_sized f t = true ->
    accept (cookie_valid K f t) c (heard f t) = None -> server_step K f t c XDP_PASS None c
| no_place : for_us f t = true -> rst (heard f t) = false -> acks (heard f t) = true -> well_sized f t = true ->
    c = None -> server_step K f t c XDP_DROP None None
| ignores p : for_us f t = true -> rst (heard f t) = false -> acks (heard f t) = true -> well_sized f t = true ->
    accept (cookie_valid K f t) c (heard f t) = Some p -> respond p (heard f t) (announced f t) = None ->
    server_step K f t c XDP_DROP None (Some p)
| answers p p' a : for_us f t = true -> rst (heard f t) = false -> acks (heard f t) = true -> well_sized f t = true ->
    accept (cookie_valid K f t) c (heard f t) = Some p -> respond p (heard f t) (announced f t) = Some (p', a) ->
    server_step K f t c XDP_TX (Some (reply_to f t a)) (Some p')
| gives_up p p' a : for_us f t = true -> rst (heard f t) = false -> acks (heard f t) = true -> well_sized f t = true ->
    accept (cookie_valid K f t) c (heard f t) = Some p -> respond p (heard f t) (announced f t) = Some (p', a) ->
    server_step K f t c XDP_ABORTED None (Some p).

End Server.

(** ** The frames that are built *)
Module Built.
Import Packet Slice Receiver Sums Server.

(** *** Bytes and lengths *)

Lemma byte_mod v : is_byte (v mod 256).
Proof. apply (Z.mod_pos_bound v 256). lia. Qed.

Lemma wr8_bytes f i v : Forall is_byte f -> Forall is_byte (wr8 f i v).
Proof. intros. apply Forall_upd; auto using byte_mod. Qed.
Lemma wr16_bytes f i v : Forall is_byte f -> Forall is_byte (wr16 f i v).
Proof. intros. now apply wr8_bytes, wr8_bytes. Qed.
Lemma wr32_bytes f i v : Forall is_byte f -> Forall is_byte (wr32 f i v).
Proof. intros. now apply wr16_bytes, wr16_bytes. Qed.
Lemma wrs_bytes bs : forall f i, Forall is_byte f -> Forall is_byte (wrs f i bs).
Proof. induction bs; intros f i H; [exact H|]. apply IHbs. now apply wr8_bytes. Qed.
Lemma flags_bytes f t a b c d e g h i : Forall is_byte f -> Forall is_byte (tcp_flags f t a b c d e g h i).
Proof. intros. unfold tcp_flags. cbv zeta. unfold set_bit. repeat apply wr8_bytes. assumption. Qed.
Lemma doff_bytes f t v : Forall is_byte f -> Forall is_byte (set_doff f t v).
Proof. apply wr8_bytes. Qed.
Lemma ihl_bytes f v : Forall is_byte f -> Forall is_byte (set_ihl f v).
Proof. apply wr8_bytes. Qed.

Lemma swaps_bytes f t : Forall is_byte f ->
  Forall is_byte (spnl_tcp_slice_swap_mac f) /\ Forall is_byte (swap_ip f) /\ Forall is_byte (swap_ports f t).
Proof.
  intros. unfold spnl_tcp_slice_swap_mac, swap_ip, swap_ports. cbv zeta.
  repeat split; auto using wr16_bytes, wr32_bytes, wrs_bytes.
Qed.
Lemma mac_bytes f : Forall is_byte f -> Forall is_byte (spnl_tcp_slice_swap_mac f).
Proof. intros. now apply (swaps_bytes f 0). Qed.
Lemma addr_bytes f : Forall is_byte f -> Forall is_byte (swap_ip f).
Proof. intros. now apply (swaps_bytes f 0). Qed.
Lemma ports_bytes f t : Forall is_byte f -> Forall is_byte (swap_ports f t).
Proof. intros. now apply (swaps_bytes f t). Qed.

Lemma firstn_bytes n f : Forall is_byte f -> Forall is_byte (firstn n f).
Proof. intros H. rewrite <- (firstn_skipn n f) in H. now apply Forall_app in H. Qed.

Create HintDb frame.
#[local] Hint Resolve wr8_bytes wr16_bytes wr32_bytes wrs_bytes flags_bytes doff_bytes ihl_bytes mac_bytes addr_bytes ports_bytes
  firstn_bytes slice_bytes : frame.

Lemma length_wr8 f i v : length (wr8 f i v) = length f.
Proof. apply length_upd. Qed.
Lemma length_wr16 f i v : length (wr16 f i v) = length f.
Proof. unfold wr16. now rewrite !length_wr8. Qed.
Lemma length_wr32 f i v : length (wr32 f i v) = length f.
Proof. unfold wr32. now rewrite !length_wr16. Qed.
Lemma length_wrs bs : forall f i, length (wrs f i bs) = length f.
Proof. induction bs; intros f i; [reflexivity|]. cbn [wrs]. now rewrite IHbs, length_wr8. Qed.
Lemma length_flags f t a b c d e g h i : length (tcp_flags f t a b c d e g h i) = length f.
Proof. unfold tcp_flags. cbv zeta. unfold set_bit. now rewrite !length_wr8. Qed.
Lemma length_doff f t v : length (set_doff f t v) = length f.
Proof. apply length_wr8. Qed.
Lemma length_ihl f v : length (set_ihl f v) = length f.
Proof. apply length_wr8. Qed.

Lemma length_mac f : length (spnl_tcp_slice_swap_mac f) = length f.
Proof. unfold spnl_tcp_slice_swap_mac. now rewrite !length_wrs. Qed.
Lemma length_addr f : length (swap_ip f) = length f.
Proof. unfold swap_ip. now rewrite !length_wr32. Qed.
Lemma length_ports f t : length (swap_ports f t) = length f.
Proof. unfold swap_ports. now rewrite !length_wr16. Qed.

Create Rewrite HintDb frame_len.
#[local] Hint Rewrite length_wr8 length_wr16 length_wr32 length_wrs length_flags length_doff length_ihl length_mac length_addr length_ports : frame_len.

(** *** Values of fields *)

Lemma bswap32_be v : 0 <= v < 2 ^ 32 ->
  be [bswap32 v mod 256; bswap32 v / 256 mod 256; bswap32 v / 65536 mod 256; bswap32 v / 65536 / 256 mod 256] = v.
Proof.
  intros H. unfold be, bswap32, bswap16. cbn [fold_left]. change (2 ^ 32) with 4294967296 in H.
  Z.div_mod_to_equations. lia.
Qed.

Lemma bswap32_rd a b c d : is_byte a -> is_byte b -> is_byte c -> is_byte d ->
  bswap32 (a + 256 * b + 65536 * (c + 256 * d)) = be [a; b; c; d].
Proof. unfold is_byte, bswap32, bswap16, be. intros. cbn [fold_left]. Z.div_mod_to_equations. lia. Qed.

Lemma rd32_bytes a b c d : is_byte a -> is_byte b -> is_byte c -> is_byte d ->
  let v := a + 256 * b + 65536 * (c + 256 * d) in
  v mod 256 = a /\ v / 256 mod 256 = b /\ v / 65536 mod 256 = c /\ v / 65536 / 256 mod 256 = d.
Proof. unfold is_byte. intros. cbv zeta. repeat split; Z.div_mod_to_equations; lia. Qed.

Lemma rd16_bytes a b : is_byte a -> is_byte b -> (a + 256 * b) mod 256 = a /\ (a + 256 * b) / 256 mod 256 = b.
Proof. unfold is_byte. intros. split; Z.div_mod_to_equations; lia. Qed.

Definition set1 (b k : Z) (v : bool) : Z := (if v then Z.setbit b k else Z.clearbit b k) mod 256.

Lemma flag_values b : is_byte b ->
  set1 (set1 (set1 (set1 (set1 (set1 (set1 (set1 b 0 false) 1 true) 2 false) 3 false) 4 true) 5 false) 6 false) 7 false = SYN_ACK /\
  set1 (set1 (set1 (set1 (set1 (set1 (set1 (set1 b 0 true) 1 false) 2 false) 3 true) 4 true) 5 false) 6 false) 7 false = FIN_PSH_ACK /\
  set1 (set1 (set1 (set1 (set1 (set1 (set1 (set1 b 0 false) 1 false) 2 false) 3 false) 4 true) 5 false) 6 false) 7 false = ACK.
Proof.
  intros H. unfold is_byte in H.
  assert (A : forallb (fun n => let b := Z.of_nat n in
    (set1 (set1 (set1 (set1 (set1 (set1 (set1 (set1 b 0 false) 1 true) 2 false) 3 false) 4 true) 5 false) 6 false) 7 false =? SYN_ACK) &&
    (set1 (set1 (set1 (set1 (set1 (set1 (set1 (set1 b 0 true) 1 false) 2 false) 3 true) 4 true) 5 false) 6 false) 7 false =? FIN_PSH_ACK) &&
    (set1 (set1 (set1 (set1 (set1 (set1 (set1 (set1 b 0 false) 1 false) 2 false) 3 false) 4 true) 5 false) 6 false) 7 false =? ACK))
    (List.seq 0 256) = true) by (vm_compute; reflexivity).
  rewrite forallb_forall in A. specialize (A (Z.to_nat b)). cbv beta zeta in A. rewrite in_seq, Z2Nat.id in A by lia.
  specialize (A ltac:(lia)). bools. auto.
Qed.

Lemma doff_value b v : is_byte b -> 0 <= v < 16 -> (Z.lor (Z.land b 15) (Z.shiftl v 4) mod 256) / 16 = v.
Proof.
  intros Hb Hv. rewrite Z.lor_comm, lor_shiftl; [|lia|].
  - change 15 with (Z.ones 4). rewrite Z.land_ones by lia. change (2 ^ 4) with 16. unfold is_byte in Hb.
    Z.div_mod_to_equations. lia.
  - change 15 with (Z.ones 4). rewrite Z.land_ones by lia. apply Z.mod_pos_bound. lia.
Qed.

(** *** The builders

    [built f n thl a g]: the frame [g], made in the place of [f], is the answer [a]
    with [n] bytes of TCP, [thl] of them the header; only its checksums are open. *)
Record built (f : list Z) (n : nat) (thl : Z) (a : answer) (g : list Z) : Prop := {
  bu_bytes : Forall is_byte g;
  bu_len : length g = length f;
  bu_room : (34 + n <= length g)%nat;
  bu_type : slice 12 2 g = slice 12 2 f;
  bu_frag : slice 20 2 g = slice 20 2 f;
  bu_vers : nth 14 g 0 = 69;
  bu_tot : slice 16 2 g = [(20 + Z.of_nat n) / 256; (20 + Z.of_nat n) mod 256];
  bu_tcp : nth 23 g 0 = nth 23 f 0;
  bu_thl : nth 46 g 0 / 16 * 4 = thl;
  bu_fields : fields g 34 thl (Z.of_nat n - thl) = reply_to f 34 a }.

(** [spread n f] makes the first [n] bytes of [f] variables. *)
Tactic Notation "spread" integer(n) ident(f) := do n (destruct f as [|? f]; [exfalso; cbn [length] in *; lia|]).

Ltac frame_cbv :=
  cbv [spnl_tcp_slice_build_finack spnl_tcp_slice_build_response spnl_tcp_slice_build_synack
       spnl_tcp_slice_swap_mac swap_ip swap_ports tcp_flags set_bit set_doff set_ihl
       wr8 wr16 wr32 wrs rd8 rd16 rd32 upd nth slice firstn skipn Nat.add fields reply_to
       ip ip_tot_len ip_id ip_ttl ip_protocol ip_check ip_saddr ip_daddr fst snd
       a_seq a_ack a_flags a_options a_payload spnl_tcp_slice_resp_body].

Lemma segment_eq a1 b1 c1 d1 e1 f1 g1 h1 i1 j1 k1 l1 a2 b2 c2 d2 e2 f2 g2 h2 i2 j2 k2 l2 :
  a1 = a2 -> b1 = b2 -> c1 = c2 -> d1 = d2 -> e1 = e2 -> f1 = f2 -> g1 = g2 -> h1 = h2 ->
  i1 = i2 -> j1 = j2 -> k1 = k2 -> l1 = l2 ->
  Segment a1 b1 c1 d1 e1 f1 g1 h1 i1 j1 k1 l1 = Segment a2 b2 c2 d2 e2 f2 g2 h2 i2 j2 k2 l2.
Proof. intros. subst. reflexivity. Qed.

(** [field] closes an equation between a field written and the value it is to
    have; [wrote] the equation of all fields, on an explicit frame of bytes. *)
Ltac field :=
  lazymatch goal with
  | |- Segment _ _ _ _ _ _ _ _ _ _ _ _ = _ => apply segment_eq
  | |- ?x = ?x => exact eq_refl
  | |- ?x mod 256 = ?x => (apply Z.mod_small; assumption) || exact eq_refl
  | |- be (bswap32 ?v mod 256 :: _) = ?v => apply (bswap32_be v); assumption
  | |- (_ + _ + _) mod 256 = _ => apply rd32_bytes; assumption
  | |- ((_ + _ + _) / _) mod 256 = _ => apply rd32_bytes; assumption
  | |- ((_ + _ + _) / _ / _) mod 256 = _ => apply rd32_bytes; assumption
  | |- (_ + _) mod 256 = _ => apply rd16_bytes; assumption
  | |- ((_ + _) / _) mod 256 = _ => apply rd16_bytes; assumption
  | B : is_byte ?b |- context [Z.clearbit ?b 0] => exact (proj1 (flag_values b B)) || exact (proj2 (proj2 (flag_values b B)))
  | B : is_byte ?b |- context [Z.setbit ?b 0] => exact (proj1 (proj2 (flag_values b B)))
  | |- be [?a; ?b] = be [?c; ?d] => apply (f_equal2 (fun x y => be [x; y]))
  | |- _ :: _ = _ :: _ => apply f_equal2
  | |- be [bswap16 65535 mod 256; (bswap16 65535 / 256) mod 256] = 65535 => reflexivity
  end.
Ltac known_nats :=
  repeat match goal with
         | |- context [Z.to_nat ?z] => let v := eval vm_compute in (Z.to_nat z) in change (Z.to_nat z) with v
         end.
Ltac wrote := unfold fields; known_nats; frame_cbv; repeat field.
Ltac byte_facts :=
  repeat match goal with H : Forall is_byte (_ :: _) |- _ => apply Forall_cons_iff in H; destruct H end.

(** The bytes and the length of the frame built. *)
Ltac known_shape :=
  match goal with
  | |- built ?f _ _ _ ?g =>
      assert (B' : Forall is_byte g) by auto 40 with frame;
      assert (L' : length g = length f) by now autorewrite with frame_len
  end.

Lemma build_finack_built f srv cli : Forall is_byte f -> (54 <= length f)%nat -> nth 14 f 0 = 69 ->
  0 <= srv < 2 ^ 32 -> 0 <= cli < 2 ^ 32 ->
  exists g, spnl_tcp_slice_build_finack f 34 srv cli = (g, 0) /\ built f 20 20 (Answer ACK srv cli [] []) g.
Proof.
  intros B L V Hs Hc. unfold spnl_tcp_slice_build_finack. cbv zeta. eexists. split; [reflexivity|]. known_shape. spread 54 f. cbn [nth] in V. subst. byte_facts.
  constructor; [exact B'|exact L'|exact (eq_ind_r (Nat.le _) L L')|..]; clear B' L'; try (frame_cbv; reflexivity).
  - frame_cbv. now rewrite doff_value by (assumption || lia).
  - wrote.
Qed.

Lemma build_response_built f srv cli : Forall is_byte f -> (54 <= length f)%nat -> nth 14 f 0 = 69 ->
  0 <= srv < 2 ^ 32 -> 0 <= cli < 2 ^ 32 ->
  (exists g, spnl_tcp_slice_build_response f 34 srv cli = (g, -1) /\ (length f < 95)%nat) \/
  exists g, spnl_tcp_slice_build_response f 34 srv cli = (g, 0) /\
            built f 61 20 (Answer FIN_PSH_ACK srv cli [] spnl_tcp_slice_resp_body) g.
Proof.
  intros B L V Hs Hc. unfold spnl_tcp_slice_build_response. cbv zeta. autorewrite with frame_len.
  destruct (Nat.ltb_spec (length f) (34 + 20 + 41)) as [Ls|Ls]; [left; eauto|right].
  eexists. split; [reflexivity|]. known_shape. clear L. spread 95 f. cbn [nth] in V. subst. byte_facts.
  constructor; [exact B'|exact L'|exact (eq_ind_r (Nat.le _) Ls L')|..]; clear B' L'; try (frame_cbv; reflexivity).
  - frame_cbv. now rewrite doff_value by (assumption || lia).
  - wrote.
Qed.

Lemma build_synack_built f c m : Forall is_byte f -> (58 <= length f)%nat -> nth 14 f 0 = 69 ->
  0 <= c < 2 ^ 32 -> 0 <= m < 65536 ->
  exists g, spnl_tcp_slice_build_synack f 34 c m = (g, 0) /\
    built f 24 24 (Answer SYN_ACK c (u32 (be (slice 38 4 f) + 1)) (mss_option m) [])
      (wr16 (wr8 (wr16 (set_ihl g 5) ip_tot_len (bswap16 (20 + 24))) ip_ttl 64) ip_id 0).
Proof.
  intros B L V Hc Hm. unfold spnl_tcp_slice_build_synack. cbv zeta. autorewrite with frame_len.
  destruct (Nat.ltb_spec (length f) (34 + 20 + 4)) as [Ls|Ls]; [lia|].
  eexists. split; [reflexivity|]. known_shape. clear L. spread 58 f. cbn [nth] in V. subst. byte_facts.
  constructor; [exact B'|exact L'|exact (eq_ind_r (Nat.le _) Ls L')|..]; clear B' L'; try (frame_cbv; reflexivity).
  - frame_cbv. now rewrite doff_value by (assumption || lia).
  - wrote.
    + rewrite bswap32_rd by assumption. apply bswap32_be, wrap_range. lia.
    + unfold mss_option. change 255 with (Z.ones 8). rewrite !Z.land_ones, Z.shiftr_div_pow2 by lia.
      change (2 ^ 8) with 256. rewrite !Zmod_mod, (Z.mod_small (m / 256)); [reflexivity|].
      split; [apply Z.div_pos|apply Z.div_lt_upper_bound]; lia.
Qed.

(** *** The checksums *)

Lemma u16_split c : 0 <= c < 65536 -> c mod 256 + 256 * (c / 256 mod 256) = c.
Proof. intros. Z.div_mod_to_equations. lia. Qed.

(** Storing the complement of a sum at an even place makes the whole sum vanish. *)
Lemma sum_vanishes s v c : (v - s) mod 65535 = 0 -> (v + c) mod 65535 = 0 -> (s + c) mod 65535 = 0.
Proof.
  intros A B. apply Z.mod_divide in A as [a A]; [|lia]. apply Z.mod_divide in B as [b B]; [|lia].
  apply Z.mod_divide; [lia|]. exists (b - a). lia.
Qed.

(** The length in the pseudo header, in either byte order. *)
Lemma pseudo_len n : 0 <= n <= 60020 ->
  exists q, bswap16 (6 + n) = 256 * 6 + (n / 256 + 256 * (n mod 256)) + q * 65535.
Proof. intros H. exists (n / 256 - (6 + n) / 256). unfold bswap16. Z.div_mod_to_equations. lia. Qed.

Lemma seg_sum f m c : (54 + m <= length f)%nat -> 0 <= c < 65536 ->
  le_sum (slice 34 (20 + m) (wr16 f 50 c)) = le_sum (slice 34 (20 + m) (wr16 f 50 0)) + c.
Proof.
  intros L R. pose proof (u16_split c R) as U.
  assert (L54 : (54 <= length f)%nat) by lia. clear L R. spread 54 f. frame_cbv.
  change (0 mod 256) with 0. change (0 / 256 mod 256) with 0. cbn [le_sum]. lia.
Qed.

Lemma addr_sum f : (54 <= length f)%nat -> exists q, rd32 f 26 + rd32 f 30 = le_sum (slice 26 8 f) + q * 65535.
Proof.
  intros L. exists (rd16 f 28 + rd16 f 32). spread 54 f. frame_cbv. cbn [le_sum]. lia.
Qed.

Section Recompute.
Context (K : kernel) (HK : kernel_ok K).

Lemma recompute_ip f c : Forall is_byte f -> (54 <= length f)%nat -> nth 14 f 0 = 69 ->
  0 <= csum_diff K (slice 14 20 (wr16 f 24 0)) ->
  c = spnl_tcp_slice_csum_fold (u32 (csum_diff K (slice 14 20 (wr16 f 24 0)))) ->
  ones_sum (slice 14 20 (wr16 f 24 c)) = 65535.
Proof.
  intros B L V Hv ->.
  assert (B0 : Forall is_byte (slice 14 20 (wr16 f 24 0))) by auto using slice_bytes with frame.
  destruct (csum_law K HK _ B0 Hv) as [R E]. rewrite wrap_small by lia.
  destruct (csum_fold_spec _ (conj Hv R)) as [Rc Ec]. set (v := csum_diff K _) in *. set (c := spnl_tcp_slice_csum_fold v) in *.
  pose proof (sum_vanishes _ _ _ E Ec) as S0. clearbody v c. clear Hv R E Ec.
  assert (Bc : Forall is_byte (slice 14 20 (wr16 f 24 c))) by auto using slice_bytes with frame.
  pose proof (u16_split c Rc) as U.
  assert (E : le_sum (slice 14 20 (wr16 f 24 c)) = le_sum (slice 14 20 (wr16 f 24 0)) + c /\ 0 < le_sum (slice 14 20 (wr16 f 24 0))).
  { pose proof (le_sum_nonneg _ B0) as P. clear B0 Bc S0. spread 54 f. cbn [nth] in V. subst. byte_facts.
    frame_cbv. cbn [le_sum]. unfold is_byte in *. change (0 mod 256) with 0. change (0 / 256 mod 256) with 0. lia. }
  destruct E as [E P]. apply ones_sum_passes; [assumption|lia|]. now rewrite E.
Qed.

Lemma recompute_tcp f c m : Forall is_byte f -> (54 + m <= length f)%nat -> Z.of_nat m <= 60000 ->
  let n := (20 + m)%nat in
  0 <= csum_diff K (slice 34 n (wr16 f 50 0)) ->
  c = spnl_tcp_slice_csum_tcpudp (rd32 f 26) (rd32 f 30) (Z.of_nat n) 6 (u32 (csum_diff K (slice 34 n (wr16 f 50 0)))) ->
  ones_sum (slice 26 8 f ++ [0; 6; Z.of_nat n / 256; Z.of_nat n mod 256] ++ slice 34 n (wr16 f 50 c)) = 65535.
Proof.
  intros B L Hm n Hv ->.
  assert (B0 : Forall is_byte (slice 34 n (wr16 f 50 0))) by auto using slice_bytes with frame.
  destruct (csum_law K HK _ B0 Hv) as [R E]. rewrite wrap_small by lia.
  assert (Rr : forall i, (i + 4 <= 54)%nat -> 0 <= rd32 f i < 2 ^ 32).
  { intros i Hi. assert (N : forall j, is_byte (rd8 f j)) by (intros j; unfold rd8; destruct (nth_in_or_default j f 0) as [I| ->]; [now apply (proj1 (Forall_forall _ _) B)|unfold is_byte; lia]).
    unfold rd32, rd16. pose proof (N i). pose proof (N (i + 1)%nat). pose proof (N (i + 2)%nat). pose proof (N (i + 2 + 1)%nat).
    unfold is_byte in *. change (2 ^ 32) with 4294967296. lia. }
  destruct (csum_tcpudp_spec (rd32 f 26) (rd32 f 30) (Z.of_nat n) _ (Rr 26%nat ltac:(lia)) (Rr 30%nat ltac:(lia)) (conj Hv R) ltac:(unfold n; lia)) as [Rc Ec].
  set (v := csum_diff K _) in *. set (c := spnl_tcp_slice_csum_tcpudp _ _ _ _ _) in *. clearbody v c. clear Hv R Rr.
  assert (Bc : Forall is_byte (slice 26 8 f ++ [0; 6; Z.of_nat n / 256; Z.of_nat n mod 256] ++ slice 34 n (wr16 f 50 c))).
  { repeat (apply Forall_app; split); auto using slice_bytes with frame. repeat constructor; unfold is_byte; try lia.
    - apply Z.div_pos; lia.
    - apply Z.div_lt_upper_bound; unfold n; lia.
    - apply Z.mod_pos_bound. lia.
    - apply Z.mod_pos_bound. lia. }
  assert (L54 : (54 <= length f)%nat) by lia. destruct (addr_sum f L54) as [q1 E1].
  destruct (pseudo_len (Z.of_nat n) ltac:(unfold n; lia)) as [q2 E2].
  assert (S8 : Nat.Even (length (slice 26 8 f))).
  { exists 4%nat. unfold slice. rewrite length_firstn, length_skipn. lia. }
  pose proof (le_sum_nonneg _ (slice_bytes 26 8 f B)) as P1. pose proof (le_sum_nonneg _ B0) as P2.
  pose proof (Z.div_pos (Z.of_nat n) 256 ltac:(lia) ltac:(lia)). pose proof (Z.mod_pos_bound (Z.of_nat n) 256 ltac:(lia)).
  pose proof (seg_sum f m c L Rc) as E3. fold n in E3.
  assert (T : le_sum (slice 26 8 f ++ [0; 6; Z.of_nat n / 256; Z.of_nat n mod 256] ++ slice 34 n (wr16 f 50 c)) =
    le_sum (slice 26 8 f) + (256 * 6 + (Z.of_nat n / 256 + 256 * (Z.of_nat n mod 256)) + (le_sum (slice 34 n (wr16 f 50 0)) + c))).
  { rewrite le_sum_app by assumption. cbn [app le_sum]. rewrite E3. lia. }
  apply ones_sum_passes; [assumption|lia|]. rewrite T.
  apply Z.mod_divide in E as [a E]; [|lia]. apply Z.mod_divide in Ec as [b Ec]; [|lia].
  apply Z.mod_divide; [lia|]. exists (b - a - q1 - q2). lia.
Qed.

End Recompute.

Lemma wr16_twice f i a b : wr16 (wr16 f i a) i b = wr16 f i b.
Proof. unfold wr16, wr8. rewrite (upd_comm _ (i + 1) i), upd_upd, upd_upd by lia. reflexivity. Qed.

Lemma slice_wr16 k n f i v : (i + 2 <= k)%nat \/ (k + n <= i)%nat -> slice k n (wr16 f i v) = slice k n f.
Proof. intros H. unfold wr16, wr8. rewrite !slice_upd by lia. reflexivity. Qed.

Lemma nth_wr16 k f i v : (k <> i)%nat -> (k <> i + 1)%nat -> nth k (wr16 f i v) 0 = nth k f 0.
Proof. intros. unfold wr16, wr8. now rewrite !nth_upd_ne by lia. Qed.

Lemma nth_firstn_lt k n (f : list Z) : (k < n)%nat -> nth k (firstn n f) 0 = nth k f 0.
Proof. revert k f; induction n; intros [|k] [|x f] H; cbn [nth firstn]; try reflexivity; try lia. apply IHn. lia. Qed.

(** The fields of a segment do not depend on its checksums, nor on the bytes
    behind it. *)
Lemma fields_sent f c1 c2 n thl : 20 <= thl <= Z.of_nat n ->
  let h := firstn (34 + n) (wr16 (wr16 f 24 c1) 50 c2) in
  fields h 34 thl (Z.of_nat n - thl) = fields f 34 thl (Z.of_nat n - thl).
Proof.
  intros H h. unfold fields, h.
  rewrite !slice_firstn, !nth_firstn_lt by lia. rewrite !slice_wr16, !nth_wr16 by lia. reflexivity.
Qed.

Lemma decode_sent f g n thl a c1 c2 : built f n thl a g -> slice 12 2 f = [8; 0] -> nth 23 f 0 = 6 -> unfragmented f = true ->
  20 <= thl <= Z.of_nat n -> Z.of_nat n <= 60020 ->
  ones_sum (slice 14 20 (wr16 g 24 c1)) = 65535 ->
  ones_sum (slice 26 8 (wr16 g 24 c1) ++ [0; 6; Z.of_nat n / 256; Z.of_nat n mod 256] ++
            slice 34 n (wr16 (wr16 g 24 c1) 50 c2)) = 65535 ->
  decode (firstn (34 + n) (wr16 (wr16 g 24 c1) 50 c2)) = Some (reply_to f 34 a).
Proof.
  intros U Ty Pr Fr Ht Hn S1 S2. set (h := firstn (34 + n) (wr16 (wr16 g 24 c1) 50 c2)).
  assert (Lh : length h = (34 + n)%nat).
  { unfold h. rewrite length_firstn. autorewrite with frame_len. pose proof (bu_room _ _ _ _ _ U). lia. }
  assert (Sl : forall k m, (k + m <= 24 \/ (26 <= k /\ k + m <= 50))%nat -> slice k m h = slice k m g).
  { intros k m Hk. unfold h. rewrite slice_firstn, !slice_wr16 by lia. reflexivity. }
  assert (Nt : forall k, (k < 24 \/ (26 <= k < 50))%nat -> nth k h 0 = nth k g 0).
  { intros k Hk. unfold h. rewrite nth_firstn_lt, !nth_wr16 by lia. reflexivity. }
  assert (E14 : slice 14 20 h = slice 14 20 (wr16 g 24 c1)).
  { unfold h. rewrite slice_firstn, slice_wr16 by lia. reflexivity. }
  assert (E34 : skipn 34 h = slice 34 n (wr16 (wr16 g 24 c1) 50 c2)).
  { unfold h, slice. rewrite skipn_firstn_comm. f_equal. lia. }
  assert (Tot : be (slice 16 2 h) = 20 + Z.of_nat n).
  { rewrite Sl, (bu_tot _ _ _ _ _ U) by lia. unfold be. cbn [fold_left]. Z.div_mod_to_equations. lia. }
  assert (Uf : unfragmented h = true) by (unfold unfragmented; now rewrite Sl, (bu_frag _ _ _ _ _ U) by lia).
  unfold decode. rewrite Uf, Lh, Tot, (Sl 12%nat 2%nat), (bu_type _ _ _ _ _ U), Ty, !Nt, (bu_vers _ _ _ _ _ U),
    (bu_tcp _ _ _ _ _ U), Pr, E14, S1, (bu_thl _ _ _ _ _ U), E34, (Sl 26%nat 8%nat) by lia.
  rewrite slice_wr16 in S2 by lia.
  replace (20 + Z.of_nat n - 20) with (Z.of_nat n) by lia.
  rewrite <- app_assoc. cbn [app] in S2 |- *. rewrite S2.
  destruct (Nat.ltb_spec (34 + n) 54); [lia|].
  destruct (Z.eqb_spec (Z.of_nat (34 + n)) (14 + (20 + Z.of_nat n))); [|lia].
  destruct (Z.ltb_spec thl 20); [lia|]. destruct (Z.ltb_spec (Z.of_nat n) thl); [lia|].
  change (be [8; 0] =? 2048) with true. change (69 =? 69) with true. change (6 =? 6) with true. cbn [negb orb].
  change (65535 =? 65535) with true. cbn [negb]. f_equal.
  unfold h. rewrite fields_sent by lia. apply (bu_fields _ _ _ _ _ U).
Qed.

(** Checksums and resizing: the program gives up, or goes on with a frame; one that was
    built as an answer the peer decodes to that answer. *)
Lemma finish_sends K w g t n want sent : kernel_ok K ->
  (exists h, finish_reply K w g t n want sent = (XDP_ABORTED, spnl_tcp_slice_inc (set_pkt w h) 12)) \/
  (exists h, finish_reply K w g t n want sent = sent (set_pkt w h) /\
     forall f thl a, t = 34%nat -> built f n thl a g -> slice 12 2 f = [8; 0] -> nth 23 f 0 = 6 -> unfragmented f = true ->
       20 <= thl <= Z.of_nat n -> Z.of_nat n <= 60020 -> want = 34 + Z.of_nat n -> decode h = Some (reply_to f 34 a)).
Proof.
  intros HK. unfold finish_reply, spnl_tcp_slice_recompute_csums. change (ip + 10)%nat with 24%nat.
  change (ip + 12)%nat with 26%nat. change (ip + 16)%nat with 30%nat.
  destruct (Z.ltb_spec (csum_diff K (slice ip 20 (wr16 g 24 0))) 0) as [H1|H1]; [left; eexists; reflexivity|].
  rewrite wr16_twice. set (c1 := spnl_tcp_slice_csum_fold _).
  destruct (_ <? _)%nat; [left; eexists; reflexivity|].
  destruct (Z.ltb_spec (csum_diff K (slice t n (wr16 (wr16 g 24 c1) (t + 16) 0))) 0) as [H2|H2]; [left; eexists; reflexivity|].
  rewrite wr16_twice. set (c2 := spnl_tcp_slice_csum_tcpudp _ _ _ _ _). cbn [Z.ltb Z.compare].
  assert (D : forall f thl a, t = 34%nat -> built f n thl a g -> slice 12 2 f = [8; 0] -> nth 23 f 0 = 6 -> unfragmented f = true ->
    20 <= thl <= Z.of_nat n -> Z.of_nat n <= 60020 ->
    decode (firstn (34 + n) (wr16 (wr16 g 24 c1) (t + 16) c2)) = Some (reply_to f 34 a)).
  { intros f thl a -> U Ty Pr Fr Ht Hn. change (34 + 16)%nat with 50%nat in *.
    assert (R26 : forall i, (i = 26 \/ i = 30)%nat -> rd32 (wr16 (wr16 g 24 c1) 50 0) i = rd32 (wr16 g 24 c1) i).
    { intros i Hi. unfold rd32, rd16, rd8. rewrite !(nth_wr16 _ (wr16 g 24 c1)) by lia. reflexivity. }
    pose proof (bu_room _ _ _ _ _ U). assert (En : n = (20 + (n - 20))%nat) by lia.
    apply (decode_sent f g n thl); auto.
    - apply (recompute_ip K HK); auto; [apply U|lia|apply U].
    - rewrite En in H2 |- *. apply (recompute_tcp K HK); auto.
      + apply wr16_bytes, U.
      + autorewrite with frame_len. lia.
      + lia.
      + unfold c2. rewrite !R26 by lia. now rewrite <- En. }
  unfold resize. autorewrite with frame_len. destruct (Z.eqb_spec (Z.of_nat (length g)) want) as [Ew|Ew].
  - right. eexists. split; [reflexivity|]. intros f thl a Et U Ty Pr Fr Ht Hn Hw.
    rewrite <- (D f thl a), firstn_all2; auto. autorewrite with frame_len. lia.
  - destruct (adjust_tail K _ _) as [h|] eqn:Eh; [|left; eexists; reflexivity].
    right. exists h. split; [reflexivity|]. intros f thl a Et U Ty Pr Fr Ht Hn Hw. rewrite <- (D f thl a) by auto. f_equal.
    destruct (tail_law K HK _ _ _ (wr16_bytes _ _ _ (wr16_bytes _ _ _ (bu_bytes _ _ _ _ _ U))) Eh) as (_ & Lh & Eq).
    pose proof (bu_room _ _ _ _ _ U). autorewrite with frame_len in Lh, Eq. assert (length h = 34 + n)%nat by lia.
    rewrite Nat.min_r in Eq by lia. rewrite firstn_all in Eq. rewrite Eq. f_equal. assumption.
Qed.

End Built.
