(* ===== verification/TcpServer.v ===== *)
(** * The TCP server in the packet path: what it does

    [Refine]: every frame handed to [spnl_tcp_slice_main] has the effect of one step
    of the server of [TcpSlice.Server], and what is sent in answer to a frame without
    IP options decodes at the peer to the segment of that step.  [Runs]: sequences of
    frames, timers and evictions; the answers of one connection never contradict each
    other, and where timers can be started every entry of the table has the one running
    that will delete it.  [Limits]: requests that get no answer or a broken one. *)

From S2P Require Import Prelude Bytes TcpSlice.

(** ** The refinement *)
Module Refine.
Import Packet Slice Receiver Sums Server Built.

Section Refine.
Context (K : kernel) (HK : kernel_ok K).

Lemma be_byte2 a b : is_byte a -> is_byte b -> bswap16 (a + 256 * b) = be [a; b].
Proof. unfold is_byte, bswap16, be. intros. cbn [fold_left]. Z.div_mod_to_equations. lia. Qed.

Lemma slice2 f i : (i + 2 <= length f)%nat -> slice i 2 f = [nth i f 0; nth (i + 1) f 0].
Proof.
  intros H. unfold slice. rewrite (skipn_nth f i 0), (skipn_nth f (S i) 0) by lia. cbn [firstn].
  now replace (i + 1)%nat with (S i) by lia.
Qed.

Lemma slice4 f i : (i + 4 <= length f)%nat ->
  slice i 4 f = [nth i f 0; nth (i + 1) f 0; nth (i + 2) f 0; nth (i + 2 + 1) f 0].
Proof.
  intros H. unfold slice.
  rewrite (skipn_nth f i 0), (skipn_nth f (S i) 0), (skipn_nth f (S (S i)) 0), (skipn_nth f (S (S (S i))) 0) by lia.
  cbn [firstn]. now replace (i + 1)%nat with (S i) by lia; replace (i + 2)%nat with (S (S i)) by lia;
    replace (S (S i) + 1)%nat with (S (S (S i))) by lia.
Qed.

Lemma nth_byte f i : Forall is_byte f -> is_byte (nth i f 0).
Proof.
  intros B. destruct (nth_in_or_default i f 0) as [I| ->]; [|unfold is_byte; lia].
  now apply (proj1 (Forall_forall _ _) B).
Qed.

Lemma rd16_be f i : Forall is_byte f -> (i + 2 <= length f)%nat -> bswap16 (rd16 f i) = be (slice i 2 f).
Proof. intros B H. rewrite slice2 by assumption. apply be_byte2; now apply nth_byte. Qed.

Lemma rd32_be f i : Forall is_byte f -> (i + 4 <= length f)%nat -> bswap32 (rd32 f i) = be (slice i 4 f).
Proof. intros B H. rewrite slice4 by assumption. apply bswap32_rd; now apply nth_byte. Qed.

Lemma rd16_eqb f i v : Forall is_byte f -> (i + 2 <= length f)%nat -> 0 <= v < 65536 ->
  (rd16 f i =? bswap16 v) = (be (slice i 2 f) =? v).
Proof.
  intros B H Hv. rewrite slice2 by assumption. unfold rd16, rd8, be. cbn [fold_left].
  pose proof (nth_byte f i B) as B1. pose proof (nth_byte f (i + 1) B) as B2. unfold is_byte, bswap16 in *.
  apply eq_true_iff_eq. rewrite !Z.eqb_eq. Z.div_mod_to_equations. lia.
Qed.

Lemma be4_range f i : Forall is_byte f -> (i + 4 <= length f)%nat -> 0 <= be (slice i 4 f) < 2 ^ 32.
Proof.
  intros B H. rewrite slice4 by assumption. unfold be. cbn [fold_left].
  pose proof (nth_byte f i B). pose proof (nth_byte f (i + 1) B). pose proof (nth_byte f (i + 2) B).
  pose proof (nth_byte f (i + 2 + 1) B). unfold is_byte in *. change (2 ^ 32) with 4294967296. lia.
Qed.

(** What the first checks establish. *)
Record ours (f : list Z) (t : nat) : Prop := {
  o_bytes : Forall is_byte f; o_at : (34 <= t)%nat; o_len : (t + 20 <= length f)%nat;
  o_type : slice 12 2 f = [8; 0]; o_tcp : nth 23 f 0 = 6 }.

Lemma ours_for_us f t : Forall is_byte f -> for_us f t = true -> ours f t.
Proof.
  intros B H. unfold for_us in H. bools. apply Nat.leb_le in H, H3.
  constructor; auto. rewrite (slice2 f 12) in * by lia. unfold be in H2. cbn [fold_left] in H2.
  pose proof (nth_byte f 12 B). pose proof (nth_byte f (12 + 1) B). unfold is_byte in *.
  f_equal; [lia|f_equal; lia].
Qed.

(** In a frame that is not cut short the data is as long as the headers announce. *)
Lemma announced_whole f t : (34 <= t)%nat -> 14 + be (slice 16 2 f) <= Z.of_nat (length f) -> well_sized f t = true ->
  announced f t = len (heard f t).
Proof.
  intros At C W. unfold well_sized in W. bools. apply Nat.leb_le in H1.
  unfold len, heard. cbn [payload fields]. unfold slice at 1. rewrite length_firstn, length_skipn.
  unfold announced in *. lia.
Qed.

Lemma bytes_eqb_len a b : bytes_eqb a b = true -> length a = length b.
Proof. revert b; induction a; intros [|y b]; cbn [bytes_eqb length]; try discriminate; [auto|]. intros H. bools. auto. Qed.

Lemma route_is_get f t : well_sized f t = true ->
  (0 <=? spnl_tcp_slice_match_route f (t + Z.to_nat (header_len f t)) (announced f t)) = is_get (heard f t).
Proof.
  intros W. unfold spnl_tcp_slice_match_route, is_get, heard. cbn [payload fields]. unfold well_sized in W. bools.
  set (p := (t + _)%nat) in *. set (n := announced f t) in *.
  destruct (Z.leb_spec 12 n).
  - assert (F : firstn 12 (slice p (Z.to_nat n) f) = slice p 12 f) by (unfold slice; rewrite firstn_firstn; f_equal; lia).
    rewrite F. cbn [andb]. destruct (Nat.leb_spec (p + 12) (length f)); cbn [andb]; [now destruct (bytes_eqb _ _)|].
    destruct (bytes_eqb _ _) eqn:E; [|reflexivity]. apply bytes_eqb_len in E. unfold slice in E.
    rewrite length_firstn, length_skipn in E. cbn [route length] in E. lia.
  - cbn [andb]. destruct (bytes_eqb _ _) eqn:E; [|reflexivity]. apply bytes_eqb_len in E. unfold slice in E.
    rewrite !length_firstn in E. cbn [route length] in E. lia.
Qed.

(** *** The handlers *)

Lemma conntab_inc w k : conntab (spnl_tcp_slice_inc w k) = conntab w.
Proof. reflexivity. Qed.

Lemma plain_version f : plain f = true -> nth 14 f 0 = 69.
Proof. intros H. unfold plain in H. bools. assumption. Qed.

Lemma plain_whole f : plain f = true -> unfragmented f = true.
Proof. intros H. unfold plain in H. now bools. Qed.

Lemma on_fin_spec w f t n st : pkt w = f -> ours f t -> entry_ok st ->
  let r := if state st =? 2 then u32 (seq (heard f t) + n + 1) else client_seq st in
  (exists w', on_fin K w t n st = (XDP_ABORTED, w') /\ conntab w' = conntab w) \/
  (exists w', on_fin K w t n st = (XDP_TX, w') /\
     (t = 34%nat -> plain f = true -> decode (pkt w') = Some (reply_to f t (Answer ACK (server_seq st) r [] []))) /\
     conntab w' = tset (conntab w) (the_key f t)
       (spnl_tcp_slice_arm K (if state st =? 2 then St (server_seq st) r (mss st) 3 (pad st) (timer st) else st) SPNL_TS_TTL_CLOSED)).
Proof.
  intros F O (Rs & Rc & _) r. unfold on_fin. rewrite F. cbv zeta. pose proof (o_len _ _ O) as L.
  rewrite rd32_be by (apply O || lia). change (be (slice (t + 4) 4 f)) with (seq (heard f t)).
  assert (Hr : 0 <= r < 2 ^ 32) by (unfold r; destruct (_ =? _); [apply wrap_range; lia|assumption]).
  replace (if state st =? 2 then (u32 (seq (heard f t) + n + 1), spnl_tcp_slice_inc w 8) else (client_seq st, spnl_tcp_slice_inc w 16))
    with (r, spnl_tcp_slice_inc w (if state st =? 2 then 8 else 16)) by (unfold r; now destruct (_ =? _)).
  destruct (spnl_tcp_slice_build_finack f t (server_seq st) r) as [g rc] eqn:Eg.
  destruct (rc <? 0); [left; eexists; split; reflexivity|].
  edestruct (finish_sends K) as [(h & E)|(h & E & D)]; [exact HK|..].
  - left. eexists. split; [exact E|]. reflexivity.
  - right. eexists. split; [etransitivity; [exact E|reflexivity]|]. split; [|reflexivity]. intros -> Pf.
    destruct (build_finack_built f (server_seq st) r (o_bytes _ _ O) L (plain_version _ Pf) Rs Hr) as (g' & Eg' & U).
    rewrite Eg in Eg'. injection Eg' as -> ->. apply (D f 20); auto using plain_whole; try apply O; try lia.
Qed.

Lemma on_data_spec w f t thl n st : pkt w = f -> ours f t -> entry_ok st ->
  0 <= spnl_tcp_slice_match_route f (t + Z.to_nat thl) n ->
  let s := if state st =? 1 then server_seq st else u32 (server_seq st - 42) in
  let r := if state st =? 1 then u32 (seq (heard f t) + n) else client_seq st in
  (exists w', on_data K w t thl n st = (XDP_ABORTED, w') /\ conntab w' = conntab w) \/
  (exists w', on_data K w t thl n st = (XDP_TX, w') /\
     (t = 34%nat -> plain f = true ->
      decode (pkt w') = Some (reply_to f t (Answer FIN_PSH_ACK s r [] spnl_tcp_slice_resp_body))) /\
     conntab w' = tset (conntab w) (the_key f t)
       (spnl_tcp_slice_arm K (if state st =? 1 then St (u32 (s + 42)) r (mss st) 2 (pad st) (timer st) else st) SPNL_TS_TTL_RESP)).
Proof.
  intros F O (Rs & Rc & _) M s r. unfold on_data. rewrite F. cbv zeta. pose proof (o_len _ _ O) as L.
  apply Z.leb_le in M as ->. rewrite rd32_be by (apply O || lia). change (be (slice (t + 4) 4 f)) with (seq (heard f t)).
  replace (server_seq st - 41 - 1) with (server_seq st - 42) by lia.
  assert (Hr : 0 <= r < 2 ^ 32) by (unfold r; destruct (_ =? _); [apply wrap_range; lia|assumption]).
  assert (Hs : 0 <= s < 2 ^ 32) by (unfold s; destruct (_ =? _); [assumption|apply wrap_range; lia]).
  replace (if state st =? 1 then (server_seq st, u32 (seq (heard f t) + n), spnl_tcp_slice_inc w 5)
           else (u32 (server_seq st - 42), client_seq st, spnl_tcp_slice_inc w 14))
    with (s, r, spnl_tcp_slice_inc w (if state st =? 1 then 5 else 14)) by (unfold r, s; now destruct (_ =? _)).
  replace (s + 41 + 1) with (s + 42) by lia.
  destruct (spnl_tcp_slice_build_response f t s r) as [g rc] eqn:Eg.
  destruct (rc <? 0) eqn:Erc; [left; eexists; split; reflexivity|].
  edestruct (finish_sends K) as [(h & E)|(h & E & D)]; [exact HK|..].
  - left. eexists. split; [exact E|]. reflexivity.
  - right. eexists. split; [etransitivity; [exact E|reflexivity]|]. split; [|reflexivity]. intros -> Pf.
    destruct (build_response_built f s r (o_bytes _ _ O) L (plain_version _ Pf) Hs Hr) as [(g' & Eg' & _)|(g' & Eg' & U)];
      rewrite Eg in Eg'; injection Eg' as -> ->; [discriminate|]. apply (D f 20); auto using plain_whole; try apply O; try lia.
Qed.

Lemma on_data_other w f t thl n st : pkt w = f -> spnl_tcp_slice_match_route f (t + Z.to_nat thl) n < 0 ->
  exists w', on_data K w t thl n st = (XDP_DROP, w') /\ conntab w' = conntab w.
Proof.
  intros F M. unfold on_data. rewrite F. cbv zeta. apply Z.leb_gt in M as ->. eexists. split; reflexivity.
Qed.

(** A frame that was extended looks the same where it was. *)
Lemma slice_prefix f g k n : firstn (length f) g = f -> (k + n <= length f)%nat -> slice k n g = slice k n f.
Proof. intros E H. rewrite <- E. symmetry. now apply slice_firstn. Qed.

Lemma nth_prefix f g k : firstn (length f) g = f -> (k < length f)%nat -> nth k g 0 = nth k f 0.
Proof. intros E H. rewrite <- E. symmetry. now apply nth_firstn_lt. Qed.

Lemma doff_thl f t : tcp_doff f t * 4 = header_len f t.
Proof. unfold tcp_doff, header_len. now rewrite Z.shiftr_div_pow2 by lia. Qed.

Lemma ihl_tcp_at f : (ip + Z.to_nat (ip_ihl f * 4))%nat = tcp_at f.
Proof. unfold tcp_at, ip_ihl. change 15 with (Z.ones 4). now rewrite Z.land_ones by lia. Qed.

Lemma cookie_mss_range c : 0 <= cookie_mss c < 65536.
Proof. unfold cookie_mss. pose proof (wrap_range 16 (Z.shiftr c 32) ltac:(lia)). destruct (_ =? _); cbn in *; lia. Qed.

Lemma on_syn_spec w f : pkt w = f -> ours f (tcp_at f) ->
  let t := tcp_at f in
  (exists v w', on_syn K w t = (v, w') /\ (v = XDP_ABORTED \/ v = XDP_DROP) /\ conntab w' = conntab w) \/
  (exists w', on_syn K w t = (XDP_TX, w') /\ conntab w' = conntab w /\
     (plain f = true ->
      decode (pkt w') = Some (reply_to f t (Answer SYN_ACK (u32 (cookie_of K f t)) (u32 (seq (heard f t) + 1))
                                              (mss_option (cookie_mss (cookie_of K f t))) [])))).
Proof.
  intros F O t. pose proof (o_len _ _ O) as L. pose proof (o_at _ _ O) as At. fold t in L, At.
  unfold on_syn. cbn [pkt spnl_tcp_slice_inc]. rewrite F. cbv zeta. rewrite doff_thl.
  unfold cookie_of. set (thl := header_len f t).
  assert (T : thl <= 60).
  { unfold thl, header_len. pose proof (nth_byte f (t + 12) (o_bytes _ _ O)). unfold is_byte in *. Z.div_mod_to_equations. lia. }
  destruct (Z.ltb_spec thl 20); [left; do 2 eexists; repeat split; auto|].
  destruct (Nat.ltb_spec (length f) (t + Z.to_nat thl)); [left; do 2 eexists; repeat split; auto|]. cbn [orb].
  destruct (adjust_tail K f (60 - thl)) as [g|] eqn:A; [|left; do 2 eexists; repeat split; auto].
  destruct (tail_law K HK _ _ _ (o_bytes _ _ O) A) as (Bg & Lg & Pg).
  rewrite Nat.min_l, firstn_all in Pg by lia.
  do 2 (destruct (_ <? _)%nat; [left; do 2 eexists; repeat split; auto|]).
  assert (Ht : (ip + Z.to_nat (ip_ihl g * 4) = t)%nat) by (rewrite ihl_tcp_at; unfold t, tcp_at; now rewrite (nth_prefix f) by (auto; lia)).
  rewrite Ht. destruct (_ <? _)%nat; [left; do 2 eexists; repeat split; auto|].
  rewrite !(slice_prefix f g) by (auto; change ip with 14%nat; lia). change ip with 14%nat.
  set (k := gen_syncookie K _ _ thl).
  destruct (Z.ltb_spec k 0); [left; do 2 eexists; repeat split; auto|].
  change (if u16 (Z.shiftr k 32) =? 0 then 1460 else u16 (Z.shiftr k 32)) with (cookie_mss k).
  destruct (spnl_tcp_slice_build_synack g t (u32 k) (cookie_mss k)) as [h rc] eqn:Eg.
  destruct (rc <? 0); [left; do 2 eexists; repeat split; auto|].
  edestruct (finish_sends K) as [(e & E)|(e & E & D)]; [exact HK|..].
  - left. do 2 eexists. split; [exact E|]. split; [auto|reflexivity].
  - right. eexists. split; [etransitivity; [exact E|reflexivity]|]. split; [reflexivity|]. intros Pf.
    assert (T34 : t = 34%nat) by (unfold t, tcp_at; now rewrite (plain_version f Pf)). clear Ht. clearbody t. subst t.
    destruct (build_synack_built g (u32 k) (cookie_mss k) Bg ltac:(lia)) as (h' & Eh & U);
      [rewrite (nth_prefix f) by (auto; lia); now apply plain_version|apply wrap_range; lia|apply cookie_mss_range|].
    rewrite Eg in Eh. injection Eh as -> ->. cbn [pkt set_pkt spnl_tcp_slice_inc]. rewrite (D g 24 _ eq_refl U); try lia.
    + unfold reply_to, heard. cbn [seq fields Nat.add]. now rewrite !(slice_prefix f g) by (auto; lia).
    + rewrite (slice_prefix f) by (auto; lia). apply O.
    + rewrite (nth_prefix f) by (auto; lia). apply O.
    + unfold unfragmented. rewrite (slice_prefix f) by (auto; lia). now apply plain_whole.
Qed.

(** *** The table *)

Lemma key_eqb_eq a b : key_eqb a b = true <-> a = b.
Proof.
  unfold key_eqb. destruct a, b. cbn [saddr daddr sport dport]. split; intros H.
  - bools. congruence.
  - inv H. now rewrite !Z.eqb_refl.
Qed.

Definition others (k : spnl_tcp_slice_key) (t t' : table) : Prop :=
  forall k', key_eqb k' k = false -> t' k' = t k' \/ t' k' = None.

Lemma others_refl k t : others k t t.
Proof. intros k' _. auto. Qed.

Lemma tset_same t k c : tset t k c k = Some c.
Proof. unfold tset. now rewrite (proj2 (key_eqb_eq k k)). Qed.

Lemma others_tset k t t' c : others k t t' -> others k t (tset t' k c).
Proof. intros H k' E. unfold tset. rewrite E. now apply H. Qed.

Lemma each_tset P t k c : each P t -> P c -> each P (tset t k c).
Proof. intros T C k' c'. unfold tset. destruct (key_eqb k' k); [intros [= <-]; exact C|apply T]. Qed.

Lemma each_others P k t t' : each P t -> others k t t' -> (forall c, t' k = Some c -> P c) -> each P t'.
Proof.
  intros T O Hk k' c E. destruct (key_eqb k' k) eqn:Q.
  - apply key_eqb_eq in Q as ->. now apply Hk.
  - destruct (O k' Q) as [R|R]; rewrite R in E; [now apply (T k')|discriminate].
Qed.

Lemma each_tdel P t k : each P t -> each P (tdel t k).
Proof. intros T k' c. unfold tdel. destruct (key_eqb k' k); [discriminate|apply T]. Qed.

(** Where timers start, every entry keeps the timer of its state. *)
Definition keeps_time (t t' : table) : Prop := timers_start K -> each timed t -> each timed t'.

Lemma others_tdel k t : others k t (tdel t k).
Proof. intros k' E. unfold tdel. rewrite E. auto. Qed.

Definition phase_at (w : world) (k : spnl_tcp_slice_key) : option phase := option_map phase_of (conntab w k).

Lemma arm_entry st ttl : entry_ok st -> entry_ok (spnl_tcp_slice_arm K st ttl).
Proof. intros H. exact H. Qed.

Lemma arm_phase st ttl : phase_of (spnl_tcp_slice_arm K st ttl) = phase_of st.
Proof. reflexivity. Qed.

Lemma find_conn_spec w f t : pkt w = f -> ours f t -> table_ok (conntab w) ->
  let k := the_key f t in
  let acc := accept (cookie_valid K f t) (phase_at w k) (heard f t) in
  (exists w', find_conn K w t = (inl XDP_PASS, w') /\ conntab w' = conntab w /\ acc = None) \/
  (exists w', find_conn K w t = (inl XDP_DROP, w') /\ conntab w k = None /\ conntab w' k = None /\
     others k (conntab w) (conntab w')) \/
  (exists st w', find_conn K w t = (inr st, w') /\ pkt w' = f /\ acc = Some (phase_of st) /\ entry_ok st /\
     conntab w' k = Some st /\ others k (conntab w) (conntab w') /\ table_ok (conntab w') /\
     keeps_time (conntab w) (conntab w')).
Proof.
  intros F O T k acc. unfold find_conn. rewrite F. fold k. cbv zeta. unfold acc, phase_at. pose proof (o_len _ _ O) as L.
  destruct (conntab w k) as [st|] eqn:Ek; cbn [option_map accept].
  { right. right. exists st, w. split; [reflexivity|]. split; [exact F|]. split; [reflexivity|].
    split; [now apply (T k)|]. unfold keeps_time. auto using others_refl. }
  change (check_syncookie K (slice ip 20 f) (slice t 20 f)) with (check_syncookie K (slice 14 20 f) (slice t 20 f)).
  unfold cookie_valid. destruct (Z.ltb_spec (check_syncookie K (slice 14 20 f) (slice t 20 f)) 0) as [Hc|Hc].
  { left. eexists. split; [reflexivity|]. apply Z.leb_gt in Hc as ->. auto. }
  apply Z.leb_le in Hc as ->. right. cbn [conntab spnl_tcp_slice_inc]. rewrite !rd32_be by (apply O || lia).
  set (new := St _ _ 1460 1 0 None).
  destruct (lru_update K (conntab w) k new) as [tb|] eqn:Eu; cbn [conntab spnl_tcp_slice_inc set_tab].
  2: { rewrite Ek. left. eexists. split; [reflexivity|]. auto using others_refl. }
  destruct (lru_law K HK _ _ _ _ Eu) as [Et Ot]. destruct (tb k) as [st|] eqn:Etk.
  2: { left. eexists. split; [reflexivity|]. split; [reflexivity|]. split; [exact Etk|exact Ot]. }
  right. destruct Et as [[= ->]|]; [|discriminate].
  assert (En : entry_ok (spnl_tcp_slice_arm K new SPNL_TS_TTL_ESTAB)).
  { apply arm_entry. split; [apply be4_range; [apply O|lia]|]. split; [apply be4_range; [apply O|lia]|]. now left. }
  do 2 eexists. split; [reflexivity|]. cbn [pkt conntab set_tab spnl_tcp_slice_inc].
  split; [exact F|]. split; [reflexivity|]. split; [exact En|]. split; [apply tset_same|].
  split; [now apply others_tset|]. split.
  - apply (each_others _ k (conntab w)); [exact T|now apply others_tset|]. intros c. rewrite tset_same. intros [= <-]. exact En.
  - intros Ts Tm. apply (each_others _ k (conntab w)); [exact Tm|now apply others_tset|].
    intros c. rewrite tset_same. intros [= <-]. apply Ts.
Qed.

(** *** Acknowledging segments *)

(** The outcome of handling a frame: the step of the server, and the table. *)
Definition refines (w : world) (f : list Z) (t : nat) (r : Z * world) : Prop :=
  let k := the_key f t in
  let (v, w') := r in
  (exists out, server_step K f t (phase_at w k) v out (phase_at w' k) /\
     (plain f = true -> out = if v =? XDP_TX then decode (pkt w') else None)) /\
  table_ok (conntab w') /\ others k (conntab w) (conntab w') /\ keeps_time (conntab w) (conntab w').

Lemma refines_same w f t v w' : conntab w' = conntab w -> table_ok (conntab w) -> v <> XDP_TX ->
  server_step K f t (phase_at w (the_key f t)) v None (phase_at w (the_key f t)) -> refines w f t (v, w').
Proof.
  intros E T V S. unfold refines, phase_at in *. rewrite E. apply Z.eqb_neq in V as ->. split; [now exists None|].
  unfold keeps_time. auto using others_refl.
Qed.

Definition connected (f : list Z) (t : nat) : Prop :=
  for_us f t = true /\ rst (heard f t) = false /\ acks (heard f t) = true /\ well_sized f t = true.

Section Connection.
Context (w : world) (f : list Z) (t : nat) (F : connected f t) (O : ours f t) (T34 : plain f = true -> t = 34%nat).
Context (w1 : world) (st : spnl_tcp_slice_state).
Context (A : accept (cookie_valid K f t) (phase_at w (the_key f t)) (heard f t) = Some (phase_of st)).
Context (Et : conntab w1 (the_key f t) = Some st) (Ot : others (the_key f t) (conntab w) (conntab w1)).
Context (T1 : table_ok (conntab w1)) (Tm : keeps_time (conntab w) (conntab w1)).

Lemma refines_drop w2 : conntab w2 = conntab w1 -> respond (phase_of st) (heard f t) (announced f t) = None ->
  refines w f t (XDP_DROP, w2).
Proof.
  intros E R. unfold refines, phase_at at 2. rewrite E, Et. cbn [option_map].
  split; [|auto]. destruct F as (? & ? & ? & ?). exists None. split; [now apply ignores|reflexivity].
Qed.

Lemma refines_abort w2 p a : conntab w2 = conntab w1 -> respond (phase_of st) (heard f t) (announced f t) = Some (p, a) ->
  refines w f t (XDP_ABORTED, w2).
Proof.
  intros E R. unfold refines, phase_at at 2. rewrite E, Et. cbn [option_map].
  split; [|auto]. destruct F as (? & ? & ? & ?). exists None. split; [now apply (gives_up _ _ _ _ _ p a)|reflexivity].
Qed.

Lemma refines_answer w2 p a st' : conntab w2 = tset (conntab w1) (the_key f t) st' -> entry_ok st' -> (timers_start K -> timed st') -> phase_of st' = p ->
  (t = 34%nat -> plain f = true -> decode (pkt w2) = Some (reply_to f t a)) ->
  respond (phase_of st) (heard f t) (announced f t) = Some (p, a) -> refines w f t (XDP_TX, w2).
Proof.
  intros E Ok Td P D R. unfold refines, phase_at at 2. rewrite E, tset_same. cbn [option_map]. rewrite P.
  split; [|split; [now apply each_tset|split; [now apply others_tset|]]].
  2: { intros Ts Ta. apply each_tset; auto. }
  destruct F as (? & ? & ? & ?). exists (Some (reply_to f t a)).
  split; [now apply (answers _ _ _ _ (phase_of st) p a)|]. intros Pf. symmetry. apply D; auto.
Qed.

Lemma refines_fin : pkt w1 = f -> entry_ok st -> fin (heard f t) = true -> state st = 2 \/ state st = 3 ->
  refines w f t (on_fin K w1 t (announced f t) st).
Proof.
  intros P Ok Fin Hst. assert (Ok' := Ok). destruct Ok' as (Rs & Rc & _).
  set (r := if state st =? 2 then u32 (seq (heard f t) + announced f t + 1) else client_seq st).
  assert (Rr : 0 <= r < 2 ^ 32) by (unfold r; destruct (_ =? _); [apply wrap_range; lia|assumption]).
  assert (R : respond (phase_of st) (heard f t) (announced f t) = Some (Closed (server_seq st) r, Answer ACK (server_seq st) r [] [])).
  { unfold r, phase_of. destruct Hst as [-> | ->]; cbn [Z.eqb Pos.eqb respond]; now rewrite Fin. }
  destruct (on_fin_spec w1 f t (announced f t) st P O Ok) as [(w2 & -> & E)|(w2 & -> & D & E)].
  - now apply (refines_abort _ _ _ E R).
  - apply (refines_answer _ (Closed (server_seq st) r) (Answer ACK (server_seq st) r [] []) _ E); auto.
    + apply arm_entry. unfold entry_ok. fold r. destruct Hst as [S|S]; rewrite S; cbn; (split; [assumption|split; [assumption|auto]]).
    + intros Ts. unfold timed. cbn [timer spnl_tcp_slice_arm]. rewrite Ts. cbn [state spnl_tcp_slice_arm].
      destruct Hst as [S|S]; rewrite S; cbn; now rewrite ?S.
    + rewrite arm_phase. unfold phase_of. fold r. destruct Hst as [S|S]; rewrite S; cbn; [reflexivity|]. rewrite S. unfold r. now rewrite S.
Qed.

Lemma refines_get thl : pkt w1 = f -> entry_ok st -> thl = header_len f t -> state st = 1 \/ (state st = 2 /\ fin (heard f t) = false) ->
  refines w f t (on_data K w1 t thl (announced f t) st).
Proof.
  intros P Ok -> Hst. assert (Ok' := Ok). destruct Ok' as (Rs & Rc & _).
  pose proof (route_is_get f t ltac:(apply F)) as G.
  destruct (is_get (heard f t)) eqn:Get.
  2: { apply Z.leb_gt in G. destruct (on_data_other w1 f t _ _ st P G) as (w2 & -> & E). apply refines_drop; [exact E|].
       unfold phase_of. destruct Hst as [S|[S Fin]]; rewrite S; cbn [Z.eqb Pos.eqb respond]; rewrite ?Fin; now rewrite Get. }
  apply Z.leb_le in G.
  set (s := if state st =? 1 then server_seq st else u32 (server_seq st - 42)).
  set (r := if state st =? 1 then u32 (seq (heard f t) + announced f t) else client_seq st).
  assert (Rr : 0 <= r < 2 ^ 32) by (unfold r; destruct (_ =? _); [apply wrap_range; lia|assumption]).
  set (q := if state st =? 1 then u32 (s + 42) else server_seq st).
  assert (R : respond (phase_of st) (heard f t) (announced f t) = Some (Answered q r, Answer FIN_PSH_ACK s r [] spnl_tcp_slice_resp_body)).
  { unfold q, s, r, phase_of. destruct Hst as [S|[S Fin]]; rewrite S; cbn [Z.eqb Pos.eqb respond]; rewrite ?Fin; now rewrite Get. }
  destruct (on_data_spec w1 f t _ _ st P O Ok G) as [(w2 & -> & E)|(w2 & -> & D & E)].
  - now apply (refines_abort _ _ _ E R).
  - apply (refines_answer _ (Answered q r) (Answer FIN_PSH_ACK s r [] spnl_tcp_slice_resp_body) _ E); auto.
    + apply arm_entry. fold s r. destruct Hst as [S|[S _]]; rewrite S; cbn [Z.eqb Pos.eqb]; unfold entry_ok; cbn.
      * split; [apply (wrap_range 32); lia|]. split; [assumption|auto].
      * split; [assumption|split; [assumption|auto]].
    + intros Ts. unfold timed. cbn [timer spnl_tcp_slice_arm]. rewrite Ts. cbn [state spnl_tcp_slice_arm].
      destruct Hst as [S|[S _]]; rewrite S; cbn; now rewrite ?S.
    + rewrite arm_phase. fold s r. unfold q, phase_of. destruct Hst as [S|[S _]]; rewrite S; cbn; [reflexivity|]. rewrite S. unfold r. now rewrite S.
Qed.

End Connection.

Lemma on_ack_refines w f t ihl : pkt w = f -> Forall is_byte f -> for_us f t = true -> (plain f = true -> t = 34%nat) ->
  ihl = Z.of_nat (t - 14) -> table_ok (conntab w) ->
  rst (heard f t) = false -> acks (heard f t) = true -> refines w f t (on_ack K w ihl t).
Proof.
  intros P B U T34 -> T Hr Ha. pose proof (ours_for_us f t B U) as O. pose proof (o_len _ _ O) as L. pose proof (o_at _ _ O) as At.
  unfold on_ack. rewrite P. cbv zeta. rewrite doff_thl, rd16_be by (apply O || (change ip_tot_len with 16%nat; lia)).
  change ip_tot_len with 16%nat. set (thl := header_len f t).
  assert (Bad : well_sized f t = false -> refines w f t (XDP_DROP, w)).
  { intros E. apply refines_same; auto; [discriminate|]. now apply malformed. }
  destruct (Z.ltb_spec thl 20) as [H1|H1].
  { apply Bad. unfold well_sized. fold thl. apply Z.leb_gt in H1 as ->. reflexivity. }
  destruct (Nat.ltb_spec (length f) (t + Z.to_nat thl)) as [H2|H2].
  { apply Bad. unfold well_sized. fold thl. apply Nat.leb_gt in H2 as ->. now rewrite andb_false_r. }
  assert (An : announced f t = be (slice 16 2 f) - Z.of_nat (t - 14) - thl) by reflexivity.
  destruct (Z.ltb_spec (be (slice 16 2 f)) (Z.of_nat (t - 14) + thl)) as [H3|H3].
  { apply Bad. unfold well_sized. replace (0 <=? announced f t) with false by (symmetry; apply Z.leb_gt; lia). now rewrite andb_false_r. }
  cbn [orb]. assert (W : well_sized f t = true).
  { unfold well_sized. fold thl. apply Z.leb_le in H1. apply Nat.leb_le in H2. rewrite H1, H2. apply Z.leb_le. lia. }
  rewrite <- An.
  destruct (find_conn_spec w f t P O T) as [(w1 & -> & E & A)|[(w1 & -> & E0 & E1 & Ot)|(st & w1 & -> & P1 & A & Ok & E1 & Ot & T1 & Tm)]].
  - apply refines_same; auto; [discriminate|]. now apply unknown.
  - unfold refines, phase_at. rewrite E0, E1. split; [exists None; split; [now apply no_place|reflexivity]|].
    split; [|split; [assumption|intros _ Tm]]; apply (each_others _ (the_key f t) (conntab w)); auto; rewrite E1; discriminate.
  - assert (C : connected f t) by (repeat split; assumption).
    assert (Lz : announced f t <= 0 -> is_get (heard f t) = false).
    { intros Le. destruct (is_get (heard f t)) eqn:Get; [|reflexivity]. unfold is_get, heard in Get. cbn [payload fields] in Get.
      apply bytes_eqb_len in Get. unfold slice in Get. rewrite !length_firstn in Get. cbn [route length] in Get. lia. }
    change (bit f (t + 13) 0) with (fin (heard f t)). destruct (proj2 (proj2 Ok)) as [S|[S|S]];
    destruct (fin (heard f t)) eqn:Fin; rewrite S; cbn [Z.eqb Pos.eqb orb andb];
      rewrite ?andb_true_r, ?andb_false_r;
      try (apply (refines_fin w f t C O T34 w1 st A E1 Ot T1 Tm); auto; fail);
      try (destruct (Z.ltb_spec 0 (announced f t)) as [Z|Z]; [apply (refines_get w f t C O T34 w1 st A E1 Ot T1 Tm); auto; fail|]);
      apply (refines_drop w f t C w1 st A E1 Ot T1 Tm); auto; unfold phase_of; rewrite S; cbn [Z.eqb Pos.eqb respond]; rewrite ?Fin;
      rewrite ?(Lz Z); reflexivity.
Qed.

Lemma main_refines w : table_ok (conntab w) -> Forall is_byte (pkt w) -> refines w (pkt w) (tcp_at (pkt w)) (spnl_tcp_slice_main K w).
Proof.
  intros T B. remember (pkt w) as f eqn:P. symmetry in P. remember (tcp_at f) as t eqn:Ht.
  assert (Other : forall w', for_us f t = false -> conntab w' = conntab w -> refines w f t (XDP_PASS, w')).
  { intros w' E Ew. apply refines_same; auto; [discriminate|]. now apply not_ours. }
  unfold spnl_tcp_slice_main. rewrite P. cbv zeta. change ip_protocol with 23%nat. change eth_proto with 12%nat.
  rewrite !ihl_tcp_at, <- Ht. change ip with 14%nat.
  assert (Hi : ip_ihl f * 4 = Z.of_nat (t - 14)).
  { pose proof (ihl_tcp_at f) as Q. rewrite <- Ht in Q. change ip with 14%nat in Q. unfold ip_ihl in *. change 15 with (Z.ones 4) in *.
    rewrite Z.land_ones in * by lia. pose proof (Z.mod_pos_bound (rd8 f ip) (2 ^ 4) ltac:(lia)). lia. }
  rewrite Hi. unfold for_us in Other.
  destruct (length f <? 14)%nat eqn:L1.
  { apply Other; [|reflexivity]. apply Nat.ltb_lt in L1. destruct (Nat.leb_spec (t + 20) (length f)); [lia|]. now rewrite andb_false_r. }
  apply Nat.ltb_ge in L1. rewrite rd16_eqb by (auto; lia).
  destruct (be (slice 12 2 f) =? 2048) eqn:E1; cbn [negb]; [|apply Other; [now rewrite andb_false_r|reflexivity]].
  destruct (length f <? 14 + 20)%nat eqn:L2.
  { apply Other; [|reflexivity]. apply Nat.ltb_lt in L2. destruct (Nat.leb_spec 34 t), (Nat.leb_spec (t + 20) (length f)); try reflexivity. lia. }
  change (rd8 f 23) with (nth 23 f 0).
  destruct (nth 23 f 0 =? 6) eqn:E2; cbn [negb]; [|apply Other; [now rewrite andb_false_r|reflexivity]].
  destruct (Z.ltb_spec (Z.of_nat (t - 14)) 20) as [L3|L3]; cbn [orb].
  { apply Other; [|reflexivity]. destruct (Nat.leb_spec 34 t); [lia|reflexivity]. }
  destruct (length f <? t)%nat eqn:L4.
  { apply Other; [|reflexivity]. apply Nat.ltb_lt in L4. destruct (Nat.leb_spec (t + 20) (length f)); [lia|]. now rewrite andb_false_r. }
  destruct (length f <? t + 20)%nat eqn:L5.
  { apply Other; [|reflexivity]. apply Nat.ltb_lt in L5. destruct (Nat.leb_spec (t + 20) (length f)); [lia|]. now rewrite andb_false_r. }
  apply Nat.ltb_ge in L5. rewrite rd16_eqb by (auto; lia).
  destruct (be (slice (t + 2) 2 f) =? 8080) eqn:E3; cbn [negb]; [|apply Other; [now rewrite andb_false_r|reflexivity]].
  assert (U : for_us f t = true).
  { unfold for_us. rewrite E1, E2, E3. destruct (Nat.leb_spec 34 t), (Nat.leb_spec (t + 20) (length f)); first [lia|reflexivity]. }
  assert (T34 : plain f = true -> t = 34%nat) by (intros Pf; rewrite Ht; unfold tcp_at; now rewrite (plain_version f Pf)).
  change (bit f (t + 13) 2) with (rst (heard f t)). change (bit f (t + 13) 1) with (syn (heard f t)).
  change (bit f (t + 13) 4) with (acks (heard f t)).
  destruct (rst (heard f t)) eqn:Hr.
  { unfold on_rst, refines, phase_at. cbn [conntab set_tab spnl_tcp_slice_inc pkt]. rewrite P.
    unfold tdel at 1. rewrite (proj2 (key_eqb_eq _ _)) by reflexivity.
    split; [exists None; split; [now apply resets|reflexivity]|]. unfold keeps_time. auto using others_tdel, each_tdel.
    split; [now apply each_tdel|]. auto using others_tdel, each_tdel. }
  destruct (acks (heard f t)) eqn:Ha; cbn [negb].
  { rewrite andb_false_r. now apply on_ack_refines. }
  rewrite andb_true_r. destruct (syn (heard f t)) eqn:Hs.
  - pose proof (ours_for_us f t B U) as O. rewrite Ht in O. pose proof (on_syn_spec w f P O) as Sp. cbv zeta in Sp. rewrite <- Ht in Sp.
    destruct Sp as [(v & w' & -> & Hv & E)|(w' & -> & E & D)].
    + apply refines_same; auto; [destruct Hv; subst; discriminate|]. now apply no_greeting.
    + unfold refines, phase_at. rewrite E. split; [|unfold keeps_time; auto using others_refl].
      eexists. split; [now apply greets|]. intros Pf. now rewrite (D Pf).
  - apply refines_same; auto; [discriminate|]. now apply no_ack.
Qed.

End Refine.

(** A kernel that satisfies the laws, for the examples: cookies are a fixed number
    and always valid, resizing pads with zeros, and checksums are computed for every
    length, as by kernels that do not insist on a multiple of four. *)
Definition sample_kernel : kernel :=
  Kernel (fun bs => le_sum bs mod 65535)
    (fun f d => let n := Z.of_nat (length f) + d in
                if n <? 0 then None else Some (firstn (Z.to_nat n) (f ++ repeat 0 (Z.to_nat d))))
    (fun _ _ _ => 1460 * 2 ^ 32 + 7) (fun _ _ => 0) (fun t k c => Some (tset t k c))
    (fun t => t) (fun t => t) (fun _ ttl => Some ttl).

Lemma sample_kernel_ok : kernel_ok sample_kernel.
Proof.
  constructor; cbn [sample_kernel csum_diff adjust_tail lru_update].
  - intros bs _ _. pose proof (Z.mod_pos_bound (le_sum bs) 65535 ltac:(lia)). change (2 ^ 32) with 4294967296.
    split; [lia|]. rewrite Zminus_mod_idemp_l, Z.sub_diag. reflexivity.
  - intros f d g B. set (n := Z.of_nat (length f) + d). destruct (Z.ltb_spec n 0); [discriminate|]. intros [= <-].
    assert (L : length (firstn (Z.to_nat n) (f ++ repeat 0 (Z.to_nat d))) = Z.to_nat n).
    { rewrite length_firstn, length_app, repeat_length. unfold n in *. lia. }
    split; [|split; [rewrite L; unfold n in *; lia|]].
    + apply firstn_bytes, Forall_app. split; [exact B|]. apply Forall_forall. intros x I. apply repeat_spec in I as ->.
      unfold is_byte. lia.
    + rewrite L, firstn_firstn, Nat.min_l by lia. rewrite firstn_app.
      replace (Nat.min (length f) (Z.to_nat n) - length f)%nat with 0%nat by lia. apply app_nil_r.
  - intros t k c t' [= <-]. split; [left; apply tset_same|]. intros k' E. unfold tset. rewrite E. auto.
  - intros t ttl. cbn. auto.
Qed.

(** A request: addresses 10.0.0.1 and 10.0.0.2, port 8080, acknowledging 8. *)
Definition sample_get : list Z :=
  [2; 0; 0; 0; 0; 2; 2; 0; 0; 0; 0; 1; 8; 0;
   69; 0; 0; 84; 0; 1; 64; 0; 64; 6; 0; 0; 10; 0; 0; 1; 10; 0; 0; 2;
   156; 64; 31; 144; 0; 0; 0; 100; 0; 0; 0; 8; 80; 24; 255; 255; 0; 0; 0; 0] ++
  route ++ repeat 65 32.

Definition empty_world (f : list Z) : world := World f (fun _ => None) (repeat 0 17).

Lemma all_bytes f : forallb (fun b => (0 <=? b) && (b <? 256)) f = true -> Forall is_byte f.
Proof. intros A. apply Forall_forall. intros b I. rewrite forallb_forall in A. specialize (A b I). bools. split; lia. Qed.

Lemma sample_bytes : Forall is_byte sample_get.
Proof. now apply all_bytes. Qed.

(** C8: every frame handed to the program, whatever its bytes and its length, has the
    effect of one step of the server on the connection of its 4-tuple: the verdict and
    the table entry before and after; a frame that is not IPv4 TCP for port 8080 is
    passed on and changes nothing.  For a frame without IP options that is no fragment,
    what is sent back is the answer of that step: the peer decodes it, with right
    lengths and checksums.  (A reply to a frame with options does not have the header
    its length says: [Limits.options_reply_unreadable].)  Every entry stays in one of
    the three states, and other connections are left alone or evicted. *)
Theorem slice_refines_server K w v w' : kernel_ok K -> table_ok (conntab w) -> Forall is_byte (pkt w) ->
  spnl_tcp_slice_main K w = (v, w') ->
  let f := pkt w in
  let t := tcp_at f in
  let k := the_key f t in
  (exists out, server_step K f t (phase_at w k) v out (phase_at w' k) /\
     (plain f = true -> out = if v =? XDP_TX then decode (pkt w') else None)) /\
  (for_us f t = false -> v = XDP_PASS /\ phase_at w' k = phase_at w k) /\
  table_ok (conntab w') /\
  (forall k', key_eqb k' k = false -> conntab w' k' = conntab w k' \/ conntab w' k' = None).
Proof.
  intros HK T B E f t k. pose proof (main_refines K HK w T B) as R. rewrite E in R. destruct R as ((out & S & D) & Rest).
  split; [now exists out|]. split; [|split; apply Rest]. intros Nu. fold f t k in S. destruct S; try congruence. now split.
Qed.

Lemma slice_refines_server_witness :
  let w := empty_world sample_get in
  let r := spnl_tcp_slice_main sample_kernel w in
  kernel_ok sample_kernel /\ table_ok (conntab w) /\ Forall is_byte sample_get /\ fst r = XDP_TX /\
  server_step sample_kernel sample_get 34 None XDP_TX
    (Some (reply_to sample_get 34 (Answer FIN_PSH_ACK 8 144 [] spnl_tcp_slice_resp_body))) (Some (Answered 50 144)).
Proof.
  intros w r. split; [exact sample_kernel_ok|]. split; [intros k c E; discriminate|]. split; [exact sample_bytes|].
  assert (V : fst r = XDP_TX) by (vm_compute; reflexivity). split; [exact V|].
  assert (D : decode (pkt (snd r)) = Some (reply_to sample_get 34 (Answer FIN_PSH_ACK 8 144 [] spnl_tcp_slice_resp_body)))
    by (vm_compute; reflexivity).
  assert (P : phase_at (snd r) (the_key sample_get 34) = Some (Answered 50 144)) by (vm_compute; reflexivity).
  destruct (slice_refines_server sample_kernel w (fst r) (snd r) sample_kernel_ok
              (fun k c E => ltac:(discriminate E)) sample_bytes (surjective_pairing r)) as [(out & S & O) _].
  change (tcp_at (pkt w)) with 34%nat in S. rewrite (O eq_refl), V in S. change (pkt w) with sample_get in S. rewrite P in S.
  rewrite <- D. exact S.
Defined.

End Refine.

(** ** Runs *)
Module Runs.
Import Packet Slice Receiver Sums Server Built Refine.

(** The segments sent on a connection since its entry was made, as the peer decodes
    them; SYN-ACKs, which are sent without one, and answers to fragments and to frames
    with IP options, which nobody decodes, are not recorded. *)
Definition history := spnl_tcp_slice_key -> list segment.

Definition record (t : table) (k0 : spnl_tcp_slice_key) (out : option segment) (h : history) : history :=
  fun k =>
    match t k with
    | None => []
    | Some _ =>
        match out with
        | Some s => if key_eqb k k0 && negb (flags s =? SYN_ACK) then h k ++ [s] else h k
        | None => h k
        end
    end.

(** Worlds reached from an empty table by arbitrary frames, each handled under some
    kernel behaviour, and by timers that run out.  With [always], every timer that
    was to be started was started. *)
Inductive reach (always : bool) : world -> history -> Prop :=
| reach_start w : (forall k, conntab w k = None) -> reach always w (fun _ => [])
| reach_frame K w h f v w' : reach always w h -> kernel_ok K -> (always = true -> timers_start K) -> Forall is_byte f ->
    spnl_tcp_slice_main K (set_pkt w f) = (v, w') ->
    reach always w' (record (conntab w') (the_key f (tcp_at f)) (if plain f && (v =? XDP_TX) then decode (pkt w') else None) h)
| reach_timer w h k c : reach always w h -> conntab w k = Some c -> timer c <> None ->
    reach always (spnl_tcp_slice_timeout_cb w k) (record (tdel (conntab w) k) k None h).

(** What was sent on a connection in phase [p]. *)
Definition is_response (snd rcv : Z) (s : segment) : Prop :=
  flags s = FIN_PSH_ACK /\ seq s = u32 (snd - 42) /\ ack s = rcv /\ payload s = spnl_tcp_slice_resp_body.
Definition is_close (snd rcv : Z) (s : segment) : Prop :=
  flags s = ACK /\ seq s = snd /\ ack s = rcv /\ payload s = [].

Definition sent_in (p : phase) (l : list segment) : Prop :=
  match p with
  | Established _ _ => l = []
  | Answered snd rcv => Forall (is_response snd rcv) l
  | Closed snd rcv => exists rcv0, Forall (fun s => is_response snd rcv0 s \/ is_close snd rcv s) l
  end.

Definition consistent (w : world) (h : history) : Prop :=
  table_ok (conntab w) /\
  forall k, match phase_at w k with None => h k = [] | Some p => sent_in p (h k) end.

Lemma u32_roll snd : 0 <= snd < 2 ^ 32 -> u32 (u32 (snd + 42) - 42) = snd.
Proof. intros H. rewrite wrap_sub_l, Z.add_simpl_r. now apply wrap_small. Qed.

(** One answer extends a consistent history to one of the next phase. *)
Lemma respond_sent p s n p' a f t l : (forall snd rcv, p = Established snd rcv -> 0 <= snd < 2 ^ 32) ->
  sent_in p l -> respond p s n = Some (p', a) ->
  sent_in p' l /\ sent_in p' (l ++ [reply_to f t a]) /\ a_flags a <> SYN_ACK.
Proof.
  intros Rs S R. destruct p as [snd rcv|snd rcv|snd rcv]; cbn [respond sent_in] in *.
  - destruct (is_get s); inv R. cbn [sent_in a_flags app]. split; [constructor|]. split; [|discriminate].
    constructor; [|constructor]. split; [reflexivity|]. split; [|now split]. symmetry. apply u32_roll. now apply (Rs snd rcv).
  - destruct (fin s); [|destruct (is_get s)]; inv R; cbn [sent_in a_flags].
    + assert (S' : Forall (fun x => is_response snd rcv x \/ is_close snd (u32 (seq s + n + 1)) x) l) by (eapply Forall_impl; [|exact S]; auto).
      split; [now exists rcv|]. split; [|discriminate].
      exists rcv. apply Forall_app. split; [exact S'|]. constructor; [right; now repeat split|constructor].
    + split; [exact S|]. split; [|discriminate]. apply Forall_app. split; [exact S|]. constructor; [now repeat split|constructor].
  - destruct (fin s); inv R. destruct S as [r0 S]. cbn [sent_in a_flags]. split; [now exists r0|]. split; [|discriminate].
    exists r0. apply Forall_app. split; [exact S|]. constructor; [right; now repeat split|constructor].
Qed.

Lemma accept_sent valid c s p l : match c with None => l = [] | Some p => sent_in p l end ->
  accept valid c s = Some p -> sent_in p l.
Proof. destruct c as [q|]; cbn [accept]; [intros H [= <-]; exact H|]. intros -> . destruct valid; intros [= <-]. reflexivity. Qed.

Lemma heard_ack_range f t : Forall is_byte f -> for_us f t = true -> 0 <= ack (heard f t) < 2 ^ 32.
Proof. intros B U. pose proof (ours_for_us f t B U) as O. apply be4_range; [apply O|pose proof (o_len _ _ O); lia]. Qed.

Lemma phase_range w k snd rcv : table_ok (conntab w) -> phase_at w k = Some (Established snd rcv) -> 0 <= snd < 2 ^ 32.
Proof.
  intros T. unfold phase_at. destruct (conntab w k) as [c|] eqn:E; [|discriminate]. cbn [option_map]. intros [= H].
  destruct (T k c E) as (Rs & _). unfold phase_of in H. destruct (state c =? 1); [|destruct (state c =? 2)]; inv H. assumption.
Qed.

(** One step of the server keeps the history of its connection consistent, whether or
    not the answer is one the peer decodes. *)
Lemma step_sent K f t c v out c' l : Forall is_byte f -> (forall snd rcv, c = Some (Established snd rcv) -> 0 <= snd < 2 ^ 32) ->
  server_step K f t c v out c' -> match c with None => l = [] | Some p => sent_in p l end ->
  match c' with
  | None => True
  | Some p => sent_in p l /\ sent_in p (match out with Some s => if negb (flags s =? SYN_ACK) then l ++ [s] else l | None => l end)
  end.
Proof.
  intros B Rs S H. destruct S as [|?|? ? ? ? k| | | | |? ? ? ? ->|p U ? ? ? A R|p p' a U ? ? ? A R|p p' a U ? ? ? A R];
    try (destruct c; (split; exact H) || exact I); try exact I.
  - split; now apply (accept_sent _ _ _ _ _ H A).
  - pose proof (accept_sent _ _ _ _ _ H A) as S.
    destruct (respond_sent p (heard f t) (announced f t) p' a f t l) as (S0 & S' & Fl); auto.
    + intros snd rcv ->. destruct c as [q|]; cbn [accept] in A; [inv A; now apply (Rs snd rcv)|].
      destruct (cookie_valid K f t); inv A. now apply heard_ack_range.
    + split; [exact S0|]. cbn [flags reply_to]. apply Z.eqb_neq in Fl as ->. exact S'.
  - split; now apply (accept_sent _ _ _ _ _ H A).
Qed.

Lemma reach_consistent always w h : reach always w h -> consistent w h.
Proof.
  induction 1 as [w E|K w h f v w' R [T C] HK Hs B M|w h k c R [T C] Ek Ht].
  - split; [intros k c; rewrite E; discriminate|]. intros k. unfold phase_at. now rewrite E.
  - pose proof (main_refines K HK (set_pkt w f) T B) as Rf. rewrite M in Rf. cbn [pkt set_pkt] in Rf.
    destruct Rf as ((out & S & D) & T' & Ot & _). split; [exact T'|]. intros k. unfold record, phase_at.
    destruct (conntab w' k) as [c|] eqn:Ek; cbn [option_map]; [|reflexivity].
    destruct (key_eqb k (the_key f (tcp_at f))) eqn:Q.
    + apply key_eqb_eq in Q as ->. cbn [andb].
      pose proof (step_sent K f _ _ v _ _ (h (the_key f (tcp_at f))) B (fun snd rcv => phase_range w _ snd rcv T) S (C _)) as P.
      unfold phase_at in P at 1. rewrite Ek in P. cbn [option_map] in P. destruct P as [P0 P].
      destruct (plain f); [rewrite (D eq_refl) in P; exact P|exact P0].
    + destruct (Ot k Q) as [E|E]; cbn [conntab set_pkt] in E; rewrite Ek in E; [|discriminate]. specialize (C k). unfold phase_at in C.
      rewrite <- E in C. cbn [option_map] in C. cbn [andb]. now destruct (if plain f && _ then _ else _).
  - split; [now apply each_tdel|]. intros k'. unfold record, phase_at. cbn [conntab spnl_tcp_slice_timeout_cb set_tab spnl_tcp_slice_inc].
    unfold tdel. destruct (key_eqb k' k); [reflexivity|]. specialize (C k'). unfold phase_at in C.
    destruct (conntab w k'); exact C || reflexivity.
Qed.

Lemma reach_timed w h : reach true w h -> each timed (conntab w).
Proof.
  induction 1 as [w E|K w h f v w' R IH HK Hs B M|w h k c R IH Ek Ht].
  - intros k c. rewrite E. discriminate.
  - destruct (reach_consistent _ _ _ R) as [T _]. pose proof (main_refines K HK (set_pkt w f) T B) as Rf. rewrite M in Rf.
    now apply Rf; [apply Hs|].
  - now apply each_tdel.
Qed.

(** C10: on every run from an empty table, of any frames under any failures of the
    kernel's helpers: a connection's entry is in one of the three states, and if the
    timers could be started, the one that will delete it runs with the time of that
    state; and all answers sent on it (to frames without IP options that are no
    fragments, whatever other frames come between) agree.  Two responses carry the same
    sequence numbers and the same data, two closing acknowledgements too, and the
    acknowledgement continues where the response and its FIN ended. *)
Theorem answers_consistent always w h k c : reach always w h -> conntab w k = Some c ->
  entry_ok c /\ (always = true -> timed c) /\
  (forall s, In s (h k) ->
     (flags s = FIN_PSH_ACK /\ payload s = spnl_tcp_slice_resp_body) \/ (flags s = ACK /\ payload s = [])) /\
  (forall s1 s2, In s1 (h k) -> In s2 (h k) -> flags s1 = flags s2 ->
     seq s1 = seq s2 /\ ack s1 = ack s2 /\ payload s1 = payload s2) /\
  (forall s1 s2, In s1 (h k) -> In s2 (h k) -> flags s1 = FIN_PSH_ACK -> flags s2 = ACK -> seq s2 = u32 (seq s1 + 42)).
Proof.
  intros R E. destruct (reach_consistent always w h R) as [T C]. specialize (C k). unfold phase_at in C. rewrite E in C.
  cbn [option_map] in C. destruct (T k c E) as (Rs & Rest). split; [now split|].
  split; [intros ->; exact (reach_timed w h R k c E)|]. clear T R Rest.
  assert (G : exists snd r1 r2, 0 <= snd < 2 ^ 32 /\ Forall (fun s => is_response snd r1 s \/ is_close snd r2 s) (h k)).
  { unfold phase_of in C. destruct (state c =? 1); [|destruct (state c =? 2)]; cbn [sent_in] in C.
    - rewrite C. exists 0, 0, 0. split; [lia|constructor].
    - exists (server_seq c), (client_seq c), 0. split; [assumption|]. eapply Forall_impl; [|exact C]. auto.
    - destruct C as [r C]. exists (server_seq c), r, (client_seq c). auto. }
  destruct G as (snd & r1 & r2 & Hs & G). rewrite Forall_forall in G. unfold is_response, is_close, FIN_PSH_ACK, ACK in *.
  repeat split.
  1: intros s I; destruct (G s I); tauto.
  1-3: destruct (G _ H), (G _ H0); intuition congruence.
  intros s1 s2 I1 I2 F1 F2. destruct (G _ I1) as [(_ & -> & _)|(Q & _)]; [|congruence].
  destruct (G _ I2) as [(Q & _)|(_ & -> & _)]; [congruence|]. rewrite wrap_add_l, Z.sub_add. symmetry. now apply wrap_small.
Qed.

(** A kernel whose timers cannot be started. *)
Definition timerless_kernel : kernel :=
  Kernel (csum_diff sample_kernel) (adjust_tail sample_kernel) (gen_syncookie sample_kernel) (check_syncookie sample_kernel)
    (lru_update sample_kernel) (fun t => t) (fun t => t) (fun t _ => t).

Lemma timerless_ok : kernel_ok timerless_kernel.
Proof. destruct sample_kernel_ok as [A B C _]. constructor; [exact A|exact B|exact C|]. intros t ttl. cbn. auto. Qed.

Lemma answers_consistent_witness :
  let r := spnl_tcp_slice_main sample_kernel (empty_world sample_get) in
  let q := spnl_tcp_slice_main timerless_kernel (empty_world sample_get) in
  let k := the_key sample_get 34 in
  (conntab (snd r) k = Some (St 50 144 1460 2 0 (Some SPNL_TS_TTL_RESP)) /\ timed (St 50 144 1460 2 0 (Some SPNL_TS_TTL_RESP))) /\
  (conntab (snd q) k = Some (St 50 144 1460 2 0 None) /\ entry_ok (St 50 144 1460 2 0 None)).
Proof.
  intros r q k. assert (E : conntab (snd r) k = Some (St 50 144 1460 2 0 (Some SPNL_TS_TTL_RESP))) by (vm_compute; reflexivity).
  assert (E' : conntab (snd q) k = Some (St 50 144 1460 2 0 None)) by (vm_compute; reflexivity).
  split; (split; [assumption|]).
  - refine (proj1 (proj2 (answers_consistent true (snd r) _ k _ (reach_frame true sample_kernel (empty_world []) _ sample_get (fst r) (snd r)
           (reach_start true (empty_world []) (fun _ => eq_refl)) sample_kernel_ok _ sample_bytes (surjective_pairing r)) E)) eq_refl).
    intros _ t ttl. reflexivity.
  - refine (proj1 (answers_consistent false (snd q) _ k _ (reach_frame false timerless_kernel (empty_world []) _ sample_get (fst q) (snd q)
           (reach_start false (empty_world []) (fun _ => eq_refl)) timerless_ok _ sample_bytes (surjective_pairing q)) E')).
    discriminate.
Defined.

End Runs.

(** ** Requests that are not answered *)
Module Limits.
Import Packet Slice Receiver Server Built Refine.

(** [GET /health HTTP/1.0] and an empty line. *)
Definition short_get : list Z :=
  firstn 16 sample_get ++ [0; 66] ++ skipn 18 (firstn 54 sample_get) ++
  route ++ [72; 84; 84; 80; 47; 49; 46; 48; 13; 10; 13; 10].

(** The response is written over the request, so a request shorter than the
    response is never answered on an established connection: the smallest valid
    one is dropped with [XDP_ABORTED] under every kernel. *)
Lemma short_request_aborted K :
  let w := World short_get (fun _ => Some (St 8 100 1460 1 0 (Some SPNL_TS_TTL_ESTAB))) (repeat 0 17) in
  is_get (heard short_get 34) = true /\ fst (spnl_tcp_slice_main K w) = XDP_ABORTED.
Proof. split; vm_compute; reflexivity. Qed.

(** The reply to a frame with IP options is unreadable: the header is declared to have
    20 bytes and the frame is cut to the length of a reply without options, while the
    TCP header stays behind the options.  The request with four bytes of padding as
    options is answered, and nothing can be decoded from the answer. *)
Definition option_get : list Z :=
  firstn 14 sample_get ++ [70; 0; 0; 88] ++ skipn 18 (firstn 34 sample_get) ++ [1; 1; 1; 1] ++ skipn 34 sample_get.

Lemma options_reply_unreadable :
  let r := spnl_tcp_slice_main sample_kernel (empty_world option_get) in
  tcp_at option_get = 38%nat /\ is_get (heard option_get 38) = true /\ fst r = XDP_TX /\
  nth 14 (pkt (snd r)) 0 = 69 /\ length (pkt (snd r)) = 95%nat /\ slice 34 4 (pkt (snd r)) = [1; 1; 1; 1] /\
  decode (pkt (snd r)) = None.
Proof. vm_compute. repeat split. Qed.

(** The length in the IP header is not compared with the frame: of a request cut short
    behind its first line, bytes that never arrived are acknowledged. *)
Definition cut_get : list Z := firstn 16 sample_get ++ [255; 255] ++ skipn 18 sample_get.

Lemma missing_bytes_acknowledged :
  let r := spnl_tcp_slice_main sample_kernel (empty_world cut_get) in
  fst r = XDP_TX /\ len (heard cut_get 34) = 44 /\ phase_at (snd r) (the_key cut_get 34) = Some (Answered 50 (100 + (65535 - 40))).
Proof. vm_compute. repeat split. Qed.

(** The checksum helper is documented for lengths that are multiples of four; the
    response segment has 61 bytes.  Where the kernel enforces it, no request is answered. *)
Lemma unaligned_response_aborted K w t thl n st :
  (forall bs, (length bs mod 4 <> 0)%nat -> csum_diff K bs < 0) -> fst (on_data K w t thl n st) <> XDP_TX.
Proof.
  intros H. unfold on_data. cbv zeta. destruct (0 <=? _); [|discriminate].
  destruct (if state st =? 1 then _ else _) as [[s r] w1].
  destruct (spnl_tcp_slice_build_response _ _ _ _) as [g rc]. destruct (rc <? 0); [discriminate|].
  unfold finish_reply, spnl_tcp_slice_recompute_csums. destruct (_ <? 0); [discriminate|].
  match goal with |- context [(length ?g <? ?m)%nat] => destruct (Nat.ltb_spec (length g) m) as [L|L] end; [discriminate|].
  match goal with |- context [slice t (20 + 41) ?g] => assert (E : length (slice t (20 + 41) g) = 61%nat) end.
  { revert L. generalize (wr16 (wr16 (wr16 g (ip + 10) 0) (ip + 10)
      (spnl_tcp_slice_csum_fold (u32 (csum_diff K (slice ip 20 (wr16 g (ip + 10) 0)))))) (t + 16) 0). intros l L.
    unfold slice. rewrite length_firstn, length_skipn. lia. }
  match goal with |- context [csum_diff K (slice t (20 + 41) ?g) <? 0] => specialize (H (slice t (20 + 41) g)) end.
  rewrite E in H. apply Z.ltb_lt in H; [|discriminate]. rewrite H. discriminate.
Qed.

End Limits.
