(* ===== verification/OtlpXlayer.v ===== *)
(** * Cross-layer lookup

    [src/runtime/otlp/otlp_xlayer.c]: what the kernel counted for a TCP connection is
    found again from the accepted socket.  [Probe] is the kernel side: the keyed
    histogram of [src/codegen_c/templates/hist_keyed.template.c] and the handler of
    [examples/observability/otlp/xlayer_correlate.rb] that fills it; [Lookup] the
    userspace side; [Joined] shows that both derive the same key, and that the value
    read is the number of transitions of the connection. *)

From S2P Require Import Prelude OtlpHist CText TcpSlice.
Import Kernel.

(** ** The probe *)
Module Probe.

(** [bpf_hist_keyed]: keys with their 64 slots; a HASH of 1024 entries. *)
Definition bpf_hist_keyed : Type := list (Z * list Z).
Definition MAX_KEYS : nat := 1024.

Fixpoint lookup (k : Z) (m : bpf_hist_keyed) : option (list Z) :=
  match m with [] => None | (k', b) :: m' => if k' =? k then Some b else lookup k m' end.

Fixpoint replace (k : Z) (b : list Z) (m : bpf_hist_keyed) : bpf_hist_keyed :=
  match m with [] => [] | (k', b') :: m' => if k' =? k then (k', b) :: m' else (k', b') :: replace k b m' end.

(** A new key starts from the zeroed template; when the map is full it gets none. *)
Definition spnl_hist_observe_by (m : bpf_hist_keyed) (key v : Z) : bpf_hist_keyed :=
  let k := u64 key in
  match lookup k m with
  | Some cur => replace k (spnl_hist_observe cur v) m
  | None => if (length m <? MAX_KEYS)%nat then m ++ [(k, spnl_hist_observe bpf_hist v)] else m
  end.

(** The fields of [sock:inet_sock_set_state]. *)
Record transition := Transition { saddr : Z; daddr : Z; sport : Z; dport : Z; newstate : Z }.

Definition FNV_PRIME : Z := 1099511628211.

(** One round of the hash on the [__s64] of the generated C. *)
Definition round (base x : Z) : Z := sgn 64 (sgn 64 (base * FNV_PRIME) + x).

(** The keys under which the handler counts a transition, each with the sample 1. *)
Definition tracepoint__sock__inet_sock_set_state (e : transition) : list Z :=
  let ci := Z.land (daddr e) 4294967295 in
  let si := Z.land (saddr e) 4294967295 in
  let cp := Z.land (dport e) 65535 in
  let sp := Z.land (sport e) 65535 in
  let base := round (round (round ci si) cp) sp in
  round base 1 :: (if newstate e =? 1 then [round base 2] else []).

Definition run (evs : list transition) : bpf_hist_keyed :=
  fold_left (fun m k => spnl_hist_observe_by m k 1) (flat_map tracepoint__sock__inet_sock_set_state evs) [].

End Probe.

(** ** Userspace *)
Module Lookup.
Import Probe.

Definition AF_INET : Z := 2.

(** [struct sockaddr_in] as loaded: address and port in network order. *)
Record sockaddr_in := Sockaddr { sin_family : Z; s_addr : Z; sin_port : Z }.

Definition xlayer_tuple_key (ci_be si_be cp_host sp_host metric_id : Z) : Z :=
  let h := Z.land ci_be 4294967295 in
  let h := u64 (u64 (h * 1099511628211) + Z.land si_be 4294967295) in
  let h := u64 (u64 (h * 1099511628211) + Z.land cp_host 65535) in
  let h := u64 (u64 (h * 1099511628211) + Z.land sp_host 65535) in
  u64 (u64 (h * 1099511628211) + metric_id).

Section Sockets.
Context (getsockname getpeername : Z -> option sockaddr_in).

Definition xlayer_tuple_from_fd (fd : Z) : option (Z * Z * Z * Z) :=
  if fd <? 0 then None else
  match getsockname fd with
  | None => None
  | Some local =>
      match getpeername fd with
      | None => None
      | Some peer =>
          if negb (sin_family local =? AF_INET) || negb (sin_family peer =? AF_INET) then None
          else Some (s_addr peer, s_addr local, Packet.bswap16 (sin_port peer), Packet.bswap16 (sin_port local))
      end
  end.

(** The maps of an object by name, each with its descriptor. *)
Definition spnl_otlp_xlayer_l34_count_obj (obj : option (text -> option (Z * bpf_hist_keyed))) (map_name : option text)
    (fd metric_id : Z) : Z :=
  match obj, map_name with
  | Some obj, Some map_name =>
      match xlayer_tuple_from_fd fd with
      | None => -1
      | Some (ci, si, cp, sp) =>
          let key := xlayer_tuple_key ci si cp sp metric_id in
          match obj map_name with
          | None => -1
          | Some (mfd, m) =>
              if mfd <? 0 then -1 else
              match lookup key m with
              | None => -1
              | Some buckets => sgn 64 (fold_left (fun total b => u64 (total + b)) buckets 0)
              end
          end
      end
  | _, _ => -1
  end.

(** [None]: 0 is returned and nothing stored. *)
Definition spnl_otlp_xlayer_key_from_fd (fd metric_id : Z) : option Z :=
  match xlayer_tuple_from_fd fd with
  | None => None
  | Some (ci, si, cp, sp) => Some (xlayer_tuple_key ci si cp sp metric_id)
  end.

End Sockets.
End Lookup.

(** ** The join *)
Module Joined.
Import Probe Lookup.

Lemma round_wraps a b x : u64 a = u64 b -> u64 (round a x) = u64 (u64 (b * 1099511628211) + x).
Proof.
  intros E. unfold round. rewrite wrap_sgn, <- wrap_add_l, wrap_sgn, !wrap_add_l by lia.
  change FNV_PRIME with 1099511628211. unfold wrap in *.
  rewrite <- (Zplus_mod_idemp_l (a * _)), <- (Zmult_mod_idemp_l a), E, Zmult_mod_idemp_l, Zplus_mod_idemp_l. reflexivity.
Qed.

(** The handler's keys are those of the lookup for the transition's addresses. *)
Lemma probe_keys e :
  map u64 (tracepoint__sock__inet_sock_set_state e) =
  xlayer_tuple_key (daddr e) (saddr e) (dport e) (sport e) 1 ::
  (if newstate e =? 1 then [xlayer_tuple_key (daddr e) (saddr e) (dport e) (sport e) 2] else []).
Proof.
  unfold tracepoint__sock__inet_sock_set_state, xlayer_tuple_key. cbv zeta.
  set (ci := Z.land (daddr e) _). set (si := Z.land (saddr e) _). set (cp := Z.land (dport e) _). set (sp := Z.land (sport e) _).
  assert (R : forall a b x, u64 a = u64 b -> u64 (round a x) = u64 (u64 (u64 (b * 1099511628211) + x))).
  { intros a b x E. rewrite wrap_wrap by lia. now apply round_wraps. }
  set (h1 := u64 (u64 (ci * 1099511628211) + si)). set (h2 := u64 (u64 (h1 * 1099511628211) + cp)).
  set (h3 := u64 (u64 (h2 * 1099511628211) + sp)).
  assert (E3 : u64 (round (round (round ci si) cp) sp) = u64 h3) by (apply R, R, R; reflexivity).
  cbn [map]. f_equal; [now apply round_wraps|]. destruct (newstate e =? 1); [|reflexivity].
  cbn [map]. f_equal. now apply round_wraps.
Qed.

(** *** The map counts the observations of each key *)

Definition times (k : Z) (l : list Z) : nat := length (filter (fun x => u64 x =? k) l).

Lemma lookup_replace k k' b m : lookup k (replace k' b m) =
  if k' =? k then option_map (fun _ => b) (lookup k m) else lookup k m.
Proof.
  induction m as [|[k0 b0] m IH]; cbn [replace lookup]; [now destruct (_ =? _)|].
  destruct (Z.eqb_spec k0 k'); cbn [lookup].
  - subst k0. now destruct (Z.eqb_spec k' k).
  - rewrite IH. destruct (Z.eqb_spec k0 k), (Z.eqb_spec k' k); subst; congruence || reflexivity.
Qed.

Lemma lookup_snoc k k' b m : lookup k (m ++ [(k', b)]) =
  match lookup k m with Some c => Some c | None => if k' =? k then Some b else None end.
Proof. induction m as [|[k0 b0] m IH]; cbn [app lookup]; [reflexivity|]. now destruct (k0 =? k). Qed.

Lemma keyed_none k m : lookup k m = None -> ~ In k (map fst m).
Proof.
  induction m as [|[k0 b] m IH]; cbn [lookup map In fst]; [auto|]. destruct (Z.eqb_spec k0 k); [discriminate|].
  intros E [H|H]; [congruence|now apply IH].
Qed.

Lemma replace_keys k b m : map fst (replace k b m) = map fst m.
Proof. induction m as [|[k0 b0] m IH]; cbn [replace]; [reflexivity|]. destruct (k0 =? k); cbn [map fst]; congruence. Qed.

Definition slots (n : nat) : list Z := observed (repeat 1 n).

Lemma slots_succ n : spnl_hist_observe (slots n) 1 = slots (S n).
Proof. unfold slots, observed. replace (S n) with (n + 1)%nat by lia. now rewrite repeat_app, fold_left_app. Qed.

Definition counts (l : list Z) (m : bpf_hist_keyed) : Prop :=
  NoDup (map fst m) /\ incl (map fst m) (map u64 l) /\
  forall k, lookup k m = match times k l with O => None | S n => Some (slots (S n)) end.

Lemma times_snoc k l x : times k (l ++ [x]) = (times k l + if (u64 x =? k)%Z then 1 else 0)%nat.
Proof. unfold times. rewrite filter_app, length_app. cbn [filter]. now destruct (_ =? _). Qed.

Lemma observe_counts l x m : (length (nodup Z.eq_dec (map u64 (l ++ [x]))) <= MAX_KEYS)%nat -> counts l m ->
  counts (l ++ [x]) (spnl_hist_observe_by m x 1).
Proof.
  intros C (N & I & L). unfold spnl_hist_observe_by. cbv zeta. set (k0 := u64 x) in *.
  assert (I' : incl (map fst m) (map u64 (l ++ [x]))) by (rewrite map_app; now apply incl_appl).
  destruct (lookup k0 m) as [cur|] eqn:E.
  - split; [now rewrite replace_keys|]. split; [now rewrite replace_keys|]. intros k. rewrite lookup_replace, times_snoc. fold k0.
    destruct (Z.eqb_spec k0 k) as [<-|_]; [|rewrite Nat.add_0_r; apply L]. rewrite E. cbn [option_map].
    rewrite L in E. destruct (times k0 l) as [|n]; [discriminate|]. inv E. now rewrite slots_succ, Nat.add_1_r.
  - assert (Nk : NoDup (map fst (m ++ [(k0, spnl_hist_observe bpf_hist 1)]))).
    { rewrite map_app. apply NoDup_app; [exact N|repeat constructor; auto|]. intros a Ha [<-|[]]. now apply (keyed_none k0 m). }
    assert (Ik : incl (map fst (m ++ [(k0, spnl_hist_observe bpf_hist 1)])) (map u64 (l ++ [x]))).
    { rewrite map_app. apply incl_app; [exact I'|]. rewrite map_app. apply incl_appr. cbn. now intros a [<-|[]]; left. }
    assert (B : (length m <? MAX_KEYS)%nat = true).
    { apply Nat.ltb_lt. assert (H : (length (map fst (m ++ [(k0, spnl_hist_observe bpf_hist 1)])) <= length (nodup Z.eq_dec (map u64 (l ++ [x]))))%nat).
      { apply NoDup_incl_length; [exact Nk|]. intros a Ha. apply nodup_In. now apply Ik. }
      rewrite length_map, length_app in H. cbn [length] in H. lia. }
    rewrite B. split; [exact Nk|]. split; [exact Ik|]. intros k. rewrite lookup_snoc, times_snoc. fold k0. rewrite L in *.
    destruct (Z.eqb_spec k0 k) as [<-|_].
    + destruct (times k0 l); [|discriminate]. reflexivity.
    + rewrite Nat.add_0_r. now destruct (times k l).
Qed.

Lemma run_counts l : (length (nodup Z.eq_dec (map u64 l)) <= MAX_KEYS)%nat ->
  counts l (fold_left (fun m k => spnl_hist_observe_by m k 1) l []).
Proof.
  induction l as [|x l IH] using rev_ind; intros C.
  - split; [constructor|]. split; [intros a []|reflexivity].
  - rewrite fold_left_app. apply observe_counts; [exact C|]. apply IH. etransitivity; [|exact C].
    apply NoDup_incl_length; [apply NoDup_nodup|]. intros a Ha. apply nodup_In in Ha. apply nodup_In.
    rewrite map_app. apply in_or_app. now left.
Qed.

Lemma slots_sum n : Z.of_nat n < 2 ^ 63 -> fold_left (fun t b => u64 (t + b)) (slots n) 0 = Z.of_nat n.
Proof.
  intros H. assert (S : slots n = Z.of_nat n :: repeat 0 63).
  { induction n as [|n IH]; [reflexivity|]. rewrite <- slots_succ, IH by lia.
    change (spnl_hist_observe (Z.of_nat n :: repeat 0 63) 1) with (u64 (Z.of_nat n + 1) :: repeat 0 63).
    rewrite wrap_small by (change (2 ^ 64) with (2 * 2 ^ 63); lia). f_equal. lia. }
  rewrite S. cbn [fold_left repeat]. rewrite !Z.add_0_r, Z.add_0_l, !wrap_wrap by lia.
  apply wrap_small. change (2 ^ 64) with (2 * 2 ^ 63). lia.
Qed.

(** The transitions that metric 1 or 2 counts for the connection. *)
Definition concerns (t : Z * Z * Z * Z) (metric : Z) (e : transition) : bool :=
  let '(ci, si, cp, sp) := t in
  (daddr e =? ci) && (saddr e =? si) && (dport e =? cp) && (sport e =? sp) && ((metric =? 1) || (newstate e =? 1)).

(** No transition of another connection, and no other metric, has the key. *)
Definition no_collision (t : Z * Z * Z * Z) (metric : Z) (evs : list transition) : Prop :=
  forall e m, In e evs -> In m [1; 2] ->
    let '(ci, si, cp, sp) := t in
    xlayer_tuple_key (daddr e) (saddr e) (dport e) (sport e) m = xlayer_tuple_key ci si cp sp metric ->
    m = metric /\ (daddr e, saddr e, dport e, sport e) = t.

Lemma times_transitions ci si cp sp metric evs : In metric [1; 2] -> no_collision (ci, si, cp, sp) metric evs ->
  times (xlayer_tuple_key ci si cp sp metric) (flat_map tracepoint__sock__inet_sock_set_state evs) =
  length (filter (concerns (ci, si, cp, sp) metric) evs).
Proof.
  intros Hm. induction evs as [|e evs IH]; intros C; [reflexivity|]. cbn [flat_map].
  assert (Cr : no_collision (ci, si, cp, sp) metric evs) by (intros e' m' I; apply C; now right).
  assert (Tm : forall k a b, times k (a ++ b) = (times k a + times k b)%nat) by (intros; unfold times; now rewrite filter_app, length_app).
  assert (Tu : forall k l, times k l = length (filter (fun x => x =? k) (map u64 l))).
  { intros k l. unfold times. induction l as [|x l IHl]; [reflexivity|]. cbn [filter map]. destruct (u64 x =? k); cbn [length]; auto. }
  rewrite Tm, IH by exact Cr. rewrite Tu, probe_keys. cbn [filter].
  pose proof (C e 1 (or_introl eq_refl) (or_introl eq_refl)) as K1. pose proof (C e 2 (or_introl eq_refl) (or_intror (or_introl eq_refl))) as K2.
  cbv beta zeta in K1, K2. unfold concerns at 2.
  destruct ((daddr e =? ci) && (saddr e =? si) && (dport e =? cp) && (sport e =? sp)) eqn:Same.
  - bools. rewrite <- H, <- H2, <- H1, <- H0 in *. cbn [andb].
    destruct Hm as [<-|[<-|[]]]; cbn [Z.eqb Pos.eqb orb].
    + rewrite Z.eqb_refl. destruct (newstate e =? 1); cbn [filter]; [|reflexivity].
      destruct (Z.eqb_spec (xlayer_tuple_key (daddr e) (saddr e) (dport e) (sport e) 2) (xlayer_tuple_key (daddr e) (saddr e) (dport e) (sport e) 1)) as [Q|_]; [|reflexivity].
      destruct (K2 Q). discriminate.
    + destruct (Z.eqb_spec (xlayer_tuple_key (daddr e) (saddr e) (dport e) (sport e) 1) (xlayer_tuple_key (daddr e) (saddr e) (dport e) (sport e) 2)) as [Q|_];
        [destruct (K1 Q); discriminate|].
      destruct (newstate e =? 1); cbn [filter]; [now rewrite Z.eqb_refl|reflexivity].
  - cbn [andb]. assert (Ne : forall m, In m [1; 2] -> (xlayer_tuple_key (daddr e) (saddr e) (dport e) (sport e) m =? xlayer_tuple_key ci si cp sp metric) = false).
    { intros m Im. apply Z.eqb_neq. intros Q. destruct (C e m (or_introl eq_refl) Im Q) as [_ T]. inv T. now rewrite !Z.eqb_refl in Same. }
    rewrite Ne by (cbn; auto). destruct (newstate e =? 1); cbn [filter]; [now rewrite Ne by (cbn; auto)|reflexivity].
Qed.

(** After any transitions that use at most 1024 keys, the count read back through an
    accepted socket is the number of transitions of its connection (metric 1), or of
    those into ESTABLISHED (metric 2), and -1 when there was none. *)
Theorem l34_count_exact gsn gpn obj name mfd fd ci si cp sp metric evs :
  xlayer_tuple_from_fd gsn gpn fd = Some (ci, si, cp, sp) -> In metric [1; 2] ->
  obj name = Some (mfd, run evs) -> 0 <= mfd ->
  (length (nodup Z.eq_dec (map u64 (flat_map tracepoint__sock__inet_sock_set_state evs))) <= MAX_KEYS)%nat ->
  Z.of_nat (length evs) < 2 ^ 63 -> no_collision (ci, si, cp, sp) metric evs ->
  spnl_otlp_xlayer_l34_count_obj gsn gpn (Some obj) (Some name) fd metric =
    match length (filter (concerns (ci, si, cp, sp) metric) evs) with O => -1 | n => Z.of_nat n end.
Proof.
  intros T Hm O F C B NC. unfold spnl_otlp_xlayer_l34_count_obj. rewrite T, O. destruct (Z.ltb_spec mfd 0); [lia|].
  destruct (run_counts _ C) as (_ & _ & L). unfold run. rewrite L, times_transitions by assumption.
  assert (Le : (length (filter (concerns (ci, si, cp, sp) metric) evs) <= length evs)%nat) by apply filter_length_le.
  destruct (length (filter _ _)) as [|n]; [reflexivity|]. rewrite slots_sum by lia.
  apply sgn_small; [lia|]. change (2 ^ (64 - 1)) with (2 ^ 63). lia.
Qed.

Lemma l34_count_exact_witness :
  let sock := fun _ : Z => Some (Sockaddr 2 33554442 (Packet.bswap16 8080)) in
  let peer := fun _ : Z => Some (Sockaddr 2 16777226 (Packet.bswap16 40000)) in
  let evs := [Transition 33554442 16777226 8080 40000 3; Transition 33554442 16777226 8080 40000 1;
              Transition 33554442 50331658 8080 40001 1] in
  spnl_otlp_xlayer_l34_count_obj sock peer (Some (fun _ => Some (5, run evs))) (Some []) 7 1 = 2.
Proof.
  intros sock peer evs.
  refine (l34_count_exact sock peer (fun _ => Some (5, run evs)) [] 5 7 16777226 33554442 40000 8080 1 evs
            eq_refl (or_introl eq_refl) eq_refl ltac:(lia) _ ltac:(vm_compute; reflexivity) _).
  - apply Nat.leb_le. vm_compute. reflexivity.
  - intros e m Ie Im. cbn in Ie, Im.
    destruct Ie as [<-|[<-|[<-|[]]]]; destruct Im as [<-|[<-|[]]]; vm_compute; intros Q; try discriminate Q; split; reflexivity.
Defined.

(** Entries are never removed, so a connection that comes when 1024 keys are in use
    is not counted, and its lookup misses although the probe ran. *)
Lemma full_map_misses m k v : length m = MAX_KEYS -> lookup (u64 k) m = None ->
  lookup (u64 k) (spnl_hist_observe_by m k v) = None.
Proof. intros L E. unfold spnl_hist_observe_by. cbv zeta. now rewrite E, L. Qed.

End Joined.
