(* ===== verification/RecordSchema.v ===== *)
(** * Record channels

    The declarative record layouts of [src/src/codegen_c/record_schema.h], the kernel
    struct [spinel_ebpf_cc.c] prints for a channel ([cc_rec_emit_channel]), the layout
    and reader [tools/gen_record_mirror.c] generates, and the generated offsets of
    [src/src/runtime/otlp/record_mirror_gen.h]. *)

From S2P Require Import Prelude Bytes CText.

Module Schema.

(** [CcRecField] and [CcRecSchema], without the descriptive columns. *)
Record CcRecField := mk_field { f_name : text; f_ctype : text; f_count : Z; f_size : Z; f_align : Z }.

Record CcRecSchema := mk_schema {
  s_id : text;
  s_banner : option text;
  struct_suffix : text;
  map_suffix : text;
  ringbuf_size : text;
  s_fields : list CcRecField;
  required_through : option text
}.

Definition cc_rec_dns_fields : list CcRecField :=
  [mk_field (lit "hdr") (lit "struct spnl_event_hdr") 0 16 8;
   mk_field (lit "pid") (lit "__u32") 0 4 4;
   mk_field (lit "comm") (lit "char") 16 1 1;
   mk_field (lit "raw") (lit "unsigned char") 64 1 1;
   mk_field (lit "cgid") (lit "__u64") 0 8 8;
   mk_field (lit "duration_ns") (lit "__u64") 0 8 8;
   mk_field (lit "raw_status") (lit "__s32") 0 4 4].

Definition cc_rec_conn_fields : list CcRecField :=
  [mk_field (lit "hdr") (lit "struct spnl_event_hdr") 0 16 8;
   mk_field (lit "pid") (lit "__u32") 0 4 4;
   mk_field (lit "comm") (lit "char") 16 1 1;
   mk_field (lit "daddr") (lit "__u32") 0 4 4;
   mk_field (lit "dport") (lit "__u16") 0 2 2;
   mk_field (lit "family") (lit "__u16") 0 2 2;
   mk_field (lit "srtt_us") (lit "__s64") 0 8 8;
   mk_field (lit "cgid") (lit "__u64") 0 8 8;
   mk_field (lit "oldstate") (lit "__u32") 0 4 4;
   mk_field (lit "daddr6_hi") (lit "__u64") 0 8 8;
   mk_field (lit "daddr6_lo") (lit "__u64") 0 8 8].

Definition cc_rec_l7_fields : list CcRecField :=
  [mk_field (lit "hdr") (lit "struct spnl_event_hdr") 0 16 8;
   mk_field (lit "pid") (lit "__u32") 0 4 4;
   mk_field (lit "comm") (lit "char") 16 1 1;
   mk_field (lit "daddr") (lit "__u32") 0 4 4;
   mk_field (lit "dport") (lit "__u16") 0 2 2;
   mk_field (lit "family") (lit "__u16") 0 2 2;
   mk_field (lit "start_ktime") (lit "__u64") 0 8 8;
   mk_field (lit "duration_ns") (lit "__u64") 0 8 8;
   mk_field (lit "cgid") (lit "__u64") 0 8 8].

Definition cc_rec_http_fields : list CcRecField :=
  [mk_field (lit "hdr") (lit "struct spnl_event_hdr") 0 16 8;
   mk_field (lit "pid") (lit "__u32") 0 4 4;
   mk_field (lit "comm") (lit "char") 16 1 1;
   mk_field (lit "daddr") (lit "__u32") 0 4 4;
   mk_field (lit "dport") (lit "__u16") 0 2 2;
   mk_field (lit "family") (lit "__u16") 0 2 2;
   mk_field (lit "start_ktime") (lit "__u64") 0 8 8;
   mk_field (lit "duration_ns") (lit "__u64") 0 8 8;
   mk_field (lit "req") (lit "unsigned char") 64 1 1;
   mk_field (lit "resp") (lit "unsigned char") 16 1 1;
   mk_field (lit "cgid") (lit "__u64") 0 8 8].

Definition cc_rec_redis_fields : list CcRecField :=
  [mk_field (lit "hdr") (lit "struct spnl_event_hdr") 0 16 8;
   mk_field (lit "pid") (lit "__u32") 0 4 4;
   mk_field (lit "comm") (lit "char") 16 1 1;
   mk_field (lit "daddr") (lit "__u32") 0 4 4;
   mk_field (lit "dport") (lit "__u16") 0 2 2;
   mk_field (lit "family") (lit "__u16") 0 2 2;
   mk_field (lit "start_ktime") (lit "__u64") 0 8 8;
   mk_field (lit "duration_ns") (lit "__u64") 0 8 8;
   mk_field (lit "req") (lit "unsigned char") 64 1 1;
   mk_field (lit "resp") (lit "unsigned char") 16 1 1;
   mk_field (lit "cgid") (lit "__u64") 0 8 8].

Definition cc_rec_offcpu_fields : list CcRecField :=
  [mk_field (lit "hdr") (lit "struct spnl_event_hdr") 0 16 8;
   mk_field (lit "pid") (lit "__u32") 0 4 4;
   mk_field (lit "comm") (lit "char") 16 1 1;
   mk_field (lit "duration_ns") (lit "__u64") 0 8 8;
   mk_field (lit "offcpu_ns") (lit "__u64") 0 8 8;
   mk_field (lit "wait_stack") (lit "__s32") 0 4 4;
   mk_field (lit "req") (lit "unsigned char") 64 1 1;
   mk_field (lit "resp") (lit "unsigned char") 16 1 1;
   mk_field (lit "cgid") (lit "__u64") 0 8 8;
   mk_field (lit "start_ktime") (lit "__u64") 0 8 8;
   mk_field (lit "hdr_ext") (lit "unsigned char") 128 1 1].

Definition cc_rec_l7stream_fields : list CcRecField :=
  [mk_field (lit "hdr") (lit "struct spnl_event_hdr") 0 16 8;
   mk_field (lit "sock") (lit "__u64") 0 8 8;
   mk_field (lit "len") (lit "__u32") 0 4 4;
   mk_field (lit "raw") (lit "char") 128 1 1].

Definition cc_rec_dns : CcRecSchema :=
  mk_schema (lit "dns") (Some (lit "/* === per-unit DNS-event channel === */")) (lit "dns_event") (lit "dns_events") (lit "256 * 1024") cc_rec_dns_fields (Some (lit "duration_ns")).

Definition cc_rec_conn : CcRecSchema :=
  mk_schema (lit "conn") (Some (lit "/* === per-unit connect-event channel === */")) (lit "conn_event") (lit "conn_events") (lit "256 * 1024") cc_rec_conn_fields None.

Definition cc_rec_l7 : CcRecSchema :=
  mk_schema (lit "l7") (Some (lit "/* === per-unit L7 latency-event channel === */")) (lit "l7_event") (lit "l7_events") (lit "256 * 1024") cc_rec_l7_fields None.

Definition cc_rec_http : CcRecSchema :=
  mk_schema (lit "http") None (lit "http_event") (lit "http_events") (lit "256 * 1024") cc_rec_http_fields None.

Definition cc_rec_redis : CcRecSchema :=
  mk_schema (lit "redis") None (lit "redis_event") (lit "redis_events") (lit "256 * 1024") cc_rec_redis_fields None.

Definition cc_rec_offcpu : CcRecSchema :=
  mk_schema (lit "offcpu") None (lit "offcpu_event") (lit "offcpu_events") (lit "256 * 1024") cc_rec_offcpu_fields (Some (lit "cgid")).

Definition cc_rec_l7stream : CcRecSchema :=
  mk_schema (lit "l7stream") (Some (lit "/* === per-unit sock-keyed L7 stream channel === */")) (lit "l7stream_event") (lit "l7stream_events") (lit "256 * 1024") cc_rec_l7stream_fields None.

Definition cc_rec_all : list CcRecSchema :=
  [cc_rec_dns; cc_rec_conn; cc_rec_l7; cc_rec_http; cc_rec_redis; cc_rec_offcpu; cc_rec_l7stream].


(** ** The kernel struct *)

Definition newline : text := ["010"%char].

Definition field_decl (f : CcRecField) : text :=
  lit "    " ++ f_ctype f ++ lit " " ++ f_name f ++
  (if 0 <? f_count f then lit "[" ++ dec_s (f_count f) ++ lit "]" else []) ++ lit ";" ++ newline.

Definition cc_rec_emit_type_witness (s : CcRecSchema) (unit : text) : text :=
  newline ++
  lit "/* Publishes the layout above to .BTF so a reader in another language does not" ++ newline ++
  lit " * have to copy it by hand. A RINGBUF map declares no value type and the struct" ++ newline ++
  lit " * is only ever a local pointer in a static function, so nothing else in this" ++ newline ++
  lit " * object names it. Never loaded: .spnl_records is not a section libbpf maps. */" ++ newline ++
  lit "const struct " ++ unit ++ lit "_" ++ struct_suffix s ++ lit " *_spnl_rec_" ++ struct_suffix s ++
  qlit " SEC('.spnl_records');" ++ newline.

Definition cc_rec_emit_channel (s : CcRecSchema) (unit : text) : text :=
  (match s_banner s with Some b => b ++ newline | None => [] end) ++
  lit "struct " ++ unit ++ lit "_" ++ struct_suffix s ++ lit " {" ++ newline ++
  concat (map field_decl (s_fields s)) ++
  lit "};" ++ newline ++ newline ++
  lit "struct {" ++ newline ++ lit "    __uint(type, BPF_MAP_TYPE_RINGBUF);" ++ newline ++
  lit "    __uint(max_entries, " ++ ringbuf_size s ++ lit ");" ++ newline ++
  lit "} " ++ unit ++ lit "_" ++ map_suffix s ++ qlit " SEC('.maps');" ++ newline ++
  cc_rec_emit_type_witness s unit.

(** ** The layout rule *)

Definition fbytes (f : CcRecField) : Z := f_size f * (if 0 <? f_count f then f_count f else 1).

(** [if (off % align) off += align - (off % align)] *)
Definition align_up (off a : Z) : Z := if off mod a =? 0 then off else off + (a - off mod a).

Fixpoint lay (fs : list CcRecField) (off maxalign : Z) : list Z * Z :=
  match fs with
  | [] => ([], align_up off maxalign)
  | f :: fs' =>
      let o := align_up off (f_align f) in
      let '(os, t) := lay fs' (o + fbytes f) (Z.max maxalign (f_align f)) in
      (o :: os, t)
  end.

Definition field_valid (f : CcRecField) : bool := (0 <? f_size f) && (0 <? f_align f).

(** [layout]: offsets and total, or the generator aborts. *)
Definition layout (s : CcRecSchema) : option (list Z * Z) :=
  if forallb field_valid (s_fields s) then Some (lay (s_fields s) 0 1) else None.

Fixpoint end_of (name : text) (fs : list CcRecField) (offs : list Z) : option Z :=
  match fs, offs with
  | f :: fs', o :: offs' => if text_eqb (f_name f) name then Some (o + fbytes f) else end_of name fs' offs'
  | _, _ => None
  end.

(** [required_bytes]; [None] when the name is no field. *)
Definition required_bytes (s : CcRecSchema) (offs : list Z) (total : Z) : option Z :=
  match required_through s with
  | None => Some total
  | Some n => end_of n (s_fields s) offs
  end.

(** ** The generated reader *)

(** The last byte of a [char] array is overwritten: it is taken for a C string. *)
Definition terminate (f : CcRecField) (v : list Z) : list Z :=
  if (0 <? f_count f) && text_eqb (f_ctype f) (lit "char") then upd v (length v - 1) 0 else v.

Definition read_field (data : list Z) (req : Z) (p : Z * CcRecField) : list Z :=
  let '(o, f) := p in
  let fin := o + fbytes f in
  let size := Z.of_nat (length data) in
  terminate f (if (req <? fin) && (size <? fin) then repeat 0 (Z.to_nat (fbytes f))
               else slice (Z.to_nat o) (Z.to_nat (fbytes f)) data).

(** [spnl_rec_<id>_unpack]: the fields, or [None] for a record that is too short. *)
Definition unpack (s : CcRecSchema) (data : list Z) : option (list (list Z)) :=
  match layout s with
  | None => None
  | Some (offs, total) =>
      match required_bytes s offs total with
      | None => None
      | Some req =>
          if Z.of_nat (length data) <? req then None
          else Some (map (read_field data req) (combine offs (s_fields s)))
      end
  end.

(** ** The committed mirror *)

Record mirror := mk_mirror { m_offs : list Z; m_size : Z; m_min : Z }.

Definition mirror_dns : mirror := mk_mirror [0; 16; 20; 36; 104; 112; 120] 128 120.

Definition mirror_conn : mirror := mk_mirror [0; 16; 20; 36; 40; 42; 48; 56; 64; 72; 80] 88 88.

Definition mirror_l7 : mirror := mk_mirror [0; 16; 20; 36; 40; 42; 48; 56; 64] 72 72.

Definition mirror_http : mirror := mk_mirror [0; 16; 20; 36; 40; 42; 48; 56; 64; 128; 144] 152 152.

Definition mirror_redis : mirror := mk_mirror [0; 16; 20; 36; 40; 42; 48; 56; 64; 128; 144] 152 152.

Definition mirror_offcpu : mirror := mk_mirror [0; 16; 20; 40; 48; 56; 60; 124; 144; 152; 160] 288 152.

Definition mirror_l7stream : mirror := mk_mirror [0; 16; 24; 28] 160 160.

Definition mirrors : list mirror :=
  [mirror_dns; mirror_conn; mirror_l7; mirror_http; mirror_redis; mirror_offcpu; mirror_l7stream].

(** Size and alignment of a C type on the 64-bit targets of the two ends. *)
Definition abi (ctype : text) : option (Z * Z) :=
  let among (l : list text) := existsb (text_eqb ctype) l in
  if among [lit "__u8"; lit "__s8"; lit "char"; lit "unsigned char"] then Some (1, 1)
  else if among [lit "__u16"; lit "__s16"] then Some (2, 2)
  else if among [lit "__u32"; lit "__s32"] then Some (4, 4)
  else if among [lit "__u64"; lit "__s64"] then Some (8, 8)
  else if among [lit "struct spnl_event_hdr"] then Some (16, 8)
  else None.

(** ** Facts about the layout rule *)

Definition field_ok (f : CcRecField) : Prop := 0 < f_size f /\ 0 < f_align f.

Lemma field_valid_ok fs : forallb field_valid fs = true <-> Forall field_ok fs.
Proof.
  rewrite forallb_forall, Forall_forall. unfold field_valid, field_ok.
  split; intros H f Hf; specialize (H f Hf); [apply andb_true_iff in H|apply andb_true_iff]; rewrite !Z.ltb_lt in *; exact H.
Qed.

Lemma fbytes_pos f : field_ok f -> 0 < fbytes f.
Proof. intros [H _]. unfold fbytes. destruct (Z.ltb_spec 0 (f_count f)); nia. Qed.

Lemma align_up_spec off a : 0 <= off -> 0 < a -> off <= align_up off a < off + a /\ align_up off a mod a = 0.
Proof.
  intros Ho Ha. unfold align_up. pose proof (Z.mod_pos_bound off a Ha). destruct (Z.eqb_spec (off mod a) 0); [lia|].
  split; [lia|]. replace (off + (a - off mod a)) with ((off / a + 1) * a) by (pose proof (Z.div_mod off a ltac:(lia)); lia).
  apply Z.mod_mul. lia.
Qed.

(** Appending fields moves none that came before. *)
Lemma lay_app fs gs : forall off m, exists off' m',
  fst (lay (fs ++ gs) off m) = fst (lay fs off m) ++ fst (lay gs off' m').
Proof.
  induction fs as [|f fs IH]; intros off m; cbn [app lay]; [now exists off, m|].
  destruct (IH (align_up off (f_align f) + fbytes f) (Z.max m (f_align f))) as (off' & m' & E).
  destruct (lay (fs ++ gs) _ _) as [os t], (lay fs _ _) as [os1 t1]. cbn [fst] in *. exists off', m'. now rewrite E.
Qed.

Lemma lay_length fs : forall off m, length (fst (lay fs off m)) = length fs.
Proof.
  induction fs as [|f fs IH]; intros off m; cbn [lay]; [reflexivity|].
  specialize (IH (align_up off (f_align f) + fbytes f) (Z.max m (f_align f))).
  destruct (lay fs _ _). simpl in *. now rewrite IH.
Qed.

(** The fields lie in order, aligned, without overlap, inside the record. *)
Definition placed (lo hi : Z) (p : Z * CcRecField) : Prop :=
  lo <= fst p /\ fst p mod f_align (snd p) = 0 /\ fst p + fbytes (snd p) <= hi.

Lemma lay_placed fs : forall off m, 0 <= off -> 0 < m -> Forall field_ok fs ->
  off <= snd (lay fs off m) /\ Forall (placed off (snd (lay fs off m))) (combine (fst (lay fs off m)) fs).
Proof.
  induction fs as [|f fs IH]; intros off m Ho Hm Hok; cbn [lay].
  - split; [|constructor]. cbn [snd]. apply align_up_spec; lia.
  - inv Hok. destruct H1 as [Hs Ha]. destruct (align_up_spec off (f_align f) Ho Ha) as [[L U] A].
    pose proof (fbytes_pos f (conj Hs Ha)) as Hb.
    destruct (IH (align_up off (f_align f) + fbytes f) (Z.max m (f_align f)) ltac:(lia) ltac:(lia) H2) as [T P].
    destruct (lay fs _ _) as [os t]. cbn [fst snd combine] in *. split; [lia|]. constructor.
    + unfold placed. cbn [fst snd]. lia.
    + eapply Forall_impl; [|exact P]. intros [o g]. unfold placed. cbn [fst snd]. lia.
Qed.

Lemma lay_disjoint fs : forall off m, 0 <= off -> 0 < m -> Forall field_ok fs ->
  ForallOrdPairs (fun p q => fst p + fbytes (snd p) <= fst q) (combine (fst (lay fs off m)) fs).
Proof.
  induction fs as [|f fs IH]; intros off m Ho Hm Hok; cbn [lay]; [constructor|].
  inv Hok. destruct H1 as [Hs Ha]. destruct (align_up_spec off (f_align f) Ho Ha) as [[L U] A].
  pose proof (fbytes_pos f (conj Hs Ha)) as Hb.
  specialize (IH (align_up off (f_align f) + fbytes f) (Z.max m (f_align f)) ltac:(lia) ltac:(lia) H2).
  destruct (lay_placed fs (align_up off (f_align f) + fbytes f) (Z.max m (f_align f)) ltac:(lia) ltac:(lia) H2) as [_ P].
  destruct (lay fs _ _) as [os t]. cbn [fst snd combine] in *. constructor; [|exact IH].
  eapply Forall_impl; [|exact P]. intros [o g]. unfold placed. cbn [fst snd]. lia.
Qed.

(** ** Reading records of every generation *)

(** What a producer with fields [fs] puts on the ring: every field at its offset;
    padding bytes are whatever they are. *)
Definition is_record (fs : list CcRecField) (vals : list (list Z)) (data : list Z) : Prop :=
  length vals = length fs /\ Z.of_nat (length data) = snd (lay fs 0 1) /\
  Forall (fun p => slice (Z.to_nat (fst (fst p))) (Z.to_nat (fbytes (snd (fst p)))) data = snd p)
    (combine (combine (fst (lay fs 0 1)) fs) vals).

Definition zeros (f : CcRecField) : list Z := repeat 0 (Z.to_nat (fbytes f)).

Lemma terminate_zeros f : terminate f (zeros f) = zeros f.
Proof.
  unfold terminate. destruct (_ && _); [|reflexivity]. unfold zeros. set (n := Z.to_nat (fbytes f)). rewrite repeat_length.
  destruct n as [|n]; [reflexivity|]. apply upd_id. replace (S n - 1)%nat with n by lia.
  rewrite (nth_error_nth' _ 0) by (rewrite repeat_length; lia). f_equal. apply nth_repeat.
Qed.

Lemma combine_app {A B} (a a' : list A) (b b' : list B) : length a = length b ->
  combine (a ++ a') (b ++ b') = combine a b ++ combine a' b'.
Proof. revert b. induction a as [|x a IH]; intros [|y b] H; simpl in *; try lia; [reflexivity|]. rewrite IH by lia. reflexivity. Qed.

(** A producer that knew only the first [k] fields is read correctly: its record is
    long enough, and ends before the end of every later field. *)
Definition generation_ok (s : CcRecSchema) (k : nat) : bool :=
  match layout s with
  | None => false
  | Some (offs, total) =>
      let t := snd (lay (firstn k (s_fields s)) 0 1) in
      match required_bytes s offs total with
      | None => false
      | Some req =>
          (req <=? t) && forallb (fun p => t <? fst p + fbytes (snd p)) (skipn k (combine offs (s_fields s)))
      end
  end.

Lemma read_present data req p v : fst p + fbytes (snd p) <= Z.of_nat (length data) ->
  slice (Z.to_nat (fst p)) (Z.to_nat (fbytes (snd p))) data = v -> read_field data req p = terminate (snd p) v.
Proof.
  destruct p as [o f]. cbn [fst snd]. intros H <-. unfold read_field.
  destruct (Z.ltb_spec (Z.of_nat (length data)) (o + fbytes f)); [lia|]. now rewrite andb_false_r.
Qed.

Lemma read_absent data req p : req < fst p + fbytes (snd p) -> Z.of_nat (length data) < fst p + fbytes (snd p) ->
  read_field data req p = zeros (snd p).
Proof.
  destruct p as [o f]. cbn [fst snd]. intros H1 H2. unfold read_field. apply Z.ltb_lt in H1, H2. rewrite H1, H2. apply terminate_zeros.
Qed.

Lemma map_read_present data req ps : forall vals, length vals = length ps ->
  Forall (fun p => fst p + fbytes (snd p) <= Z.of_nat (length data)) ps ->
  Forall (fun p => slice (Z.to_nat (fst (fst p))) (Z.to_nat (fbytes (snd (fst p)))) data = snd p) (combine ps vals) ->
  map (read_field data req) ps = map (fun p => terminate (fst p) (snd p)) (combine (map snd ps) vals).
Proof.
  induction ps as [|p ps IH]; intros [|v vals] Hl Hin Hs; simpl in Hl; try lia; [reflexivity|].
  cbn [combine] in Hs. inv Hin. inv Hs. cbn [map combine]. f_equal; [|apply IH; auto; lia].
  cbn [fst snd] in *. now apply read_present.
Qed.

Lemma map_snd_combine {A B} (a : list A) (b : list B) : length a = length b -> map snd (combine a b) = b.
Proof. revert b. induction a as [|x a IH]; intros [|y b] H; simpl in *; try lia; [reflexivity|]. now rewrite IH by lia. Qed.

Lemma in_combine_snd {A B} (a : list A) (b : list B) p : In p (combine a b) -> In (snd p) b.
Proof. destruct p as [x y]. apply in_combine_r. Qed.

(** C18: records of every generation are read.  When a producer knew only the first
    [k] fields, the reader returns exactly the values it wrote, whatever the padding
    bytes are, and zero for each field appended later; [k] may be all the fields.
    Only the last byte of a [char] array is replaced by a terminator. *)
Theorem unpack_every_generation s k vals data : generation_ok s k = true ->
  is_record (firstn k (s_fields s)) vals data ->
  unpack s data = Some (map (fun p => terminate (fst p) (snd p)) (combine (firstn k (s_fields s)) vals) ++
                        map zeros (skipn k (s_fields s))).
Proof.
  unfold generation_ok, unpack, layout. destruct (forallb field_valid (s_fields s)) eqn:V; [|discriminate].
  apply field_valid_ok in V. set (fs := s_fields s) in *. destruct (lay_app (firstn k fs) (skipn k fs) 0 1) as (off' & m' & E).
  rewrite firstn_skipn in E. destruct (lay fs 0 1) as [offs total]. cbn [fst] in E.
  set (old := firstn k fs) in *. set (new := skipn k fs) in *.
  destruct (required_bytes s offs total) as [req|]; [|discriminate]. intros H (Hl & Hd & Hs).
  apply andb_true_iff in H. destruct H as [Hreq Hnew]. apply Z.leb_le in Hreq.
  assert (Hold : length (fst (lay old 0 1)) = length old) by apply lay_length.
  assert (Ec : combine offs fs = combine (fst (lay old 0 1)) old ++ combine (fst (lay new off' m')) new).
  { rewrite E. rewrite <- (firstn_skipn k fs) at 1. now apply combine_app. }
  assert (Hvo : Forall field_ok old).
  { rewrite <- (firstn_skipn k fs) in V. apply Forall_app in V. apply V. }
  destruct (lay_placed old 0 1 ltac:(lia) ltac:(lia) Hvo) as [_ Hp].
  destruct (Z.ltb_spec (Z.of_nat (length data)) req); [lia|]. f_equal. rewrite Ec, map_app. f_equal.
  - rewrite (map_read_present data req _ vals).
    + now rewrite map_snd_combine.
    + rewrite length_combine, Hold. lia.
    + eapply Forall_impl; [|exact Hp]. intros p Hp'. unfold placed in Hp'. lia.
    + exact Hs.
  - assert (Hsk : Forall (fun p => snd (lay old 0 1) < fst p + fbytes (snd p)) (combine (fst (lay new off' m')) new)).
    { apply Forall_forall. intros p Hp'. rewrite forallb_forall in Hnew. apply Z.ltb_lt, Hnew. rewrite Ec, skipn_app.
      apply in_or_app. right. rewrite length_combine, Hold, Nat.min_id. unfold old. rewrite length_firstn.
      destruct (Nat.le_gt_cases k (length fs)); [now replace (k - Nat.min k (length fs))%nat with 0%nat by lia|].
      exfalso. unfold new in Hp'. rewrite skipn_all2 in Hp' by lia. apply in_combine_snd in Hp'. destruct Hp'. }
    transitivity (map zeros (map snd (combine (fst (lay new off' m')) new)));
      [|f_equal; apply map_snd_combine, lay_length]. rewrite map_map.
    apply map_ext_Forall. eapply Forall_impl; [|exact Hsk]. intros p Hp'. cbn beta in Hp'. apply read_absent; lia.
Qed.

(** An older DNS producer: six fields, no status word. *)
Definition old_dns_record : list Z := map (fun k => Z.of_nat k mod 200) (seq 1 120).

Definition old_dns_values : list (list Z) :=
  map (fun p => slice (Z.to_nat (fst p)) (Z.to_nat (fbytes (snd p))) old_dns_record)
    (combine (fst (lay (firstn 6 cc_rec_dns_fields) 0 1)) (firstn 6 cc_rec_dns_fields)).

Lemma unpack_every_generation_witness :
  option_map (fun vs => (nth 1 vs [], nth 4 vs [], nth 6 vs [1])) (unpack cc_rec_dns old_dns_record) =
  Some ([17; 18; 19; 20], [105; 106; 107; 108; 109; 110; 111; 112], [0; 0; 0; 0]).
Proof.
  rewrite (unpack_every_generation cc_rec_dns 6 old_dns_values old_dns_record).
  - vm_compute. reflexivity.
  - vm_compute. reflexivity.
  - split; [vm_compute; reflexivity|]. split; [vm_compute; reflexivity|].
    repeat (apply Forall_cons; [vm_compute; reflexivity|]). apply Forall_nil.
Defined.

(** The index of the first optional field. *)
Fixpoint index_of (name : text) (fs : list CcRecField) : nat :=
  match fs with
  | [] => O
  | f :: fs' => if text_eqb (f_name f) name then O else S (index_of name fs')
  end.

Definition first_generation (s : CcRecSchema) : nat :=
  match required_through s with None => length (s_fields s) | Some n => S (index_of n (s_fields s)) end.

Definition channel_ok (s : CcRecSchema) (m : mirror) : bool :=
  match layout s with
  | None => false
  | Some (offs, total) =>
      (if list_eq_dec Z.eq_dec offs (m_offs m) then true else false) && (total =? m_size m) &&
      match required_bytes s offs total with Some r => r =? m_min m | None => false end &&
      forallb (fun f => match abi (f_ctype f) with Some (sz, al) => (f_size f =? sz) && (f_align f =? al) | None => false end)
        (s_fields s) &&
      forallb (generation_ok s) (seq (first_generation s) (S (length (s_fields s)) - first_generation s))
  end.

(** Producer and consumer agree on every declared channel.  The committed
    offsets, record size and minimal size are those of the layout rule; the size
    and alignment declared for each field are those of its C type, so the kernel
    struct has the same layout; and every generation of a producer, from the first
    accepted one on, is read correctly. *)
Theorem channels_consistent :
  length mirrors = length cc_rec_all /\
  Forall (fun p => channel_ok (fst p) (snd p) = true) (combine cc_rec_all mirrors).
Proof.
  split; [reflexivity|]. unfold cc_rec_all, mirrors. cbn [combine].
  repeat (apply Forall_cons; [vm_compute; reflexivity|]). apply Forall_nil.
Qed.

(** The stream channel declares its payload as a [char] array: the reader
    overwrites the last byte of a full record. *)
Lemma l7stream_last_byte_lost :
  option_map (fun vs => nth 127 (nth 3 vs []) 1) (unpack cc_rec_l7stream (repeat 65 160)) = Some 0.
Proof. vm_compute. reflexivity. Qed.

(** The struct printed for a channel declares exactly the schema's fields, in order. *)
Lemma emit_channel_example : exists before after,
  cc_rec_emit_channel cc_rec_l7stream (lit "u") = before ++
    lit "    struct spnl_event_hdr hdr;" ++ newline ++ lit "    __u64 sock;" ++ newline ++
    lit "    __u32 len;" ++ newline ++ lit "    char raw[128];" ++ newline ++ after.
Proof.
  exists (lit "/* === per-unit sock-keyed L7 stream channel === */" ++ newline ++ lit "struct u_l7stream_event {" ++ newline).
  eexists. vm_compute. reflexivity.
Qed.

End Schema.
