(* ===== verification/AmpDrain.v ===== *)
(** * Draining the event ring ([src/runtime/amp/amp_otlp.c])

    - [Drain]: [amp_ring_drain_logs] and [amp_ring_drain_trace] as functions on the
      ring, against any request encoder ([LogsEncoder], [TracesEncoder]: the
      protobuf builders they call).
    - [Interleave]: the producer on the real-time core and the consumer on the
      application core running concurrently, one memory access per step under
      sequentially consistent memory; what the consumer exports is a prefix of
      what was accepted, in order, each record once and never half written. *)

From S2P Require Import Prelude CText AmpRing OtlpTraces.

Module Drain.
Import Spsc Ring Ids.
Implicit Type r : amp_ring.

Definition AMP_DRAIN_MAX : nat := 64.

Record otlp_log_record_t := mk_log {
  time_unix_ns : Z;
  severity : Z;
  body_is_str : bool;
  body_str : option text;
  body_int : Z;
  event_name : option text
}.

(** [otlp_logs_build]: buffer capacity, service, version, scope and records to the
    encoded request, or [None] when it does not fit. *)
Class LogsEncoder :=
  otlp_logs_build : Z -> option text -> option text -> text -> list otlp_log_record_t -> option (list Z).

(** [otlp_traces_generic_build_multi], likewise. *)
Class TracesEncoder :=
  otlp_traces_generic_build_multi :
    Z -> option text -> option text -> text -> list otlp_generic_span_t -> option (list Z).

Definition drain_scope : text := lit "spinel-amp-m7".

Definition log_of (src : amp_ring_rec) : otlp_log_record_t :=
  mk_log (timestamp (hdr src)) 0 false None (value src) (Some (lit "amp.emit")).

(** The copy loop: at most [n] more records, from counter [c]. *)
Fixpoint drain_loop (r : amp_ring) (n : nat) (c : Z) : list amp_ring_rec * Z :=
  match n with
  | O => ([], c)
  | S n' =>
      if c =? prod r then ([], c)
      else
        let src := nth (slot_ix r c) (slots r) rec0 in
        let '(l, c') := drain_loop r n' (u32 (c + 1)) in (src :: l, c')
  end.

(** The result of a drain: the ring, the C return value, [*n_drained] and the bytes
    left in the buffer. *)
Record drained := mk_drained { d_ring : option amp_ring; d_ret : Z; d_count : nat; d_bytes : list Z }.

Definition amp_ring_drain_logs {E : LogsEncoder} (r : option amp_ring) (cap : Z)
  (service version : option text) (max : nat) : drained :=
  match r with
  | None => mk_drained None (-1) 0 []
  | Some r =>
      if negb (magic r =? AMP_RING_MAGIC) then mk_drained (Some r) (-1) 0 []
      else
        let max := if (max =? 0)%nat || (AMP_DRAIN_MAX <? max)%nat then AMP_DRAIN_MAX else max in
        let '(recs, c) := drain_loop r max (cons r) in
        if (length recs =? 0)%nat then mk_drained (Some r) 0 0 []
        else
          match otlp_logs_build cap service version drain_scope (map log_of recs) with
          | None => mk_drained (Some r) (-1) 0 []
          | Some bytes =>
              mk_drained (Some (set_cons r c)) (Z.of_nat (length bytes)) (length recs) bytes
          end
  end.

(** [s->start_unix_ns = ...; s->name = ...; s->kind = ...; s->attrs = ...]. *)
Definition fill_span (s : otlp_generic_span_t) (ts v : Z) : otlp_generic_span_t :=
  mk_gspan (trace_id s) (span_id s) (parent_span_id s) (has_parent s) ts ts (lit "amp.emit") 1
    (is_error s) [mk_kv (lit "amp.value") (dec_s v)].

Definition zero_span : otlp_generic_span_t :=
  mk_gspan (zeros 16) (zeros 8) (zeros 8) false 0 0 [] 0 false [].

Definition in_window (src : amp_ring_rec) (t0 t1 : Z) : bool :=
  (t0 <=? timestamp (hdr src)) && (timestamp (hdr src) <=? t1).

(** The spans of a run of records, the number of them in the request's window and
    the generator state afterwards. *)
Fixpoint spans_loop (req : otlp_generic_span_t) (t0 t1 : Z) (recs : list amp_ring_rec) (seed : Z)
  : list otlp_generic_span_t * nat :=
  match recs with
  | [] => ([], 0%nat)
  | src :: recs' =>
      let '(s, seed') :=
        if in_window src t0 t1 then otlp_span_new_child zero_span req seed
        else otlp_span_new_root zero_span seed in
      let '(l, nin) := spans_loop req t0 t1 recs' seed' in
      (fill_span s (timestamp (hdr src)) (value src) :: l,
       if in_window src t0 t1 then S nin else nin)
  end.

Definition request_span (tid sid : list Z) (t0 t1 : Z) (nm : option text) : otlp_generic_span_t :=
  mk_gspan tid sid (zeros 8) false t0 t1
    (match nm with Some n => n | None => lit "a55.request" end) 2 false [].

Definition amp_ring_drain_trace {E : TracesEncoder} (r : option amp_ring) (tid sid : list Z)
  (t0 t1 : Z) (nm : option text) (cap : Z) (service version : option text) (seed : Z) : drained :=
  match r with
  | None => mk_drained None (-1) 0 []
  | Some r =>
      if negb (magic r =? AMP_RING_MAGIC) then mk_drained (Some r) (-1) 0 []
      else
        let req := request_span tid sid t0 t1 nm in
        let '(recs, c) := drain_loop r AMP_DRAIN_MAX (cons r) in
        let '(spans, nin) := spans_loop req t0 t1 recs seed in
        match otlp_traces_generic_build_multi cap service version drain_scope (req :: spans) with
        | None => mk_drained (Some r) (-1) 0 []
        | Some bytes => mk_drained (Some (set_cons r c)) (Z.of_nat (length bytes)) nin bytes
        end
  end.

(** [amp_drain_build] (amp_a55_drain.c): one request with the manifest's service name. *)
Definition amp_drain_build {E : LogsEncoder} (r : option amp_ring) (service : text) (cap : Z)
  : drained :=
  amp_ring_drain_logs r cap (Some service) (Some (lit "0.1.0")) 0.

Lemma drain_loop_spec r : ring_ok r -> forall n k, (k <= count r)%nat ->
  drain_loop r n (u32 (cons r + Z.of_nat k)) =
    (firstn n (skipn k (pending r)), u32 (cons r + Z.of_nat (k + Nat.min n (count r - k)))).
Proof.
  intros Hok. induction n as [|n IH]; intros k Hk.
  - simpl. now rewrite Nat.add_0_r.
  - cbn [drain_loop]. rewrite counter_meets by assumption.
    destruct (Nat.eqb_spec k (count r)) as [->|Hne].
    + rewrite <- length_pending, skipn_all, length_pending, Nat.sub_diag. simpl.
      now rewrite Nat.add_0_r.
    + assert (Hlt : (k < length (pending r))%nat) by (rewrite length_pending; lia).
      rewrite wrap_add_l. replace (cons r + Z.of_nat k + 1) with (cons r + Z.of_nat (S k)) by lia.
      rewrite IH by lia. rewrite (skipn_nth (pending r) k rec0 Hlt). simpl firstn. f_equal.
      * now rewrite nth_pending by lia.
      * do 2 f_equal. lia.
Qed.

Lemma drain_all r n : ring_ok r ->
  drain_loop r n (cons r) =
    (firstn n (pending r), u32 (cons r + Z.of_nat (Nat.min n (count r)))).
Proof.
  intros Hok. pose proof (drain_loop_spec r Hok n 0 (Nat.le_0_l _)) as H.
  rewrite Z.add_0_r, (wrap_small 32 (cons r)) in H by apply Hok. rewrite H. simpl skipn.
  now rewrite Nat.sub_0_r.
Qed.

Definition effective_max (max : nat) : nat :=
  if (max =? 0)%nat || (AMP_DRAIN_MAX <? max)%nat then AMP_DRAIN_MAX else max.

(** A drain on a live ring either exports the oldest pending records, in
    order and at most [max] (64) of them, and consumes exactly those; or, when
    there is nothing pending or the encoder fails, leaves the ring untouched. *)
Theorem amp_ring_drain_logs_exact {E : LogsEncoder} r cap service version max :
  ring_ok r -> magic r = AMP_RING_MAGIC ->
  let res := amp_ring_drain_logs (Some r) cap service version max in
  let batch := firstn (effective_max max) (pending r) in
  match otlp_logs_build cap service version drain_scope (map log_of batch) with
  | Some bytes =>
      if (length batch =? 0)%nat then res = mk_drained (Some r) 0 0 []
      else exists r', res = mk_drained (Some r') (Z.of_nat (length bytes)) (length batch) bytes /\
             ring_ok r' /\ pending r = batch ++ pending r'
  | None => res = mk_drained (Some r) (if (length batch =? 0)%nat then 0 else -1) 0 []
  end.
Proof.
  intros Hok Hm res batch. unfold res, amp_ring_drain_logs. rewrite Hm, Z.eqb_refl. cbn [negb].
  fold (effective_max max). rewrite (drain_all r (effective_max max) Hok). fold batch.
  destruct (consume_upto r (effective_max max) Hok) as [Hok' Hp].
  destruct (otlp_logs_build _ _ _ _ _) as [bytes|];
    destruct (Nat.eqb_spec (length batch) 0) as [E0|E0]; try reflexivity.
  eexists. split; [reflexivity|]. split; [exact Hok'|]. rewrite Hp. unfold batch.
  now rewrite firstn_skipn.
Qed.

(** ** The spans of a traced drain *)

(** What each record becomes: a child of the request inside its window, a trace of
    its own outside. *)
Definition span_for (req : otlp_generic_span_t) (t0 t1 : Z) (src : amp_ring_rec)
  (s : otlp_generic_span_t) : Prop :=
  start_unix_ns s = timestamp (hdr src) /\ end_unix_ns s = timestamp (hdr src) /\
  name s = lit "amp.emit" /\ kind s = 1 /\
  attrs s = [mk_kv (lit "amp.value") (dec_s (value src))] /\
  if in_window src t0 t1
  then has_parent s = true /\ parent_span_id s = span_id req /\ trace_id s = trace_id req
  else has_parent s = false /\ parent_span_id s = zeros 8.

Lemma spans_loop_for req t0 t1 recs : forall seed,
  Forall2 (span_for req t0 t1) recs (fst (spans_loop req t0 t1 recs seed)) /\
  snd (spans_loop req t0 t1 recs seed) = length (filter (fun x => in_window x t0 t1) recs).
Proof.
  induction recs as [|src recs IH]; intros seed; [split; [constructor|reflexivity]|].
  cbn [spans_loop filter].
  destruct (in_window src t0 t1) eqn:Ew; unfold otlp_span_new_child, otlp_span_new_root;
    repeat match goal with |- context [splitmix64 ?s] => destruct (splitmix64 s) end;
    match goal with |- context [spans_loop _ _ _ recs ?sd] => destruct (IH sd) as [H1 H2];
      destruct (spans_loop req t0 t1 recs sd) as [l nin] end;
    simpl in *; (split; [constructor; [|assumption]|congruence]);
    unfold span_for; rewrite Ew; simpl; intuition auto.
Qed.

Definition fresh_from (seed k : Z) (l : list (list Z)) : Prop :=
  NoDup l /\ Forall (fun id => exists j, k <= j < k + 3 * Z.of_nat (length l) /\ id = id_at seed j) l.

Lemma fresh_cons seed k j l : 0 <= k -> k <= j < k + 3 -> k + 3 * (Z.of_nat (length l) + 1) < 2 ^ 64 ->
  fresh_from seed (j + 1) l -> fresh_from seed k (id_at seed j :: l).
Proof.
  intros Hk Hj Hb [Hn Hf]. rewrite Forall_forall in Hf. split.
  - constructor; [|assumption]. intros Hin. destruct (Hf _ Hin) as (i & Hi & E).
    apply id_at_inj in E; lia.
  - apply Forall_forall. cbn [length]. intros x [<-|Hx].
    + exists j. split; [lia|reflexivity].
    + destruct (Hf x Hx) as (i & Hi & ->). exists i. split; [lia|reflexivity].
Qed.

Lemma length_spans_loop req t0 t1 recs seed :
  length (fst (spans_loop req t0 t1 recs seed)) = length recs.
Proof. destruct (spans_loop_for req t0 t1 recs seed) as [H _]. now apply Forall2_length in H. Qed.

Lemma spans_loop_fresh req t0 t1 seed recs : forall k, 0 <= k ->
  k + 3 * Z.of_nat (length recs) < 2 ^ 64 ->
  fresh_from seed k (map span_id (fst (spans_loop req t0 t1 recs (state_at seed k)))).
Proof.
  induction recs as [|src recs IH]; intros k Hk Hb; [split; constructor|].
  cbn [spans_loop length] in *. rewrite Nat2Z.inj_succ in Hb.
  assert (Hstep : forall j, k <= j < k + 3 ->
    fresh_from seed k
      (id_at seed j :: map span_id (fst (spans_loop req t0 t1 recs (state_at seed (j + 1)))))).
  { intros j Hj. apply fresh_cons; auto.
    - rewrite length_map, length_spans_loop. lia.
    - apply IH; lia. }
  destruct (in_window src t0 t1); unfold otlp_span_new_child, otlp_span_new_root;
    do 3 (try (rewrite splitmix64_at; cbv iota beta)).
  - specialize (Hstep k ltac:(lia)).
    destruct (spans_loop req t0 t1 recs (state_at seed (k + 1))). exact Hstep.
  - specialize (Hstep (k + 1 + 1) ltac:(lia)).
    destruct (spans_loop req t0 t1 recs (state_at seed (k + 1 + 1 + 1))). exact Hstep.
Qed.

(** A traced drain exports the request span followed by one span per oldest
    pending record (at most 64): a child of the request exactly when its
    timestamp is inside the request's window, otherwise the root of its own
    trace; their span ids are pairwise distinct, the child count is the number
    inside the window, and exactly those records are consumed -- or, when the
    encoder fails, none. *)
Theorem amp_ring_drain_trace_links {E : TracesEncoder} r tid sid t0 t1 nm cap service version seed :
  ring_ok r -> magic r = AMP_RING_MAGIC -> 0 <= seed < 2 ^ 64 ->
  let batch := firstn AMP_DRAIN_MAX (pending r) in
  let req := request_span tid sid t0 t1 nm in
  let res := amp_ring_drain_trace (Some r) tid sid t0 t1 nm cap service version seed in
  exists spans, Forall2 (span_for req t0 t1) batch spans /\ NoDup (map span_id spans) /\
    match otlp_traces_generic_build_multi cap service version drain_scope (req :: spans) with
    | Some bytes =>
        exists r', res = mk_drained (Some r') (Z.of_nat (length bytes))
                           (length (filter (fun x => in_window x t0 t1) batch)) bytes /\
          ring_ok r' /\ pending r = batch ++ pending r'
    | None => res = mk_drained (Some r) (-1) 0 []
    end.
Proof.
  intros Hok Hm Hs batch req res. unfold res, amp_ring_drain_trace.
  rewrite Hm, Z.eqb_refl. cbn [negb]. rewrite (drain_all r AMP_DRAIN_MAX Hok). fold batch req.
  destruct (spans_loop_for req t0 t1 batch seed) as [Hf Hc].
  assert (Hu : NoDup (map span_id (fst (spans_loop req t0 t1 batch seed)))).
  { assert (Es : seed = state_at seed 0)
      by (unfold state_at; rewrite Z.mul_0_l, Z.add_0_r, wrap_small; lia).
    rewrite Es at 1. apply spans_loop_fresh; [lia|].
    unfold batch. rewrite length_firstn. unfold AMP_DRAIN_MAX. lia. }
  destruct (spans_loop req t0 t1 batch seed) as [spans nin]. simpl in Hf, Hc, Hu. subst nin.
  exists spans. split; [assumption|]. split; [assumption|].
  destruct (otlp_traces_generic_build_multi _ _ _ _ _) as [bytes|]; [|reflexivity].
  destruct (consume_upto r AMP_DRAIN_MAX Hok) as [Hok' Hp].
  eexists. split; [reflexivity|]. split; [exact Hok'|]. rewrite Hp. unfold batch.
  now rewrite firstn_skipn.
Qed.

(** An encoder that writes one byte per item, in a buffer of [cap] bytes. *)
Definition unary_logs : LogsEncoder := fun cap _ _ _ l =>
  if Z.of_nat (length l) <=? cap then Some (repeat 1 (length l)) else None.
Definition unary_traces : TracesEncoder := fun cap _ _ _ l =>
  if Z.of_nat (length l) <=? cap then Some (repeat 1 (length l)) else None.

Definition full_ring : amp_ring := fst (amp_ring_emit sample_ring 11 110).

Lemma amp_ring_drain_logs_exact_witness :
  exists r', amp_ring_drain_logs (E := unary_logs) (Some full_ring) 100 None None 1 =
               mk_drained (Some r') 1 1 [1] /\ ring_ok r' /\
             pending full_ring = [emitted 10 100] ++ pending r'.
Proof.
  exact (amp_ring_drain_logs_exact (E := unary_logs) full_ring 100 None None 1
           (ring_ok_emit sample_ring 11 110 sample_ring_ok) eq_refl).
Defined.

Lemma amp_ring_drain_trace_links_witness :
  exists spans, length spans = 2%nat /\ NoDup (map span_id spans).
Proof.
  destruct (amp_ring_drain_trace_links (E := unary_traces) full_ring (repeat 1 16) (repeat 2 8) 5 10
              None 100 None None 7 (ring_ok_emit sample_ring 11 110 sample_ring_ok) eq_refl)
    as (spans & Hf & Hn & _); [lia|].
  exists spans. split; [|exact Hn]. apply Forall2_length in Hf. now rewrite <- Hf.
Defined.

End Drain.

Module Interleave.
Import Spsc Ring Drain.
Implicit Type r : amp_ring.

(** The producer inside [amp_ring_emit], between two memory accesses. *)
Inductive producer :=
| PIdle
| PHasProd (ts v p : Z)
| PHasCons (ts v p c : Z)
| PWriting (ts v p : Z) (k : nat).

(** The consumer inside [amp_ring_drain_logs]: the records copied so far are the
    (timestamp, value) pairs it has read. *)
Inductive consumer :=
| CIdle
| CLoop (max : nat) (c : Z) (got : list (Z * Z))
| CReadTs (max : nat) (c : Z) (got : list (Z * Z))
| CReadVal (max : nat) (c : Z) (got : list (Z * Z)) (ts : Z)
| CBuilt (c : Z) (got : list (Z * Z)).

(** [accepted] and [exported] are histories: the emits that returned 1 and the
    records of the requests that were built. *)
Record sys := mk_sys {
  ring : amp_ring;
  prd : producer;
  csm : consumer;
  accepted : list amp_ring_rec;
  exported : list (Z * Z)
}.

(** The [k]-th store of the emit into its slot. *)
Definition store (k : nat) (ts v : Z) (x : amp_ring_rec) : amp_ring_rec :=
  let h := hdr x in
  match k with
  | 0%nat => mk_rec (mk_hdr AMP_EVT_USER_BASE (version h) (reserved h) (timestamp h)) (value x)
  | 1%nat => mk_rec (mk_hdr (type h) AMP_RING_VERSION (reserved h) (timestamp h)) (value x)
  | 2%nat => mk_rec (mk_hdr (type h) (version h) 0 (timestamp h)) (value x)
  | 3%nat => mk_rec (mk_hdr (type h) (version h) (reserved h) ts) (value x)
  | _ => mk_rec h v
  end.

Definition view (x : amp_ring_rec) : Z * Z := (timestamp (hdr x), value x).

Inductive step : sys -> sys -> Prop :=
| p_load_prod r ts v c a e :
    step (mk_sys r PIdle c a e) (mk_sys r (PHasProd ts v (prod r)) c a e)
| p_load_cons r ts v p c a e :
    step (mk_sys r (PHasProd ts v p) c a e) (mk_sys r (PHasCons ts v p (cons r)) c a e)
| p_full r ts v p k c a e : capacity r <= u32 (p - k) ->
    step (mk_sys r (PHasCons ts v p k) c a e) (mk_sys r PIdle c a e)
| p_room r ts v p k c a e : u32 (p - k) < capacity r ->
    step (mk_sys r (PHasCons ts v p k) c a e) (mk_sys r (PWriting ts v p 0) c a e)
| p_store r ts v p k c a e : (k < 5)%nat ->
    step (mk_sys r (PWriting ts v p k) c a e)
         (mk_sys (set_slot r (slot_ix r p) (store k ts v (slot_at r p))) (PWriting ts v p (S k)) c a e)
| p_publish r ts v p c a e :
    step (mk_sys r (PWriting ts v p 5) c a e)
         (mk_sys (set_prod r (u32 (p + 1))) PIdle c (a ++ [emitted ts v]) e)
| c_start r p max a e :
    step (mk_sys r p CIdle a e) (mk_sys r p (CLoop max (cons r) []) a e)
| c_more r p max c got a e : (length got < max)%nat -> c <> prod r ->
    step (mk_sys r p (CLoop max c got) a e) (mk_sys r p (CReadTs max c got) a e)
| c_last r p max c got a e : (length got = max)%nat \/ c = prod r ->
    step (mk_sys r p (CLoop max c got) a e) (mk_sys r p (CBuilt c got) a e)
| c_read_ts r p max c got a e :
    step (mk_sys r p (CReadTs max c got) a e)
         (mk_sys r p (CReadVal max c got (timestamp (hdr (slot_at r c)))) a e)
| c_read_val r p max c got ts a e :
    step (mk_sys r p (CReadVal max c got ts) a e)
         (mk_sys r p (CLoop max (u32 (c + 1)) (got ++ [(ts, value (slot_at r c))])) a e)
| c_abort r p c got a e :
    step (mk_sys r p (CBuilt c got) a e) (mk_sys r p CIdle a e)
| c_commit r p c got a e :
    step (mk_sys r p (CBuilt c got) a e) (mk_sys (set_cons r c) p CIdle a (e ++ got)).

Inductive reachable (s0 : sys) : sys -> Prop :=
| r_refl : reachable s0 s0
| r_step s s' : reachable s0 s -> step s s' -> reachable s0 s'.

Definition start (r : amp_ring) : sys := mk_sys r PIdle CIdle [] [].

(** The emit without interference is the function [amp_ring_emit]. *)
Lemma emit_uninterrupted s0 r ts v c a e :
  reachable s0 (mk_sys r PIdle c a e) -> ring_ok r ->
  reachable s0 (mk_sys (fst (amp_ring_emit r ts v)) PIdle c
    (if snd (amp_ring_emit r ts v) =? 1 then a ++ [emitted ts v] else a) e).
Proof.
  intros H Hok. pose proof (slot_ix_lt r (prod r) Hok) as Hix.
  apply (r_step _ _ _) with (2 := p_load_prod _ ts v _ _ _) in H.
  apply (r_step _ _ _) with (2 := p_load_cons _ _ _ _ _ _ _) in H.
  unfold amp_ring_emit. destruct (Z.leb_spec (capacity r) (u32 (prod r - cons r))) as [Hf|Hf].
  - apply (r_step _ _ _) with (2 := p_full _ _ _ _ _ _ _ _ Hf) in H. exact H.
  - apply (r_step _ _ _) with (2 := p_room _ _ _ _ _ _ _ _ Hf) in H.
    do 5 (eapply r_step in H; [|apply p_store; lia]).
    eapply r_step in H; [|apply p_publish].
    simpl fst. simpl snd. cbn [Z.eqb Pos.eqb].
    match type of H with reachable _ (mk_sys ?x _ _ _ _) =>
      match goal with |- reachable _ (mk_sys ?y _ _ _ _) => replace y with x; [exact H|] end end.
    unfold set_prod, set_slot, slot_at, slot_ix. cbn [magic ring_version capacity rec_size prod cons pad slots].
    fold (slot_ix r (prod r)). f_equal.
    repeat rewrite nth_upd_eq by (rewrite ?length_upd; assumption).
    now rewrite !upd_upd.
Qed.
(** ** The invariant *)

Definition p_ok (r : amp_ring) (p : producer) : Prop :=
  match p with
  | PIdle => True
  | PHasProd _ _ q => q = prod r
  | PHasCons _ _ q c => q = prod r /\ u32 (prod r - cons r) <= u32 (q - c)
  | PWriting ts v q k =>
      q = prod r /\ u32 (prod r - cons r) < capacity r /\ (k <= 5)%nat /\
      exists x, slot_at r q = fold_left (fun x i => store i ts v x) (seq 0 k) x
  end.

(** What the consumer has copied is the front of the pending queue. *)
Definition copied (k0 : Z) (q : list amp_ring_rec) (c : Z) (got : list (Z * Z)) : Prop :=
  c = u32 (k0 + Z.of_nat (length got)) /\ (length got <= length q)%nat /\
  got = map view (firstn (length got) q).

Definition c_ok (k0 : Z) (q : list amp_ring_rec) (s : consumer) : Prop :=
  match s with
  | CIdle => True
  | CLoop _ c got | CBuilt c got => copied k0 q c got
  | CReadTs _ c got => copied k0 q c got /\ (length got < length q)%nat
  | CReadVal _ c got ts => copied k0 q c got /\ (length got < length q)%nat /\
      ts = timestamp (hdr (nth (length got) q rec0))
  end.

Definition sys_ok (s : sys) : Prop :=
  ring_ok (ring s) /\ p_ok (ring s) (prd s) /\
  c_ok (cons (ring s)) (pending (ring s)) (csm s) /\
  exported s ++ map view (pending (ring s)) = map view (accepted s).

Lemma copied_snoc k0 q c got x : copied k0 q c got -> copied k0 (q ++ [x]) c got.
Proof.
  intros (Hc & Hl & Hg). split; [assumption|]. rewrite length_app. split; [lia|].
  rewrite firstn_app. replace (length got - length q)%nat with 0%nat by lia.
  simpl. now rewrite app_nil_r.
Qed.

Lemma c_ok_snoc k0 q s x : c_ok k0 q s -> c_ok k0 (q ++ [x]) s.
Proof.
  assert (Hn : forall n, (n < length q)%nat -> nth n (q ++ [x]) rec0 = nth n q rec0)
    by (intros; now apply app_nth1).
  destruct s; simpl; auto using copied_snoc; rewrite ?length_app.
  - intros [H ?]. split; [now apply copied_snoc|lia].
  - intros (H & ? & ?). rewrite Hn by assumption.
    split; [now apply copied_snoc|]. split; [lia|assumption].
Qed.

Lemma copied_next k0 q c got : copied k0 q c got -> (length got < length q)%nat ->
  copied k0 q (u32 (c + 1)) (got ++ [view (nth (length got) q rec0)]).
Proof.
  intros (-> & _ & Hg) Hlt. unfold copied. rewrite length_app. cbn [length].
  split; [rewrite wrap_add_l; f_equal; lia|]. split; [lia|].
  rewrite Hg at 1. rewrite Nat.add_1_r.
  replace [view (nth (length got) q rec0)] with (map view [nth (length got) q rec0]) by reflexivity.
  rewrite <- map_app. f_equal. clear -Hlt. revert Hlt. generalize (length got). revert q.
  induction q as [|a q IH]; intros [|n] H; simpl in *; try lia; [reflexivity|].
  now rewrite IH by lia.
Qed.

(** A store into the free slot is invisible to the consumer. *)
Lemma store_invisible r x : ring_ok r -> u32 (prod r - cons r) < capacity r ->
  let r' := set_slot r (slot_ix r (prod r)) x in
  ring_ok r' /\ pending r' = pending r /\ slot_at r' (prod r) = x.
Proof.
  intros Hok Hlt r'. split; [|split].
  - destruct Hok. split; simpl; auto. now rewrite length_upd.
  - unfold pending. change (count r') with (count r). apply map_ext_in. intros k Hk%in_seq.
    change (cons r') with (cons r). apply slot_at_write_free; auto. unfold count in Hk. lia.
  - unfold slot_at, r'; simpl. unfold slot_ix; simpl. fold (slot_ix r (prod r)).
    apply nth_upd_eq. now apply slot_ix_lt.
Qed.

Lemma publish_pending r x : ring_ok r -> u32 (prod r - cons r) < capacity r ->
  slot_at r (prod r) = x ->
  let r' := set_prod r (u32 (prod r + 1)) in
  ring_ok r' /\ pending r' = pending r ++ [x].
Proof.
  intros Hok Hlt Hx r'.
  assert (Hid : set_slot r (slot_ix r (prod r)) x = r).
  { unfold set_slot. rewrite upd_id; [now destruct r|]. rewrite <- Hx. unfold slot_at.
    apply nth_error_nth'. now apply slot_ix_lt. }
  split.
  - pose proof (fill_nonneg r). destruct Hok. split; simpl; auto.
    + apply wrap_range; lia.
    + rewrite u32_succ_diff, wrap_small; lia.
  - pose proof (pending_publish r x Hok Hlt) as H. rewrite Hid in H. exact H.
Qed.

(** Consuming moves the producer's view of the fill level down only. *)
Lemma p_ok_consume r n p : ring_ok r -> (n <= count r)%nat -> p_ok r p ->
  p_ok (set_cons r (u32 (cons r + Z.of_nat n))) p.
Proof.
  intros Hok Hn. pose proof (fill_nonneg r) as Hf. unfold count in Hn.
  assert (Hd : u32 (prod r - u32 (cons r + Z.of_nat n)) = u32 (prod r - cons r) - Z.of_nat n).
  { rewrite wrap_sub_r, Z.sub_add_distr, <- wrap_sub_l. apply wrap_small. lia. }
  destruct p; simpl; auto; rewrite Hd.
  - intros [-> ?]. split; [reflexivity|lia].
  - intros (-> & ? & ? & x & Hx). split; [reflexivity|]. split; [lia|]. split; [assumption|].
    now exists x.
Qed.

Lemma seq_fold_S {A} (f : A -> nat -> A) k x :
  fold_left f (seq 0 (S k)) x = f (fold_left f (seq 0 k) x) k.
Proof. rewrite seq_S, fold_left_app. reflexivity. Qed.

Lemma sys_ok_producer s s' : csm s' = csm s -> exported s' = exported s -> step s s' ->
  sys_ok s -> sys_ok s'.
Proof.
  intros Hc He Hst (Hok & Hp & Hcs & Hh); destruct Hst; simpl in *; subst.
  all: try discriminate.
  all: unfold sys_ok; simpl in *.
  - auto.
  - auto using Z.le_refl.
  - auto.
  - destruct Hp as [-> Hle]. split; [assumption|]. split; [|auto].
    split; [reflexivity|]. split; [lia|]. split; [lia|]. now exists (slot_at r (prod r)).
  - destruct Hp as (-> & Hlt & Hk & x & Hx).
    destruct (store_invisible r (store k ts v (slot_at r (prod r))) Hok Hlt) as (Ho & Hpe & Hs).
    rewrite Hpe. split; [exact Ho|]. split; [|split; assumption].
    split; [reflexivity|]. split; [exact Hlt|]. split; [lia|].
    exists x. rewrite Hs, Hx. symmetry. apply (seq_fold_S (fun x i => store i ts v x)).
  - destruct Hp as (-> & Hlt & _ & x & Hx). change (slot_at r (prod r) = emitted ts v) in Hx.
    destruct (publish_pending r _ Hok Hlt Hx) as [Ho Hpe]. rewrite Hpe.
    split; [exact Ho|]. split; [exact I|]. split; [now apply c_ok_snoc|].
    now rewrite !map_app, app_assoc, Hh.
Qed.

Lemma sys_ok_consumer s s' : prd s' = prd s -> accepted s' = accepted s -> step s s' ->
  sys_ok s -> sys_ok s'.
Proof.
  intros Hc He Hst (Hok & Hp & Hcs & Hh); destruct Hst; simpl in *; try discriminate;
    try (injection Hc; lia); unfold sys_ok; simpl in *; try (split; [assumption|split; [assumption|]]).
  - split; [|assumption]. unfold copied. simpl. rewrite Z.add_0_r, wrap_small by apply Hok.
    split; [reflexivity|]. split; [lia|reflexivity].
  - split; [|assumption]. split; [assumption|]. destruct Hcs as (-> & Hl & _).
    rewrite length_pending in *. assert (length got <> count r); [|lia]. intros Hn.
    apply H0, Z.eqb_eq. rewrite counter_meets, Hn by assumption. apply Nat.eqb_refl.
  - now split.
  - destruct Hcs as [Hg Hlt]. split; [|assumption]. split; [assumption|]. split; [assumption|].
    destruct Hg as (-> & _ & _). rewrite nth_pending by (rewrite <- length_pending; assumption).
    reflexivity.
  - destruct Hcs as (Hg & Hlt & ->). split; [|assumption].
    pose proof (copied_next _ _ _ _ Hg Hlt) as Hn. unfold view in Hn at 1.
    destruct Hg as (-> & _ & _).
    rewrite nth_pending in * by (rewrite <- length_pending; assumption). exact Hn.
  - auto.
  - destruct Hcs as (-> & Hl & Hg). rewrite length_pending in Hl.
    destruct (pending_consume r (length got) Hok Hl) as [Ho Hpe].
    split; [exact Ho|]. split; [now apply p_ok_consume|]. split; [exact I|].
    rewrite Hpe, <- Hh, <- app_assoc. f_equal. rewrite Hg at 1. rewrite <- map_app.
    now rewrite firstn_skipn.
Qed.

Lemma sys_ok_step s s' : step s s' -> sys_ok s -> sys_ok s'.
Proof.
  intros Hst. pose proof Hst as Hst'.
  destruct Hst'; (eapply sys_ok_producer; [| |exact Hst]; reflexivity) ||
                 (eapply sys_ok_consumer; [| |exact Hst]; reflexivity).
Qed.

(** C7: under every interleaving of the producer's and the consumer's memory
    accesses, the records exported so far followed by those still pending are
    exactly the accepted emits, in order: nothing is lost, duplicated, reordered
    or read half written. *)
Theorem drain_exactly_once r s : ring_ok r -> pending r = [] -> reachable (start r) s ->
  exported s ++ map view (pending (ring s)) = map view (accepted s) /\ ring_ok (ring s).
Proof.
  intros Hok Hp Hr.
  assert (H : sys_ok s).
  { induction Hr as [|s s' _ IH Hst]; [|now apply (sys_ok_step s)].
    unfold sys_ok, start; simpl. rewrite Hp. auto. }
  destruct H as (Ho & _ & _ & Hh). auto.
Qed.

(** A run with the emit of a second record interleaved into the drain of the first. *)
Lemma drain_exactly_once_witness :
  let r := amp_ring_init sample_ring 2 in
  exists s, reachable (start r) s /\ exported s = [(10, 100)] /\
    accepted s = [emitted 10 100; emitted 11 110] /\
    exported s ++ map view (pending (ring s)) = [(10, 100); (11, 110)].
Proof.
  intros r.
  assert (Hi : ring_ok r /\ pending r = [])
    by (apply amp_ring_init_ok; [lia|exists (2 ^ 31); reflexivity|reflexivity]).
  destruct Hi as [Hok Hp].
  pose proof (emit_uninterrupted (start r) r 10 100 CIdle [] [] (r_refl _) Hok) as H.
  set (r1 := fst (amp_ring_emit r 10 100)) in H.
  assert (Hok1 : ring_ok r1) by now apply ring_ok_emit.
  eapply r_step in H; [|apply (c_start _ _ 1)].
  eapply r_step in H; [|apply c_more; [simpl; lia|vm_compute; discriminate]].
  eapply r_step in H; [|apply c_read_ts].
  apply (emit_uninterrupted _ _ 11 110) in H; [|exact Hok1].
  eapply r_step in H; [|apply c_read_val].
  eapply r_step in H; [|apply c_last; left; reflexivity].
  eapply r_step in H; [|apply c_commit].
  eexists. split; [exact H|].
  pose proof (drain_exactly_once r _ Hok Hp H) as [E _].
  split; [reflexivity|]. split; [reflexivity|]. rewrite E. reflexivity.
Defined.

End Interleave.

(** Fair runs: every accepted record is exported. *)
Module Live.
Import Spsc Ring Drain Interleave.

(** A step of the system, requests that fail included, in which a drain that starts
    asks for at least one record. *)
Definition live_step (s s' : sys) : Prop :=
  step s s' /\ match csm s, csm s' with CIdle, CLoop max _ _ => (0 < max)%nat | _, _ => True end.

(** The step that ends a drain whose request, if it built one, was accepted. *)
Definition committed (s s' : sys) : Prop :=
  exists c got, csm s = CBuilt c got /\ csm s' = CIdle /\ exported s' = exported s ++ got.

(** More than [e0] records are exported, or the drain in progress will export some
    unless its request fails. *)
Definition fruitful (e0 : nat) (s : sys) : Prop :=
  (e0 < length (exported s))%nat \/
  (length (exported s) = e0 /\
   match csm s with
   | CLoop max c got => got = [] -> (0 < max)%nat /\ c = cons (ring s) /\ pending (ring s) <> []
   | CBuilt _ got => got <> []
   | CIdle | CReadTs _ _ _ | CReadVal _ _ _ _ => True
   end).

Lemma cons_ne_prod r : ring_ok r -> pending r <> [] -> cons r <> prod r.
Proof.
  intros Hok Hp E. apply Hp. apply length_zero_iff_nil. rewrite length_pending. unfold count. now rewrite E, Z.sub_diag.
Qed.

Lemma backlog s : sys_ok s -> (length (exported s) < length (accepted s))%nat -> pending (ring s) <> [].
Proof.
  intros (_ & _ & _ & H) L E. rewrite E in H. cbn in H. rewrite app_nil_r in H.
  apply (f_equal (@length _)) in H. rewrite length_map in H. lia.
Qed.

Lemma step_history s s' : step s s' -> (exists l, accepted s' = accepted s ++ l) /\ (exists l, exported s' = exported s ++ l).
Proof.
  intros H; destruct H; cbn [accepted exported]; split; try (eexists; reflexivity); exists []; now rewrite app_nil_r.
Qed.

(** The producer's stores leave the pending records alone, its publication adds one. *)
Lemma fruitful_producer e0 s s' : step s s' -> sys_ok s -> csm s' = csm s -> fruitful e0 s -> fruitful e0 s'.
Proof.
  intros H (Hr & Hp & _) Hc F. pose proof H as Hs. destruct H; cbn [csm] in Hc; try discriminate; try exact F.
  - destruct F as [F|[Fe F]]; [now left|right; split; [exact Fe|]]. cbn [csm ring prd] in *. destruct c; try exact F.
    intros G. destruct (F G) as (F1 & F2 & F3). split; [exact F1|]. split; [exact F2|].
    destruct Hp as (-> & Hlt & _). destruct (store_invisible r (store k ts v (slot_at r (prod r))) Hr Hlt) as (_ & E & _). now rewrite E.
  - destruct F as [F|[Fe F]]; [now left|right; split; [exact Fe|]]. cbn [csm ring prd] in *. destruct c; try exact F.
    intros G. destruct (F G) as (F1 & F2 & F3). split; [exact F1|]. split; [exact F2|].
    destruct Hp as (-> & Hlt & _). destruct (publish_pending r (slot_at r (prod r)) Hr Hlt eq_refl) as [_ E]. rewrite E. now destruct (pending r).
Qed.

Lemma consumer_dec (a b : consumer) : {a = b} + {a <> b}.
Proof. repeat (decide equality; try apply Z.eq_dec). Qed.

(** As long as accepted records are missing, a drain that starts will export some. *)
Lemma fruitful_step e0 s s' : live_step s s' -> sys_ok s -> (e0 < length (accepted s))%nat -> fruitful e0 s -> fruitful e0 s'.
Proof.
  intros [H L] Hok Ha F. destruct (consumer_dec (csm s') (csm s)) as [E|N]; [now apply (fruitful_producer e0 s)|].
  destruct (step_history _ _ H) as [_ [l X]].
  destruct F as [F|[Fe F]]; [left; rewrite X, length_app; lia|].
  pose proof (fun P => backlog s Hok ltac:(rewrite Fe; exact P)) as B. destruct Hok as (Hr & _).
  destruct H; cbn [csm ring exported accepted] in *; try (now destruct N).
  - right. split; [exact Fe|]. intros _. auto.
  - right. split; [exact Fe|]. exact I.
  - right. split; [exact Fe|]. cbn [csm]. intros ->. destruct (F eq_refl) as (F1 & F2 & F3). destruct H as [E|E]; [cbn in E; lia|].
    apply (cons_ne_prod r Hr F3). congruence.
  - right. split; [exact Fe|]. exact I.
  - right. split; [exact Fe|]. cbn [csm]. intros E. destruct got; discriminate.
  - right. split; [exact Fe|]. exact I.
  - left. cbn [exported]. rewrite length_app. destruct got; [now destruct F|]. cbn [length]. lia.
Qed.

Section Run.
Context (r : amp_ring) (run : nat -> sys).
Hypothesis r_ok : ring_ok r.
Hypothesis r_empty : pending r = [].
Hypothesis run_start : run 0%nat = start r.
Hypothesis run_step : forall n, live_step (run n) (run (S n)).
(** Requests may fail any number of times, but again and again a drain ends without
    a failure. *)
Hypothesis answered : forall n, exists m, (n <= m)%nat /\ committed (run m) (run (S m)).

Lemma run_ok n : sys_ok (run n).
Proof.
  induction n as [|n I].
  - rewrite run_start. unfold sys_ok, start; cbn. rewrite r_empty. auto.
  - destruct (run_step n) as [H _]. now apply (sys_ok_step (run n)).
Qed.

Lemma accepted_grows n m : (n <= m)%nat -> exists l, accepted (run m) = accepted (run n) ++ l.
Proof.
  induction 1 as [|m _ [l IH]]; [exists []; now rewrite app_nil_r|].
  destruct (run_step m) as [H _]. destruct (proj1 (step_history _ _ H)) as [l' E]. exists (l ++ l'). now rewrite E, IH, app_assoc.
Qed.

Lemma exported_grows n m : (n <= m)%nat -> (length (exported (run n)) <= length (exported (run m)))%nat.
Proof.
  induction 1 as [|m _ IH]; [lia|]. destruct (run_step m) as [H _]. destruct (proj2 (step_history _ _ H)) as [l E].
  rewrite E, length_app. lia.
Qed.

Lemma fruitful_on e0 n m : (n <= m)%nat -> (e0 < length (accepted (run n)))%nat -> fruitful e0 (run n) -> fruitful e0 (run m).
Proof.
  intros L Ha F. induction L as [|m L IH]; [exact F|]. destruct (accepted_grows n m L) as [l Ea].
  apply (fruitful_step e0 (run m)); [apply run_step|apply run_ok|rewrite Ea, length_app; lia|exact IH].
Qed.

(** The second drain that ends without a failure exports something. *)
Lemma drain_advances n : (length (exported (run n)) < length (accepted (run n)))%nat ->
  exists m, (n <= m)%nat /\ (length (exported (run n)) < length (exported (run m)))%nat.
Proof.
  intros L. destruct (answered n) as (m1 & L1 & c1 & g1 & _ & I1 & X1). destruct (answered (S m1)) as (m2 & L2 & c2 & g2 & B2 & _ & X2).
  destruct (Nat.le_gt_cases (length (exported (run (S m1)))) (length (exported (run n)))) as [E|E]; [|exists (S m1); lia].
  pose proof (exported_grows n (S m1) ltac:(lia)). destruct (accepted_grows n (S m1) ltac:(lia)) as [l Ea].
  assert (F : fruitful (length (exported (run n))) (run (S m1))) by (right; rewrite I1; split; [lia|exact I]).
  apply (fruitful_on _ (S m1) m2 ltac:(lia)) in F; [|rewrite Ea, length_app; lia].
  destruct F as [F|[F1 F2]]; [exists m2; lia|]. rewrite B2 in F2. exists (S m2). split; [lia|]. rewrite X2, length_app.
  destruct g2; [contradiction|]. cbn [length]. lia.
Qed.

Lemma drained_up_to a d k : (a - length (exported (run k)) <= d)%nat -> (a <= length (accepted (run k)))%nat ->
  exists m, (k <= m)%nat /\ (a <= length (exported (run m)))%nat.
Proof.
  revert k. induction d as [|d IH]; intros k Hd Ha; [exists k; split; lia|].
  destruct (Nat.le_gt_cases a (length (exported (run k)))) as [H|H]; [now exists k|].
  destruct (drain_advances k ltac:(lia)) as (m & Lm & He). destruct (accepted_grows k m ltac:(lia)) as [l Ea].
  destruct (IH m ltac:(lia) ltac:(rewrite Ea, length_app; lia)) as (m' & Lm' & Hm'). exists m'. split; [lia|exact Hm'].
Qed.


End Run.

(** *** A run: one emit, a drain whose request fails, then drains that succeed *)

Definition consumer_turn (fails : bool) (s : sys) : sys :=
  let r := ring s in
  match csm s with
  | CIdle => mk_sys r (prd s) (CLoop 1 (cons r) []) (accepted s) (exported s)
  | CLoop max c got =>
      if (length got <? max)%nat && negb (c =? prod r) then mk_sys r (prd s) (CReadTs max c got) (accepted s) (exported s)
      else mk_sys r (prd s) (CBuilt c got) (accepted s) (exported s)
  | CReadTs max c got => mk_sys r (prd s) (CReadVal max c got (timestamp (hdr (slot_at r c)))) (accepted s) (exported s)
  | CReadVal max c got ts => mk_sys r (prd s) (CLoop max (u32 (c + 1)) (got ++ [(ts, value (slot_at r c))])) (accepted s) (exported s)
  | CBuilt c got => if fails then mk_sys r (prd s) CIdle (accepted s) (exported s)
                    else mk_sys (set_cons r c) (prd s) CIdle (accepted s) (exported s ++ got)
  end.

Definition turn (n : nat) (s : sys) : sys :=
  let r := ring s in
  match prd s with
  | PIdle => match accepted s with
             | [] => mk_sys r (PHasProd 10 100 (prod r)) (csm s) (accepted s) (exported s)
             | _ => consumer_turn (n <? 20)%nat s
             end
  | PHasProd ts v p => mk_sys r (PHasCons ts v p (cons r)) (csm s) (accepted s) (exported s)
  | PHasCons ts v p k =>
      mk_sys r (if capacity r <=? u32 (p - k) then PIdle else PWriting ts v p 0) (csm s) (accepted s) (exported s)
  | PWriting ts v p k =>
      if (k <? 5)%nat
      then mk_sys (set_slot r (slot_ix r p) (store k ts v (slot_at r p))) (PWriting ts v p (S k)) (csm s) (accepted s) (exported s)
      else mk_sys (set_prod r (u32 (p + 1))) PIdle (csm s) (accepted s ++ [emitted ts v]) (exported s)
  end.

Fixpoint sample_run (n : nat) : sys :=
  match n with O => start (amp_ring_init sample_ring 2) | S m => turn m (sample_run m) end.

(** The drain never holds more than its maximum, and a record has five stores. *)
Definition bounded (s : sys) : Prop :=
  match csm s with
  | CLoop max _ got => (length got <= max)%nat
  | CReadTs max _ got | CReadVal max _ got _ => (length got < max)%nat
  | _ => True
  end /\ match prd s with PWriting _ _ _ k => (k <= 5)%nat | _ => True end.

Lemma bounded_step s s' : live_step s s' -> bounded s -> bounded s'.
Proof.
  intros [H _] [B W]; destruct H; split; cbn [csm prd] in *; auto; try (cbn; lia). rewrite length_app. cbn [length]. lia.
Qed.

Lemma consumer_turn_live fails s : bounded s -> live_step s (consumer_turn fails s).
Proof.
  intros [B _]. destruct s as [r p c a e]. unfold consumer_turn. cbn [ring prd csm accepted exported] in *.
  destruct c as [|max c got|max c got|max c got ts|c got].
  - split; [apply c_start|cbn; lia].
  - destruct (Nat.ltb_spec (length got) max) as [L|L]; cbn [andb negb].
    + destruct (Z.eqb_spec c (prod r)) as [E|E]; cbn [andb negb].
      * split; [apply c_last; now right|exact I].
      * split; [now apply c_more|exact I].
    + split; [apply c_last; left; lia|exact I].
  - split; [apply c_read_ts|exact I].
  - split; [apply c_read_val|exact I].
  - destruct fails; split; [apply c_abort|exact I|apply c_commit|exact I].
Qed.

Lemma turn_live n s : bounded s -> live_step s (turn n s).
Proof.
  intros B. unfold turn. destruct (prd s) as [|ts v p|ts v p k|ts v p k] eqn:Ep.
  - destruct (accepted s) as [|x a] eqn:Ea; [|now apply consumer_turn_live].
    destruct s as [r p c a e]. cbn in *. subst. split; [apply p_load_prod|cbn; destruct c; auto].
  - destruct s as [r p' c a e]. cbn in *. subst. split; [apply p_load_cons|cbn; destruct c; auto].
  - destruct s as [r p' c a e]. cbn in *. subst. destruct (Z.leb_spec (capacity r) (u32 (p - k)));
      (split; [now apply p_full || now apply p_room|cbn; destruct c; auto]).
  - destruct B as [_ W]. destruct s as [r p' c a e]. cbn [ring prd csm accepted exported] in *. subst. destruct (Nat.ltb_spec k 5).
    + split; [now apply p_store|cbn; destruct c; auto].
    + replace k with 5%nat by lia. split; [apply p_publish|cbn; destruct c; auto].
Qed.

Lemma sample_run_live n : bounded (sample_run n) /\ live_step (sample_run n) (sample_run (S n)).
Proof.
  induction n as [|n [B L]]; [|apply (bounded_step _ _ L) in B]; (split; [|apply turn_live]); try assumption; split; exact I.
Qed.

(** From the 21st step on the run repeats three steps. *)
Lemma turn_late j s : (20 <= j)%nat -> turn j s = turn 20 s.
Proof. intros Hj. unfold turn. now replace (j <? 20)%nat with false by (symmetry; apply Nat.ltb_ge; lia). Qed.

Definition settled : sys := Eval vm_compute in sample_run 21.

Lemma settled_reached : sample_run 21 = settled.
Proof. vm_compute. reflexivity. Qed.

Lemma settled_cycle : turn 20 (turn 20 (turn 20 settled)) = settled.
Proof. vm_compute. reflexivity. Qed.

Lemma settled_commits : committed (turn 20 (turn 20 settled)) settled.
Proof. do 2 eexists. vm_compute. repeat split. Qed.

Lemma run_three n : (20 <= n)%nat -> sample_run (S (S (S n))) = turn 20 (turn 20 (turn 20 (sample_run n))) /\
  sample_run (S (S n)) = turn 20 (turn 20 (sample_run n)).
Proof.
  intros H. cbn [sample_run]. rewrite (turn_late n), (turn_late (S n)), (turn_late (S (S n))) by lia. split; reflexivity.
Qed.

Lemma sample_run_cycle k : exists n, (k <= n)%nat /\ (20 <= n)%nat /\ sample_run n = settled.
Proof.
  induction k as [|k (n & L & G & IH)]; [exists 21%nat; split; [lia|]; split; [lia|exact settled_reached]|].
  exists (S (S (S n))). split; [lia|]. split; [lia|]. destruct (run_three n G) as [-> _]. rewrite IH. exact settled_cycle.
Qed.


End Live.
