(* ===== verification/AgentRecords.v ===== *)
(** * Records of the export agent and what is derived from them

    The records a drain reads ([record_mirror_gen.h]) and the values the agent derives
    from them ([src/runtime/otlp/otlp_agent.c]):
    - [Rec]: the records of the six span channels and their readers;
    - [Derive]: peer addresses, TCP states, DNS names, Redis commands, the incoming
      trace context, and the clamped off-CPU times;
    - [Stack]: the symbol table, the kind of a wait and its printed stack;
    - [Names]: what the DNS and Redis parsers recover from a well-formed packet. *)

From Stdlib Require Import Sorting.Sorted Permutation.
From S2P Require Import Prelude Bytes CText CgText OtlpMetrics OtlpTraces RecordSchema.
Import HttpRecord Fields.

(** Bytes of a record as characters. *)
Definition chars (bs : list Z) : text := map chr bs.

Module Rec.
Import Schema.

Record spnl_rec_conn_t := mk_conn {
  co_ts : Z; co_pid : Z; co_comm : text; co_daddr : list Z; co_dport : Z; co_family : Z; co_srtt_us : Z; co_cgid : Z;
  co_oldstate : Z; co_daddr6_hi : list Z; co_daddr6_lo : list Z }.

Record spnl_rec_dns_t := mk_dns {
  dn_ts : Z; dn_pid : Z; dn_comm : text; dn_raw : text; dn_cgid : Z; dn_duration_ns : Z; dn_raw_status : Z }.

Record spnl_rec_l7_t := mk_l7 {
  l7_ts : Z; l7_pid : Z; l7_comm : text; l7_daddr : list Z; l7_dport : Z; l7_family : Z; l7_start_ktime : Z;
  l7_duration_ns : Z; l7_cgid : Z }.

(** The HTTP and the Redis record have the same fields. *)
Record spnl_rec_http_t := mk_http {
  ht_ts : Z; ht_pid : Z; ht_comm : text; ht_daddr : list Z; ht_dport : Z; ht_family : Z; ht_start_ktime : Z;
  ht_duration_ns : Z; ht_req : text; ht_resp : text; ht_cgid : Z }.

Record spnl_rec_offcpu_t := mk_offcpu {
  oc_ts : Z; oc_pid : Z; oc_comm : text; oc_duration_ns : Z; oc_offcpu_ns : Z; oc_wait_stack : Z; oc_req : text;
  oc_resp : text; oc_cgid : Z; oc_start_ktime : Z; oc_hdr_ext : text }.

(** The time stamp of [struct spnl_event_hdr]. *)
Definition hdr_timestamp (hdr : list Z) : Z := le_dec (slice 8 8 hdr).

Definition comm_of (bs : list Z) : text := cstr (chars bs).

Definition spnl_rec_conn_unpack (data : list Z) : option spnl_rec_conn_t :=
  match unpack cc_rec_conn data with
  | Some [hdr; pid; comm; daddr; dport; family; srtt_us; cgid; oldstate; hi; lo] =>
      Some (mk_conn (hdr_timestamp hdr) (le_dec pid) (comm_of comm) daddr (le_dec dport) (le_dec family)
              (sgn 64 (le_dec srtt_us)) (le_dec cgid) (le_dec oldstate) hi lo)
  | _ => None
  end.

Definition spnl_rec_dns_unpack (data : list Z) : option spnl_rec_dns_t :=
  match unpack cc_rec_dns data with
  | Some [hdr; pid; comm; raw; cgid; duration; status] =>
      Some (mk_dns (hdr_timestamp hdr) (le_dec pid) (comm_of comm) (chars raw) (le_dec cgid) (le_dec duration)
              (sgn 32 (le_dec status)))
  | _ => None
  end.

Definition spnl_rec_l7_unpack (data : list Z) : option spnl_rec_l7_t :=
  match unpack cc_rec_l7 data with
  | Some [hdr; pid; comm; daddr; dport; family; start; duration; cgid] =>
      Some (mk_l7 (hdr_timestamp hdr) (le_dec pid) (comm_of comm) daddr (le_dec dport) (le_dec family) (le_dec start)
              (le_dec duration) (le_dec cgid))
  | _ => None
  end.

Definition http_like (s : CcRecSchema) (data : list Z) : option spnl_rec_http_t :=
  match unpack s data with
  | Some [hdr; pid; comm; daddr; dport; family; start; duration; req; resp; cgid] =>
      Some (mk_http (hdr_timestamp hdr) (le_dec pid) (comm_of comm) daddr (le_dec dport) (le_dec family) (le_dec start)
              (le_dec duration) (chars req) (chars resp) (le_dec cgid))
  | _ => None
  end.

Definition spnl_rec_http_unpack : list Z -> option spnl_rec_http_t := http_like cc_rec_http.
Definition spnl_rec_redis_unpack : list Z -> option spnl_rec_http_t := http_like cc_rec_redis.

Definition spnl_rec_offcpu_unpack (data : list Z) : option spnl_rec_offcpu_t :=
  match unpack cc_rec_offcpu data with
  | Some [hdr; pid; comm; duration; offcpu; stack; req; resp; cgid; start; ext] =>
      Some (mk_offcpu (hdr_timestamp hdr) (le_dec pid) (comm_of comm) (le_dec duration) (le_dec offcpu) (sgn 32 (le_dec stack))
              (chars req) (chars resp) (le_dec cgid) (le_dec start) (chars ext))
  | _ => None
  end.

End Rec.
Import Rec.

Module Derive.

(** ** Addresses *)

(** [inet_ntop(AF_INET, ...)] of four bytes in memory order. *)
Definition inet_ntop4 (b : list Z) : text :=
  dec_u (nth 0 b 0) ++ lit "." ++ dec_u (nth 1 b 0) ++ lit "." ++ dec_u (nth 2 b 0) ++ lit "." ++ dec_u (nth 3 b 0).

(** ["%x"] of a 16-bit word. *)
Definition hex16 (w : Z) : text :=
  let d k := hexdigit (Z.land (Z.shiftr w (4 * k)) 15) in
  if w <? 16 then [d 0] else if w <? 256 then [d 1; d 0] else if w <? 4096 then [d 2; d 1; d 0] else [d 3; d 2; d 1; d 0].

Definition words6 (b : list Z) : list Z := map (fun i => 256 * nth (2 * i) b 0 + nth (2 * i + 1) b 0) (seq 0 8).

(** The longest run of zero words (the first of equal ones): its start and length. *)
Definition longer (best : nat * nat) (cur : option (nat * nat)) : nat * nat :=
  match cur with Some (b, l) => if (snd best <? l)%nat then (b, l) else best | None => best end.

Fixpoint zero_run (i : nat) (ws : list Z) (cur : option (nat * nat)) (best : nat * nat) : nat * nat :=
  match ws with
  | [] => longer best cur
  | w :: ws' =>
      if w =? 0 then zero_run (S i) ws' (Some (match cur with Some (b, l) => (b, S l) | None => (i, 1%nat) end)) best
      else zero_run (S i) ws' None (longer best cur)
  end.

(** One word with the colon before it, inside or outside the run. *)
Definition word6 (base len : nat) (iw : nat * Z) : text :=
  let '(i, w) := iw in
  if (2 <=? len)%nat && (base <=? i)%nat && (i <? base + len)%nat then (if (i =? base)%nat then lit ":" else [])
  else (if (i =? 0)%nat then [] else lit ":") ++ hex16 w.

(** [inet_ntop(AF_INET6, ...)] of sixteen bytes, as the C library prints it. *)
Definition inet_ntop6 (b : list Z) : text :=
  let ws := words6 b in
  let '(base, len) := zero_run 0 ws None (0%nat, 0%nat) in
  let item i := word6 base len (i, nth i ws 0) in
  if (base =? 0)%nat && ((len =? 6)%nat || ((len =? 5)%nat && (nth 5 ws 0 =? 0xffff)))
  then flat_map item (seq 0 6) ++ lit ":" ++ inet_ntop4 (skipn 12 b)
  else flat_map item (seq 0 8) ++ (if (2 <=? len)%nat && (base + len =? 8)%nat then lit ":" else []).

Definition conn_peer_addr (r : spnl_rec_conn_t) : text :=
  if negb (co_family r =? 10) then inet_ntop4 (co_daddr r) else inet_ntop6 (co_daddr6_hi r ++ co_daddr6_lo r).

Definition spnl_conn_peer (r : spnl_rec_conn_t) (cap : nat) : text :=
  trunc cap (conn_peer_addr r ++ lit ":" ++ dec_u (co_dport r)).

(** The peer text of the channels that carry no IPv6 address. *)
Definition peer4 (family : Z) (daddr : list Z) : text :=
  if family =? 10 then lit "(ipv6 not carried)" else inet_ntop4 daddr.

Definition tcp_states : list string :=
  ["ESTABLISHED"; "SYN_SENT"; "SYN_RECV"; "FIN_WAIT1"; "FIN_WAIT2"; "TIME_WAIT"; "CLOSE"; "CLOSE_WAIT"; "LAST_ACK"; "LISTEN";
   "CLOSING"; "NEW_SYN_RECV"; "BOUND_INACTIVE"]%string.

Definition spnl_valmap_tcp_state (v : Z) (cap : nat) : text :=
  trunc cap (match (if 1 <=? v then nth_error tcp_states (Z.to_nat (v - 1)) else None) with
             | Some n => lit n
             | None => lit "unnamed(" ++ dec_s v ++ lit ")"
             end).

Definition spnl_recd_conn_srtt_us_val (r : spnl_rec_conn_t) : Z := Z.shiftr (co_srtt_us r) 3.

(** ** Off-CPU time, clamped to the window *)

Definition spnl_recd_offcpu_offcpu_ns_val (r : spnl_rec_offcpu_t) : Z :=
  sgn 64 (if oc_offcpu_ns r <? oc_duration_ns r then oc_offcpu_ns r else oc_duration_ns r).

Definition spnl_recd_offcpu_oncpu_ns_val (r : spnl_rec_offcpu_t) : Z :=
  sgn 64 (u64 (oc_duration_ns r - u64 (spnl_recd_offcpu_offcpu_ns_val r))).

(** ** DNS names *)

Section Qname.
Variables (raw : text) (cap : nat).

Definition byte_at (off : nat) : ascii := nth off raw "000"%char.

(** The inner loop: up to [k] bytes of a label. *)
Fixpoint copy_label (k off : nat) (out : text) : nat * text :=
  match k with
  | O => (off, out)
  | S k' =>
      if (off <? 64)%nat && (length out <? cap - 1)%nat then copy_label k' (S off) (out ++ [byte_at off]) else (off, out)
  end.

(** The outer loop; the offset grows with every turn, so 60 turns are enough. *)
Fixpoint qname_loop (fuel off : nat) (out : text) : text :=
  match fuel with
  | O => out
  | S fuel' =>
      if (off <? 60)%nat && (length out <? cap - 1)%nat then
        let l := code (byte_at off) in
        if (l =? 0) || (63 <? l) then out
        else let '(off, out) := copy_label (Z.to_nat l) (S off) out in qname_loop fuel' off (out ++ ["."%char])
      else out
  end.

(** [if (o > 0 && out[o-1] == '.') o--;] *)
Definition drop_dot (s : text) : text :=
  match rev s with c :: r => if Ascii.eqb c "." then rev r else s | [] => [] end.

Definition spnl_dns_qname : text := cstr (drop_dot (qname_loop 60 12 [])).

End Qname.

(** ** Redis commands *)

(** [while (i < n && req[i] != '\n') i++; i++;] *)
Definition next_line (s : text) : text := match split_at "010" s with Some (_, r) => r | None => [] end.

(** [$<length>] and the rest of its line. *)
Definition bulk_length (s : text) : option (Z * text) :=
  match s with
  | c :: s' =>
      if Ascii.eqb c "$" then
        let '(d, r) := digits s' in
        match d with [] => None | _ => Some (dec_val d, next_line r) end
      else None
  | [] => None
  end.

(** The bytes of one element that fit a buffer of [cap], and what follows them. *)
Definition take_bulk (l : Z) (cap : nat) (s : text) : text * text :=
  let n := Nat.min (Z.to_nat (Z.min l (Z.of_nat (length s)))) (cap - 1) in (firstn n s, skipn n s).

Definition upcase (c : ascii) : ascii := if (97 <=? code c) && (code c <=? 122) then chr (code c - 32) else c.
Definition mask (c : ascii) : ascii := if printable c then c else "."%char.

Definition redis_parse_cmd_key (req : text) (cmdcap keycap : nat) : text * text :=
  match req with
  | c :: _ =>
      if (length req <? 4)%nat || negb (Ascii.eqb c "*") then ([], [])
      else
        match bulk_length (next_line req) with
        | None => ([], [])
        | Some (l1, s) =>
            let '(cmd, s) := take_bulk l1 cmdcap s in
            let cmd := cstr (map upcase cmd) in
            match bulk_length (next_line s) with
            | None => (cmd, [])
            | Some (l2, s) => (cmd, map mask (fst (take_bulk l2 keycap s)))
            end
        end
  | [] => ([], [])
  end.

(** ** The trace context of a request head *)

Definition downcase (c : ascii) : ascii := if (65 <=? code c) && (code c <=? 90) then chr (code c + 32) else c.

Definition blank (c : ascii) : bool := (code c =? 32) || (code c =? 9).

(** Printable characters, at most [room] of them. *)
Fixpoint header_value (room : nat) (s : text) : text :=
  match room, s with
  | S room', c :: s' => if printable c then c :: header_value room' s' else []
  | _, _ => []
  end.

Fixpoint find_header (key : text) (s : text) : option text :=
  match strip_prefix key (map downcase s) with
  | Some r => Some (skipn (length key) s)
  | None => match s with [] => None | _ :: s' => find_header key s' end
  end.

(** [None] when there is no such header or its value is empty. *)
Definition otlp_find_traceparent (buf : text) (outcap : nat) : option text :=
  match find_header (lit "traceparent:") buf with
  | None => None
  | Some r => match header_value (outcap - 1) (drop_while blank r) with [] => None | v => Some v end
  end.

End Derive.
Import Derive.

Module Stack.

(** ** The kernel's symbols *)

(** [sscanf(line, "%llx %c %127s")] on the lines of [/proc/kallsyms], which are plain
    hexadecimal: address and name (kept to 55 characters). *)
Definition hexdigits_val (s : text) : Z := fold_left (fun a c => 16 * a + hexval c) s 0.

Fixpoint hex_run (s : text) : text * text :=
  match s with
  | c :: s' => if 0 <=? hexval c then let '(a, b) := hex_run s' in (c :: a, b) else ([], s)
  | [] => ([], [])
  end.

Fixpoint word_run (s : text) : text :=
  match s with c :: s' => if is_space c then [] else c :: word_run s' | [] => [] end.

Definition kallsyms_line (line : text) : option (Z * text) :=
  match hex_run (drop_while is_space line) with
  | ([], _) => None
  | (a, s) =>
      match drop_while is_space s with
      | _ :: s' =>
          match firstn 127 (word_run (drop_while is_space s')) with
          | [] => None
          | nm => Some (u64 (hexdigits_val a), firstn 55 nm)
          end
      | [] => None
      end
  end.

Fixpoint keep_some {A} (l : list (option A)) : list A :=
  match l with [] => [] | Some x :: l' => x :: keep_some l' | None :: l' => keep_some l' end.

Section Table.

(** The library's sort by address. *)
Variable qsort : list (Z * text) -> list (Z * text).

Definition OC_SYMS_CAP : nat := Z.to_nat 200000.

(** [_oc_load_kallsyms]; [None]: the file cannot be opened. *)
Definition _oc_load_kallsyms (lines : option (list text)) : list (Z * text) :=
  match lines with
  | None => []
  | Some ls => qsort (firstn OC_SYMS_CAP (keep_some (map kallsyms_line ls)))
  end.

End Table.

Section Symbols.
Variable syms : list (Z * text).

Definition sym_at (m : Z) : Z * text := nth (Z.to_nat m) syms (0, []).

(** The binary search; [r] is the last entry not above [pc] so far. *)
Fixpoint search (fuel : nat) (pc lo hi r : Z) : Z :=
  match fuel with
  | O => r
  | S f =>
      if lo <=? hi then
        let m := (lo + hi) / 2 in
        if fst (sym_at m) <=? pc then search f pc (m + 1) hi m else search f pc lo (m - 1) r
      else r
  end.

Definition _oc_sym_of (pc : Z) : text :=
  let r := search (S (length syms)) pc 0 (Z.of_nat (length syms) - 1) (-1) in
  if 0 <=? r then snd (sym_at r) else lit "?".

(** ** The frames of a wait *)

Definition OC_MAX_PCS : nat := 127.

(** [lookup] reads the stack map: [None] when there is no object, no map or no entry. *)
Inductive frames := NoStack | Unreadable | Frames (pcs : list Z).

Fixpoint leading (n : nat) (pcs : list Z) : list Z :=
  match n, pcs with
  | S n', pc :: pcs' => if pc =? 0 then [] else pc :: leading n' pcs'
  | _, _ => []
  end.

Definition _oc_frames (lookup : Z -> option (list Z)) (sid : Z) : frames :=
  if sid <? 0 then NoStack
  else match syms, lookup sid with
       | [], _ | _, None => Unreadable
       | _, Some pcs => match leading OC_MAX_PCS pcs with [] => NoStack | l => Frames l end
       end.

Definition has (s : text) (p : string) : bool := match strstr s (lit p) with Some _ => true | None => false end.

(** What one frame says about the wait. *)
Definition frame_kind (s : text) : option text :=
  if existsb (has s) ["io_schedule"; "folio_wait"; "wait_on_page"; "jbd2"; "blk_"; "submit_bio"]%string then Some (lit "io")
  else if has s "futex" then Some (lit "lock")
  else if existsb (has s) ["nanosleep"; "hrtimer_"; "schedule_timeout"; "do_sys_poll"; "do_epoll"]%string then Some (lit "sleep")
  else if existsb (has s) ["sk_wait"; "tcp_recv"; "inet_"]%string then Some (lit "net")
  else None.

Fixpoint classify_frames (pcs : list Z) : text :=
  match pcs with
  | [] => lit "other"
  | pc :: pcs' => match frame_kind (_oc_sym_of pc) with Some k => k | None => classify_frames pcs' end
  end.

Definition _oc_classify (f : frames) : text :=
  match f with Unreadable => lit "unknown" | NoStack => lit "none" | Frames pcs => classify_frames pcs end.

Definition OC_STACK_FRAMES_MAX : Z := 8.

Definition _oc_stack_frames (getenv : text -> option text) : Z :=
  let v := match getenv (lit "SPNL_STACK_FRAMES") with Some (c :: e) => atoi_int (c :: e) | _ => 0 end in
  Z.min (Z.max v 0) OC_STACK_FRAMES_MAX.

(** The loop of [_oc_render]: a name that does not fit ends it. *)
Fixpoint render_loop (pcs : list Z) (cap : nat) (out : text) : text :=
  match pcs with
  | [] => out
  | pc :: pcs' =>
      let w := (match out with [] => [] | _ => lit ";" end) ++ _oc_sym_of pc in
      if (cap - length out <=? length w)%nat then out else render_loop pcs' cap (out ++ w)
  end.

Definition _oc_render (want : Z) (f : frames) (cap : nat) : text :=
  match f with
  | Frames pcs => if want <=? 0 then [] else render_loop (firstn (Z.to_nat want) pcs) cap []
  | _ => []
  end.

End Symbols.

Definition spnl_offcpu_wait_kind (syms : list (Z * text)) (lookup : Z -> option (list Z)) (r : spnl_rec_offcpu_t) (cap : nat) : text :=
  trunc cap (_oc_classify syms (_oc_frames syms lookup (oc_wait_stack r))).

Definition spnl_offcpu_wait_stack (syms : list (Z * text)) (lookup : Z -> option (list Z)) (getenv : text -> option text)
  (r : spnl_rec_offcpu_t) (cap : nat) : text :=
  _oc_render syms (_oc_stack_frames getenv) (_oc_frames syms lookup (oc_wait_stack r)) cap.

(** ** The search finds the nearest symbol *)

Definition by_address (a b : Z * text) : Prop := fst a <= fst b.

Lemma firstn_S_nth_error {A} (l : list A) k x : nth_error l k = Some x -> firstn (S k) l = firstn k l ++ [x].
Proof. revert k. induction l as [|y l IH]; intros [|k] H; cbn in *; try discriminate; [congruence|]. now rewrite <- IH. Qed.

Section Search.
Variable syms : list (Z * text).
Hypothesis sorted : StronglySorted by_address syms.
Variable pc : Z.

Let below (s : Z * text) : bool := fst s <=? pc.

Lemma below_prefix : exists k, filter below syms = firstn k syms /\ (k <= length syms)%nat /\
  forall i, (i < length syms)%nat -> below (nth i syms (0, [])) = (i <? k)%nat.
Proof.
  induction sorted as [|s l Ss IH F]; [exists O; cbn; repeat split; lia|].
  cbn [filter]. destruct (below s) eqn:B.
  - destruct (IH Ss) as (k & Ek & Lk & Hk). exists (S k). cbn [firstn length]. rewrite Ek. repeat split; [lia|].
    intros [|i] Hi; cbn [nth]; [exact B|]. rewrite Hk by lia. reflexivity.
  - exists O. assert (N : forall x, In x l -> below x = false).
    { intros x Hx. rewrite Forall_forall in F. specialize (F x Hx). unfold below, by_address in *. apply Z.leb_gt in B. apply Z.leb_gt. lia. }
    repeat split; [|lia|].
    + cbn [firstn]. clear -N. induction l as [|x l IH]; [reflexivity|]. cbn. rewrite (N x (or_introl eq_refl)). apply IH. intros; apply N; now right.
    + intros [|i] Hi; cbn [nth]; [exact B|]. apply N, nth_In. cbn in Hi. lia.
Qed.

Lemma search_finds k : (forall i, (i < length syms)%nat -> below (nth i syms (0, [])) = (i <? k)%nat) ->
  forall fuel lo hi, 0 <= lo <= Z.of_nat k -> Z.of_nat k - 1 <= hi < Z.of_nat (length syms) -> hi - lo < Z.of_nat fuel ->
  search syms fuel pc lo hi (lo - 1) = Z.of_nat k - 1.
Proof.
  intros Hk. induction fuel as [|f IH]; intros lo hi Hlo Hhi Hf; cbn [search]; [lia|].
  destruct (Z.leb_spec lo hi) as [L|L]; [|lia]. set (m := (lo + hi) / 2).
  assert (Hm : lo <= m <= hi) by (split; [apply Z.div_le_lower_bound; lia|apply Z.div_le_upper_bound; lia]).
  pose proof (Hk (Z.to_nat m) ltac:(lia)) as B. unfold below in B. unfold sym_at at 1. rewrite B.
  destruct (Nat.ltb_spec (Z.to_nat m) k).
  - replace (search syms f pc (m + 1) hi m) with (search syms f pc (m + 1) hi (m + 1 - 1)) by (f_equal; lia). apply IH; lia.
  - apply IH; lia.
Qed.

Lemma sym_of_nearest : _oc_sym_of syms pc = last (map snd (filter below syms)) (lit "?").
Proof.
  destruct below_prefix as (k & Ek & Lk & Hk). unfold _oc_sym_of.
  replace (-1) with (0 - 1) by lia. rewrite (search_finds k Hk) by lia. rewrite Ek. destruct k as [|k]; [reflexivity|].
  destruct (Z.leb_spec 0 (Z.of_nat (S k) - 1)); [|lia]. unfold sym_at.
  replace (Z.to_nat (Z.of_nat (S k) - 1)) with k by lia.
  destruct (nth_error_lt syms k Lk) as [x Hx]. rewrite (nth_error_nth _ _ _ Hx).
  rewrite (firstn_S_nth_error _ _ _ Hx), map_app. cbn [map]. now rewrite last_last.
Qed.

End Search.

(** ** The printed stack explains the kind *)

Definition named (syms : list (Z * text)) : Prop := Forall (fun s => (1 <= length (snd s) <= 55)%nat) syms.

Lemma sym_length syms pc : named syms -> (1 <= length (_oc_sym_of syms pc) <= 55)%nat.
Proof.
  intros H. unfold _oc_sym_of. case_if; [|cbn; lia]. unfold sym_at.
  destruct (Nat.lt_ge_cases (Z.to_nat (search syms (S (length syms)) pc 0 (Z.of_nat (length syms) - 1) (-1))) (length syms)) as [L|L].
  - pose proof (proj1 (Forall_forall _ _) H _ (nth_In syms (0, []) L)) as G. exact G.
  - exfalso. revert L. apply Nat.lt_nge.
    assert (G : forall fuel lo hi r, 0 <= lo -> r < Z.of_nat (length syms) -> hi < Z.of_nat (length syms) ->
                search syms fuel pc lo hi r < Z.of_nat (length syms)).
    { induction fuel as [|f IH]; intros lo hi r Hl Hr Hh; cbn [search]; [exact Hr|].
      destruct (Z.leb_spec lo hi); [|exact Hr]. set (m := (lo + hi) / 2).
      assert (Hm : lo <= m <= hi) by (split; [apply Z.div_le_lower_bound; lia|apply Z.div_le_upper_bound; lia]).
      case_if; apply IH; lia. }
    destruct syms as [|s0 syms'] eqn:Es; [cbn in E; discriminate|]. rewrite <- Es in *.
    specialize (G (S (length syms)) 0 (Z.of_nat (length syms) - 1) (-1) ltac:(lia) ltac:(lia) ltac:(lia)). lia.
Qed.

Lemma render_whole syms pcs : named syms -> (length pcs <= 8)%nat ->
  render_loop syms pcs 448 [] = join ";" (map (_oc_sym_of syms) pcs).
Proof.
  intros N L. pose proof (fun pc => sym_length syms pc N) as SL.
  assert (G : forall pcs out, (length out + 56 * length pcs < 448)%nat -> out <> [] ->
              render_loop syms pcs 448 out = out ++ flat_map (fun pc => ";"%char :: _oc_sym_of syms pc) pcs).
  { clear pcs L. induction pcs as [|pc pcs IH]; intros out Ho Hn; cbn [render_loop flat_map]; [now rewrite app_nil_r|].
    pose proof (SL pc). cbn [length] in Ho. destruct out as [|c out]; [congruence|].
    change (lit ";" ++ _oc_sym_of syms pc) with (";"%char :: _oc_sym_of syms pc).
    destruct (Nat.leb_spec (448 - length (c :: out)) (length (";"%char :: _oc_sym_of syms pc))) as [B|B]; [cbn [length] in *; lia|].
    rewrite IH; [|rewrite length_app; cbn [length] in *; lia|discriminate]. now rewrite <- app_assoc. }
  destruct pcs as [|pc pcs]; [reflexivity|]. cbn [render_loop app]. pose proof (SL pc). cbn [length] in L.
  destruct (Nat.leb_spec (448 - length (@nil ascii)) (length (_oc_sym_of syms pc))) as [B|B]; [cbn [length] in B; lia|].
  rewrite G; [|lia|destruct (_oc_sym_of syms pc); cbn [length] in *; [lia|discriminate]].
  clear -pcs. revert pc. induction pcs as [|p2 pcs IH]; intros pc; [cbn; now rewrite app_nil_r|].
  specialize (IH p2). cbn [map flat_map] in *. rewrite join_cons by discriminate. rewrite <- IH. reflexivity.
Qed.

Lemma classify_decides syms pcs k : classify_frames syms pcs = k -> k <> lit "other" ->
  exists a pc b, pcs = a ++ pc :: b /\ frame_kind (_oc_sym_of syms pc) = Some k /\
    Forall (fun q => frame_kind (_oc_sym_of syms q) = None) a.
Proof.
  intros H Hk. induction pcs as [|pc pcs IH]; cbn [classify_frames] in H; [congruence|].
  destruct (frame_kind (_oc_sym_of syms pc)) as [k'|] eqn:E.
  - subst k'. exists [], pc, pcs. now repeat split.
  - destruct (IH H) as (a & q & b & -> & Hq & Ha). exists (pc :: a), q, b. repeat split; [exact Hq|now constructor].
Qed.

Lemma classify_words syms pcs : In (classify_frames syms pcs) (map lit ["io"; "lock"; "sleep"; "net"; "other"]%string).
Proof.
  induction pcs as [|pc pcs IH]; [cbn; tauto|]. cbn [classify_frames]. unfold frame_kind.
  destruct (existsb _ _); [cbn; tauto|]. destruct (has _ _); [cbn; tauto|]. destruct (existsb _ _); [cbn; tauto|].
  destruct (existsb _ _); [cbn; tauto|exact IH].
Qed.

(** What the sort of the C library promises. *)
Definition sorts (qsort : list (Z * text) -> list (Z * text)) : Prop :=
  forall l, Permutation (qsort l) l /\ StronglySorted by_address (qsort l).

Lemma keep_some_in {A} (l : list (option A)) x : In x (keep_some l) -> In (Some x) l.
Proof. induction l as [|[y|] l IH]; cbn; [easy|intros [->|H]; auto|auto]. Qed.

Lemma loaded_named qsort lines : sorts qsort -> named (_oc_load_kallsyms qsort lines).
Proof.
  intros Q. destruct lines as [ls|]; [|constructor]. unfold _oc_load_kallsyms. apply Forall_forall. intros s Hs.
  apply (Permutation_in _ (proj1 (Q _))) in Hs. assert (Hk : In s (keep_some (map kallsyms_line ls)))
    by (rewrite <- (firstn_skipn OC_SYMS_CAP (keep_some _)); apply in_or_app; now left).
  apply keep_some_in, in_map_iff in Hk as (line & Hl & _). unfold kallsyms_line in Hl.
  destruct (hex_run (drop_while is_space line)) as [[|c a] r]; [discriminate|]. destruct (drop_while is_space r); [discriminate|].
  destruct (firstn 127 _) as [|d nm]; [discriminate|]. 
  apply (f_equal (option_map (fun p => length (snd p)))) in Hl. cbn [option_map snd] in Hl. rewrite length_firstn in Hl.
  assert (El : length (snd s) = Nat.min 55 (length (d :: nm))) by congruence. cbn [length] in El. lia.
Qed.

Lemma loaded_sorted qsort lines : sorts qsort -> StronglySorted by_address (_oc_load_kallsyms qsort lines).
Proof. intros Q. destruct lines; [apply Q|constructor]. Qed.

(** The frames of a wait are named by the symbol at the nearest address not above
    them; the printed stack is the names of the innermost frames, as many as asked
    for, and is never cut; and the kind of the wait is decided by the first frame
    that says anything, whose name is on the printed stack when that is deep enough. *)
Theorem wait_stack_explains_kind qsort lines lookup getenv r pcs : sorts qsort ->
  let syms := _oc_load_kallsyms qsort lines in
  let want := Z.to_nat (_oc_stack_frames getenv) in
  _oc_frames syms lookup (oc_wait_stack r) = Frames pcs ->
  (forall pc, _oc_sym_of syms pc = last (map snd (filter (fun s => fst s <=? pc) syms)) (lit "?")) /\
  spnl_offcpu_wait_stack syms lookup getenv r 448 = join ";" (map (_oc_sym_of syms) (firstn want pcs)) /\
  (let k := spnl_offcpu_wait_kind syms lookup r 16 in
   k <> lit "other" ->
   exists a pc b, pcs = a ++ pc :: b /\ frame_kind (_oc_sym_of syms pc) = Some k /\
     Forall (fun q => frame_kind (_oc_sym_of syms q) = None) a /\
     ((length a < want)%nat -> In (_oc_sym_of syms pc) (map (_oc_sym_of syms) (firstn want pcs)))).
Proof.
  intros Q syms want F. pose proof (loaded_named qsort lines Q) as N. fold syms in N. split; [|split].
  - intros pc. apply sym_of_nearest. now apply loaded_sorted.
  - unfold spnl_offcpu_wait_stack, _oc_render. rewrite F.
    assert (W : 0 <= _oc_stack_frames getenv <= 8) by (unfold _oc_stack_frames, OC_STACK_FRAMES_MAX; lia).
    destruct (Z.leb_spec (_oc_stack_frames getenv) 0) as [H|H].
    + unfold want. replace (_oc_stack_frames getenv) with 0 by lia. reflexivity.
    + apply render_whole; [exact N|]. rewrite length_firstn. unfold want in *. lia.
  - unfold spnl_offcpu_wait_kind. rewrite F. cbn [_oc_classify]. intros Hk.
    assert (T : trunc 16 (classify_frames syms pcs) = classify_frames syms pcs).
    { apply trunc_id. pose proof (classify_words syms pcs) as C. cbn [map In] in C.
      destruct C as [<-|[<-|[<-|[<-|[<-|[]]]]]]; cbn; lia. }
    rewrite T in *. destruct (classify_decides syms pcs _ eq_refl Hk) as (a & pc & b & -> & Hpc & Ha).
    exists a, pc, b. repeat split; [exact Hpc|exact Ha|]. intros L. apply in_map. rewrite firstn_app.
    apply in_or_app. right. replace (want - length a)%nat with (S (want - length a - 1)) by lia. now left.
Qed.

(** A sort of our own: insertion by address. *)
Fixpoint insert (x : Z * text) (l : list (Z * text)) : list (Z * text) :=
  match l with [] => [x] | y :: l' => if fst x <=? fst y then x :: l else y :: insert x l' end.

Definition isort (l : list (Z * text)) : list (Z * text) := fold_right insert [] l.

Lemma isort_sorts : sorts isort.
Proof.
  assert (P : forall x l, Permutation (insert x l) (x :: l)).
  { induction l as [|y l IH]; cbn; [constructor; constructor|]. case_if; [reflexivity|]. rewrite IH. constructor. }
  assert (S : forall x l, StronglySorted by_address l -> StronglySorted by_address (insert x l)).
  { intros x l H. induction H as [|y l Hl IH F]; cbn; [repeat constructor|]. destruct (Z.leb_spec (fst x) (fst y)).
    - constructor; [now constructor|]. constructor; [exact H|]. eapply Forall_impl; [|exact F]. unfold by_address. intros; lia.
    - constructor; [exact IH|]. apply Forall_forall. intros z Hz.
      apply (Permutation_in _ (P x l)) in Hz as [<-|Hz]; [unfold by_address; lia|now apply (proj1 (Forall_forall _ _) F)]. }
  intros l. induction l as [|x l [IH1 IH2]]; [split; constructor|]. split; cbn; [rewrite P; now constructor|now apply S].
Qed.

Definition sample_lines : list text :=
  [lit "ffff2000 T do_futex"; lit "ffff1000 T schedule"; lit "ffff3000 t vfs_read"; lit "not a symbol"].

Definition sample_wait : spnl_rec_offcpu_t := mk_offcpu 0 7 [] 0 0 5 [] [] 0 0 [].

Definition sample_stacks (sid : Z) : option (list Z) := if sid =? 5 then Some [0xffff1010; 0xffff2fff; 0xffff3000; 0; 9] else None.

Lemma wait_stack_explains_kind_witness :
  let syms := _oc_load_kallsyms isort (Some sample_lines) in
  let env n := if text_eqb n (lit "SPNL_STACK_FRAMES") then Some (lit "2") else None in
  spnl_offcpu_wait_stack syms sample_stacks env sample_wait 448 = lit "schedule;do_futex" /\
  spnl_offcpu_wait_kind syms sample_stacks sample_wait 16 = lit "lock" /\
  _oc_sym_of syms 0xffff0000 = lit "?" /\
  exists a pc b, [0xffff1010; 0xffff2fff; 0xffff3000] = a ++ pc :: b /\ frame_kind (_oc_sym_of syms pc) = Some (lit "lock").
Proof.
  intros syms env.
  assert (F : _oc_frames syms sample_stacks (oc_wait_stack sample_wait) = Frames [0xffff1010; 0xffff2fff; 0xffff3000]) by (vm_compute; reflexivity).
  destruct (wait_stack_explains_kind isort (Some sample_lines) sample_stacks env sample_wait _ isort_sorts F) as (H1 & H2 & H3).
  fold syms in H1, H2, H3. rewrite H2, H1. split; [vm_compute; reflexivity|]. split; [vm_compute; reflexivity|]. split; [vm_compute; reflexivity|].
  cbv zeta in H3. assert (K : spnl_offcpu_wait_kind syms sample_stacks sample_wait 16 = lit "lock") by (vm_compute; reflexivity).
  rewrite K in H3. destruct (H3 ltac:(discriminate)) as (a & pc & b & E & Hk & _).
  exists a, pc, b. split; [exact E|exact Hk].
Defined.

End Stack.

Module Names.

(** ** DNS: length-prefixed labels *)

Definition wire_name (ls : list text) : text := flat_map (fun l => chr (Z.of_nat (length l)) :: l) ls.

Definition label_ok (l : text) : Prop := (1 <= length l <= 63)%nat /\ no_nul l.

(** The bytes of [raw] from [off] on are those of [s], as far as they were captured. *)
Definition reads_as (raw : text) (off : nat) (s : text) : Prop :=
  forall i, (off + i < 64)%nat -> byte_at raw (off + i) = nth i s "000"%char.

(** What the parser keeps of the labels at [off]. *)
Fixpoint walk (off : nat) (ls : list text) : text :=
  match ls with
  | [] => []
  | l :: ls' => if (off <? 60)%nat then firstn (63 - off) l ++ "."%char :: walk (S off + length l) ls' else []
  end.

Lemma copy_label_eq raw k off out : (off <= 64)%nat -> (length out + (64 - off) <= 255)%nat ->
  copy_label raw 256 k off out =
  ((off + Nat.min k (64 - off))%nat, out ++ map (byte_at raw) (seq off (Nat.min k (64 - off)))).
Proof.
  revert off out. induction k as [|k IH]; intros off out Ho Hl; cbn [copy_label].
  - cbn [Nat.min seq map]. now rewrite Nat.add_0_r, app_nil_r.
  - destruct (Nat.ltb_spec off 64); cbn [andb].
    + destruct (Nat.ltb_spec (length out) (256 - 1)); [|lia]. rewrite IH by (rewrite ?length_app; cbn [length]; lia).
      replace (Nat.min (S k) (64 - off)) with (S (Nat.min k (64 - S off))) by lia. cbn [seq map].
      rewrite <- app_assoc. f_equal. lia.
    + replace (64 - off)%nat with O by lia. rewrite Nat.min_0_r. cbn. now rewrite Nat.add_0_r, app_nil_r.
Qed.

Lemma reads_bytes raw off s n : reads_as raw off s -> (off + n <= 64)%nat -> (n <= length s)%nat ->
  map (byte_at raw) (seq off n) = firstn n s.
Proof.
  intros H. revert off s H. induction n as [|n IH]; intros off s H Hn Hl; [reflexivity|].
  destruct s as [|c s]; [cbn in Hl; lia|]. cbn [seq map firstn]. f_equal.
  - specialize (H 0%nat ltac:(lia)). now rewrite Nat.add_0_r in H.
  - apply IH; [|lia|cbn in Hl; lia]. intros i Hi. specialize (H (S i) ltac:(lia)). now rewrite Nat.add_succ_r in H.
Qed.

Lemma loop_walk raw rest ls : Forall label_ok ls -> forall fuel off out,
  reads_as raw off (wire_name ls ++ "000"%char :: rest) -> (60 - off <= fuel)%nat -> (off <= 64 -> length out + (64 - off) <= 255)%nat ->
  qname_loop raw 256 fuel off out = out ++ walk off ls.
Proof.
  induction 1 as [|l ls [Hl Nl] _ IH]; intros fuel off out R Hf Ho; destruct fuel as [|fuel]; cbn [qname_loop walk].
  - now rewrite app_nil_r.
  - destruct (Nat.ltb_spec off 60); cbn [andb]; [|now rewrite app_nil_r].
    case_if; [|now rewrite app_nil_r]. specialize (R 0%nat ltac:(lia)). rewrite Nat.add_0_r in R. rewrite R. cbn. now rewrite app_nil_r.
  - destruct (Nat.ltb_spec off 60); [lia|]. now rewrite app_nil_r.
  - destruct (Nat.ltb_spec off 60); cbn [andb]; [|now rewrite app_nil_r].
    destruct (Nat.ltb_spec (length out) (256 - 1)); [|lia].
    pose proof (R 0%nat ltac:(lia)) as R0. rewrite Nat.add_0_r in R0. rewrite R0. cbn [wire_name flat_map app nth].
    rewrite code_chr by lia. destruct (Z.eqb_spec (Z.of_nat (length l)) 0); [lia|]. destruct (Z.ltb_spec 63 (Z.of_nat (length l))); [lia|].
    cbn [orb]. rewrite Nat2Z.id. rewrite copy_label_eq by lia.
    assert (Rl : reads_as raw (S off) (l ++ wire_name ls ++ "000"%char :: rest)).
    { intros i Hi. specialize (R (S i) ltac:(lia)). rewrite Nat.add_succ_r in R. rewrite Nat.add_succ_l, R.
      cbn [wire_name flat_map]. rewrite <- app_assoc. reflexivity. }
    rewrite (reads_bytes raw (S off) _ _ Rl) by (rewrite ?length_app; lia).
    replace (firstn (Nat.min (length l) (64 - S off)) (l ++ wire_name ls ++ "000"%char :: rest)) with (firstn (63 - off) l).
    2: { rewrite firstn_app. replace (Nat.min (length l) (64 - S off) - length l)%nat with O by lia. cbn [firstn]. rewrite app_nil_r.
         destruct (Nat.le_gt_cases (length l) (63 - off)).
         - rewrite Nat.min_l by lia. now rewrite !firstn_all2 by lia.
         - rewrite Nat.min_r by lia. f_equal; lia. }
    destruct (Nat.le_gt_cases (length l) (63 - off)) as [Fit|Cut].
    + rewrite Nat.min_l by lia. rewrite IH; [now rewrite <- !app_assoc| |lia|rewrite !length_app, length_firstn; cbn [length]; lia].
      intros i Hi. specialize (Rl (length l + i)%nat ltac:(lia)). rewrite app_nth2_plus in Rl.
      replace (S off + length l + i)%nat with (S off + (length l + i))%nat by lia. exact Rl.
    + rewrite Nat.min_r by lia. replace (S off + (64 - S off))%nat with 64%nat by lia.
      assert (W : walk (S off + length l) ls = []) by (destruct ls; cbn [walk]; [reflexivity|]; destruct (Nat.ltb_spec (S off + length l) 60); [lia|reflexivity]).
      rewrite W. destruct fuel; cbn [qname_loop]; rewrite <- ?app_assoc; reflexivity.
Qed.

Lemma drop_dot_snoc s : drop_dot (s ++ ["."%char]) = s.
Proof. unfold drop_dot. rewrite rev_app_distr. cbn. apply rev_involutive. Qed.

Lemma drop_dot_app a b : b <> [] -> drop_dot (a ++ b) = a ++ drop_dot b.
Proof.
  intros H. unfold drop_dot. rewrite rev_app_distr. destruct (rev b) as [|c r] eqn:E.
  - apply (f_equal (@rev _)) in E. rewrite rev_involutive in E. contradiction.
  - cbn [app]. case_if; [|reflexivity]. now rewrite rev_app_distr, rev_involutive.
Qed.

Lemma walk_nonempty off ls : walk off ls <> [] -> (off < 60)%nat /\ ls <> [].
Proof. destruct ls as [|l ls]; cbn [walk]; [easy|]. destruct (Nat.ltb_spec off 60); [|now intros []]. intros _. split; [assumption|discriminate]. Qed.

Lemma drop_dot_walk off l ls : (off < 60)%nat ->
  drop_dot (walk off (l :: ls)) =
  match walk (S off + length l) ls with
  | [] => firstn (63 - off) l
  | w => l ++ "."%char :: drop_dot w
  end.
Proof.
  intros Ho. cbn [walk]. destruct (Nat.ltb_spec off 60); [|lia].
  destruct (walk (S off + length l) ls) as [|c w] eqn:E; [apply drop_dot_snoc|].
  assert (W : walk (S off + length l) ls <> []) by (rewrite E; discriminate). apply walk_nonempty in W as [Hw _].
  rewrite firstn_all2 by lia. change ("."%char :: c :: w) with (["."%char] ++ c :: w).
  rewrite app_assoc, drop_dot_app by discriminate. now rewrite <- app_assoc.
Qed.

Lemma walk_prefix ls : forall off, exists n, drop_dot (walk off ls) = firstn n (join "." ls).
Proof.
  induction ls as [|l ls IH]; intros off; [now exists O|].
  destruct (Nat.lt_ge_cases off 60) as [Ho|Ho].
  2: { exists O. cbn [walk]. destruct (Nat.ltb_spec off 60); [lia|reflexivity]. }
  rewrite drop_dot_walk by exact Ho. destruct (walk (S off + length l) ls) as [|c w] eqn:E.
  - exists (Nat.min (63 - off) (length l)). destruct ls as [|l2 ls].
    + cbn [join]. destruct (Nat.le_gt_cases (length l) (63 - off)); [now rewrite !firstn_all2 by lia|].
      now replace (Nat.min (63 - off) (length l)) with (63 - off)%nat by lia.
    + rewrite join_cons by discriminate. rewrite firstn_app.
      replace (Nat.min (63 - off) (length l) - length l)%nat with O by lia. cbn [firstn]. rewrite app_nil_r.
      destruct (Nat.le_gt_cases (length l) (63 - off)); [now rewrite !firstn_all2 by lia|].
      now replace (Nat.min (63 - off) (length l)) with (63 - off)%nat by lia.
  - destruct (IH (S off + length l)%nat) as [n Hn]. rewrite E in Hn. rewrite Hn.
    assert (W : walk (S off + length l) ls <> []) by (rewrite E; discriminate). apply walk_nonempty in W as [_ Hls].
    exists (length l + S n)%nat. rewrite join_cons by exact Hls. rewrite firstn_app_2. reflexivity.
Qed.

Lemma walk_exact ls : Forall label_ok ls -> forall off, (off + length (wire_name ls) <= 60)%nat -> drop_dot (walk off ls) = join "." ls.
Proof.
  induction 1 as [|l ls [Hl _] H IH]; intros off Ho; [reflexivity|]. cbn [wire_name flat_map] in Ho. rewrite length_app in Ho. cbn [length] in Ho.
  fold (wire_name ls) in Ho. rewrite drop_dot_walk by lia. specialize (IH (S off + length l)%nat ltac:(lia)).
  destruct ls as [|l2 ls].
  - cbn [walk join]. apply firstn_all2. lia.
  - rewrite join_cons by discriminate. rewrite <- IH. destruct (walk (S off + length l) (l2 :: ls)) eqn:E; [|reflexivity].
    exfalso. cbn [walk] in E. cbn [wire_name flat_map] in Ho. rewrite length_app in Ho. cbn [length] in Ho.
    destruct (Nat.ltb_spec (S off + length l) 60); [|lia]. destruct (firstn _ l2); discriminate.
Qed.

Lemma join_no_nul ls : Forall label_ok ls -> no_nul (join "." ls).
Proof.
  induction 1 as [|l ls [_ N] H IH]; [constructor|]. destruct ls as [|l2 ls]; [exact N|]. rewrite join_cons by discriminate.
  apply Forall_app. split; [exact N|]. constructor; [reflexivity|exact IH].
Qed.

(** From the 64 captured bytes of a DNS query the parser recovers the queried name:
    all of it when the labels take at most 48 bytes, otherwise a prefix of it; nothing
    is read past the capture and nothing else can come out. *)
Theorem dns_qname_recovers h ls rest : length h = 12%nat -> Forall label_ok ls ->
  let raw := firstn 64 (h ++ wire_name ls ++ "000"%char :: rest) in
  (exists n, spnl_dns_qname raw 256 = firstn n (join "." ls)) /\
  ((length (wire_name ls) <= 48)%nat -> spnl_dns_qname raw 256 = join "." ls).
Proof.
  intros Hh Hls raw.
  assert (R : reads_as raw 12 (wire_name ls ++ "000"%char :: rest)).
  { intros i Hi. unfold byte_at, raw. rewrite nth_firstn. destruct (Nat.ltb_spec (12 + i) 64); [|lia].
    rewrite <- Hh. apply app_nth2_plus. }
  assert (E : spnl_dns_qname raw 256 = cstr (drop_dot (walk 12 ls))).
  { unfold spnl_dns_qname. rewrite (loop_walk raw rest ls Hls 60 12 []) by (auto; cbn [length]; lia). reflexivity. }
  pose proof (join_no_nul ls Hls) as N. split.
  - destruct (walk_prefix ls 12) as [n Hn]. exists n. rewrite E, Hn. apply cstr_id. unfold no_nul in *; rewrite <- (firstn_skipn n) in N; now apply Forall_app in N as [N _].
  - intros L. rewrite E, walk_exact by (auto; lia). now apply cstr_id.
Qed.

Lemma dns_qname_recovers_witness :
  spnl_dns_qname (firstn 64 (repeat "000"%char 12 ++ wire_name [lit "www"; lit "example"; lit "com"] ++ "000"%char :: lit "tail")) 256
  = lit "www.example.com".
Proof.
  apply (dns_qname_recovers (repeat "000"%char 12) [lit "www"; lit "example"; lit "com"] (lit "tail")); [reflexivity| |vm_compute; lia].
  repeat constructor; cbn; try lia; discriminate.
Defined.

(** ** Redis: arrays of bulk strings *)

Definition crlf : text := ["013"; "010"]%char.
Definition bulk_head (n : nat) : text := "$"%char :: dec_u (Z.of_nat n) ++ crlf.
Definition resp_head (n : Z) (cmd : text) (klen : nat) : text :=
  "*"%char :: dec_u n ++ crlf ++ bulk_head (length cmd) ++ cmd ++ crlf ++ bulk_head klen.

Lemma digits_no_newline s : Forall (fun c => is_digit c = true) s -> ~ In "010"%char s.
Proof. intros H I. apply (proj1 (Forall_forall _ _) H) in I. discriminate. Qed.

Lemma next_line_app a r : ~ In "010"%char a -> next_line (a ++ crlf ++ r) = r.
Proof.
  intros H. unfold next_line. change (a ++ crlf ++ r) with (a ++ ["013"%char] ++ "010"%char :: r). rewrite app_assoc, split_at_app; [reflexivity|].
  intros [I|[I|[]]]%in_app_or; [auto|discriminate].
Qed.

Lemma bulk_length_head n r : bulk_length (bulk_head n ++ r) = Some (Z.of_nat n, r).
Proof.
  unfold bulk_length, bulk_head. cbn [app Ascii.eqb]. rewrite <- app_assoc.
  assert (N : dec_u (Z.of_nat n) <> []) by apply dec_u_nonempty.
  rewrite digits_app; [|apply dec_u_digits; lia|reflexivity].
  destruct (dec_u (Z.of_nat n)) eqn:E; [contradiction|]. rewrite <- E, dec_val_dec_u by lia. reflexivity.
Qed.

Lemma firstn_same {A} n m (l : list A) : Nat.min n (length l) = Nat.min m (length l) -> firstn n l = firstn m l.
Proof.
  intros H. rewrite <- (firstn_all2 l (n := length l)) at 1 2 by lia. now rewrite !firstn_firstn, H.
Qed.

Lemma take_bulk_first k rest m cap : fst (take_bulk (Z.of_nat (length k)) cap (firstn m (k ++ rest))) = firstn (Nat.min (cap - 1) m) k.
Proof.
  unfold take_bulk. cbn [fst]. rewrite length_firstn, length_app, <- Nat2Z.inj_min, Nat2Z.id, firstn_firstn, firstn_app.
  set (n := Nat.min (Nat.min _ _) _). replace (n - length k)%nat with O by lia.
  rewrite firstn_O, app_nil_r. apply firstn_same. lia.
Qed.

Lemma upcase_no_nul c : Ascii.eqb c "000" = false -> Ascii.eqb (upcase c) "000" = false.
Proof. destruct c as [[][][][][][][][]]; vm_compute; congruence. Qed.

Lemma redis_parse_array n x cc kc : 0 <= n -> x <> [] ->
  redis_parse_cmd_key ("*"%char :: dec_u n ++ crlf ++ x) cc kc =
  match bulk_length x with
  | None => ([], [])
  | Some (l1, s) =>
      let '(cmd, s) := take_bulk l1 cc s in
      (cstr (map upcase cmd), match bulk_length (next_line s) with None => [] | Some (l2, s) => map mask (fst (take_bulk l2 kc s)) end)
  end.
Proof.
  intros Hn Hx. unfold redis_parse_cmd_key. destruct (Nat.ltb_spec (length ("*"%char :: dec_u n ++ crlf ++ x)) 4) as [L|_].
  { exfalso. cbn [length] in L. rewrite !length_app in L. cbn [crlf length] in L. destruct x; [contradiction|]. cbn [length] in L.
    assert (N : dec_u n <> []) by apply dec_u_nonempty. destruct (dec_u n); [contradiction|]. cbn [length] in L. lia. }
  cbn [orb negb Ascii.eqb Bool.eqb]. change ("*"%char :: dec_u n ++ crlf ++ x) with (("*"%char :: dec_u n) ++ crlf ++ x).
  rewrite next_line_app by (intros [I|I]; [discriminate|]; revert I; apply digits_no_newline, dec_u_digits, Hn).
  destruct (bulk_length x) as [[l1 s]|]; [|reflexivity]. destruct (take_bulk l1 cc s) as [cmd s'].
  destruct (bulk_length (next_line s')) as [[]|]; reflexivity.
Qed.

Lemma take_bulk_whole cmd r : take_bulk (Z.of_nat (length cmd)) 24 (cmd ++ r) = (firstn 23 cmd, skipn 23 cmd ++ r).
Proof.
  unfold take_bulk. rewrite length_app. set (n := Nat.min _ _). assert (Hn : n = Nat.min (length cmd) 23) by lia.
  rewrite firstn_app, skipn_app, Hn. replace (Nat.min (length cmd) 23 - length cmd)%nat with O by lia.
  rewrite skipn_O, firstn_O, app_nil_r. f_equal; [apply firstn_same; lia|f_equal].
  destruct (Nat.le_gt_cases (length cmd) 23); [now rewrite !skipn_all2 by lia|]. now replace (Nat.min (length cmd) 23) with 23%nat by lia.
Qed.

(** Of a Redis request captured to 64 bytes the span carries the command, upper-cased
    and cut to 23 characters, and the first key, cut to what was captured and to 47
    characters with unprintable bytes masked.  The result does not mention what follows
    the key: no value of the request can reach the span. *)
Theorem redis_command_exact n cmd key rest :
  0 <= n -> no_nul cmd -> ~ In "010"%char cmd -> (length (resp_head n cmd (length key)) <= 64)%nat ->
  redis_parse_cmd_key (firstn 64 (resp_head n cmd (length key) ++ key ++ rest)) 24 48 =
  (map upcase (firstn 23 cmd), map mask (firstn (Nat.min 47 (64 - length (resp_head n cmd (length key)))) key)).
Proof.
  intros Hn Nc Lc Hl. set (h := length _) in *. rewrite firstn_app, firstn_all2 by exact Hl. fold h.
  set (tl := firstn (64 - h) (key ++ rest)).
  replace (resp_head n cmd (length key) ++ tl) with
    ("*"%char :: dec_u n ++ crlf ++ (bulk_head (length cmd) ++ cmd ++ crlf ++ bulk_head (length key) ++ tl))
    by (unfold resp_head; cbn [app]; now rewrite <- !app_assoc).
  rewrite redis_parse_array, bulk_length_head, take_bulk_whole by (assumption || discriminate).
  rewrite next_line_app, bulk_length_head.
  2: { intros I. apply Lc. rewrite <- (firstn_skipn 23 cmd). apply in_or_app. now right. }
  unfold tl. rewrite take_bulk_first. f_equal. apply cstr_id. unfold no_nul. rewrite Forall_map.
  rewrite <- (firstn_skipn 23 cmd) in Nc. apply Forall_app in Nc as [Nc _].
  eapply Forall_impl; [|exact Nc]. apply upcase_no_nul.
Qed.

Lemma redis_command_exact_witness :
  redis_parse_cmd_key (firstn 64 (resp_head 3 (lit "set") 7 ++ lit "user:42" ++ crlf ++ bulk_head 6 ++ lit "secret")) 24 48
  = (lit "SET", lit "user:42").
Proof.
  apply (redis_command_exact 3 (lit "set") (lit "user:42") (crlf ++ bulk_head 6 ++ lit "secret")); [lia|repeat constructor| |vm_compute; lia].
  cbn. intros [I|[I|[I|[]]]]; discriminate.
Defined.

End Names.
