(* ===== verification/HostRuntime.v ===== *)
(** * The host runtime's handle and its report at exit ([src/runtime/spnl_runtime.c])

    - [Life]: opening, attaching, calling, draining and destroying, over the answers of
      libbpf, with a log of what is acquired and released.
    - [Released]: everything acquired is released, once.
    - [Once]: arming the balance report, and the exit and signal handlers that print it
      as a step relation; however they interleave, it is printed at most once. *)

From Stdlib Require Import Permutation.
From S2P Require Import Prelude CText Channels.
Import Balance.
Local Open Scope string_scope.
Local Open Scope list_scope.
Local Open Scope Z_scope.

Module Life.

Definition SPNL_MAX_LINKS : nat := 32.
Definition EINVAL : Z := 22.
Definition ENOENT : Z := 2.
Definition ENOSPC : Z := 28.

(** What is acquired and released; links are numbered as they are made. *)
Inductive effect :=
| Opened
| Attached (l : nat)
| Detached (l : nat)
| Closed.

(** The calls to libbpf so far. *)
Record world := mk_world { made : nat; log : list effect }.
Definition add (e : effect) (w : world) : world := mk_world (made w) (log w ++ [e]).

Record spnl_runtime := mk_rt { links : list nat }.

(** [opens] and [loads] are libbpf's answers, [alloc] that of [calloc]. *)
Definition spnl_runtime_init (alloc opens loads : bool) (w : world) : option spnl_runtime * world :=
  if negb alloc then (None, w)
  else if negb opens then (None, w)
  else
    let w := add Opened w in
    if negb loads then (None, add Closed w) else (Some (mk_rt []), w).

(** A program of the object: its section, and whether it can be attached now. *)
Record program := mk_prog { p_name : text; p_section : option text; p_attaches : bool }.

Fixpoint attach_loop (ps : list program) (rt : spnl_runtime) (attached : Z) (w : world) : Z * spnl_runtime * world :=
  match ps with
  | [] => (attached, rt, w)
  | p :: ps' =>
      match p_section p with
      | None => attach_loop ps' rt attached w
      | Some sec =>
          if has_prefix (lit "syscall") sec then attach_loop ps' rt attached w
          else if negb (p_attaches p) then attach_loop ps' rt attached w
          else
            let l := made w in
            let w := mk_world (S l) (log w ++ [Attached l]) in
            if (SPNL_MAX_LINKS <=? length (links rt))%nat then (- ENOSPC, rt, add (Detached l) w)
            else attach_loop ps' (mk_rt (links rt ++ [l])) (attached + 1) w
      end
  end.

Definition spnl_runtime_attach_all (rt : option spnl_runtime) (ps : list program) (w : world) : Z * option spnl_runtime * world :=
  match rt with
  | None => (- EINVAL, None, w)
  | Some rt => let '(r, rt, w) := attach_loop ps rt 0 w in (r, Some rt, w)
  end.

(** [rb_count] is zero in every run: only [find_or_create_rb] raises it, which nothing
    calls, so the loop over the ring buffers has nothing to free. *)
Definition spnl_runtime_destroy (rt : option spnl_runtime) (w : world) : world :=
  match rt with
  | None => w
  | Some rt => add Closed (fold_left (fun w l => add (Detached l) w) (links rt) w)
  end.

(** [fd_of] is the descriptor of the named program, [test_run] the kernel's answer: an
    error or the value returned. *)
Definition spnl_runtime_call (rt : option spnl_runtime) (fd_of : text -> option Z) (test_run : Z -> Z + Z) (func_name : option text) : Z * option Z :=
  match rt, func_name with
  | Some _, Some name =>
      match fd_of name with
      | None => (- ENOENT, None)
      | Some fd => if fd <? 0 then (fd, None) else match test_run fd with inl err => (err, None) | inr v => (0, Some v) end
      end
  | _, _ => (- EINVAL, None)
  end.

(** The process goes on or ends. *)
Inductive outcome := Returns (r : Z) (chans : list spnl_chan_stat) (events : Z) | Exits (chans : list spnl_chan_stat) (events : Z).

(** [rb_new] gives [errno] when the consumer cannot be made; [poll] is the number of
    records delivered to the callback, or a negative error. *)
Definition spnl_runtime_ringbuf_drain (getenv : text -> option text) (rt : option spnl_runtime) (fd_of : text -> option Z) (rb_new : Z + unit) (poll : Z)
  (map_name : option text) (cb : bool) (cs : list spnl_chan_stat) (events : Z) : outcome :=
  match rt, map_name with
  | Some _, Some m =>
      if negb cb then Returns (- EINVAL) cs events
      else match fd_of m with
           | None => Returns (- ENOENT) cs events
           | Some fd =>
               if fd <? 0 then Returns fd cs events
               else match rb_new with
                    | inl errno => Returns (- errno) cs events
                    | inr _ =>
                        let cs := spnl_channel_seen (Some m) cs in
                        if 0 <? poll then
                          let cs := spnl_channel_in (Some m) poll cs in
                          let '(stop, events) := spnl_oneshot_add getenv poll events in
                          if stop then Exits cs events else Returns poll cs events
                        else Returns poll cs events
                    end
           end
  | _, _ => Returns (- EINVAL) cs events
  end.

End Life.

Module Released.
Import Life.

(** ** The discipline

    [follow_all es h]: the resources held after the effects, [None] when one is
    released that is not held, a link is made twice, the object is closed while
    something is attached, or anything happens without an object. *)
Record holding := mk_holding { obj : bool; hooks : list nat }.

Definition remove_link (l : nat) (ls : list nat) : option (list nat) :=
  if existsb (Nat.eqb l) ls then Some (filter (fun x => negb (x =? l)%nat) ls) else None.

Definition follow (e : effect) (h : holding) : option holding :=
  match e with
  | Opened => if obj h then None else Some (mk_holding true (hooks h))
  | Attached l => if obj h && negb (existsb (Nat.eqb l) (hooks h)) then Some (mk_holding true (l :: hooks h)) else None
  | Detached l => if obj h then option_map (mk_holding true) (remove_link l (hooks h)) else None
  | Closed => if obj h && match hooks h with [] => true | _ => false end then Some (mk_holding false []) else None
  end.

Fixpoint follow_all (es : list effect) (h : holding) : option holding :=
  match es with [] => Some h | e :: es' => match follow e h with Some h' => follow_all es' h' | None => None end end.

Lemma follow_app a b h : follow_all (a ++ b) h = match follow_all a h with Some h' => follow_all b h' | None => None end.
Proof. revert h. induction a as [|e a IH]; intros h; [reflexivity|]. cbn [app follow_all]. destruct (follow e h); [apply IH|reflexivity]. Qed.

Definition nothing : holding := mk_holding false [].

(** What a runtime holds: its object and exactly its links, all made earlier. *)
Definition holds (rt : spnl_runtime) (w : world) : Prop :=
  exists hs, follow_all (log w) nothing = Some (mk_holding true hs) /\ Permutation hs (links rt) /\ NoDup (links rt) /\
    Forall (fun l => (l < made w)%nat) (links rt) /\ (length (links rt) <= SPNL_MAX_LINKS)%nat.

Lemma mem_nat l ls : existsb (Nat.eqb l) ls = true <-> In l ls.
Proof. rewrite existsb_exists. split; [intros (x & H & E); apply Nat.eqb_eq in E; now subst|intros H; exists l; split; [exact H|apply Nat.eqb_refl]]. Qed.

Lemma fresh_link l ls : Forall (fun x => (x < l)%nat) ls -> existsb (Nat.eqb l) ls = false.
Proof.
  intros F. destruct (existsb (Nat.eqb l) ls) eqn:X; [|reflexivity]. apply mem_nat in X. rewrite Forall_forall in F. specialize (F l X). lia.
Qed.

Lemma filter_absent l ls : ~ In l ls -> filter (fun x => negb (x =? l)%nat) ls = ls.
Proof.
  induction ls as [|x ls IH]; intros H; [reflexivity|]. cbn [filter]. destruct (Nat.eqb_spec x l) as [->|]; [exfalso; apply H; now left|].
  cbn [negb]. f_equal. apply IH. intros Hx. apply H. now right.
Qed.

Lemma Forall_perm {A} (P : A -> Prop) a b : Permutation a b -> Forall P a -> Forall P b.
Proof. intros Hp F. rewrite Forall_forall in *. intros x Hx. apply F. now apply (Permutation_in x (Permutation_sym Hp)). Qed.

Lemma attach_holds ps : forall rt attached w r rt' w', attach_loop ps rt attached w = (r, rt', w') -> holds rt w ->
  holds rt' w' /\ exists new, links rt' = links rt ++ new /\
    (r = attached + Z.of_nat (length new) \/ r = - ENOSPC /\ length (links rt') = SPNL_MAX_LINKS).
Proof.
  induction ps as [|p ps IH]; intros rt attached w r rt' w' H Hh; cbn [attach_loop] in H.
  { injection H as <- <- <-. split; [exact Hh|]. exists []. rewrite app_nil_r. split; [reflexivity|left; cbn; lia]. }
  destruct (p_section p) as [sec|]; [|eauto]. destruct (has_prefix _ sec); [eauto|]. destruct (p_attaches p); cbn [negb] in H; [|eauto].
  destruct Hh as (hs & F & P & N & B & Le).
  assert (Fh : existsb (Nat.eqb (made w)) hs = false) by (apply fresh_link; exact (Forall_perm _ _ _ (Permutation_sym P) B)).
  assert (F1 : follow_all (log w ++ [Attached (made w)]) nothing = Some (mk_holding true (made w :: hs)))
    by (rewrite follow_app, F; cbn [follow_all follow obj hooks]; rewrite Fh; reflexivity).
  destruct (Nat.leb_spec SPNL_MAX_LINKS (length (links rt))) as [G|G].
  - injection H as <- <- <-. split; [|exists []; rewrite app_nil_r; split; [reflexivity|right; split; [reflexivity|lia]]].
    exists hs. split; [|repeat split; auto; cbn [made]; eapply Forall_impl; [|exact B]; cbn; lia].
    unfold add. cbn [log made]. rewrite follow_app, F1. cbn [follow_all follow obj hooks]. unfold remove_link. cbn [existsb filter].
    rewrite Nat.eqb_refl. cbn [orb negb]. rewrite filter_absent; [reflexivity|]. intros Hin. apply mem_nat in Hin. congruence.
  - apply IH in H as (Hh' & new & El & Hr).
    + split; [exact Hh'|]. exists (made w :: new). rewrite El. cbn [links]. rewrite <- app_assoc. split; [reflexivity|].
      destruct Hr as [->|[-> Hl]]; [left; cbn [length]; lia|right; split; [reflexivity|]]. cbn [links] in El. rewrite El in Hl. now rewrite <- app_assoc in Hl.
    + exists (made w :: hs). cbn [log links made]. split; [exact F1|]. split; [rewrite P; apply Permutation_cons_append|].
      split; [apply NoDup_app; [exact N|repeat constructor; intros []|]; intros x Hx [<-|[]]; rewrite Forall_forall in B; specialize (B _ Hx); lia|].
      split; [apply Forall_app; split; [eapply Forall_impl; [|exact B]; cbn; lia|repeat constructor; lia]|]. rewrite length_app. cbn [length]. lia.
Qed.

Lemma detach_all ls : forall hs w, Permutation hs ls -> NoDup ls -> follow_all (log w) nothing = Some (mk_holding true hs) ->
  follow_all (log (fold_left (fun w l => add (Detached l) w) ls w)) nothing = Some (mk_holding true []).
Proof.
  induction ls as [|l ls IH]; intros hs w P N F; cbn [fold_left].
  { apply Permutation_sym, Permutation_nil in P. now subst. }
  inv N. apply (IH (filter (fun x => negb (x =? l)%nat) hs)); auto.
  - assert (Q : forall a b, Permutation a b -> Permutation (filter (fun x => negb (x =? l)%nat) a) (filter (fun x => negb (x =? l)%nat) b)).
    { induction 1; cbn [filter]; try reflexivity.
      - destruct (negb (x =? l)%nat); [now constructor|assumption].
      - destruct (negb (x =? l)%nat), (negb (y =? l)%nat); try reflexivity. constructor.
      - etransitivity; eauto. }
    rewrite (Q _ _ P). cbn [filter]. rewrite Nat.eqb_refl. cbn [negb]. now rewrite filter_absent.
  - unfold add. cbn [log]. rewrite follow_app, F. cbn [follow_all follow obj hooks]. unfold remove_link.
    replace (existsb (Nat.eqb l) hs) with true; [reflexivity|]. symmetry. apply mem_nat. apply (Permutation_in l (Permutation_sym P)). now left.
Qed.

(** The runtime and the world after some calls to attach. *)
Definition attach_calls (calls : list (list program)) (x : option spnl_runtime * world) : option spnl_runtime * world :=
  fold_left (fun x ps => let '(_, rt, w) := spnl_runtime_attach_all (fst x) ps (snd x) in (rt, w)) calls x.

Lemma attach_calls_hold calls : forall rt w, holds rt w -> exists rt' w', attach_calls calls (Some rt, w) = (Some rt', w') /\ holds rt' w'.
Proof.
  induction calls as [|ps calls IH]; intros rt w H; [now exists rt, w|]. cbn [attach_calls fold_left fst snd spnl_runtime_attach_all].
  destruct (attach_loop ps rt 0 w) as [[r rt1] w1] eqn:E. apply attach_holds in E as [H1 _]; [|exact H]. exact (IH rt1 w1 H1).
Qed.

(** C34: the runtime releases what it acquires.  Whatever libbpf answers when the object
    is opened, loaded and its programs attached, in any number of calls, every link is
    detached exactly once, after it was made and before the object is closed, also the
    one that finds the table full; a runtime that could not be set up holds nothing;
    and never more than 32 links are kept. *)
Theorem runtime_releases_all alloc opens loads calls :
  let '(rt, w) := attach_calls calls (spnl_runtime_init alloc opens loads (mk_world 0 [])) in
  follow_all (log (spnl_runtime_destroy rt w)) nothing = Some nothing /\
  match rt with Some rt => (length (links rt) <= SPNL_MAX_LINKS)%nat | None => True end.
Proof.
  assert (None_stays : forall w, attach_calls calls (None, w) = (None, w)) by (intros w; induction calls; [reflexivity|assumption]).
  unfold spnl_runtime_init. destruct alloc, opens; cbn [negb]; try (rewrite None_stays; split; [reflexivity|exact I]).
  destruct loads; cbn [negb]; [|rewrite None_stays; split; [reflexivity|exact I]].
  destruct (attach_calls_hold calls (mk_rt []) (add Opened (mk_world 0 []))) as (rt & w & -> & hs & F & P & N & _ & Le).
  { exists []. split; [reflexivity|]. repeat split; try constructor. cbn. lia. }
  split; [|exact Le]. cbn [spnl_runtime_destroy]. unfold add at 1. cbn [log]. rewrite follow_app, (detach_all (links rt) hs w P N F). reflexivity.
Qed.

End Released.

(** * The report at exit *)

Module Once.

(** SIGTERM, SIGINT, SIGHUP. *)
Inductive sig := TERM | INT | HUP.

(** What is installed for a signal: the default, the report, or a handler of the probe. *)
Inductive disposition := Default | Reporter | Own.

(** [armed], [g_spnl_report_done], [g_spnl_report_mode] and what is installed. *)
Record state := mk_state {
  armed : bool;
  report_done : bool;
  mode_kv : bool;
  at_exit : bool;
  handler : sig -> disposition
}.

Definition started (h : sig -> disposition) : state := mk_state false false false false h.

Definition install (h : sig -> disposition) (s : sig) : disposition := match h s with Default => Reporter | d => d end.

Definition spnl_channel_report_arm (getenv : text -> option text) (st : state) : state :=
  if armed st then st
  else
    match getenv (lit "SPNL_CHANNEL_REPORT") with
    | Some ("0"%char :: _) => mk_state true true (mode_kv st) (at_exit st) (handler st)
    | e =>
        let kv := match e with Some e => if text_eqb e (lit "kv") then true else mode_kv st | None => mode_kv st end in
        mk_state true (report_done st) kv true (install (handler st))
    end.

(** ** Endings, one access at a time

    [spnl_channel_report_once] tests the flag, sets it and writes. *)
Inductive stage := Test | Mark | Writing | Over.

(** What runs: the program, the exit handler, or the handler of a signal.  A signal
    handler that ends raises its signal with the default action restored, so what it
    interrupted never goes on: only the innermost of them runs. *)
Inductive activity := Running | Exiting (s : stage) | Handling (x : sig) (s : stage) | Dead.

(** [reports]: how often a report was begun. *)
Record run := mk_run { now : activity; fl : state; reports : nat }.

Definition set_done (st : state) : state := mk_state (armed st) true (mode_kv st) (at_exit st) (handler st).

(** One step of [spnl_channel_report_once]. *)
Definition once_step (s : stage) (st : state) (n : nat) : stage * state * nat :=
  match s with
  | Test => (if report_done st then Over else Mark, st, n)
  | Mark => (Writing, set_done st, n)
  | Writing => (Over, st, S n)
  | Over => (Over, st, n)
  end.

Inductive step : run -> run -> Prop :=
| StepArm getenv st n : step (mk_run Running st n) (mk_run Running (spnl_channel_report_arm getenv st) n)
| StepExit st n : step (mk_run Running st n) (mk_run (if at_exit st then Exiting Test else Dead) st n)
| StepExiting s st n s' st' n' : s <> Over -> once_step s st n = (s', st', n') -> step (mk_run (Exiting s) st n) (mk_run (Exiting s') st' n')
| StepExited st n : step (mk_run (Exiting Over) st n) (mk_run Dead st n)
| StepHandling x s st n s' st' n' : s <> Over -> once_step s st n = (s', st', n') -> step (mk_run (Handling x s) st n) (mk_run (Handling x s') st' n')
| StepHandled x st n : step (mk_run (Handling x Over) st n) (mk_run Dead st n)
| StepSignal x a st n : a <> Dead -> (forall s, a <> Handling x s) -> handler st x = Reporter ->
    step (mk_run a st n) (mk_run (Handling x Test) st n)
| StepKilled x a st n : a <> Dead -> (forall s, a <> Handling x s) -> handler st x = Default -> step (mk_run a st n) (mk_run Dead st n).

Inductive steps : run -> run -> Prop :=
| steps_refl r : steps r r
| steps_step a b c : step a b -> steps b c -> steps a c.

(** A report was begun only after the flag was set, and only one. *)
Definition marked (r : run) : Prop :=
  match now r with
  | Exiting Writing | Handling _ Writing => report_done (fl r) = true /\ reports r = O
  | Exiting Mark | Handling _ Mark => reports r = O
  | _ => (reports r <= 1)%nat /\ (reports r = 1%nat -> report_done (fl r) = true)
  end.

Lemma arm_keeps getenv st : report_done st = true -> report_done (spnl_channel_report_arm getenv st) = true.
Proof.
  intros H. unfold spnl_channel_report_arm. destruct (armed st); [exact H|]. destruct (getenv _) as [[|c e]|]; auto.
  destruct c as [[] [] [] [] [] [] [] []]; try exact H; reflexivity.
Qed.

Lemma marked_weak r : marked r -> (reports r <= 1)%nat /\ (reports r = 1%nat -> report_done (fl r) = true).
Proof. unfold marked. destruct (now r) as [|[]|x []|]; intuition lia. Qed.

Lemma step_marked a b : step a b -> marked a -> marked b.
Proof.
  intros S M. pose proof (marked_weak a M) as [W1 W2]. destruct S; cbn [now fl reports] in *; unfold marked; cbn [now fl reports]; auto using arm_keeps.
  - now destruct (at_exit st).
  - destruct s; cbn [once_step] in H0; injection H0 as <- <- <-; cbn [report_done set_done]; auto.
    + destruct (report_done st) eqn:D; [auto|]. destruct n as [|[|]]; [reflexivity|now specialize (W2 eq_refl)|lia].
    + cbn [marked now] in M. destruct M as [M1 M2]. cbn in M1, M2. subst n. auto.
  - destruct s; cbn [once_step] in H0; injection H0 as <- <- <-; cbn [report_done set_done]; auto.
    + destruct (report_done st) eqn:D; [auto|]. destruct n as [|[|]]; [reflexivity|now specialize (W2 eq_refl)|lia].
    + cbn [marked now] in M. destruct M as [M1 M2]. cbn in M1, M2. subst n. auto.
Qed.

Lemma steps_marked a b : steps a b -> marked a -> marked b.
Proof. induction 1; auto. intros M. apply IHsteps. eapply step_marked; eauto. Qed.

(** Silenced from the start, nothing is ever begun. *)
Lemma silent_step a b : step a b -> reports a = O -> report_done (fl a) = true ->
  (match now a with Exiting (Mark | Writing) | Handling _ (Mark | Writing) => False | _ => True end) ->
  reports b = O /\ report_done (fl b) = true /\ (match now b with Exiting (Mark | Writing) | Handling _ (Mark | Writing) => False | _ => True end).
Proof.
  intros S R D A. destruct S; cbn [now fl reports] in *; auto using arm_keeps.
  - destruct (at_exit st); auto.
  - destruct s; try contradiction. cbn [once_step] in H0. rewrite D in H0. injection H0 as <- <- <-. auto.
  - destruct s; try contradiction. cbn [once_step] in H0. rewrite D in H0. injection H0 as <- <- <-. auto.
Qed.

Lemma silent_steps a b : steps a b -> reports a = O -> report_done (fl a) = true ->
  (match now a with Exiting (Mark | Writing) | Handling _ (Mark | Writing) => False | _ => True end) -> reports b = O.
Proof. induction 1 as [|a b c S _ IH]; auto. intros R D A. destruct (silent_step a b S R D A) as (R' & D' & A'). auto. Qed.

(** An ending nothing interrupts. *)
Definition ends_by (a : activity) (st : state) : run := mk_run a st 0.

Lemma uninterrupted_exit st : report_done st = false -> steps (ends_by (Exiting Test) st) (mk_run Dead (set_done st) 1).
Proof.
  intros D. eapply steps_step; [apply StepExiting; [discriminate|cbn; rewrite D; reflexivity]|].
  eapply steps_step; [apply StepExiting; [discriminate|reflexivity]|]. eapply steps_step; [apply StepExiting; [discriminate|reflexivity]|].
  eapply steps_step; [apply StepExited|]. apply steps_refl.
Qed.

Lemma uninterrupted_signal x st : report_done st = false -> steps (ends_by (Handling x Test) st) (mk_run Dead (set_done st) 1).
Proof.
  intros D. eapply steps_step; [apply StepHandling; [discriminate|cbn; rewrite D; reflexivity]|].
  eapply steps_step; [apply StepHandling; [discriminate|reflexivity]|]. eapply steps_step; [apply StepHandling; [discriminate|reflexivity]|].
  eapply steps_step; [apply StepHandled|]. apply steps_refl.
Qed.

(** C38: the balance report is printed at most once, however the process ends.  From the
    start of the process, through any arming, exit, signals and handlers interrupting
    one another at every access, a report is begun at most once, and never when
    [SPNL_CHANNEL_REPORT] begins with 0.  Once armed, a process that exits, or is
    stopped by a signal the probe left alone, reports unless it is interrupted; a
    handler the probe installed is kept. *)
Theorem report_at_most_once h r : steps (mk_run Running (started h) 0) r ->
  (reports r <= 1)%nat /\
  forall getenv, let st := spnl_channel_report_arm getenv (fl r) in
  armed (fl r) = false -> now r = Running ->
  match getenv (lit "SPNL_CHANNEL_REPORT") with
  | Some ("0"%char :: _) => forall r', steps (mk_run Running st (reports r)) r' -> reports r = O -> reports r' = O
  | _ => (report_done (fl r) = false ->
          (exists r', steps (mk_run Running st 0) r' /\ now r' = Dead /\ reports r' = 1%nat) /\
          (forall x, handler (fl r) x = Default ->
             exists r', steps (mk_run (Handling x Test) st 0) r' /\ step (mk_run Running st 0) (mk_run (Handling x Test) st 0) /\
                        now r' = Dead /\ reports r' = 1%nat)) /\
         (forall x, handler (fl r) x = Own -> handler st x = Own)
  end.
Proof.
  intros S. apply steps_marked in S; [|cbn; split; [lia|discriminate]]. pose proof (marked_weak r S) as [W _]. split; [exact W|].
  intros getenv st A N. subst st. unfold spnl_channel_report_arm. rewrite A.
  assert (Go : forall kv, let st := mk_state true (report_done (fl r)) kv true (install (handler (fl r))) in
    (report_done (fl r) = false ->
     (exists r', steps (mk_run Running st 0) r' /\ now r' = Dead /\ reports r' = 1%nat) /\
     (forall x, handler (fl r) x = Default ->
        exists r', steps (mk_run (Handling x Test) st 0) r' /\ step (mk_run Running st 0) (mk_run (Handling x Test) st 0) /\ now r' = Dead /\ reports r' = 1%nat)) /\
    (forall x, handler (fl r) x = Own -> handler st x = Own)).
  { intros kv st. split; [intros D; split|].
    - exists (mk_run Dead (set_done st) 1). split; [|auto]. eapply steps_step; [apply StepExit|]. cbn [at_exit st]. now apply uninterrupted_exit.
    - intros x Hx. exists (mk_run Dead (set_done st) 1). split; [now apply uninterrupted_signal|]. split; [|auto].
      apply StepSignal; [discriminate|discriminate|]. cbn [handler st]. unfold install. now rewrite Hx.
    - intros x Hx. cbn [handler st]. unfold install. now rewrite Hx. }
  destruct (getenv _) as [[|c e]|]; [apply Go| |apply Go].
  destruct c as [[] [] [] [] [] [] [] []]; try apply Go. intros r' St R. eapply silent_steps; [exact St|exact R|reflexivity|exact I].
Qed.

Lemma report_at_most_once_witness :
  exists r, steps (mk_run Running (spnl_channel_report_arm (fun _ => None) (started (fun _ => Default))) 0) r /\ now r = Dead /\ reports r = 1%nat.
Proof.
  destruct (report_at_most_once (fun _ => Default) (mk_run Running (started (fun _ => Default)) 0) (steps_refl _)) as [_ H].
  specialize (H (fun _ => None) eq_refl eq_refl). destruct H as [H _]. specialize (H eq_refl). destruct H as [H _]. exact H.
Defined.

(** A signal between setting the flag and writing loses the report. *)
Lemma report_can_be_lost : exists r,
  steps (mk_run (Exiting Test) (spnl_channel_report_arm (fun _ => None) (started (fun _ => Default))) 0) r /\ now r = Dead /\ reports r = O.
Proof.
  eexists. split; [|split].
  - eapply steps_step; [apply StepExiting; [discriminate|reflexivity]|]. eapply steps_step; [apply StepExiting; [discriminate|reflexivity]|].
    eapply steps_step; [apply (StepSignal TERM); [discriminate|discriminate|reflexivity]|].
    eapply steps_step; [apply StepHandling; [discriminate|reflexivity]|]. eapply steps_step; [apply StepHandled|]. apply steps_refl.
  - reflexivity.
  - reflexivity.
Qed.

End Once.
