(* ===== verification/HostSymbols.v ===== *)
(** * Symbols for the host runtime's reports ([src/runtime/spnl_runtime.c])

    - [Kallsyms]: the kernel's symbol table and the search for the symbol of an address;
    - [Elf]: the enclosing function of a file offset, read from the sections of an ELF
      image, and the path of its separate debug file;
    - [User]: a user address in a process, through its mappings.

    An image is the list of its bytes.  A read that leaves the image is undefined in the
    code (the file is mapped and its tables are not checked), and is [None] here. *)

From Stdlib Require Import Sorting.Sorted.
From S2P Require Import Prelude Bytes CText AgentRecords.
Import Stack.
Local Open Scope string_scope.
Local Open Scope list_scope.
Local Open Scope Z_scope.

(** [%llx] *)
Fixpoint hex_digits (fuel : nat) (v : Z) (acc : text) : text :=
  match fuel with
  | O => acc
  | S f => let acc := hexdigit (v mod 16) :: acc in if v / 16 =? 0 then acc else hex_digits f (v / 16) acc
  end.
Definition hex_u (v : Z) : text := hex_digits 16 v [].

Module Kallsyms.

(** [sscanf(line, "%llx %c %255s")], and only text symbols are kept. *)
Definition sym_line (line : text) : option (Z * text) :=
  match hex_run (drop_while is_space line) with
  | ([], _) => None
  | (a, s) =>
      match drop_while is_space s with
      | t :: s' =>
          match firstn 255 (word_run (drop_while is_space s')) with
          | [] => None
          | nm => if existsb (Ascii.eqb t) ["t"; "T"; "w"; "W"]%char then Some (u64 (hexdigits_val a), nm) else None
          end
      | [] => None
      end
  end.

Section Load.

(** Whether the two tables can be had at a size. *)
Variable alloc : nat -> bool.

Fixpoint load_lines (cap : nat) (tbl : list (Z * text)) (lines : list text) : option (list (Z * text)) :=
  match lines with
  | [] => Some tbl
  | l :: lines' =>
      match sym_line l with
      | None => load_lines cap tbl lines'
      | Some e =>
          if (cap <=? length tbl)%nat
          then if alloc (cap * 2)%nat then load_lines (cap * 2) (tbl ++ [e]) lines' else None
          else load_lines cap (tbl ++ [e]) lines'
      end
  end.

(** [None]: [load_err] is set. *)
Definition _spnl_kallsyms_load (file : option (list text)) : option (list (Z * text)) :=
  match file with
  | None => None
  | Some lines => let cap := Z.to_nat 16384 in if alloc cap then load_lines cap [] lines else None
  end.

End Load.

Definition pc_at (tbl : list (Z * text)) (i : nat) : Z := fst (nth i tbl (0, [])).

(** The search for the first entry above [pc]. *)
Fixpoint above (fuel : nat) (tbl : list (Z * text)) (pc : Z) (lo hi : nat) : nat :=
  match fuel with
  | O => lo
  | S f =>
      if (lo <? hi)%nat then
        let mid := (lo + (hi - lo) / 2)%nat in
        if pc_at tbl mid <=? pc then above f tbl pc (mid + 1) hi else above f tbl pc lo mid
      else lo
  end.

Definition _spnl_kallsyms_resolve (t : option (list (Z * text))) (pc : Z) : option (text * Z) :=
  match t with
  | None | Some [] => None
  | Some tbl =>
      match above (length tbl) tbl pc 0 (length tbl) with
      | O => None
      | S i => Some (snd (nth i tbl (0, [])), u64 (pc - pc_at tbl i))
      end
  end.

(** ** The search finds the symbol *)

Definition by_address (a b : Z * text) : Prop := fst a <= fst b.

Lemma sorted_le tbl i j : StronglySorted by_address tbl -> (i <= j < length tbl)%nat -> pc_at tbl i <= pc_at tbl j.
Proof.
  intros S. revert i j. induction S as [|e tbl S IH F]; intros i j H; [cbn in H; lia|].
  destruct i as [|i], j as [|j]; cbn [length] in H; unfold pc_at in *; cbn [nth]; try lia; [|apply IH; lia].
  rewrite Forall_forall in F. apply F, nth_In. lia.
Qed.

(** Everything below the result is at most [pc], everything from it on is above. *)
Lemma above_splits tbl pc : StronglySorted by_address tbl -> forall fuel lo hi,
  (hi - lo <= fuel)%nat -> (lo <= hi <= length tbl)%nat ->
  (forall i, (i < lo)%nat -> pc_at tbl i <= pc) -> (forall i, (hi <= i < length tbl)%nat -> pc < pc_at tbl i) ->
  let r := above fuel tbl pc lo hi in
  (r <= length tbl)%nat /\ (forall i, (i < r)%nat -> pc_at tbl i <= pc) /\ (forall i, (r <= i < length tbl)%nat -> pc < pc_at tbl i).
Proof.
  intros S. induction fuel as [|fuel IH]; intros lo hi Hf Hr L H; cbn [above].
  - replace hi with lo in * by lia. repeat split; auto; lia.
  - destruct (Nat.ltb_spec lo hi) as [Hl|Hl]; [|replace hi with lo in * by lia; repeat split; auto; lia].
    set (mid := (lo + (hi - lo) / 2)%nat). assert (Hm : (lo <= mid < hi)%nat) by (unfold mid; pose proof (Nat.div_lt (hi - lo) 2); lia).
    destruct (Z.leb_spec (pc_at tbl mid) pc) as [Hp|Hp].
    + apply IH; try lia; [|exact H]. intros i Hi. pose proof (sorted_le tbl i mid S). lia.
    + apply IH; try lia; [exact L|]. intros i Hi. pose proof (sorted_le tbl mid i S). lia.
Qed.

(** The reference: the last entry at or below the address, by a scan of the table. *)
Definition last_below (tbl : list (Z * text)) (pc : Z) : option (text * Z) :=
  fold_left (fun r e => if fst e <=? pc then Some (snd e, u64 (pc - fst e)) else r) tbl None.

Lemma last_below_split a b pc : Forall (fun e => fst e <= pc) a -> Forall (fun e : Z * text => pc < fst e) b ->
  last_below (a ++ b) pc = match rev a with [] => None | e :: _ => Some (snd e, u64 (pc - fst e)) end.
Proof.
  intros A B. unfold last_below. rewrite fold_left_app.
  assert (G : forall r, fold_left (fun r (e : Z * text) => if fst e <=? pc then Some (snd e, u64 (pc - fst e)) else r) b r = r).
  { induction B as [|e b He _ IH]; intros r; [reflexivity|]. cbn [fold_left]. destruct (Z.leb_spec (fst e) pc); [lia|apply IH]. }
  rewrite G. destruct a as [|e a _] using rev_ind; [reflexivity|]. rewrite fold_left_app, rev_app_distr. cbn [rev app fold_left].
  apply Forall_app in A as [_ A]. apply Forall_inv in A. destruct (Z.leb_spec (fst e) pc); [reflexivity|lia].
Qed.

Lemma resolve_scans tbl pc : StronglySorted by_address tbl -> _spnl_kallsyms_resolve (Some tbl) pc = last_below tbl pc.
Proof.
  intros S. transitivity (match above (length tbl) tbl pc 0 (length tbl) with
                          | O => None
                          | Datatypes.S i => Some (snd (nth i tbl (0, [])), u64 (pc - pc_at tbl i))
                          end); [now destruct tbl|].
  destruct (above_splits tbl pc S (length tbl) 0 (length tbl)) as (R & L & H); try lia.
  set (r := above _ _ _ _ _) in *. transitivity (last_below (firstn r tbl ++ skipn r tbl) pc); [|now rewrite firstn_skipn]. rewrite last_below_split.
  - destruct r as [|r]; [reflexivity|]. destruct (nth_error tbl r) as [e|] eqn:E; [|apply nth_error_None in E; lia].
    rewrite (firstn_S_nth_error _ _ _ E), rev_app_distr. cbn [rev app]. unfold pc_at. now rewrite (nth_error_nth _ _ _ E).
  - apply Forall_forall. intros x Hx. apply (In_nth _ _ (0, [])) in Hx as (i & Hi & <-). rewrite length_firstn in Hi.
    rewrite nth_firstn. destruct (Nat.ltb_spec i r); [|lia]. apply L. assumption.
  - apply Forall_forall. intros x Hx. apply (In_nth _ _ (0, [])) in Hx as (i & Hi & <-). rewrite length_skipn in Hi.
    rewrite nth_skipn. apply H. lia.
Qed.

(** A table whose addresses are hidden, all zero, gives every address the last name. *)
Lemma hidden_addresses_name_last tbl e pc : Forall (fun x => fst x = 0) (tbl ++ [e]) -> 0 <= pc < 2 ^ 64 ->
  _spnl_kallsyms_resolve (Some (tbl ++ [e])) pc = Some (snd e, pc).
Proof.
  intros F Hp. rewrite resolve_scans.
  - rewrite <- (app_nil_r (tbl ++ [e])), last_below_split by (constructor || (eapply Forall_impl; [|exact F]; cbn; lia)).
    rewrite rev_app_distr. cbn [rev app]. apply Forall_app in F as [_ F]. apply Forall_inv in F. rewrite F, Z.sub_0_r, wrap_small by lia. reflexivity.
  - clear - F. induction F as [|x l Hx F IH]; constructor; auto. eapply Forall_impl; [|exact F]. unfold by_address. cbn. lia.
Qed.

End Kallsyms.

Module Elf.

Declare Scope image_scope.
Delimit Scope image_scope with image.
Notation "'let*' x := a 'in' b" := (match a with Some x => b | None => None end) (at level 10, x pattern, b at level 200) : image_scope.
Local Open Scope image_scope.

Definition PT_LOAD : Z := 1.
Definition SHT_SYMTAB : Z := 2.
Definition SHT_NOTE : Z := 7.
Definition SHT_DYNSYM : Z := 11.
Definition STT_FUNC : Z := 2.
Definition NT_GNU_BUILD_ID : Z := 3.

Section Image.
Variable img : list Z.

Definition size : Z := Z.of_nat (length img).

(** A field of [n] bytes at an offset. *)
Definition rd (n : nat) (off : Z) : option Z :=
  if (0 <=? off) && (off + Z.of_nat n <=? size) then Some (le_dec (slice (Z.to_nat off) n img)) else None.

(** A string at an offset, up to its terminator. *)
Definition rd_str (off : Z) : option text :=
  if (0 <=? off) && (off <? size) then
    let s := map chr (skipn (Z.to_nat off) img) in
    if existsb (Ascii.eqb "000") s then Some (cstr s) else None
  else None.

Definition is_elf : bool := match img with 127 :: 69 :: 76 :: 70 :: _ => true | _ => false end.

(** [Elf64_Phdr]: type at 0, offset at 8, virtual address at 16, size in the file at 32. *)
Fixpoint virtual (n : nat) (ph off : Z) : option Z :=
  match n with
  | O => Some off
  | S n' =>
      let* t := rd 4 ph in
      if t =? PT_LOAD then
        let* o := rd 8 (ph + 8) in
        if o <=? off then
          let* sz := rd 8 (ph + 32) in
          if off <? u64 (o + sz) then let* va := rd 8 (ph + 16) in Some (u64 (off - o + va)) else virtual n' (ph + 56) off
        else virtual n' (ph + 56) off
      else virtual n' (ph + 56) off
  end.

(** The best function so far: its start, the offset in it and where its name is. *)
Record found := mk_found { best_val : Z; best_off : Z; best_name : Z }.

Definition consider (vaddr strtab : Z) (sym : Z) (best : option found) : option (option found) :=
  let* info := rd 1 (sym + 4) in
  if negb (Z.land info 15 =? STT_FUNC) then Some best
  else
    let* lo := rd 8 (sym + 8) in
    if lo =? 0 then Some best
    else
      let* nm := rd 4 sym in
      if nm =? 0 then Some best
      else
        let* sz := rd 8 (sym + 16) in
        let hi := u64 (lo + (if sz =? 0 then 1 else sz)) in
        if (lo <=? vaddr) && (vaddr <? hi) && (match best with Some b => best_val b | None => 0 end <=? lo)
        then Some (Some (mk_found lo (vaddr - lo) (strtab + nm)))
        else Some best.

(** The symbols from the [k]-th on.  Every symbol lies in the image or ends the loop, so
    the length of the image bounds the number of turns. *)
Fixpoint symbols (fuel : nat) (vaddr strtab sym k nsyms : Z) (best : option found) : option (option found) :=
  if k <? nsyms then
    match fuel with
    | O => None
    | S f => let* best := consider vaddr strtab sym best in symbols f vaddr strtab (sym + 24) (k + 1) nsyms best
    end
  else Some best.

(** [Elf64_Shdr]: type at 4, offset at 24, size at 32, link at 40, entry size at 56. *)
Definition section_symbols (vaddr shoff s : Z) (best : option found) : option (option found) :=
  let sh := shoff + 64 * s in
  let* t := rd 4 (sh + 4) in
  if negb (t =? SHT_SYMTAB) && negb (t =? SHT_DYNSYM) then Some best
  else
    let* es := rd 8 (sh + 56) in
    if es =? 0 then Some best
    else
      let* o := rd 8 (sh + 24) in
      let* sz := rd 8 (sh + 32) in
      let* link := rd 4 (sh + 40) in
      let* strtab := rd 8 (shoff + 64 * link + 24) in
      symbols (length img) vaddr strtab o 0 (sz / 24) best.

Fixpoint sections (n : nat) (vaddr shoff s : Z) (best : option found) : option (option found) :=
  match n with
  | O => Some best
  | S n' => let* best := section_symbols vaddr shoff s best in sections n' vaddr shoff (s + 1) best
  end.

(** The name, cut to the caller's buffer, and the offset in the function; [Some None]
    is the return value -1. *)
Definition _spnl_elf_resolve (file_off : Z) (symlen : nat) : option (option (text * Z)) :=
  if size <? 64 then Some None
  else if negb is_elf then Some None
  else
    let* phoff := rd 8 32 in
    let* phnum := rd 2 56 in
    let* vaddr := virtual (Z.to_nat phnum) phoff file_off in
    let* shoff := rd 8 40 in
    let* shnum := rd 2 60 in
    let* best := sections (Z.to_nat shnum) vaddr shoff 0 None in
    match best with
    | None => Some None
    | Some b => let* nm := rd_str (best_name b) in Some (Some (trunc symlen nm, best_off b))
    end.

(** ** The build id *)

(** [(n + 3) & ~3u] on 32 bits *)
Definition align4 (n : Z) : Z := Z.land (u32 (n + 3)) (2 ^ 32 - 4).

(** The notes of a section from [p] to [fin]; a note takes at least 12 bytes. *)
Fixpoint notes (fuel : nat) (p fin : Z) : option (list Z) :=
  if p + 12 <=? fin then
    match fuel with
    | O => None
    | S f =>
        let* namesz := rd 4 p in
        let* descsz := rd 4 (p + 4) in
        let* ty := rd 4 (p + 8) in
        let desc := p + 12 + align4 namesz in
        let next := desc + align4 descsz in
        if (ty =? NT_GNU_BUILD_ID) && (namesz =? 4) then
          let* nm := rd 4 (p + 12) in
          if (nm =? le_dec [71; 78; 85; 0]) && (0 <? descsz) && (descsz <=? 64) && (desc + descsz <=? fin)
          then match rd 1 (desc + descsz - 1) with
               | Some _ => Some (slice (Z.to_nat desc) (Z.to_nat descsz) img)
               | None => None
               end
          else notes f next fin
        else notes f next fin
    end
  else Some [].

Fixpoint build_id (n : nat) (shoff s : Z) : option (list Z) :=
  match n with
  | O => Some []
  | S n' =>
      let sh := shoff + 64 * s in
      let* t := rd 4 (sh + 4) in
      if negb (t =? SHT_NOTE) then build_id n' shoff (s + 1)
      else
        let* o := rd 8 (sh + 24) in
        let* sz := rd 8 (sh + 32) in
        let* id := notes (length img) o (o + sz) in
        match id with [] => build_id n' shoff (s + 1) | _ => Some id end
  end.

End Image.

Definition hex2 (b : Z) : text := [hexdigit (b / 16); hexdigit (b mod 16)].

(** [None] for the file: it cannot be opened or mapped. *)
Definition _spnl_debug_path_for (readable : text -> bool) (file : option (list Z)) (outlen : nat) : option (option text) :=
  match file with
  | None => Some None
  | Some img =>
      if (size img <? 64) || negb (is_elf img) then Some None
      else
        let* shoff := rd img 8 40 in
        let* shnum := rd img 2 60 in
        let* id := build_id img (Z.to_nat shnum) shoff 0 in
        match flat_map hex2 id with
        | c1 :: c2 :: ((_ :: _) as rest) =>
            let out := trunc outlen (lit "/usr/lib/debug/.build-id/" ++ [c1; c2] ++ lit "/" ++ rest ++ lit ".debug") in
            Some (if readable out then Some out else None)
        | _ => Some None
        end
  end.

(** ** The innermost function *)

Section Innermost.
Variable img : list Z.
Hypothesis bytes : Forall (fun b => 0 <= b < 256) img.

(** A function symbol: at an offset, in a section, in the file. *)
Definition sym_fn (strtab sym lo hi nm : Z) : Prop := exists info n ss,
  rd img 1 (sym + 4) = Some info /\ Z.land info 15 = STT_FUNC /\ rd img 8 (sym + 8) = Some lo /\ lo <> 0 /\
  rd img 4 sym = Some n /\ n <> 0 /\ rd img 8 (sym + 16) = Some ss /\ hi = u64 (lo + (if ss =? 0 then 1 else ss)) /\ nm = strtab + n.

Definition sec_fn (shoff s lo hi nm : Z) : Prop := exists t es o sz link strtab k,
  rd img 4 (shoff + 64 * s + 4) = Some t /\ (t = SHT_SYMTAB \/ t = SHT_DYNSYM) /\
  rd img 8 (shoff + 64 * s + 56) = Some es /\ es <> 0 /\ rd img 8 (shoff + 64 * s + 24) = Some o /\
  rd img 8 (shoff + 64 * s + 32) = Some sz /\ rd img 4 (shoff + 64 * s + 40) = Some link /\
  rd img 8 (shoff + 64 * link + 24) = Some strtab /\ 0 <= k < sz / 24 /\ sym_fn strtab (o + 24 * k) lo hi nm.

Definition file_fn (lo hi nm : Z) : Prop := exists shoff shnum s,
  rd img 8 40 = Some shoff /\ rd img 2 60 = Some shnum /\ 0 <= s < shnum /\ sec_fn shoff s lo hi nm.

(** [best] is the innermost of the functions [P] around [v]. *)
Definition innermost (v : Z) (P : Z -> Z -> Z -> Prop) (best : option found) : Prop :=
  match best with
  | None => forall lo hi nm, P lo hi nm -> ~ lo <= v < hi
  | Some b => (exists hi, P (best_val b) hi (best_name b) /\ best_val b <= v < hi /\ best_off b = v - best_val b) /\
              forall lo hi nm, P lo hi nm -> lo <= v < hi -> lo <= best_val b
  end.

Lemma innermost_iff v (P Q : Z -> Z -> Z -> Prop) best : (forall lo hi nm, P lo hi nm <-> Q lo hi nm) -> innermost v P best -> innermost v Q best.
Proof.
  intros E. destruct best as [b|]; cbn [innermost].
  - intros [(hi & H & H') A]. split; [exists hi; split; [now apply E|exact H']|]. intros lo hi' nm Hq. apply (A lo hi' nm). now apply E.
  - intros A lo hi nm Hq. apply (A lo hi nm). now apply E.
Qed.

Lemma rd_nonneg n off v : rd img n off = Some v -> 0 <= v.
Proof.
  unfold rd. case_if; [|discriminate]. intros H. injection H as <-. apply le_dec_range, Forall_forall. intros x Hx.
  rewrite Forall_forall in bytes. apply bytes. unfold slice in Hx.
  rewrite <- (firstn_skipn (Z.to_nat off) img). apply in_or_app. right.
  rewrite <- (firstn_skipn n (skipn (Z.to_nat off) img)). apply in_or_app. now left.
Qed.

Ltac read := match goal with |- context [match rd img ?n ?o with _ => _ end] => let E := fresh "E" in destruct (rd img n o) eqn:E; [|discriminate] end.

Lemma consider_ok v strtab sym P best best' : consider img v strtab sym best = Some best' -> innermost v P best ->
  innermost v (fun lo hi nm => P lo hi nm \/ sym_fn strtab sym lo hi nm) best'.
Proof.
  intros H I. assert (Skip : (forall lo hi nm, sym_fn strtab sym lo hi nm -> lo <= v < hi -> match best with Some b => lo <= best_val b | None => False end) ->
    innermost v (fun lo hi nm => P lo hi nm \/ sym_fn strtab sym lo hi nm) best).
  { intros A. destruct best as [b|]; cbn [innermost] in *.
    - destruct I as [(hi & I1 & I2) I]. split; [exists hi; tauto|]. intros lo hi' nm [Hp|Hs] Hv; [now apply (I lo hi' nm)|now apply (A lo hi' nm)].
    - intros lo hi nm [Hp|Hs] Hv; [now apply (I lo hi nm Hp)|now apply (A lo hi nm Hs)]. }
  revert H. unfold consider. read. destruct (Z.eqb_spec (Z.land z 15) STT_FUNC) as [Ef|Ef]; cbn [negb].
  2: { intros H; injection H as <-. apply Skip. intros lo hi nm (i & n & ss & H1 & H2 & _). congruence. }
  read. destruct (Z.eqb_spec z0 0) as [E00|E00].
  { intros H; injection H as <-. apply Skip. intros lo hi nm (i & n & ss & _ & _ & H1 & H2 & _). congruence. }
  read. destruct (Z.eqb_spec z1 0) as [E10|E10].
  { intros H; injection H as <-. apply Skip. intros lo hi nm (i & n & ss & _ & _ & _ & _ & H1 & H2 & _). congruence. }
  read. set (hi := u64 _). destruct ((z0 <=? v) && (v <? hi) && _) eqn:C; intros H; injection H as <-; bools.
  - cbn [innermost best_val best_off best_name]. split.
    + exists hi. split; [right; exists z, z1, z2; repeat split; auto|]. split; [lia|reflexivity].
    + intros lo' hi' nm' [Hp|(i & n & ss & _ & _ & Q & _)] Hv; [|assert (lo' = z0) by congruence; lia].
      destruct best as [b|]; cbn [innermost] in I; [|exfalso; now apply (I _ _ _ Hp)]. destruct I as [_ I]. specialize (I _ _ _ Hp Hv). lia.
  - apply Skip. intros lo' hi' nm' (i & n & ss & _ & _ & H1 & _ & _ & _ & H4 & H5 & _) Hv. assert (lo' = z0) by congruence. assert (ss = z2) by congruence. subst lo' ss.
    fold hi in H5. subst hi'. pose proof (rd_nonneg _ _ _ H1).
    apply andb_false_iff in C as [C|C]; [apply andb_false_iff in C as [C|C]; bools; lia|]. destruct best; bools; lia.
Qed.

Lemma symbols_ok v strtab fuel : forall sym k n P best best', symbols img fuel v strtab sym k n best = Some best' -> innermost v P best ->
  innermost v (fun lo hi nm => P lo hi nm \/ exists j, k <= j < n /\ sym_fn strtab (sym + 24 * (j - k)) lo hi nm) best'.
Proof.
  induction fuel as [|fuel IH]; intros sym k n P best best'; cbn [symbols]; destruct (Z.ltb_spec k n) as [Hk|Hk]; try discriminate.
  1, 3: intros H; injection H as <-; apply innermost_iff; intros lo hi nm; split; [tauto|]; intros [H|(j & Hj & _)]; [exact H|lia].
  destruct (consider img v strtab sym best) as [b|] eqn:C; [|discriminate]. intros H I.
  eapply innermost_iff; [|exact (IH _ _ _ _ _ _ H (consider_ok _ _ _ _ _ _ C I))]. intros lo hi nm. cbv beta. split.
  - intros [[Hp|Hs]|(j & Hj & Hs)]; [now left|right; exists k; split; [lia|]; now replace (sym + 24 * (k - k)) with sym by lia|].
    right. exists j. split; [lia|]. now replace (sym + 24 * (j - k)) with (sym + 24 + 24 * (j - (k + 1))) by lia.
  - intros [Hp|(j & Hj & Hs)]; [tauto|]. destruct (Z.eq_dec j k) as [->|Hne].
    + left. right. now replace (sym + 24 * (k - k)) with sym in Hs by lia.
    + right. exists j. split; [lia|]. now replace (sym + 24 + 24 * (j - (k + 1))) with (sym + 24 * (j - k)) by lia.
Qed.

Lemma section_ok v shoff s P best best' : section_symbols img v shoff s best = Some best' -> innermost v P best ->
  innermost v (fun lo hi nm => P lo hi nm \/ sec_fn shoff s lo hi nm) best'.
Proof.
  intros H I. assert (Skip : (forall lo hi nm, ~ sec_fn shoff s lo hi nm) -> innermost v (fun lo hi nm => P lo hi nm \/ sec_fn shoff s lo hi nm) best).
  { intros A. eapply innermost_iff; [|exact I]. intros lo hi nm. split; [tauto|]. intros [Hp|Hs]; [exact Hp|now apply A in Hs]. }
  revert H. unfold section_symbols. read. destruct (negb (z =? SHT_SYMTAB) && negb (z =? SHT_DYNSYM)) eqn:T.
  { intros H; injection H as <-. apply Skip. intros lo hi nm (t & es & o & sz & link & st & k & H1 & H2 & _). replace t with z in H2 by congruence. bools. lia. }
  read. destruct (Z.eqb_spec z0 0) as [E00|E00].
  { intros H; injection H as <-. apply Skip. intros lo hi nm (t & es & o & sz & link & st & k & _ & _ & H1 & H2 & _). congruence. }
  do 4 read. intros H. eapply innermost_iff; [|exact (symbols_ok _ _ _ _ _ _ _ _ _ H I)]. intros lo hi nm. cbv beta.
  split; intros [Hp|Hs]; try tauto; right.
  - destruct Hs as (j & Hj & Hs). exists z, z0, z1, z2, z3, z4, j. rewrite Z.sub_0_r in Hs. repeat split; auto; try lia.
  - destruct Hs as (t & es & o & sz & link & st & k & H1 & H2 & H3 & H4 & H5 & H6 & H7 & H8 & Hk & Hs).
    replace o with z1 in * by congruence. replace sz with z2 in * by congruence. replace link with z3 in * by congruence. replace st with z4 in * by congruence.
    exists k. now rewrite Z.sub_0_r.
Qed.

Lemma sections_ok v shoff n : forall s P best best', sections img n v shoff s best = Some best' -> innermost v P best ->
  innermost v (fun lo hi nm => P lo hi nm \/ exists j, s <= j < s + Z.of_nat n /\ sec_fn shoff j lo hi nm) best'.
Proof.
  induction n as [|n IH]; intros s P best best'; cbn [sections].
  - intros H; injection H as <-. apply innermost_iff. intros lo hi nm. split; [tauto|]. intros [H|(j & Hj & _)]; [exact H|lia].
  - destruct (section_symbols img v shoff s best) as [b|] eqn:C; [|discriminate]. intros H I.
    eapply innermost_iff; [|exact (IH _ _ _ _ H (section_ok _ _ _ _ _ _ C I))]. intros lo hi nm. cbv beta. split.
    + intros [[Hp|Hs]|(j & Hj & Hs)]; [now left|right; exists s; split; [lia|exact Hs]|right; exists j; split; [lia|exact Hs]].
    + intros [Hp|(j & Hj & Hs)]; [tauto|]. destruct (Z.eq_dec j s) as [->|Hne]; [tauto|right; exists j; split; [lia|exact Hs]].
Qed.

(** The name printed for a file offset is that of the innermost function: of the
    function symbols of the image whose range contains the address of the offset, one
    that starts last; and no name is found exactly when the file is not an ELF image or
    no function contains the address. *)
Theorem elf_resolve_innermost off cap r : _spnl_elf_resolve img off cap = Some r ->
  match r with
  | Some (name, d) => exists phoff phnum v lo hi nm s,
      rd img 8 32 = Some phoff /\ rd img 2 56 = Some phnum /\ virtual img (Z.to_nat phnum) phoff off = Some v /\
      file_fn lo hi nm /\ lo <= v < hi /\ d = v - lo /\ rd_str img nm = Some s /\ name = trunc cap s /\
      forall lo' hi' nm', file_fn lo' hi' nm' -> lo' <= v < hi' -> lo' <= lo
  | None => size img < 64 \/ is_elf img = false \/
      exists phoff phnum v, rd img 8 32 = Some phoff /\ rd img 2 56 = Some phnum /\ virtual img (Z.to_nat phnum) phoff off = Some v /\
        forall lo hi nm, file_fn lo hi nm -> ~ lo <= v < hi
  end.
Proof.
  unfold _spnl_elf_resolve. destruct (Z.ltb_spec (size img) 64) as [Hs|Hs]; [intros H; injection H as <-; now left|].
  destruct (is_elf img) eqn:He; cbn [negb]; [|intros H; injection H as <-; tauto].
  do 2 read. destruct (virtual img (Z.to_nat z0) z off) as [v|] eqn:Ev; [|discriminate]. do 2 read.
  destruct (sections img (Z.to_nat z2) v z1 0 None) as [best|] eqn:Eb; [|discriminate].
  pose proof (sections_ok v z1 _ _ (fun _ _ _ => False) _ _ Eb ltac:(cbn; tauto)) as I.
  apply (innermost_iff _ _ file_fn) in I.
  2: { intros lo hi nm. rewrite Z2Nat.id by (eapply rd_nonneg; eassumption). split.
       - intros [[]|(j & Hj & Hf)]. exists z1, z2, j. auto.
       - intros (sh & n & j & H1 & H2 & Hj & Hf). replace sh with z1 in Hf by congruence. replace n with z2 in Hj by congruence. right. exists j. split; [lia|exact Hf]. }
  destruct best as [b|]; cbn [innermost] in I.
  - destruct (rd_str img (best_name b)) as [s|] eqn:En; [|discriminate]. intros H; injection H as <-.
    destruct I as [(hi & I1 & I2 & I3) I4]. exists z, z0, v, (best_val b), hi, (best_name b), s. repeat split; auto; lia.
  - intros H; injection H as <-. right. right. exists z, z0, v. auto.
Qed.

End Innermost.

(** An image with two functions, the second inside the first. *)
Definition sample_image : list Z :=
  [127; 69; 76; 70] ++ repeat 0 36 ++ le_enc 8 64 ++ repeat 0 12 ++ le_enc 2 2 ++ le_enc 2 0 ++
  (le_enc 4 0 ++ le_enc 4 2 ++ repeat 0 16 ++ le_enc 8 192 ++ le_enc 8 48 ++ le_enc 4 1 ++ repeat 0 12 ++ le_enc 8 24) ++
  (le_enc 4 0 ++ le_enc 4 3 ++ repeat 0 16 ++ le_enc 8 240 ++ le_enc 8 13 ++ repeat 0 24) ++
  (le_enc 4 1 ++ [2; 0] ++ le_enc 2 1 ++ le_enc 8 256 ++ le_enc 8 128) ++
  (le_enc 4 7 ++ [18; 0] ++ le_enc 2 1 ++ le_enc 8 288 ++ le_enc 8 16) ++
  0 :: map code (lit "outer") ++ 0 :: map code (lit "inner") ++ [0].

Lemma elf_resolve_innermost_witness :
  _spnl_elf_resolve sample_image 290 256 = Some (Some (lit "inner", 2)) /\
  exists lo hi nm, file_fn sample_image lo hi nm /\ lo <= 290 < hi /\
    forall lo' hi' nm', file_fn sample_image lo' hi' nm' -> lo' <= 290 < hi' -> lo' <= lo.
Proof.
  assert (E : _spnl_elf_resolve sample_image 290 256 = Some (Some (lit "inner", 2))) by (vm_compute; reflexivity). split; [exact E|].
  destruct (elf_resolve_innermost sample_image ltac:(repeat constructor; vm_compute; intuition discriminate) 290 256 _ E)
    as (ph & n & v & lo & hi & nm & s & Hp & Hn & Hv & Hf & Hr & _ & _ & _ & Hm).
  assert (v = 290) as ->. { vm_compute in Hp. injection Hp as <-. vm_compute in Hn. injection Hn as <-. vm_compute in Hv. now injection Hv as <-. }
  exists lo, hi, nm. auto.
Defined.

End Elf.

Module User.
Import Elf.
Local Open Scope image_scope.

Section Process.

(** The mappings of a process ([/proc/<pid>/maps], by lines), the files, and access to them. *)
Variable maps : Z -> option (list text).
Variable file : text -> option (list Z).
Variable readable : text -> bool.

Record mapping := mk_mapping { m_start : Z; m_end : Z; m_perms : text; m_off : Z; m_path : text }.

Definition hex_field (s : text) : option (Z * text) :=
  match hex_run (drop_while is_space s) with ([], _) => None | (a, r) => Some (u64 (hexdigits_val a), r) end.

Definition skip_word (s : text) : text := let s := drop_while is_space s in skipn (length (word_run s)) s.

Fixpoint to_newline (s : text) : text :=
  match s with [] => [] | c :: s' => if Ascii.eqb c "010" then [] else c :: to_newline s' end.

(** [sscanf(line, "%lx-%lx %7s %lx %*s %*s %399[^\n]")] with at least four fields read, on
    the plain hexadecimal the kernel prints. *)
Definition map_line (line : text) : option mapping :=
  let* (start, s) := hex_field line in
  match s with
  | c :: s =>
      if Ascii.eqb c "-" then
        let* (fin, s) := hex_field s in
        let s := drop_while is_space s in
        match firstn 7 (word_run s) with
        | [] => None
        | perms =>
            let* (off, s) := hex_field (skipn (length perms) s) in
            Some (mk_mapping start fin perms off (firstn 399 (to_newline (drop_while is_space (skip_word (skip_word s))))))
        end
      else None
  | [] => None
  end.

Definition covers (pc : Z) (m : mapping) : bool :=
  (m_start m <=? pc) && (pc <? m_end m) && existsb (Ascii.eqb "x") (m_perms m).

Definition base_name (p : text) : text := match split_at_last "/" p with Some (_, b) => b | None => p end.

Definition named (outlen : nat) (sym : text) (off : Z) (bn : text) : text :=
  trunc outlen (sym ++ lit "+0x" ++ hex_u off ++ lit " [" ++ bn ++ lit "]").

(** What is printed for an address in a mapping. *)
Definition in_mapping (pc : Z) (outlen : nat) (m : mapping) : option (Z * text) :=
  match drop_while (Ascii.eqb " ") (m_path m) with
  | (c :: _) as p =>
      if Ascii.eqb c "/" then
        let bn := base_name p in
        let file_off := u64 (pc - m_start m + m_off m) in
        let resolve f := match file f with None => Some None | Some img => _spnl_elf_resolve img file_off 256 end in
        let* r := resolve p in
        match r with
        | Some (sym, off) => Some (0, named outlen sym off bn)
        | None =>
            let* d := _spnl_debug_path_for readable (file p) 512 in
            let* r := (match d with Some dbg => resolve dbg | None => Some None end) in
            match r with
            | Some (sym, off) => Some (0, named outlen sym off bn)
            | None => Some (-1, trunc outlen (lit "0x" ++ hex_u pc ++ lit " [" ++ bn ++ lit "]"))
            end
        end
      else Some (-1, trunc outlen (lit "0x" ++ hex_u pc))
  | [] => Some (-1, trunc outlen (lit "0x" ++ hex_u pc))
  end.

Fixpoint find_mapping (pc : Z) (lines : list text) : option mapping :=
  match lines with
  | [] => None
  | l :: lines' =>
      match map_line l with
      | Some m => if covers pc m then Some m else find_mapping pc lines'
      | None => find_mapping pc lines'
      end
  end.

Definition spnl_sym_user (pid pc : Z) (outlen : nat) : option (Z * text) :=
  match outlen with
  | O => Some (-1, [])
  | _ =>
      match maps pid with
      | None => Some (-1, trunc outlen (lit "0x" ++ hex_u pc))
      | Some lines =>
          match find_mapping pc lines with
          | None => Some (-1, trunc outlen (lit "0x" ++ hex_u pc))
          | Some m => in_mapping pc outlen m
          end
      end
  end.

End Process.

(** [sym+0xoff [bin]] becomes [sym [bin]]. *)
Fixpoint _spnl_folded_frame (s : text) : text :=
  match s with
  | [] => []
  | c :: s' =>
      match strip_prefix (lit "+0x") s with
      | Some _ => match split_at " " s with Some (_, r) => " "%char :: r | None => [] end
      | None => c :: _spnl_folded_frame s'
      end
  end.

End User.
