(* ===== verification/HostReports.v ===== *)
(** * The reports of the host runtime ([src/runtime/spnl_runtime.c])

    What the runtime prints from the maps of the loaded object:
    - [Maps]: a map as libbpf shows it;
    - [Hist]: log2 and linear histograms;
    - [Stacks]: stack traces and folded stacks, with the memo of user frames;
    - [Deadlocks]: lock-order inversions;
    - [Leaks]: outstanding allocations by stack. *)

From Stdlib Require Import Permutation Sorting.Sorted.
From S2P Require Import Prelude Bytes CText OtlpHist AgentRecords HostSymbols.
Local Open Scope string_scope.
Local Open Scope list_scope.
Local Open Scope Z_scope.

(** Two elements with the same image under a map without repetitions are the same. *)
Lemma NoDup_map_inv_in {A B} (f : A -> B) l x y : NoDup (map f l) -> In x l -> In y l -> f x = f y -> x = y.
Proof.
  induction l as [|z l IH]; cbn [map In]; intros N Hx Hy E; [easy|]. inversion N as [|? ? Nz N']; subst.
  destruct Hx as [->|Hx], Hy as [->|Hy]; auto; exfalso; apply Nz; [rewrite E|rewrite <- E]; now apply in_map.
Qed.

Module Maps.

Definition EINVAL : Z := 22.
Definition ENOENT : Z := 2.
Definition ENOMEM : Z := 12.

Definition BPF_MAP_TYPE_HASH : Z := 1.
Definition BPF_MAP_TYPE_ARRAY : Z := 2.
Definition BPF_MAP_TYPE_STACK_TRACE : Z := 7.

(** A map of the loaded object: keys and values as words, the keys in the order in which
    [bpf_map_get_next_key] hands them out. *)
Record bpf_map := mk_map {
  m_type : Z;
  m_max : Z;
  m_fd : Z;
  m_keys : list (list Z);
  m_lookup : list Z -> option (list Z)
}.

Definition object : Type := text -> option bpf_map.

(** Finding a map of a type: the map, or the error returned. *)
Definition open_map (o : object) (name : text) (ty : Z) : bpf_map + Z :=
  match o name with
  | None => inr (- ENOENT)
  | Some m => if negb (m_type m =? ty) then inr (- EINVAL) else if m_fd m <? 0 then inr (m_fd m) else inl m
  end.

(** The growth of a table by doubling; [None] when the memory cannot be had. *)
Definition grow (alloc : nat -> bool) (first cap n : nat) : option nat :=
  if (cap <=? n)%nat
  then let cap' := match cap with O => first | _ => (cap * 2)%nat end in if alloc cap' then Some cap' else None
  else Some cap.

(** [%Ns] and [%-Ns] *)
Definition padl (n : nat) (s : text) : text := repeat " "%char (n - length s) ++ s.
Definition padr (n : nat) (s : text) : text := s ++ repeat " "%char (n - length s).
Definition nl : text := ["010"%char].

End Maps.

Module Hist.
Import Maps Doubles Percentile.

Definition bar_width : Z := 40.

Definition bars (c mx : Z) : Z := if mx =? 0 then 0 else Z.min bar_width (u64 (c * bar_width) / mx).

Definition bar (c mx : Z) : text :=
  repeat "*"%char (Z.to_nat (bars c mx)) ++ repeat " "%char (Z.to_nat (bar_width - bars c mx)).

(** The first and the last slot with samples, and the largest count. *)
Fixpoint active (i : nat) (cs : list Z) (r : option (nat * nat)) (mx : Z) : option (nat * nat) * Z :=
  match cs with
  | [] => (r, mx)
  | c :: cs' =>
      if c =? 0 then active (S i) cs' r mx
      else active (S i) cs' (Some (match r with Some (lo, _) => lo | None => i end, i)) (Z.max mx c)
  end.

(** [1ULL << k]; undefined from 64 on. *)
Definition shl1 (k : nat) : option Z := if (k <? 64)%nat then Some (2 ^ Z.of_nat k) else None.

Definition hist_row (mx : Z) (i : nat) (c : Z) : option text :=
  let row lo hi := padl 10 (dec_u lo) ++ lit " -> " ++ padr 10 (dec_u hi) ++ lit " : " ++ padr 8 (dec_u c) ++ lit " |" ++ bar c mx ++ lit "|" ++ nl in
  match i with
  | O => Some (row 0 1)
  | _ => match shl1 i, shl1 (S i) with Some lo, Some hi => Some (row lo (hi - 1)) | _, _ => None end
  end.

Fixpoint rows (f : nat -> Z -> option text) (i : nat) (cs : list Z) : option text :=
  match cs with
  | [] => Some []
  | c :: cs' => match f i c, rows f (S i) cs' with Some a, Some b => Some (a ++ b) | _, _ => None end
  end.

(** [None]: undefined behaviour, the label of slot 63. *)
Definition _spnl_hist_print_counts (cs : list Z) (label : text) : option text :=
  let '(r, mx) := active 0 cs None 0 in
  let head := lit "  " ++ padl 16 label ++ lit "        : count    distribution" ++ nl in
  match r with
  | None => Some (head ++ lit "  (no samples)" ++ nl)
  | Some (lo, hi) => option_map (app head) (rows (hist_row mx) lo (slice lo (S hi - lo) cs))
  end.

Definition label_or (label : option text) : text := match label with Some ((_ :: _) as l) => l | _ => lit "value" end.

Definition word (v : option (list Z)) : Z := match v with Some (x :: _) => x | _ => 0 end.

(** The counts of an ARRAY histogram of 1 to 64 slots. *)
Definition open_array (o : object) (name : text) (limit : bool) : (bpf_map * list Z) + Z :=
  match o name with
  | None => inr (- ENOENT)
  | Some m =>
      if negb (m_type m =? BPF_MAP_TYPE_ARRAY) then inr (- EINVAL)
      else if (m_max m =? 0) || (limit && (64 <? m_max m)) then inr (- EINVAL)
      else if m_fd m <? 0 then inr (m_fd m)
      else inl (m, map (fun i => word (m_lookup m [Z.of_nat i])) (seq 0 (Z.to_nat (m_max m))))
  end.

(** Return value and what is printed. *)
Definition spnl_print_log2_hist_obj (o : option object) (name label : option text) : Z * option text :=
  match o, name with
  | Some o, Some name =>
      match open_array o name true with
      | inr e => (e, Some [])
      | inl (_, cs) => (0, _spnl_hist_print_counts cs (label_or label))
      end
  | _, _ => (- EINVAL, Some [])
  end.

Definition spnl_log2_hist_percentile_obj (o : option object) (name : option text) (p : double) : Z * option Z :=
  match o, name with
  | Some o, Some name =>
      if d_le p (d_of_Z 0) || d_lt (d_of_Z 1) p then (- EINVAL, None)
      else match open_array o name true with inr e => (e, None) | inl (_, cs) => (0, _spnl_hist_percentile_counts cs p) end
  | _, _ => (- EINVAL, None)
  end.

(** The 64 slots of a key; an absent key is an empty histogram. *)
Definition _spnl_hist_keyed_lookup (o : object) (name : text) (key : Z) : list Z + Z :=
  match open_map o name BPF_MAP_TYPE_HASH with
  | inr e => inr e
  | inl m => inl (match m_lookup m [key] with Some cs => cs | None => repeat 0 64 end)
  end.

Definition spnl_print_log2_hist_keyed_obj (o : option object) (name : option text) (key : Z) (label : option text) : Z * option text :=
  match o, name with
  | Some o, Some name =>
      match _spnl_hist_keyed_lookup o name key with
      | inr e => (e, Some [])
      | inl cs => (0, _spnl_hist_print_counts cs (label_or label))
      end
  | _, _ => (- EINVAL, Some [])
  end.

Definition spnl_log2_hist_percentile_keyed_obj (o : option object) (name : option text) (key : Z) (p : double) : Z * option Z :=
  match o, name with
  | Some o, Some name =>
      if d_le p (d_of_Z 0) || d_lt (d_of_Z 1) p then (- EINVAL, None)
      else match _spnl_hist_keyed_lookup o name key with inr e => (e, None) | inl cs => (0, _spnl_hist_percentile_counts cs p) end
  | _, _ => (- EINVAL, None)
  end.

Definition total (cs : list Z) : Z := fold_left (fun t c => u64 (t + c)) cs 0.

Definition spnl_log2_hist_count_keyed_obj (o : option object) (name : option text) (key : Z) : Z + Z :=
  match o, name with
  | Some o, Some name => match _spnl_hist_keyed_lookup o name key with inr e => inr e | inl cs => inl (total cs) end
  | _, _ => inr (- EINVAL)
  end.

Definition spnl_hist_buckets_keyed_obj (o : option object) (name : option text) (key : Z) : list Z + Z :=
  match o, name with Some o, Some name => _spnl_hist_keyed_lookup o name key | _, _ => inr (- EINVAL) end.

(** A slot label: the caller's format with its [%d]. *)
Fixpoint fmt_d (f : text) (i : Z) : text :=
  match f with
  | [] => []
  | c :: f' => match strip_prefix (lit "%d") f with Some r => dec_s i ++ r | None => c :: fmt_d f' i end
  end.

Definition linear_row (fmt : text) (mx : Z) (i : nat) (c : Z) : text :=
  padl 18 (trunc 64 (fmt_d fmt (Z.of_nat i))) ++ lit " : " ++ padr 8 (dec_u c) ++ lit " |" ++ bar c mx ++ lit "|" ++ nl.

(** An empty first slot is left out, and nothing is printed from an empty end slot on. *)
Fixpoint linear_rows (fmt : text) (mx : Z) (n i : nat) (cs : list Z) : text :=
  match cs with
  | [] => []
  | c :: cs' =>
      if (c =? 0) && ((i =? 0)%nat || (i =? n - 1)%nat) then
        if existsb (fun w => negb (w =? 0)) cs' then
          (if (i =? 0)%nat then [] else linear_row fmt mx i c) ++ linear_rows fmt mx n (S i) cs'
        else []
      else linear_row fmt mx i c ++ linear_rows fmt mx n (S i) cs'
  end.

Definition spnl_print_linear_hist_obj (o : option object) (name fmt : option text) : Z * text :=
  match o, name with
  | Some o, Some name =>
      let fmt := match fmt with Some ((_ :: _) as f) => f | _ => lit "%d" end in
      match open_array o name false with
      | inr e => (e, [])
      | inl (_, cs) =>
          (0, lit "  " ++ padl 16 (lit "slot") ++ lit " : count    distribution" ++ nl ++
              linear_rows fmt (fold_left Z.max cs 0) (length cs) 0 cs)
      end
  | _, _ => (- EINVAL, [])
  end.

(** ** The bars *)

(** Below 2^64 / 40 samples a bar is its share of the largest count, rounded down: the
    largest slot fills the width, and more samples never give a shorter bar. *)
Lemma bars_proportional c mx : 0 <= c <= mx -> 0 < mx -> mx * bar_width < 2 ^ 64 -> bars c mx = c * bar_width / mx /\ bars mx mx = bar_width.
Proof.
  intros Hc Hm Hb. unfold bars, bar_width in *. destruct (Z.eqb_spec mx 0); [lia|]. rewrite !wrap_small by lia. split.
  - apply Z.min_r. apply Z.div_le_upper_bound; lia.
  - rewrite Z.mul_comm, Z.div_mul by lia. reflexivity.
Qed.

Lemma bars_monotone c c' mx : 0 <= c <= c' -> c' <= mx -> 0 < mx -> mx * bar_width < 2 ^ 64 -> bars c mx <= bars c' mx.
Proof.
  intros Hc Hm H0 Hb. rewrite (proj1 (bars_proportional c mx ltac:(lia) H0 Hb)), (proj1 (bars_proportional c' mx ltac:(lia) H0 Hb)).
  apply Z.div_le_mono; [lia|]. unfold bar_width. lia.
Qed.

(** A sample in slot 63 makes the report undefined: its label shifts by 64. *)
Lemma slot_63_undefined label : _spnl_hist_print_counts (repeat 0 63 ++ [1]) label = None.
Proof. unfold _spnl_hist_print_counts. cbn [active app repeat Z.eqb]. reflexivity. Qed.

End Hist.

Module Stacks.
Import Maps Hist Kallsyms User.

Definition MAX_FRAMES : nat := 127.

(** The frames up to the first zero. *)
Fixpoint frames_of (n : nat) (pcs : list Z) : list Z :=
  match n, pcs with
  | S n', pc :: pcs' => if pc =? 0 then [] else pc :: frames_of n' pcs'
  | _, _ => []
  end.

Section Kernel.
Variable syms : option (list (Z * text)).

Definition sym_off (pc : Z) : text :=
  match _spnl_kallsyms_resolve syms pc with
  | Some (s, off) => s ++ lit "+0x" ++ hex_u off
  | None => lit "0x" ++ hex_u pc
  end.

(** [err]: [errno] after a failed lookup, and its text. *)
Definition spnl_print_stack_trace_obj (o : option object) (name : option text) (stack_id : Z) (symbolize : bool) (err : Z * text) : Z * text :=
  match o, name with
  | Some o, Some name =>
      match open_map o name BPF_MAP_TYPE_STACK_TRACE with
      | inr e => (e, [])
      | inl m =>
          match m_lookup m [stack_id] with
          | None => (- fst err, lit "  stack id=" ++ dec_u stack_id ++ lit ": lookup failed (" ++ snd err ++ lit ")" ++ nl)
          | Some pcs =>
              let l := frames_of MAX_FRAMES pcs in
              (0, lit "  stack id=" ++ dec_u stack_id ++ lit ":" ++ nl ++
                  flat_map (fun pc => lit "    " ++ (if symbolize then sym_off pc else lit "0x" ++ hex_u pc) ++ nl) l ++
                  match l with [] => lit "    (empty)" ++ nl | _ => [] end)
          end
      end
  | _, _ => (- EINVAL, [])
  end.

(** A frame of a folded stack: no offset, so that a function is one box. *)
Definition folded_kernel (pc : Z) : text :=
  match _spnl_kallsyms_resolve syms pc with Some (s, _) => s | None => lit "0x" ++ hex_u pc end.

End Kernel.

Fixpoint join_semi (l : list text) : text :=
  match l with [] => [] | [x] => x | x :: l' => x ++ lit ";" ++ join_semi l' end.

Definition line (stack : text) (n : Z) : text := stack ++ lit " " ++ dec_u n ++ nl.
Definition unknown (sid : Z) : text := lit "[unknown];stack_" ++ dec_u sid.

(** One line per key with samples, oldest frame first. *)
Fixpoint folded_lines (frame : Z -> text) (hist stacks : bpf_map) (keys : list (list Z)) : list text :=
  match keys with
  | [] => []
  | k :: keys' =>
      match m_lookup hist k with
      | None => folded_lines frame hist stacks keys'
      | Some cs =>
          if total cs =? 0 then folded_lines frame hist stacks keys'
          else
            let sid := u32 (hd 0 k) in
            let stack := match m_lookup stacks [sid] with
                         | None => unknown sid
                         | Some pcs => match frames_of MAX_FRAMES pcs with [] => unknown sid | l => join_semi (map frame (rev l)) end
                         end in
            line stack (total cs) :: folded_lines frame hist stacks keys'
      end
  end.

Definition open_folded (o : option object) (hist_name stacks_name : option text) : (bpf_map * bpf_map) + Z :=
  match o, hist_name, stacks_name with
  | Some o, Some h, Some s =>
      match open_map o h BPF_MAP_TYPE_HASH with
      | inr e => inr e
      | inl hm => match open_map o s BPF_MAP_TYPE_STACK_TRACE with inr e => inr e | inl sm => inl (hm, sm) end
      end
  | _, _, _ => inr (- EINVAL)
  end.

Definition spnl_print_folded_stacks_obj (syms : option (list (Z * text))) (o : option object) (hist_name stacks_name : option text) : Z * list text :=
  match open_folded o hist_name stacks_name with
  | inr e => (e, [])
  | inl (hm, sm) => let ls := folded_lines (folded_kernel syms) hm sm (m_keys hm) in (Z.of_nat (length ls), ls)
  end.

(** ** The memo of user frames *)

Record slot := mk_slot { e_pid : Z; e_pc : Z; e_frame : text }.

Definition FRAME_CACHE_N : nat := Z.to_nat 8192.

Section Cache.

(** The folded name of a user address: [spnl_sym_user] into 288 bytes and
    [_spnl_folded_frame]; [None] where reading an image is undefined. *)
Variable resolve : Z -> Z -> option text.

Inductive probed := Hit (frame : text) | Miss (j : nat) | Full.

Fixpoint probe (path : list nat) (c : list slot) (pid pc : Z) : probed :=
  match path with
  | [] => Full
  | j :: path' =>
      let e := nth j c (mk_slot 0 0 []) in
      if (e_pc e =? pc) && (e_pid e =? pid) then Hit (e_frame e)
      else if e_pc e =? 0 then Miss j
      else probe path' c pid pc
  end.

(** The slots from the hash on, cyclically. *)
Definition path_of (n : nat) (pid pc : Z) : list nat :=
  let idx := Z.lxor (Z.shiftr pc 4) (u32 pid) mod Z.of_nat n in
  map (fun k => Z.to_nat ((idx + Z.of_nat k) mod Z.of_nat n)) (seq 0 n).

(** The cache is [None] when it could not be allocated. *)
Definition _spnl_frame_cached (c : option (list slot)) (pid pc : Z) : option (text * option (list slot)) :=
  match c with
  | Some e =>
      if pc =? 0 then option_map (fun s => (s, c)) (resolve pid pc)
      else
        match probe (path_of (length e) pid pc) e pid pc with
        | Hit s => Some (s, c)
        | Miss j => option_map (fun s => (s, Some (upd e j (mk_slot pid pc s)))) (resolve pid pc)
        | Full => option_map (fun s => (s, c)) (resolve pid pc)
        end
  | None => option_map (fun s => (s, c)) (resolve pid pc)
  end.

Fixpoint frames_cached (c : option (list slot)) (pid : Z) (pcs : list Z) : option (list text * option (list slot)) :=
  match pcs with
  | [] => Some ([], c)
  | pc :: pcs' =>
      match _spnl_frame_cached c pid pc with
      | None => None
      | Some (s, c) => match frames_cached c pid pcs' with None => None | Some (l, c) => Some (s :: l, c) end
      end
  end.

Fixpoint folded_user_lines (override : Z) (hist stacks : bpf_map) (c : option (list slot)) (keys : list (list Z)) : option (list text) :=
  match keys with
  | [] => Some []
  | k :: keys' =>
      match m_lookup hist k with
      | None => folded_user_lines override hist stacks c keys'
      | Some cs =>
          if total cs =? 0 then folded_user_lines override hist stacks c keys'
          else
            let pid := if 0 <=? override then override else sgn 32 (Z.shiftr (hd 0 k) 32) in
            let sid := u32 (hd 0 k) in
            let stack := match m_lookup stacks [sid] with
                         | None => Some (unknown sid, c)
                         | Some pcs =>
                             match frames_of MAX_FRAMES pcs with
                             | [] => Some (unknown sid, c)
                             | l => option_map (fun x => (join_semi (fst x), snd x)) (frames_cached c pid (rev l))
                             end
                         end in
            match stack with
            | None => None
            | Some (s, c) => option_map (cons (line s (total cs))) (folded_user_lines override hist stacks c keys')
            end
      end
  end.

Definition folded_user_report (calloc : bool) (o : option object) (hist_name stacks_name : option text) (override : Z)
  : option (Z * list text) :=
  match open_folded o hist_name stacks_name with
  | inr e => Some (e, [])
  | inl (hm, sm) =>
      let c := if calloc then Some (repeat (mk_slot 0 0 []) FRAME_CACHE_N) else None in
      option_map (fun ls => (Z.of_nat (length ls), ls)) (folded_user_lines override hm sm c (m_keys hm))
  end.

End Cache.

(** A user frame: the symbol into 288 bytes, without its offset. *)
Definition user_frame (maps : Z -> option (list text)) (file : text -> option (list Z)) (readable : text -> bool) (pid pc : Z) : option text :=
  option_map (fun r => _spnl_folded_frame (snd r)) (spnl_sym_user maps file readable pid pc 288).

Definition spnl_print_folded_user_stacks_obj (maps : Z -> option (list text)) (file : text -> option (list Z)) (readable : text -> bool) :=
  folded_user_report (user_frame maps file readable).

(** ** The memo is transparent and resolves once *)

Section Memo.
Variable resolve : Z -> Z -> option text.

(** Every taken slot holds the frame of its address. *)
Definition faithful (c : list slot) : Prop := Forall (fun e => e_pc e <> 0 -> resolve (e_pid e) (e_pc e) = Some (e_frame e)) c.

Lemma probe_hit path c pid pc s : faithful c -> pc <> 0 -> probe path c pid pc = Hit s -> resolve pid pc = Some s.
Proof.
  intros F Hp. induction path as [|j path IH]; cbn [probe]; [discriminate|].
  destruct ((e_pc _ =? pc) && _) eqn:E; [|destruct (_ =? 0); [discriminate|exact IH]].
  intros H; injection H as <-. bools. destruct (Nat.lt_ge_cases j (length c)) as [Hj|Hj].
  - unfold faithful in F. rewrite Forall_forall in F. rewrite <- (F (nth j c (mk_slot 0 0 []))); [congruence|now apply nth_In|congruence].
  - rewrite nth_overflow in * by exact Hj. cbn [e_pc e_pid] in *. congruence.
Qed.

Lemma faithful_upd c j pid pc s : faithful c -> resolve pid pc = Some s -> faithful (upd c j (mk_slot pid pc s)).
Proof.
  intros F H. unfold faithful in *. revert j. induction F as [|e c He F IH]; intros [|j]; cbn [upd]; constructor; auto; now constructor.
Qed.

Lemma cached_faithful c pid pc : faithful c ->
  match _spnl_frame_cached resolve (Some c) pid pc with
  | Some (s, c') => resolve pid pc = Some s /\ exists e, c' = Some e /\ faithful e /\ length e = length c
  | None => resolve pid pc = None
  end.
Proof.
  intros F. unfold _spnl_frame_cached. destruct (Z.eqb_spec pc 0) as [->|Hp].
  { destruct (resolve pid 0); cbn [option_map]; [split; [reflexivity|now exists c]|reflexivity]. }
  destruct (probe _ c pid pc) as [s|j|] eqn:E; [split; [now apply (probe_hit (path_of (length c) pid pc) c pid pc s)|now exists c]| |];
    destruct (resolve pid pc) as [s|] eqn:R; cbn [option_map]; try reflexivity; (split; [reflexivity|]); [|now exists c].
  eexists. split; [reflexivity|]. split; [now apply faithful_upd|apply length_upd].
Qed.

(** The reference resolves every frame. *)
Lemma frames_cached_same c pid pcs : faithful c ->
  match frames_cached resolve (Some c) pid pcs with
  | Some (l, c') => frames_cached resolve None pid pcs = Some (l, None) /\ exists e, c' = Some e /\ faithful e
  | None => frames_cached resolve None pid pcs = None
  end.
Proof.
  revert c. induction pcs as [|pc pcs IH]; intros c F; cbn [frames_cached]; [split; [reflexivity|now exists c]|].
  pose proof (cached_faithful c pid pc F) as C. destruct (_spnl_frame_cached resolve (Some c) pid pc) as [[s c']|].
  - destruct C as (R & e & -> & F' & _). unfold _spnl_frame_cached. rewrite R. cbn [option_map]. specialize (IH e F').
    destruct (frames_cached resolve (Some e) pid pcs) as [[l c']|]; [|now rewrite IH]. destruct IH as [-> H]. split; [reflexivity|exact H].
  - unfold _spnl_frame_cached. now rewrite C.
Qed.

Lemma user_lines_same override hist stacks keys : forall c, faithful c ->
  folded_user_lines resolve override hist stacks (Some c) keys = folded_user_lines resolve override hist stacks None keys.
Proof.
  induction keys as [|k keys IH]; intros c F; cbn [folded_user_lines]; [reflexivity|].
  destruct (m_lookup hist k) as [cs|]; [|now apply IH]. destruct (total cs =? 0); [now apply IH|].
  destruct (m_lookup stacks _) as [pcs|]; [|now rewrite IH]. destruct (frames_of MAX_FRAMES pcs) as [|pc l]; [now rewrite IH|].
  pose proof (frames_cached_same c (if 0 <=? override then override else sgn 32 (Z.shiftr (hd 0 k) 32)) (rev (pc :: l)) F) as C.
  destruct (frames_cached resolve (Some c) _ _) as [[fs c']|]; [destruct C as (-> & e & -> & F')|rewrite C; reflexivity].
  cbn [option_map fst snd]. now rewrite IH.
Qed.

(** *** An address once resolved is found again *)

Definition taken (e : slot) : Prop := e_pc e <> 0.

Lemma probe_keeps path c pid pc s j x : pc <> 0 -> e_pc (nth j c (mk_slot 0 0 [])) = 0 ->
  probe path c pid pc = Hit s -> probe path (upd c j x) pid pc = Hit s.
Proof.
  intros Hp Hj. induction path as [|i path IH]; cbn [probe]; [easy|]. intros H.
  assert (Ne : i <> j -> nth i (upd c j x) (mk_slot 0 0 []) = nth i c (mk_slot 0 0 [])) by (intros; now apply nth_upd_ne).
  destruct ((e_pc (nth i c _) =? pc) && _) eqn:E.
  - rewrite Ne by (intros ->; bools; congruence). rewrite E. exact H.
  - destruct (Z.eqb_spec (e_pc (nth i c (mk_slot 0 0 []))) 0) as [Z0|Z0]; [discriminate|].
    rewrite Ne by (intros ->; contradiction). rewrite E. destruct (Z.eqb_spec (e_pc (nth i c (mk_slot 0 0 []))) 0); [contradiction|]. now apply IH.
Qed.

Lemma probe_stored path c pid pc s j : pc <> 0 -> (j < length c)%nat -> probe path c pid pc = Miss j ->
  probe path (upd c j (mk_slot pid pc s)) pid pc = Hit s.
Proof.
  intros Hp Hl. induction path as [|i path IH]; cbn [probe]; [discriminate|]. intros H.
  destruct ((e_pc (nth i c _) =? pc) && _) eqn:E; [discriminate|].
  destruct (Z.eqb_spec (e_pc (nth i c (mk_slot 0 0 []))) 0) as [Z0|Z0].
  - injection H as ->. rewrite nth_upd_eq by exact Hl. cbn [e_pc e_pid e_frame]. now rewrite !Z.eqb_refl.
  - assert (Ne : i <> j). { intros ->. clear IH E. induction path as [|q path IHp]; cbn [probe] in H; [discriminate|].
      destruct (_ && _); [discriminate|]. destruct (Z.eqb_spec (e_pc (nth q c (mk_slot 0 0 []))) 0); [|now apply IHp]. injection H as ->. contradiction. }
    rewrite nth_upd_ne by auto. rewrite E. destruct (Z.eqb_spec (e_pc (nth i c (mk_slot 0 0 []))) 0); [contradiction|]. now apply IH.
Qed.

Lemma probe_miss path c pid pc j : Forall (fun i => (i < length c)%nat) path -> probe path c pid pc = Miss j ->
  (j < length c)%nat /\ e_pc (nth j c (mk_slot 0 0 [])) = 0.
Proof.
  induction 1 as [|i path Hi _ IH]; cbn [probe]; [discriminate|]. destruct (_ && _); [discriminate|].
  destruct (Z.eqb_spec (e_pc (nth i c (mk_slot 0 0 []))) 0); [|exact IH]. intros H; injection H as <-. auto.
Qed.

Lemma path_in_range n pid pc : Forall (fun i => (i < n)%nat) (path_of n pid pc).
Proof.
  apply Forall_forall. intros i Hi. apply in_map_iff in Hi as (k & <- & Hk). apply in_seq in Hk.
  pose proof (Z.mod_pos_bound (Z.lxor (Z.shiftr pc 4) (u32 pid) mod Z.of_nat n + Z.of_nat k) (Z.of_nat n)). lia.
Qed.

(** Whether an address is found without asking for it. *)
Definition known (c : list slot) (pid pc : Z) (s : text) : Prop := probe (path_of (length c) pid pc) c pid pc = Hit s.

Lemma known_kept c pid pc s pid' pc' r : pc <> 0 -> known c pid pc s ->
  _spnl_frame_cached resolve (Some c) pid' pc' = Some r -> exists c', snd r = Some c' /\ known c' pid pc s.
Proof.
  intros Hp K. unfold _spnl_frame_cached. destruct (pc' =? 0); [destruct (resolve pid' pc'); [|discriminate]; intros H; injection H as <-; now exists c|].
  destruct (probe _ c pid' pc') as [t|j|] eqn:E; [intros H; injection H as <-; now exists c| |];
    (destruct (resolve pid' pc') as [t|]; [|discriminate]); intros H; injection H as <-; cbn [snd]; [|now exists c].
  eexists. split; [reflexivity|]. unfold known in *. rewrite length_upd. apply probe_miss in E as [_ E]; [|apply path_in_range]. now apply probe_keeps.
Qed.

Definition full (c : list slot) : Prop := Forall taken c.

Lemma path_covers n pid pc j : (j < n)%nat -> In j (path_of n pid pc).
Proof.
  intros Hj. unfold path_of. set (idx := _ mod _). apply in_map_iff. exists (Z.to_nat ((Z.of_nat j - idx) mod Z.of_nat n)).
  pose proof (Z.mod_pos_bound (Z.of_nat j - idx) (Z.of_nat n)) as B. split; [|apply in_seq; lia].
  rewrite Z2Nat.id by lia. rewrite Zplus_mod_idemp_r. replace (idx + (Z.of_nat j - idx)) with (Z.of_nat j) by lia.
  rewrite Z.mod_small by lia. apply Nat2Z.id.
Qed.

Lemma probe_full path c pid pc : probe path c pid pc = Full -> forall j, In j path -> taken (nth j c (mk_slot 0 0 [])).
Proof.
  induction path as [|i path IH]; cbn [probe]; [easy|]. destruct (_ && _); [discriminate|].
  destruct (Z.eqb_spec (e_pc (nth i c (mk_slot 0 0 []))) 0); [discriminate|]. intros H j [<-|Hj]; [assumption|now apply IH].
Qed.

Lemma full_kept c pid pc r : full c -> _spnl_frame_cached resolve (Some c) pid pc = Some r -> snd r = Some c.
Proof.
  intros F. unfold _spnl_frame_cached. destruct (pc =? 0); [destruct (resolve pid pc); [|discriminate]; intros H; now injection H as <-|].
  destruct (probe _ c pid pc) as [t|j|] eqn:E; [intros H; now injection H as <-| |destruct (resolve pid pc); [|discriminate]; intros H; now injection H as <-].
  apply probe_miss in E as [Hj E]; [|apply path_in_range]. exfalso. unfold full in F. rewrite Forall_forall in F. now apply (F _ (nth_In c (mk_slot 0 0 []) Hj)).
Qed.

(** A sequence of frames asked for. *)
Fixpoint serve (c : list slot) (reqs : list (Z * Z)) : option (list slot) :=
  match reqs with
  | [] => Some c
  | (pid, pc) :: reqs' => match _spnl_frame_cached resolve (Some c) pid pc with Some (_, Some c) => serve c reqs' | _ => None end
  end.

Lemma served_known c pid pc s c' : pc <> 0 -> _spnl_frame_cached resolve (Some c) pid pc = Some (s, Some c') -> full c' \/ known c' pid pc s.
Proof.
  intros Hp. unfold _spnl_frame_cached. destruct (Z.eqb_spec pc 0); [contradiction|].
  destruct (probe _ c pid pc) as [t|j|] eqn:E.
  - intros H; injection H as -> <-. right. exact E.
  - destruct (resolve pid pc); [|discriminate]. intros H; injection H as -> <-. right. unfold known. rewrite length_upd.
    apply probe_stored; [assumption|eapply probe_miss; [apply path_in_range|exact E]|exact E].
  - destruct (resolve pid pc); [|discriminate]. intros H; injection H as -> <-. left. apply Forall_forall. intros e He.
    apply (In_nth _ _ (mk_slot 0 0 [])) in He as (j & Hj & <-). eapply probe_full; [exact E|]. now apply path_covers.
Qed.

Lemma serve_keeps reqs : forall c c', serve c reqs = Some c' ->
  (full c -> c' = c) /\ (forall pid pc s, pc <> 0 -> known c pid pc s -> known c' pid pc s).
Proof.
  induction reqs as [|[pid pc] reqs IH]; intros c c'; cbn [serve]; [intros H; injection H as <-; auto|].
  destruct (_spnl_frame_cached resolve (Some c) pid pc) as [[s [c1|]]|] eqn:E; try discriminate. intros H. destruct (IH _ _ H) as [F K]. split.
  - intros Fc. pose proof (full_kept _ _ _ _ Fc E) as X. injection X as ->. auto.
  - intros pid' pc' t Hp Hk. destruct (known_kept _ _ _ _ _ _ _ Hp Hk E) as (c2 & X & Hk2). injection X as ->. now apply K.
Qed.

Lemma serve_known reqs : forall c c', faithful c -> serve c reqs = Some c' -> forall pid pc, In (pid, pc) reqs -> pc <> 0 ->
  full c' \/ exists s, resolve pid pc = Some s /\ known c' pid pc s.
Proof.
  induction reqs as [|[pid pc] reqs IH]; intros c c' Fc; cbn [serve]; [easy|].
  pose proof (cached_faithful c pid pc Fc) as C.
  destruct (_spnl_frame_cached resolve (Some c) pid pc) as [[s [c1|]]|] eqn:E; try discriminate. intros H pid' pc' [X|Hi] Hp.
  - injection X as -> ->. destruct C as [R _]. destruct (serve_keeps _ _ _ H) as [Fk K].
    destruct (served_known _ _ _ _ _ Hp E) as [Fu|Hk]; [left; now rewrite Fk|right; exists s; auto].
  - destruct C as (_ & e & X & F' & _). injection X as <-. now apply (IH c1).
Qed.

Lemma empty_faithful n : faithful (repeat (mk_slot 0 0 []) n).
Proof. apply Forall_forall. intros e He. apply repeat_spec in He as ->. now cbn. Qed.

End Memo.

(** The memo of user frames changes the cost of a profile, not the profile.  The
    folded stacks printed with the memo are those printed without it; and whatever
    frames have been asked for, an address that was asked for is answered from the
    memo, whatever a new resolution would say, until every slot of the table is taken. *)
Theorem folded_memo_exact maps file readable :
  (forall o h s override, spnl_print_folded_user_stacks_obj maps file readable true o h s override =
                          spnl_print_folded_user_stacks_obj maps file readable false o h s override) /\
  (forall n reqs c, serve (user_frame maps file readable) (repeat (mk_slot 0 0 []) n) reqs = Some c ->
     forall pid pc, In (pid, pc) reqs -> pc <> 0 ->
     full c \/ exists s, user_frame maps file readable pid pc = Some s /\ forall other, _spnl_frame_cached other (Some c) pid pc = Some (s, Some c)).
Proof.
  split.
  - intros o h s override. unfold spnl_print_folded_user_stacks_obj, folded_user_report. destruct (open_folded o h s) as [[hm sm]|]; [|reflexivity].
    rewrite user_lines_same; [reflexivity|apply empty_faithful].
  - intros n reqs c H pid pc Hi Hp. destruct (serve_known _ _ _ _ (empty_faithful _ n) H pid pc Hi Hp) as [Fu|(s & R & K)]; [now left|right].
    exists s. split; [exact R|]. intros other. unfold _spnl_frame_cached. destruct (Z.eqb_spec pc 0); [contradiction|]. unfold known in K. now rewrite K.
Qed.

(** A process that cannot be looked at: its frames are addresses. *)
Lemma folded_memo_exact_witness :
  exists c, serve (user_frame (fun _ => None) (fun _ => None) (fun _ => false)) (repeat (mk_slot 0 0 []) 8) [(7, 4096); (7, 8192); (7, 4096)] = Some c /\
    forall other, _spnl_frame_cached other (Some c) 7 4096 = Some (lit "0x1000", Some c).
Proof.
  destruct (folded_memo_exact (fun _ => None) (fun _ => None) (fun _ => false)) as [_ H]. set (resolve := user_frame _ _ _) in *.
  destruct (serve resolve _ [(7, 4096); (7, 8192); (7, 4096)]) as [c|] eqn:E; [|exfalso; vm_compute in E; discriminate].
  exists c. split; [reflexivity|]. destruct (H _ _ _ E 7 4096) as [F|(s & R & K)]; [now left|discriminate| |].
  - exfalso. assert (X : forall r, serve resolve (repeat (mk_slot 0 0 []) 8) [(7, 4096); (7, 8192); (7, 4096)] = r ->
        match r with Some c => nth_error c 5 = Some (mk_slot 0 0 []) | None => True end) by (intros r <-; vm_compute; reflexivity).
    specialize (X _ E). cbv beta iota in X.
    apply nth_error_In in X. unfold full in F. rewrite Forall_forall in F. now apply (F _ X).
  - vm_compute in R. injection R as <-. exact K.
Defined.

End Stacks.

Module Deadlocks.
Import Maps.

Record _spnl_edge := mk_edge { ea : Z; eb : Z; ecount : Z }.

Section Report.
Variable alloc : nat -> bool.

Fixpoint read_edges (m : bpf_map) (keys : list (list Z)) (cap : nat) (es : list _spnl_edge) : option (list _spnl_edge) :=
  match keys with
  | [] => Some es
  | k :: keys' =>
      let a := nth 0 k 0 in
      let b := nth 1 k 0 in
      match m_lookup m k with
      | None => read_edges m keys' cap es
      | Some v =>
          if a =? b then read_edges m keys' cap es
          else
            match grow alloc 128 cap (length es) with
            | None => None
            | Some cap => read_edges m keys' cap (es ++ [mk_edge a b (hd 0 v)])
            end
      end
  end.

Definition lock (v : Z) : text := lit "0x" ++ hex_u v.

Definition inversion_line (e r : _spnl_edge) : text :=
  lit "  POTENTIAL DEADLOCK: lock " ++ lock (ea e) ++ lit " <-> lock " ++ lock (eb e) ++
  lit " (" ++ lock (ea e) ++ lit "->" ++ lock (eb e) ++ lit " x" ++ dec_u (ecount e) ++
  lit ", " ++ lock (ea r) ++ lit "->" ++ lock (eb r) ++ lit " x" ++ dec_u (ecount r) ++ lit ")" ++ nl.

Definition reversed (es : list _spnl_edge) (e : _spnl_edge) : option _spnl_edge :=
  find (fun r => (ea r =? eb e) && (eb r =? ea e)) es.

Fixpoint report (top : Z) (es l : list _spnl_edge) (n : Z) (out : text) : Z * text :=
  match l with
  | [] => (n, out)
  | e :: l' =>
      if n <? top then
        if eb e <=? ea e then report top es l' n out
        else match reversed es e with
             | Some r => report top es l' (n + 1) (out ++ inversion_line e r)
             | None => report top es l' n out
             end
      else (n, out)
  end.

Definition summary (edges n : Z) : text :=
  lit "[deadlock] " ++ dec_u edges ++ lit " lock-order edge(s), " ++ dec_s n ++ lit " potential inversion(s)" ++ nl.

Definition spnl_dump_deadlocks_obj (o : option object) (name : option text) (top_n : Z) : Z * text :=
  match o, name with
  | Some o, Some name =>
      let top := if top_n <=? 0 then 100 else top_n in
      match open_map o name BPF_MAP_TYPE_HASH with
      | inr e => (e, [])
      | inl m =>
          match read_edges m (m_keys m) 0 [] with
          | None => (- ENOMEM, [])
          | Some es => let '(n, out) := report top es es 0 [] in (n, out ++ summary (Z.of_nat (length es)) n)
          end
      end
  | _, _ => (- EINVAL, [])
  end.

End Report.
(** ** Exactly the inversions *)

(** An edge of the map: [a] was held when [b] was taken, [a] and [b] different locks. *)
Definition edge_of (m : bpf_map) (e : _spnl_edge) : Prop :=
  In [ea e; eb e] (m_keys m) /\ ea e <> eb e /\ exists v, m_lookup m [ea e; eb e] = Some v /\ ecount e = hd 0 v.

Definition pair_keys (m : bpf_map) : Prop := NoDup (m_keys m) /\ Forall (fun k => length k = 2%nat) (m_keys m).

Fixpoint edges_in (m : bpf_map) (keys : list (list Z)) : list _spnl_edge :=
  match keys with
  | [] => []
  | k :: keys' =>
      match m_lookup m k with
      | Some v => if nth 0 k 0 =? nth 1 k 0 then edges_in m keys' else mk_edge (nth 0 k 0) (nth 1 k 0) (hd 0 v) :: edges_in m keys'
      | None => edges_in m keys'
      end
  end.

Lemma read_edges_all m keys : forall cap es, read_edges (fun _ => true) m keys cap es = Some (es ++ edges_in m keys).
Proof.
  induction keys as [|k keys IH]; intros cap es; cbn [read_edges edges_in]; [now rewrite app_nil_r|].
  destruct (m_lookup m k) as [v|]; [|apply IH]. destruct (_ =? _); [apply IH|].
  unfold grow. destruct (_ <=? _)%nat; rewrite IH, <- app_assoc; reflexivity.
Qed.

Lemma edges_in_spec m keys e : Forall (fun k => length k = 2%nat) keys ->
  In e (edges_in m keys) <-> In [ea e; eb e] keys /\ ea e <> eb e /\ exists v, m_lookup m [ea e; eb e] = Some v /\ ecount e = hd 0 v.
Proof.
  induction 1 as [|k keys Hk _ IH]; [cbn; tauto|]. destruct k as [|a [|b [|]]]; try discriminate. cbn [edges_in nth].
  destruct (m_lookup m [a; b]) as [v|] eqn:E; [destruct (Z.eqb_spec a b) as [->|N]|]; cbn [In]; rewrite ?IH.
  - split; [tauto|]. intros [[H|H] R]; [exfalso; destruct R as [R _]; congruence|tauto].
  - split.
    + intros [<-|R]; [cbn [ea eb ecount]; split; [now left|]; split; [exact N|now exists v]|tauto].
    + intros [[H|H] [R (w & Hw & Hc)]]; [|right; split; [exact H|]; split; [exact R|now exists w]].
      left. injection H as -> ->. rewrite E in Hw. injection Hw as ->. destruct e; cbn in *. now subst.
  - split; [tauto|]. intros [[H|H] [R (w & Hw & Hc)]]; [injection H as -> ->; congruence|]. split; [exact H|]. split; [exact R|now exists w].
Qed.

Lemma edges_in_distinct m keys : NoDup keys -> Forall (fun k => length k = 2%nat) keys -> NoDup (map (fun e => [ea e; eb e]) (edges_in m keys)).
Proof.
  induction 1 as [|k keys Hk _ IH]; intros F; [constructor|]. inversion F as [|? ? Fk F']. cbn [edges_in].
  destruct (m_lookup m k); [destruct (_ =? _)|]; auto. cbn [map ea eb]. constructor; [|now apply IH].
  intros Hk2. apply in_map_iff in Hk2 as (e & He & Hi). apply edges_in_spec in Hi as [Hi _]; [|exact F'].
  rewrite He in Hi. destruct k as [|a [|b [|]]]; try discriminate. cbn [nth] in Hi. contradiction.
Qed.

(** The inversions among the edges [l], each with its reverse. *)
Fixpoint inversions (es l : list _spnl_edge) : list (_spnl_edge * _spnl_edge) :=
  match l with
  | [] => []
  | e :: l' => if eb e <=? ea e then inversions es l'
               else match reversed es e with Some r => (e, r) :: inversions es l' | None => inversions es l' end
  end.

Lemma report_inversions top es l : forall n out, 0 <= n <= top ->
  report top es l n out =
  (Z.min top (n + Z.of_nat (length (inversions es l))),
   out ++ flat_map (fun p => inversion_line (fst p) (snd p)) (firstn (Z.to_nat (top - n)) (inversions es l))).
Proof.
  induction l as [|e l IH]; intros n out H; cbn [report inversions].
  - cbn [length]. rewrite firstn_nil, Z.add_0_r. cbn [flat_map]. rewrite app_nil_r. f_equal. lia.
  - destruct (Z.ltb_spec n top) as [Hn|Hn].
    + destruct (Z.leb_spec (eb e) (ea e)); [now apply IH|]. destruct (reversed es e) as [r|]; [|now apply IH].
      rewrite IH by lia. cbn [length]. replace (Z.to_nat (top - n)) with (S (Z.to_nat (top - (n + 1)))) by lia.
      cbn [firstn flat_map fst snd]. rewrite app_assoc. f_equal. lia.
    + replace n with top by lia. rewrite Z.sub_diag. cbn [Z.to_nat firstn flat_map]. rewrite app_nil_r. f_equal. lia.
Qed.

Lemma inversions_in es l e r : NoDup (map (fun e => [ea e; eb e]) es) -> incl l es ->
  In (e, r) (inversions es l) <-> In e l /\ ea e < eb e /\ In r es /\ ea r = eb e /\ eb r = ea e.
Proof.
  intros N I. induction l as [|x l IH]; [cbn; tauto|]. assert (I' : incl l es) by (intros y Hy; apply I; now right).
  specialize (IH I'). cbn [inversions In]. destruct (Z.leb_spec (eb x) (ea x)) as [Hx|Hx].
  - rewrite IH. split; [tauto|]. intros [[<-|Hl] R]; [lia|tauto].
  - unfold reversed. destruct (find _ es) as [r'|] eqn:F.
    + apply find_some in F as [Fi F]. bools. cbn [In]. rewrite IH. split.
      * intros [E|R]; [injection E as <- <-; tauto|tauto].
      * intros [[<-|Hl] (R1 & R2 & R3 & R4)]; [|tauto]. left. f_equal.
        eapply (NoDup_map_inv_in (fun e => [ea e; eb e])); eauto. congruence.
    + rewrite IH. split; [tauto|]. intros [[<-|Hl] (R1 & R2 & R3 & R4)]; [|tauto].
      exfalso. eapply find_none in F; [|exact R2]. cbn in F. rewrite R3, R4, !Z.eqb_refl in F. discriminate.
Qed.

Lemma inversions_distinct es l : NoDup (map (fun e => [ea e; eb e]) l) -> NoDup (map (fun p => [ea (fst p); eb (fst p)]) (inversions es l)).
Proof.
  induction l as [|e l IH]; cbn [map inversions]; intros N; [constructor|]. inversion N as [|? ? Ne N']; subst.
  destruct (eb e <=? ea e); [auto|]. destruct (reversed es e) as [r|]; [|auto]. cbn [map fst]. constructor; [|auto].
  intros H. apply Ne. apply in_map_iff in H as ([e' r'] & H1 & H2). cbn [fst] in H1. rewrite <- H1. apply (in_map (fun e => [ea e; eb e])).
  clear - H2. induction l as [|x l IH]; [easy|]. cbn [inversions] in H2.
  destruct (eb x <=? ea x); [right; auto|]. destruct (reversed es x); [|right; auto].
  destruct H2 as [H2|H2]; [injection H2 as <- <-; now left|right; auto].
Qed.

(** C36: the deadlock report names exactly the lock pairs that were taken in both orders.
    For a map of edges (distinct pairs of locks), the inversions are the pairs [a < b]
    with an edge in each direction; each is reported once with both counts, up to the
    caller's limit; the return value is the number reported, and the summary line
    gives the number of edges between different locks. *)
Theorem deadlocks_exact o name m top_n :
  o name = Some m -> m_type m = BPF_MAP_TYPE_HASH -> 0 <= m_fd m -> pair_keys m ->
  let top := if top_n <=? 0 then 100 else top_n in
  exists es pairs,
    NoDup es /\ (forall e, In e es <-> edge_of m e) /\
    NoDup (map (fun p => [ea (fst p); eb (fst p)]) pairs) /\
    (forall e r, In (e, r) pairs <-> ea e < eb e /\ edge_of m e /\ edge_of m r /\ ea r = eb e /\ eb r = ea e) /\
    spnl_dump_deadlocks_obj (fun _ => true) (Some o) (Some name) top_n =
      (Z.min top (Z.of_nat (length pairs)),
       flat_map (fun p => inversion_line (fst p) (snd p)) (firstn (Z.to_nat top) pairs) ++
       summary (Z.of_nat (length es)) (Z.min top (Z.of_nat (length pairs)))).
Proof.
  intros Ho Ht Hf [Hn Hk] top. set (es := edges_in m (m_keys m)). exists es, (inversions es es).
  assert (N : NoDup (map (fun e => [ea e; eb e]) es)) by now apply edges_in_distinct.
  assert (S : forall e, In e es <-> edge_of m e) by (intros e; now apply edges_in_spec).
  split; [now apply NoDup_map_inv in N|]. split; [exact S|]. split; [now apply inversions_distinct|]. split.
  - intros e r. rewrite inversions_in by (assumption || apply incl_refl). rewrite !S. tauto.
  - unfold spnl_dump_deadlocks_obj, open_map. rewrite Ho, Ht. cbn [Z.eqb BPF_MAP_TYPE_HASH Pos.eqb negb].
    destruct (Z.ltb_spec (m_fd m) 0); [lia|]. rewrite read_edges_all. cbn [app]. fold es. fold top.
    assert (0 <= top) by (unfold top; destruct (Z.leb_spec top_n 0); lia).
    rewrite report_inversions by lia. rewrite Z.sub_0_r, Z.add_0_l. reflexivity.
Qed.

(** Four edges: A before B and B before A, a recursive one, and C before A only. *)
Definition sample_edges : bpf_map := mk_map BPF_MAP_TYPE_HASH 1024 3 [[16; 32]; [32; 16]; [16; 16]; [48; 16]]
  (fun k => match k with [16; 32] => Some [5] | [32; 16] => Some [2] | [16; 16] => Some [9] | [48; 16] => Some [1] | _ => None end).

Lemma deadlocks_exact_witness :
  spnl_dump_deadlocks_obj (fun _ => true) (Some (fun _ => Some sample_edges)) (Some (lit "edges")) 0 =
  (1, lit "  POTENTIAL DEADLOCK: lock 0x10 <-> lock 0x20 (0x10->0x20 x5, 0x20->0x10 x2)" ++ nl ++
      lit "[deadlock] 3 lock-order edge(s), 1 potential inversion(s)" ++ nl) /\
  exists es, NoDup es /\ forall e, In e es <-> edge_of sample_edges e.
Proof.
  split; [vm_compute; reflexivity|].
  destruct (deadlocks_exact (fun _ => Some sample_edges) (lit "edges") sample_edges 0) as (es & pairs & N & E & _); try reflexivity;
    [vm_compute; discriminate|split; [repeat constructor; cbn; intuition discriminate|repeat constructor]|].
  exists es. split; [exact N|exact E].
Defined.

End Deadlocks.

Module Leaks.
Import Maps Stacks.

Record _spnl_leak_group := mk_group { stack_id : Z; bytes : Z; count : Z }.

Section Report.
Variable alloc : nat -> bool.

(** Adding an allocation to the group of its stack, if there is one. *)
Fixpoint add_to (sid sz : Z) (gs : list _spnl_leak_group) : option (list _spnl_leak_group) :=
  match gs with
  | [] => None
  | g :: gs' =>
      if stack_id g =? sid then Some (mk_group sid (u64 (bytes g + u64 sz)) (u64 (count g + 1)) :: gs')
      else option_map (cons g) (add_to sid sz gs')
  end.

(** The groups, the bytes and the number of the outstanding allocations. *)
Fixpoint read_allocs (m : bpf_map) (keys : list (list Z)) (cap : nat) (gs : list _spnl_leak_group) (tb ta : Z)
  : option (list _spnl_leak_group * Z * Z) :=
  match keys with
  | [] => Some (gs, tb, ta)
  | k :: keys' =>
      match m_lookup m k with
      | None => read_allocs m keys' cap gs tb ta
      | Some v =>
          let sz := sgn 64 (nth 0 v 0) in
          let sid := sgn 64 (nth 1 v 0) in
          let tb := u64 (tb + u64 sz) in
          let ta := u64 (ta + 1) in
          match add_to sid sz gs with
          | Some gs => read_allocs m keys' cap gs tb ta
          | None =>
              match grow alloc 64 cap (length gs) with
              | None => None
              | Some cap => read_allocs m keys' cap (gs ++ [mk_group sid (u64 sz) 1]) tb ta
              end
          end
      end
  end.

(** The index of the largest group from [b] on, where [best] is the largest before. *)
Fixpoint largest (l : list _spnl_leak_group) (b best : nat) (mx : Z) : nat :=
  match l with
  | [] => best
  | g :: l' => if mx <? bytes g then largest l' (S b) b (bytes g) else largest l' (S b) best mx
  end.

(** The selection of the [top] largest groups to the front, by swaps. *)
Fixpoint select (top : nat) (gs : list _spnl_leak_group) : list _spnl_leak_group :=
  match top, gs with
  | S top', g :: gs' =>
      match largest gs' 1 0 (bytes g) with
      | O => g :: select top' gs'
      | S i => match nth_error gs' i with Some x => x :: select top' (upd gs' i g) | None => g :: gs' end
      end
  | _, _ => gs
  end.

Section Print.
Variable syms : option (list (Z * text)).
Variable stacks : option bpf_map.

Definition group_lines (g : _spnl_leak_group) : text :=
  lit "  " ++ dec_u (bytes g) ++ lit " bytes in " ++ dec_u (count g) ++ lit " allocation(s) [stack id " ++ dec_s (stack_id g) ++ lit "]:" ++ nl ++
  match stacks with
  | Some sm =>
      if (0 <=? m_fd sm) && (0 <=? stack_id g) then
        match m_lookup sm [u32 (stack_id g)] with
        | Some pcs => flat_map (fun pc => lit "      " ++ sym_off syms pc ++ nl) (frames_of MAX_FRAMES pcs)
        | None => lit "      (stack unavailable)" ++ nl
        end
      else []
  | None => []
  end.

End Print.

Definition spnl_dump_leaks_obj (syms : option (list (Z * text))) (o : option object) (allocs_name stacks_name : option text) (top_n : Z) : Z * text :=
  match o, allocs_name, stacks_name with
  | Some o, Some an, Some sn =>
      let top := Z.to_nat (if top_n <=? 0 then 10 else top_n) in
      match open_map o an BPF_MAP_TYPE_HASH with
      | inr e => (e, [])
      | inl m =>
          match read_allocs m (m_keys m) 0 [] 0 0 with
          | None => (- ENOMEM, [])
          | Some (gs, tb, ta) =>
              (0, lit "[memleak] " ++ dec_u ta ++ lit " outstanding allocation(s), " ++ dec_u tb ++ lit " bytes, " ++
                  dec_u (Z.of_nat (length gs)) ++ lit " distinct stack(s)" ++ nl ++
                  flat_map (group_lines syms (o sn)) (firstn top (select top gs)))
          end
      end
  | _, _, _ => (- EINVAL, [])
  end.

End Report.
(** ** The groups *)

(** The outstanding allocations of a map: sizes and stack ids. *)
Fixpoint allocs_in (m : bpf_map) (keys : list (list Z)) : list (Z * Z) :=
  match keys with
  | [] => []
  | k :: keys' => match m_lookup m k with Some v => (sgn 64 (nth 0 v 0), sgn 64 (nth 1 v 0)) :: allocs_in m keys' | None => allocs_in m keys' end
  end.

Definition sumz (l : list Z) : Z := fold_right Z.add 0 l.
Definition of_stack (sid : Z) (A : list (Z * Z)) : list (Z * Z) := filter (fun x => snd x =? sid) A.
Definition held (sid : Z) (A : list (Z * Z)) : Z := sumz (map fst (of_stack sid A)).
Definition blocks (sid : Z) (A : list (Z * Z)) : Z := Z.of_nat (length (of_stack sid A)).

(** One group per stack, with its bytes and its number of allocations. *)
Definition grouped (A : list (Z * Z)) (gs : list _spnl_leak_group) : Prop :=
  NoDup (map stack_id gs) /\ (forall sid, In sid (map stack_id gs) <-> In sid (map snd A)) /\
  Forall (fun g => bytes g = u64 (held (stack_id g) A) /\ count g = u64 (blocks (stack_id g) A)) gs.

Lemma sumz_snoc l x : sumz (l ++ [x]) = sumz l + x.
Proof. unfold sumz. induction l as [|y l IH]; cbn [app fold_right]; lia. Qed.

Lemma held_snoc sid A sz t : held sid (A ++ [(sz, t)]) = held sid A + if t =? sid then sz else 0.
Proof.
  unfold held, of_stack. rewrite filter_app. cbn [filter snd]. destruct (t =? sid); [now rewrite map_app; cbn [map fst]; rewrite sumz_snoc|].
  rewrite app_nil_r. lia.
Qed.

Lemma blocks_snoc sid A sz t : blocks sid (A ++ [(sz, t)]) = blocks sid A + if t =? sid then 1 else 0.
Proof. unfold blocks, of_stack. rewrite filter_app, length_app. cbn [filter snd]. destruct (t =? sid); cbn [length]; lia. Qed.

Definition bumped (sid sz : Z) (g : _spnl_leak_group) : _spnl_leak_group :=
  if stack_id g =? sid then mk_group sid (u64 (bytes g + u64 sz)) (u64 (count g + 1)) else g.

Lemma add_to_spec sid sz gs : NoDup (map stack_id gs) ->
  add_to sid sz gs = if existsb (Z.eqb sid) (map stack_id gs) then Some (map (bumped sid sz) gs) else None.
Proof.
  induction gs as [|g gs IH]; cbn [add_to map existsb]; intros N; [reflexivity|]. inversion N as [|? ? Ng N']; subst. unfold bumped at 1.
  rewrite (Z.eqb_sym sid). destruct (Z.eqb_spec (stack_id g) sid) as [E|E]; cbn [orb].
  - f_equal. f_equal. rewrite <- (map_id gs) at 1. apply map_ext_in. intros x Hx. unfold bumped. destruct (Z.eqb_spec (stack_id x) sid) as [E'|]; [|reflexivity].
    exfalso. apply Ng. rewrite E, <- E'. now apply in_map.
  - rewrite IH by exact N'. now destruct (existsb _ _).
Qed.

Lemma bumped_id sid sz gs : map stack_id (map (bumped sid sz) gs) = map stack_id gs.
Proof. rewrite map_map. apply map_ext. intros g. unfold bumped. now destruct (Z.eqb_spec (stack_id g) sid). Qed.

Lemma grouped_step A gs sz sid : grouped A gs ->
  grouped (A ++ [(sz, sid)]) (match add_to sid sz gs with Some gs' => gs' | None => gs ++ [mk_group sid (u64 sz) 1] end).
Proof.
  intros (N & I & F). rewrite add_to_spec by exact N. destruct (existsb (Z.eqb sid) (map stack_id gs)) eqn:E.
  - apply existsb_exists in E as (x & Hx & Ex). apply Z.eqb_eq in Ex as <-. split; [now rewrite bumped_id|]. split.
    + intros s. rewrite bumped_id, map_app, in_app_iff, <- I. cbn [map snd In]. intuition congruence.
    + apply Forall_map. eapply Forall_impl; [|exact F]. intros g [Hb Hc]. unfold bumped.
      destruct (Z.eqb_spec (stack_id g) sid) as [<-|Ne]; cbn [bytes count stack_id]; rewrite held_snoc, blocks_snoc.
      * rewrite Z.eqb_refl, Hb, Hc, wrap_add_l, wrap_add_r, wrap_add_l. split; reflexivity.
      * destruct (Z.eqb_spec sid (stack_id g)); [congruence|]. now rewrite !Z.add_0_r.
  - assert (Ni : ~ In sid (map stack_id gs)).
    { intros H. assert (T : existsb (Z.eqb sid) (map stack_id gs) = true) by (apply existsb_exists; exists sid; split; [exact H|apply Z.eqb_refl]). congruence. }
    assert (No : of_stack sid A = []).
    { unfold of_stack. destruct (filter _ A) as [|x l] eqn:Fl; [reflexivity|]. exfalso. apply Ni, I.
      assert (Hx : In x (filter (fun x => snd x =? sid) A)) by (rewrite Fl; now left). apply filter_In in Hx as [Hx Ex]. apply Z.eqb_eq in Ex as <-. now apply in_map. }
    split; [rewrite map_app; apply NoDup_app; [exact N|repeat constructor; easy|]; intros x Hx [<-|[]]; contradiction|]. split.
    + intros s. rewrite !map_app, !in_app_iff, <- I. cbn [map snd stack_id In]. tauto.
    + apply Forall_app. split.
      * apply Forall_forall. intros g Hg. rewrite Forall_forall in F. destruct (F g Hg) as [Hb Hc]. rewrite held_snoc, blocks_snoc.
        destruct (Z.eqb_spec sid (stack_id g)) as [->|]; [exfalso; apply Ni; now apply in_map|]. now rewrite !Z.add_0_r.
      * repeat constructor; cbn [bytes count stack_id]; rewrite ?held_snoc, ?blocks_snoc, Z.eqb_refl; unfold held, blocks; now rewrite No.
Qed.

Lemma read_allocs_grouped m keys : forall cap A gs tb ta, grouped A gs -> tb = u64 (sumz (map fst A)) -> ta = u64 (Z.of_nat (length A)) ->
  exists gs', read_allocs (fun _ => true) m keys cap gs tb ta =
      Some (gs', u64 (sumz (map fst (A ++ allocs_in m keys))), u64 (Z.of_nat (length (A ++ allocs_in m keys)))) /\
    grouped (A ++ allocs_in m keys) gs'.
Proof.
  induction keys as [|k keys IH]; intros cap A gs tb ta G Hb Ha; cbn [read_allocs allocs_in].
  - rewrite app_nil_r. exists gs. split; [congruence|exact G].
  - destruct (m_lookup m k) as [v|]; [|now apply IH]. set (sz := sgn 64 (nth 0 v 0)). set (sid := sgn 64 (nth 1 v 0)).
    pose proof (grouped_step A gs sz sid G) as G'.
    assert (Hb' : u64 (tb + u64 sz) = u64 (sumz (map fst (A ++ [(sz, sid)])))) by (rewrite map_app; cbn [map fst]; rewrite sumz_snoc, Hb, wrap_add_l, wrap_add_r; reflexivity).
    assert (Ha' : u64 (ta + 1) = u64 (Z.of_nat (length (A ++ [(sz, sid)])))) by (rewrite length_app, Nat2Z.inj_add, Ha, wrap_add_l; reflexivity).
    replace (A ++ (sz, sid) :: allocs_in m keys) with ((A ++ [(sz, sid)]) ++ allocs_in m keys) by (rewrite <- app_assoc; reflexivity).
    destruct (add_to sid sz gs) as [gs'|]; [now apply IH|]. unfold grow. destruct (_ <=? _)%nat; now apply IH.
Qed.

(** ** The ranking *)

Lemma largest_spec l : forall b best mx, let i := largest l b best mx in
  (i = best /\ Forall (fun g => bytes g <= mx) l) \/
  (exists k x, i = (b + k)%nat /\ nth_error l k = Some x /\ mx < bytes x /\ Forall (fun g => bytes g <= bytes x) l).
Proof.
  induction l as [|g l IH]; intros b best mx; cbn [largest]; [now left|]. destruct (Z.ltb_spec mx (bytes g)) as [H|H].
  - right. destruct (IH (S b) b (bytes g)) as [[E F]|(k & x & E & En & Hx & F)].
    + exists O, g. repeat split; auto; [lia|]. constructor; [lia|exact F].
    + exists (S k), x. repeat split; auto; [lia|lia|]. constructor; [lia|exact F].
  - destruct (IH (S b) best mx) as [[E F]|(k & x & E & En & Hx & F)].
    + left. split; [exact E|]. constructor; [lia|exact F].
    + right. exists (S k), x. repeat split; auto; [lia|]. constructor; [lia|exact F].
Qed.

Lemma upd_swap {A} (l : list A) i x y : nth_error l i = Some x -> Permutation (x :: upd l i y) (y :: l).
Proof.
  revert i. induction l as [|z l IH]; intros [|i] H; cbn [nth_error upd] in *; try discriminate.
  - injection H as ->. apply perm_swap.
  - transitivity (z :: x :: upd l i y); [apply perm_swap|]. transitivity (z :: y :: l); [constructor; now apply IH|apply perm_swap].
Qed.

Definition at_least (a b : _spnl_leak_group) : Prop := bytes b <= bytes a.

Lemma select_ranks top : forall gs, let r := select top gs in
  Permutation r gs /\ StronglySorted at_least (firstn top r) /\
  forall x y, In x (firstn top r) -> In y (skipn top r) -> at_least x y.
Proof.
  induction top as [|top IH]; intros gs; cbn [select]; [split; [reflexivity|split; [constructor|easy]]|].
  destruct gs as [|g gs]; [split; [reflexivity|split; [constructor|easy]]|].
  assert (Step : forall y rest, Permutation (y :: rest) (g :: gs) -> Forall (at_least y) rest ->
    let r := y :: select top rest in Permutation r (g :: gs) /\ StronglySorted at_least (firstn (S top) r) /\
      forall a b, In a (firstn (S top) r) -> In b (skipn (S top) r) -> at_least a b).
  { intros y rest P F. destruct (IH rest) as (P' & S' & L'). cbn zeta. rewrite firstn_cons. cbn [skipn]. rewrite Forall_forall in F.
    assert (F' : forall b, In b (select top rest) -> at_least y b) by (intros b Hb; apply F, (Permutation_in b P'), Hb).
    split; [transitivity (y :: rest); [constructor; exact P'|exact P]|]. split.
    - constructor; [exact S'|]. apply Forall_forall. intros b Hb. apply F'. rewrite <- (firstn_skipn top (select top rest)). apply in_or_app. now left.
    - intros a b [<-|Ha] Hb; [|now apply L']. apply F'. rewrite <- (firstn_skipn top (select top rest)). apply in_or_app. now right. }
  destruct (largest_spec gs 1 0 (bytes g)) as [[E F]|(k & x & E & En & Hx & F)]; rewrite E.
  - apply Step; [reflexivity|exact F].
  - cbn [Nat.add]. rewrite En. pose proof (upd_swap gs k x g En) as P. apply Step; [exact P|].
    apply Forall_forall. intros y Hy. assert (Hg : In y (g :: gs)) by (apply (Permutation_in y P); now right). unfold at_least.
    destruct Hg as [<-|Hg]; [lia|]. rewrite Forall_forall in F. now apply F.
Qed.

(** C35: the leak report ranks the outstanding allocations by their stacks.  There is one
    group per stack id that occurs, with the bytes and the number of its allocations;
    the heading gives the totals over all of them; the groups shown are as many as the
    limit allows, the largest first, and no group left out holds more bytes than one
    that is shown. *)
Theorem leaks_ranked syms o an sn m top_n : o an = Some m -> m_type m = BPF_MAP_TYPE_HASH -> 0 <= m_fd m ->
  let A := allocs_in m (m_keys m) in
  let top := Z.to_nat (if top_n <=? 0 then 10 else top_n) in
  exists gs shown rest,
    grouped A gs /\ Permutation (shown ++ rest) gs /\ length shown = Nat.min top (length gs) /\
    StronglySorted at_least shown /\ (forall x y, In x shown -> In y rest -> at_least x y) /\
    spnl_dump_leaks_obj (fun _ => true) syms (Some o) (Some an) (Some sn) top_n =
      (0, lit "[memleak] " ++ dec_u (u64 (Z.of_nat (length A))) ++ lit " outstanding allocation(s), " ++ dec_u (u64 (sumz (map fst A))) ++
          lit " bytes, " ++ dec_u (Z.of_nat (length gs)) ++ lit " distinct stack(s)" ++ nl ++ flat_map (group_lines syms (o sn)) shown).
Proof.
  intros Ho Ht Hf A top. destruct (read_allocs_grouped m (m_keys m) 0 [] [] 0 0) as (gs & E & G); try reflexivity.
  { split; [constructor|]. split; [easy|constructor]. }
  destruct (select_ranks top gs) as (P & S & L). exists gs, (firstn top (select top gs)), (skipn top (select top gs)).
  split; [exact G|]. split; [now rewrite firstn_skipn|]. split; [rewrite length_firstn; f_equal; now apply Permutation_length|].
  split; [exact S|]. split; [exact L|]. unfold spnl_dump_leaks_obj, open_map. rewrite Ho, Ht. cbn [Z.eqb BPF_MAP_TYPE_HASH Pos.eqb negb].
  destruct (Z.ltb_spec (m_fd m) 0); [lia|]. rewrite E. reflexivity.
Qed.

(** Three allocations from two stacks. *)
Definition sample_allocs : bpf_map := mk_map BPF_MAP_TYPE_HASH 1024 3 [[4096]; [8192]; [12288]]
  (fun k => match k with [4096] => Some [100; 7] | [8192] => Some [64; 5] | [12288] => Some [28; 7] | _ => None end).

Lemma leaks_ranked_witness :
  spnl_dump_leaks_obj (fun _ => true) None (Some (fun n => if text_eqb n (lit "allocs") then Some sample_allocs else None))
    (Some (lit "allocs")) (Some (lit "stacks")) 1 =
  (0, lit "[memleak] 3 outstanding allocation(s), 192 bytes, 2 distinct stack(s)" ++ nl ++
      lit "  128 bytes in 2 allocation(s) [stack id 7]:" ++ nl) /\
  exists gs, grouped [(100, 7); (64, 5); (28, 7)] gs.
Proof.
  split; [vm_compute; reflexivity|].
  destruct (leaks_ranked None (fun n => if text_eqb n (lit "allocs") then Some sample_allocs else None) (lit "allocs") (lit "stacks") sample_allocs 1)
    as (gs & _ & _ & G & _); [reflexivity|reflexivity|vm_compute; discriminate|].
  exists gs. exact G.
Defined.

End Leaks.
