(* ===== verification/OtlpPb.v ===== *)
(** * OTLP requests as protocol buffers

    - [Common]: the callbacks of [src/runtime/otlp/otlp_pbutil.h] and the messages of
      the [common] and [resource] schemas, with what they put on the wire.
    - [Reader]: a collector's reader of OTLP requests, written from the field numbers
      of the schemas.
    - [Envelope]: resource, scope and items, which the three signals share.
    - [Logs], [Traces]: [src/runtime/otlp/otlp_logs.c] and the builders of
      [src/runtime/otlp/otlp_traces.c]; the drain of [AmpDrain] with these builders. *)

From S2P Require Import Prelude Bytes CText AmpRing PbEncode OtlpTraces OtlpTransport AmpDrain OtlpHist OtlpMetrics OtlpHttpSpan.
Import Stream Message Wire.
Local Open Scope string_scope.
Local Open Scope list_scope.
Local Open Scope Z_scope.

Definition text_bytes (s : text) : list Z := map code s.

(** What the encoders read of the process: the two variables, the host name and the
    process id. *)
Record process := mk_process { getenv : text -> option text; gethostname : option text; getpid : Z }.

Module Common.
Import Ids.

Definition otlp_enc_string (s : text) (f : fld) : encoder := pb_encode_tag_for_field f >>> pb_encode_string (text_bytes s).
Definition otlp_enc_bytes (bs : list Z) (f : fld) : encoder := pb_encode_tag_for_field f >>> pb_encode_string bs.
Definition otlp_enc_one_sub (m : list field) (f : fld) : encoder :=
  pb_encode_tag_for_field f >>> pb_encode_submessage (pb_encode m).

(** The messages, as their descriptors list the fields; what the sources leave zero
    is zero here. *)
Definition AnyValue (which : Z) (string_value : option (fld -> encoder)) (int_value : Z) : list field :=
  [Callback (mk_fld 1 STRING) (ONEOF which) string_value;
   Static (mk_fld 2 BOOL) (ONEOF which) 0;
   Static (mk_fld 3 VARINT) (ONEOF which) int_value;
   Static (mk_fld 4 FIXED64) (ONEOF which) 0;
   Sub 5 (ONEOF which) []; Sub 6 (ONEOF which) [];
   Callback (mk_fld 7 BYTES) (ONEOF which) None;
   Static (mk_fld 8 VARINT) (ONEOF which) 0].

Definition KeyValue (key : fld -> encoder) (value : list field) : list field :=
  [Callback (mk_fld 1 STRING) SINGULAR (Some key); Sub 2 (OPTIONAL true) value; Static (mk_fld 3 VARINT) SINGULAR 0].

Definition InstrumentationScope (name : fld -> encoder) : list field :=
  [Callback (mk_fld 1 STRING) SINGULAR (Some name); Callback (mk_fld 2 STRING) SINGULAR None;
   Callback (mk_fld 3 SUBMESSAGE) REPEATED None; Static (mk_fld 4 UVARINT) SINGULAR 0].

Definition Resource (attributes : fld -> encoder) : list field :=
  [Callback (mk_fld 1 SUBMESSAGE) REPEATED (Some attributes); Static (mk_fld 2 UVARINT) SINGULAR 0;
   Callback (mk_fld 3 SUBMESSAGE) REPEATED None].

Definition otlp_put_kv_str (f : fld) (key val : text) : encoder :=
  pb_encode_tag_for_field f >>>
  pb_encode_submessage (pb_encode (KeyValue (otlp_enc_string key) (AnyValue 1 (Some (otlp_enc_string val)) 0))).

Definition otlp_put_kv_int (f : fld) (key : text) (val : Z) : encoder :=
  pb_encode_tag_for_field f >>>
  pb_encode_submessage (pb_encode (KeyValue (otlp_enc_string key) (AnyValue 3 None val))).

Definition nonempty (s : option text) : bool := match s with Some (_ :: _) => true | _ => false end.

(** [if (s && s[0] && !put(s)) return false;] *)
Definition put_if (f : fld) (key : text) (val : option text) : encoder :=
  if nonempty val then otlp_put_kv_str f key (match val with Some v => v | None => [] end) else succeed.

Definition otlp_service_instance_id (p : process) : text :=
  match getenv p (lit "OTEL_SERVICE_INSTANCE_ID") with
  | Some (c :: e) => trunc 160 (c :: e)
  | _ => trunc 160 (trunc 96 (match gethostname p with Some h => h | None => lit "unknown" end) ++ lit "-" ++ dec_s (getpid p))
  end.

Definition OTLP_ENV_RESOURCE_ATTRS_MAX : nat := 16.

Definition env_attrs (p : process) : list otlp_kv_t :=
  EnvKv.otlp_env_kv_list (getenv p) (Some (lit "OTEL_RESOURCE_ATTRIBUTES")) OTLP_ENV_RESOURCE_ATTRS_MAX.

Definition otlp_enc_resource_attrs (p : process) (name version : option text) (f : fld) : encoder :=
  put_if f (lit "service.name") name >>>
  put_if f (lit "service.version") version >>>
  otlp_put_kv_str f (lit "service.instance.id") (otlp_service_instance_id p) >>>
  otlp_put_kv_str f (lit "telemetry.sdk.name") (lit "spinel-ebpf") >>>
  otlp_put_kv_str f (lit "telemetry.sdk.language") (lit "ruby") >>>
  otlp_put_kv_str f (lit "telemetry.sdk.version") (lit "0") >>>
  each (fun a => otlp_put_kv_str f (key a) (val a)) (env_attrs p).

(** ** On the wire *)

Inductive attr := AStr (key val : text) | AInt (key : text) (val : Z).

Definition any_fields (a : attr) : list wfield :=
  match a with AStr _ v => [(1, WLen (text_bytes v))] | AInt _ v => [(3, WVarint (u64 v))] end.

Definition attr_fields (a : attr) : list wfield :=
  [(1, WLen (text_bytes (match a with AStr k _ => k | AInt k _ => k end))); (2, WLen (bytes (any_fields a)))].

(** A field that is left out at its default, or absent. *)
Definition opt_num (n v : Z) (w : wire) : list wfield := if v =? 0 then [] else [(n, w)].
Definition opt_len (n : Z) (b : option (list Z)) : list wfield := match b with Some b => [(n, WLen b)] | None => [] end.

(** Attributes in field [n] of a message. *)
Definition attrs_fields (n : Z) (l : list attr) : list wfield := map (fun a => (n, WLen (bytes (attr_fields a)))) l.

Lemma enc_string_emits s f : wiretype (lt f) = 2 -> 0 < tag f < 2 ^ 29 ->
  emits (otlp_enc_string s f) [(tag f, WLen (text_bytes s))].
Proof. apply emits_string. Qed.

Lemma enc_bytes_emits bs f : wiretype (lt f) = 2 -> 0 < tag f < 2 ^ 29 -> emits (otlp_enc_bytes bs f) [(tag f, WLen bs)].
Proof. apply emits_string. Qed.

Lemma enc_one_sub_emits m fs f : wiretype (lt f) = 2 -> 0 < tag f < 2 ^ 29 -> emits (pb_encode m) fs ->
  emits (otlp_enc_one_sub m f) [(tag f, WLen (bytes fs))].
Proof. apply emits_submessage. Qed.

(** Fields that put nothing on the wire. *)
Lemma emits_skip x m fs : skipped x = true -> emits (pb_encode m) fs -> emits (pb_encode (x :: m)) fs.
Proof.
  intros S H. apply (emits_cons x m [] fs); [|exact H]. destruct x; cbn [encode_field]; rewrite S; apply emits_nil.
Qed.

Lemma emits_unset f h m fs : emits (pb_encode m) fs -> emits (pb_encode (Callback f h None :: m)) fs.
Proof.
  intros H. apply (emits_cons _ m [] fs); [|exact H]. cbn [encode_field]. destruct (skipped _); apply emits_nil.
Qed.

Lemma emits_end : emits (pb_encode []) [].
Proof. apply emits_nil. Qed.

(** A callback that is called. *)
Lemma emits_call f h cb m a fs : skipped (Callback f h (Some cb)) = false -> emits (cb f) a -> emits (pb_encode m) fs ->
  emits (pb_encode (Callback f h (Some cb) :: m)) (a ++ fs).
Proof. intros S Ha H. apply emits_cons; [|exact H]. cbn [encode_field]. now rewrite S. Qed.

Lemma emits_call_one f h cb m a fs : skipped (Callback f h (Some cb)) = false -> emits (cb f) [a] -> emits (pb_encode m) fs ->
  emits (pb_encode (Callback f h (Some cb) :: m)) (a :: fs).
Proof. apply (emits_call f h cb m [a] fs). Qed.

Lemma emits_sub n h m m' a fs : skipped (Sub n h m) = false -> 0 < n < 2 ^ 29 -> emits (pb_encode m) a ->
  emits (pb_encode m') fs -> emits (pb_encode (Sub n h m :: m')) ((n, WLen (bytes a)) :: fs).
Proof.
  intros S Hn Ha H. apply (emits_cons _ m' [(n, WLen (bytes a))] fs); [|exact H]. cbn [encode_field]. rewrite S.
  now apply (emits_submessage (mk_fld n SUBMESSAGE) (each encode_field m)).
Qed.

Lemma emits_set f h v m fs : skipped (Static f h v) = false -> number_ok (lt f) v -> 0 < tag f < 2 ^ 29 ->
  emits (pb_encode m) fs -> emits (pb_encode (Static f h v :: m)) ((tag f, number_wire (lt f) v) :: fs).
Proof.
  intros S Hv Ht H. apply (emits_cons _ m [(tag f, number_wire (lt f) v)] fs); [|exact H]. cbn [encode_field]. rewrite S.
  now apply emits_number.
Qed.

Lemma emits_opt f v m fs : number_ok (lt f) v -> 0 < tag f < 2 ^ 29 -> emits (pb_encode m) fs ->
  emits (pb_encode (Static f SINGULAR v :: m)) ((if v =? 0 then [] else [(tag f, number_wire (lt f) v)]) ++ fs).
Proof. intros Hv Ht H. apply emits_cons; [now apply emits_singular|exact H]. Qed.

Create HintDb otlp.
#[export] Hint Resolve enc_string_emits enc_bytes_emits enc_one_sub_emits emits_end emits_nil : otlp.

(** Walks a field list: unset fields are skipped, set ones are left to [otlp]. *)
Ltac field_step :=
  first
    [ apply emits_end
    | apply emits_unset
    | apply emits_skip; [reflexivity|]
    | apply emits_call_one; [reflexivity| |]
    | apply emits_call; [reflexivity| |]
    | apply emits_sub; [reflexivity|cbn; lia| |]
    | apply emits_set; [reflexivity|cbn; auto; lia|cbn; lia|]
    | apply emits_opt; [cbn; auto; lia|cbn; lia|] ].

Lemma put_kv_str_emits f k v : wiretype (lt f) = 2 -> 0 < tag f < 2 ^ 29 ->
  emits (otlp_put_kv_str f k v) (attrs_fields (tag f) [AStr k v]).
Proof.
  intros Hw Ht. unfold otlp_put_kv_str. apply emits_submessage; auto. unfold KeyValue, AnyValue.
  change (attr_fields (AStr k v)) with ([(1, WLen (text_bytes k))] ++ [(2, WLen (bytes ([(1, WLen (text_bytes v))] ++ [])))]).
  repeat field_step; apply enc_string_emits; cbn; lia.
Qed.

Lemma put_kv_int_emits f k v : wiretype (lt f) = 2 -> 0 < tag f < 2 ^ 29 ->
  emits (otlp_put_kv_int f k v) (attrs_fields (tag f) [AInt k v]).
Proof.
  intros Hw Ht. unfold otlp_put_kv_int. apply emits_submessage; auto. unfold KeyValue, AnyValue.
  change (attr_fields (AInt k v)) with ([(1, WLen (text_bytes k))] ++ [(2, WLen (bytes [(3, WVarint (u64 v))]))]).
  repeat field_step. apply enc_string_emits; cbn; lia.
Qed.

(** An attribute that is left out when its value is absent or empty. *)
Definition opt_attr (k : text) (v : option text) : list attr :=
  match v with Some (c :: v) => [AStr k (c :: v)] | _ => [] end.

Lemma put_if_emits f k v : wiretype (lt f) = 2 -> 0 < tag f < 2 ^ 29 ->
  emits (put_if f k v) (attrs_fields (tag f) (opt_attr k v)).
Proof.
  intros Hw Ht. unfold put_if. destruct v as [[|c v]|]; cbn [nonempty opt_attr]; try apply emits_nil.
  now apply put_kv_str_emits.
Qed.

Lemma attrs_fields_app n a b : attrs_fields n (a ++ b) = attrs_fields n a ++ attrs_fields n b.
Proof. apply map_app. Qed.

(** Attribute encoders in sequence. *)
Lemma emits_attrs f g n a b : emits f (attrs_fields n a) -> emits g (attrs_fields n b) ->
  emits (f >>> g) (attrs_fields n (a ++ b)).
Proof. rewrite attrs_fields_app. apply emits_andthen. Qed.

Lemma emits_each_attr {A} (g : A -> encoder) (h : A -> list attr) n l :
  (forall x, In x l -> emits (g x) (attrs_fields n (h x))) -> emits (each g l) (attrs_fields n (flat_map h l)).
Proof.
  intros H. replace (attrs_fields n (flat_map h l)) with (flat_map (fun x => attrs_fields n (h x)) l); [now apply emits_each|].
  clear H. induction l as [|x l IH]; [reflexivity|]. cbn [flat_map]. now rewrite attrs_fields_app, IH.
Qed.

Definition kv_attr (a : otlp_kv_t) : attr := AStr (key a) (val a).

Definition resource_attrs (p : process) (name version : option text) : list attr :=
  opt_attr (lit "service.name") name ++ opt_attr (lit "service.version") version
  ++ [AStr (lit "service.instance.id") (otlp_service_instance_id p)]
  ++ [AStr (lit "telemetry.sdk.name") (lit "spinel-ebpf")] ++ [AStr (lit "telemetry.sdk.language") (lit "ruby")]
  ++ [AStr (lit "telemetry.sdk.version") (lit "0")] ++ flat_map (fun a => [kv_attr a]) (env_attrs p).

Lemma resource_attrs_emits p name version f : wiretype (lt f) = 2 -> 0 < tag f < 2 ^ 29 ->
  emits (otlp_enc_resource_attrs p name version f) (attrs_fields (tag f) (resource_attrs p name version)).
Proof.
  intros Hw Ht. unfold otlp_enc_resource_attrs, resource_attrs.
  repeat (apply emits_attrs; [first [now apply put_if_emits|now apply put_kv_str_emits]|]).
  apply emits_each_attr. intros a _. now apply put_kv_str_emits.
Qed.

#[export] Hint Resolve put_kv_str_emits put_kv_int_emits put_if_emits resource_attrs_emits : otlp.

End Common.

Module Reader.
Import Common.

(** A reader of messages that takes nothing on trust: a field that is not repeated
    may occur once at most, and an absent one has the schema's default. *)

Definition bind {A B} (a : option A) (f : A -> option B) : option B := match a with Some x => f x | None => None end.

Declare Scope reader_scope.
Notation "'let?' x := a 'in' b" := (bind a (fun x => b)) (at level 10, x pattern, b at level 200) : reader_scope.
Local Open Scope reader_scope.

Fixpoint traverse {A B} (f : A -> option B) (l : list A) : option (list B) :=
  match l with
  | [] => Some []
  | a :: l => let? b := f a in let? r := traverse f l in Some (b :: r)
  end.

Definition msg {A} (r : list wfield -> option A) (bs : list Z) : option A := let? fs := fields bs in r fs.

(** The payloads of field [n]: length-delimited ones and numbers. *)
Definition reps (n : Z) (fs : list wfield) : list (list Z) :=
  flat_map (fun f => match f with (m, WLen b) => if m =? n then [b] else [] | _ => [] end) fs.

Definition nums (n : Z) (fs : list wfield) : list Z :=
  flat_map (fun f => match f with
                     | (_, WLen _) => []
                     | (m, WVarint v) | (m, W64 v) | (m, W32 v) => if m =? n then [v] else []
                     end) fs.

Definition one {A} (l : list A) : option (option A) :=
  match l with [] => Some None | [a] => Some (Some a) | _ => None end.

Definition str (n : Z) (fs : list wfield) : option (list Z) :=
  let? o := one (reps n fs) in Some (match o with Some b => b | None => [] end).
Definition num (n : Z) (fs : list wfield) : option Z :=
  let? o := one (nums n fs) in Some (match o with Some v => v | None => 0 end).
Definition sub {A} (n : Z) (d : A) (r : list wfield -> option A) (fs : list wfield) : option A :=
  let? o := one (reps n fs) in match o with Some b => msg r b | None => Some d end.
Definition repeated {A} (n : Z) (r : list wfield -> option A) (fs : list wfield) : option (list A) :=
  traverse (msg r) (reps n fs).

Inductive value := VNone | VStr (s : list Z) | VInt (v : Z).

Definition read_any (fs : list wfield) : option value :=
  match fs with
  | [] => Some VNone
  | [(1, WLen b)] => Some (VStr b)
  | [(3, WVarint v)] => Some (VInt (sgn 64 v))
  | _ => None
  end.

Definition read_kv (fs : list wfield) : option (list Z * value) :=
  let? k := str 1 fs in let? v := sub 2 VNone read_any fs in Some (k, v).

(** Resource attributes, then per scope its name and items: the three signals number
    these fields alike. *)
Definition read_scope {A} (item : list wfield -> option A) (fs : list wfield) : option (list Z * list A) :=
  let? s := sub 1 [] (str 1) fs in let? l := repeated 2 item fs in Some (s, l).

Definition read_resource {A} (item : list wfield -> option A) (fs : list wfield) :
  option (list (list Z * value) * list (list Z * list A)) :=
  let? a := sub 1 [] (repeated 1 read_kv) fs in let? l := repeated 2 (read_scope item) fs in Some (a, l).

Definition read_request {A} (item : list wfield -> option A) (bs : list Z) :=
  msg (repeated 1 (read_resource item)) bs.

(** ** Reading back what was put *)

Definition attr_view (a : attr) : list Z * value :=
  match a with AStr k v => (text_bytes k, VStr (text_bytes v)) | AInt k v => (text_bytes k, VInt (sgn 64 v)) end.

(** [fs] is readable by [r] as [a] when it is short enough. *)
Definition reads {A} (fs : list wfield) (r : list wfield -> option A) (a : A) : Prop :=
  Forall num_ok fs /\ (len (bytes fs) < 2 ^ 63 -> r fs = Some a).

Lemma reads_msg {A} fs r (a : A) : reads fs r a -> len (bytes fs) < 2 ^ 63 -> msg r (bytes fs) = Some a.
Proof. intros [H R] L. unfold msg. rewrite fields_bytes by auto. now apply R. Qed.

Lemma len_in n b fs : In (n, WLen b) fs -> len b <= len (bytes fs).
Proof.
  induction fs as [|f fs IH]; intros H; [contradiction|]. change (bytes (f :: fs)) with (enc f ++ bytes fs).
  rewrite len_app. pose proof (len_nonneg (bytes fs)). pose proof (len_nonneg (enc f)). destruct H as [->|H].
  - unfold enc. cbn [snd payload]. rewrite !len_app. pose proof (len_nonneg (varint (8 * fst (n, WLen b) + wire_type (WLen b)))).
    pose proof (len_nonneg (varint (len b))). lia.
  - specialize (IH H). lia.
Qed.

Lemma traverse_map {A B C} (f : B -> option C) (g : A -> B) (h : A -> C) l :
  (forall x, In x l -> f (g x) = Some (h x)) -> traverse f (map g l) = Some (map h l).
Proof.
  induction l as [|x l IH]; intros H; [reflexivity|]. cbn [map traverse]. rewrite H by now left. cbn [bind].
  rewrite IH by (intros; apply H; now right). reflexivity.
Qed.

(** Submessages in a repeated field. *)
Lemma repeated_map {A B} n (r : list wfield -> option B) (g : A -> list wfield) (h : A -> B) l fs :
  reps n fs = map (fun x => bytes (g x)) l -> (forall x, In x l -> In (n, WLen (bytes (g x))) fs) ->
  (forall x, In x l -> reads (g x) r (h x)) -> len (bytes fs) < 2 ^ 63 -> repeated n r fs = Some (map h l).
Proof.
  intros E I R L. unfold repeated. rewrite E. apply traverse_map. intros x Hx. apply reads_msg; [now apply R|].
  specialize (I x Hx). apply len_in in I. lia.
Qed.

Lemma sub_one {A} n (d : A) r g a fs : reps n fs = [bytes g] -> In (n, WLen (bytes g)) fs -> reads g r a ->
  len (bytes fs) < 2 ^ 63 -> sub n d r fs = Some a.
Proof.
  intros E I R L. unfold sub. rewrite E. cbn [one bind]. apply reads_msg; [exact R|]. apply len_in in I. lia.
Qed.

Lemma reps_map {A} n (g : A -> list wfield) l : reps n (map (fun x => (n, WLen (bytes (g x)))) l) = map (fun x => bytes (g x)) l.
Proof. induction l as [|x l IH]; [reflexivity|]. cbn. rewrite Z.eqb_refl. cbn. now rewrite <- IH. Qed.

Lemma reps_app n a b : reps n (a ++ b) = reps n a ++ reps n b.
Proof. apply flat_map_app. Qed.
Lemma nums_app n a b : nums n (a ++ b) = nums n a ++ nums n b.
Proof. apply flat_map_app. Qed.

Lemma reps_other {A} n m (g : A -> list wfield) l : m <> n -> reps n (map (fun x => (m, WLen (bytes (g x)))) l) = [].
Proof. intros H. induction l as [|x l IH]; [reflexivity|]. cbn. destruct (Z.eqb_spec m n); [contradiction|]. exact IH. Qed.

Lemma nums_map {A} n m (g : A -> list wfield) l : nums n (map (fun x => (m, WLen (bytes (g x)))) l) = [].
Proof. induction l as [|x l IH]; [reflexivity|]. exact IH. Qed.

Lemma sgn64_u64 v : sgn 64 (u64 v) = sgn 64 v.
Proof. unfold sgn. now rewrite wrap_wrap by lia. Qed.

Lemma any_reads a : reads (any_fields a) read_any (snd (attr_view a)).
Proof.
  destruct a as [k v|k v]; split; intros; try reflexivity.
  - repeat constructor; cbn; lia.
  - pose proof (wrap_range 64 v ltac:(lia)). repeat constructor; cbn [fst snd]; lia.
  - cbn [any_fields read_any attr_view snd]. now rewrite sgn64_u64.
Qed.

Lemma kv_reads a : reads (attr_fields a) read_kv (attr_view a).
Proof.
  split; [destruct a; repeat constructor; cbn; lia|]. intros L. unfold read_kv.
  replace (str 1 (attr_fields a)) with (Some (fst (attr_view a))) by now destruct a.
  cbn [bind]. rewrite (sub_one 2 VNone read_any (any_fields a) (snd (attr_view a))); cbn [bind];
    [now destruct a|reflexivity|right; now left|apply any_reads|exact L].
Qed.

(** Attributes among other fields. *)
Lemma attrs_read n l fs : reps n fs = reps n (attrs_fields n l) -> incl (attrs_fields n l) fs -> len (bytes fs) < 2 ^ 63 ->
  repeated n read_kv fs = Some (map attr_view l).
Proof.
  intros E I L. unfold attrs_fields in *. rewrite reps_map in E.
  apply (repeated_map n read_kv attr_fields attr_view l fs E); auto using kv_reads.
  intros x Hx. apply I. now apply (in_map (fun a => (n, WLen (bytes (attr_fields a))))).
Qed.

Lemma attrs_num_ok n l : 0 < n < 2 ^ 29 -> Forall num_ok (attrs_fields n l).
Proof. intros H. apply Forall_map, Forall_forall. intros a _. split; cbn [fst snd]; auto. Qed.

(** *** The fields of one number, piece by piece *)

Lemma reps_attrs n m l : reps n (attrs_fields m l) = if m =? n then map (fun a => bytes (attr_fields a)) l else [].
Proof. unfold attrs_fields. destruct (Z.eqb_spec m n) as [->|]; [apply reps_map|now apply reps_other]. Qed.

Lemma nums_attrs n m l : nums n (attrs_fields m l) = [].
Proof. apply nums_map. Qed.

Lemma reps_num n m v w : (forall b, w <> WLen b) -> reps n (opt_num m v w) = [].
Proof. intros H. unfold opt_num. destruct (v =? 0); [reflexivity|]. destruct w; try reflexivity. now specialize (H bs). Qed.

Lemma nums_num64 n m v w : nums n (opt_num m v (W64 w)) = if m =? n then if v =? 0 then [] else [w] else [].
Proof. unfold opt_num. cbn. destruct (v =? 0), (m =? n) eqn:E; cbn; rewrite ?E; reflexivity. Qed.

Lemma nums_numv n m v w : nums n (opt_num m v (WVarint w)) = if m =? n then if v =? 0 then [] else [w] else [].
Proof. unfold opt_num. cbn. destruct (v =? 0), (m =? n) eqn:E; cbn; rewrite ?E; reflexivity. Qed.

Lemma reps_len n m b : reps n (opt_len m b) = if m =? n then match b with Some b => [b] | None => [] end else [].
Proof. destruct b; cbn; destruct (m =? n); reflexivity. Qed.

Lemma nums_len n m b : nums n (opt_len m b) = [].
Proof. now destruct b. Qed.

Lemma reps_words {A} n m (f : A -> Z) l : reps n (map (fun x => (m, W64 (f x))) l) = [].
Proof. induction l; [reflexivity|assumption]. Qed.

Lemma reps_varints {A} n m (f : A -> Z) l : reps n (map (fun x => (m, WVarint (f x))) l) = [].
Proof. induction l; [reflexivity|assumption]. Qed.

Lemma nums_words {A} n m (f : A -> Z) l : nums n (map (fun x => (m, W64 (f x))) l) = if m =? n then map f l else [].
Proof.
  induction l as [|x l IH]; [now destruct (m =? n)|]. cbn. fold (nums n (map (fun x => (m, W64 (f x))) l)). rewrite IH.
  now destruct (m =? n).
Qed.

Lemma nums_varints {A} n m (f : A -> Z) l : nums n (map (fun x => (m, WVarint (f x))) l) = if m =? n then map f l else [].
Proof.
  induction l as [|x l IH]; [now destruct (m =? n)|]. cbn. fold (nums n (map (fun x => (m, WVarint (f x))) l)). rewrite IH.
  now destruct (m =? n).
Qed.

(** A number left out at zero is read as zero. *)
Lemma one_num v w : (v = 0 -> w = 0) ->
  (let? o := one (if v =? 0 then [] else [w]) in Some (match o with Some v => v | None => 0 end)) = Some w.
Proof. intros H. destruct (Z.eqb_spec v 0) as [E|]; [now rewrite (H E)|reflexivity]. Qed.

End Reader.

Module Envelope.
Import Common Reader.

(** [ResourceLogs]/[ResourceSpans]/[ResourceMetrics], [ScopeLogs]/... and the request:
    the schemas give the same numbers to the same parts. *)
Definition ResourceItems (resource : list field) (scopes : fld -> encoder) : list field :=
  [Sub 1 (OPTIONAL true) resource; Callback (mk_fld 2 SUBMESSAGE) REPEATED (Some scopes);
   Callback (mk_fld 3 STRING) SINGULAR None].

Definition ScopeItems (scope : list field) (items : fld -> encoder) : list field :=
  [Sub 1 (OPTIONAL true) scope; Callback (mk_fld 2 SUBMESSAGE) REPEATED (Some items);
   Callback (mk_fld 3 STRING) SINGULAR None].

Definition ServiceRequest (resources : fld -> encoder) : list field :=
  [Callback (mk_fld 1 SUBMESSAGE) REPEATED (Some resources)].

Definition scope_or_default (scope_name : option text) : text :=
  match scope_name with Some s => s | None => lit "spinel-ebpf" end.

(** The request around a callback for the items. *)
Definition request (p : process) (service_name service_version scope_name : option text) (items : fld -> encoder)
  : list field :=
  let res := Resource (otlp_enc_resource_attrs p service_name service_version) in
  let scope := InstrumentationScope (otlp_enc_string (scope_or_default scope_name)) in
  let sl := ScopeItems scope items in
  let rl := ResourceItems res (otlp_enc_one_sub sl) in
  ServiceRequest (otlp_enc_one_sub rl).

Section Items.
Context (p : process) (service_name service_version scope_name : option text).
Context {X A : Type} (g : X -> list wfield) (r : list wfield -> option A) (h : X -> A).

Definition resource_fields : list wfield := attrs_fields 1 (resource_attrs p service_name service_version).
Definition scope_fields : list wfield := [(1, WLen (text_bytes (scope_or_default scope_name)))].
Definition items_fields (l : list X) : list wfield :=
  (1, WLen (bytes scope_fields)) :: map (fun x => (2, WLen (bytes (g x)))) l.
Definition group_fields (l : list X) : list wfield :=
  [(1, WLen (bytes resource_fields)); (2, WLen (bytes (items_fields l)))].

(** The request as the bytes of its one resource. *)
Definition request_fields (l : list X) : list wfield := [(1, WLen (bytes (group_fields l)))].

Lemma request_emits items l : emits (items (mk_fld 2 SUBMESSAGE)) (map (fun x => (2, WLen (bytes (g x)))) l) ->
  emits (pb_encode (request p service_name service_version scope_name items)) (request_fields l).
Proof.
  intros H. unfold request, request_fields, group_fields, items_fields.
  field_step; [|apply emits_end].
  apply (enc_one_sub_emits _ _ (mk_fld 1 SUBMESSAGE)); [reflexivity|cbn; lia|]. unfold ResourceItems. field_step.
  - rewrite <- (app_nil_r resource_fields). repeat field_step. now apply (resource_attrs_emits _ _ _ (mk_fld 1 SUBMESSAGE)).
  - repeat field_step.
    apply (enc_one_sub_emits _ _ (mk_fld 2 SUBMESSAGE)); [reflexivity|cbn; lia|]. unfold ScopeItems. field_step.
    + unfold scope_fields. repeat field_step. now apply (enc_string_emits _ (mk_fld 1 STRING)).
    + rewrite <- (app_nil_r (map _ l)). field_step; [exact H|]. repeat field_step.
Qed.

Hypothesis r_reads : forall x, reads (g x) r (h x).

Lemma resource_reads : reads resource_fields (repeated 1 read_kv) (map attr_view (resource_attrs p service_name service_version)).
Proof. split; [now apply attrs_num_ok|]. intros L. apply attrs_read; auto using incl_refl. Qed.

Lemma items_reads l : reads (items_fields l) (read_scope r) (text_bytes (scope_or_default scope_name), map h l).
Proof.
  split; [constructor; [split; cbn; auto; lia|]|].
  { apply Forall_map, Forall_forall. intros x _. split; cbn; auto; lia. }
  intros L. unfold read_scope. rewrite (sub_one 1 [] (str 1) scope_fields (text_bytes (scope_or_default scope_name))); auto.
  - cbn [bind]. rewrite (repeated_map 2 r g h l); auto; [apply reps_map|].
    intros x Hx. right. now apply (in_map (fun x => (2, WLen (bytes (g x))))).
  - unfold items_fields. cbn [reps flat_map]. fold (reps 1 (map (fun x => (2, WLen (bytes (g x)))) l)).
    rewrite reps_other by lia. reflexivity.
  - now left.
  - split; [repeat constructor; cbn; lia|reflexivity].
Qed.

Lemma group_reads l : reads (group_fields l) (read_resource r)
  (map attr_view (resource_attrs p service_name service_version), [(text_bytes (scope_or_default scope_name), map h l)]).
Proof.
  split; [repeat constructor; cbn; lia|]. intros L. unfold read_resource.
  rewrite (sub_one 1 [] (repeated 1 read_kv) resource_fields _ (group_fields l) eq_refl (or_introl eq_refl) resource_reads L). cbn [bind].
  rewrite (repeated_map 2 (read_scope r) items_fields (fun l => (text_bytes (scope_or_default scope_name), map h l)) [l]); auto.
  - intros x [<-|[]]. right. now left.
  - intros x _. apply items_reads.
Qed.

(** What a collector reads from a request that was built. *)
Definition received (l : list X) : list (list (list Z * value) * list (list Z * list A)) :=
  [(map attr_view (resource_attrs p service_name service_version), [(text_bytes (scope_or_default scope_name), map h l)])].

Lemma request_read l : len (bytes (request_fields l)) < 2 ^ 63 ->
  read_request r (bytes (request_fields l)) = Some (received l).
Proof.
  intros L. unfold read_request. apply reads_msg; [|exact L]. split; [repeat constructor; cbn; lia|]. intros _.
  apply (repeated_map 1 (read_resource r) group_fields
    (fun l => (map attr_view (resource_attrs p service_name service_version), [(text_bytes (scope_or_default scope_name), map h l)])) [l]); auto.
  - intros x [<-|[]]. now left.
  - intros x _. apply group_reads.
Qed.

End Items.

End Envelope.

Module Logs.
Import Common Reader Envelope Drain.

Definition LogRecord (time_unix_nano severity_number : Z) (severity_text : fld -> encoder) (body : list field)
  (observed_time_unix_nano : Z) (event_name : option (fld -> encoder)) : list field :=
  [Static (mk_fld 1 FIXED64) SINGULAR time_unix_nano;
   Static (mk_fld 2 UVARINT) SINGULAR severity_number;
   Callback (mk_fld 3 STRING) SINGULAR (Some severity_text);
   Sub 5 (OPTIONAL true) body;
   Callback (mk_fld 6 SUBMESSAGE) REPEATED None;
   Static (mk_fld 7 UVARINT) SINGULAR 0;
   Static (mk_fld 8 FIXED32) SINGULAR 0;
   Callback (mk_fld 9 BYTES) SINGULAR None;
   Callback (mk_fld 10 BYTES) SINGULAR None;
   Static (mk_fld 11 FIXED64) SINGULAR observed_time_unix_nano;
   Callback (mk_fld 12 STRING) SINGULAR event_name].

Definition severity_or_info (s : Z) : Z := u32 (if s =? 0 then 9 else s).

Definition log_body (x : otlp_log_record_t) : list field :=
  if body_is_str x
  then AnyValue 1 (Some (otlp_enc_string (match body_str x with Some s => s | None => [] end))) 0
  else AnyValue 3 None (body_int x).

Definition log_message (x : otlp_log_record_t) : list field :=
  LogRecord (time_unix_ns x) (severity_or_info (severity x)) (otlp_enc_string (lit "INFO")) (log_body x) (time_unix_ns x)
    (if nonempty (event_name x) then option_map otlp_enc_string (event_name x) else None).

Definition enc_log_records (recs : list otlp_log_record_t) (f : fld) : encoder :=
  each (fun x => pb_encode_tag_for_field f >>> pb_encode_submessage (pb_encode (log_message x))) recs.

Definition otlp_logs_build (p : process) (cap : Z) (service_name service_version scope_name : option text)
  (recs : list otlp_log_record_t) : option (list Z) :=
  encode_into cap (request p service_name service_version scope_name (enc_log_records recs)).

(** ** What arrives *)

Record log_view := mk_log_view {
  v_time : Z; v_severity : Z; v_severity_text : list Z; v_body : value; v_observed : Z; v_event : list Z }.

Local Open Scope reader_scope.

Definition read_log (fs : list wfield) : option log_view :=
  let? t := num 1 fs in let? s := num 2 fs in let? st := str 3 fs in let? b := sub 5 VNone read_any fs in
  let? o := num 11 fs in let? e := str 12 fs in Some (mk_log_view t s st b o e).

Definition body_attr (x : otlp_log_record_t) : attr :=
  if body_is_str x then AStr [] (match body_str x with Some s => s | None => [] end) else AInt [] (body_int x).

Definition view (x : otlp_log_record_t) : log_view :=
  mk_log_view (u64 (time_unix_ns x)) (severity_or_info (severity x)) (text_bytes (lit "INFO")) (snd (attr_view (body_attr x)))
    (u64 (time_unix_ns x)) (match event_name x with Some s => text_bytes s | None => [] end).

Definition log_fields (x : otlp_log_record_t) : list wfield :=
  opt_num 1 (time_unix_ns x) (W64 (u64 (time_unix_ns x)))
  ++ opt_num 2 (severity_or_info (severity x)) (WVarint (severity_or_info (severity x)))
  ++ [(3, WLen (text_bytes (lit "INFO")))] ++ (5, WLen (bytes (any_fields (body_attr x))))
  :: opt_num 11 (time_unix_ns x) (W64 (u64 (time_unix_ns x)))
  ++ match event_name x with Some (c :: s) => [(12, WLen (text_bytes (c :: s)))] | _ => [] end.

Lemma body_emits x : emits (pb_encode (log_body x)) (any_fields (body_attr x)).
Proof.
  unfold log_body, body_attr. destruct (body_is_str x); unfold AnyValue; cbn [any_fields].
  - repeat field_step. now apply (enc_string_emits _ (mk_fld 1 STRING)).
  - repeat field_step.
Qed.

Lemma log_emits x : emits (pb_encode (log_message x)) (log_fields x).
Proof.
  unfold log_message, LogRecord, log_fields.
  pose proof (wrap_range 32 (if severity x =? 0 then 9 else severity x) ltac:(lia)).
  apply emits_opt; [exact I|cbn; lia|]. apply emits_opt; [cbn; unfold severity_or_info; lia|cbn; lia|].
  field_step; [now apply (enc_string_emits _ (mk_fld 3 STRING))|]. field_step; [apply body_emits|].
  repeat field_step.
  destruct (event_name x) as [[|c s]|]; cbn [nonempty option_map]; [repeat field_step| |repeat field_step].
  repeat field_step. now apply (enc_string_emits _ (mk_fld 12 STRING)).
Qed.

Lemma enc_log_records_emits recs :
  emits (enc_log_records recs (mk_fld 2 SUBMESSAGE)) (map (fun x => (2, WLen (bytes (log_fields x)))) recs).
Proof.
  replace (map _ recs) with (flat_map (fun x => [(2, WLen (bytes (log_fields x)))]) recs)
    by (induction recs as [|x l IH]; [reflexivity|cbn; now rewrite <- IH]).
  apply emits_each. intros x _. apply (emits_submessage (mk_fld 2 SUBMESSAGE)); [reflexivity|cbn; lia|apply log_emits].
Qed.

Lemma log_reads x : reads (log_fields x) read_log (view x).
Proof.
  split; [apply (proj1 (log_emits x))|]. intros L. unfold read_log.
  assert (B : sub 5 VNone read_any (log_fields x) = Some (snd (attr_view (body_attr x)))).
  { apply (sub_one 5 VNone read_any (any_fields (body_attr x))); auto using any_reads.
    - unfold log_fields, opt_num. destruct (time_unix_ns x =? 0), (severity_or_info _ =? 0), (event_name x) as [[|]|]; reflexivity.
    - unfold log_fields. rewrite !in_app_iff. right. right. right. now left. }
  rewrite B. unfold view. clear B L. unfold log_fields, opt_num.
  destruct (Z.eqb_spec (time_unix_ns x) 0) as [->|], (Z.eqb_spec (severity_or_info (severity x)) 0) as [->|],
    (event_name x) as [[|]|]; reflexivity.
Qed.

(** [otlp_logs_build] writes one request when it fits the buffer and fails when it
    does not; whoever decodes the request by the schema's field numbers finds the
    resource attributes, the scope and every record, in order, with its time,
    severity (9 when none was given), body and event name. *)
Theorem otlp_logs_build_received p cap service_name service_version scope_name recs :
  let req := bytes (request_fields p service_name service_version scope_name log_fields recs) in
  0 <= cap < 2 ^ 63 -> len req < 2 ^ 63 ->
  otlp_logs_build p cap service_name service_version scope_name recs = (if len req <=? cap then Some req else None) /\
  read_request read_log req = Some (received p service_name service_version scope_name view recs).
Proof.
  intros req Hc L. split.
  - apply encode_into_emits; auto. apply request_emits, enc_log_records_emits.
  - apply request_read; auto using log_reads.
Qed.

Definition sample_process : process :=
  mk_process (fun k => if text_eqb k (lit "OTEL_RESOURCE_ATTRIBUTES") then Some (lit "team=edge") else None) (Some (lit "imx93")) 42.

Definition sample_logs : list otlp_log_record_t :=
  [mk_log 1700 0 false None (-5) (Some (lit "amp.emit")); mk_log 1701 17 true (Some (lit "over")) 0 None].

Lemma otlp_logs_build_received_witness :
  exists req, otlp_logs_build sample_process 512 (Some (lit "svc")) None None sample_logs = Some req /\ len req = 285 /\
    option_map (map (fun g => map (fun s => map v_body (snd s)) (snd g))) (read_request read_log req) =
      Some [[[VInt (-5); VStr (text_bytes (lit "over"))]]].
Proof.
  assert (C : (len (bytes (request_fields sample_process (Some (lit "svc")) None None log_fields sample_logs)) <=? 512) = true)
    by (vm_compute; reflexivity).
  destruct (otlp_logs_build_received sample_process 512 (Some (lit "svc")) None None sample_logs) as [B R];
    [lia|apply Z.leb_le in C; lia|]. rewrite C in B.
  eexists. split; [exact B|]. rewrite R. split; vm_compute; reflexivity.
Defined.

End Logs.

(** The drain of the event ring with this encoder. *)
Module DrainLogs.
Import Spsc Ring Drain Common Reader Envelope Logs.

Definition logs_encoder (p : process) : LogsEncoder := fun cap service version scope recs =>
  otlp_logs_build p cap service version (Some scope) recs.

(** What a collector sees of an emitted record. *)
Definition event_view (x : amp_ring_rec) : log_view :=
  mk_log_view (u64 (timestamp (hdr x))) 9 (text_bytes (lit "INFO")) (VInt (sgn 64 (Ring.value x)))
    (u64 (timestamp (hdr x))) (text_bytes (lit "amp.emit")).

Definition drain_request (p : process) (service version : option text) (batch : list amp_ring_rec) : list Z :=
  bytes (request_fields p service version (Some drain_scope) log_fields (map log_of batch)).

(** C11: a drain of a ring with pending records hands the transport a request from
    which a collector decodes exactly the oldest pending records, in order, and
    consumes exactly those; when the request does not fit the buffer it reports
    failure and consumes nothing. *)
Theorem drain_received p r cap service version max :
  ring_ok r -> magic r = AMP_RING_MAGIC -> pending r <> [] -> 0 <= cap < 2 ^ 63 ->
  let batch := firstn (effective_max max) (pending r) in
  let req := drain_request p service version batch in
  len req < 2 ^ 63 ->
  let res := amp_ring_drain_logs (E := logs_encoder p) (Some r) cap service version max in
  if len req <=? cap then
    d_ret res = len req /\ d_count res = length batch /\
    read_request read_log (d_bytes res) = Some (received p service version (Some drain_scope) event_view batch) /\
    exists r', d_ring res = Some r' /\ ring_ok r' /\ pending r = batch ++ pending r'
  else res = mk_drained (Some r) (-1) 0 [].
Proof.
  intros Hok Hm Hne Hc batch req L res. unfold res, amp_ring_drain_logs. rewrite Hm, Z.eqb_refl. cbn [negb].
  fold (effective_max max). rewrite (drain_all r (effective_max max) Hok). fold batch.
  assert (Hb : (length batch =? 0)%nat = false).
  { unfold batch, effective_max, AMP_DRAIN_MAX. apply Nat.eqb_neq. rewrite length_firstn.
    destruct (pending r); [contradiction|]. cbn [length].
    destruct (Nat.eqb_spec max 0), (Nat.ltb_spec 64 max); cbn [orb]; lia. }
  rewrite Hb. unfold Drain.otlp_logs_build, logs_encoder, otlp_logs_build.
  rewrite (encode_into_emits cap _ _ (request_emits p service version (Some drain_scope) log_fields _ _ (enc_log_records_emits _)) Hc L).
  fold (drain_request p service version batch). fold req. destruct (len req <=? cap); [|reflexivity].
  destruct (consume_upto r (effective_max max) Hok) as [Hok' Hp]. cbn [d_ret d_count d_bytes d_ring].
  split; [reflexivity|]. split; [reflexivity|]. split.
  - unfold req, drain_request. rewrite (request_read _ _ _ _ log_fields read_log view log_reads) by exact L.
    unfold received. rewrite map_map. reflexivity.
  - eexists. split; [reflexivity|]. split; [exact Hok'|]. rewrite Hp. unfold batch. now rewrite firstn_skipn.
Qed.

Lemma drain_received_witness :
  let res := amp_ring_drain_logs (E := logs_encoder sample_process) (Some full_ring) 1024 None None 0 in
  d_count res = 2%nat /\
  option_map (map (fun g => map (fun s => map v_body (snd s)) (snd g))) (read_request read_log (d_bytes res)) =
    Some [[[VInt 100; VInt 110]]].
Proof.
  assert (C : (len (drain_request sample_process None None (firstn (effective_max 0) (pending full_ring))) <=? 1024) = true)
    by (vm_compute; reflexivity).
  pose proof (drain_received sample_process full_ring 1024 None None 0
    (ring_ok_emit sample_ring 11 110 sample_ring_ok) eq_refl) as H. cbv zeta in H. rewrite C in H.
  destruct H as (_ & Hn & Hr & _); [discriminate|lia|apply Z.leb_le in C; lia|].
  split; [exact Hn|]. rewrite Hr. vm_compute. reflexivity.
Defined.

End DrainLogs.

Module Traces.
Import Common Reader Envelope.
Import Ids Assemble.

Definition Span (trace_id span_id : fld -> encoder) (parent_span_id : option (fld -> encoder)) (name : fld -> encoder)
  (kind start_time_unix_nano end_time_unix_nano : Z) (attributes : fld -> encoder) (status : option Z) : list field :=
  [Callback (mk_fld 1 BYTES) SINGULAR (Some trace_id);
   Callback (mk_fld 2 BYTES) SINGULAR (Some span_id);
   Callback (mk_fld 3 STRING) SINGULAR None;
   Callback (mk_fld 4 BYTES) SINGULAR parent_span_id;
   Callback (mk_fld 5 STRING) SINGULAR (Some name);
   Static (mk_fld 6 UVARINT) SINGULAR kind;
   Static (mk_fld 7 FIXED64) SINGULAR start_time_unix_nano;
   Static (mk_fld 8 FIXED64) SINGULAR end_time_unix_nano;
   Callback (mk_fld 9 SUBMESSAGE) REPEATED (Some attributes);
   Static (mk_fld 10 UVARINT) SINGULAR 0;
   Callback (mk_fld 11 SUBMESSAGE) REPEATED None;
   Static (mk_fld 12 UVARINT) SINGULAR 0;
   Callback (mk_fld 13 SUBMESSAGE) REPEATED None;
   Static (mk_fld 14 UVARINT) SINGULAR 0;
   Sub 15 (OPTIONAL (match status with Some _ => true | None => false end))
     [Callback (mk_fld 2 STRING) SINGULAR None;
      Static (mk_fld 3 UVARINT) SINGULAR (match status with Some c => c | None => 0 end)];
   Static (mk_fld 16 FIXED32) SINGULAR 0].

Definition SPAN_KIND_INTERNAL : Z := 1.
Definition SPAN_KIND_SERVER : Z := 2.
Definition STATUS_CODE_ERROR : Z := 2.

Definition parent_cb (has : bool) (id : list Z) : option (fld -> encoder) := if has then Some (otlp_enc_bytes id) else None.

Definition put_span (f : fld) (m : list field) : encoder := pb_encode_tag_for_field f >>> pb_encode_submessage (pb_encode m).

(** *** Spans of methods *)

Record otlp_method_meta_t := mk_meta { meta_idx : Z; method : option text; file : option text; line : Z }.

Definition find_meta (metas : list otlp_method_meta_t) (idx : Z) : option otlp_method_meta_t :=
  find (fun m => meta_idx m =? idx) metas.

Definition enc_span_attrs (m : option otlp_method_meta_t) (f : fld) : encoder :=
  match m with
  | None => succeed
  | Some m =>
      otlp_put_kv_str f (lit "code.function") (match method m with Some s => s | None => [] end) >>>
      put_if f (lit "code.filepath") (file m) >>>
      (if 0 <? line m then otlp_put_kv_int f (lit "code.lineno") (line m) else succeed)
  end.

Definition method_span (metas : list otlp_method_meta_t) (s : otlp_span_t) : list field :=
  let m := find_meta metas (method_idx s) in
  Span (otlp_enc_bytes (s_trace_id s)) (otlp_enc_bytes (s_span_id s)) (parent_cb (s_has_parent s) (s_parent_span_id s))
    (otlp_enc_string (match m with Some m => match method m with Some n => n | None => lit "?" end | None => lit "?" end))
    SPAN_KIND_INTERNAL (s_start s) (s_end s) (enc_span_attrs m) None.

Definition enc_spans (metas : list otlp_method_meta_t) (spans : list otlp_span_t) (f : fld) : encoder :=
  each (fun s => put_span f (method_span metas s)) spans.

Definition otlp_traces_build (p : process) (cap : Z) (service_name service_version scope_name : option text)
  (spans : list otlp_span_t) (metas : list otlp_method_meta_t) : option (list Z) :=
  encode_into cap (request p service_name service_version scope_name (enc_spans metas spans)).

(** *** The HTTP server span *)

Definition put_int_if (c : bool) (f : fld) (key : text) (v : Z) : encoder := if c then otlp_put_kv_int f key v else succeed.

Definition enc_http_attrs (s : OtlpHttpSpan.Span.otlp_http_span_t) (f : fld) : encoder :=
  put_if f (lit "http.request.method") (OtlpHttpSpan.Span.http_method s) >>>
  put_if f (lit "url.path") (OtlpHttpSpan.Span.url_path s) >>>
  put_int_if (0 <? OtlpHttpSpan.Span.status_code s) f (lit "http.response.status_code") (OtlpHttpSpan.Span.status_code s) >>>
  put_if f (lit "server.address") (OtlpHttpSpan.Span.server_address s) >>>
  put_int_if (0 <? OtlpHttpSpan.Span.server_port s) f (lit "server.port") (OtlpHttpSpan.Span.server_port s) >>>
  put_if f (lit "client.address") (OtlpHttpSpan.Span.client_address s) >>>
  put_if f (lit "url.scheme") (Some (OtlpHttpSpan.Span.url_scheme s)) >>>
  put_if f (lit "http.route") (OtlpHttpSpan.Span.hroute s) >>>
  put_if f (lit "tenant") (OtlpHttpSpan.Span.tenant s) >>>
  put_int_if (0 <=? OtlpHttpSpan.Span.tcp_established s) f (lit "net.tcp.established") (OtlpHttpSpan.Span.tcp_established s) >>>
  put_int_if (0 <=? OtlpHttpSpan.Span.tcp_state_changes s) f (lit "net.tcp.state_changes") (OtlpHttpSpan.Span.tcp_state_changes s).

Definition http_span (s : OtlpHttpSpan.Span.otlp_http_span_t) : list field :=
  Span (otlp_enc_bytes (OtlpHttpSpan.Span.trace_id s)) (otlp_enc_bytes (OtlpHttpSpan.Span.span_id s))
    (parent_cb (OtlpHttpSpan.Span.has_parent s) (OtlpHttpSpan.Span.parent_span_id s))
    (otlp_enc_string (OtlpHttpSpan.Span.name s)) SPAN_KIND_SERVER
    (OtlpHttpSpan.Span.start_unix_ns s) (OtlpHttpSpan.Span.end_unix_ns s) (enc_http_attrs s)
    (if 500 <=? OtlpHttpSpan.Span.status_code s then Some STATUS_CODE_ERROR else None).

Definition enc_http_span (s : OtlpHttpSpan.Span.otlp_http_span_t) (f : fld) : encoder := put_span f (http_span s).

Definition otlp_traces_http_build (p : process) (cap : Z) (service_name service_version scope_name : option text)
  (span : OtlpHttpSpan.Span.otlp_http_span_t) : option (list Z) :=
  encode_into cap (request p service_name service_version scope_name (enc_http_span span)).

(** *** Generic spans *)

Definition enc_generic_attrs (attrs : list otlp_kv_t) (f : fld) : encoder :=
  each (fun kv => match key kv, val kv with
                  | _ :: _, _ :: _ => otlp_put_kv_str f (key kv) (val kv)
                  | _, _ => succeed
                  end) attrs.

Definition generic_span (s : otlp_generic_span_t) : list field :=
  Span (otlp_enc_bytes (trace_id s)) (otlp_enc_bytes (span_id s)) (parent_cb (has_parent s) (parent_span_id s))
    (otlp_enc_string (name s)) (u32 (if kind s =? 0 then SPAN_KIND_INTERNAL else kind s))
    (start_unix_ns s) (end_unix_ns s) (enc_generic_attrs (attrs s)) (if is_error s then Some STATUS_CODE_ERROR else None).

Definition enc_generic_span_one (f : fld) (s : otlp_generic_span_t) : encoder := put_span f (generic_span s).

Definition enc_generic_spans (spans : list otlp_generic_span_t) (f : fld) : encoder := each (enc_generic_span_one f) spans.

Definition otlp_traces_generic_build_multi (p : process) (cap : Z) (service_name service_version scope_name : option text)
  (spans : list otlp_generic_span_t) : option (list Z) :=
  encode_into cap (request p service_name service_version scope_name (enc_generic_spans spans)).

Definition otlp_traces_generic_build (p : process) (cap : Z) (service_name service_version scope_name : option text)
  (span : otlp_generic_span_t) : option (list Z) :=
  otlp_traces_generic_build_multi p cap service_name service_version scope_name [span].

(** ** What arrives *)

Record span_view := mk_span_view {
  v_trace : list Z; v_span : list Z; v_parent : list Z; v_name : list Z; v_kind : Z; v_start : Z; v_end : Z;
  v_attrs : list (list Z * value); v_status : Z }.

Local Open Scope reader_scope.

Definition read_span (fs : list wfield) : option span_view :=
  let? t := str 1 fs in let? s := str 2 fs in let? p := str 4 fs in let? n := str 5 fs in let? k := num 6 fs in
  let? b := num 7 fs in let? e := num 8 fs in let? a := repeated 9 read_kv fs in let? c := sub 15 0 (num 3) fs in
  Some (mk_span_view t s p n k b e a c).

Definition status_fields (c : Z) : list wfield := opt_num 3 c (WVarint c).

Definition span_fields (tid sid : list Z) (parent : option (list Z)) (nm : list Z) (k b e : Z) (attrs : list attr)
  (status : option Z) : list wfield :=
  [(1, WLen tid)] ++ [(2, WLen sid)] ++ opt_len 4 parent ++ [(5, WLen nm)] ++ opt_num 6 k (WVarint k) ++
  opt_num 7 b (W64 (u64 b)) ++ opt_num 8 e (W64 (u64 e)) ++ attrs_fields 9 attrs ++
  opt_len 15 (option_map (fun c => bytes (status_fields c)) status).

Definition or_nil (b : option (list Z)) : list Z := match b with Some b => b | None => [] end.

Definition span_seen (tid sid : list Z) (parent : option (list Z)) (nm : list Z) (k b e : Z) (attrs : list attr)
  (status : option Z) : span_view :=
  mk_span_view tid sid (or_nil parent) nm k (u64 b) (u64 e) (map attr_view attrs) (match status with Some c => c | None => 0 end).

Lemma span_emits tid sid parent nm k b e enc attrs status :
  emits (enc (mk_fld 9 SUBMESSAGE)) (attrs_fields 9 attrs) -> 0 <= k < 2 ^ 32 -> (forall c, status = Some c -> 0 <= c < 2 ^ 32) ->
  emits (pb_encode (Span (otlp_enc_bytes tid) (otlp_enc_bytes sid) (option_map otlp_enc_bytes parent) (otlp_enc_string nm)
                      k b e enc status))
    (span_fields tid sid parent (text_bytes nm) k b e attrs status).
Proof.
  intros Ha Hk Hs. unfold Span, span_fields.
  field_step; [now apply (enc_bytes_emits _ (mk_fld 1 BYTES))|]. field_step; [now apply (enc_bytes_emits _ (mk_fld 2 BYTES))|].
  field_step. apply emits_cons.
  { destruct parent as [i|]; cbn [option_map opt_len encode_field skipped]; [|apply emits_nil].
    now apply (enc_bytes_emits _ (mk_fld 4 BYTES)). }
  field_step; [now apply (enc_string_emits _ (mk_fld 5 STRING))|].
  apply emits_opt; [cbn; lia|cbn; lia|]. do 2 (apply emits_opt; [exact I|cbn; lia|]).
  apply emits_call; [reflexivity|exact Ha|]. repeat field_step.
  destruct status as [c|]; cbn [option_map opt_len].
  - specialize (Hs c eq_refl). apply emits_sub; [reflexivity|cbn; lia| |repeat field_step].
    unfold status_fields. rewrite <- (app_nil_r (opt_num 3 c _)). field_step. apply emits_opt; [cbn; lia|cbn; lia|apply emits_end].
  - apply emits_skip; [reflexivity|]. repeat field_step.
Qed.

Lemma status_reads c : 0 <= c < 2 ^ 32 -> reads (status_fields c) (num 3) c.
Proof.
  intros H. unfold status_fields, opt_num. destruct (Z.eqb_spec c 0) as [->|]; split; try reflexivity; repeat constructor; cbn; lia.
Qed.

(** Attributes leave the other fields alone. *)
Lemma reps_span n tid sid parent nm k b e attrs status : n <> 9 ->
  reps n (span_fields tid sid parent nm k b e attrs status) = reps n (span_fields tid sid parent nm k b e [] status).
Proof. intros H. unfold span_fields. rewrite !reps_app. unfold attrs_fields. now rewrite !reps_other by lia. Qed.

Lemma nums_span n tid sid parent nm k b e attrs status :
  nums n (span_fields tid sid parent nm k b e attrs status) = nums n (span_fields tid sid parent nm k b e [] status).
Proof. unfold span_fields. rewrite !nums_app. unfold attrs_fields. now rewrite !nums_map. Qed.

Lemma span_attrs_read tid sid parent nm k b e attrs status :
  let fs := span_fields tid sid parent nm k b e attrs status in
  len (bytes fs) < 2 ^ 63 -> repeated 9 read_kv fs = Some (map attr_view attrs).
Proof.
  intros fs L. apply attrs_read; [|intros x Hx; unfold fs, span_fields; rewrite !in_app_iff; tauto|exact L].
  unfold fs, span_fields. rewrite !reps_app. unfold opt_num.
  destruct parent, (k =? 0), (b =? 0), (e =? 0), status; cbn [opt_len option_map reps flat_map app]; now rewrite ?app_nil_r.
Qed.

Lemma span_status_read tid sid parent nm k b e attrs status : (forall c, status = Some c -> 0 <= c < 2 ^ 32) ->
  let fs := span_fields tid sid parent nm k b e attrs status in
  len (bytes fs) < 2 ^ 63 -> sub 15 0 (num 3) fs = Some (match status with Some c => c | None => 0 end).
Proof.
  intros Hs fs L. destruct status as [c|].
  - apply (sub_one 15 0 (num 3) (status_fields c)); auto using status_reads.
    + unfold fs. rewrite reps_span by lia. unfold span_fields, opt_num. destruct parent, (k =? 0), (b =? 0), (e =? 0); reflexivity.
    + unfold fs, span_fields. rewrite !in_app_iff. cbn [opt_len option_map In]. tauto.
  - unfold sub, fs. rewrite reps_span by lia. unfold span_fields, opt_num. destruct parent, (k =? 0), (b =? 0), (e =? 0); reflexivity.
Qed.

Lemma span_reads tid sid parent nm k b e enc attrs status :
  emits (enc (mk_fld 9 SUBMESSAGE)) (attrs_fields 9 attrs) -> 0 <= k < 2 ^ 32 -> (forall c, status = Some c -> 0 <= c < 2 ^ 32) ->
  reads (span_fields tid sid parent (text_bytes nm) k b e attrs status) read_span
    (span_seen tid sid parent (text_bytes nm) k b e attrs status).
Proof.
  intros Ha Hk Hs. split; [apply (proj1 (span_emits tid sid parent nm k b e enc attrs status Ha Hk Hs))|]. intros L.
  unfold read_span. rewrite span_attrs_read, span_status_read by assumption. clear L.
  unfold str, num. rewrite (reps_span 1), (reps_span 2), (reps_span 4), (reps_span 5), (nums_span 6), (nums_span 7), (nums_span 8) by lia.
  unfold span_seen, span_fields, opt_num.
  destruct parent, (Z.eqb_spec k 0) as [->|], (Z.eqb_spec b 0) as [->|], (Z.eqb_spec e 0) as [->|], status; reflexivity.
Qed.

(** *** The three kinds of span *)

Definition parent_id (has : bool) (id : list Z) : option (list Z) := if has then Some id else None.

Lemma parent_cb_map has id : parent_cb has id = option_map otlp_enc_bytes (parent_id has id).
Proof. now destruct has. Qed.

Definition method_name (m : option otlp_method_meta_t) : text :=
  match m with Some m => match method m with Some n => n | None => lit "?" end | None => lit "?" end.

Definition int_attr (c : bool) (k : text) (v : Z) : list attr := if c then [AInt k v] else [].

Definition method_attrs (m : option otlp_method_meta_t) : list attr :=
  match m with
  | None => []
  | Some m => [AStr (lit "code.function") (match method m with Some s => s | None => [] end)]
              ++ opt_attr (lit "code.filepath") (file m) ++ int_attr (0 <? line m) (lit "code.lineno") (line m)
  end.

Lemma put_int_if_emits c f k v : wiretype (lt f) = 2 -> 0 < tag f < 2 ^ 29 ->
  emits (put_int_if c f k v) (attrs_fields (tag f) (int_attr c k v)).
Proof. intros Hw Ht. destruct c; [now apply put_kv_int_emits|apply emits_nil]. Qed.

#[local] Hint Resolve put_kv_str_emits put_kv_int_emits put_if_emits put_int_if_emits : otlp.

Lemma method_attrs_emits m : emits (enc_span_attrs m (mk_fld 9 SUBMESSAGE)) (attrs_fields 9 (method_attrs m)).
Proof.
  destruct m as [m|]; [|apply emits_nil]. unfold enc_span_attrs, method_attrs.
  apply emits_attrs; [now apply (put_kv_str_emits (mk_fld 9 SUBMESSAGE))|].
  apply emits_attrs; [now apply (put_if_emits (mk_fld 9 SUBMESSAGE))|now apply (put_int_if_emits _ (mk_fld 9 SUBMESSAGE))].
Qed.

Definition http_attrs (s : OtlpHttpSpan.Span.otlp_http_span_t) : list attr :=
  opt_attr (lit "http.request.method") (OtlpHttpSpan.Span.http_method s)
  ++ opt_attr (lit "url.path") (OtlpHttpSpan.Span.url_path s)
  ++ int_attr (0 <? OtlpHttpSpan.Span.status_code s) (lit "http.response.status_code") (OtlpHttpSpan.Span.status_code s)
  ++ opt_attr (lit "server.address") (OtlpHttpSpan.Span.server_address s)
  ++ int_attr (0 <? OtlpHttpSpan.Span.server_port s) (lit "server.port") (OtlpHttpSpan.Span.server_port s)
  ++ opt_attr (lit "client.address") (OtlpHttpSpan.Span.client_address s)
  ++ opt_attr (lit "url.scheme") (Some (OtlpHttpSpan.Span.url_scheme s))
  ++ opt_attr (lit "http.route") (OtlpHttpSpan.Span.hroute s)
  ++ opt_attr (lit "tenant") (OtlpHttpSpan.Span.tenant s)
  ++ int_attr (0 <=? OtlpHttpSpan.Span.tcp_established s) (lit "net.tcp.established") (OtlpHttpSpan.Span.tcp_established s)
  ++ int_attr (0 <=? OtlpHttpSpan.Span.tcp_state_changes s) (lit "net.tcp.state_changes") (OtlpHttpSpan.Span.tcp_state_changes s).

Lemma http_attrs_emits s : emits (enc_http_attrs s (mk_fld 9 SUBMESSAGE)) (attrs_fields 9 (http_attrs s)).
Proof.
  unfold enc_http_attrs, http_attrs.
  repeat (apply emits_attrs;
    [first [now apply (put_if_emits (mk_fld 9 SUBMESSAGE))|now apply (put_int_if_emits _ (mk_fld 9 SUBMESSAGE))]|]).
  now apply (put_int_if_emits _ (mk_fld 9 SUBMESSAGE)).
Qed.

Definition generic_attr (a : otlp_kv_t) : list attr := match key a, val a with _ :: _, _ :: _ => [kv_attr a] | _, _ => [] end.

Lemma generic_attrs_emits l : emits (enc_generic_attrs l (mk_fld 9 SUBMESSAGE)) (attrs_fields 9 (flat_map generic_attr l)).
Proof.
  apply emits_each_attr. intros a _. unfold generic_attr.
  destruct a as [[|c k] [|d v]]; cbn [key val]; try apply emits_nil. now apply (put_kv_str_emits (mk_fld 9 SUBMESSAGE)).
Qed.

(** Each kind as the parts of a span, handed to [K]: the fields on the wire and what
    a collector sees. *)
Definition parts (A : Type) : Type :=
  list Z -> list Z -> option (list Z) -> list Z -> Z -> Z -> Z -> list attr -> option Z -> A.

Definition method_of {A} (K : parts A) (metas : list otlp_method_meta_t) (s : otlp_span_t) : A :=
  let m := find_meta metas (method_idx s) in
  K (s_trace_id s) (s_span_id s) (parent_id (s_has_parent s) (s_parent_span_id s)) (text_bytes (method_name m))
    SPAN_KIND_INTERNAL (s_start s) (s_end s) (method_attrs m) None.

Definition http_of {A} (K : parts A) (s : OtlpHttpSpan.Span.otlp_http_span_t) : A :=
  K (OtlpHttpSpan.Span.trace_id s) (OtlpHttpSpan.Span.span_id s)
    (parent_id (OtlpHttpSpan.Span.has_parent s) (OtlpHttpSpan.Span.parent_span_id s)) (text_bytes (OtlpHttpSpan.Span.name s))
    SPAN_KIND_SERVER (OtlpHttpSpan.Span.start_unix_ns s) (OtlpHttpSpan.Span.end_unix_ns s) (http_attrs s)
    (if 500 <=? OtlpHttpSpan.Span.status_code s then Some STATUS_CODE_ERROR else None).

Definition generic_of {A} (K : parts A) (s : otlp_generic_span_t) : A :=
  K (trace_id s) (span_id s) (parent_id (has_parent s) (parent_span_id s)) (text_bytes (name s))
    (u32 (if kind s =? 0 then SPAN_KIND_INTERNAL else kind s)) (start_unix_ns s) (end_unix_ns s)
    (flat_map generic_attr (attrs s)) (if is_error s then Some STATUS_CODE_ERROR else None).

Lemma error_status (c : bool) : forall x, (if c then Some STATUS_CODE_ERROR else None) = Some x -> 0 <= x < 2 ^ 32.
Proof. intros x. destruct c; [|discriminate]. injection 1 as <-. unfold STATUS_CODE_ERROR. lia. Qed.

Lemma method_ok metas s : emits (pb_encode (method_span metas s)) (method_of span_fields metas s) /\
  reads (method_of span_fields metas s) read_span (method_of span_seen metas s).
Proof.
  unfold method_span, method_of. rewrite parent_cb_map. split.
  - apply span_emits; [apply method_attrs_emits|unfold SPAN_KIND_INTERNAL; lia|discriminate].
  - eapply span_reads; [apply method_attrs_emits|unfold SPAN_KIND_INTERNAL; lia|discriminate].
Qed.

Lemma http_ok s : emits (pb_encode (http_span s)) (http_of span_fields s) /\ reads (http_of span_fields s) read_span (http_of span_seen s).
Proof.
  unfold http_span, http_of. rewrite parent_cb_map. split.
  - apply span_emits; [apply http_attrs_emits|unfold SPAN_KIND_SERVER; lia|apply error_status].
  - eapply span_reads; [apply http_attrs_emits|unfold SPAN_KIND_SERVER; lia|apply error_status].
Qed.

Lemma generic_ok s : emits (pb_encode (generic_span s)) (generic_of span_fields s) /\ reads (generic_of span_fields s) read_span (generic_of span_seen s).
Proof.
  unfold generic_span, generic_of. rewrite parent_cb_map. split.
  - apply span_emits; [apply generic_attrs_emits|apply wrap_range; lia|apply error_status].
  - eapply span_reads; [apply generic_attrs_emits|apply wrap_range; lia|apply error_status].
Qed.

(** Spans in a batch. *)
Lemma put_spans_emits {A} (m : A -> list field) (g : A -> list wfield) l : (forall x, emits (pb_encode (m x)) (g x)) ->
  emits (each (fun x => put_span (mk_fld 2 SUBMESSAGE) (m x)) l) (map (fun x => (2, WLen (bytes (g x)))) l).
Proof.
  intros H. replace (map _ l) with (flat_map (fun x => [(2, WLen (bytes (g x)))]) l)
    by (induction l as [|x l IH]; [reflexivity|cbn; now rewrite <- IH]).
  apply emits_each. intros x _. apply (emits_submessage (mk_fld 2 SUBMESSAGE)); [reflexivity|cbn; lia|apply H].
Qed.

(** Builders of spans: what they write is what a collector reads. *)
Section Build.
Context (p : process) (cap : Z) (service_name service_version scope_name : option text).
Hypothesis cap_ok : 0 <= cap < 2 ^ 63.

Definition arrives {X} (out : option (list Z)) (g : X -> list wfield) (h : X -> span_view) (l : list X) : Prop :=
  let req := bytes (request_fields p service_name service_version scope_name g l) in
  len req < 2 ^ 63 -> out = (if len req <=? cap then Some req else None) /\
    read_request read_span req = Some (received p service_name service_version scope_name h l).

Lemma build_arrives {X} (items : fld -> encoder) (g : X -> list wfield) h l :
  emits (items (mk_fld 2 SUBMESSAGE)) (map (fun x => (2, WLen (bytes (g x)))) l) ->
  (forall x, reads (g x) read_span (h x)) ->
  arrives (encode_into cap (request p service_name service_version scope_name items)) g h l.
Proof.
  intros Hi H. unfold arrives. intros L. split.
  - apply encode_into_emits; auto. now apply request_emits.
  - now apply request_read.
Qed.

(** The three trace builders (method spans, an HTTP server span, generic spans)
    write a request when it fits the buffer and fail when it does not; decoded by the
    schema's field numbers it gives back every span in order: ids, parent only when
    there is one, name, kind, times, its attributes without the empty ones, and the
    error status exactly for responses of 500 and above or spans marked as errors. *)
Theorem otlp_traces_received spans metas http generics :
  arrives (otlp_traces_build p cap service_name service_version scope_name spans metas)
    (method_of span_fields metas) (method_of span_seen metas) spans /\
  arrives (otlp_traces_http_build p cap service_name service_version scope_name http)
    (http_of span_fields) (http_of span_seen) [http] /\
  arrives (otlp_traces_generic_build_multi p cap service_name service_version scope_name generics)
    (generic_of span_fields) (generic_of span_seen) generics.
Proof.
  split; [|split]; apply build_arrives.
  - apply put_spans_emits. apply method_ok.
  - apply method_ok.
  - apply (emits_submessage (mk_fld 2 SUBMESSAGE)); [reflexivity|cbn; lia|apply http_ok].
  - apply http_ok.
  - apply put_spans_emits. apply generic_ok.
  - apply generic_ok.
Qed.

End Build.

Definition sample_span : otlp_generic_span_t :=
  mk_gspan (repeat 1 16) (repeat 2 8) (repeat 3 8) true 100 250 (lit "deny") 0 true
    [mk_kv (lit "path") (lit "/etc"); mk_kv (lit "empty") []].

Lemma otlp_traces_received_witness :
  option_map (map (fun g => map (fun s => map v_attrs (snd s)) (snd g)))
    (match otlp_traces_generic_build Logs.sample_process 512 None None None sample_span with
     | Some req => read_request read_span req | None => None end)
  = Some [[[[(text_bytes (lit "path"), VStr (text_bytes (lit "/etc")))]]]].
Proof.
  assert (C : (len (bytes (request_fields Logs.sample_process None None None (generic_of span_fields) [sample_span])) <=? 512) = true)
    by (vm_compute; reflexivity).
  destruct (otlp_traces_received Logs.sample_process 512 None None None ltac:(lia) [] []
    (OtlpHttpSpan.Span.mk_hspan [] [] [] false 0 0 [] None None 0 None 0 None [] None None 0 0) [sample_span]) as (_ & _ & H).
  destruct H as [B R]; [apply Z.leb_le in C; lia|]. rewrite C in B. unfold otlp_traces_generic_build. rewrite B, R.
  vm_compute. reflexivity.
Defined.

End Traces.
