(* ===== verification/OtlpBatch.v ===== *)
(** * The span batch of the export agent ([src/runtime/otlp/otlp_agent.c])

    - [Batch]: spans are copied into a buffer and posted together, when the buffer is
      full and at the end of a drain cycle; the event limit is checked after that.
    - [Deliver]: every span added to a batch is posted once, in order, in groups of at
      most the configured size, and a collector decodes exactly those spans.
    - [Size]: a batch of the default size always fits the encode buffer. *)

From S2P Require Import Prelude Bytes CText PbEncode Channels OtlpTraces OtlpTransport OtlpGrpc OtlpPb.

Module Batch.
Import Ids Post.

Definition OTLP_BATCH_HARD_MAX : nat := 128.
Definition OTLP_BATCH_ATTR_CAP : nat := 20.
Definition OTLP_BATCH_NAME_CAP : nat := 320.

Definition OTLP_GRPC_PATH_TRACES : text := lit "/opentelemetry.proto.collector.trace.v1.TraceService/Export".

(** The service name and version a batch points at: a string of its own (the
    environment's), or the agent's buffers, whose contents may change before the
    batch is sent. *)
Inductive cref := Owned (s : text) | ServiceBuf | VersionBuf.

Record otlp_span_batch_t := mk_batch {
  spans : list otlp_generic_span_t;
  max : nat;
  posts : Z;
  last_status : Z;
  endpoint : option text;
  svc : cref;
  ver : cref;
  scope : text
}.

(** One request handed to the transport, and its outcome. *)
Record sent := mk_sent { s_to : option text; s_path : text; s_type : text; s_body : list Z; s_status : option Z }.

(** What the exporters share: the batch, the names, the requests made so far and the
    tally of events. *)
Record io := mk_io {
  batch : otlp_span_batch_t;
  g_service : text;
  g_version : text;
  sends : list sent;
  events : Z
}.

Definition set_batch b st := mk_io b (g_service st) (g_version st) (sends st) (events st).
Definition set_events n st := mk_io (batch st) (g_service st) (g_version st) (sends st) n.
Definition log_send x st := mk_io (batch st) (g_service st) (g_version st) (sends st ++ [x]) (events st).
Definition set_spans l b := mk_batch l (max b) (posts b) (last_status b) (endpoint b) (svc b) (ver b) (scope b).
Definition answered s b := mk_batch (spans b) (max b) (posts b + 1) s (endpoint b) (svc b) (ver b) (scope b).

Definition batch0 : otlp_span_batch_t := mk_batch [] 0 0 0 None (Owned []) (Owned []) [].
Definition io0 : io := mk_io batch0 (lit "spinel-ebpf-instrument") (lit "0") [] 0.

Definition deref (st : io) (r : cref) : text :=
  match r with Owned s => s | ServiceBuf => g_service st | VersionBuf => g_version st end.

Section Host.
(** The process, the compressor, and the network at each successive request. *)
Variable p : process.
Variable gzip : list Z -> option (list Z).
Variable network : nat -> net * list Z.

Definition otlp_batch_env_max : nat :=
  let m := match getenv p (lit "SPNL_OTLP_BATCH_MAX") with
           | Some (c :: e) => let v := atoi_int (c :: e) in if 1 <=? v then v else 64
           | _ => 64
           end in
  Nat.min (Z.to_nat m) OTLP_BATCH_HARD_MAX.

(** [otlp_transport_send]; [network] gives the peer's behaviour for this request. *)
Definition transport (to : option text) (path grpc_path ctype : text) (body : list Z) (st : io) : option Z * io :=
  let '(n, input) := network (length (sends st)) in
  let r := Send.otlp_transport_send (getenv p) gzip n input to (Some path) grpc_path (Some ctype) body in
  (r, log_send (mk_sent to path ctype body r) st).

Definition otlp_batch_begin (ep : text) (sv vr : cref) (sc : text) (st : io) : io :=
  set_batch (mk_batch [] otlp_batch_env_max 0 0 (Some ep) sv vr sc) st.

Definition batch_body (st : io) : option (list Z) :=
  let b := batch st in
  Traces.otlp_traces_generic_build_multi p (2 ^ 20) (Some (deref st (svc b))) (Some (deref st (ver b))) (Some (scope b)) (spans b).

Definition otlp_batch_flush (st : io) : Z * io :=
  match spans (batch st) with
  | [] => (0, st)
  | _ =>
      let blen := batch_body st in
      let st := set_batch (set_spans [] (batch st)) st in
      match blen with
      | None => (-1, st)
      | Some buf =>
          let '(r, st) := transport (endpoint (batch st)) (lit "/v1/traces") OTLP_GRPC_PATH_TRACES (lit "application/x-protobuf") buf st in
          match r with
          | None => (-1, st)
          | Some status => (status, set_batch (answered status (batch st)) st)
          end
      end
  end.

(** The copy of a span the batch owns. *)
Definition stored (s : otlp_generic_span_t) : otlp_generic_span_t :=
  mk_gspan (trace_id s) (span_id s) (parent_span_id s) (has_parent s) (start_unix_ns s) (end_unix_ns s)
    (trunc OTLP_BATCH_NAME_CAP (name s)) (kind s) (is_error s) (firstn OTLP_BATCH_ATTR_CAP (attrs s)).

Definition otlp_batch_add (s : otlp_generic_span_t) (st : io) : Z * io :=
  let st := if (max (batch st) <=? length (spans (batch st)))%nat then snd (otlp_batch_flush st) else st in
  if (OTLP_BATCH_HARD_MAX <=? length (spans (batch st)))%nat then (-1, st)
  else
    let st := set_batch (set_spans (spans (batch st) ++ [stored s]) (batch st)) st in
    (1, set_events (snd (Balance.spnl_oneshot_add (getenv p) 1 (events st))) st).

(** The process goes on, or [spnl_oneshot_exit] ends it. *)
Inductive outcome := Returns (r : Z) (st : io) | Exits (st : io).

Definition otlp_batch_flush_final (st : io) : outcome :=
  let '(r, st) := otlp_batch_flush st in
  let '(stop, n) := Balance.spnl_oneshot_add (getenv p) 0 (events st) in
  let st := set_events n st in
  if stop then Exits st else Returns r st.

End Host.

Definition state_of (o : outcome) : io := match o with Returns _ st => st | Exits st => st end.

End Batch.

Module Deliver.
Import Ids Batch Stream Wire.

(** ** Groups of a batch *)

(** The requests a run of additions and the final flush make, when [pend] is buffered. *)
Fixpoint groups_from {A} (n : nat) (pend l : list A) : list (list A) :=
  match l with
  | [] => match pend with [] => [] | _ => [pend] end
  | x :: l' => if (n <=? length pend)%nat then pend :: groups_from n [x] l' else groups_from n (pend ++ [x]) l'
  end.

Lemma groups_concat {A} n (l : list A) : forall pend, concat (groups_from n pend l) = pend ++ l.
Proof.
  induction l as [|x l IH]; intros pend; cbn [groups_from].
  - destruct pend; [reflexivity|]. cbn [concat]. reflexivity.
  - destruct (n <=? length pend)%nat; [cbn [concat]; now rewrite IH|]. now rewrite IH, <- app_assoc.
Qed.

(** Every request but the last is full, and none is empty or too large. *)
Definition well_grouped {A} (n : nat) (gs : list (list A)) : Prop :=
  Forall (fun g => (1 <= length g <= n)%nat) gs /\ forall a g h b, gs = a ++ g :: h :: b -> length g = n.

Lemma groups_well {A} n (l : list A) : (1 <= n)%nat -> forall pend, (length pend <= n)%nat -> well_grouped n (groups_from n pend l).
Proof.
  intros Hn. induction l as [|x l IH]; intros pend Hp; cbn [groups_from].
  - destruct pend as [|y pend]; [split; [constructor|now intros []]|].
    split; [constructor; [cbn in *; lia|constructor]|]. intros [|? [|]] g h b E; discriminate.
  - destruct (Nat.leb_spec n (length pend)).
    + destruct (IH [x] Hn) as [F L]. split; [constructor; [lia|exact F]|]. intros [|y a] g h b E; injection E; intros; subst; [lia|eauto].
    + apply IH. rewrite length_app. cbn. lia.
Qed.

(** ** What a run of the batch sends *)

Section Run.
Variable p : process.
Variable gzip : list Z -> option (list Z).
Variable network : nat -> OtlpTransport.Post.net * list Z.

Abbreviation flush := (fun st => snd (otlp_batch_flush p gzip network st)).
Abbreviation add := (fun st s => snd (otlp_batch_add p gzip network s st)).

Record names := mk_names { n_to : option text; n_svc : text; n_ver : text; n_scope : text }.

Definition names_of (st : io) : names :=
  mk_names (endpoint (batch st)) (deref st (svc (batch st))) (deref st (ver (batch st))) (scope (batch st)).

Definition body_of (c : names) (g : list otlp_generic_span_t) : option (list Z) :=
  Traces.otlp_traces_generic_build_multi p (2 ^ 20) (Some (n_svc c)) (Some (n_ver c)) (Some (n_scope c)) g.

Definition requests (c : names) (gs : list (list otlp_generic_span_t)) : list (option text * list Z) :=
  flat_map (fun g => match body_of c g with Some b => [(n_to c, b)] | None => [] end) gs.

Definition answers (l : list sent) : list Z := flat_map (fun x => match s_status x with Some v => [v] | None => [] end) l.

(** [st'] is [st] with the requests of [gs] made, [buf] left in the buffer and [k]
    more events counted. *)
Definition made (st st' : io) (gs : list (list otlp_generic_span_t)) (buf : list otlp_generic_span_t) (k : Z) : Prop :=
  exists new, sends st' = sends st ++ new /\ map (fun x => (s_to x, s_body x)) new = requests (names_of st) gs /\
    names_of st' = names_of st /\ g_service st' = g_service st /\ g_version st' = g_version st /\
    max (batch st') = max (batch st) /\ spans (batch st') = buf /\
    posts (batch st') = posts (batch st) + Z.of_nat (length (answers new)) /\
    last_status (batch st') = last (answers new) (last_status (batch st)) /\
    events st' = u64 (events st + k).

Lemma last_app_default {A} (a b : list A) d : last (a ++ b) d = last b (last a d).
Proof.
  revert d. induction b as [|x b IH] using rev_ind; intros d; [now rewrite app_nil_r|]. now rewrite app_assoc, !last_last.
Qed.

Lemma made_trans st st1 st2 g1 g2 b1 b2 k1 k2 :
  made st st1 g1 b1 k1 -> made st1 st2 g2 b2 k2 -> made st st2 (g1 ++ g2) b2 (k1 + k2).
Proof.
  intros (n1 & S1 & R1 & N1 & V1 & W1 & M1 & B1 & P1 & L1 & E1) (n2 & S2 & R2 & N2 & V2 & W2 & M2 & B2 & P2 & L2 & E2).
  exists (n1 ++ n2). rewrite S2, S1, N2, N1, V2, V1, W2, W1, M2, M1, B2, P2, P1, L2, L1, E2, E1.
  rewrite app_assoc, map_app, R1, R2, N1. unfold requests, answers. rewrite !flat_map_app, length_app, last_app_default.
  rewrite wrap_add_l, Z.add_assoc. repeat split; lia.
Qed.

Lemma flush_made st : 0 <= events st < 2 ^ 64 ->
  made st (flush st) (match spans (batch st) with [] => [] | _ => [spans (batch st)] end) [] 0.
Proof.
  intros He. unfold otlp_batch_flush, made. destruct (spans (batch st)) as [|x l] eqn:E; cbn [snd].
  { exists []. rewrite app_nil_r, E. cbn. rewrite !Z.add_0_r, wrap_small by assumption. repeat split. }
  change (batch_body p st) with (body_of (names_of st) (spans (batch st))). rewrite E. unfold requests. cbn [flat_map].
  destruct (body_of (names_of st) (x :: l)) as [buf|]; cbn [snd].
  2: { exists []. rewrite !app_nil_r. cbn. rewrite !Z.add_0_r, wrap_small by assumption. repeat split. }
  unfold transport. cbn [sends set_batch]. destruct (network (length (sends st))) as [n input].
  set (r := Send.otlp_transport_send _ _ _ _ _ _ _ _ _). exists [mk_sent (endpoint (batch st)) (lit "/v1/traces") (lit "application/x-protobuf") buf r].
  destruct r as [v|]; cbn; rewrite ?Z.add_0_r, wrap_small by (rewrite ?Z.add_0_r; assumption); repeat split; lia.
Qed.

Lemma add_made st s : 0 <= events st < 2 ^ 64 -> (length (spans (batch st)) <= max (batch st))%nat ->
  (1 <= max (batch st) <= OTLP_BATCH_HARD_MAX)%nat ->
  made st (add st s)
    (if (max (batch st) <=? length (spans (batch st)))%nat then [spans (batch st)] else [])
    (if (max (batch st) <=? length (spans (batch st)))%nat then [stored s] else spans (batch st) ++ [stored s]) 1.
Proof.
  intros He Hs Hm. unfold otlp_batch_add.
  assert (A : forall st1, (length (spans (batch st1)) < OTLP_BATCH_HARD_MAX)%nat ->
    made st1 (snd (if (OTLP_BATCH_HARD_MAX <=? length (spans (batch st1)))%nat then (-1, st1)
      else let st := set_batch (set_spans (spans (batch st1) ++ [stored s]) (batch st1)) st1 in
           (1, set_events (snd (Balance.spnl_oneshot_add (getenv p) 1 (events st))) st))) [] (spans (batch st1) ++ [stored s]) 1).
  { intros st1 H. destruct (Nat.leb_spec OTLP_BATCH_HARD_MAX (length (spans (batch st1)))); [lia|].
    exists []. cbn. rewrite app_nil_r, Z.add_0_r. repeat split. }
  destruct (Nat.leb_spec (max (batch st)) (length (spans (batch st)))) as [F|F]; [|apply A; lia].
  pose proof (flush_made st He) as M. destruct (spans (batch st)) as [|x l] eqn:E; [cbn in *; lia|].
  assert (B : spans (batch (flush st)) = []) by (destruct M as (? & _ & _ & _ & _ & _ & _ & B & _); exact B).
  specialize (A (flush st)). cbv beta in A, B. rewrite B in A. specialize (A ltac:(unfold OTLP_BATCH_HARD_MAX; cbn; lia)).
  pose proof (made_trans _ _ _ _ _ _ _ _ _ M A) as T. cbv zeta. rewrite B. exact T.
Qed.

Lemma run_made l : forall st, 0 <= events st < 2 ^ 64 -> (length (spans (batch st)) <= max (batch st))%nat ->
  (1 <= max (batch st) <= OTLP_BATCH_HARD_MAX)%nat ->
  made st (flush (fold_left add l st)) (groups_from (max (batch st)) (spans (batch st)) (map stored l)) [] (Z.of_nat (length l)).
Proof.
  induction l as [|s l IH]; intros st He Hs Hm; cbn [fold_left map groups_from length].
  - apply flush_made, He.
  - pose proof (add_made st s He Hs Hm) as A. set (st1 := add st s) in *.
    assert (Q : max (batch st1) = max (batch st) /\ 0 <= events st1 < 2 ^ 64 /\ spans (batch st1) =
      if (max (batch st) <=? length (spans (batch st)))%nat then [stored s] else spans (batch st) ++ [stored s]).
    { destruct A as (? & _ & _ & _ & _ & _ & M & B & _ & _ & E). rewrite E. repeat split; auto; apply wrap_range; lia. }
    destruct Q as (Qm & Qe & Qb). specialize (IH st1 Qe). rewrite Qm, Qb in IH.
    assert (L : (length (if (max (batch st) <=? length (spans (batch st)))%nat then [stored s] else spans (batch st) ++ [stored s]) <= max (batch st))%nat)
      by (destruct (Nat.leb_spec (max (batch st)) (length (spans (batch st)))); rewrite ?length_app; cbn; lia).
    specialize (IH L Hm). pose proof (made_trans _ _ _ _ _ _ _ _ _ A IH) as T.
    replace (Z.of_nat (S (length l))) with (1 + Z.of_nat (length l)) by lia.
    destruct (max (batch st) <=? length (spans (batch st)))%nat; exact T.
Qed.

(** What a collector decodes from the request for a group. *)
Definition group_view (c : names) (g : list otlp_generic_span_t) :=
  Envelope.received p (Some (n_svc c)) (Some (n_ver c)) (Some (n_scope c)) (Traces.generic_of Traces.span_seen) g.

Definition group_size (c : names) (g : list otlp_generic_span_t) : Z :=
  len (bytes (Envelope.request_fields p (Some (n_svc c)) (Some (n_ver c)) (Some (n_scope c)) (Traces.generic_of Traces.span_fields) g)).

Lemma body_arrives c g : group_size c g < 2 ^ 63 ->
  match body_of c g with
  | Some b => group_size c g <= 2 ^ 20 /\ Reader.read_request Traces.read_span b = Some (group_view c g)
  | None => 2 ^ 20 < group_size c g
  end.
Proof.
  intros L. unfold body_of, Traces.otlp_traces_generic_build_multi.
  destruct (Traces.build_arrives p (2 ^ 20) (Some (n_svc c)) (Some (n_ver c)) (Some (n_scope c)) ltac:(lia)
    (Traces.enc_generic_spans g) _ (Traces.generic_of Traces.span_seen) g (Traces.put_spans_emits _ _ g (fun x => proj1 (Traces.generic_ok x)))
    (fun x => proj2 (Traces.generic_ok x)) L) as [-> R].
  fold (group_size c g). destruct (Z.leb_spec (group_size c g) (2 ^ 20)); auto.
Qed.

Lemma env_max_range : (1 <= otlp_batch_env_max p <= OTLP_BATCH_HARD_MAX)%nat.
Proof.
  unfold otlp_batch_env_max, OTLP_BATCH_HARD_MAX. destruct (getenv p _) as [[|c e]|]; cbv zeta; try lia.
  destruct (Z.leb_spec 1 (atoi_int (c :: e))); lia.
Qed.

(** Requests that fit are read as the groups they carry. *)
Lemma requests_read c gs : Forall (fun g => group_size c g <= 2 ^ 20) gs ->
  map (fun x => (fst x, Reader.read_request Traces.read_span (snd x))) (requests c gs) =
  map (fun g => (n_to c, Some (group_view c g))) gs.
Proof.
  induction 1 as [|g gs Hg _ IH]; [reflexivity|]. cbn [requests flat_map map]. fold (requests c).
  pose proof (body_arrives c g ltac:(lia)) as A. destruct (body_of c g); [|lia].
  cbn [app map fst snd]. destruct A as [_ ->]. f_equal. exact IH.
Qed.

(** Every span added to a batch is posted: the copies, in order, are cut into
    groups of the configured size (the last may be smaller), each group that fits the
    1 MB buffer is one request to the batch's endpoint, and a collector decodes from
    that request exactly the spans of the group.  Nothing stays in the buffer, every
    span counts as one event, and the batch reports the number of requests answered
    and the last status. *)
Theorem batch_delivers ep sv vr sc l st : 0 <= events st < 2 ^ 64 ->
  let begun := otlp_batch_begin p ep sv vr sc st in
  let st' := flush (fold_left add l begun) in
  exists gs new,
    concat gs = map stored l /\ well_grouped (otlp_batch_env_max p) gs /\
    sends st' = sends st ++ new /\
    (Forall (fun g => group_size (names_of begun) g <= 2 ^ 20) gs ->
     map (fun x => (s_to x, Reader.read_request Traces.read_span (s_body x))) new =
     map (fun g => (Some ep, Some (group_view (names_of begun) g))) gs) /\
    spans (batch st') = [] /\ events st' = u64 (events st + Z.of_nat (length l)) /\
    posts (batch st') = Z.of_nat (length (answers new)) /\ last_status (batch st') = last (answers new) 0.
Proof.
  intros He begun st'. pose proof env_max_range as Hm.
  destruct (run_made l begun) as (new & S & R & _ & _ & _ & _ & B & P & L & E); auto; [cbn; lia|].
  exists (groups_from (otlp_batch_env_max p) [] (map stored l)), new.
  split; [apply groups_concat|]. split; [apply groups_well; [apply Hm|apply Nat.le_0_l]|]. split; [exact S|]. split; [|auto].
  intros F. cbn [begun otlp_batch_begin set_batch batch max spans] in R. 
  pose proof (requests_read (names_of begun) _ F) as Q. rewrite <- R, map_map in Q. exact Q.
Qed.

End Run.

Definition answering : nat -> OtlpTransport.Post.net * list Z := fun _ => (OtlpTransport.Post.sample_net, []).

Definition three_env (n : text) : option text := if text_eqb n (lit "SPNL_OTLP_BATCH_MAX") then Some (lit "2") else None.

Definition three_spans : list otlp_generic_span_t :=
  map (fun k => mk_gspan (repeat k 16) (repeat k 8) (repeat 0 8) false k (k + 1) (lit "dns") 0 false []) [1; 2; 3].

Lemma two_and_one {A} (a b c : A) gs : concat gs = [a; b; c] -> well_grouped 2 gs -> gs = [[a; b]; [c]].
Proof.
  intros C [F H]. destruct gs as [|g1 [|g2 gs]]; [discriminate| |].
  - cbn in C. rewrite app_nil_r in C. subst g1. apply Forall_inv in F. cbn in F. lia.
  - pose proof (H [] g1 g2 gs eq_refl) as L1. destruct gs as [|g3 gs].
    + destruct g1 as [|x [|y [|]]]; try discriminate. cbn in C. rewrite app_nil_r in C. now injection C as <- <- <-.
    + pose proof (H [g1] g2 g3 gs eq_refl) as L2. apply (f_equal (@length _)) in C. cbn [concat] in C.
      rewrite !length_app, L1, L2 in C. cbn in C. lia.
Qed.

Lemma batch_delivers_witness :
  let p := mk_process three_env (Some (lit "host")) 7 in
  let st := otlp_batch_begin p (lit "http://c:4318") ServiceBuf VersionBuf (lit "spinel-ebpf") io0 in
  let st' := snd (otlp_batch_flush p (fun _ => None) answering
               (fold_left (fun st s => snd (otlp_batch_add p (fun _ => None) answering s st)) three_spans st)) in
  posts (batch st') = 2 /\ last_status (batch st') = 200 /\ events st' = 3 /\
  map (fun x => option_map (map (fun g => map (fun s => map Traces.v_start (snd s)) (snd g)))
                  (Reader.read_request Traces.read_span (s_body x))) (sends st') = [Some [[[1; 2]]]; Some [[[3]]]].
Proof.
  intros p st st'.
  destruct (batch_delivers p (fun _ => None) answering (lit "http://c:4318") ServiceBuf VersionBuf (lit "spinel-ebpf") three_spans io0)
    as (gs & new & C & W & S & R & _ & E & P & L); [cbn; lia|].
  fold st in S, R, E, P, L. fold st' in S, E, P, L.
  assert (M : otlp_batch_env_max p = 2%nat) by (vm_compute; reflexivity). rewrite M in W. apply (two_and_one _ _ _ _ C) in W.
  subst gs. cbn [sends io0 app] in S. rewrite <- S in *. specialize (R ltac:(repeat constructor; vm_compute; discriminate)).
  split; [rewrite P; vm_compute; reflexivity|]. split; [rewrite L; vm_compute; reflexivity|]. split; [exact E|].
  apply (f_equal (map snd)) in R. rewrite !map_map in R. cbn [snd] in R.
  rewrite <- (map_map (fun x => Reader.read_request Traces.read_span (s_body x))
    (option_map (map (fun g => map (fun s => map Traces.v_start (snd s)) (snd g))))), R. vm_compute. reflexivity.
Defined.

End Deliver.

Module Size.
Import Ids Batch Deliver Stream Wire.

Lemma varint_f_len n : forall v k, 0 <= v < 128 ^ Z.of_nat k -> (1 <= k <= S n)%nat -> len (varint_f n v) <= Z.of_nat k.
Proof.
  induction n as [|n IH]; intros v k Hv Hk; cbn [varint_f]; [unfold len; cbn; lia|].
  destruct (Z.ltb_spec v 128); [unfold len; cbn; lia|].
  assert (2 <= k)%nat. { destruct k as [|[|k]]; [lia| |lia]. cbn in Hv. lia. }
  change (?x :: ?l) with ([x] ++ l). rewrite len_app. specialize (IH (v / 128) (k - 1)%nat). unfold len at 1. cbn [length].
  assert (0 <= v / 128 < 128 ^ Z.of_nat (k - 1)).
  { split; [apply Z.div_pos; lia|]. apply Z.div_lt_upper_bound; [lia|]. replace (Z.of_nat k) with (1 + Z.of_nat (k - 1)) in Hv by lia.
    rewrite Z.pow_add_r in Hv by lia. lia. }
  specialize (IH H1 ltac:(lia)). lia.
Qed.

Lemma varint_len v k : 0 <= v < 128 ^ Z.of_nat k -> (1 <= k <= 11)%nat -> len (varint v) <= Z.of_nat k.
Proof. apply varint_f_len. Qed.

(** A field of small number: one byte of tag. *)
Lemma tag_len n w : 0 < n < 16 -> 0 <= w < 8 -> len (varint (8 * n + w)) <= 1.
Proof. intros. apply (varint_len _ 1); [change (128 ^ Z.of_nat 1) with 128|]; lia. Qed.

Lemma enc_len_bytes n bs b k : 0 < n < 16 -> len bs <= b -> b < 128 ^ Z.of_nat k -> (1 <= k <= 11)%nat ->
  len (enc (n, WLen bs)) <= 1 + Z.of_nat k + b.
Proof.
  intros Hn Hb Hk K. unfold enc. cbn [fst snd wire_type payload]. rewrite !len_app. pose proof (len_nonneg bs).
  pose proof (tag_len n 2 Hn ltac:(lia)). pose proof (varint_len (len bs) k ltac:(lia) K). lia.
Qed.

Lemma enc_len_varint n v k : 0 < n < 16 -> 0 <= v < 128 ^ Z.of_nat k -> (1 <= k <= 11)%nat -> len (enc (n, WVarint v)) <= 1 + Z.of_nat k.
Proof.
  intros Hn Hv K. unfold enc. cbn [fst snd wire_type payload]. rewrite len_app.
  pose proof (tag_len n 0 Hn ltac:(lia)). pose proof (varint_len v k Hv K). lia.
Qed.

Lemma enc_len_64 n v : 0 < n < 16 -> len (enc (n, W64 v)) <= 9.
Proof.
  intros Hn. unfold enc. cbn [fst snd wire_type payload]. rewrite len_app.
  pose proof (tag_len n 1 Hn ltac:(lia)). unfold len at 2. rewrite length_le_enc. lia.
Qed.

Lemma bytes_cons f fs : len (bytes (f :: fs)) = len (enc f) + len (bytes fs).
Proof. unfold bytes. cbn [flat_map]. apply len_app. Qed.

Lemma bytes_each {A} (f : A -> wfield) l b : Forall (fun x => len (enc (f x)) <= b) l -> len (bytes (map f l)) <= Z.of_nat (length l) * b.
Proof.
  induction 1 as [|x l H _ IH]; [cbn; lia|]. cbn [map length]. rewrite bytes_cons. lia.
Qed.

Lemma len_text s : len (text_bytes s) = Z.of_nat (length s).
Proof. unfold len, text_bytes. now rewrite length_map. Qed.

(** A span the agent's builders produce: ids at their widths, attributes in their
    128- and 512-byte arrays. *)
Definition kv_fits (a : otlp_kv_t) : Prop := (length (key a) < 128 /\ length (val a) < 512)%nat.
Definition span_fits (s : otlp_generic_span_t) : Prop :=
  length (trace_id s) = 16%nat /\ length (span_id s) = 8%nat /\ length (parent_span_id s) = 8%nat /\ Forall kv_fits (attrs s).

Lemma attr_size a : kv_fits a -> len (enc (9, WLen (bytes (Common.attr_fields (Common.kv_attr a))))) <= 649.
Proof.
  intros [Hk Hv]. assert (len (bytes (Common.attr_fields (Common.kv_attr a))) <= 646); [|apply (enc_len_bytes 9 _ 646 2); [lia|assumption|reflexivity|lia]].
  unfold Common.attr_fields, Common.kv_attr, Common.any_fields. rewrite !bytes_cons. change (len (bytes [])) with 0.
  assert (len (bytes [(1, WLen (text_bytes (val a)))]) <= 514).
  { rewrite bytes_cons. pose proof (enc_len_bytes 1 (text_bytes (val a)) 511 2 ltac:(lia) ltac:(rewrite len_text; lia) eq_refl ltac:(lia)). change (len (bytes [])) with 0. lia. }
  pose proof (enc_len_bytes 1 (text_bytes (key a)) 127 1 ltac:(lia) ltac:(rewrite len_text; lia) eq_refl ltac:(lia)).
  pose proof (enc_len_bytes 2 (bytes [(1, WLen (text_bytes (val a)))]) 514 2 ltac:(lia) H eq_refl ltac:(lia)). lia.
Qed.

Lemma attrs_size l : Forall kv_fits l ->
  len (bytes (Common.attrs_fields 9 (flat_map Traces.generic_attr l))) <= Z.of_nat (length l) * 649.
Proof.
  induction 1 as [|a l Ha _ IH]; [cbn; lia|]. cbn [flat_map]. unfold Common.attrs_fields in *. rewrite map_app, bytes_app, len_app.
  assert (len (bytes (map (fun a => (9, WLen (bytes (Common.attr_fields a)))) (Traces.generic_attr a))) <= 649).
  { unfold Traces.generic_attr. destruct (key a), (val a); [discriminate..|]. cbn [map]. 
    rewrite bytes_cons. pose proof (attr_size a Ha). change (len (bytes [])) with 0. lia. }
  cbn [length]. lia.
Qed.

Lemma opt_num_size n v w b : len (enc (n, w)) <= b -> 0 <= b -> len (bytes (Common.opt_num n v w)) <= b.
Proof. intros H Hb. unfold Common.opt_num. destruct (v =? 0); [exact Hb|]. rewrite bytes_cons. cbn [bytes flat_map]. change (len []) with 0. lia. Qed.

Lemma opt_len_size n o b : (forall bs, o = Some bs -> len (enc (n, WLen bs)) <= b) -> 0 <= b -> len (bytes (Common.opt_len n o)) <= b.
Proof.
  intros H Hb. destruct o as [bs|]; cbn [Common.opt_len]; [|exact Hb]. rewrite bytes_cons. specialize (H bs eq_refl).
  cbn [bytes flat_map]. change (len []) with 0. lia.
Qed.

Lemma span_size s : span_fits s -> len (bytes (Traces.generic_of Traces.span_fields (stored s))) <= 13368.
Proof.
  intros (Ht & Hs & Hp & Ha). unfold Traces.generic_of, Traces.span_fields, stored.
  cbn [trace_id span_id parent_span_id has_parent start_unix_ns end_unix_ns name kind is_error attrs]. rewrite !bytes_app, !len_app, !bytes_cons.
  change (bytes []) with (@nil Z). change (len []) with 0.
  pose proof (enc_len_bytes 1 (trace_id s) 16 1 ltac:(lia) ltac:(unfold len; lia) eq_refl ltac:(lia)).
  pose proof (enc_len_bytes 2 (span_id s) 8 1 ltac:(lia) ltac:(unfold len; lia) eq_refl ltac:(lia)).
  pose proof (enc_len_bytes 5 (text_bytes (trunc OTLP_BATCH_NAME_CAP (name s))) 319 2 ltac:(lia)
    ltac:(rewrite len_text; unfold trunc; rewrite length_firstn; unfold OTLP_BATCH_NAME_CAP; lia) eq_refl ltac:(lia)).
  assert (len (bytes (Common.opt_len 4 (Traces.parent_id (has_parent s) (parent_span_id s)))) <= 10).
  { apply opt_len_size; [|lia]. unfold Traces.parent_id. destruct (has_parent s); [|discriminate]. intros bs [= <-].
    apply (enc_len_bytes 4 _ 8 1); [lia|unfold len; lia|reflexivity|lia]. }
  set (k := u32 _). assert (len (bytes (Common.opt_num 6 k (WVarint k))) <= 6).
  { apply opt_num_size; [|lia]. apply (enc_len_varint 6 k 5); [lia| |lia]. pose proof (wrap_range 32 (if kind s =? 0 then Traces.SPAN_KIND_INTERNAL else kind s) ltac:(lia)).
    fold k in H3. change (128 ^ Z.of_nat 5) with (2 ^ 35). change (2 ^ 32) with 4294967296 in H3. lia. }
  pose proof (opt_num_size 7 (start_unix_ns s) (W64 (u64 (start_unix_ns s))) 9 ltac:(apply enc_len_64; lia) ltac:(lia)).
  pose proof (opt_num_size 8 (end_unix_ns s) (W64 (u64 (end_unix_ns s))) 9 ltac:(apply enc_len_64; lia) ltac:(lia)).
  assert (len (bytes (Common.opt_len 15 (option_map (fun c => bytes (Traces.status_fields c)) (if is_error s then Some Traces.STATUS_CODE_ERROR else None)))) <= 4)
    by (destruct (is_error s); vm_compute; discriminate).
  pose proof (attrs_size (firstn OTLP_BATCH_ATTR_CAP (attrs s))
    ltac:(rewrite <- (firstn_skipn OTLP_BATCH_ATTR_CAP) in Ha; now apply Forall_app in Ha as [Ha _])).
  rewrite length_firstn in *. unfold OTLP_BATCH_ATTR_CAP in *. cbn [Z.of_nat] in *. lia.
Qed.

Section Sizes.
Variable p : process.
Variable c : names.
(** The resource (service, host, the environment's attributes) and the scope. *)
Hypothesis resource_small : len (bytes (Envelope.resource_fields p (Some (n_svc c)) (Some (n_ver c)))) <= 150000.
Hypothesis scope_small : (length (Envelope.scope_or_default (Some (n_scope c))) <= 100)%nat.

Lemma group_size_bound l : (length l <= 128)%nat -> Forall span_fits l ->
  group_size p c (map stored l) <= Z.of_nat (length l) * 13371 + 150130.
Proof.
  intros Hn Hl. unfold group_size, Envelope.request_fields, Envelope.group_fields, Envelope.items_fields, Envelope.scope_fields.
  set (g := Traces.generic_of Traces.span_fields). set (scope := text_bytes _).
  assert (S : len scope <= 100) by (unfold scope; rewrite len_text; lia).
  assert (I : len (bytes (map (fun x => (2, WLen (bytes (g x)))) (map stored l))) <= Z.of_nat (length l) * 13371).
  { rewrite map_map. apply bytes_each. eapply Forall_impl; [|exact Hl]. intros x Hx.
    apply (enc_len_bytes 2 _ 13368 2); [lia|now apply span_size|reflexivity|lia]. }
  set (its := map _ (map stored l)) in *.
  assert (A : len (bytes [(1, WLen scope)]) <= 102).
  { rewrite bytes_cons. change (len (bytes [])) with 0. pose proof (enc_len_bytes 1 scope 100 1 ltac:(lia) S eq_refl ltac:(lia)). lia. }
  pose proof (enc_len_bytes 1 (bytes [(1, WLen scope)]) 102 1 ltac:(lia) A eq_refl ltac:(lia)).
  assert (B : len (bytes ((1, WLen (bytes [(1, WLen scope)])) :: its)) <= Z.of_nat (length l) * 13371 + 104) by (rewrite bytes_cons; lia).
  pose proof (enc_len_bytes 2 _ _ 4 ltac:(lia) B ltac:(change (128 ^ Z.of_nat 4) with 268435456; lia) ltac:(lia)).
  pose proof (enc_len_bytes 1 _ _ 4 ltac:(lia) resource_small eq_refl ltac:(lia)).
  rewrite bytes_cons. change (len (bytes [])) with 0.
  pose proof (enc_len_bytes 1 (bytes [(1, WLen (bytes (Envelope.resource_fields p (Some (n_svc c)) (Some (n_ver c)))));
    (2, WLen (bytes ((1, WLen (bytes [(1, WLen scope)])) :: its)))]) (Z.of_nat (length l) * 13371 + 150120) 4 ltac:(lia)
    ltac:(rewrite !bytes_cons; change (len (bytes [])) with 0; lia) ltac:(change (128 ^ Z.of_nat 4) with 268435456; lia) ltac:(lia)). lia.
Qed.

(** The fullest span: twenty attributes that fill their arrays. *)
Definition full_kv : otlp_kv_t := mk_kv (repeat "k"%char 127) (repeat "v"%char 511).
Definition full_span : otlp_generic_span_t := mk_gspan (zeros 16) (zeros 8) (zeros 8) false 0 0 [] 0 false (repeat full_kv 20).

Lemma enc_len_ge n bs : len bs <= len (enc (n, WLen bs)).
Proof. unfold enc. cbn [fst snd payload]. rewrite !len_app. pose proof (len_nonneg (varint (8 * n + wire_type (WLen bs)))). pose proof (len_nonneg (varint (len bs))). lia. Qed.

Lemma bytes_tail f fs : len (bytes fs) <= len (bytes (f :: fs)).
Proof. rewrite bytes_cons. pose proof (len_nonneg (enc f)). lia. Qed.

Lemma bytes_inner n fs : len (bytes fs) <= len (bytes [(n, WLen (bytes fs))]).
Proof. rewrite bytes_cons. change (len (bytes [])) with 0. pose proof (enc_len_ge n (bytes fs)). lia. Qed.

Lemma full_group_size : 12760 * 128 <= group_size p c (map stored (repeat full_span 128)).
Proof.
  unfold group_size, Envelope.request_fields, Envelope.group_fields, Envelope.items_fields.
  set (g := Traces.generic_of Traces.span_fields).
  assert (F : len (bytes (g (stored full_span))) = 13012) by (vm_compute; reflexivity).
  assert (I : forall n, Z.of_nat n * 13012 <= len (bytes (map (fun x => (2, WLen (bytes (g x)))) (map stored (repeat full_span n))))).
  { induction n as [|n IH]; [reflexivity|]. cbn [repeat map]. rewrite bytes_cons.
    pose proof (enc_len_ge 2 (bytes (g (stored full_span)))). lia. }
  specialize (I 128%nat). set (its := map _ (map stored _)) in *.
  rewrite <- bytes_inner, <- bytes_tail, <- bytes_inner, <- bytes_tail. lia.
Qed.

End Sizes.

(** A batch of the default size always fits the 1 MB encode buffer, whatever the
    spans hold, when the resource takes at most 150,000 bytes; so no span is lost to
    the buffer.  A batch of the largest configurable size need not fit: then its 128
    spans are discarded together. *)
Theorem default_batch_fits p c :
  len (bytes (Envelope.resource_fields p (Some (n_svc c)) (Some (n_ver c)))) <= 150000 ->
  (length (Envelope.scope_or_default (Some (n_scope c))) <= 100)%nat ->
  (forall l, (length l <= 64)%nat -> Forall span_fits l ->
     exists b, body_of p c (map stored l) = Some b /\ Reader.read_request Traces.read_span b = Some (group_view p c (map stored l))) /\
  Forall span_fits (repeat full_span OTLP_BATCH_HARD_MAX) /\ body_of p c (map stored (repeat full_span OTLP_BATCH_HARD_MAX)) = None.
Proof.
  intros R S. assert (F : span_fits full_span).
  { repeat split. apply Forall_forall. intros x Hx. apply repeat_spec in Hx as ->. unfold kv_fits, full_kv. cbn [key val]. rewrite !repeat_length. lia. }
  assert (Fs : Forall span_fits (repeat full_span OTLP_BATCH_HARD_MAX)) by (apply Forall_forall; intros x Hx; now apply repeat_spec in Hx as ->).
  split; [|split; [exact Fs|]].
  - intros l Hl H. pose proof (group_size_bound p c R S l ltac:(lia) H) as B.
    pose proof (body_arrives p c (map stored l) ltac:(lia)) as A. destruct (body_of p c (map stored l)) as [b|]; [exists b; tauto|lia].
  - pose proof (group_size_bound p c R S (repeat full_span OTLP_BATCH_HARD_MAX) ltac:(rewrite repeat_length; reflexivity) Fs) as B.
    rewrite repeat_length in B. pose proof (full_group_size p c) as L. unfold OTLP_BATCH_HARD_MAX in *.
    pose proof (body_arrives p c (map stored (repeat full_span 128)) ltac:(lia)) as A.
    destruct (body_of p c (map stored (repeat full_span 128))); [lia|reflexivity].
Qed.

Lemma default_batch_fits_witness :
  body_of (mk_process three_env (Some (lit "host")) 7) (names_of io0) (map stored (repeat full_span OTLP_BATCH_HARD_MAX)) = None /\
  exists b, body_of (mk_process three_env (Some (lit "host")) 7) (names_of io0) (map stored (repeat full_span 64)) = Some b.
Proof.
  destruct (default_batch_fits (mk_process three_env (Some (lit "host")) 7) (names_of io0)) as (D & F & N);
    [vm_compute; discriminate|vm_compute; lia|]. split; [exact N|].
  destruct (D (repeat full_span 64)) as (b & B & _); [rewrite repeat_length; lia| |exists b; exact B].
  apply Forall_forall. intros x Hx. apply repeat_spec in Hx as ->. apply (proj1 (Forall_forall _ _) F). now left.
Defined.

End Size.
