(* ===== verification/AgentSpans.v ===== *)
(** * Spans of the export agent

    One span from one record ([src/runtime/otlp/otlp_agent.c]), the contract generated
    for it and the values a consumer reads ([src/runtime/otlp/record_mirror_gen.h]):
    - [Access]: the generated accessors behind [ev.<property>];
    - [Rules]: the generated egress rules: when an attribute is on the span, when a
      record gives no span, when the span starts and ends;
    - [Fill]: the span builders of the six channels and of the request tree;
    - [Contract]: the builders keep the rules, and a consumer reads exactly what is
      sent. *)

From S2P Require Import Prelude Bytes CText CgText OtlpMetrics OtlpTraces OtlpEnrich AgentRecords.
Import HttpRecord Rec Derive Stack Ids Recmetric Enrich.
Local Open Scope string_scope.
Local Open Scope list_scope.
Local Open Scope Z_scope.

Definition nonempty_text (s : text) : bool := match s with [] => false | _ => true end.
Definition zero_bytes (b : list Z) : bool := forallb (Z.eqb 0) b.

Module Access.

(** [r ? (long)r->field : 0] and [r ? r->field : ""]; the argument is what
    [spnl_rec_<channel>_at] gives for the handle. *)
Definition num {R} (f : R -> Z) (r : option R) : Z := match r with Some r => sgn 64 (f r) | None => 0 end.
Definition str {R} (f : R -> text) (r : option R) : text := match r with Some r => f r | None => [] end.

Definition spnl_rec_dns_pid := num dn_pid.
Definition spnl_rec_dns_comm := str dn_comm.
Definition spnl_rec_dns_cgid := num dn_cgid.
Definition spnl_rec_dns_duration_ns := num dn_duration_ns.
Definition spnl_rec_dns_qname := str (fun r => spnl_dns_qname (dn_raw r) 256).

Definition spnl_rec_conn_pid := num co_pid.
Definition spnl_rec_conn_comm := str co_comm.
Definition spnl_rec_conn_dport := num co_dport.
Definition spnl_rec_conn_cgid := num co_cgid.
Definition spnl_rec_conn_peer := str (fun r => spnl_conn_peer r 64).
Definition spnl_rec_conn_direction := str (fun r => spnl_valmap_conn_direction (co_oldstate r) 16).
Definition spnl_rec_conn_tcp_state := str (fun r => spnl_valmap_tcp_state (co_oldstate r) 24).
Definition spnl_rec_conn_srtt_us := num spnl_recd_conn_srtt_us_val.

Definition spnl_rec_l7_pid := num l7_pid.
Definition spnl_rec_l7_comm := str l7_comm.
Definition spnl_rec_l7_dport := num l7_dport.
Definition spnl_rec_l7_duration_ns := num l7_duration_ns.
Definition spnl_rec_l7_cgid := num l7_cgid.

Definition spnl_rec_http_pid := num ht_pid.
Definition spnl_rec_http_comm := str ht_comm.
Definition spnl_rec_http_dport := num ht_dport.
Definition spnl_rec_http_duration_ns := num ht_duration_ns.
Definition spnl_rec_http_cgid := num ht_cgid.
Definition spnl_rec_http_method := str (fun r => spnl_http_method 65 (ht_req r)).
Definition spnl_rec_http_path := str (fun r => spnl_http_path 65 (ht_req r)).
Definition spnl_rec_http_status := num (fun r => spnl_http_status (ht_resp r)).

Definition spnl_rec_offcpu_pid := num oc_pid.
Definition spnl_rec_offcpu_comm := str oc_comm.
Definition spnl_rec_offcpu_duration_ns := num oc_duration_ns.
Definition spnl_rec_offcpu_cgid := num oc_cgid.
Definition spnl_rec_offcpu_method := str (fun r => spnl_http_method 65 (oc_req r)).
Definition spnl_rec_offcpu_path := str (fun r => spnl_http_path 65 (oc_req r)).
Definition spnl_rec_offcpu_status := num (fun r => spnl_http_status (oc_resp r)).
Definition spnl_rec_offcpu_offcpu_ns := num spnl_recd_offcpu_offcpu_ns_val.
Definition spnl_rec_offcpu_oncpu_ns := num spnl_recd_offcpu_oncpu_ns_val.
Definition spnl_rec_offcpu_wait_kind syms lookup := str (fun r => spnl_offcpu_wait_kind syms lookup r 16).
Definition spnl_rec_offcpu_wait_stack_trace syms lookup getenv := str (fun r => spnl_offcpu_wait_stack syms lookup getenv r 448).

End Access.

Module Rules.

(** [spnl_egress_rule_t]: [None] where the declaration gives no predicate. *)
Definition rules (R : Type) : Type := list (string * option (R -> bool)).

Definition always {R} : option (R -> bool) := Some (fun _ => true).
Definition has_comm {R} (comm : R -> text) : option (R -> bool) := Some (fun r => nonempty_text (comm r)).

Definition spnl_egress_rules_dns : rules spnl_rec_dns_t :=
  [("dns.question.name", always); ("process.executable.name", has_comm dn_comm);
   ("spnl.dns.latency_ns", Some (fun r => negb (dn_duration_ns r =? 0)))].

Definition spnl_egress_rules_conn : rules spnl_rec_conn_t :=
  [("network.peer.address", always); ("network.peer.port", always); ("network.transport", always); ("network.type", always);
   ("net.peer.srtt_us", always); ("spnl.conn.direction", always); ("spnl.conn.tcp_state", always);
   ("process.executable.name", has_comm co_comm)].

Definition spnl_egress_rules_l7 : rules spnl_rec_l7_t :=
  [("network.peer.address", always); ("network.peer.port", always); ("network.transport", always); ("network.type", always);
   ("spnl.l7.latency_ns", always); ("process.executable.name", has_comm l7_comm)].

Definition spnl_egress_rules_http : rules spnl_rec_http_t :=
  let sock r := negb (zero_bytes (ht_daddr r)) || negb (ht_dport r =? 0) in
  [("http.request.method", Some (fun r => nonempty_text (spnl_http_method 65 (ht_req r))));
   ("url.path", Some (fun r => nonempty_text (spnl_http_path 65 (ht_req r))));
   ("http.response.status_code", Some (fun r => negb (spnl_http_status (ht_resp r) =? 0)));
   ("url.scheme", Some (fun r => zero_bytes (ht_daddr r) && (ht_dport r =? 0)));
   ("network.peer.address", Some sock); ("network.peer.port", Some sock); ("network.transport", always);
   ("spnl.http.latency_ns", always); ("process.executable.name", has_comm ht_comm)].

Definition spnl_egress_rules_redis : rules spnl_rec_http_t :=
  [("db.system", always); ("db.operation.name", None); ("db.query.text", None);
   ("error.type", Some (fun r => Ascii.eqb (nth 0 (ht_resp r) "000"%char) "-"%char));
   ("network.peer.address", always); ("network.peer.port", always); ("network.transport", always);
   ("process.executable.name", has_comm ht_comm)].

Definition spnl_egress_rules_offcpu syms lookup getenv : rules spnl_rec_offcpu_t :=
  [("http.request.method", Some (fun r => nonempty_text (spnl_http_method 65 (oc_req r))));
   ("url.path", Some (fun r => nonempty_text (spnl_http_path 65 (oc_req r))));
   ("http.response.status_code", Some (fun r => negb (spnl_http_status (oc_resp r) =? 0)));
   ("spnl.offcpu_ns", always); ("spnl.oncpu_ns", always); ("spnl.wait.kind", always);
   ("spnl.wait.stack", Some (fun r => nonempty_text (spnl_offcpu_wait_stack syms lookup getenv r 448)));
   ("process.executable.name", has_comm oc_comm)].

Definition spnl_rec_dns_dropped (r : spnl_rec_dns_t) : bool := negb (nonempty_text (spnl_dns_qname (dn_raw r) 256)).

(** Start and end of a span: [off] takes a monotonic time to Unix time, [now] is the
    wall clock. *)
Definition at_ktime (t off : Z) : Z := u64 (sgn 64 t + off).

Definition spnl_rec_dns_span_start_unix (r : spnl_rec_dns_t) (off now : Z) : Z := at_ktime (dn_ts r) off.
Definition spnl_rec_dns_span_end_unix (r : spnl_rec_dns_t) (off now : Z) : Z := u64 (spnl_rec_dns_span_start_unix r off now + dn_duration_ns r).
Definition spnl_rec_conn_span_start_unix (r : spnl_rec_conn_t) (off now : Z) : Z := at_ktime (co_ts r) off.
Definition spnl_rec_conn_span_end_unix (r : spnl_rec_conn_t) (off now : Z) : Z := spnl_rec_conn_span_start_unix r off now.
Definition spnl_rec_l7_span_start_unix (r : spnl_rec_l7_t) (off now : Z) : Z := at_ktime (l7_start_ktime r) off.
Definition spnl_rec_l7_span_end_unix (r : spnl_rec_l7_t) (off now : Z) : Z := u64 (spnl_rec_l7_span_start_unix r off now + l7_duration_ns r).
Definition spnl_rec_http_span_start_unix (r : spnl_rec_http_t) (off now : Z) : Z := at_ktime (ht_start_ktime r) off.
Definition spnl_rec_http_span_end_unix (r : spnl_rec_http_t) (off now : Z) : Z := u64 (spnl_rec_http_span_start_unix r off now + ht_duration_ns r).
Definition spnl_rec_offcpu_span_start_unix (r : spnl_rec_offcpu_t) (off now : Z) : Z := u64 (now - oc_duration_ns r).
Definition spnl_rec_offcpu_span_end_unix (r : spnl_rec_offcpu_t) (off now : Z) : Z := u64 (spnl_rec_offcpu_span_start_unix r off now + oc_duration_ns r).

End Rules.

Module Fill.
Import Rules.

(** One attribute: the arrays hold 128 and 512 bytes. *)
Definition kv (k : string) (v : text) : otlp_kv_t := mk_kv (trunc 128 (lit k)) (trunc 512 v).
Definition when (b : bool) (l : list otlp_kv_t) : list otlp_kv_t := if b then l else [].
Definition comm_attr (comm : text) : list otlp_kv_t := when (nonempty_text comm) [kv "process.executable.name" comm].

Definition span0 : otlp_generic_span_t := mk_gspan (zeros 16) (zeros 8) (zeros 8) false 0 0 [] 0 false [].
Definition dressed (s : otlp_generic_span_t) (b e : Z) (nm : text) (k : Z) (err : bool) (l : list otlp_kv_t) : otlp_generic_span_t :=
  mk_gspan (trace_id s) (span_id s) (parent_span_id s) (has_parent s) b e nm k err l.

Section Env.
Context `{FS : K8s.FileSystem}.
Variable getenv : text -> option text.
Variable fopen : text -> option text.
Variable stat_dir : text -> bool.
Variable getnameinfo : text -> option text.

(** The generator of ids and the enrichers. *)
Definition fctx : Type := Z * estate.

(** [n += otlp_enrich_run(&ec, attrs + n, cap - n)] *)
Definition enriched (sig : otlp_signal_t) (cg : Z) (peer : option text) (cap : nat) (own : list otlp_kv_t) (es : estate) : list otlp_kv_t * estate :=
  let '(l, es) := otlp_enrich_run getenv fopen stat_dir getnameinfo (mk_ctx sig cg peer) (cap - length own) es in (own ++ l, es).

(** *** Connections *)

Definition conn_attrs (r : spnl_rec_conn_t) : list otlp_kv_t :=
  [kv "network.peer.address" (conn_peer_addr r); kv "network.peer.port" (dec_u (co_dport r)); kv "network.transport" (lit "tcp");
   kv "network.type" (if co_family r =? 10 then lit "ipv6" else lit "ipv4");
   kv "net.peer.srtt_us" (dec_s (spnl_recd_conn_srtt_us_val r));
   kv "spnl.conn.direction" (spnl_valmap_conn_direction (co_oldstate r) 16);
   kv "spnl.conn.tcp_state" (spnl_valmap_tcp_state (co_oldstate r) 24)] ++ comm_attr (co_comm r).

Definition conn_fill_span (r : spnl_rec_conn_t) (off : Z) (namecap : nat) (c : fctx) : option otlp_generic_span_t * fctx :=
  let '(seed, es) := c in
  let t := at_ktime (co_ts r) off in
  let '(s, seed) := otlp_span_new_root span0 seed in
  let '(l, es) := enriched OTLP_SIGNAL_CONN (co_cgid r) (Some (conn_peer_addr r)) 20 (conn_attrs r) es in
  (Some (dressed s t t (trunc namecap (lit "connect " ++ conn_peer_addr r ++ lit ":" ++ dec_u (co_dport r))) 0 false l), (seed, es)).

(** *** DNS *)

Definition dns_attrs (r : spnl_rec_dns_t) (host : text) : list otlp_kv_t :=
  [kv "dns.question.name" host] ++ comm_attr (dn_comm r) ++
  when (negb (dn_duration_ns r =? 0)) [kv "spnl.dns.latency_ns" (dec_u (dn_duration_ns r))].

Definition dns_fill_span (r : spnl_rec_dns_t) (off : Z) (namecap : nat) (c : fctx) : option otlp_generic_span_t * fctx :=
  let '(seed, es) := c in
  match spnl_dns_qname (dn_raw r) 256 with
  | [] => (None, c)
  | host =>
      let t := at_ktime (dn_ts r) off in
      let '(s, seed) := otlp_span_new_root span0 seed in
      let '(l, es) := enriched OTLP_SIGNAL_DNS (dn_cgid r) None 8 (dns_attrs r host) es in
      (Some (dressed s t (u64 (t + dn_duration_ns r)) (trunc namecap (lit "resolve " ++ host)) 0 false l), (seed, es))
  end.

(** *** Requests without a decoded protocol *)

Definition l7_attrs (r : spnl_rec_l7_t) : list otlp_kv_t :=
  [kv "network.peer.address" (peer4 (l7_family r) (l7_daddr r)); kv "network.peer.port" (dec_u (l7_dport r));
   kv "network.transport" (lit "tcp"); kv "network.type" (if l7_family r =? 10 then lit "ipv6" else lit "ipv4");
   kv "spnl.l7.latency_ns" (dec_u (l7_duration_ns r))] ++ comm_attr (l7_comm r).

Definition l7_fill_span (r : spnl_rec_l7_t) (off : Z) (namecap : nat) (c : fctx) : option otlp_generic_span_t * fctx :=
  let '(seed, es) := c in
  let peer := peer4 (l7_family r) (l7_daddr r) in
  let t := at_ktime (l7_start_ktime r) off in
  let '(s, seed) := otlp_span_new_root span0 seed in
  let '(l, es) := enriched OTLP_SIGNAL_L7 (l7_cgid r) (Some peer) 10 (l7_attrs r) es in
  (Some (dressed s t (u64 (t + l7_duration_ns r)) (trunc namecap (lit "request " ++ peer ++ lit ":" ++ dec_u (l7_dport r))) 3 false l),
   (seed, es)).

(** *** HTTP *)

(** ["%s %s"] of the method and the path. *)
Definition http_name (method path : text) : text := (match method with [] => lit "HTTP" | _ => method end) ++ lit " " ++ path.

(** Method, path and status as attributes. *)
Definition request_attrs (method path : text) (status : Z) : list otlp_kv_t :=
  when (nonempty_text method) [kv "http.request.method" method] ++ when (nonempty_text path) [kv "url.path" path] ++
  when (0 <? status) [kv "http.response.status_code" (dec_s status)].

Definition http_attrs (r : spnl_rec_http_t) : list otlp_kv_t :=
  request_attrs (spnl_http_method 65 (ht_req r)) (spnl_http_path 65 (ht_req r)) (spnl_http_status (ht_resp r)) ++
  (if zero_bytes (ht_daddr r) && (ht_dport r =? 0) then [kv "url.scheme" (lit "https")]
   else [kv "network.peer.address" (peer4 (ht_family r) (ht_daddr r)); kv "network.peer.port" (dec_u (ht_dport r))]) ++
  [kv "network.transport" (lit "tcp"); kv "spnl.http.latency_ns" (dec_u (ht_duration_ns r))] ++ comm_attr (ht_comm r).

Definition http_fill_span (r : spnl_rec_http_t) (off : Z) (namecap : nat) (c : fctx) : option otlp_generic_span_t * fctx :=
  let '(seed, es) := c in
  let t := at_ktime (ht_start_ktime r) off in
  let '(s, seed) := otlp_span_new_root span0 seed in
  let '(l, es) := enriched OTLP_SIGNAL_HTTP (ht_cgid r) (Some (peer4 (ht_family r) (ht_daddr r))) 14 (http_attrs r) es in
  (Some (dressed s t (u64 (t + ht_duration_ns r)) (trunc namecap (http_name (spnl_http_method 65 (ht_req r)) (spnl_http_path 65 (ht_req r))))
           3 (500 <=? spnl_http_status (ht_resp r)) l), (seed, es)).

(** *** Redis: the body of the loop of [spnl_otlp_redis_span_push_obj] *)

Definition redis_error (r : spnl_rec_http_t) : bool := Ascii.eqb (nth 0 (ht_resp r) "000"%char) "-"%char.

Definition redis_attrs (r : spnl_rec_http_t) : list otlp_kv_t :=
  let '(cmd, key) := redis_parse_cmd_key (ht_req r) 24 48 in
  [kv "db.system" (lit "redis")] ++
  when (nonempty_text cmd) [kv "db.operation.name" cmd;
                            kv "db.query.text" (match key with [] => cmd | _ => cmd ++ lit " " ++ key end)] ++
  when (redis_error r) [kv "error.type" (lit "redis_error")] ++
  [kv "network.peer.address" (peer4 (ht_family r) (ht_daddr r)); kv "network.peer.port" (dec_u (ht_dport r));
   kv "network.transport" (lit "tcp")] ++ comm_attr (ht_comm r).

Definition redis_fill_span (r : spnl_rec_http_t) (off : Z) (namecap : nat) (c : fctx) : option otlp_generic_span_t * fctx :=
  let '(seed, es) := c in
  let cmd := fst (redis_parse_cmd_key (ht_req r) 24 48) in
  let t := at_ktime (ht_start_ktime r) off in
  let '(s, seed) := otlp_span_new_root span0 seed in
  let '(l, es) := enriched OTLP_SIGNAL_HTTP (ht_cgid r) (Some (peer4 (ht_family r) (ht_daddr r))) 13 (redis_attrs r) es in
  (Some (dressed s t (u64 (t + ht_duration_ns r)) (trunc namecap (match cmd with [] => lit "REDIS" | _ => cmd end)) 3 (redis_error r) l),
   (seed, es)).

(** *** Requests with the time they waited *)

Section Stacks.
Variable syms : list (Z * text).
Variable lookup : Z -> option (list Z).

Definition offcpu_attrs (r : spnl_rec_offcpu_t) : list otlp_kv_t :=
  let ws := spnl_offcpu_wait_stack syms lookup getenv r 448 in
  request_attrs (spnl_http_method 65 (oc_req r)) (spnl_http_path 65 (oc_req r)) (spnl_http_status (oc_resp r)) ++
  [kv "spnl.offcpu_ns" (dec_u (u64 (spnl_recd_offcpu_offcpu_ns_val r))); kv "spnl.oncpu_ns" (dec_u (u64 (spnl_recd_offcpu_oncpu_ns_val r)));
   kv "spnl.wait.kind" (spnl_offcpu_wait_kind syms lookup r 16)] ++
  when (nonempty_text ws) [kv "spnl.wait.stack" ws] ++ comm_attr (oc_comm r).

Definition offcpu_fill_span (r : spnl_rec_offcpu_t) (now : Z) (namecap : nat) (c : fctx) : option otlp_generic_span_t * fctx :=
  let '(seed, es) := c in
  let t := u64 (now - oc_duration_ns r) in
  let '(s, seed) := otlp_span_new_root span0 seed in
  let '(l, es) := enriched OTLP_SIGNAL_OFFCPU (oc_cgid r) None 14 (offcpu_attrs r) es in
  (Some (dressed s t (u64 (t + oc_duration_ns r)) (trunc namecap (http_name (spnl_http_method 65 (oc_req r)) (spnl_http_path 65 (oc_req r))))
           2 (500 <=? spnl_http_status (oc_resp r)) l), (seed, es)).

(** The child for the wait, when there was one. *)
Definition wait_child (stack : bool) (r : spnl_rec_offcpu_t) (parent : otlp_generic_span_t) (seed : Z) : otlp_generic_span_t * Z :=
  let offcpu := u64 (spnl_recd_offcpu_offcpu_ns_val r) in
  let wk := spnl_offcpu_wait_kind syms lookup r 16 in
  let ws := spnl_offcpu_wait_stack syms lookup getenv r 448 in
  let '(ch, seed) := otlp_span_new_child span0 parent seed in
  (dressed ch (start_unix_ns parent) (u64 (start_unix_ns parent + offcpu)) (trunc 64 (lit "off-CPU wait (" ++ wk ++ lit ")")) 1 false
     ([kv "spnl.wait.kind" wk; kv "spnl.offcpu_ns" (dec_u offcpu)] ++ when (stack && nonempty_text ws) [kv "spnl.wait.stack" ws]), seed).

End Stacks.
End Env.

(** *** Children of a request tree *)

Definition otlp_tree_fill_dns (r : spnl_rec_dns_t) (off : Z) (as_child : bool) (s : otlp_generic_span_t) (nbcap : nat)
  : option otlp_generic_span_t :=
  match spnl_dns_qname (dn_raw r) 256 with
  | [] => None
  | host =>
      let t := at_ktime (dn_ts r) off in
      Some (dressed s t (u64 (t + dn_duration_ns r)) (trunc nbcap (lit "resolve " ++ host)) (if as_child then 3 else 0) false
              ([kv "dns.question.name" host] ++
               when (negb (dn_duration_ns r =? 0)) [kv "spnl.dns.latency_ns" (dec_u (dn_duration_ns r))] ++ comm_attr (dn_comm r)))
  end.

Definition otlp_tree_fill_conn (r : spnl_rec_conn_t) (off : Z) (as_child : bool) (s : otlp_generic_span_t) (nbcap : nat)
  : option otlp_generic_span_t :=
  let peer := conn_peer_addr r in
  let t := at_ktime (co_ts r) off in
  Some (dressed s t t (trunc nbcap (lit "connect " ++ peer ++ lit ":" ++ dec_u (co_dport r))) (if as_child then 3 else 0) false
          ([kv "network.peer.address" peer; kv "network.peer.port" (dec_u (co_dport r))] ++
           when (0 <? co_srtt_us r) [kv "net.peer.srtt_us" (dec_s (spnl_recd_conn_srtt_us_val r))] ++ comm_attr (co_comm r))).

End Fill.

(** * The builders keep the generated contract *)

Module Contract.
Import Access Rules Fill.

(** The attributes the rules put on the span of [r], in their order. *)
Definition expected {R} (rs : rules R) (r : R) : list text :=
  map (fun x => lit (fst x)) (filter (fun x => match snd x with Some p => p r | None => false end) rs).

(** A builder keeps a contract: it gives no span exactly for the dropped records; a
    span has the declared start and end and, before what the enrichers add, exactly
    the attributes the rules call for. *)
Definition keeps {R} (rs : rules R) (dropped : R -> bool) (start_ end_ : R -> Z -> Z -> Z) (cap : nat)
  (fill : R -> Z -> Z -> nat -> fctx -> option otlp_generic_span_t * fctx) : Prop :=
  forall r off now namecap c,
  match fst (fill r off now namecap c) with
  | None => dropped r = true
  | Some s =>
      dropped r = false /\ start_unix_ns s = start_ r off now /\ end_unix_ns s = end_ r off now /\ (length (attrs s) <= cap)%nat /\
      exists own extra, attrs s = own ++ extra /\ map key own = expected rs r
  end.

Lemma status_digits_nonneg d : forall st s, 0 <= st -> 0 <= status_digits d st s.
Proof.
  induction d as [|d IH]; intros st [|c s] H; cbn [status_digits]; try exact H. destruct (is_digit c) eqn:E; [|exact H].
  apply IH. unfold is_digit in E. apply andb_true_iff in E as [E _]. apply Z.leb_le in E. lia.
Qed.

Lemma spnl_http_status_nonneg resp : 0 <= spnl_http_status resp.
Proof. apply status_digits_nonneg. lia. Qed.

Lemma when_status s : 0 <= s -> (0 <? s) = negb (s =? 0).
Proof. intros H. destruct (Z.ltb_spec 0 s), (Z.eqb_spec s 0); cbn; try reflexivity; lia. Qed.

Lemma map_when b l : map key (when b l) = if b then map key l else [].
Proof. now destruct b. Qed.

Section Env.
Context `{FS : K8s.FileSystem}.
Variable getenv : text -> option text.
Variable fopen : text -> option text.
Variable stat_dir : text -> bool.
Variable getnameinfo : text -> option text.
Variable syms : list (Z * text).
Variable lookup : Z -> option (list Z).

Lemma enriched_shape sig cg peer cap own es : (length own <= cap)%nat ->
  exists extra, fst (enriched getenv fopen stat_dir getnameinfo sig cg peer cap own es) = own ++ extra /\
    (length (fst (enriched getenv fopen stat_dir getnameinfo sig cg peer cap own es)) <= cap)%nat.
Proof.
  intros H. unfold enriched. destruct (otlp_enrich_run _ _ _ _ _ _ es) as [l es'] eqn:E. cbn [fst]. exists l. split; [reflexivity|].
  pose proof (run_bounds getenv fopen stat_dir getnameinfo (mk_ctx sig cg peer) (cap - length own) es) as [_ L].
  rewrite E in L. cbn [fst] in L. rewrite length_app. lia.
Qed.

Local Abbreviation at_off f := (fun r (off _ : Z) => f getenv fopen stat_dir getnameinfo r off).

(** A builder of this shape keeps the contract when its own attributes do. *)
Lemma span_of_own {R} (rs : rules R) r sig cg peer cap own es b e nm k err s :
  (length own <= cap)%nat -> map key own = expected rs r ->
  let sp := dressed s b e nm k err (fst (enriched getenv fopen stat_dir getnameinfo sig cg peer cap own es)) in
  start_unix_ns sp = b /\ end_unix_ns sp = e /\ (length (attrs sp) <= cap)%nat /\
  exists own extra, attrs sp = own ++ extra /\ map key own = expected rs r.
Proof.
  intros Hl Hk. destruct (enriched_shape sig cg peer cap own es Hl) as (extra & E & L). cbn [dressed start_unix_ns end_unix_ns attrs].
  repeat split; [exact L|]. exists own, extra. split; [exact E|exact Hk].
Qed.

Lemma comm_keys c : map key (comm_attr c) = if nonempty_text c then [lit "process.executable.name"] else [].
Proof. now destruct c. Qed.

Lemma conn_keeps : keeps spnl_egress_rules_conn (fun _ => false) spnl_rec_conn_span_start_unix spnl_rec_conn_span_end_unix 20 (at_off conn_fill_span).
Proof.
  intros r off now namecap [seed es]. unfold conn_fill_span. destruct (otlp_span_new_root span0 seed) as [s seed'].
  pose proof (span_of_own spnl_egress_rules_conn r OTLP_SIGNAL_CONN (co_cgid r) (Some (conn_peer_addr r)) 20 (conn_attrs r) es) as H.
  destruct (enriched _ _ _ _ _ _ _ _ _ es) as [l es']. cbn [fst] in *. split; [reflexivity|]. apply H.
  - unfold conn_attrs, comm_attr, when. destruct (nonempty_text (co_comm r)); cbn [length app]; lia.
  - unfold conn_attrs, expected. rewrite map_app, comm_keys. cbn. now destruct (nonempty_text (co_comm r)).
Qed.

Lemma dns_keeps : keeps spnl_egress_rules_dns spnl_rec_dns_dropped spnl_rec_dns_span_start_unix spnl_rec_dns_span_end_unix 8 (at_off dns_fill_span).
Proof.
  intros r off now namecap [seed es]. unfold dns_fill_span, spnl_rec_dns_dropped.
  destruct (spnl_dns_qname (dn_raw r) 256) as [|h host] eqn:Q; [reflexivity|]. destruct (otlp_span_new_root span0 seed) as [s seed'].
  pose proof (span_of_own spnl_egress_rules_dns r OTLP_SIGNAL_DNS (dn_cgid r) None 8 (dns_attrs r (h :: host)) es) as H.
  destruct (enriched _ _ _ _ _ _ _ _ _ es) as [l es']. cbn [fst] in *. split; [reflexivity|]. apply H.
  - unfold dns_attrs, comm_attr, when. destruct (nonempty_text (dn_comm r)), (negb (dn_duration_ns r =? 0)); cbn [length app]; lia.
  - unfold dns_attrs, expected. rewrite !map_app, comm_keys, map_when. cbn.
    now destruct (nonempty_text (dn_comm r)), (negb (dn_duration_ns r =? 0)).
Qed.

Lemma l7_keeps : keeps spnl_egress_rules_l7 (fun _ => false) spnl_rec_l7_span_start_unix spnl_rec_l7_span_end_unix 10 (at_off l7_fill_span).
Proof.
  intros r off now namecap [seed es]. unfold l7_fill_span. destruct (otlp_span_new_root span0 seed) as [s seed'].
  pose proof (span_of_own spnl_egress_rules_l7 r OTLP_SIGNAL_L7 (l7_cgid r) (Some (peer4 (l7_family r) (l7_daddr r))) 10 (l7_attrs r) es) as H.
  destruct (enriched _ _ _ _ _ _ _ _ _ es) as [l es']. cbn [fst] in *. split; [reflexivity|]. apply H.
  - unfold l7_attrs, comm_attr, when. destruct (nonempty_text (l7_comm r)); cbn [length app]; lia.
  - unfold l7_attrs, expected. rewrite map_app, comm_keys. cbn. now destruct (nonempty_text (l7_comm r)).
Qed.

Lemma request_keys m p st : 0 <= st -> map key (request_attrs m p st) =
  (if nonempty_text m then [lit "http.request.method"] else []) ++ (if nonempty_text p then [lit "url.path"] else []) ++
  (if negb (st =? 0) then [lit "http.response.status_code"] else []).
Proof. intros H. unfold request_attrs. rewrite !map_app, !map_when, when_status by exact H. reflexivity. Qed.

Lemma request_len m p st : (length (request_attrs m p st) <= 3)%nat.
Proof. unfold request_attrs, when. destruct (nonempty_text m), (nonempty_text p), (0 <? st); cbn; lia. Qed.

Lemma http_keeps : keeps spnl_egress_rules_http (fun _ => false) spnl_rec_http_span_start_unix spnl_rec_http_span_end_unix 14 (at_off http_fill_span).
Proof.
  intros r off now namecap [seed es]. unfold http_fill_span. destruct (otlp_span_new_root span0 seed) as [s seed'].
  pose proof (span_of_own spnl_egress_rules_http r OTLP_SIGNAL_HTTP (ht_cgid r) (Some (peer4 (ht_family r) (ht_daddr r))) 14 (http_attrs r) es) as H.
  destruct (enriched _ _ _ _ _ _ _ _ _ es) as [l es']. cbn [fst] in *. split; [reflexivity|]. apply H.
  - unfold http_attrs, comm_attr, when. pose proof (request_len (spnl_http_method 65 (ht_req r)) (spnl_http_path 65 (ht_req r)) (spnl_http_status (ht_resp r))).
    rewrite !length_app. destruct (zero_bytes (ht_daddr r) && (ht_dport r =? 0)), (nonempty_text (ht_comm r)); cbn [length]; lia.
  - unfold http_attrs, expected. rewrite !map_app, comm_keys, request_keys by apply spnl_http_status_nonneg.
    cbn [map spnl_egress_rules_http filter snd fst always has_comm].
    destruct (nonempty_text (spnl_http_method 65 (ht_req r))), (nonempty_text (spnl_http_path 65 (ht_req r))),
      (negb (spnl_http_status (ht_resp r) =? 0)), (zero_bytes (ht_daddr r)), (ht_dport r =? 0), (nonempty_text (ht_comm r)); reflexivity.
Qed.

Lemma offcpu_keeps : keeps (spnl_egress_rules_offcpu syms lookup getenv) (fun _ => false) spnl_rec_offcpu_span_start_unix
  spnl_rec_offcpu_span_end_unix 14 (fun r _ now => offcpu_fill_span getenv fopen stat_dir getnameinfo syms lookup r now).
Proof.
  intros r off now namecap [seed es]. unfold offcpu_fill_span. destruct (otlp_span_new_root span0 seed) as [s seed'].
  pose proof (span_of_own (spnl_egress_rules_offcpu syms lookup getenv) r OTLP_SIGNAL_OFFCPU (oc_cgid r) None 14 (offcpu_attrs getenv syms lookup r) es) as H.
  destruct (enriched _ _ _ _ _ _ _ _ _ es) as [l es']. cbn [fst] in *. split; [reflexivity|]. apply H.
  - unfold offcpu_attrs, comm_attr, when. pose proof (request_len (spnl_http_method 65 (oc_req r)) (spnl_http_path 65 (oc_req r)) (spnl_http_status (oc_resp r))).
    rewrite !length_app. destruct (nonempty_text (spnl_offcpu_wait_stack syms lookup getenv r 448)), (nonempty_text (oc_comm r)); cbn [length]; lia.
  - unfold offcpu_attrs, expected. rewrite !map_app, comm_keys, request_keys, map_when by apply spnl_http_status_nonneg. cbn [map spnl_egress_rules_offcpu filter snd fst always has_comm].
    destruct (nonempty_text (spnl_http_method 65 (oc_req r))), (nonempty_text (spnl_http_path 65 (oc_req r))),
      (negb (spnl_http_status (oc_resp r) =? 0)), (nonempty_text (spnl_offcpu_wait_stack syms lookup getenv r 448)), (nonempty_text (oc_comm r)); reflexivity.
Qed.

(** C24: the five builders with a typed consumer keep the contract generated for them:
    no span exactly for the records the contract drops, the declared start and end
    times, and before the enrichers' attributes exactly those the rules call for, in
    their order, within the array. *)
Theorem builders_keep_contract :
  keeps spnl_egress_rules_dns spnl_rec_dns_dropped spnl_rec_dns_span_start_unix spnl_rec_dns_span_end_unix 8 (at_off dns_fill_span) /\
  keeps spnl_egress_rules_conn (fun _ => false) spnl_rec_conn_span_start_unix spnl_rec_conn_span_end_unix 20 (at_off conn_fill_span) /\
  keeps spnl_egress_rules_l7 (fun _ => false) spnl_rec_l7_span_start_unix spnl_rec_l7_span_end_unix 10 (at_off l7_fill_span) /\
  keeps spnl_egress_rules_http (fun _ => false) spnl_rec_http_span_start_unix spnl_rec_http_span_end_unix 14 (at_off http_fill_span) /\
  keeps (spnl_egress_rules_offcpu syms lookup getenv) (fun _ => false) spnl_rec_offcpu_span_start_unix spnl_rec_offcpu_span_end_unix 14
    (fun r _ now => offcpu_fill_span getenv fopen stat_dir getnameinfo syms lookup r now).
Proof. exact (conj dns_keeps (conj conn_keeps (conj l7_keeps (conj http_keeps offcpu_keeps)))). Qed.

(** ** What a consumer reads is what is sent *)

Lemma list_ascii_inj a b : lit a = lit b -> a = b.
Proof. intros H. apply (f_equal string_of_list_ascii) in H. now rewrite !string_of_list_ascii_of_string in H. Qed.

Lemma lookup_own own extra k v : Enrich.lookup own k = Some v -> Enrich.lookup (own ++ extra) k = Some v.
Proof. intros H. now rewrite lookup_app, H. Qed.

Lemma http_token_len room s : (length (http_token room s) <= room)%nat.
Proof. revert s. induction room as [|n IH]; intros [|c s]; cbn [http_token]; try (cbn; lia). destruct (token_end c); cbn [length]; [lia|]. specialize (IH s). lia. Qed.

Lemma render_loop_len cap pcs : forall out, (length out <= cap)%nat -> (length (render_loop syms pcs cap out) <= cap)%nat.
Proof.
  induction pcs as [|pc pcs IH]; intros out H; cbn [render_loop]; [exact H|].
  set (w := _ ++ _). destruct (Nat.leb_spec (cap - length out) (length w)); [exact H|]. apply IH. rewrite length_app. lia.
Qed.

Lemma wait_stack_len r : (length (spnl_offcpu_wait_stack syms lookup getenv r 448) <= 448)%nat.
Proof.
  unfold spnl_offcpu_wait_stack, _oc_render. destruct (_oc_frames _ _ _); try (cbn; lia). destruct (_ <=? 0); [cbn; lia|].
  apply render_loop_len. cbn. lia.
Qed.

Lemma cstr_len s : (length (cstr s) <= length s)%nat.
Proof. induction s as [|c s IH]; cbn [cstr length]; [lia|]. destruct (Ascii.eqb c "000"); cbn [length]; lia. Qed.

Lemma drop_dot_len s : (length (drop_dot s) <= length s)%nat.
Proof.
  unfold drop_dot. destruct (rev s) as [|c r] eqn:E; [cbn; lia|]. apply (f_equal (@length _)) in E. rewrite length_rev in E. cbn [length] in E.
  destruct (Ascii.eqb c "."); [rewrite length_rev; lia|lia].
Qed.

Lemma qname_loop_len raw fuel : forall off out, (length out <= 256)%nat -> (length (qname_loop raw 256 fuel off out) <= 256)%nat.
Proof.
  assert (C : forall k off out, (length out <= 255)%nat -> (length (snd (copy_label raw 256 k off out)) <= 255)%nat).
  { induction k as [|k IH]; intros off out H; cbn [copy_label]; [exact H|]. destruct (off <? 64)%nat; [|exact H].
    destruct (Nat.ltb_spec (length out) (256 - 1)); [|exact H]. apply IH. rewrite length_app. cbn [length]. lia. }
  induction fuel as [|f IH]; intros off out H; cbn [qname_loop]; [exact H|]. destruct (off <? 60)%nat; [|exact H].
  destruct (Nat.ltb_spec (length out) (256 - 1)); [|exact H]. cbn [andb]. destruct (_ || _); [exact H|].
  pose proof (C (Z.to_nat (code (byte_at raw off))) (S off) out ltac:(lia)) as L. destruct (copy_label _ _ _ _ _) as [off' out'].
  cbn [snd] in L. apply IH. rewrite length_app. cbn [length]. lia.
Qed.

Lemma qname_len raw : (length (spnl_dns_qname raw 256) <= 256)%nat.
Proof.
  unfold spnl_dns_qname. pose proof (cstr_len (drop_dot (qname_loop raw 256 60 12 []))).
  pose proof (drop_dot_len (qname_loop raw 256 60 12 [])). pose proof (qname_loop_len raw 60 12 [] ltac:(cbn; lia)). lia.
Qed.

(** The attribute [k] of a span is [v]. *)
Definition carries (s : otlp_generic_span_t) (k : string) (v : text) : Prop := Enrich.lookup (attrs s) (lit k) = Some v.

Lemma carries_own sig cg peer cap own es b e nm k err s0 name v : (length own <= cap)%nat -> Enrich.lookup own (lit name) = Some v ->
  carries (dressed s0 b e nm k err (fst (enriched getenv fopen stat_dir getnameinfo sig cg peer cap own es))) name v.
Proof.
  intros Hl H. destruct (enriched_shape sig cg peer cap own es Hl) as (extra & E & _). unfold carries. cbn [dressed attrs]. rewrite E.
  now apply lookup_own.
Qed.

Lemma trunc512 v : (length v < 512)%nat -> trunc 512 v = v.
Proof. apply trunc_id. Qed.

Lemma dec_s_pos v : 0 <= v < 2 ^ 64 -> dec_u (u64 v) = dec_s v.
Proof. intros H. unfold dec_s. rewrite wrap_small by exact H. now destruct (Z.ltb_spec v 0); [lia|]. Qed.

Lemma sgn_id v : - 2 ^ 63 <= v < 2 ^ 63 -> sgn 64 v = v.
Proof. intros H. apply sgn_small; [lia|exact H]. Qed.

Lemma lookup_hit a l k : text_eqb (key a) k = true -> Enrich.lookup (a :: l) k = Some (val a).
Proof. intros H. unfold Enrich.lookup. cbn [find]. now rewrite H. Qed.

Lemma lookup_miss a l k : text_eqb (key a) k = false -> Enrich.lookup (a :: l) k = Enrich.lookup l k.
Proof. intros H. unfold Enrich.lookup. cbn [find]. now rewrite H. Qed.

Ltac find_attr := cbn [app]; repeat first [rewrite lookup_hit by reflexivity | rewrite lookup_miss by reflexivity].

Lemma nonempty_not s : s <> [] -> nonempty_text s = true.
Proof. now destruct s. Qed.

Lemma dns_reads r off namecap c s : fst (dns_fill_span getenv fopen stat_dir getnameinfo r off namecap c) = Some s ->
  0 <= dn_duration_ns r < 2 ^ 63 ->
  carries s "dns.question.name" (spnl_rec_dns_qname (Some r)) /\
  (spnl_rec_dns_duration_ns (Some r) <> 0 -> carries s "spnl.dns.latency_ns" (trunc 512 (dec_s (spnl_rec_dns_duration_ns (Some r))))) /\
  (spnl_rec_dns_comm (Some r) <> [] -> carries s "process.executable.name" (trunc 512 (spnl_rec_dns_comm (Some r)))).
Proof.
  destruct c as [seed es]. unfold dns_fill_span. pose proof (qname_len (dn_raw r)) as Q.
  unfold spnl_rec_dns_qname, spnl_rec_dns_duration_ns, spnl_rec_dns_comm, str, num. destruct (spnl_dns_qname (dn_raw r) 256) as [|h host]; [discriminate|].
  destruct (otlp_span_new_root span0 seed) as [s0 seed'].
  pose proof (carries_own OTLP_SIGNAL_DNS (dn_cgid r) None 8 (dns_attrs r (h :: host)) es) as C.
  destruct (enriched _ _ _ _ _ _ _ _ _ es) as [l es']. cbn [fst] in *. intros [= <-] Hd. rewrite sgn_id by lia.
  assert (L : (length (dns_attrs r (h :: host)) <= 8)%nat)
    by (unfold dns_attrs, comm_attr, when; destruct (nonempty_text (dn_comm r)), (negb (dn_duration_ns r =? 0)); cbn [length app]; lia).
  unfold dns_attrs, comm_attr, when in C, L. repeat split; [|intros Hn|intros Hn]; apply C; auto.
  - find_attr. cbn [kv val]. now rewrite trunc512 by lia.
  - apply Z.eqb_neq in Hn. rewrite Hn. cbn [negb]. rewrite <- dec_s_pos, wrap_small by lia. destruct (nonempty_text (dn_comm r)); now find_attr.
  - rewrite nonempty_not by exact Hn. now find_attr.
Qed.

Lemma conn_reads r off namecap c s : fst (conn_fill_span getenv fopen stat_dir getnameinfo r off namecap c) = Some s ->
  - 2 ^ 63 <= co_srtt_us r < 2 ^ 63 ->
  carries s "spnl.conn.direction" (spnl_rec_conn_direction (Some r)) /\
  carries s "spnl.conn.tcp_state" (spnl_rec_conn_tcp_state (Some r)) /\
  carries s "net.peer.srtt_us" (trunc 512 (dec_s (spnl_rec_conn_srtt_us (Some r)))) /\
  (exists a p, carries s "network.peer.address" (trunc 512 a) /\ carries s "network.peer.port" (trunc 512 p) /\
     spnl_rec_conn_peer (Some r) = trunc 64 (a ++ lit ":" ++ p)) /\
  (spnl_rec_conn_comm (Some r) <> [] -> carries s "process.executable.name" (trunc 512 (spnl_rec_conn_comm (Some r)))).
Proof.
  destruct c as [seed es]. unfold conn_fill_span. destruct (otlp_span_new_root span0 seed) as [s0 seed'].
  pose proof (carries_own OTLP_SIGNAL_CONN (co_cgid r) (Some (conn_peer_addr r)) 20 (conn_attrs r) es) as C.
  destruct (enriched _ _ _ _ _ _ _ _ _ es) as [l es']. cbn [fst] in *. intros [= <-] Hs.
  assert (L : (length (conn_attrs r) <= 20)%nat) by (unfold conn_attrs, comm_attr, when; destruct (nonempty_text (co_comm r)); cbn [length app]; lia).
  unfold spnl_rec_conn_direction, spnl_rec_conn_tcp_state, spnl_rec_conn_srtt_us, spnl_rec_conn_comm, spnl_rec_conn_peer, str, num.
  assert (V : sgn 64 (spnl_recd_conn_srtt_us_val r) = spnl_recd_conn_srtt_us_val r).
  { apply sgn_id. unfold spnl_recd_conn_srtt_us_val. rewrite Z.shiftr_div_pow2 by lia. change (2 ^ 3) with 8.
    pose proof (Z.div_mod (co_srtt_us r) 8 ltac:(lia)). pose proof (Z.mod_pos_bound (co_srtt_us r) 8 ltac:(lia)). lia. }
  unfold conn_attrs in C, L. repeat split; [| | | |intros Hn]; try (apply C; [exact L|]).
  - find_attr. cbn [kv val]. rewrite trunc512; [reflexivity|]. unfold spnl_valmap_conn_direction, trunc. rewrite length_firstn. lia.
  - find_attr. cbn [kv val]. rewrite trunc512; [reflexivity|]. unfold spnl_valmap_tcp_state, trunc. rewrite length_firstn. lia.
  - rewrite V. now find_attr.
  - exists (conn_peer_addr r), (dec_u (co_dport r)). repeat split; apply C; auto; now find_attr.
  - unfold comm_attr, when. rewrite nonempty_not by exact Hn. now find_attr.
Qed.

(** Method, path and status: read on the HTTP and the off-CPU channel. *)
Lemma request_reads s req resp rest :
  (forall k v, Enrich.lookup (request_attrs (spnl_http_method 65 req) (spnl_http_path 65 req) (spnl_http_status resp) ++ rest) (lit k) = Some v ->
     carries s k v) ->
  (spnl_http_method 65 req <> [] -> carries s "http.request.method" (spnl_http_method 65 req)) /\
  (spnl_http_path 65 req <> [] -> carries s "url.path" (spnl_http_path 65 req)) /\
  (spnl_http_status resp <> 0 -> carries s "http.response.status_code" (trunc 512 (dec_s (spnl_http_status resp)))).
Proof.
  intros C. pose proof (http_token_len (65 - 1) req) as Lm. fold (spnl_http_method 65 req) in Lm.
  pose proof (http_token_len (65 - 1) (drop_while is_sp (drop_while (fun c => negb (token_end c)) req))) as Lp. fold (spnl_http_path 65 req) in Lp.
  pose proof (spnl_http_status_nonneg resp) as Ls. repeat split; intros H; apply C; unfold request_attrs, when.
  - rewrite nonempty_not by exact H. find_attr. cbn [kv val]. now rewrite trunc512 by lia.
  - rewrite (nonempty_not (spnl_http_path 65 req)) by exact H. destruct (nonempty_text (spnl_http_method 65 req)); find_attr; cbn [kv val]; now rewrite trunc512 by lia.
  - destruct (Z.ltb_spec 0 (spnl_http_status resp)); [|lia].
    destruct (nonempty_text (spnl_http_method 65 req)), (nonempty_text (spnl_http_path 65 req)); now find_attr.
Qed.

Lemma http_reads r off namecap c s : fst (http_fill_span getenv fopen stat_dir getnameinfo r off namecap c) = Some s ->
  (spnl_rec_http_method (Some r) <> [] -> carries s "http.request.method" (spnl_rec_http_method (Some r))) /\
  (spnl_rec_http_path (Some r) <> [] -> carries s "url.path" (spnl_rec_http_path (Some r))) /\
  (spnl_http_status (ht_resp r) <> 0 -> carries s "http.response.status_code" (trunc 512 (dec_s (spnl_http_status (ht_resp r))))).
Proof.
  destruct c as [seed es]. unfold http_fill_span. destruct (otlp_span_new_root span0 seed) as [s0 seed'].
  pose proof (carries_own OTLP_SIGNAL_HTTP (ht_cgid r) (Some (peer4 (ht_family r) (ht_daddr r))) 14 (http_attrs r) es) as C.
  destruct (enriched _ _ _ _ _ _ _ _ _ es) as [l es']. cbn [fst] in *. intros [= <-].
  assert (L : (length (http_attrs r) <= 14)%nat).
  { unfold http_attrs, comm_attr, when. pose proof (request_len (spnl_http_method 65 (ht_req r)) (spnl_http_path 65 (ht_req r)) (spnl_http_status (ht_resp r))).
    rewrite !length_app. destruct (zero_bytes (ht_daddr r) && (ht_dport r =? 0)), (nonempty_text (ht_comm r)); cbn [length]; lia. }
  unfold spnl_rec_http_method, spnl_rec_http_path, str. eapply request_reads. intros k v H. apply C; [exact L|exact H].
Qed.

Lemma clamped r : 0 <= oc_offcpu_ns r < 2 ^ 64 -> 0 <= oc_duration_ns r < 2 ^ 63 ->
  0 <= spnl_recd_offcpu_offcpu_ns_val r <= oc_duration_ns r /\
  spnl_recd_offcpu_oncpu_ns_val r = oc_duration_ns r - spnl_recd_offcpu_offcpu_ns_val r.
Proof.
  intros H1 H2. unfold spnl_recd_offcpu_oncpu_ns_val.
  assert (B : 0 <= spnl_recd_offcpu_offcpu_ns_val r <= oc_duration_ns r)
    by (unfold spnl_recd_offcpu_offcpu_ns_val; destruct (Z.ltb_spec (oc_offcpu_ns r) (oc_duration_ns r)); rewrite sgn_id; lia).
  split; [exact B|]. rewrite (wrap_small 64 (spnl_recd_offcpu_offcpu_ns_val r)), wrap_small, sgn_id by lia. reflexivity.
Qed.

Lemma offcpu_reads r now namecap c s : fst (offcpu_fill_span getenv fopen stat_dir getnameinfo syms lookup r now namecap c) = Some s ->
  0 <= oc_offcpu_ns r < 2 ^ 64 -> 0 <= oc_duration_ns r < 2 ^ 63 ->
  (spnl_rec_offcpu_method (Some r) <> [] -> carries s "http.request.method" (spnl_rec_offcpu_method (Some r))) /\
  (spnl_rec_offcpu_path (Some r) <> [] -> carries s "url.path" (spnl_rec_offcpu_path (Some r))) /\
  carries s "spnl.offcpu_ns" (trunc 512 (dec_s (spnl_rec_offcpu_offcpu_ns (Some r)))) /\
  carries s "spnl.oncpu_ns" (trunc 512 (dec_s (spnl_rec_offcpu_oncpu_ns (Some r)))) /\
  carries s "spnl.wait.kind" (spnl_rec_offcpu_wait_kind syms lookup (Some r)) /\
  (spnl_rec_offcpu_wait_stack_trace syms lookup getenv (Some r) <> [] ->
     carries s "spnl.wait.stack" (spnl_rec_offcpu_wait_stack_trace syms lookup getenv (Some r))) /\
  spnl_rec_offcpu_offcpu_ns (Some r) + spnl_rec_offcpu_oncpu_ns (Some r) = spnl_rec_offcpu_duration_ns (Some r).
Proof.
  destruct c as [seed es]. unfold offcpu_fill_span. destruct (otlp_span_new_root span0 seed) as [s0 seed'].
  pose proof (carries_own OTLP_SIGNAL_OFFCPU (oc_cgid r) None 14 (offcpu_attrs getenv syms lookup r) es) as C.
  destruct (enriched _ _ _ _ _ _ _ _ _ es) as [l es']. cbn [fst] in *. intros [= <-] H1 H2.
  pose proof (request_len (spnl_http_method 65 (oc_req r)) (spnl_http_path 65 (oc_req r)) (spnl_http_status (oc_resp r))) as Q.
  assert (L : (length (offcpu_attrs getenv syms lookup r) <= 14)%nat).
  { unfold offcpu_attrs, comm_attr, when. rewrite !length_app.
    destruct (nonempty_text (spnl_offcpu_wait_stack syms lookup getenv r 448)), (nonempty_text (oc_comm r)); cbn [length]; lia. }
  unfold spnl_rec_offcpu_method, spnl_rec_offcpu_path, spnl_rec_offcpu_offcpu_ns, spnl_rec_offcpu_oncpu_ns, spnl_rec_offcpu_wait_kind,
    spnl_rec_offcpu_wait_stack_trace, spnl_rec_offcpu_duration_ns, str, num.
  destruct (clamped r H1 H2) as [B1 B2]. rewrite !sgn_id by lia.
  assert (R : forall rest k v, ~ In k ["http.request.method"; "url.path"; "http.response.status_code"] -> Enrich.lookup rest (lit k) = Some v ->
    Enrich.lookup (request_attrs (spnl_http_method 65 (oc_req r)) (spnl_http_path 65 (oc_req r)) (spnl_http_status (oc_resp r)) ++ rest) (lit k) = Some v).
  { intros rest k v Hk H. rewrite lookup_app, lookup_none; [exact H|]. rewrite request_keys by apply spnl_http_status_nonneg. intros I. apply Hk.
    assert (E : In (lit k) (map lit ["http.request.method"; "url.path"; "http.response.status_code"])).
    { clear -I. destruct (nonempty_text (spnl_http_method 65 (oc_req r))), (nonempty_text (spnl_http_path 65 (oc_req r))), (negb (spnl_http_status (oc_resp r) =? 0));
        cbn [map app In] in *; tauto. }
    apply in_map_iff in E as (x & E & Hx). apply list_ascii_inj in E. now subst. }
  repeat match goal with |- _ /\ _ => split end; try lia.
  - eapply request_reads. intros k v H. apply C; [exact L|exact H].
  - eapply request_reads. intros k v H. apply C; [exact L|exact H].
  - apply C; [exact L|]. apply R; [cbn; intuition discriminate|]. find_attr. rewrite <- dec_s_pos by lia. reflexivity.
  - apply C; [exact L|]. apply R; [cbn; intuition discriminate|]. find_attr. rewrite <- dec_s_pos by lia. reflexivity.
  - apply C; [exact L|]. apply R; [cbn; intuition discriminate|]. find_attr. cbn [kv val]. rewrite trunc512; [reflexivity|].
    unfold spnl_offcpu_wait_kind, trunc. rewrite length_firstn. lia.
  - intros H. apply C; [exact L|]. apply R; [cbn; intuition discriminate|]. unfold when. rewrite nonempty_not by exact H. find_attr. cbn [kv val].
    rewrite trunc512; [reflexivity|]. pose proof (wait_stack_len r). lia.
Qed.

(** What a typed consumer reads of a record is what the span built from it
    carries: the query name, the direction, TCP state and round-trip time of a
    connection and the two halves of its peer, the method, path and status of a
    request, the kind and stack of its wait, and its two times, which add up to its
    duration. *)
Theorem consumer_reads_sent off namecap c s :
  (forall r, fst (dns_fill_span getenv fopen stat_dir getnameinfo r off namecap c) = Some s -> 0 <= dn_duration_ns r < 2 ^ 63 ->
     carries s "dns.question.name" (spnl_rec_dns_qname (Some r)) /\
     (spnl_rec_dns_duration_ns (Some r) <> 0 -> carries s "spnl.dns.latency_ns" (trunc 512 (dec_s (spnl_rec_dns_duration_ns (Some r)))))) /\
  (forall r, fst (conn_fill_span getenv fopen stat_dir getnameinfo r off namecap c) = Some s -> - 2 ^ 63 <= co_srtt_us r < 2 ^ 63 ->
     carries s "spnl.conn.direction" (spnl_rec_conn_direction (Some r)) /\
     carries s "spnl.conn.tcp_state" (spnl_rec_conn_tcp_state (Some r)) /\
     carries s "net.peer.srtt_us" (trunc 512 (dec_s (spnl_rec_conn_srtt_us (Some r)))) /\
     exists a p, carries s "network.peer.address" (trunc 512 a) /\ carries s "network.peer.port" (trunc 512 p) /\
       spnl_rec_conn_peer (Some r) = trunc 64 (a ++ lit ":" ++ p)) /\
  (forall r, fst (http_fill_span getenv fopen stat_dir getnameinfo r off namecap c) = Some s ->
     (spnl_rec_http_method (Some r) <> [] -> carries s "http.request.method" (spnl_rec_http_method (Some r))) /\
     (spnl_rec_http_path (Some r) <> [] -> carries s "url.path" (spnl_rec_http_path (Some r))) /\
     (spnl_http_status (ht_resp r) <> 0 -> carries s "http.response.status_code" (trunc 512 (dec_s (spnl_http_status (ht_resp r)))))) /\
  (forall r, fst (offcpu_fill_span getenv fopen stat_dir getnameinfo syms lookup r off namecap c) = Some s ->
     0 <= oc_offcpu_ns r < 2 ^ 64 -> 0 <= oc_duration_ns r < 2 ^ 63 ->
     carries s "spnl.offcpu_ns" (trunc 512 (dec_s (spnl_rec_offcpu_offcpu_ns (Some r)))) /\
     carries s "spnl.oncpu_ns" (trunc 512 (dec_s (spnl_rec_offcpu_oncpu_ns (Some r)))) /\
     carries s "spnl.wait.kind" (spnl_rec_offcpu_wait_kind syms lookup (Some r)) /\
     (spnl_rec_offcpu_wait_stack_trace syms lookup getenv (Some r) <> [] ->
        carries s "spnl.wait.stack" (spnl_rec_offcpu_wait_stack_trace syms lookup getenv (Some r))) /\
     spnl_rec_offcpu_offcpu_ns (Some r) + spnl_rec_offcpu_oncpu_ns (Some r) = spnl_rec_offcpu_duration_ns (Some r)).
Proof.
  split; [|split; [|split]]; intros r.
  - intros H Hd. destruct (dns_reads r off namecap c s H Hd) as (A & B & _). exact (conj A B).
  - intros H Hs. destruct (conn_reads r off namecap c s H Hs) as (A & B & D & E & _). exact (conj A (conj B (conj D E))).
  - apply http_reads.
  - intros H H1 H2. destruct (offcpu_reads r off namecap c s H H1 H2) as (_ & _ & A). exact A.
Qed.

End Env.

(** A pod-less connection, read and sent. *)
#[local] Instance empty_fs : K8s.FileSystem := {| K8s.readdir := fun _ => None; K8s.dir_inode := fun _ => None |}.

Definition sample_conn : spnl_rec_conn_t := mk_conn 1000 7 (lit "curl") [10; 0; 0; 5] 443 2 8000 0 2 [] [].

Lemma consumer_reads_sent_witness :
  exists s, fst (conn_fill_span (fun _ => None) (fun _ => None) (fun _ => false) (fun _ => None) sample_conn 5 128 (1, estate0)) = Some s /\
    carries s "spnl.conn.direction" (lit "active") /\ carries s "net.peer.srtt_us" (lit "1000") /\
    spnl_rec_conn_peer (Some sample_conn) = lit "10.0.0.5:443".
Proof.
  eexists. split; [reflexivity|]. match goal with |- carries ?s _ _ /\ _ =>
    destruct (consumer_reads_sent (fun _ => None) (fun _ => None) (fun _ => false) (fun _ => None) [] (fun _ => None) 5 128 (1, estate0) s) as (_ & H & _) end.
  destruct (H sample_conn) as (D & _ & S & _); [reflexivity|cbn; lia|]. split; [exact D|]. split; [exact S|vm_compute; reflexivity].
Defined.

End Contract.

(** * Span names fit their buffers *)

Module NameCaps.
Import Fill Contract.

Lemma flat_map_len {A} (f : A -> text) l b : (forall x, In x l -> (length (f x) <= b)%nat) -> (length (flat_map f l) <= length l * b)%nat.
Proof.
  induction l as [|x l IH]; intros H; cbn [flat_map length]; [lia|]. rewrite length_app.
  pose proof (H x (or_introl eq_refl)). specialize (IH (fun y Hy => H y (or_intror Hy))). lia.
Qed.

Definition octets (b : list Z) : Prop := Forall (fun x => 0 <= x < 256) b.

Lemma nth_octet b i : octets b -> 0 <= nth i b 0 < 256.
Proof. intros H. destruct (nth_in_or_default i b 0) as [I| ->]; [|lia]. unfold octets in H. rewrite Forall_forall in H. now apply H. Qed.

Lemma inet_ntop4_len b : octets b -> (length (inet_ntop4 b) <= 15)%nat.
Proof.
  intros H. unfold inet_ntop4. rewrite !length_app. cbn [length lit list_ascii_of_string].
  assert (L : forall i, (length (dec_u (nth i b 0%Z)) <= 3)%nat).
  { intros i. pose proof (nth_octet b i H). apply dec_u_width; [lia|]. change (10 ^ Z.of_nat 3) with 1000. lia. }
  pose proof (L 0%nat). pose proof (L 1%nat). pose proof (L 2%nat). pose proof (L 3%nat). lia.
Qed.

Lemma hex16_len w : (length (hex16 w) <= 4)%nat.
Proof. unfold hex16. repeat case_if; cbn; lia. Qed.

Lemma word6_len base n x : (length (word6 base n x) <= 5)%nat.
Proof.
  destruct x as [i w]. unfold word6. case_if; [case_if; cbn; lia|]. rewrite length_app. pose proof (hex16_len w). case_if; cbn [length lit list_ascii_of_string]; lia.
Qed.

Lemma inet_ntop6_len b : octets b -> (length (inet_ntop6 b) <= 46)%nat.
Proof.
  intros H. unfold inet_ntop6. destruct (zero_run _ _ _ _) as [base n].
  assert (F : forall k, (length (flat_map (fun i => word6 base n (i, nth i (words6 b) 0%Z)) (seq 0 k)) <= k * 5)%nat).
  { intros k. pose proof (flat_map_len (fun i => word6 base n (i, nth i (words6 b) 0%Z)) (seq 0 k) 5 (fun x _ => word6_len base n _)) as L.
    now rewrite length_seq in L. }
  case_if; rewrite !length_app; cbn [length lit list_ascii_of_string].
  - assert (octets (skipn 12 b)) as O by (unfold octets in *; rewrite <- (firstn_skipn 12 b) in H; now apply Forall_app in H as [_ H]).
    pose proof (inet_ntop4_len (skipn 12 b) O). pose proof (F 6%nat). lia.
  - pose proof (F 8%nat). case_if; cbn [length]; lia.
Qed.

(** A connection record as the reader gives it. *)
Definition conn_ok (r : spnl_rec_conn_t) : Prop :=
  octets (co_daddr r) /\ octets (co_daddr6_hi r) /\ octets (co_daddr6_lo r) /\ 0 <= co_dport r < 2 ^ 16.

Lemma conn_peer_len r : conn_ok r -> (length (conn_peer_addr r) <= 46)%nat.
Proof.
  intros (H4 & Hh & Hl & _). unfold conn_peer_addr. case_if; [pose proof (inet_ntop4_len _ H4); lia|].
  apply inet_ntop6_len. unfold octets in *. apply Forall_app. now split.
Qed.

Lemma port_len v : 0 <= v < 2 ^ 16 -> (length (dec_u v) <= 5)%nat.
Proof. intros H. apply dec_u_width; [lia|]. change (10 ^ Z.of_nat 5) with 100000. lia. Qed.

Lemma drop_while_len f s : (length (drop_while f s) <= length s)%nat.
Proof. induction s as [|c s IH]; cbn [drop_while length]; [lia|]. destruct (f c); cbn [length]; lia. Qed.

(** Method and path come out of the same captured bytes. *)
Lemma token_rest room s : (length (http_token room s) <= length s - length (drop_while (fun c => negb (token_end c)) s))%nat.
Proof.
  revert room. induction s as [|c s IH]; intros room; destruct room as [|room]; cbn [http_token drop_while length]; try lia.
  destruct (token_end c); cbn [negb length]; [lia|]. specialize (IH room).
  pose proof (drop_while_len (fun c => negb (token_end c)) s). lia.
Qed.

Lemma token_le room s : (length (http_token room s) <= length s)%nat.
Proof. revert s. induction room as [|n IH]; intros [|c s]; cbn [http_token length]; try lia. destruct (token_end c); cbn [length]; [lia|]. specialize (IH s). lia. Qed.

Lemma http_name_len req : (length req <= 64)%nat -> (length (http_name (spnl_http_method 65 req) (spnl_http_path 65 req)) <= 69)%nat.
Proof.
  intros H. unfold http_name, spnl_http_method, spnl_http_path. rewrite !length_app.
  pose proof (token_rest (65 - 1) req) as M. set (rest := drop_while (fun c => negb (token_end c)) req) in *.
  pose proof (token_le (65 - 1) (drop_while is_sp rest)) as P. pose proof (drop_while_len is_sp rest).
  pose proof (drop_while_len (fun c => negb (token_end c)) req). fold rest in H1.
  destruct (http_token (65 - 1) req); cbn [length lit list_ascii_of_string] in *; lia.
Qed.

Lemma trunc_either a b s : (length s < a)%nat -> (length s < b)%nat -> trunc a s = trunc b s.
Proof. intros. now rewrite !trunc_id. Qed.

End NameCaps.
