(* ===== verification/OtlpAgent.v ===== *)
(** * The export agent ([src/runtime/otlp/otlp_agent.c])

    - [Agent]: the state the exporters share, draining a ring buffer, the one-call push
      of the span channels, and the typed consumers' drain, [to_span], send and flush.
    - [Push]: what a push sends and accounts for; the explicit form sends the same. *)

From S2P Require Import Prelude Bytes CText PbEncode Channels OtlpMetrics OtlpTraces OtlpTransport OtlpGrpc OtlpEnrich AgentRecords OtlpPb OtlpBatch AgentSpans.
Import Ids Rec Derive Stack Fill Balance.
Local Open Scope string_scope.
Local Open Scope list_scope.
Local Open Scope Z_scope.

Module Agent.
Import Batch.

Definition OTLP_MAX_LOGS : nat := Z.to_nat 8192.

(** The globals every exporter uses: batch, names, requests and events; the balance of
    the channels; the enrichers; the declared metrics; and the stack map that wait
    kinds are resolved against. *)
Record core := mk_core {
  net_io : io;
  chans : list spnl_chan_stat;
  enr : Enrich.estate;
  metrics : Recmetric.state;
  g_offcpu_stacks : text
}.

Definition set_io x st := mk_core x (chans st) (enr st) (metrics st) (g_offcpu_stacks st).
Definition set_chans x st := mk_core (net_io st) x (enr st) (metrics st) (g_offcpu_stacks st).
Definition set_enr x st := mk_core (net_io st) (chans st) x (metrics st) (g_offcpu_stacks st).
Definition set_metrics x st := mk_core (net_io st) (chans st) (enr st) x (g_offcpu_stacks st).
Definition offcpu_set_stack_ctx (stacks : option text) st :=
  mk_core (net_io st) (chans st) (enr st) (metrics st) (trunc 64 (match stacks with Some s => s | None => [] end)).

(** [g_rec_<channel>], [g_rec_<channel>_n] and [g_rec_<channel>_map]. *)
Record last_drain (R : Type) := mk_last { recs : list R; from : option text }.
Arguments mk_last {R}. Arguments recs {R}. Arguments from {R}.

(** A call returns, or ends the process. *)
Inductive result := Ret (r : Z) (st : core) | Exit (st : core).
Definition core_of (r : result) : core := match r with Ret _ st => st | Exit st => st end.

(** The clocks read during a call, in nanoseconds, and [time(NULL)]. *)
Record clock := mk_clock { realtime : Z; monotonic : Z; unix_s : Z }.

Definition otlp_ktime_to_unix_off (c : clock) : Z := realtime c - monotonic c.

(** The ring buffers at the time of a call: the records a drain polls, oldest first;
    [None] when there is no such map or it cannot be opened. *)
Definition rings : Type := text -> option (list (list Z)).

(** What tells the span channels apart: the record reader, what the callback feeds to
    the metrics, the records the push skips or cannot use (with the reason it counts),
    the span builder, the children the push adds, and the size of its name buffer.
    The builder and the children may look at the stack map in use. *)
Record channel (R : Type) := mk_channel {
  unpack : list Z -> option R;
  observe : Z -> R -> Recmetric.state -> Recmetric.state;
  skips : R -> option (text * text);
  unusable : option (text * text);
  fill : text -> clock -> R -> nat -> fctx -> option otlp_generic_span_t * fctx;
  children : text -> R -> otlp_generic_span_t -> Z -> list otlp_generic_span_t * Z;
  namecap : nat
}.
Arguments mk_channel {R}. Arguments unpack {R}. Arguments observe {R}. Arguments skips {R}. Arguments unusable {R}.
Arguments fill {R}. Arguments children {R}. Arguments namecap {R}.

(** A ring buffer callback: records beyond the buffer and records that do not parse
    are passed over. *)
Definition rb_cb {R} (ch : channel R) (now : Z) (c : list R * Recmetric.state) (data : list Z) : list R * Recmetric.state :=
  let '(l, m) := c in
  if (OTLP_MAX_LOGS <=? length l)%nat then c
  else match unpack ch data with None => c | Some r => (l ++ [r], observe ch now r m) end.

Definition otlp_drain {R} (ch : channel R) (rs : rings) (map_name : text) (clk : clock) (m : Recmetric.state)
  : option (list R * Recmetric.state) :=
  option_map (fun data => fold_left (rb_cb ch (realtime clk)) data ([], m)) (rs map_name).

Section Host.
Variable p : process.
Variable gzip : list Z -> option (list Z).
Variable network : nat -> Post.net * list Z.

(** [getenv("OTEL_SERVICE_NAME")], else the agent's own buffer. *)
Definition service_ref : cref := match getenv p (lit "OTEL_SERVICE_NAME") with Some ((_ :: _) as s) => Owned s | _ => ServiceBuf end.

Definition id_seed (clk : clock) : Z := Z.lxor (u64 (unix_s clk)) (u64 (Z.shiftl (getpid p) 32)).

Definition begin_batch (ep : text) (st : core) : core :=
  set_io (otlp_batch_begin p ep service_ref VersionBuf (lit "spinel-ebpf") (net_io st)) st.

Definition add_span (st : core) (s : otlp_generic_span_t) : core :=
  set_io (snd (otlp_batch_add p gzip network s (net_io st))) st.

Definition drop_record (m : text) (why : option (text * text)) (st : core) : core :=
  match why with Some (r, h) => set_chans (spnl_channel_dropped (Some m) r h (chans st)) st | None => st end.

(** The loop of a push: the state, the id generator, spans sent and records sent. *)
Fixpoint push_loop {R} (ch : channel R) (m : text) (clk : clock) (l : list R) (st : core) (seed : Z) (sent out : Z) : core * Z * Z :=
  match l with
  | [] => (st, sent, out)
  | r :: l' =>
      match skips ch r with
      | Some why => push_loop ch m clk l' (drop_record m (Some why) st) seed sent out
      | None =>
          let '(o, (seed, e)) := fill ch (g_offcpu_stacks st) clk r (namecap ch) (seed, enr st) in
          let st := set_enr e st in
          match o with
          | None => push_loop ch m clk l' (drop_record m (unusable ch) st) seed sent out
          | Some s =>
              let '(kids, seed) := children ch (g_offcpu_stacks st) r s seed in
              push_loop ch m clk l' (fold_left add_span (s :: kids) st) seed (sent + 1 + Z.of_nat (length kids)) (out + 1)
          end
      end
  end.

(** [otlp_batch_flush_final] and what follows it: the exit leaves the balance as it is. *)
Definition finish (m : option text) (sent out : Z) (st : core) : result :=
  match otlp_batch_flush_final p gzip network (net_io st) with
  | Exits x => Exit (set_io x st)
  | Returns _ x =>
      let st := set_chans (spnl_channel_out m out (chans st)) (set_io x st) in
      Ret (if 0 <? sent then last_status (batch (net_io st)) else 0) st
  end.

Definition span_push {R} (ch : channel R) (rs : rings) (map_name endpoint : option text) (clk : clock) (d : last_drain R) (st : core)
  : result * last_drain R :=
  match map_name, endpoint with
  | Some m, Some ep =>
      match otlp_drain ch rs m clk (metrics st) with
      | None => (Ret (-1) st, mk_last [] (from d))
      | Some (l, ms) =>
          let st := set_metrics ms st in
          let st := set_chans (spnl_channel_in (Some m) (Z.of_nat (length l)) (spnl_channel_seen (Some m) (chans st))) st in
          let '(st, sent, out) := push_loop ch m clk l (begin_batch ep st) (id_seed clk) 0 0 in
          (finish (Some m) sent out st, mk_last l (from d))
      end
  | _, _ => (Ret (-1) st, d)
  end.

(** ** Typed consumers *)

(** [spnl_rec_<channel>_at] *)
Definition rec_at {R} (d : last_drain R) (i : Z) : option R := if 0 <=? i then nth_error (recs d) (Z.to_nat i) else None.

Definition rec_drain {R} (ch : channel R) (rs : rings) (map_name : option text) (clk : clock) (d : last_drain R) (st : core)
  : Z * last_drain R * core :=
  match map_name with
  | None => (-1, d, st)
  | Some m =>
      match otlp_drain ch rs m clk (metrics st) with
      | None => (-1, mk_last [] (Some m), st)
      | Some (l, ms) =>
          let st := set_metrics ms st in
          (Z.of_nat (length l), mk_last l (Some m),
           set_chans (spnl_channel_in (Some m) (Z.of_nat (length l)) (spnl_channel_seen (Some m) (chans st))) st)
      end
  end.

Definition OTLP_EV_SPAN_SLOTS : nat := 4.

(** The slots of assembled spans with the map their record came from, the next slot,
    the id generator, and the open batch. *)
Record typed := mk_typed {
  g_ev_span : list (otlp_generic_span_t * option text);
  g_ev_slot : nat;
  g_ev_seed : Z;
  g_ev_batch_open : bool;
  g_ev_sent : Z
}.

Definition typed0 : typed := mk_typed (repeat (span0, None) OTLP_EV_SPAN_SLOTS) 0 0 false 0.

(** [spnl_rec_<channel>_to_span]: a record that gives no span leaves its slot as it was
    and gets no handle. *)
Definition rec_to_span {R} (ch : channel R) (clk : clock) (d : last_drain R) (i : Z) (t : typed) (st : core) : Z * typed * core :=
  match rec_at d i with
  | None => (0, t, st)
  | Some r =>
      let seed := if g_ev_seed t =? 0 then id_seed clk else g_ev_seed t in
      let slot := g_ev_slot t in
      let next := ((slot + 1) mod OTLP_EV_SPAN_SLOTS)%nat in
      let '(o, (seed, e)) := fill ch (g_offcpu_stacks st) clk r 160 (seed, enr st) in
      let st := set_enr e st in
      match o with
      | None => (0, mk_typed (g_ev_span t) next seed (g_ev_batch_open t) (g_ev_sent t), st)
      | Some s => (Z.of_nat slot + 1, mk_typed (upd (g_ev_span t) slot (s, from d)) next seed (g_ev_batch_open t) (g_ev_sent t), st)
      end
  end.

Definition spnl_otlp_span_send (handle : Z) (endpoint : option text) (t : typed) (st : core) : Z * typed * core :=
  match endpoint with
  | Some ((_ :: _) as ep) =>
      if (handle <=? 0) || (Z.of_nat OTLP_EV_SPAN_SLOTS <? handle) then (0, t, st)
      else
        let '(st, sent) := if g_ev_batch_open t then (st, g_ev_sent t) else (begin_batch ep st, 0) in
        let '(s, m) := nth (Z.to_nat (handle - 1)) (g_ev_span t) (span0, None) in
        let st := add_span st s in
        (1, mk_typed (g_ev_span t) (g_ev_slot t) (g_ev_seed t) true (sent + 1), set_chans (spnl_channel_out m 1 (chans st)) st)
  | _ => (0, t, st)
  end.

Definition spnl_otlp_span_flush (t : typed) (st : core) : result * typed :=
  if negb (g_ev_batch_open t) then (Ret 0 st, t)
  else
    match otlp_batch_flush_final p gzip network (net_io st) with
    | Exits x => (Exit (set_io x st), t)
    | Returns r x => (Ret r (set_io x st), mk_typed (g_ev_span t) (g_ev_slot t) (g_ev_seed t) false (g_ev_sent t))
    end.

(** ** The six channels *)

Section Channels.
Context `{FS : K8s.FileSystem}.
Variable fopen : text -> option text.
Variable stat_dir : text -> bool.
Variable getnameinfo : text -> option text.
Variable syms : list (Z * text).
(** A stack map of the loaded object, by name: the frames of a stack id. *)
Variable stack_map : text -> Z -> option (list Z).

Definition no_child {R} (_ : text) (_ : R) (_ : otlp_generic_span_t) (seed : Z) : list otlp_generic_span_t * Z := ([], seed).

Definition conn_channel : channel spnl_rec_conn_t :=
  mk_channel spnl_rec_conn_unpack (fun now r m => Recmetric.spnl_recmetric_observe_conn now m (co_oldstate r)) (fun _ => None) None
    (fun _ clk r => conn_fill_span (getenv p) fopen stat_dir getnameinfo r (otlp_ktime_to_unix_off clk)) no_child 128.

Definition unreadable_payload : text * text :=
  (lit "unreadable_payload",
   lit "a send was seen but its bytes could not be read, so `raw` is empty rather than wrong. raw_status == -1 means msg_iter described pages or kernel memory (a splice/vmsplice-style send), not a user buffer; any other value is the errno bpf_probe_read_user returned. This is not a filter problem -- the attach point and the port test both worked.").

Definition unparseable_qname : text * text :=
  (lit "unparseable_qname",
   lit "the record's raw bytes were read but are not a DNS query. emit_dns expects the payload of a UDP send to port 53 -- check the attach point (udp_sendmsg) and the port filter (udp_dport(sk, msg) == 53).").

Definition dns_channel : channel spnl_rec_dns_t :=
  mk_channel spnl_rec_dns_unpack (fun _ _ m => m) (fun r => if dn_raw_status r =? 0 then None else Some unreadable_payload)
    (Some unparseable_qname)
    (fun _ clk r => dns_fill_span (getenv p) fopen stat_dir getnameinfo r (otlp_ktime_to_unix_off clk)) no_child 160.

Definition l7_channel : channel spnl_rec_l7_t :=
  mk_channel spnl_rec_l7_unpack (fun _ _ m => m) (fun _ => None) None
    (fun _ clk r => l7_fill_span (getenv p) fopen stat_dir getnameinfo r (otlp_ktime_to_unix_off clk)) no_child 128.

Definition http_channel : channel spnl_rec_http_t :=
  mk_channel spnl_rec_http_unpack
    (fun now r m => Recmetric.spnl_recmetric_observe_http now m (ht_req r) (ht_resp r) (ht_duration_ns r)) (fun _ => None) None
    (fun _ clk r => http_fill_span (getenv p) fopen stat_dir getnameinfo r (otlp_ktime_to_unix_off clk)) no_child 96.

Definition redis_channel : channel spnl_rec_http_t :=
  mk_channel spnl_rec_redis_unpack (fun _ _ m => m) (fun _ => None) None
    (fun _ clk r => redis_fill_span (getenv p) fopen stat_dir getnameinfo r (otlp_ktime_to_unix_off clk)) no_child 32.

(** The stack map named by the last drain of this channel. *)
Definition stacks_of (name : text) : Z -> option (list Z) := match name with [] => fun _ => None | _ => stack_map name end.

Definition offcpu_channel : channel spnl_rec_offcpu_t :=
  mk_channel spnl_rec_offcpu_unpack (fun _ _ m => m) (fun _ => None) None
    (fun stk clk r => offcpu_fill_span (getenv p) fopen stat_dir getnameinfo syms (stacks_of stk) r (u64 (realtime clk)))
    (fun stk r parent seed =>
       if 0 <? u64 (spnl_recd_offcpu_offcpu_ns_val r)
       then let '(ch, seed) := wait_child (getenv p) syms (stacks_of stk) true r parent seed in ([ch], seed)
       else ([], seed)) 96.

Definition spnl_otlp_conn_span_push_obj := span_push conn_channel.
Definition spnl_otlp_dns_span_push_obj := span_push dns_channel.
Definition spnl_otlp_l7_span_push_obj := span_push l7_channel.
Definition spnl_otlp_http_span_push_obj := span_push http_channel.

(** The Redis push has a buffer of its own and no consumer. *)
Definition spnl_otlp_redis_span_push_obj (rs : rings) (map_name endpoint : option text) (clk : clock) (st : core) : result :=
  fst (span_push redis_channel rs map_name endpoint clk (mk_last [] None) st).

Definition spnl_otlp_offcpu_span_push_obj (rs : rings) (map_name stacks endpoint : option text) (clk : clock)
  (d : last_drain spnl_rec_offcpu_t) (st : core) : result * last_drain spnl_rec_offcpu_t :=
  match map_name, endpoint with
  | Some _, Some _ => span_push offcpu_channel rs map_name endpoint clk d (offcpu_set_stack_ctx stacks st)
  | _, _ => (Ret (-1) st, d)
  end.

Definition spnl_rec_conn_drain_obj := rec_drain conn_channel.
Definition spnl_rec_dns_drain_obj := rec_drain dns_channel.
Definition spnl_rec_l7_drain_obj := rec_drain l7_channel.
Definition spnl_rec_http_drain_obj := rec_drain http_channel.
Definition spnl_rec_offcpu_drain_obj (rs : rings) (map_name stacks : option text) (clk : clock) (d : last_drain spnl_rec_offcpu_t) (st : core) :=
  match map_name with
  | None => (-1, d, st)
  | Some _ => rec_drain offcpu_channel rs map_name clk d (offcpu_set_stack_ctx stacks st)
  end.

Definition spnl_rec_conn_to_span := rec_to_span conn_channel.
Definition spnl_rec_dns_to_span := rec_to_span dns_channel.
Definition spnl_rec_l7_to_span := rec_to_span l7_channel.
Definition spnl_rec_http_to_span := rec_to_span http_channel.
Definition spnl_rec_offcpu_to_span := rec_to_span offcpu_channel.

End Channels.
End Host.
End Agent.

(** * What a push does *)

Module Push.
Import Agent Batch Deliver.

Section Run.
Variable p : process.
Variable gzip : list Z -> option (list Z).
Variable network : nat -> Post.net * list Z.
Context {R : Type} (ch : channel R).

(** *** Draining *)

Fixpoint parsed (data : list (list Z)) : list R :=
  match data with
  | [] => []
  | b :: data' => match unpack ch b with Some r => r :: parsed data' | None => parsed data' end
  end.

(** Every record that parses, up to the buffer's size, is kept and observed. *)
Lemma drain_keeps now data : forall l m,
  fold_left (rb_cb ch now) data (l, m) =
  (l ++ firstn (OTLP_MAX_LOGS - length l) (parsed data),
   fold_left (fun m r => observe ch now r m) (firstn (OTLP_MAX_LOGS - length l) (parsed data)) m).
Proof.
  unfold rb_cb. generalize OTLP_MAX_LOGS as cap. intros cap.
  induction data as [|b data IH]; intros l m; cbn [fold_left parsed]; [now rewrite firstn_nil, app_nil_r|].
  destruct (Nat.leb_spec cap (length l)) as [F|F].
  - rewrite IH. replace (cap - length l)%nat with O by lia. reflexivity.
  - destruct (unpack ch b) as [r|]; [|apply IH]. rewrite IH, length_app. cbn [length].
    replace (cap - length l)%nat with (S (cap - (length l + 1))) by lia. cbn [firstn fold_left].
    now rewrite <- app_assoc.
Qed.

(** *** One record, and a run of them *)

(** The reason a record is dropped for, its spans, and the generator and enrichers
    after it. *)
Definition one (stk : text) (clk : clock) (r : R) (c : fctx) : option (text * text) * list otlp_generic_span_t * fctx :=
  match skips ch r with
  | Some why => (Some why, [], c)
  | None =>
      let '(o, (seed, e)) := fill ch stk clk r (namecap ch) c in
      match o with
      | None => (unusable ch, [], (seed, e))
      | Some s => let '(kids, seed) := children ch stk r s seed in (None, s :: kids, (seed, e))
      end
  end.

Fixpoint run (stk : text) (clk : clock) (l : list R) (c : fctx) : list (option (text * text) * list otlp_generic_span_t) * fctx :=
  match l with
  | [] => ([], c)
  | r :: l' =>
      let '(why, ss, c) := one stk clk r c in
      let '(rest, c) := run stk clk l' c in ((why, ss) :: rest, c)
  end.

Definition spans_of (rs : list (option (text * text) * list otlp_generic_span_t)) : list otlp_generic_span_t := flat_map snd rs.
Definition produced (rs : list (option (text * text) * list otlp_generic_span_t)) : Z :=
  Z.of_nat (length (filter (fun x => match snd x with [] => false | _ => true end) rs)).
Definition account_drops (m : text) (rs : list (option (text * text) * list otlp_generic_span_t)) (l : list spnl_chan_stat) : list spnl_chan_stat :=
  fold_left (fun l x => match fst x with Some (r, h) => spnl_channel_dropped (Some m) r h l | None => l end) rs l.

Abbreviation add := (fun st s => snd (otlp_batch_add p gzip network s st)).

Lemma add_spans ss : forall st, fold_left (add_span p gzip network) ss st = set_io (fold_left add ss (net_io st)) st.
Proof. induction ss as [|s ss IH]; intros st; cbn [fold_left]; [now destruct st|]. rewrite IH. reflexivity. Qed.

Lemma push_loop_run m clk l : forall st seed sent out,
  push_loop p gzip network ch m clk l st seed sent out =
  let '(rs, (seed', e)) := run (g_offcpu_stacks st) clk l (seed, enr st) in
  (mk_core (fold_left add (spans_of rs) (net_io st)) (account_drops m rs (chans st)) e (metrics st) (g_offcpu_stacks st),
   sent + Z.of_nat (length (spans_of rs)), out + produced rs).
Proof.
  induction l as [|r l IH]; intros st seed sent out; cbn [push_loop run]; [rewrite !Z.add_0_r; now destruct st|].
  unfold one. destruct (skips ch r) as [[why hint]|].
  - rewrite IH. cbn [drop_record set_chans g_offcpu_stacks enr net_io chans metrics].
    destruct (run (g_offcpu_stacks st) clk l (seed, enr st)) as [rs [seed' e]]. reflexivity.
  - destruct (fill ch (g_offcpu_stacks st) clk r (namecap ch) (seed, enr st)) as [[s|] [seed1 e1]].
    + cbn [set_enr g_offcpu_stacks]. destruct (children ch (g_offcpu_stacks st) r s seed1) as [kids seed2]. rewrite IH, add_spans.
      cbn [set_io set_enr g_offcpu_stacks enr net_io chans metrics].
      destruct (run (g_offcpu_stacks st) clk l (seed2, e1)) as [rs [seed' e]]. unfold spans_of, produced, account_drops.
      cbn [flat_map snd filter fold_left fst]. rewrite fold_left_app. cbn [fold_left length app]. rewrite length_app.
      f_equal; [f_equal; lia|lia].
    + rewrite IH. cbn [set_enr]. destruct (unusable ch) as [[why hint]|]; cbn [drop_record set_chans set_enr g_offcpu_stacks enr net_io chans metrics];
        destruct (run (g_offcpu_stacks st) clk l (seed1, e1)) as [rs [seed' e]]; reflexivity.
Qed.

(** *** The whole push *)

(** What the batch of a push is told. *)
Definition push_names (ep : text) (st : core) : names :=
  mk_names (Some ep) (deref (net_io st) (service_ref p)) (g_version (net_io st)) (lit "spinel-ebpf").

(** The channel's account after the drain and the drops, before the export is credited. *)
Definition drained_account (m : text) (l : list R) (rs : list (option (text * text) * list otlp_generic_span_t)) (cs : list spnl_chan_stat)
  : list spnl_chan_stat :=
  account_drops m rs (spnl_channel_in (Some m) (Z.of_nat (length l)) (spnl_channel_seen (Some m) cs)).

Lemma push_shape data m ep clk d st rg : rg m = Some data ->
  let l := firstn OTLP_MAX_LOGS (parsed data) in
  let '(rs, (_, e)) := run (g_offcpu_stacks st) clk l (id_seed p clk, enr st) in
  span_push p gzip network ch rg (Some m) (Some ep) clk d st =
  (finish p gzip network (Some m) (Z.of_nat (length (spans_of rs))) (produced rs)
     (mk_core (fold_left add (spans_of rs) (otlp_batch_begin p ep (service_ref p) VersionBuf (lit "spinel-ebpf") (net_io st)))
        (drained_account m l rs (chans st)) e
        (fold_left (fun m r => observe ch (realtime clk) r m) l (metrics st)) (g_offcpu_stacks st)), mk_last l (from d)).
Proof.
  intros Hr l. unfold span_push, otlp_drain. rewrite Hr. cbn [option_map]. rewrite drain_keeps. cbn [length app].
  rewrite Nat.sub_0_r. fold l. rewrite push_loop_run. cbn [begin_batch set_io set_chans set_metrics g_offcpu_stacks enr net_io chans metrics].
  destruct (run (g_offcpu_stacks st) clk l (id_seed p clk, enr st)) as [rs [seed e]]. reflexivity.
Qed.

(** The io state after the final flush, whether or not the process goes on. *)
Lemma finish_io m sent out st : net_io (core_of (finish p gzip network m sent out st)) =
  set_events (events (snd (otlp_batch_flush p gzip network (net_io st)))) (snd (otlp_batch_flush p gzip network (net_io st))).
Proof.
  unfold finish, otlp_batch_flush_final. destruct (otlp_batch_flush p gzip network (net_io st)) as [r x]. cbn [snd].
  unfold spnl_oneshot_add. cbn [Z.ltb Z.compare]. now destruct (_ && _).
Qed.

Lemma set_events_same x : set_events (events x) x = x.
Proof. now destruct x. Qed.

(** When the event limit is reached. *)
Definition limit_reached (n : Z) : bool := let k := spnl_oneshot_limit (getenv p) in (0 <? k) && (k <=? n).

Lemma finish_outcome m sent out st :
  let x := snd (otlp_batch_flush p gzip network (net_io st)) in
  finish p gzip network m sent out st =
  if limit_reached (events x) then Exit (set_io x st)
  else Ret (if 0 <? sent then last_status (batch x) else 0) (set_chans (spnl_channel_out m out (chans st)) (set_io x st)).
Proof.
  unfold finish, otlp_batch_flush_final, limit_reached. destruct (otlp_batch_flush p gzip network (net_io st)) as [r x]. cbn [snd].
  unfold spnl_oneshot_add. cbn [Z.ltb Z.compare]. destruct (_ && _); rewrite set_events_same; reflexivity.
Qed.

(** What a batch begun for a push posts when it is flushed. *)
Lemma begun_posts ss ep st : 0 <= events (net_io st) < 2 ^ 64 ->
  let x := snd (otlp_batch_flush p gzip network
                  (fold_left add ss (otlp_batch_begin p ep (service_ref p) VersionBuf (lit "spinel-ebpf") (net_io st)))) in
  exists gs new,
    concat gs = map stored ss /\ well_grouped (otlp_batch_env_max p) gs /\ sends x = sends (net_io st) ++ new /\
    (Forall (fun g => group_size p (push_names ep st) g <= 2 ^ 20) gs ->
     map (fun x => (s_to x, Reader.read_request Traces.read_span (s_body x))) new =
     map (fun g => (Some ep, Some (group_view p (push_names ep st) g))) gs) /\
    events x = u64 (events (net_io st) + Z.of_nat (length ss)) /\
    (if 0 <? Z.of_nat (length ss) then last_status (batch x) else 0) = last (answers new) 0.
Proof.
  intros He x. set (begun := otlp_batch_begin p ep (service_ref p) VersionBuf (lit "spinel-ebpf") (net_io st)) in *.
  pose proof (env_max_range p) as Hm.
  destruct (run_made p gzip network ss begun) as (new & S & Rq & _ & _ & _ & _ & _ & _ & L & Ev); auto; [cbn; lia|].
  exists (groups_from (otlp_batch_env_max p) [] (map stored ss)), new.
  split; [apply groups_concat|]. split; [apply groups_well; [apply Hm|apply Nat.le_0_l]|].
  cbn [begun otlp_batch_begin set_batch batch max spans last_status events] in Rq, L, Ev.
  split; [exact S|]. split; [|split; [exact Ev|]].
  - intros F. pose proof (requests_read p (push_names ep st) _ F) as Q. change (push_names ep st) with (names_of begun) in Q at 1.
    rewrite <- Rq, map_map in Q. exact Q.
  - fold x in L. rewrite L. destruct ss as [|s ss]; cbn [length]; [|reflexivity].
    cbn [map groups_from requests flat_map] in Rq. destruct new; [reflexivity|discriminate].
Qed.

(** C12: a push exports what it drained.  Every record that parses, up to the size of the
    buffer, is kept; the spans of the usable ones are posted in order, in groups of
    the configured size, to the endpoint, and a collector decodes exactly them; the
    records are counted in, the unusable ones are counted under their reason, and
    when the call returns, the records that gave spans are counted out and the status
    of the last request is returned.  When the event limit is reached the process
    ends with everything sent, but the export is missing from the balance. *)
Theorem push_exports_drained data m ep clk d st rg : rg m = Some data -> 0 <= events (net_io st) < 2 ^ 64 ->
  let l := firstn OTLP_MAX_LOGS (parsed data) in
  let rs := fst (run (g_offcpu_stacks st) clk l (id_seed p clk, enr st)) in
  let o := span_push p gzip network ch rg (Some m) (Some ep) clk d st in
  recs (snd o) = l /\
  exists gs new,
    concat gs = map stored (spans_of rs) /\ well_grouped (otlp_batch_env_max p) gs /\
    sends (net_io (core_of (fst o))) = sends (net_io st) ++ new /\
    (Forall (fun g => group_size p (push_names ep st) g <= 2 ^ 20) gs ->
     map (fun x => (s_to x, Reader.read_request Traces.read_span (s_body x))) new =
     map (fun g => (Some ep, Some (group_view p (push_names ep st) g))) gs) /\
    match fst o with
    | Ret rc st' =>
        rc = last (answers new) 0 /\
        chans st' = spnl_channel_out (Some m) (produced rs) (drained_account m l rs (chans st))
    | Exit st' =>
        limit_reached (u64 (events (net_io st) + Z.of_nat (length (spans_of rs)))) = true /\
        chans st' = drained_account m l rs (chans st)
    end.
Proof.
  intros Hr He l rs o. pose proof (push_shape data m ep clk d st rg Hr) as E. cbv zeta in E. fold l in E. subst rs o.
  destruct (run (g_offcpu_stacks st) clk l (id_seed p clk, enr st)) as [rs [seed e]]. rewrite E. cbn [fst snd recs]. clear E.
  split; [reflexivity|]. destruct (begun_posts (spans_of rs) ep st He) as (gs & new & Hc & Hw & Hs & Hd & Ev & L).
  exists gs, new. split; [exact Hc|]. split; [exact Hw|]. rewrite finish_outcome. cbn [net_io chans] in *. rewrite Ev.
  destruct (limit_reached (u64 _)) eqn:Lim; cbn [core_of set_io set_chans net_io chans]; (split; [exact Hs|]; split; [exact Hd|]); [auto|].
  split; [exact L|reflexivity].
Qed.

(** *** The explicit form *)

(** [on_emit :<channel> do |ev| send_otlp(to_span(ev), ep) end]: one call of the handler. *)
Definition consume (clks : nat -> clock) (ep : text) (d : last_drain R) (x : typed * core) (i : nat) : typed * core :=
  let '(t, st) := x in
  let '(h, t, st) := rec_to_span p ch (clks i) d (Z.of_nat i) t st in
  let '(_, t, st) := spnl_otlp_span_send p gzip network h (Some ep) t st in (t, st).

(** A drain cycle: the drain, the handler for every record, the flush.  The clocks are
    read anew for every record: [clks i] is what the handler of record [i] reads. *)
Definition cycle (rg : rings) (m ep : text) (clk : clock) (clks : nat -> clock) (d : last_drain R) (t : typed) (st : core) : result * typed :=
  let '(n, d, st) := rec_drain ch rg (Some m) clk d st in
  let '(t, st) := fold_left (consume clks ep d) (seq 0 (Z.to_nat n)) (t, st) in
  spnl_otlp_span_flush p gzip network t st.

(** The one-call push with its id generator starting at [seed]. *)
Definition push_from (seed : Z) (rg : rings) (m ep : text) (clk : clock) (d : last_drain R) (st : core) : result * last_drain R :=
  match otlp_drain ch rg m clk (metrics st) with
  | None => (Ret (-1) st, mk_last [] (from d))
  | Some (l, ms) =>
      let st := set_metrics ms st in
      let st := set_chans (spnl_channel_in (Some m) (Z.of_nat (length l)) (spnl_channel_seen (Some m) (chans st))) st in
      let '(st, sent, out) := push_loop p gzip network ch m clk l (begin_batch p ep st) seed 0 0 in
      (finish p gzip network (Some m) sent out st, mk_last l (from d))
  end.

Lemma span_push_from rg m ep clk d st :
  span_push p gzip network ch rg (Some m) (Some ep) clk d st = push_from (id_seed p clk) rg m ep clk d st.
Proof. reflexivity. Qed.

Lemma push_from_shape seed data m ep clk d st rg : rg m = Some data ->
  let l := firstn OTLP_MAX_LOGS (parsed data) in
  let '(rs, (_, e)) := run (g_offcpu_stacks st) clk l (seed, enr st) in
  push_from seed rg m ep clk d st =
  (finish p gzip network (Some m) (Z.of_nat (length (spans_of rs))) (produced rs)
     (mk_core (fold_left add (spans_of rs) (otlp_batch_begin p ep (service_ref p) VersionBuf (lit "spinel-ebpf") (net_io st)))
        (drained_account m l rs (chans st)) e
        (fold_left (fun m r => observe ch (realtime clk) r m) l (metrics st)) (g_offcpu_stacks st)), mk_last l (from d)).
Proof.
  intros Hr l. unfold push_from, otlp_drain. rewrite Hr. cbn [option_map]. rewrite drain_keeps. cbn [length app].
  rewrite Nat.sub_0_r. fold l. rewrite push_loop_run. cbn [begin_batch set_io set_chans set_metrics g_offcpu_stacks enr net_io chans metrics].
  destruct (run (g_offcpu_stacks st) clk l (seed, enr st)) as [rs [seed' e]]. reflexivity.
Qed.

(** The push treats a record as the explicit form does: no children, the name fits
    both buffers, a record it skips would give no span anyway, and of the clocks only
    the distance between them counts. *)
Definition plain (stk : text) (clk : clock) (r : R) : Prop :=
  (forall s seed, children ch stk r s seed = ([], seed)) /\
  (forall c, fill ch stk clk r (namecap ch) c = fill ch stk clk r 160 c) /\
  (skips ch r <> None -> forall c, fill ch stk clk r 160 c = (None, c)) /\
  (forall clk' c, otlp_ktime_to_unix_off clk' = otlp_ktime_to_unix_off clk -> fill ch stk clk' r 160 c = fill ch stk clk r 160 c).

(** The generator does not pass through 0, the value that marks it as unset. *)
Fixpoint seeded (stk : text) (clk : clock) (l : list R) (c : fctx) : Prop :=
  match l with
  | [] => True
  | r :: l' => let c := snd (one stk clk r c) in fst c <> 0 /\ seeded stk clk l' c
  end.

Definition current (clk : clock) (t : typed) : Z := if g_ev_seed t =? 0 then id_seed p clk else g_ev_seed t.
Definition slots_ok (t : typed) : Prop := length (g_ev_span t) = OTLP_EV_SPAN_SLOTS /\ (g_ev_slot t < OTLP_EV_SPAN_SLOTS)%nat.

(** The batch as the next span finds it. *)
Definition opened (ep : text) (t : typed) (st : core) : io :=
  if g_ev_batch_open t then net_io st else otlp_batch_begin p ep (service_ref p) VersionBuf (lit "spinel-ebpf") (net_io st).

Lemma consume_step clk clks ep d i t st r : nth_error (recs d) i = Some r -> ep <> [] -> slots_ok t -> plain (g_offcpu_stacks st) clk r ->
  otlp_ktime_to_unix_off (clks i) = otlp_ktime_to_unix_off clk ->
  let '(_, ss, (seed, e)) := one (g_offcpu_stacks st) clk r (current (clks i) t, enr st) in
  exists t', slots_ok t' /\ g_ev_seed t' = seed /\
    consume clks ep d (t, st) i =
    (t', match ss with
         | [] => set_enr e st
         | _ => mk_core (fold_left add ss (opened ep t st)) (spnl_channel_out (from d) 1 (chans st)) e (metrics st) (g_offcpu_stacks st)
         end) /\
    g_ev_batch_open t' = match ss with [] => g_ev_batch_open t | _ => true end.
Proof.
  intros Hr Hep [Hs1 Hs2] (P1 & P2 & P3 & P4) Hc. unfold one, consume, rec_to_span, rec_at. rewrite Nat2Z.id, Hr.
  destruct (Z.leb_spec 0 (Z.of_nat i)); [|lia]. fold (current (clks i) t). rewrite (P4 (clks i) _ Hc). set (now := current (clks i) t).
  assert (Hn : ((g_ev_slot t + 1) mod OTLP_EV_SPAN_SLOTS < OTLP_EV_SPAN_SLOTS)%nat) by (apply Nat.mod_upper_bound; discriminate).
  assert (Z0 : forall t st, spnl_otlp_span_send p gzip network 0 (Some ep) t st = (0, t, st)) by (intros; now destruct ep).
  destruct (skips ch r) as [why|].
  - rewrite (P3 ltac:(discriminate)). rewrite Z0.
    exists (mk_typed (g_ev_span t) ((g_ev_slot t + 1) mod OTLP_EV_SPAN_SLOTS) (now) (g_ev_batch_open t) (g_ev_sent t)).
    split; [split; [exact Hs1|exact Hn]|]. repeat split.
  - rewrite P2. destruct (fill ch (g_offcpu_stacks st) clk r 160 (now, enr st)) as [[s|] [seed e]].
    + rewrite P1. unfold spnl_otlp_span_send. destruct ep as [|c ep']; [contradiction|].
      assert (B : (Z.of_nat (g_ev_slot t) + 1 <=? 0) || (Z.of_nat OTLP_EV_SPAN_SLOTS <? Z.of_nat (g_ev_slot t) + 1) = false).
      { unfold OTLP_EV_SPAN_SLOTS in *. apply orb_false_iff. split; [apply Z.leb_gt|apply Z.ltb_ge]; lia. }
      rewrite B. cbn [g_ev_batch_open g_ev_sent g_ev_span g_ev_slot g_ev_seed].
      replace (Z.to_nat (Z.of_nat (g_ev_slot t) + 1 - 1)) with (g_ev_slot t) by lia. rewrite nth_upd_eq by lia.
      exists (mk_typed (upd (g_ev_span t) (g_ev_slot t) (s, from d)) ((g_ev_slot t + 1) mod OTLP_EV_SPAN_SLOTS) seed true
                ((if g_ev_batch_open t then g_ev_sent t else 0) + 1)).
      split; [split; [cbn [g_ev_span]; now rewrite length_upd|exact Hn]|]. unfold opened. now destruct (g_ev_batch_open t).
    + rewrite Z0. exists (mk_typed (g_ev_span t) ((g_ev_slot t + 1) mod OTLP_EV_SPAN_SLOTS) seed (g_ev_batch_open t) (g_ev_sent t)).
      split; [split; [exact Hs1|exact Hn]|]. repeat split.
Qed.

Lemma one_plain stk clk r c : plain stk clk r -> (length (snd (fst (one stk clk r c))) <= 1)%nat.
Proof.
  intros (P1 & _). unfold one. destruct (skips ch r); [cbn; lia|]. destruct (fill ch stk clk r (namecap ch) c) as [[s|] [seed e]]; [|cbn; lia].
  rewrite P1. cbn. lia.
Qed.

Definition credited (d : last_drain R) (n : nat) (cs : list spnl_chan_stat) : list spnl_chan_stat := Nat.iter n (spnl_channel_out (from d) 1) cs.

Lemma consume_all clk clks ep d stk l : ep <> [] -> (forall i, otlp_ktime_to_unix_off (clks i) = otlp_ktime_to_unix_off clk) ->
  Forall (plain stk clk) l -> forall k t st,
  (forall j r, nth_error l j = Some r -> nth_error (recs d) (k + j) = Some r) -> g_offcpu_stacks st = stk -> slots_ok t ->
  seeded stk clk l (current (clks k) t, enr st) ->
  let '(rs, (seed, e)) := run stk clk l (current (clks k) t, enr st) in
  exists t', slots_ok t' /\
    fold_left (consume clks ep d) (seq k (length l)) (t, st) =
    (t', mk_core (match spans_of rs with [] => net_io st | ss => fold_left add ss (opened ep t st) end)
           (credited d (length (spans_of rs)) (chans st)) e (metrics st) stk) /\
    g_ev_batch_open t' = match spans_of rs with [] => g_ev_batch_open t | _ => true end.
Proof.
  intros Hep Hc. induction 1 as [|r l Hp _ IH]; intros k t st Hn Hk Hs Hz; cbn [run length seq fold_left].
  { exists t. split; [exact Hs|]. split; [|reflexivity]. cbn. destruct st; cbn in *. now subst. }
  cbn [seeded] in Hz. pose proof (one_plain stk clk r (current (clks k) t, enr st) Hp) as H1.
  pose proof (consume_step clk clks ep d k t st r) as C. rewrite Hk in C. specialize (C ltac:(specialize (Hn O r eq_refl); now rewrite Nat.add_0_r in Hn) Hep Hs Hp (Hc k)).
  destruct (one stk clk r (current (clks k) t, enr st)) as [[why ss] [seed1 e1]]. cbn [fst snd] in *. destruct Hz as [Hz1 Hz2].
  destruct C as (t1 & S1 & E1 & C1 & O1). rewrite C1.
  assert (Q1 : current (clks (S k)) t1 = seed1) by (unfold current; rewrite E1; destruct (Z.eqb_spec seed1 0); [contradiction|reflexivity]).
  assert (N1 : forall j r', nth_error l j = Some r' -> nth_error (recs d) (S k + j) = Some r')
    by (intros j r' Hj; specialize (Hn (S j) r' Hj); now rewrite Nat.add_succ_r in Hn).
  destruct ss as [|s [|]]; [| |cbn in H1; lia].
  - specialize (IH (S k) t1 (set_enr e1 st) N1 Hk S1). rewrite Q1 in IH. cbn [set_enr enr] in IH. specialize (IH Hz2).
    destruct (run stk clk l (seed1, e1)) as [rs [seed e]]. destruct IH as (t' & S' & C' & O'). exists t'. split; [exact S'|].
    rewrite C'. unfold spans_of. cbn [flat_map snd app]. fold (spans_of rs). rewrite O1 in O'. unfold opened. rewrite O1. split; [reflexivity|exact O'].
  - set (st1 := mk_core _ _ _ _ _). specialize (IH (S k) t1 st1 N1 eq_refl S1). rewrite Q1 in IH. cbn [st1 enr] in IH. specialize (IH Hz2).
    destruct (run stk clk l (seed1, e1)) as [rs [seed e]]. destruct IH as (t' & S' & C' & O'). exists t'. split; [exact S'|].
    rewrite C'. unfold spans_of. cbn [flat_map snd app]. fold (spans_of rs). rewrite O1 in O'. unfold opened at 1. rewrite O1.
    cbn [st1 net_io chans metrics length]. split.
    + f_equal. f_equal; [now destruct (spans_of rs)|]. unfold credited. cbn [Nat.iter]. now rewrite Nat.iter_swap.
    + rewrite O'. now destruct (spans_of rs).
Qed.

(** Crediting one record at a time is crediting them together. *)
Lemma chan_find_same f i cs m : (forall s, c_name (f s) = c_name s) -> chan_find m (at_slot i f cs) = chan_find m cs.
Proof.
  intros Hf. destruct i as [i|]; cbn [at_slot]; [|reflexivity]. revert i.
  induction cs as [|s cs IH]; intros [|i]; cbn [nth_error upd chan_find]; try reflexivity; [now rewrite Hf|].
  specialize (IH i). destruct (nth_error cs i); [|reflexivity]. cbn [chan_find]. now rewrite IH.
Qed.

Lemma out_together m n cs : Nat.iter n (spnl_channel_out (Some m) 1) cs = spnl_channel_out (Some m) (Z.of_nat n) cs.
Proof.
  induction n as [|n IH]; [reflexivity|]. cbn [Nat.iter nat_rect]. fold (Nat.iter n (spnl_channel_out (Some m) 1) cs). rewrite IH. clear IH.
  unfold spnl_channel_out. cbn [Z.ltb Z.compare]. destruct (Z.ltb_spec 0 (Z.of_nat (S n))); [|lia].
  destruct (Z.ltb_spec 0 (Z.of_nat n)) as [Hn|Hn].
  2: { now replace n with O by lia. }
  rewrite chan_find_same by reflexivity. destruct (chan_find m cs) as [i|]; [|reflexivity]. cbn [at_slot].
  destruct (nth_error cs i) as [s|] eqn:E; [|now rewrite E].
  rewrite nth_error_upd_eq by (apply nth_error_Some; congruence). rewrite upd_upd. unfold add_out. cbn [c_name c_in c_out drops Channels.Balance.drained].
  rewrite wrap_add_l. replace (c_out s + Z.of_nat n + 1) with (c_out s + Z.of_nat (S n)) by lia. reflexivity.
Qed.

(** The explicit form of a channel exports what its push exports, when no batch is
    open (every flush closes it) and the clocks stay at the same distance.  The
    generator of the typed consumers is seeded by the first record ever and goes on
    from cycle to cycle, so the push to compare with is the one whose generator starts
    there: in the first cycle, in the same second, the one-call push itself. *)
Definition same_export (ok : R -> Prop) : Prop := forall data (m ep : text) clk clks d t st (rg : rings),
  rg m = Some data -> ep <> [] -> slots_ok t -> g_ev_batch_open t = false ->
  (forall i, otlp_ktime_to_unix_off (clks i) = otlp_ktime_to_unix_off clk) ->
  let l := firstn OTLP_MAX_LOGS (parsed data) in
  let seed := current (clks O) t in
  let c := (seed, enr st) in
  let ss := spans_of (fst (run (g_offcpu_stacks st) clk l c)) in
  Forall ok l -> seeded (g_offcpu_stacks st) clk l c -> ss <> [] ->
  let pushed := fst (push_from seed rg m ep clk d st) in
  let explicit := fst (cycle rg m ep clk clks d t st) in
  net_io (core_of explicit) = net_io (core_of pushed) /\
  (match explicit, pushed with Ret _ _, Ret _ _ | Exit _, Exit _ => True | _, _ => False end) /\
  chans (core_of explicit) = spnl_channel_out (Some m) (Z.of_nat (length ss))
                               (spnl_channel_in (Some m) (Z.of_nat (length l)) (spnl_channel_seen (Some m) (chans st))) /\
  (g_ev_seed t = 0 -> unix_s (clks O) = unix_s clk ->
   push_from seed rg m ep clk d st = span_push p gzip network ch rg (Some m) (Some ep) clk d st).

Lemma plain_same_export (ok : R -> Prop) : (forall stk clk r, ok r -> plain stk clk r) -> same_export ok.
Proof.
  intros Hp data m ep clk clks d t st rg Hr Hep Hs Ho Hc l seed0 c ss Hl Hz Hne pushed explicit.
  pose proof (push_from_shape seed0 data m ep clk d st rg Hr) as E. cbv zeta in E. fold l in E. fold c in E.
  assert (Own : g_ev_seed t = 0 -> unix_s (clks O) = unix_s clk ->
    push_from seed0 rg m ep clk d st = span_push p gzip network ch rg (Some m) (Some ep) clk d st).
  { intros H0 Hu. rewrite span_push_from. unfold seed0, current. rewrite H0. cbn [Z.eqb]. unfold id_seed. now rewrite Hu. }
  unfold explicit, pushed, cycle, rec_drain, otlp_drain. rewrite Hr. cbn [option_map]. rewrite drain_keeps. cbn [length app]. rewrite Nat.sub_0_r. fold l.
  set (st1 := set_chans _ _). rewrite Nat2Z.id. pose proof (consume_all clk clks ep (mk_last l (Some m)) (g_offcpu_stacks st) l Hep Hc) as C.
  specialize (C (Forall_impl _ (Hp (g_offcpu_stacks st) clk) Hl) O t st1 (fun j r H => H) eq_refl Hs Hz).
  change (current (clks O) t, enr st1) with c in C. clearbody seed0.
  unfold ss in *. clear ss. destruct (run (g_offcpu_stacks st) clk l c) as [rs [seed e]]. cbn [fst] in *. destruct C as (t' & S' & C' & O').
  revert Own. rewrite C', E. cbn [fst]. rewrite finish_outcome. cbn [net_io chans].
  unfold spnl_otlp_span_flush. rewrite O'. destruct (spans_of rs) as [|x xs] eqn:Es; [contradiction|]. rewrite <- Es in *. cbn [negb].
  unfold opened. rewrite Ho. cbn [net_io]. change (net_io st1) with (net_io st).
  unfold otlp_batch_flush_final. destruct (otlp_batch_flush p gzip network _) as [r x']. cbn [snd]. unfold spnl_oneshot_add, limit_reached.
  cbn [Z.ltb Z.compare]. rewrite set_events_same. unfold credited. cbn [from].
  destruct (_ && _); intros Own; cbn [fst core_of set_io set_chans net_io chans]; (split; [reflexivity|]; split; [exact I|]; split; [|exact Own]); apply out_together.
Qed.

End Run.

(** ** The four channels whose push builds one span per record *)

Section Four.
Import NameCaps Contract.
Variable p : process.
Variable gzip : list Z -> option (list Z).
Variable network : nat -> Post.net * list Z.
Context `{FS : K8s.FileSystem}.
Variable fopen : text -> option text.
Variable stat_dir : text -> bool.
Variable getnameinfo : text -> option text.

Definition l7_ok (r : spnl_rec_l7_t) : Prop := octets (l7_daddr r) /\ 0 <= l7_dport r < 2 ^ 16.
Definition http_ok (r : spnl_rec_http_t) : Prop := (length (ht_req r) <= 64)%nat.
(** A send whose bytes could not be read left none. *)
Definition dns_ok (r : spnl_rec_dns_t) : Prop := dn_raw_status r <> 0 -> spnl_dns_qname (dn_raw r) 256 = [].

Ltac same_clock := intros clk' c E; cbn [fill conn_channel dns_channel l7_channel http_channel]; now rewrite E.

Lemma conn_plain stk clk r : conn_ok r -> plain (conn_channel p fopen stat_dir getnameinfo) stk clk r.
Proof.
  intros H. split; [reflexivity|]. split; [|split; [intros X; now cbn in X|same_clock]]. intros [seed es]. cbn [fill conn_channel namecap]. unfold conn_fill_span.
  pose proof (conn_peer_len r H). destruct H as (_ & _ & _ & H). pose proof (port_len _ H).
  rewrite (trunc_either 128 160); [reflexivity| |]; rewrite !length_app; cbn [length lit list_ascii_of_string]; lia.
Qed.

Lemma peer4_len f b : octets b -> (length (peer4 f b) <= 18)%nat.
Proof. intros H. unfold peer4. case_if; [cbn; lia|]. pose proof (inet_ntop4_len b H). lia. Qed.

Lemma l7_plain stk clk r : l7_ok r -> plain (l7_channel p fopen stat_dir getnameinfo) stk clk r.
Proof.
  intros [H4 H]. split; [reflexivity|]. split; [|split; [intros X; now cbn in X|same_clock]]. intros [seed es]. cbn [fill l7_channel namecap]. unfold l7_fill_span.
  pose proof (peer4_len (l7_family r) _ H4). pose proof (port_len _ H).
  rewrite (trunc_either 128 160); [reflexivity| |]; rewrite !length_app; cbn [length lit list_ascii_of_string]; lia.
Qed.

Lemma http_plain stk clk r : http_ok r -> plain (http_channel p fopen stat_dir getnameinfo) stk clk r.
Proof.
  intros H. split; [reflexivity|]. split; [|split; [intros X; now cbn in X|same_clock]]. intros [seed es]. cbn [fill http_channel namecap]. unfold http_fill_span.
  pose proof (http_name_len (ht_req r) H). rewrite (trunc_either 96 160); [reflexivity| |]; lia.
Qed.

Lemma dns_plain stk clk r : dns_ok r -> plain (dns_channel p fopen stat_dir getnameinfo) stk clk r.
Proof.
  intros H. split; [reflexivity|]. split; [reflexivity|]. split; [|same_clock]. intros X [seed es]. cbn [fill dns_channel skips] in *. unfold dns_fill_span.
  rewrite H; [reflexivity|]. intros E. rewrite E in X. now cbn in X.
Qed.

(** C22: writing the consumer out changes nothing that is sent but the identifiers it
    starts from.  For connections, DNS queries, requests and HTTP requests, when some
    record gives a span: with no batch open at the start and clocks that keep their
    distance while the records are handled, draining, turning every record into its
    span, sending it and flushing makes the same requests with the same bytes as the
    one-call push whose id generator starts where that of the consumers stands, leaves
    the same batch and event count and ends the process in the same cases; in the
    first cycle, within the same second, this is the one-call push itself.  The
    explicit form credits the channel with every span, also when the process ends.
    Addresses and ports are those of their fields, and the generator does not pass
    through 0, which marks it as unset. *)
Theorem explicit_form_sends_same :
  same_export p gzip network (conn_channel p fopen stat_dir getnameinfo) conn_ok /\
  same_export p gzip network (dns_channel p fopen stat_dir getnameinfo) dns_ok /\
  same_export p gzip network (l7_channel p fopen stat_dir getnameinfo) l7_ok /\
  same_export p gzip network (http_channel p fopen stat_dir getnameinfo) http_ok.
Proof.
  repeat match goal with |- _ /\ _ => split end; apply plain_same_export; auto using conn_plain, dns_plain, l7_plain, http_plain.
Qed.

End Four.
(** *** A cycle on a concrete ring *)

#[local] Instance no_fs : K8s.FileSystem := {| K8s.readdir := fun _ => None; K8s.dir_inode := fun _ => None |}.

Definition some_process : process := mk_process (fun _ => None) (Some (lit "host")) 7.
Definition some_clock : clock := mk_clock 5000 1000 77.
Definition some_core : core := mk_core io0 [] Enrich.estate0 Recmetric.initial [].
(** A request record of [curl] to 10.0.0.5:443, and one that is cut short. *)
Definition some_ring : rings := fun m => if text_eqb m (lit "l7") then
  Some [repeat 0 16 ++ le_enc 4 7 ++ text_bytes (lit "curl") ++ repeat 0 12 ++ [10; 0; 0; 5] ++ le_enc 2 443 ++ le_enc 2 2
          ++ repeat 0 4 ++ le_enc 8 1000 ++ le_enc 8 50 ++ le_enc 8 0; [1; 2; 3]] else None.
Definition some_l7 := l7_channel some_process (fun _ => None) (fun _ => false) (fun _ => None).

Definition sample_sent : otlp_generic_span_t :=
  Eval vm_compute in hd span0 (map stored (spans_of (fst (run some_l7 [] some_clock
    (parsed some_l7 (match some_ring (lit "l7") with Some d => d | None => [] end)) (id_seed some_process some_clock, Enrich.estate0))))).

Lemma one_group {A} n (a : A) gs : concat gs = [a] -> well_grouped n gs -> gs = [[a]].
Proof.
  intros C [F _]. destruct gs as [|g1 gs]; [discriminate|]. pose proof (Forall_inv F) as F1. cbn [concat] in C.
  destruct g1 as [|x g1]; [cbn in F1; lia|]. cbn in C. injection C as -> C. apply app_eq_nil in C as [-> C].
  destruct gs as [|g2 gs]; [reflexivity|]. pose proof (Forall_inv (Forall_inv_tail F)) as F2. cbn [concat] in C.
  apply app_eq_nil in C as [-> _]. cbn in F2. lia.
Qed.

Lemma push_exports_drained_witness :
  exists st', fst (span_push some_process (fun _ => None) answering some_l7 some_ring (Some (lit "l7")) (Some (lit "http://c:4318")) some_clock
                     (mk_last [] None) some_core) = Ret 200 st' /\
    chans st' = [mk_chan (lit "l7") 1 1 [] true] /\
    map (fun x => option_map (map (fun g => map (fun s => map Traces.v_name (snd s)) (snd g)))
                    (Reader.read_request Traces.read_span (s_body x))) (sends (net_io st')) = [Some [[[text_bytes (lit "request 10.0.0.5:443")]]]].
Proof.
  pose proof (push_exports_drained some_process (fun _ => None) answering some_l7
    (match some_ring (lit "l7") with Some d => d | None => [] end) (lit "l7") (lit "http://c:4318") some_clock (mk_last [] None) some_core some_ring
    eq_refl ltac:(cbn; lia)) as H.
  cbv zeta in H. destruct H as (_ & gs & new & C & W & S & R & B).
  assert (G : gs = [[sample_sent]]) by (apply one_group with (n := otlp_batch_env_max some_process); [rewrite C; vm_compute; reflexivity|exact W]).
  subst gs. specialize (R ltac:(repeat constructor; vm_compute; discriminate)).
  destruct (fst (span_push _ _ _ _ _ _ _ _ _ _)) as [rc st'|st'] eqn:O; [|destruct B as [B _]; vm_compute in B; discriminate].
  destruct B as [Br Bc]. exists st'. split; [|split].
  - f_equal. clear - O. vm_compute in O. now injection O as <- _.
  - rewrite Bc. vm_compute. reflexivity.
  - cbn [core_of] in S. rewrite S. cbn [some_core net_io io0 sends app].
    apply (f_equal (map snd)) in R. rewrite !map_map in R. cbn [snd] in R.
    rewrite <- (map_map (fun x => Reader.read_request Traces.read_span (s_body x))
      (option_map (map (fun g => map (fun s => map Traces.v_name (snd s)) (snd g))))), R. vm_compute. reflexivity.
Defined.

Lemma explicit_form_sends_same_witness :
  let later := fun _ => mk_clock 9000 5000 77 in
  let explicit := fst (cycle some_process (fun _ => None) answering some_l7 some_ring (lit "l7") (lit "http://c:4318") some_clock later
                         (mk_last [] None) typed0 some_core) in
  let pushed := fst (span_push some_process (fun _ => None) answering some_l7 some_ring (Some (lit "l7")) (Some (lit "http://c:4318")) some_clock
                       (mk_last [] None) some_core) in
  net_io (core_of explicit) = net_io (core_of pushed) /\
  length (sends (net_io (core_of explicit))) = 1%nat /\ chans (core_of explicit) = [mk_chan (lit "l7") 1 1 [] true].
Proof.
  intros later explicit pushed.
  destruct (explicit_form_sends_same some_process (fun _ => None) answering (fun _ => None) (fun _ => false) (fun _ => None)) as (_ & _ & E & _).
  fold some_l7 in E. specialize (E (match some_ring (lit "l7") with Some d => d | None => [] end) (lit "l7") (lit "http://c:4318") some_clock later
    (mk_last [] None) typed0 some_core some_ring eq_refl).
  destruct E as (Io & _ & Cs & Own);
    [discriminate|split; [reflexivity|apply Nat.lt_0_succ]|reflexivity|reflexivity| | | | ].
  - vm_compute. repeat constructor; discriminate.
  - vm_compute. split; [discriminate|exact I].
  - vm_compute. discriminate.
  - fold explicit in Io, Cs. rewrite (Own eq_refl eq_refl) in Io. fold pushed in Io. rewrite Io, Cs.
    split; [reflexivity|]. split; vm_compute; reflexivity.
Defined.

End Push.
