(* ===== verification/RequestTree.v ===== *)
(** * The request tree ([spnl_otlp_request_tree_push_obj] of [src/runtime/otlp/otlp_agent.c])

    One push drains the request windows and the DNS and connection records, nests under
    every window the records of its thread group that fall inside it, sends what has
    waited too long on its own, and carries the rest over to the next push.
    - [Tree]: the push and its pending buffers;
    - [Conserve]: every child record goes to exactly one place, and what is sent. *)

From Stdlib Require Import Permutation.
From S2P Require Import Prelude Bytes CText PbEncode Channels OtlpMetrics OtlpTraces OtlpTransport OtlpGrpc OtlpEnrich AgentRecords OtlpPb OtlpBatch AgentSpans OtlpAgent.
Import Ids Rec Derive Stack Fill Balance HttpRecord Rules.
Local Open Scope string_scope.
Local Open Scope list_scope.
Local Open Scope Z_scope.

Module Tree.
Import Batch Agent.

(** [g_pend_dns] and [g_pend_conn]. *)
Record pending := mk_pending { g_pend_dns : list spnl_rec_dns_t; g_pend_conn : list spnl_rec_conn_t }.

(** New children are carried over while there is room. *)
Definition carry {R} (pend new : list R) : list R := pend ++ firstn (OTLP_MAX_LOGS - length pend) new.

(** The loop over a pending buffer with its [used] flags: the records inside the window
    become children of [parent]. *)
Fixpoint adopt {R} (inside : R -> bool) (fill : R -> otlp_generic_span_t -> option otlp_generic_span_t) (parent : otlp_generic_span_t)
  (l : list (R * bool)) (seed : Z) : list (R * bool) * list otlp_generic_span_t * Z :=
  match l with
  | [] => ([], [], seed)
  | (r, used) :: l' =>
      if used || negb (inside r) then
        let '(l', ss, seed) := adopt inside fill parent l' seed in ((r, used) :: l', ss, seed)
      else
        let '(ch, seed) := otlp_span_new_child span0 parent seed in
        let '(l', ss, seed) := adopt inside fill parent l' seed in
        ((r, true) :: l', (match fill r ch with Some s => [s] | None => [] end) ++ ss, seed)
  end.

(** The sweep: matched records go, expired ones become spans of their own, the rest is kept. *)
Fixpoint sweep {R} (expired : R -> bool) (fill : R -> otlp_generic_span_t -> option otlp_generic_span_t) (l : list (R * bool)) (seed : Z)
  : list R * list otlp_generic_span_t * Z :=
  match l with
  | [] => ([], [], seed)
  | (r, used) :: l' =>
      if used then sweep expired fill l' seed
      else if expired r then
        let '(s, seed) := otlp_span_new_root span0 seed in
        let '(kept, ss, seed) := sweep expired fill l' seed in
        (kept, (match fill r s with Some s => [s] | None => [] end) ++ ss, seed)
      else let '(kept, ss, seed) := sweep expired fill l' seed in (r :: kept, ss, seed)
  end.

Definition dns_inside (w : spnl_rec_offcpu_t) (d : spnl_rec_dns_t) : bool :=
  otlp_child_in_window (dn_pid d) (dn_ts d) (oc_pid w) (oc_start_ktime w) (oc_duration_ns w).
Definition conn_inside (w : spnl_rec_offcpu_t) (c : spnl_rec_conn_t) : bool :=
  otlp_child_in_window (co_pid c) (co_ts c) (oc_pid w) (oc_start_ktime w) (oc_duration_ns w).

Definition too_old (now ttl ts : Z) : bool := (ts <=? now) && (ttl <? now - ts).

Section Host.
Variable p : process.
Variable gzip : list Z -> option (list Z).
Variable network : nat -> Post.net * list Z.
Context `{FS : K8s.FileSystem}.
Variable fopen : text -> option text.
Variable stat_dir : text -> bool.
Variable getnameinfo : text -> option text.
Variable syms : list (Z * text).
Variable stack_map : text -> Z -> option (list Z).

(** [SPNL_TREE_CHILD_TTL_MS], 30 seconds by default. *)
Definition child_ttl : Z :=
  match getenv p (lit "SPNL_TREE_CHILD_TTL_MS") with
  | Some ((_ :: _) as e) => let v := Z.max (- 2 ^ 63) (Z.min (atoi e) (2 ^ 63 - 1)) in if 0 <? v then u64 (v * 1000000) else 30000 * 1000000
  | _ => 30000 * 1000000
  end.

Definition parent_attrs (r : spnl_rec_offcpu_t) : list otlp_kv_t :=
  request_attrs (spnl_http_method 65 (oc_req r)) (spnl_http_path 65 (oc_req r)) (spnl_http_status (oc_resp r)) ++
  [kv "spnl.oncpu_ns" (dec_u (u64 (spnl_recd_offcpu_oncpu_ns_val r)))] ++ comm_attr (oc_comm r).

Definition window_start (clk : clock) (r : spnl_rec_offcpu_t) : Z :=
  if oc_start_ktime r =? 0 then u64 (u64 (realtime clk) - oc_duration_ns r) else at_ktime (oc_start_ktime r) (otlp_ktime_to_unix_off clk).

(** The request span: under the caller's span when the request names one. *)
Definition tree_parent (clk : clock) (r : spnl_rec_offcpu_t) (c : fctx) : otlp_generic_span_t * fctx :=
  let '(seed, es) := c in
  let t := window_start clk r in
  let '(s, seed) := match otlp_find_traceparent (oc_hdr_ext r) 64 with
                    | Some tp => fst (otlp_span_root_from_traceparent span0 (Some tp) seed)
                    | None => otlp_span_new_root span0 seed
                    end in
  let '(l, es) := enriched (getenv p) fopen stat_dir getnameinfo Enrich.OTLP_SIGNAL_OFFCPU (oc_cgid r) None 13 (parent_attrs r) es in
  (dressed s t (u64 (t + oc_duration_ns r)) (trunc 96 (http_name (spnl_http_method 65 (oc_req r)) (spnl_http_path 65 (oc_req r))))
     2 (500 <=? spnl_http_status (oc_resp r)) l, (seed, es)).

Definition tree_wait (stk : text) (r : spnl_rec_offcpu_t) (parent : otlp_generic_span_t) (seed : Z) : list otlp_generic_span_t * Z :=
  if 0 <? u64 (spnl_recd_offcpu_offcpu_ns_val r)
  then let '(ch, seed) := wait_child (getenv p) syms (stacks_of stack_map stk) false r parent seed in ([ch], seed)
  else ([], seed).

Definition dns_child (clk : clock) (as_child : bool) (d : spnl_rec_dns_t) (s : otlp_generic_span_t) : option otlp_generic_span_t :=
  otlp_tree_fill_dns d (otlp_ktime_to_unix_off clk) as_child s 160.
Definition conn_child (clk : clock) (as_child : bool) (c : spnl_rec_conn_t) (s : otlp_generic_span_t) : option otlp_generic_span_t :=
  otlp_tree_fill_conn c (otlp_ktime_to_unix_off clk) as_child s 160.

(** The pending children with their [used] flags. *)
Record flags := mk_flags { dns_used : list (spnl_rec_dns_t * bool); conn_used : list (spnl_rec_conn_t * bool) }.

(** One window: its spans, in the order they are added to the batch. *)
Definition tree_window (stk : text) (clk : clock) (r : spnl_rec_offcpu_t) (u : flags) (c : fctx) : list otlp_generic_span_t * flags * fctx :=
  let '(parent, (seed, es)) := tree_parent clk r c in
  let '(wait, seed) := tree_wait stk r parent seed in
  let '(d, ds, seed) := adopt (dns_inside r) (dns_child clk true) parent (dns_used u) seed in
  let '(co, cs, seed) := adopt (conn_inside r) (conn_child clk true) parent (conn_used u) seed in
  (parent :: wait ++ ds ++ cs, mk_flags d co, (seed, es)).

Fixpoint tree_windows (stk : text) (clk : clock) (l : list spnl_rec_offcpu_t) (u : flags) (c : fctx) : list otlp_generic_span_t * flags * fctx :=
  match l with
  | [] => ([], u, c)
  | r :: l' =>
      let '(ss, u, c) := tree_window stk clk r u c in
      let '(ss', u, c) := tree_windows stk clk l' u c in (ss ++ ss', u, c)
  end.

Definition unused {R} (l : list R) : list (R * bool) := map (fun r => (r, false)) l.

(** All spans of a push, what stays pending, the generator and the enrichers. *)
Definition tree_spans (stk : text) (clk : clock) (windows : list spnl_rec_offcpu_t) (pd : pending) (es : Enrich.estate)
  : list otlp_generic_span_t * pending * Enrich.estate :=
  let now := u64 (monotonic clk) in
  let '(ss, u, (seed, es)) := tree_windows stk clk windows (mk_flags (unused (g_pend_dns pd)) (unused (g_pend_conn pd))) (id_seed p clk, es) in
  let '(kd, ds, seed) := sweep (fun d => too_old now child_ttl (dn_ts d)) (dns_child clk false) (dns_used u) seed in
  let '(kc, cs, seed) := sweep (fun c => too_old now child_ttl (co_ts c)) (conn_child clk false) (conn_used u) seed in
  (ss ++ ds ++ cs, mk_pending kd kc, es).

(** An optional source: no map, no records. *)
Definition drain_children {R} (ch : channel R) (rs : rings) (name : option text) (clk : clock) (m : Recmetric.state) : list R * Recmetric.state :=
  match name with
  | Some n => match otlp_drain ch rs n clk m with Some x => x | None => ([], m) end
  | None => ([], m)
  end.

Definition spnl_otlp_request_tree_push_obj (rs : rings) (offcpu_map dns_map conn_map stacks_map endpoint : option text) (clk : clock)
  (pd : pending) (st : core) : result * pending :=
  match offcpu_map, endpoint with
  | Some om, Some ep =>
      let st := offcpu_set_stack_ctx stacks_map st in
      match otlp_drain (offcpu_channel p fopen stat_dir getnameinfo syms stack_map) rs om clk (metrics st) with
      | None => (Ret (-1) st, pd)
      | Some (windows, ms) =>
          let '(ds, ms) := drain_children (dns_channel p fopen stat_dir getnameinfo) rs dns_map clk ms in
          let '(cs, ms) := drain_children (conn_channel p fopen stat_dir getnameinfo) rs conn_map clk ms in
          let pd := mk_pending (carry (g_pend_dns pd) ds) (carry (g_pend_conn pd) cs) in
          let st := begin_batch p ep (set_metrics ms st) in
          let '(ss, pd, es) := tree_spans (g_offcpu_stacks st) clk windows pd (enr st) in
          let st := set_enr es (fold_left (add_span p gzip network) ss st) in
          (match otlp_batch_flush_final p gzip network (net_io st) with
           | Exits x => Exit (set_io x st)
           | Returns _ x => Ret (if 0 <? Z.of_nat (length ss) then last_status (batch x) else 0) (set_io x st)
           end, pd)
      end
  | _, _ => (Ret (-1) st, pd)
  end.

End Host.
End Tree.

Module Conserve.
Import Batch Deliver Agent Push Tree.

(** ** Where a child record goes *)

Section Places.
Context {R W : Type}.
Variable inside : W -> R -> bool.

(** The first window that contains a record takes it. *)
Definition covered (ws : list W) (r : R) : bool := existsb (fun w => inside w r) ws.
Definition takes (prev : list W) (w : W) (r : R) : bool := negb (covered prev r) && inside w r.

Fixpoint nested_in (prev ws : list W) (l : list R) : list R :=
  match ws with [] => [] | w :: ws' => filter (takes prev w) l ++ nested_in (prev ++ [w]) ws' l end.

Lemma filter_split (f g : R -> bool) l : Permutation (filter f l) (filter (fun r => f r && g r) l ++ filter (fun r => f r && negb (g r)) l).
Proof.
  induction l as [|r l IH]; [constructor|]. cbn [filter]. destruct (f r), (g r); cbn [andb negb]; auto.
  - cbn [app]. now constructor.
  - transitivity (r :: filter (fun r => f r && g r) l ++ filter (fun r => f r && negb (g r)) l); [now constructor|apply Permutation_middle].
Qed.

Lemma covered_snoc prev w r : covered (prev ++ [w]) r = covered prev r || inside w r.
Proof. unfold covered. rewrite existsb_app. cbn [existsb]. now rewrite orb_false_r. Qed.

Lemma places ws : forall prev l,
  Permutation (filter (fun r => negb (covered prev r)) l) (nested_in prev ws l ++ filter (fun r => negb (covered (prev ++ ws) r)) l).
Proof.
  induction ws as [|w ws IH]; intros prev l; cbn [nested_in]; [now rewrite app_nil_r|].
  rewrite (filter_split _ (inside w)). unfold takes at 1. rewrite <- app_assoc. apply Permutation_app_head.
  replace (prev ++ w :: ws) with ((prev ++ [w]) ++ ws) by (rewrite <- app_assoc; reflexivity). rewrite <- IH.
  erewrite filter_ext; [reflexivity|]. intros r. cbv beta. rewrite covered_snoc, negb_orb. reflexivity.
Qed.

(** Every record is nested in one window, old, or kept. *)
Lemma all_placed (old : R -> bool) ws l :
  Permutation l (nested_in [] ws l ++ filter (fun r => negb (covered ws r) && old r) l ++ filter (fun r => negb (covered ws r) && negb (old r)) l).
Proof.
  rewrite <- (filter_split (fun r => negb (covered ws r)) old). rewrite <- (places ws [] l).
  cbn [covered existsb negb]. induction l as [|r l IH]; [constructor|]. cbn [filter]. now constructor.
Qed.

End Places.

(** ** The loops *)

Definition is_child (parent s : otlp_generic_span_t) : Prop :=
  trace_id s = trace_id parent /\ parent_span_id s = span_id parent /\ has_parent s = true.

Section Loops.
Context {R : Type}.
Variable fill : R -> otlp_generic_span_t -> option otlp_generic_span_t.
Variable gives : R -> bool.
Hypothesis fill_gives : forall r s0, match fill r s0 with
  | Some s => gives r = true /\ trace_id s = trace_id s0 /\ span_id s = span_id s0 /\ parent_span_id s = parent_span_id s0 /\ has_parent s = has_parent s0
  | None => gives r = false
  end.

(** The spans of the records that give one, in order. *)
Definition built (ok : otlp_generic_span_t -> Prop) (rs : list R) (ss : list otlp_generic_span_t) : Prop :=
  Forall2 (fun r s => ok s /\ exists s0, fill r s0 = Some s) (filter gives rs) ss.

Lemma built_cons ok r rs s0 ss : (forall s, fill r s0 = Some s -> ok s) -> built ok rs ss ->
  built ok (r :: rs) ((match fill r s0 with Some s => [s] | None => [] end) ++ ss).
Proof.
  intros Ho B. unfold built in *. cbn [filter]. pose proof (fill_gives r s0) as G. destruct (fill r s0) as [s|] eqn:E.
  - destruct G as [-> _]. constructor; [|exact B]. split; [now apply Ho|now exists s0].
  - rewrite G. exact B.
Qed.

Lemma adopt_spec inside parent (used : R -> bool) l : forall seed,
  let '(l', ss, _) := adopt inside fill parent (map (fun r => (r, used r)) l) seed in
  l' = map (fun r => (r, used r || inside r)) l /\ built (is_child parent) (filter (fun r => negb (used r) && inside r) l) ss.
Proof.
  induction l as [|r l IH]; intros seed; cbn [map adopt filter]; [split; [reflexivity|constructor]|].
  destruct (used r) eqn:U; cbn [orb negb andb].
  - specialize (IH seed). destruct (adopt _ _ _ _ seed) as [[l' ss] s']. destruct IH as [-> B]. auto.
  - destruct (inside r) eqn:I; cbn [negb].
    + destruct (otlp_span_new_child span0 parent seed) as [ch s1] eqn:C. specialize (IH s1).
      destruct (adopt _ _ _ _ s1) as [[l' ss] s']. destruct IH as [-> B]. split; [reflexivity|]. apply built_cons; [|exact B].
      intros s E. pose proof (fill_gives r ch) as G. rewrite E in G. destruct G as (_ & G1 & _ & G2 & G3).
      unfold otlp_span_new_child in C. destruct (splitmix64 seed) as [a s2]. injection C as <- _.
      unfold is_child. now rewrite G1, G2, G3.
    + specialize (IH seed). destruct (adopt _ _ _ _ seed) as [[l' ss] s']. destruct IH as [-> B]. auto.
Qed.

Lemma sweep_spec expired (used : R -> bool) l : forall seed,
  let '(kept, ss, _) := sweep expired fill (map (fun r => (r, used r)) l) seed in
  kept = filter (fun r => negb (used r) && negb (expired r)) l /\
  built (fun s => has_parent s = false) (filter (fun r => negb (used r) && expired r) l) ss.
Proof.
  induction l as [|r l IH]; intros seed; cbn [map sweep filter]; [split; [reflexivity|constructor]|].
  destruct (used r) eqn:U; cbn [negb andb]; [apply IH|]. destruct (expired r) eqn:X; cbn [negb].
  - destruct (otlp_span_new_root span0 seed) as [s0 s1] eqn:C. specialize (IH s1). destruct (sweep _ _ _ s1) as [[kept ss] s'].
    destruct IH as [-> B]. split; [reflexivity|]. apply built_cons; [|exact B]. intros s E. pose proof (fill_gives r s0) as G. rewrite E in G.
    destruct G as (_ & _ & _ & _ & ->). unfold otlp_span_new_root in C. destruct (splitmix64 seed) as [a s2], (splitmix64 s2) as [b s3], (splitmix64 s3) as [c s4].
    now injection C as <- _.
  - specialize (IH seed). destruct (sweep _ _ _ seed) as [[kept ss] s']. destruct IH as [-> B]. auto.
Qed.

End Loops.

(** ** The trees *)

Definition dns_gives (d : spnl_rec_dns_t) : bool := nonempty_text (spnl_dns_qname (dn_raw d) 256).
Definition conn_gives (_ : spnl_rec_conn_t) : bool := true.

Lemma dns_fill_gives clk b r s0 : match dns_child clk b r s0 with
  | Some s => dns_gives r = true /\ trace_id s = trace_id s0 /\ span_id s = span_id s0 /\ parent_span_id s = parent_span_id s0 /\ has_parent s = has_parent s0
  | None => dns_gives r = false
  end.
Proof. unfold dns_child, otlp_tree_fill_dns, dns_gives. destruct (spnl_dns_qname (dn_raw r) 256); [reflexivity|]. cbn. auto. Qed.

Lemma conn_fill_gives clk b r s0 : match conn_child clk b r s0 with
  | Some s => conn_gives r = true /\ trace_id s = trace_id s0 /\ span_id s = span_id s0 /\ parent_span_id s = parent_span_id s0 /\ has_parent s = has_parent s0
  | None => conn_gives r = false
  end.
Proof. cbn. auto. Qed.

Section Host.
Variable p : process.
Variable gzip : list Z -> option (list Z).
Variable network : nat -> Post.net * list Z.
Context `{FS : K8s.FileSystem}.
Variable fopen : text -> option text.
Variable stat_dir : text -> bool.
Variable getnameinfo : text -> option text.
Variable syms : list (Z * text).
Variable stack_map : text -> Z -> option (list Z).

(** One tree per window, in order: the request span over the window, the wait, and the
    children the window takes. *)
Fixpoint forest (clk : clock) (prev ws : list spnl_rec_offcpu_t) (P : list spnl_rec_dns_t) (C : list spnl_rec_conn_t) (ss : list otlp_generic_span_t) : Prop :=
  match ws with
  | [] => ss = []
  | w :: ws' => exists parent wait ds cs rest,
      ss = parent :: wait ++ ds ++ cs ++ rest /\
      start_unix_ns parent = window_start clk w /\ end_unix_ns parent = u64 (window_start clk w + oc_duration_ns w) /\
      Forall (is_child parent) wait /\
      built (dns_child clk true) dns_gives (is_child parent) (filter (takes dns_inside prev w) P) ds /\
      built (conn_child clk true) conn_gives (is_child parent) (filter (takes conn_inside prev w) C) cs /\
      forest clk (prev ++ [w]) ws' P C rest
  end.

Definition flagged (prev : list spnl_rec_offcpu_t) (P : list spnl_rec_dns_t) (C : list spnl_rec_conn_t) : flags :=
  mk_flags (map (fun d => (d, covered dns_inside prev d)) P) (map (fun c => (c, covered conn_inside prev c)) C).

Lemma tree_parent_times clk w c : let parent := fst (tree_parent p fopen stat_dir getnameinfo clk w c) in
  start_unix_ns parent = window_start clk w /\ end_unix_ns parent = u64 (window_start clk w + oc_duration_ns w).
Proof.
  destruct c as [seed es]. unfold tree_parent. destruct (match otlp_find_traceparent _ _ with Some _ => _ | None => _ end) as [s0 seed'].
  destruct (enriched _ _ _ _ _ _ _ _ _ es) as [l es']. cbn. auto.
Qed.

Lemma tree_wait_child stk w parent seed : Forall (is_child parent) (fst (tree_wait p syms stack_map stk w parent seed)).
Proof.
  unfold tree_wait. destruct (0 <? _); [|constructor]. unfold wait_child, otlp_span_new_child. destruct (splitmix64 seed) as [a s1].
  repeat constructor.
Qed.

Lemma forest_built stk clk P C ws : forall prev c,
  let '(ss, u, _) := tree_windows p fopen stat_dir getnameinfo syms stack_map stk clk ws (flagged prev P C) c in
  forest clk prev ws P C ss /\ u = flagged (prev ++ ws) P C.
Proof.
  induction ws as [|w ws IH]; intros prev c; cbn [tree_windows forest]; [now rewrite app_nil_r|].
  unfold tree_window. pose proof (tree_parent_times clk w c) as T. destruct (tree_parent p fopen stat_dir getnameinfo clk w c) as [parent [seed es]].
  cbn [fst] in T. pose proof (tree_wait_child stk w parent seed) as Wt. destruct (tree_wait p syms stack_map stk w parent seed) as [wait s1]. cbn [fst] in Wt.
  unfold flagged at 1 2. cbn [dns_used conn_used].
  pose proof (adopt_spec (dns_child clk true) dns_gives (dns_fill_gives clk true) (dns_inside w) parent (covered dns_inside prev) P s1) as Ad.
  destruct (adopt (dns_inside w) _ parent _ s1) as [[d ds] s2]. destruct Ad as [-> Bd].
  pose proof (adopt_spec (conn_child clk true) conn_gives (conn_fill_gives clk true) (conn_inside w) parent (covered conn_inside prev) C s2) as Ac.
  destruct (adopt (conn_inside w) _ parent _ s2) as [[co cs] s3]. destruct Ac as [-> Bc].
  assert (F : mk_flags (map (fun r => (r, covered dns_inside prev r || dns_inside w r)) P) (map (fun r => (r, covered conn_inside prev r || conn_inside w r)) C) =
              flagged (prev ++ [w]) P C).
  { unfold flagged. f_equal; apply map_ext; intros r; now rewrite covered_snoc. }
  rewrite F. specialize (IH (prev ++ [w]) (s3, es)). destruct (tree_windows _ _ _ _ _ _ _ _ _ _ _) as [[ss' u] c']. destruct IH as [Fo ->].
  split; [|now rewrite <- app_assoc]. exists parent, wait, ds, cs, ss'. destruct T as [T1 T2].
  split; [cbn [app]; now rewrite <- !app_assoc|]. auto 10.
Qed.

Definition old (clk : clock) (ts : Z) : bool := too_old (u64 (monotonic clk)) (child_ttl p) ts.

Lemma tree_spans_spec stk clk ws pd es :
  let '(ss, pd', _) := tree_spans p fopen stat_dir getnameinfo syms stack_map stk clk ws pd es in
  g_pend_dns pd' = filter (fun d => negb (covered dns_inside ws d) && negb (old clk (dn_ts d))) (g_pend_dns pd) /\
  g_pend_conn pd' = filter (fun c => negb (covered conn_inside ws c) && negb (old clk (co_ts c))) (g_pend_conn pd) /\
  exists trees ds cs, ss = trees ++ ds ++ cs /\ forest clk [] ws (g_pend_dns pd) (g_pend_conn pd) trees /\
    built (dns_child clk false) dns_gives (fun s => has_parent s = false)
      (filter (fun d => negb (covered dns_inside ws d) && old clk (dn_ts d)) (g_pend_dns pd)) ds /\
    built (conn_child clk false) conn_gives (fun s => has_parent s = false)
      (filter (fun c => negb (covered conn_inside ws c) && old clk (co_ts c)) (g_pend_conn pd)) cs.
Proof.
  unfold tree_spans. change (mk_flags (unused (g_pend_dns pd)) (unused (g_pend_conn pd))) with (flagged [] (g_pend_dns pd) (g_pend_conn pd)).
  pose proof (forest_built stk clk (g_pend_dns pd) (g_pend_conn pd) ws [] (id_seed p clk, es)) as F.
  destruct (tree_windows _ _ _ _ _ _ _ _ _ _ _) as [[ss u] [seed es']]. destruct F as [F ->]. cbn [app] in *. unfold flagged. cbn [dns_used conn_used].
  pose proof (sweep_spec (dns_child clk false) dns_gives (dns_fill_gives clk false) (fun d => old clk (dn_ts d)) (covered dns_inside ws) (g_pend_dns pd) seed) as Sd.
  unfold old in *. destruct (sweep _ (dns_child clk false) _ seed) as [[kd ds] s1]. destruct Sd as [-> Bd].
  pose proof (sweep_spec (conn_child clk false) conn_gives (conn_fill_gives clk false)
    (fun c => too_old (u64 (monotonic clk)) (child_ttl p) (co_ts c)) (covered conn_inside ws) (g_pend_conn pd) s1) as Sc.
  destruct (sweep _ (conn_child clk false) _ s1) as [[kc cs] s2]. destruct Sc as [-> Bc]. cbn [g_pend_dns g_pend_conn].
  split; [reflexivity|]. split; [reflexivity|]. exists ss, ds, cs. auto.
Qed.

(** ** The push *)

Definition drained {R} (ch : channel R) (rg : rings) (name : option text) : list R :=
  match name with Some n => match rg n with Some data => firstn OTLP_MAX_LOGS (parsed ch data) | None => [] end | None => [] end.

Lemma drain_children_drained {R} (ch : channel R) rg name clk m : fst (drain_children ch rg name clk m) = drained ch rg name.
Proof.
  unfold drain_children, drained, otlp_drain. destruct name as [n|]; [|reflexivity]. destruct (rg n) as [data|]; [|reflexivity].
  cbn [option_map]. rewrite drain_keeps. cbn [length app fst]. now rewrite Nat.sub_0_r.
Qed.

Lemma tree_push_shape data om dm cm sm ep clk pd st rg : rg om = Some data ->
  let ws := firstn OTLP_MAX_LOGS (parsed (offcpu_channel p fopen stat_dir getnameinfo syms stack_map) data) in
  let P := carry (g_pend_dns pd) (drained (dns_channel p fopen stat_dir getnameinfo) rg dm) in
  let C := carry (g_pend_conn pd) (drained (conn_channel p fopen stat_dir getnameinfo) rg cm) in
  exists ms,
  spnl_otlp_request_tree_push_obj p gzip network fopen stat_dir getnameinfo syms stack_map rg (Some om) dm cm sm (Some ep) clk pd st =
  let st1 := begin_batch p ep (set_metrics ms (offcpu_set_stack_ctx sm st)) in
  let '(ss, pd', es) := tree_spans p fopen stat_dir getnameinfo syms stack_map (g_offcpu_stacks st1) clk ws (mk_pending P C) (enr st1) in
  let st2 := set_enr es (fold_left (add_span p gzip network) ss st1) in
  (match otlp_batch_flush_final p gzip network (net_io st2) with
   | Exits x => Exit (set_io x st2)
   | Returns _ x => Ret (if 0 <? Z.of_nat (length ss) then last_status (batch x) else 0) (set_io x st2)
   end, pd').
Proof.
  intros Hr ws P C. unfold spnl_otlp_request_tree_push_obj, otlp_drain. rewrite Hr. cbn [option_map].
  rewrite drain_keeps. cbn [length app]. rewrite Nat.sub_0_r. fold ws.
  match goal with |- context [drain_children (dns_channel _ _ _ _) rg dm clk ?m] =>
    pose proof (drain_children_drained (dns_channel p fopen stat_dir getnameinfo) rg dm clk m) as Dd; destruct (drain_children _ rg dm clk m) as [ds0 ms1] end.
  pose proof (drain_children_drained (conn_channel p fopen stat_dir getnameinfo) rg cm clk ms1) as Dc.
  destruct (drain_children _ rg cm clk ms1) as [cs0 ms2]. cbn [fst] in Dd, Dc. subst ds0 cs0. now exists ms2.
Qed.

(** C13: the request tree loses nothing and sends one tree per request.  Of the DNS and
    connection records carried over or newly drained (up to the buffer's size), each is
    nested under exactly one window, the first that contains it, or is sent on its own
    after its time to live, or stays pending; the spans sent are, for every drained
    window in order, the request span over the window with the wait and the nested
    records as its children in the same trace, then the records sent on their own; they
    are posted in groups and a collector decodes exactly them.  The balance of the
    channels does not see any of it. *)
Theorem tree_conserves data om dm cm sm ep clk pd st rg : rg om = Some data -> 0 <= events (net_io st) < 2 ^ 64 ->
  let ws := firstn OTLP_MAX_LOGS (parsed (offcpu_channel p fopen stat_dir getnameinfo syms stack_map) data) in
  let P := carry (g_pend_dns pd) (drained (dns_channel p fopen stat_dir getnameinfo) rg dm) in
  let C := carry (g_pend_conn pd) (drained (conn_channel p fopen stat_dir getnameinfo) rg cm) in
  let lone_dns := filter (fun d => negb (covered dns_inside ws d) && old clk (dn_ts d)) P in
  let lone_conn := filter (fun c => negb (covered conn_inside ws c) && old clk (co_ts c)) C in
  let o := spnl_otlp_request_tree_push_obj p gzip network fopen stat_dir getnameinfo syms stack_map rg (Some om) dm cm sm (Some ep) clk pd st in
  Permutation P (nested_in dns_inside [] ws P ++ lone_dns ++ g_pend_dns (snd o)) /\
  Permutation C (nested_in conn_inside [] ws C ++ lone_conn ++ g_pend_conn (snd o)) /\
  chans (core_of (fst o)) = chans st /\
  exists trees ds cs gs new,
    forest clk [] ws P C trees /\
    built (dns_child clk false) dns_gives (fun s => has_parent s = false) lone_dns ds /\
    built (conn_child clk false) conn_gives (fun s => has_parent s = false) lone_conn cs /\
    concat gs = map stored (trees ++ ds ++ cs) /\ well_grouped (otlp_batch_env_max p) gs /\
    sends (net_io (core_of (fst o))) = sends (net_io st) ++ new /\
    (Forall (fun g => group_size p (push_names p ep st) g <= 2 ^ 20) gs ->
     map (fun x => (s_to x, Reader.read_request Traces.read_span (s_body x))) new =
     map (fun g => (Some ep, Some (group_view p (push_names p ep st) g))) gs) /\
    match fst o with Ret rc _ => rc = last (answers new) 0 | Exit _ => True end.
Proof.
  intros Hr He ws P C lone_dns lone_conn o. destruct (tree_push_shape data om dm cm sm ep clk pd st rg Hr) as [ms Eo].
  fold ws P C in Eo. fold o in Eo. cbv zeta in Eo. set (st1 := begin_batch p ep _) in Eo.
  pose proof (tree_spans_spec (g_offcpu_stacks st1) clk ws (mk_pending P C) (enr st1)) as T.
  destruct (tree_spans _ _ _ _ _ _ _ _ _ _ _) as [[ss pd'] es]. cbn [g_pend_dns g_pend_conn] in T. rewrite Eo. clearbody o. clear Eo o.
  destruct T as (Kd & Kc & trees & ds & cs & -> & Fo & Bd & Bc). cbn [fst snd]. rewrite Kd, Kc.
  split; [apply all_placed|]. split; [apply all_placed|].
  destruct (begun_posts p gzip network (trees ++ ds ++ cs) ep st He) as (gs & new & G1 & G2 & G3 & G4 & G5 & G6).
  assert (Io : net_io (fold_left (add_span p gzip network) (trees ++ ds ++ cs) st1) =
    fold_left (fun st s => snd (otlp_batch_add p gzip network s st)) (trees ++ ds ++ cs) (otlp_batch_begin p ep (service_ref p) VersionBuf (lit "spinel-ebpf") (net_io st)))
    by now rewrite add_spans.
  assert (Ch : chans (fold_left (add_span p gzip network) (trees ++ ds ++ cs) st1) = chans st) by now rewrite add_spans.
  cbn [set_enr net_io chans]. rewrite Io. unfold otlp_batch_flush_final.
  destruct (otlp_batch_flush p gzip network _) as [r x]. cbn [snd] in G3, G5, G6. unfold spnl_oneshot_add. cbn [Z.ltb Z.compare]. rewrite set_events_same.
  destruct (_ && _); cbn [fst core_of set_io set_enr chans net_io]; rewrite Ch; (split; [reflexivity|]); exists trees, ds, cs, gs, new; auto 12.
Qed.

(** A record inside a window is inside the request span also in wall-clock time. *)
Lemma nested_in_time w clk tgid ts : otlp_child_in_window tgid ts (oc_pid w) (oc_start_ktime w) (oc_duration_ns w) = true ->
  0 <= oc_start_ktime w -> 0 <= oc_duration_ns w -> oc_start_ktime w + oc_duration_ns w < 2 ^ 63 ->
  0 <= otlp_ktime_to_unix_off clk < 2 ^ 62 ->
  window_start clk w <= at_ktime ts (otlp_ktime_to_unix_off clk) <= u64 (window_start clk w + oc_duration_ns w).
Proof.
  unfold otlp_child_in_window. destruct (Z.eqb_spec (oc_start_ktime w) 0) as [|N]; [discriminate|]. destruct (negb _); [discriminate|].
  intros H Hs Hd Hb Ho. rewrite wrap_small in H by lia. bools. unfold window_start. destruct (Z.eqb_spec (oc_start_ktime w) 0); [contradiction|].
  unfold at_ktime. rewrite !sgn_small by lia. rewrite !wrap_small; lia.
Qed.

End Host.

(** *** A push on concrete rings *)

Definition a_window : list Z :=
  repeat 0 16 ++ le_enc 4 7 ++ text_bytes (lit "srv") ++ repeat 0 17 ++ le_enc 8 1000 ++ le_enc 8 0 ++ repeat 255 4 ++
  text_bytes (lit "GET / HTTP/1.1") ++ repeat 0 50 ++ text_bytes (lit "HTTP/1.1 200") ++ repeat 0 8 ++ le_enc 8 0 ++ le_enc 8 5000.
Definition a_query (pid : Z) : list Z :=
  repeat 0 8 ++ le_enc 8 5500 ++ le_enc 4 pid ++ repeat 0 16 ++ (repeat 0 12 ++ 1 :: text_bytes (lit "a") ++ repeat 0 50) ++ repeat 0 4 ++ le_enc 8 0 ++ le_enc 8 20.
Definition tree_rings : rings := fun m => if text_eqb m (lit "win") then Some [a_window] else if text_eqb m (lit "dns") then Some [a_query 7; a_query 9] else None.

#[local] Instance no_files : K8s.FileSystem := {| K8s.readdir := fun _ => None; K8s.dir_inode := fun _ => None |}.

Definition no_file (_ : text) : option text := None.
Definition no_dir (_ : text) : bool := false.
Definition no_stack (_ : text) (_ : Z) : option (list Z) := None.

Lemma tree_conserves_witness :
  let o := spnl_otlp_request_tree_push_obj some_process (fun _ => None) answering no_file no_dir no_file [] no_stack
             tree_rings (Some (lit "win")) (Some (lit "dns")) None None (Some (lit "http://c:4318")) some_clock (mk_pending [] []) some_core in
  map dn_pid (g_pend_dns (snd o)) = [9] /\
  map (fun x => option_map (map (fun g => map (fun s => map Traces.v_name (snd s)) (snd g)))
         (Reader.read_request Traces.read_span (s_body x))) (sends (net_io (core_of (fst o)))) =
    [Some [[[text_bytes (lit "GET /"); text_bytes (lit "resolve a")]]]] /\
  exists trees, forest some_clock [] (parsed (offcpu_channel some_process no_file no_dir no_file [] no_stack) [a_window])
                  (parsed (dns_channel some_process no_file no_dir no_file) [a_query 7; a_query 9]) [] trees.
Proof.
  intros o. split; [vm_compute; reflexivity|]. split; [vm_compute; reflexivity|].
  destruct (tree_conserves some_process (fun _ => None) answering no_file no_dir no_file [] no_stack
    [a_window] (lit "win") (Some (lit "dns")) None None (lit "http://c:4318") some_clock (mk_pending [] []) some_core tree_rings)
    as (_ & _ & _ & trees & _ & _ & _ & _ & F & _); [reflexivity|cbn; lia|].
  exists trees. exact F.
Defined.

End Conserve.
