(* ===== verification/OtlpPbMetrics.v ===== *)
(** * OTLP metrics as protocol buffers ([src/runtime/otlp/otlp_metrics.c])

    - [Bits]: doubles as the 64 bits nanopb writes.
    - [Build]: the messages of the metrics schema, the data points and the builders.
    - [Arrive]: a collector's reader and what it finds in the requests.

    [otlp_metrics_export], which makes one request per metric, is in [AgentSignals]. *)

From Stdlib Require Import SpecFloat.
From S2P Require Import Prelude Bytes CText PbEncode OtlpTraces OtlpTransport OtlpHist OtlpPb.
Import Stream Message Wire.
Local Open Scope string_scope.
Local Open Scope list_scope.
Local Open Scope Z_scope.

Module Bits.
Import Doubles.

Definition sign_bit (s : bool) : Z := if s then 2 ^ 63 else 0.

(** The IEEE 754 representation. *)
Definition double_bits (x : double) : Z :=
  match x with
  | S754_zero s => sign_bit s
  | S754_infinity s => sign_bit s + 2047 * 2 ^ 52
  | S754_nan => 2047 * 2 ^ 52 + 2 ^ 51
  | S754_finite s m e => sign_bit s + (if Z.pos m <? 2 ^ 52 then Z.pos m else (e + 1075) * 2 ^ 52 + (Z.pos m - 2 ^ 52))
  end.

Definition bits_double (b : Z) : double :=
  let s := 2 ^ 63 <=? b in
  let r := b mod 2 ^ 63 in
  let e := r / 2 ^ 52 in
  let m := r mod 2 ^ 52 in
  if e =? 2047 then (if m =? 0 then S754_infinity s else S754_nan)
  else if e =? 0 then match m with Z.pos p => S754_finite s p (-1074) | _ => S754_zero s end
  else match m + 2 ^ 52 with Z.pos p => S754_finite s p (e - 1075) | _ => S754_nan end.

Lemma digits2_bounds m : 2 ^ (Z.pos (digits2_pos m) - 1) <= Z.pos m < 2 ^ Z.pos (digits2_pos m).
Proof.
  induction m as [m IH|m IH|]; cbn [digits2_pos]; [| |cbn; lia];
    rewrite Pos2Z.inj_succ; replace (Z.succ (Z.pos (digits2_pos m)) - 1) with (Z.pos (digits2_pos m) - 1 + 1) by lia;
    rewrite Z.pow_succ_r, Z.pow_add_r by lia; lia.
Qed.

(** The finite doubles: 53 bits of mantissa, or fewer at the least exponent. *)
Lemma bounded_cases m e : bounded 53 1024 m e = true ->
  (2 ^ 52 <= Z.pos m < 2 ^ 53 /\ -1074 <= e <= 971) \/ (Z.pos m < 2 ^ 52 /\ e = -1074).
Proof.
  unfold bounded, canonical_mantissa, fexp, emin. intros H%andb_prop. destruct H as [C U].
  apply Z.eqb_eq in C. apply Z.leb_le in U. pose proof (digits2_bounds m) as [B1 B2].
  set (d := Z.pos (digits2_pos m)) in *. assert (d <= 53) by lia.
  destruct (Z.eq_dec d 53) as [E|E].
  - left. rewrite E in *. split; [exact (conj B1 B2)|lia].
  - right. split; [|lia]. apply (Z.lt_le_trans _ _ _ B2). apply Z.pow_le_mono_r; lia.
Qed.

Lemma split_sign s r : 0 <= r < 2 ^ 63 ->
  (2 ^ 63 <=? sign_bit s + r) = s /\ (sign_bit s + r) mod 2 ^ 63 = r.
Proof.
  intros H. unfold sign_bit. destruct s.
  - split; [apply Z.leb_le; lia|]. rewrite Z.add_comm, <- (Z.mul_1_l (2 ^ 63)) at 1.
    rewrite Z.mod_add by lia. now apply Z.mod_small.
  - split; [apply Z.leb_gt; lia|]. now apply Z.mod_small.
Qed.

(** Every double is recovered from its bits. *)
Lemma bits_double_bits x : valid_binary 53 1024 x = true -> bits_double (double_bits x) = x.
Proof.
  destruct x as [s|s| |s m e]; intros V; try (destruct s; reflexivity); try reflexivity.
  pose proof (bounded_cases m e V) as [[M E]|[M ->]]; unfold bits_double, double_bits.
  - destruct (Z.ltb_spec (Z.pos m) (2 ^ 52)); [lia|].
    destruct (split_sign s ((e + 1075) * 2 ^ 52 + (Z.pos m - 2 ^ 52))) as [-> ->]; [lia|].
    rewrite (Z.add_comm _ (Z.pos m - _)), Z.div_add, Z.mod_add, Z.div_small, Z.mod_small by lia.
    destruct (Z.eqb_spec (0 + (e + 1075)) 2047); [lia|]. destruct (Z.eqb_spec (0 + (e + 1075)) 0); [lia|].
    replace (Z.pos m - 2 ^ 52 + 2 ^ 52) with (Z.pos m) by lia. f_equal. lia.
  - destruct (Z.ltb_spec (Z.pos m) (2 ^ 52)); [|lia].
    destruct (split_sign s (Z.pos m)) as [-> ->]; [lia|]. rewrite Z.div_small, Z.mod_small by lia. reflexivity.
Qed.

End Bits.

Module Build.
Import Common Envelope.
Import Ids Doubles Bits Fold.

Record otlp_method_metric_t := mk_mm { method : text; file : option text; line : Z; calls : Z; buckets : list Z }.
Record otlp_series_t := mk_series { count : Z; s_buckets : list Z; labels : list otlp_kv_t }.
Record otlp_hseries_t := mk_hseries { h_labels : list otlp_kv_t; h_count : Z; h_sum : double; bucket_counts : list Z }.

(** ** Messages *)

Definition AGGREGATION_TEMPORALITY_CUMULATIVE : Z := 2.

Definition NumberDataPoint (start_time time as_int : Z) (attributes : fld -> encoder) : list field :=
  [Static (mk_fld 2 FIXED64) SINGULAR start_time;
   Static (mk_fld 3 FIXED64) SINGULAR time;
   Static (mk_fld 4 FIXED64) (ONEOF 6) 0;
   Callback (mk_fld 5 SUBMESSAGE) REPEATED None;
   Static (mk_fld 6 FIXED64) (ONEOF 6) as_int;
   Callback (mk_fld 7 SUBMESSAGE) REPEATED (Some attributes);
   Static (mk_fld 8 UVARINT) SINGULAR 0].

Definition HistogramDataPoint (start_time time cnt : Z) (sum : double) (counts bounds attributes : fld -> encoder) : list field :=
  [Static (mk_fld 2 FIXED64) SINGULAR start_time;
   Static (mk_fld 3 FIXED64) SINGULAR time;
   Static (mk_fld 4 FIXED64) SINGULAR cnt;
   Static (mk_fld 5 FIXED64) (OPTIONAL true) (double_bits sum);
   Callback (mk_fld 6 FIXED64) REPEATED (Some counts);
   Callback (mk_fld 7 FIXED64) REPEATED (Some bounds);
   Callback (mk_fld 8 SUBMESSAGE) REPEATED None;
   Callback (mk_fld 9 SUBMESSAGE) REPEATED (Some attributes);
   Static (mk_fld 10 UVARINT) SINGULAR 0;
   Static (mk_fld 11 FIXED64) (OPTIONAL false) 0;
   Static (mk_fld 12 FIXED64) (OPTIONAL false) 0].

Definition Buckets (offset : Z) (counts : option (fld -> encoder)) : list field :=
  [Static (mk_fld 1 SVARINT) SINGULAR offset; Callback (mk_fld 2 UVARINT) REPEATED counts].

Definition ExponentialHistogramDataPoint (attributes : fld -> encoder) (start_time time cnt : Z) (sum : double)
  (scale zero_count : Z) (positive : option (Z * (fld -> encoder))) : list field :=
  [Callback (mk_fld 1 SUBMESSAGE) REPEATED (Some attributes);
   Static (mk_fld 2 FIXED64) SINGULAR start_time;
   Static (mk_fld 3 FIXED64) SINGULAR time;
   Static (mk_fld 4 FIXED64) SINGULAR cnt;
   Static (mk_fld 5 FIXED64) (OPTIONAL true) (double_bits sum);
   Static (mk_fld 6 SVARINT) SINGULAR scale;
   Static (mk_fld 7 FIXED64) SINGULAR zero_count;
   Sub 8 (OPTIONAL (match positive with Some _ => true | None => false end))
     (match positive with Some (o, c) => Buckets o (Some c) | None => Buckets 0 None end);
   Sub 9 (OPTIONAL false) (Buckets 0 None);
   Static (mk_fld 10 UVARINT) SINGULAR 0;
   Callback (mk_fld 11 SUBMESSAGE) REPEATED None;
   Static (mk_fld 12 FIXED64) (OPTIONAL false) 0;
   Static (mk_fld 13 FIXED64) (OPTIONAL false) 0;
   Static (mk_fld 14 FIXED64) SINGULAR 0].

Definition Gauge (data_points : fld -> encoder) : list field := [Callback (mk_fld 1 SUBMESSAGE) REPEATED (Some data_points)].

Definition Sum (data_points : fld -> encoder) (temporality : Z) (is_monotonic : bool) : list field :=
  [Callback (mk_fld 1 SUBMESSAGE) REPEATED (Some data_points); Static (mk_fld 2 UVARINT) SINGULAR temporality;
   Static (mk_fld 3 BOOL) SINGULAR (if is_monotonic then 1 else 0)].

(** [Histogram] and [ExponentialHistogram] have the same fields. *)
Definition Histogram (data_points : fld -> encoder) (temporality : Z) : list field :=
  [Callback (mk_fld 1 SUBMESSAGE) REPEATED (Some data_points); Static (mk_fld 2 UVARINT) SINGULAR temporality].

(** The oneof of a metric: its tag and the message the union holds. *)
Definition Metric (name : fld -> encoder) (unit : option (fld -> encoder)) (which_data : Z) (data : list field) : list field :=
  [Callback (mk_fld 1 STRING) SINGULAR (Some name);
   Callback (mk_fld 2 STRING) SINGULAR None;
   Callback (mk_fld 3 STRING) SINGULAR unit;
   Sub 5 (ONEOF which_data) data; Sub 7 (ONEOF which_data) data; Sub 9 (ONEOF which_data) data;
   Sub 10 (ONEOF which_data) data; Sub 11 (ONEOF which_data) data;
   Callback (mk_fld 12 SUBMESSAGE) REPEATED None].

Definition put (f : fld) (m : list field) : encoder := pb_encode_tag_for_field f >>> pb_encode_submessage (pb_encode m).

(** ** Attributes and buckets *)

Definition enc_code_attrs (m : otlp_method_metric_t) (f : fld) : encoder :=
  otlp_put_kv_str f (lit "code.function") (method m) >>>
  put_if f (lit "code.filepath") (file m) >>>
  (if 0 <? line m then otlp_put_kv_int f (lit "code.lineno") (line m) else succeed).

Definition enc_series_attrs (s : otlp_series_t) (f : fld) : encoder :=
  each (fun a => otlp_put_kv_str f (key a) (val a)) (labels s).

Definition enc_hseries_attrs (s : otlp_hseries_t) (f : fld) : encoder :=
  each (fun a => otlp_put_kv_str f (key a) (val a)) (h_labels s).

Inductive otlp_hist_agg_t := OTLP_HIST_AGG_EXPLICIT | OTLP_HIST_AGG_EXPONENTIAL.

(** [None]: the exporter refuses the value and exits. *)
Definition otlp_hist_aggregation (p : process) : option otlp_hist_agg_t :=
  match getenv p (lit "OTEL_EXPORTER_OTLP_METRICS_DEFAULT_HISTOGRAM_AGGREGATION") with
  | None | Some [] => Some OTLP_HIST_AGG_EXPLICIT
  | Some v => if text_eqb v (lit "explicit_bucket_histogram") then Some OTLP_HIST_AGG_EXPLICIT
              else if text_eqb v (lit "base2_exponential_bucket_histogram") then Some OTLP_HIST_AGG_EXPONENTIAL
              else None
  end.

Definition window (l : list Z) (offset len : nat) : list Z := map (fun i => u64 (nth (offset + i) l 0)) (seq 0 len).

Definition enc_bucket_counts (l : list Z) (offset len : nat) (f : fld) : encoder :=
  each (fun v => pb_encode_tag_for_field f >>> pb_encode_varint v) (window l offset len).

Definition enc_explicit_bounds (b : list double) (n : nat) (f : fld) : encoder :=
  each (fun d => pb_encode_tag_for_field f >>> pb_encode_fixed64 (u64 (double_bits d))) (map (fun i => nth i b (S754_zero false)) (seq 0 n)).

Definition enc_hist_bucket_counts (l : list Z) (offset len : nat) (f : fld) : encoder :=
  each (fun v => pb_encode_tag_for_field f >>> pb_encode_fixed64 v) (window l offset len).

(** The scan of the slots: first and last that count, total and sum. *)
Definition scan_slot (l : list Z) (acc : option (nat * nat) * Z * double) (s : nat) : option (nat * nat) * Z * double :=
  let '(fl, total, sum) := acc in
  let cnt := nth s l 0 in
  if cnt =? 0 then acc
  else (Some (match fl with Some (first, _) => first | None => s end, s), u64 (total + cnt),
        d_add sum (d_mul (d_of_Z cnt) (slot_midpoint s))).

Definition scan_slots (l : list Z) : option (nat * nat) * Z * double :=
  fold_left (scan_slot l) (seq 0 OTLP_HIST_SLOTS) (None, 0, S754_zero false).

(** ** Data points *)

Definition exp_point (t start : Z) (l : list Z) (attributes : fld -> encoder) : list field :=
  let '(fl, total, sum) := scan_slots l in
  ExponentialHistogramDataPoint attributes start t total sum 0 0
    (match fl with
     | Some (first, last) => Some (Z.of_nat first, enc_bucket_counts l first (last - first + 1))
     | None => None
     end).

Definition fold_point (t start : Z) (l : list Z) (attributes : fld -> encoder) : list field :=
  let '(bc, total, sum) := otlp_log2_fold l in
  HistogramDataPoint start t total sum (enc_hist_bucket_counts bc 0 OTLP_LOG2_NBUCKETS)
    (enc_explicit_bounds otlp_log2_ns_bounds OTLP_LOG2_NBOUNDS) attributes.

(** [for (...) { if (calls == 0) continue; ... }] *)
Definition each_live {A} (live : A -> Z) (point : A -> list field) (l : list A) (f : fld) : encoder :=
  each (fun m => if live m =? 0 then succeed else put f (point m)) l.

Definition enc_calls_dps (t start : Z) (ms : list otlp_method_metric_t) (f : fld) : encoder :=
  each_live calls (fun m => NumberDataPoint start t (sgn 64 (calls m)) (enc_code_attrs m)) ms f.

Definition enc_lat_dps (t start : Z) (ms : list otlp_method_metric_t) (f : fld) : encoder :=
  each_live calls (fun m => exp_point t start (buckets m) (enc_code_attrs m)) ms f.

Definition enc_lat_hist_dps (t start : Z) (ms : list otlp_method_metric_t) (f : fld) : encoder :=
  each_live calls (fun m => fold_point t start (buckets m) (enc_code_attrs m)) ms f.

Definition enc_series_calls (t start : Z) (ss : list otlp_series_t) (f : fld) : encoder :=
  each_live count (fun s => NumberDataPoint start t (sgn 64 (count s)) (enc_series_attrs s)) ss f.

Definition enc_series_lat (t start : Z) (ss : list otlp_series_t) (f : fld) : encoder :=
  each_live count (fun s => exp_point t start (s_buckets s) (enc_series_attrs s)) ss f.

Definition enc_hist_dps (bounds : list double) (nbounds : nat) (t start : Z) (ss : list otlp_hseries_t) (f : fld) : encoder :=
  each (fun s => put f (HistogramDataPoint start t (h_count s) (h_sum s) (enc_hist_bucket_counts (bucket_counts s) 0 (nbounds + 1))
                          (enc_explicit_bounds bounds nbounds) (enc_hseries_attrs s))) ss.

(** ** Metrics and requests *)

Inductive otlp_method_part_t := OTLP_MPART_CALLS | OTLP_MPART_LATENCY_EXP | OTLP_MPART_LATENCY_HIST.

Definition method_metric (part : otlp_method_part_t) (t start : Z) (ms : list otlp_method_metric_t) : list field :=
  match part with
  | OTLP_MPART_CALLS =>
      Metric (otlp_enc_string (lit "spnl_method_calls_total")) None 7
        (Sum (enc_calls_dps t start ms) AGGREGATION_TEMPORALITY_CUMULATIVE true)
  | OTLP_MPART_LATENCY_EXP =>
      Metric (otlp_enc_string (lit "spnl_method_latency_ns")) (Some (otlp_enc_string (lit "ns"))) 10
        (Histogram (enc_lat_dps t start ms) AGGREGATION_TEMPORALITY_CUMULATIVE)
  | OTLP_MPART_LATENCY_HIST =>
      Metric (otlp_enc_string (lit "spnl_method_latency_ns")) (Some (otlp_enc_string (lit "ns"))) 9
        (Histogram (enc_lat_hist_dps t start ms) AGGREGATION_TEMPORALITY_CUMULATIVE)
  end.

Definition enc_metrics_one (part : otlp_method_part_t) (t start : Z) (ms : list otlp_method_metric_t) (f : fld) : encoder :=
  put f (method_metric part t start ms).

Definition metrics_envelope_encode (p : process) (cap : Z) (service_name service_version scope_name : option text)
  (metrics_cb : fld -> encoder) : option (list Z) :=
  encode_into cap (request p service_name service_version scope_name metrics_cb).

Definition otlp_metrics_method_build (p : process) (cap : Z) (service_name service_version scope_name : option text)
  (part : otlp_method_part_t) (t start : Z) (ms : list otlp_method_metric_t) : option (list Z) :=
  metrics_envelope_encode p cap service_name service_version scope_name (enc_metrics_one part t start ms).

Definition unit_cb (unit : option text) : option (fld -> encoder) := if nonempty unit then option_map otlp_enc_string unit else None.

Definition enc_gauge_metric (name : text) (unit : option text) (t start : Z) (ss : list otlp_series_t) (f : fld) : encoder :=
  put f (Metric (otlp_enc_string name) (unit_cb unit) 5 (Gauge (enc_series_calls t start ss))).

Definition enc_exphist_metric (name : text) (unit : option text) (t start : Z) (ss : list otlp_series_t) (f : fld) : encoder :=
  put f (Metric (otlp_enc_string name) (unit_cb unit) 10 (Histogram (enc_series_lat t start ss) AGGREGATION_TEMPORALITY_CUMULATIVE)).

Definition enc_sum_metric (name : text) (unit : option text) (t start : Z) (ss : list otlp_series_t) (f : fld) : encoder :=
  put f (Metric (otlp_enc_string name) (unit_cb unit) 7 (Sum (enc_series_calls t start ss) AGGREGATION_TEMPORALITY_CUMULATIVE true)).

Definition enc_hist_metric (name : text) (unit : option text) (bounds : list double) (nbounds : nat) (t start : Z)
  (ss : list otlp_hseries_t) (f : fld) : encoder :=
  put f (Metric (otlp_enc_string name) (unit_cb unit) 9 (Histogram (enc_hist_dps bounds nbounds t start ss) AGGREGATION_TEMPORALITY_CUMULATIVE)).

Section Requests.
Context (p : process) (cap : Z) (service_name service_version scope_name : option text) (name : text) (unit : option text).

Definition otlp_metrics_gauge_build (t start : Z) (ss : list otlp_series_t) : option (list Z) :=
  metrics_envelope_encode p cap service_name service_version scope_name (enc_gauge_metric name unit t start ss).
Definition otlp_metrics_exphist_build (t start : Z) (ss : list otlp_series_t) : option (list Z) :=
  metrics_envelope_encode p cap service_name service_version scope_name (enc_exphist_metric name unit t start ss).
Definition otlp_metrics_sum_build (t start : Z) (ss : list otlp_series_t) : option (list Z) :=
  metrics_envelope_encode p cap service_name service_version scope_name (enc_sum_metric name unit t start ss).
Definition otlp_metrics_hist_build (bounds : list double) (nbounds : nat) (t start : Z) (ss : list otlp_hseries_t)
  : option (list Z) :=
  metrics_envelope_encode p cap service_name service_version scope_name (enc_hist_metric name unit bounds nbounds t start ss).

End Requests.

End Build.

Module Arrive.
Import Common Reader Envelope Build.
Import Ids Doubles Bits Fold.
Local Open Scope reader_scope.

(** ** A reader of metrics *)

Definition attrs_view : Type := list (list Z * value).

Record number_view := mk_number { n_start : Z; n_time : Z; n_value : Z; n_attrs : attrs_view }.
Record hist_view := mk_hist {
  h_start : Z; h_time : Z; h_total : Z; h_sum_bits : Z; h_counts : list Z; h_bounds : list Z; h_attrs : attrs_view }.
Record exp_view := mk_exp {
  e_start : Z; e_time : Z; e_total : Z; e_sum_bits : Z; e_scale : Z; e_zero_count : Z; e_positive : Z * list Z; e_attrs : attrs_view }.

Inductive data_view :=
| VGauge (points : list number_view)
| VSum (temporality monotonic : Z) (points : list number_view)
| VHistogram (temporality : Z) (points : list hist_view)
| VExponential (temporality : Z) (points : list exp_view).

Definition unzigzag (v : Z) : Z := if v mod 2 =? 0 then v / 2 else - (v / 2) - 1.

Definition read_number (fs : list wfield) : option number_view :=
  let? s := num 2 fs in let? t := num 3 fs in let? v := num 6 fs in let? a := repeated 7 read_kv fs in
  Some (mk_number s t (sgn 64 v) a).

Definition read_hist (fs : list wfield) : option hist_view :=
  let? s := num 2 fs in let? t := num 3 fs in let? n := num 4 fs in let? x := num 5 fs in let? a := repeated 9 read_kv fs in
  Some (mk_hist s t n x (nums 6 fs) (nums 7 fs) a).

Definition read_buckets (fs : list wfield) : option (Z * list Z) :=
  let? o := num 1 fs in Some (unzigzag o, nums 2 fs).

Definition read_exp (fs : list wfield) : option exp_view :=
  let? a := repeated 1 read_kv fs in let? s := num 2 fs in let? t := num 3 fs in let? n := num 4 fs in let? x := num 5 fs in
  let? c := num 6 fs in let? z := num 7 fs in let? p := sub 8 (0, []) read_buckets fs in
  Some (mk_exp s t n x (unzigzag c) z p a).

(** The members of the oneof, of which a metric has exactly one. *)
Definition read_member (w : Z) (fs : list wfield) : option data_view :=
  if w =? 5 then let? l := repeated 1 read_number fs in Some (VGauge l)
  else if w =? 7 then let? l := repeated 1 read_number fs in let? t := num 2 fs in let? m := num 3 fs in Some (VSum t m l)
  else if w =? 9 then let? l := repeated 1 read_hist fs in let? t := num 2 fs in Some (VHistogram t l)
  else if w =? 10 then let? l := repeated 1 read_exp fs in let? t := num 2 fs in Some (VExponential t l)
  else None.

Definition read_data (fs : list wfield) : option data_view :=
  match flat_map (fun w => map (pair w) (reps w fs)) [5; 7; 9; 10] with
  | [(w, b)] => msg (read_member w) b
  | _ => None
  end.

Definition read_metric (fs : list wfield) : option (list Z * list Z * data_view) :=
  let? n := str 1 fs in let? u := str 3 fs in let? d := read_data fs in Some (n, u, d).

(** ** Points on the wire *)

Definition number_fields (start t v : Z) (attrs : list attr) : list wfield :=
  opt_num 2 start (W64 (u64 start)) ++ opt_num 3 t (W64 (u64 t)) ++ [(6, W64 (u64 v))] ++ attrs_fields 7 attrs.

Definition words (n : Z) (l : list Z) : list wfield := map (fun v => (n, W64 v)) l.

Definition hist_fields (start t n sum : Z) (counts bounds : list Z) (attrs : list attr) : list wfield :=
  opt_num 2 start (W64 (u64 start)) ++ opt_num 3 t (W64 (u64 t)) ++ opt_num 4 n (W64 (u64 n)) ++ [(5, W64 (u64 sum))]
  ++ words 6 counts ++ words 7 bounds ++ attrs_fields 9 attrs.

Definition buckets_fields (offset : Z) (counts : list Z) : list wfield :=
  opt_num 1 offset (WVarint (zigzag offset)) ++ map (fun v => (2, WVarint v)) counts.

Definition exp_fields (attrs : list attr) (start t n sum : Z) (positive : option (Z * list Z)) : list wfield :=
  attrs_fields 1 attrs ++ opt_num 2 start (W64 (u64 start)) ++ opt_num 3 t (W64 (u64 t)) ++ opt_num 4 n (W64 (u64 n))
  ++ [(5, W64 (u64 sum))] ++ opt_len 8 (option_map (fun p => bytes (buckets_fields (fst p) (snd p))) positive).

Definition word (v : Z) : Prop := 0 <= v < 2 ^ 64.

Lemma each_words f n l : Forall word l -> lt f = FIXED64 -> tag f = n -> 0 < n < 2 ^ 29 ->
  emits (each (fun v => pb_encode_tag_for_field f >>> pb_encode_fixed64 v) l) (words n l).
Proof.
  intros Hl Hf <- Ht. unfold words.
  replace (map _ l) with (flat_map (fun v => [(tag f, W64 v)]) l) by (induction l as [|x l' IH]; [|inversion Hl; cbn; rewrite IH]; auto).
  apply emits_each. intros v Hv. rewrite Forall_forall in Hl. specialize (Hl v Hv). unfold pb_encode_tag_for_field. rewrite Hf.
  apply emits_field; auto; [split; [exact Ht|exact Hl]|]. intros _. apply pb_encode_fixed64_writes.
Qed.

Lemma each_varints f n l : Forall word l -> lt f = UVARINT -> tag f = n -> 0 < n < 2 ^ 29 ->
  emits (each (fun v => pb_encode_tag_for_field f >>> pb_encode_varint v) l) (map (fun v => (n, WVarint v)) l).
Proof.
  intros Hl Hf <- Ht.
  replace (map _ l) with (flat_map (fun v => [(tag f, WVarint v)]) l) by (induction l as [|x l' IH]; [|inversion Hl; cbn; rewrite IH]; auto).
  apply emits_each. intros v Hv. rewrite Forall_forall in Hl. specialize (Hl v Hv). unfold pb_encode_tag_for_field. rewrite Hf.
  apply emits_field; auto; [split; [exact Ht|exact Hl]|]. intros _. now apply pb_encode_varint_writes.
Qed.

Lemma u64_word v : word (u64 v).
Proof. apply wrap_range. lia. Qed.

Lemma window_words l o n : Forall word (window l o n).
Proof. apply Forall_map, Forall_forall. intros i _. apply u64_word. Qed.

Definition bound_bits (b : list double) (n : nat) : list Z :=
  map (fun d => u64 (double_bits d)) (map (fun i => nth i b (S754_zero false)) (seq 0 n)).

Lemma bounds_emits b n f k : lt f = FIXED64 -> tag f = k -> 0 < k < 2 ^ 29 ->
  emits (enc_explicit_bounds b n f) (words k (bound_bits b n)).
Proof.
  intros Hf Ht Hk. unfold enc_explicit_bounds, bound_bits. generalize (map (fun i => nth i b (S754_zero false)) (seq 0 n)) as l.
  intros l. pose proof (each_words f k (map (fun d => u64 (double_bits d)) l)) as H.
  replace (each _ l) with (each (fun v => pb_encode_tag_for_field f >>> pb_encode_fixed64 v) (map (fun d => u64 (double_bits d)) l));
    [apply H; auto; apply Forall_map, Forall_forall; intros; apply u64_word|].
  clear H. induction l as [|x l IH]; [reflexivity|]. cbn [map each fold_right]. f_equal. exact IH.
Qed.

Lemma num_ok_opt n v w : 0 < n < 2 ^ 29 -> num_ok (n, w) -> Forall num_ok (opt_num n v w).
Proof. intros Hn Hw. unfold opt_num. destruct (v =? 0); constructor; auto. Qed.

Section Points.
Context (enc : fld -> encoder) (attrs : list attr).

Lemma number_emits start t v : emits (enc (mk_fld 7 SUBMESSAGE)) (attrs_fields 7 attrs) ->
  emits (pb_encode (NumberDataPoint start t v enc)) (number_fields start t v attrs).
Proof.
  intros H. unfold NumberDataPoint, number_fields. rewrite <- (app_nil_r (attrs_fields 7 attrs)).
  do 2 (apply emits_opt; [exact I|cbn; lia|]). repeat field_step. exact H.
Qed.

Lemma number_reads start t v : reads (number_fields start t v attrs) read_number
  (mk_number (u64 start) (u64 t) (sgn 64 v) (map attr_view attrs)).
Proof.
  split.
  - pose proof (u64_word start). pose proof (u64_word t). pose proof (u64_word v). unfold word in *.
    unfold number_fields. rewrite !Forall_app.
    repeat split; try (now apply attrs_num_ok); try (apply num_ok_opt; [lia|split; cbn; lia]). repeat constructor; cbn; lia.
  - intros L. unfold read_number. 
    assert (A : repeated 7 read_kv (number_fields start t v attrs) = Some (map attr_view attrs)).
    { apply attrs_read; [unfold number_fields; rewrite !reps_app, !reps_num by discriminate; reflexivity
                        |intros x Hx; unfold number_fields; rewrite !in_app_iff; tauto|exact L]. }
    rewrite A. clear A.
    unfold num, number_fields. rewrite !nums_app, !nums_num64, !nums_attrs. cbn [Z.eqb Pos.eqb nums flat_map app].
    rewrite ?app_nil_r. rewrite !one_num by (intros ->; reflexivity). cbn [one bind]. now rewrite sgn64_u64.
Qed.

Lemma hist_emits start t n sum counts cs bounds bs :
  emits (enc (mk_fld 9 SUBMESSAGE)) (attrs_fields 9 attrs) ->
  emits (counts (mk_fld 6 FIXED64)) (words 6 cs) -> emits (bounds (mk_fld 7 FIXED64)) (words 7 bs) ->
  emits (pb_encode (HistogramDataPoint start t n sum counts bounds enc))
    (hist_fields start t n (double_bits sum) cs bs attrs).
Proof.
  intros H Hc Hb. unfold HistogramDataPoint, hist_fields. rewrite <- (app_nil_r (attrs_fields 9 attrs)).
  do 3 (apply emits_opt; [exact I|cbn; lia|]). field_step.
  apply emits_call; [reflexivity|exact Hc|]. apply emits_call; [reflexivity|exact Hb|]. repeat field_step. exact H.
Qed.

Lemma hist_reads start t n sum cs bs : Forall word cs -> Forall word bs ->
  reads (hist_fields start t n sum cs bs attrs) read_hist
    (mk_hist (u64 start) (u64 t) (u64 n) (u64 sum) cs bs (map attr_view attrs)).
Proof.
  intros Hc Hb. split.
  - pose proof (u64_word start). pose proof (u64_word t). pose proof (u64_word n). pose proof (u64_word sum). unfold word in *.
    unfold hist_fields, words. rewrite !Forall_app, !Forall_map.
    repeat split; try (now apply attrs_num_ok); try (apply num_ok_opt; [lia|split; cbn; lia]); [repeat constructor; cbn; lia| |];
      (eapply Forall_impl; [|eassumption]); intros a Ha; split; cbn; auto; lia.
  - intros L. unfold read_hist. 
    assert (A : repeated 9 read_kv (hist_fields start t n sum cs bs attrs) = Some (map attr_view attrs)).
    { apply attrs_read; [unfold hist_fields; unfold words; rewrite !reps_app, !reps_words, !reps_num by discriminate; reflexivity
                        |intros x Hx; unfold hist_fields; rewrite !in_app_iff; tauto|exact L]. }
    rewrite A. clear A.
    unfold num, hist_fields, words. rewrite !nums_app, !nums_num64, !nums_attrs, !nums_words. cbn [Z.eqb Pos.eqb nums flat_map app].
    rewrite ?app_nil_r, ?map_id. rewrite !one_num by (intros ->; reflexivity). cbn [one bind]. reflexivity.
Qed.

Lemma buckets_emits o counts cs : -2 ^ 31 <= o < 2 ^ 31 ->
  emits (counts (mk_fld 2 UVARINT)) (map (fun v => (2, WVarint v)) cs) ->
  emits (pb_encode (Buckets o (Some counts))) (buckets_fields o cs).
Proof.
  intros Ho H. unfold Buckets, buckets_fields. apply emits_opt; [cbn; lia|cbn; lia|].
  rewrite <- (app_nil_r (map _ cs)). apply emits_call; [reflexivity|exact H|apply emits_end].
Qed.

Lemma unzigzag_zigzag v : unzigzag (zigzag v) = v.
Proof.
  unfold unzigzag, zigzag. destruct (Z.ltb_spec v 0).
  - replace (-2 * v - 1) with (1 + (- v - 1) * 2) by lia. rewrite Z.mod_add, Z.div_add by lia. cbn. lia.
  - rewrite (Z.mul_comm 2), Z.mod_mul, Z.div_mul by lia. reflexivity.
Qed.

Lemma buckets_reads o cs : -2 ^ 31 <= o < 2 ^ 31 -> Forall word cs -> reads (buckets_fields o cs) read_buckets (o, cs).
Proof.
  intros Ho Hc. split.
  - unfold buckets_fields. rewrite Forall_app, Forall_map. split.
    + apply num_ok_opt; [lia|]. split; cbn [fst snd]; [lia|]. unfold zigzag. destruct (o <? 0) eqn:E; lia.
    + eapply Forall_impl; [|exact Hc]. intros a Ha. split; cbn; auto; lia.
  - intros _. unfold read_buckets, num, buckets_fields. rewrite !nums_app, !nums_numv, !nums_varints. cbn [Z.eqb Pos.eqb app].
    rewrite ?app_nil_r, map_id. rewrite one_num by (intros ->; reflexivity). cbn [bind]. now rewrite unzigzag_zigzag.
Qed.

Definition positive_ok (p : option (Z * list Z)) : Prop :=
  match p with Some (o, cs) => -2 ^ 31 <= o < 2 ^ 31 /\ Forall word cs | None => True end.

Lemma exp_emits start t n sum pos cs : positive_ok cs -> option_map fst pos = option_map fst cs ->
  (forall o c, pos = Some (o, c) -> exists l, cs = Some (o, l) /\ emits (c (mk_fld 2 UVARINT)) (map (fun v => (2, WVarint v)) l)) ->
  emits (enc (mk_fld 1 SUBMESSAGE)) (attrs_fields 1 attrs) ->
  emits (pb_encode (ExponentialHistogramDataPoint enc start t n sum 0 0 pos)) (exp_fields attrs start t n (double_bits sum) cs).
Proof.
  intros Hok He Hp H. unfold ExponentialHistogramDataPoint, exp_fields. apply emits_call; [reflexivity|exact H|].
  do 3 (apply emits_opt; [exact I|cbn; lia|]). field_step.
  destruct pos as [[o c]|].
  - destruct (Hp o c eq_refl) as (l & -> & Hc). cbn [option_map opt_len fst snd] in *. destruct Hok as [Ho Hl].
    do 2 (apply emits_skip; [reflexivity|]). apply emits_sub; [reflexivity|cbn; lia|now apply buckets_emits|repeat field_step].
  - destruct cs; [discriminate|]. repeat field_step.
Qed.

Lemma exp_reads start t n sum cs : positive_ok cs ->
  reads (exp_fields attrs start t n sum cs) read_exp
    (mk_exp (u64 start) (u64 t) (u64 n) (u64 sum) 0 0 (match cs with Some p => p | None => (0, []) end) (map attr_view attrs)).
Proof.
  intros Hok. split.
  - pose proof (u64_word start). pose proof (u64_word t). pose proof (u64_word n). pose proof (u64_word sum). unfold word in *.
    unfold exp_fields. rewrite !Forall_app.
    repeat split; try (now apply attrs_num_ok); try (apply num_ok_opt; [lia|split; cbn; lia]); [repeat constructor; cbn; lia|].
    destruct cs as [p|]; repeat constructor; cbn; lia.
  - intros L. unfold read_exp. 
    assert (A : repeated 1 read_kv (exp_fields attrs start t n sum cs) = Some (map attr_view attrs)).
    { apply attrs_read; [unfold exp_fields; rewrite !reps_app, !reps_len, !reps_num by discriminate; cbn; now rewrite ?app_nil_r
                        |intros x Hx; unfold exp_fields; rewrite !in_app_iff; tauto|exact L]. }
    rewrite A. clear A.
    assert (P : sub 8 (0, []) read_buckets (exp_fields attrs start t n sum cs) = Some (match cs with Some p => p | None => (0, []) end)).
    { assert (R : reps 8 (exp_fields attrs start t n sum cs) =
        match cs with Some p => [bytes (buckets_fields (fst p) (snd p))] | None => [] end).
      { unfold exp_fields. rewrite !reps_app, !reps_attrs, !reps_len, !reps_num by discriminate. now destruct cs. }
      destruct cs as [[o cs]|]; [|unfold sub; now rewrite R].
      apply (sub_one 8 (0, []) read_buckets (buckets_fields o cs) (o, cs)); auto; [|apply buckets_reads; apply Hok].
      unfold exp_fields. rewrite !in_app_iff. cbn [option_map opt_len In fst snd]. tauto. }
    rewrite P. clear P L. unfold num, exp_fields. rewrite !nums_app, !nums_num64, !nums_attrs, !nums_len.
    cbn [Z.eqb Pos.eqb nums flat_map app]. rewrite ?app_nil_r. rewrite !one_num by (intros ->; reflexivity). cbn [one bind]. reflexivity.
Qed.

End Points.

(** ** Points of a metric *)

Definition live_points {A} (live : A -> Z) (l : list A) : list A := filter (fun x => negb (live x =? 0)) l.

Definition points {X} (g : X -> list wfield) (l : list X) : list wfield := map (fun x => (1, WLen (bytes (g x)))) l.

Lemma put_points_emits {X} (m : X -> list field) (g : X -> list wfield) l : (forall x, emits (pb_encode (m x)) (g x)) ->
  emits (each (fun x => put (mk_fld 1 SUBMESSAGE) (m x)) l) (points g l).
Proof.
  intros H. unfold points. replace (map _ l) with (flat_map (fun x => [(1, WLen (bytes (g x)))]) l)
    by (induction l as [|x l IH]; [reflexivity|cbn; now rewrite <- IH]).
  apply emits_each. intros x _. apply (emits_submessage (mk_fld 1 SUBMESSAGE)); [reflexivity|cbn; lia|apply H].
Qed.

Lemma live_points_emits {X} live (m : X -> list field) (g : X -> list wfield) l : (forall x, emits (pb_encode (m x)) (g x)) ->
  emits (each_live live m l (mk_fld 1 SUBMESSAGE)) (points g (live_points live l)).
Proof.
  intros H. unfold each_live, points, live_points.
  replace (map _ (filter _ l)) with (flat_map (fun x => if live x =? 0 then [] else [(1, WLen (bytes (g x)))]) l).
  - apply emits_each. intros x _. destruct (live x =? 0); [apply emits_nil|].
    apply (emits_submessage (mk_fld 1 SUBMESSAGE)); [reflexivity|cbn; lia|apply H].
  - clear H. induction l as [|x l IH]; [reflexivity|]. cbn [flat_map filter]. rewrite IH. now destruct (live x =? 0).
Qed.

Section Metric.
Context {X V : Type} (g : X -> list wfield) (r : list wfield -> option V) (h : X -> V).
Hypothesis g_reads : forall x, reads (g x) r (h x).

Lemma points_num_ok l : Forall num_ok (points g l).
Proof. apply Forall_map, Forall_forall. intros x _. split; cbn; auto; lia. Qed.

Lemma points_read l rest : reps 1 rest = [] -> len (bytes (points g l ++ rest)) < 2 ^ 63 ->
  repeated 1 r (points g l ++ rest) = Some (map h l).
Proof.
  intros E L. apply (repeated_map 1 r g h l); auto.
  - rewrite reps_app, E, app_nil_r. apply reps_map.
  - intros x Hx. apply in_app_iff. left. now apply (in_map (fun x => (1, WLen (bytes (g x))))).
Qed.

Lemma nums_points n l : nums n (points g l) = [].
Proof. apply nums_map. Qed.

End Metric.

Definition sum_fields (dps : list wfield) : list wfield := dps ++ [(2, WVarint 2); (3, WVarint 1)].
Definition histogram_fields (dps : list wfield) : list wfield := dps ++ [(2, WVarint 2)].

Lemma gauge_ok {X} (g : X -> list wfield) h l cb : (forall x, reads (g x) read_number (h x)) ->
  emits (cb (mk_fld 1 SUBMESSAGE)) (points g l) ->
  emits (pb_encode (Gauge cb)) (points g l) /\ reads (points g l) (read_member 5) (VGauge (map h l)).
Proof.
  intros Hr He. split.
  - rewrite <- (app_nil_r (points g l)). apply emits_call; [reflexivity|exact He|apply emits_end].
  - split; [apply points_num_ok|]. rewrite <- (app_nil_r (points g l)). intros L. cbn [read_member Z.eqb Pos.eqb].
    now rewrite (points_read g read_number h Hr l [] eq_refl L).
Qed.

Lemma sum_ok {X} (g : X -> list wfield) h l cb : (forall x, reads (g x) read_number (h x)) ->
  emits (cb (mk_fld 1 SUBMESSAGE)) (points g l) ->
  emits (pb_encode (Sum cb AGGREGATION_TEMPORALITY_CUMULATIVE true)) (sum_fields (points g l)) /\
  reads (sum_fields (points g l)) (read_member 7) (VSum 2 1 (map h l)).
Proof.
  intros Hr He. split.
  - apply emits_call; [reflexivity|exact He|].
    do 2 (apply emits_set; [reflexivity|cbn; auto; unfold AGGREGATION_TEMPORALITY_CUMULATIVE; lia|cbn; lia|]). apply emits_end.
  - split; [apply Forall_app; split; [apply points_num_ok|repeat constructor; cbn; lia]|]. intros L.
    cbn [read_member Z.eqb Pos.eqb]. unfold sum_fields in *. rewrite (points_read g read_number h Hr l [(2, WVarint 2); (3, WVarint 1)] eq_refl L).
    unfold num. rewrite !nums_app, !nums_points. reflexivity.
Qed.

Lemma histogram_ok {X V} (g : X -> list wfield) (r : list wfield -> option V) (h : X -> V) l cb w K :
  (forall fs, read_member w fs = bind (repeated 1 r fs) (fun l => bind (num 2 fs) (fun t => Some (K t l)))) ->
  (forall x, reads (g x) r (h x)) -> emits (cb (mk_fld 1 SUBMESSAGE)) (points g l) ->
  emits (pb_encode (Histogram cb AGGREGATION_TEMPORALITY_CUMULATIVE)) (histogram_fields (points g l)) /\
  reads (histogram_fields (points g l)) (read_member w) (K 2 (map h l)).
Proof.
  intros Hw Hr He. split.
  - apply emits_call; [reflexivity|exact He|].
    apply emits_set; [reflexivity|cbn; unfold AGGREGATION_TEMPORALITY_CUMULATIVE; lia|cbn; lia|apply emits_end].
  - split; [apply Forall_app; split; [apply points_num_ok|repeat constructor; cbn; lia]|]. intros L.
    rewrite Hw. unfold histogram_fields in *. rewrite (points_read g r h Hr l [(2, WVarint 2)] eq_refl L).
    unfold num. rewrite !nums_app, !nums_points. reflexivity.
Qed.

(** ** A metric *)

Definition metric_fields (name : text) (unit : option text) (w : Z) (d : list wfield) : list wfield :=
  [(1, WLen (text_bytes name))] ++ match unit with Some (c :: u) => [(3, WLen (text_bytes (c :: u)))] | _ => [] end ++ [(w, WLen (bytes d))].

Definition unit_bytes (unit : option text) : list Z := match unit with Some u => text_bytes u | None => [] end.

Lemma metric_emits name unit w data d : In w [5; 7; 9; 10] -> emits (pb_encode data) d ->
  emits (pb_encode (Metric (otlp_enc_string name) (unit_cb unit) w data)) (metric_fields name unit w d).
Proof.
  intros Hw Hd. unfold Metric, metric_fields. field_step; [now apply (enc_string_emits _ (mk_fld 1 STRING))|]. field_step.
  apply emits_cons.
  - unfold unit_cb. destruct unit as [[|c u]|]; cbn [nonempty option_map encode_field skipped]; [apply emits_nil| |apply emits_nil].
    now apply (enc_string_emits _ (mk_fld 3 STRING)).
  - cbn [In] in Hw. destruct Hw as [<-|[<-|[<-|[<-|[]]]]];
      repeat (apply emits_skip; [reflexivity|]); (apply emits_sub; [reflexivity|cbn; lia|exact Hd|]);
      repeat field_step.
Qed.

Lemma metric_reads name unit w d v : In w [5; 7; 9; 10] -> reads d (read_member w) v ->
  reads (metric_fields name unit w d) read_metric (text_bytes name, unit_bytes unit, v).
Proof.
  intros Hw [D R]. split.
  - unfold metric_fields. rewrite !Forall_app. repeat split; [repeat constructor; cbn; lia| |].
    + destruct unit as [[|c u]|]; repeat constructor; cbn; lia.
    + constructor; [|constructor]. cbn [In] in Hw. split; cbn; [lia|auto].
  - intros L. assert (Ld : len (bytes d) < 2 ^ 63).
    { eapply Z.le_lt_trans; [|exact L]. apply (len_in w). unfold metric_fields. rewrite !in_app_iff. right. right. now left. }
    pose proof (reads_msg d (read_member w) v (conj D R) Ld) as M.
    unfold read_metric, read_data, metric_fields. cbn [In] in Hw.
    destruct Hw as [<-|[<-|[<-|[<-|[]]]]], unit as [[|c u]|]; cbn; rewrite M; reflexivity.
Qed.

(** ** The points the builders make *)

Definition code_attrs (m : otlp_method_metric_t) : list attr :=
  [AStr (lit "code.function") (method m)] ++ opt_attr (lit "code.filepath") (file m)
  ++ Traces.int_attr (0 <? line m) (lit "code.lineno") (line m).

Definition label_attrs (l : list otlp_kv_t) : list attr := flat_map (fun a => [kv_attr a]) l.

(** An attribute callback, in whichever field it is called. *)
Definition puts (enc : fld -> encoder) (attrs : list attr) : Prop :=
  forall f, wiretype (lt f) = 2 -> 0 < tag f < 2 ^ 29 -> emits (enc f) (attrs_fields (tag f) attrs).

Lemma code_attrs_puts m : puts (enc_code_attrs m) (code_attrs m).
Proof.
  intros f Hw Ht. apply emits_attrs; [now apply put_kv_str_emits|]. apply emits_attrs; [now apply put_if_emits|].
  now apply Traces.put_int_if_emits.
Qed.

Lemma label_attrs_puts l : puts (fun f => each (fun a => otlp_put_kv_str f (key a) (val a)) l) (label_attrs l).
Proof. intros f Hw Ht. apply emits_each_attr. intros a _. now apply put_kv_str_emits. Qed.

Definition positive_of (l : list Z) (fl : option (nat * nat)) : option (Z * list Z) :=
  option_map (fun fl => (Z.of_nat (fst fl), window l (fst fl) (snd fl - fst fl + 1))) fl.

Definition exp_fields_of (t start : Z) (l : list Z) (attrs : list attr) : list wfield :=
  let '(fl, total, sum) := scan_slots l in exp_fields attrs start t total (double_bits sum) (positive_of l fl).

Definition exp_seen (t start : Z) (l : list Z) (attrs : list attr) : exp_view :=
  let '(fl, total, sum) := scan_slots l in
  mk_exp (u64 start) (u64 t) (u64 total) (u64 (double_bits sum)) 0 0
    (match positive_of l fl with Some p => p | None => (0, []) end) (map attr_view attrs).

Definition fold_fields_of (t start : Z) (l : list Z) (attrs : list attr) : list wfield :=
  let '(bc, total, sum) := otlp_log2_fold l in
  hist_fields start t total (double_bits sum) (window bc 0 OTLP_LOG2_NBUCKETS) (bound_bits otlp_log2_ns_bounds OTLP_LOG2_NBOUNDS) attrs.

Definition fold_seen (t start : Z) (l : list Z) (attrs : list attr) : hist_view :=
  let '(bc, total, sum) := otlp_log2_fold l in
  mk_hist (u64 start) (u64 t) (u64 total) (u64 (double_bits sum)) (window bc 0 OTLP_LOG2_NBUCKETS)
    (bound_bits otlp_log2_ns_bounds OTLP_LOG2_NBOUNDS) (map attr_view attrs).

(** The scan: where the counting slots are, and their total. *)
Definition scan_inv (l : list Z) (k : nat) (fl : option (nat * nat)) (total : Z) : Prop :=
  total = u64 (zsum (fun s => nth s l 0) (seq 0 k)) /\
  match fl with
  | None => forall s, (s < k)%nat -> nth s l 0 = 0
  | Some (first, last) => (first <= last < k)%nat /\ nth first l 0 <> 0 /\ nth last l 0 <> 0 /\
      forall s, (s < k)%nat -> (s < first \/ last < s)%nat -> nth s l 0 = 0
  end.

Lemma zsum_snoc (f : nat -> Z) k : zsum f (seq 0 (S k)) = zsum f (seq 0 k) + f k.
Proof.
  rewrite seq_S, Nat.add_0_l. generalize (seq 0 k) as l. induction l as [|x l IH]; cbn [app zsum fold_right]; [lia|].
  fold (zsum f (l ++ [k])). fold (zsum f l). lia.
Qed.

Lemma scan_slots_inv l k : let '(fl, total, _) := fold_left (scan_slot l) (seq 0 k) (None, 0, S754_zero false) in scan_inv l k fl total.
Proof.
  induction k as [|k IH]; [split; [reflexivity|intros; lia]|].
  rewrite seq_S, fold_left_app. cbn [fold_left Nat.add]. destruct (fold_left _ (seq 0 k) _) as [[fl total] sum].
  destruct IH as [IT IF]. unfold scan_slot. destruct (Z.eqb_spec (nth k l 0) 0) as [E|E].
  - split; [rewrite zsum_snoc, E, Z.add_0_r; exact IT|]. destruct fl as [[f la]|].
    + destruct IF as (I1 & I2 & I3 & I4). repeat split; auto; try lia. intros s Hs Ho.
      destruct (Nat.eq_dec s k) as [->|]; [exact E|apply I4; lia].
    + intros s Hs. destruct (Nat.eq_dec s k) as [->|]; [exact E|apply IF; lia].
  - split; [rewrite zsum_snoc, IT; apply wrap_add_l|]. destruct fl as [[f la]|].
    + destruct IF as (I1 & I2 & I3 & I4). repeat split; auto; try lia. intros s Hs Ho. apply I4; lia.
    + repeat split; auto; try lia. intros s Hs Ho. apply IF. lia.
Qed.

Lemma scan_spec l : let '(fl, total, _) := scan_slots l in scan_inv l OTLP_HIST_SLOTS fl total.
Proof. exact (scan_slots_inv l OTLP_HIST_SLOTS). Qed.

Lemma positive_of_ok l : let '(fl, _, _) := scan_slots l in positive_ok (positive_of l fl).
Proof.
  pose proof (scan_spec l) as H. destruct (scan_slots l) as [[[[f la]|] total] sum]; [|exact I]. destruct H as (_ & H & _). unfold OTLP_HIST_SLOTS in H.
  cbn [positive_of option_map positive_ok fst snd]. split; [lia|apply window_words].
Qed.

Lemma exp_point_ok t start l enc attrs : puts enc attrs ->
  emits (pb_encode (exp_point t start l enc)) (exp_fields_of t start l attrs) /\
  reads (exp_fields_of t start l attrs) read_exp (exp_seen t start l attrs).
Proof.
  intros H. pose proof (positive_of_ok l) as P. unfold exp_point, exp_fields_of, exp_seen.
  destruct (scan_slots l) as [[fl total] sum]. split; [|now apply exp_reads].
  apply exp_emits; auto; [now destruct fl as [[f la]|]| |now apply (H (mk_fld 1 SUBMESSAGE))].
  intros o c E. destruct fl as [[f la]|]; [|discriminate]. injection E as <- <-. eexists. split; [reflexivity|].
  apply each_varints; auto using window_words. cbn; lia.
Qed.

Lemma hist_point_ok start t n sum l k bounds nb enc attrs : puts enc attrs ->
  emits (pb_encode (HistogramDataPoint start t n sum (enc_hist_bucket_counts l 0 k) (enc_explicit_bounds bounds nb) enc))
    (hist_fields start t n (double_bits sum) (window l 0 k) (bound_bits bounds nb) attrs) /\
  reads (hist_fields start t n (double_bits sum) (window l 0 k) (bound_bits bounds nb) attrs) read_hist
    (mk_hist (u64 start) (u64 t) (u64 n) (u64 (double_bits sum)) (window l 0 k) (bound_bits bounds nb) (map attr_view attrs)).
Proof.
  intros H. split.
  - apply hist_emits; [now apply (H (mk_fld 9 SUBMESSAGE))| |].
    + apply each_words; auto using window_words. cbn; lia.
    + apply bounds_emits; auto. cbn; lia.
  - apply hist_reads; [apply window_words|]. apply Forall_map, Forall_forall. intros d _. apply u64_word.
Qed.

Lemma fold_point_ok t start l enc attrs : puts enc attrs ->
  emits (pb_encode (fold_point t start l enc)) (fold_fields_of t start l attrs) /\
  reads (fold_fields_of t start l attrs) read_hist (fold_seen t start l attrs).
Proof.
  intros H. unfold fold_point, fold_fields_of, fold_seen. destruct (otlp_log2_fold l) as [[bc total] sum]. now apply hist_point_ok.
Qed.

Definition number_seen (t start v : Z) (attrs : list attr) : number_view :=
  mk_number (u64 start) (u64 t) (sgn 64 v) (map attr_view attrs).

Lemma sgn64_sgn64 v : sgn 64 (sgn 64 v) = sgn 64 v.
Proof. apply sgn_small; [lia|]. apply sgn_range. lia. Qed.

Lemma number_point_ok t start v enc attrs : puts enc attrs ->
  emits (pb_encode (NumberDataPoint start t (sgn 64 v) enc)) (number_fields start t (sgn 64 v) attrs) /\
  reads (number_fields start t (sgn 64 v) attrs) read_number (number_seen t start v attrs).
Proof.
  intros H. split; [apply number_emits; now apply (H (mk_fld 7 SUBMESSAGE))|].
  pose proof (number_reads attrs start t (sgn 64 v)) as R. rewrite sgn64_sgn64 in R. exact R.
Qed.

(** ** Requests *)

Definition metric_seen : Type := list Z * list Z * data_view.

(** The message of a metric, its fields on the wire, and what is read from them. *)
Definition metric_ok (m : list field) (fs : list wfield) (v : metric_seen) : Prop :=
  emits (pb_encode m) fs /\ reads fs read_metric v.

Definition calls_fields (t start : Z) (m : otlp_method_metric_t) : list wfield := number_fields start t (sgn 64 (calls m)) (code_attrs m).
Definition series_fields (t start : Z) (x : otlp_series_t) : list wfield := number_fields start t (sgn 64 (count x)) (label_attrs (labels x)).
Definition series_seen (t start : Z) (x : otlp_series_t) : number_view := number_seen t start (count x) (label_attrs (labels x)).
Definition hseries_fields (bounds : list double) (nb : nat) (t start : Z) (x : otlp_hseries_t) : list wfield :=
  hist_fields start t (h_count x) (double_bits (h_sum x)) (window (bucket_counts x) 0 (nb + 1)) (bound_bits bounds nb) (label_attrs (h_labels x)).
Definition hseries_seen (bounds : list double) (nb : nat) (t start : Z) (x : otlp_hseries_t) : hist_view :=
  mk_hist (u64 start) (u64 t) (u64 (h_count x)) (u64 (double_bits (h_sum x))) (window (bucket_counts x) 0 (nb + 1)) (bound_bits bounds nb)
    (map attr_view (label_attrs (h_labels x))).

Definition method_fields (part : otlp_method_part_t) (t start : Z) (ms : list otlp_method_metric_t) : list wfield :=
  let l := live_points calls ms in
  match part with
  | OTLP_MPART_CALLS => metric_fields (lit "spnl_method_calls_total") None 7 (sum_fields (points (calls_fields t start) l))
  | OTLP_MPART_LATENCY_EXP => metric_fields (lit "spnl_method_latency_ns") (Some (lit "ns")) 10
      (histogram_fields (points (fun m => exp_fields_of t start (buckets m) (code_attrs m)) l))
  | OTLP_MPART_LATENCY_HIST => metric_fields (lit "spnl_method_latency_ns") (Some (lit "ns")) 9
      (histogram_fields (points (fun m => fold_fields_of t start (buckets m) (code_attrs m)) l))
  end.

Definition method_seen (part : otlp_method_part_t) (t start : Z) (ms : list otlp_method_metric_t) : metric_seen :=
  let l := live_points calls ms in
  match part with
  | OTLP_MPART_CALLS => (text_bytes (lit "spnl_method_calls_total"), [],
      VSum 2 1 (map (fun m => number_seen t start (calls m) (code_attrs m)) l))
  | OTLP_MPART_LATENCY_EXP => (text_bytes (lit "spnl_method_latency_ns"), text_bytes (lit "ns"),
      VExponential 2 (map (fun m => exp_seen t start (buckets m) (code_attrs m)) l))
  | OTLP_MPART_LATENCY_HIST => (text_bytes (lit "spnl_method_latency_ns"), text_bytes (lit "ns"),
      VHistogram 2 (map (fun m => fold_seen t start (buckets m) (code_attrs m)) l))
  end.

Lemma metric_ok_of name unit w data d v : In w [5; 7; 9; 10] -> emits (pb_encode data) d /\ reads d (read_member w) v ->
  metric_ok (Metric (otlp_enc_string name) (unit_cb unit) w data) (metric_fields name unit w d) (text_bytes name, unit_bytes unit, v).
Proof. intros Hw [He Hr]. split; [now apply metric_emits|now apply metric_reads]. Qed.

Lemma method_metric_ok part t start ms : metric_ok (method_metric part t start ms) (method_fields part t start ms) (method_seen part t start ms).
Proof.
  destruct part; unfold method_metric, method_fields, method_seen.
  - apply (metric_ok_of _ None); [cbn; auto|]. apply sum_ok; [|apply live_points_emits]; intros m;
      apply (number_point_ok t start (calls m) _ _ (code_attrs_puts m)).
  - apply (metric_ok_of _ (Some (lit "ns"))); [cbn; auto|].
    apply (histogram_ok _ read_exp _ _ _ 10 VExponential); [reflexivity| |apply live_points_emits]; intros m;
      apply (exp_point_ok t start (buckets m) _ _ (code_attrs_puts m)).
  - apply (metric_ok_of _ (Some (lit "ns"))); [cbn; auto|].
    apply (histogram_ok _ read_hist _ _ _ 9 VHistogram); [reflexivity| |apply live_points_emits]; intros m;
      apply (fold_point_ok t start (buckets m) _ _ (code_attrs_puts m)).
Qed.

Section Received.
Context (p : process) (cap : Z) (service_name service_version scope_name : option text).
Hypothesis cap_ok : 0 <= cap < 2 ^ 63.

(** A request with the one metric [fs], read as [v]. *)
Definition arrives_metric (out : option (list Z)) (fs : list wfield) (v : metric_seen) : Prop :=
  let req := bytes (request_fields p service_name service_version scope_name (fun _ : unit => fs) [tt]) in
  len req < 2 ^ 63 -> out = (if len req <=? cap then Some req else None) /\
    read_request read_metric req = Some (received p service_name service_version scope_name (fun _ : unit => v) [tt]).

Lemma put_arrives m fs v cb : metric_ok m fs v -> cb (mk_fld 2 SUBMESSAGE) = put (mk_fld 2 SUBMESSAGE) m ->
  arrives_metric (metrics_envelope_encode p cap service_name service_version scope_name cb) fs v.
Proof.
  intros [He Hr] Hcb. unfold arrives_metric. intros L. split.
  - apply encode_into_emits; auto. apply request_emits. rewrite Hcb.
    apply (emits_submessage (mk_fld 2 SUBMESSAGE)); [reflexivity|cbn; lia|exact He].
  - now apply request_read.
Qed.

(** C30: the request of each per-method part holds exactly one metric, from which a
    collector reads the data points of the methods that were called, in order: the
    call counts as a cumulative monotonic sum, or the latencies as an exponential or
    an explicit-bucket histogram; it is written when it fits the buffer and refused
    otherwise. *)
Theorem otlp_metrics_method_received part t start ms :
  arrives_metric (otlp_metrics_method_build p cap service_name service_version scope_name part t start ms)
    (method_fields part t start ms) (method_seen part t start ms).
Proof. eapply put_arrives; [apply method_metric_ok|reflexivity]. Qed.

(** The four builders of keyed metrics (gauge, sum, exponential and explicit
    histogram) send one metric with the given name and unit, from which a collector
    reads back the labels and values of every series that counted. *)
Theorem otlp_metrics_series_received name unit bounds nb t start ss hs :
  let l := live_points count ss in
  arrives_metric (otlp_metrics_gauge_build p cap service_name service_version scope_name name unit t start ss)
    (metric_fields name unit 5 (points (series_fields t start) l))
    (text_bytes name, unit_bytes unit, VGauge (map (series_seen t start) l)) /\
  arrives_metric (otlp_metrics_sum_build p cap service_name service_version scope_name name unit t start ss)
    (metric_fields name unit 7 (sum_fields (points (series_fields t start) l)))
    (text_bytes name, unit_bytes unit, VSum 2 1 (map (series_seen t start) l)) /\
  arrives_metric (otlp_metrics_exphist_build p cap service_name service_version scope_name name unit t start ss)
    (metric_fields name unit 10 (histogram_fields (points (fun x => exp_fields_of t start (s_buckets x) (label_attrs (labels x))) l)))
    (text_bytes name, unit_bytes unit, VExponential 2 (map (fun x => exp_seen t start (s_buckets x) (label_attrs (labels x))) l)) /\
  arrives_metric (otlp_metrics_hist_build p cap service_name service_version scope_name name unit bounds nb t start hs)
    (metric_fields name unit 9 (histogram_fields (points (hseries_fields bounds nb t start) hs)))
    (text_bytes name, unit_bytes unit, VHistogram 2 (map (hseries_seen bounds nb t start) hs)).
Proof.
  intros l. split; [|split; [|split]]; (eapply put_arrives; [apply metric_ok_of; [cbn; auto|]|reflexivity]).
  - apply gauge_ok; [|apply live_points_emits]; intros x; apply (number_point_ok t start (count x) _ _ (label_attrs_puts (labels x))).
  - apply sum_ok; [|apply live_points_emits]; intros x; apply (number_point_ok t start (count x) _ _ (label_attrs_puts (labels x))).
  - apply (histogram_ok _ read_exp _ _ _ 10 VExponential); [reflexivity| |apply live_points_emits]; intros x;
      apply (exp_point_ok t start (s_buckets x) _ _ (label_attrs_puts (labels x))).
  - apply (histogram_ok _ read_hist _ _ _ 9 VHistogram); [reflexivity| |apply put_points_emits]; intros x;
      apply (hist_point_ok start t (h_count x) (h_sum x) (bucket_counts x) (nb + 1) bounds nb _ _ (label_attrs_puts (h_labels x))).
Qed.

End Received.

Definition sample_metrics : list otlp_method_metric_t :=
  [mk_mm (lit "run") (Some (lit "a.rb")) 3 4 (Kernel.observed [900; 1024; 1500; 70000]); mk_mm (lit "idle") None 0 0 (Kernel.observed [])].

Lemma otlp_metrics_method_received_witness :
  exists req, otlp_metrics_method_build Logs.sample_process 1024 None None None OTLP_MPART_LATENCY_EXP 7 1 sample_metrics = Some req /\
    option_map (map (fun g => map snd (snd g))) (read_request read_metric req) =
      Some [[[method_seen OTLP_MPART_LATENCY_EXP 7 1 sample_metrics]]].
Proof.
  assert (C : (len (bytes (request_fields Logs.sample_process None None None
      (fun _ : unit => method_fields OTLP_MPART_LATENCY_EXP 7 1 sample_metrics) [tt])) <=? 1024) = true) by (vm_compute; reflexivity).
  destruct (otlp_metrics_method_received Logs.sample_process 1024 None None None ltac:(lia) OTLP_MPART_LATENCY_EXP 7 1 sample_metrics)
    as [B R]; [apply Z.leb_le in C; lia|]. rewrite C in B. eexists. split; [exact B|]. now rewrite R.
Defined.

Definition sample_series : list otlp_series_t := [mk_series 2 (Kernel.observed [5; 9]) [mk_kv (lit "pid") (lit "7")]; mk_series 0 [] []].

Lemma otlp_metrics_series_received_witness :
  exists req, otlp_metrics_sum_build Logs.sample_process 1024 None None None (lit "conn") None 7 1 sample_series = Some req /\
    option_map (map (fun g => map snd (snd g))) (read_request read_metric req) =
      Some [[[(text_bytes (lit "conn"), [], VSum 2 1 [mk_number 1 7 2 [(text_bytes (lit "pid"), VStr (text_bytes (lit "7")))]])]]].
Proof.
  assert (C : (len (bytes (request_fields Logs.sample_process None None None
      (fun _ : unit => metric_fields (lit "conn") None 7 (sum_fields (points (series_fields 7 1) (live_points count sample_series)))) [tt]))
      <=? 1024) = true) by (vm_compute; reflexivity).
  destruct (otlp_metrics_series_received Logs.sample_process 1024 None None None ltac:(lia) (lit "conn") None [] 0 7 1 sample_series [])
    as (_ & H & _). destruct H as [B R]; [apply Z.leb_le in C; lia|]. rewrite C in B. eexists. split; [exact B|]. rewrite R.
  vm_compute. reflexivity.
Defined.

(** ** What the exponential histogram says of the samples *)

Import Kernel.

(** The count at bucket index [i]. *)
Definition bucket_at (p : option (Z * list Z)) (i : Z) : Z :=
  match p with Some (o, cs) => if o <=? i then nth (Z.to_nat (i - o)) cs 0 else 0 | None => 0 end.

(** The schema's bucket [i] at scale 0. *)
Definition in_bucket (i v : Z) : Prop := 2 ^ i < v <= 2 ^ (i + 1).

Lemma nth_window l o n j : nth j (window l o n) 0 = if (j <? n)%nat then u64 (nth (o + j) l 0) else 0.
Proof.
  unfold window. destruct (Nat.ltb_spec j n) as [L|L]; [|apply nth_overflow; rewrite length_map, length_seq; lia].
  rewrite (nth_indep _ 0 (u64 (nth (o + 0) l 0))) by (rewrite length_map, length_seq; lia).
  rewrite (map_nth (fun i => u64 (nth (o + i) l 0)) (seq 0 n) 0%nat j), seq_nth by lia. reflexivity.
Qed.

Lemma positive_slots l s : (s < 64)%nat -> nth s l 0 = u64 (nth s l 0) ->
  let '(fl, _, _) := scan_slots l in bucket_at (positive_of l fl) (Z.of_nat s) = nth s l 0.
Proof.
  intros Hs Hw. pose proof (scan_spec l) as H. destruct (scan_slots l) as [[fl total] sum]. destruct H as [_ H]. unfold OTLP_HIST_SLOTS in H.
  destruct fl as [[f la]|]; cbn [positive_of option_map bucket_at fst snd]; [|symmetry; now apply H].
  destruct H as (H1 & H2 & H3 & H4). destruct (Z.leb_spec (Z.of_nat f) (Z.of_nat s)) as [L|L]; [|symmetry; apply H4; lia].
  rewrite nth_window. replace (f + Z.to_nat (Z.of_nat s - Z.of_nat f))%nat with s by lia.
  destruct (Nat.ltb_spec (Z.to_nat (Z.of_nat s - Z.of_nat f)) (la - f + 1)); [now symmetry|symmetry; apply H4; lia].
Qed.

(** C32: the exponential histogram counts every sample once, in the bucket whose index
    is the floor of the sample's logarithm; the schema defines bucket [i] as the
    values above [2^i] and up to [2^(i+1)], and this is the bucket of every sample
    above 1 that is not a power of two, and of no other sample. *)
Theorem exponential_histogram_buckets (vs : list Z) : Forall s64_sample vs -> Z.of_nat (length vs) < 2 ^ 64 ->
  (let '(fl, total, _) := scan_slots (observed vs) in
   total = Z.of_nat (length vs) /\
   forall s, (s < 64)%nat -> bucket_at (positive_of (observed vs) fl) (Z.of_nat s) = OtlpHist.count (fun v => (slot_of v =? s)%nat) vs) /\
  Forall (fun v => in_bucket (Z.of_nat (slot_of v)) v <-> 1 < v /\ v <> 2 ^ Z.log2 v) vs.
Proof.
  intros H Hn. split.
  - pose proof (scan_spec (observed vs)) as I. pose proof (positive_slots (observed vs)) as P.
    destruct (scan_slots (observed vs)) as [[fl total] sum]. destruct I as [-> _]. split.
    + rewrite (slots_total vs (fun _ => true) H), count_all by (apply Forall_forall; reflexivity). apply wrap_small. lia.
    + intros s Hs. rewrite P; [now apply observed_count|exact Hs|]. rewrite observed_count by assumption. symmetry. apply wrap_small.
      pose proof (count_range (fun v => (slot_of v =? s)%nat) vs). lia.
  - eapply Forall_impl; [|exact H]. intros v Hv. unfold in_bucket, slot_of.
    pose proof (spnl_hist_log2_range v Hv). rewrite Z2Nat.id by lia.
    destruct (Z.leb_spec v 1) as [L|L]; [rewrite spnl_hist_log2_low by lia; cbn; lia|].
    destruct Hv as [_ Hv]. rewrite spnl_hist_log2_floor by lia. pose proof (Z.log2_spec v ltac:(lia)) as [S1 S2].
    rewrite Z.add_1_r. lia.
Qed.

Lemma exponential_histogram_buckets_witness :
  Forall (fun v => in_bucket (Z.of_nat (slot_of v)) v <-> 1 < v /\ v <> 2 ^ Z.log2 v) [900; 1024] /\
  bucket_at (let '(fl, _, _) := scan_slots (observed [900; 1024]) in positive_of (observed [900; 1024]) fl) 10 = 1.
Proof.
  split; [|vm_compute; reflexivity].
  apply (exponential_histogram_buckets [900; 1024]); [repeat constructor; vm_compute; congruence|vm_compute; reflexivity].
Defined.

End Arrive.
