(* ===== verification/Json.v ===== *)
(** * JSON text ([src/runtime/otlp/otlp_json.c], the writer)

    - [Writer]: [jw_t], a writer over a fixed buffer, and the [jw_*] routines for
      characters, strings and numbers; [Percent_g] is the [%g] conversion they use.
    - [Tree]: JSON documents, their compact text, and a parser for the grammar of RFC
      8259 that recovers every document from it whatever characters its strings
      contain.
    - [Utf8]: the text is UTF-8 when the strings are. *)

From Stdlib Require Import SpecFloat.
From S2P Require Import Prelude CText OtlpHist.
Local Open Scope string_scope.
Local Open Scope list_scope.
Local Open Scope Z_scope.

(** ** [printf("%g")] of a double: six significant digits *)
Module Percent_g.
Import Doubles.

(** The least [k] with [den <= num * 10^k]. *)
Fixpoint scale_up (fuel : nat) (num den k : Z) : Z :=
  match fuel with
  | O => k
  | S f => if den <=? num * 10 ^ k then k else scale_up f num den (k + 1)
  end.

(** The decimal exponent of a positive rational. *)
Definition exponent10 (num den : Z) : Z :=
  if den <=? num then Z.of_nat (length (dec_u (num / den))) - 1 else - scale_up 330 num den 1.

Definition round_even (num den : Z) : Z :=
  let q := num / den in
  let r := num mod den in
  if 2 * r <? den then q else if den <? 2 * r then q + 1 else if Z.even q then q else q + 1.

(** Six digits and the exponent of the first. *)
Definition digits6 (num den : Z) : Z * Z :=
  let x := exponent10 num den in
  let d := if x <=? 5 then round_even (num * 10 ^ (5 - x)) den else round_even num (den * 10 ^ (x - 5)) in
  if d =? 10 ^ 6 then (10 ^ 5, x + 1) else (d, x).

Fixpoint strip_zeros (s : text) : text :=
  match s with
  | [] => []
  | c :: s' => match strip_zeros s' with [] => if Ascii.eqb c "0" then [] else [c] | t => c :: t end
  end.

(** A fraction is written only when it has digits left. *)
Definition with_fraction (i f : text) : text := match strip_zeros f with [] => i | f => i ++ "."%char :: f end.

Definition fmt_digits (d x : Z) : text :=
  let s := dec_u d in
  if (-4 <=? x) && (x <? 6) then
    if 0 <=? x then with_fraction (firstn (Z.to_nat (x + 1)) s) (skipn (Z.to_nat (x + 1)) s)
    else with_fraction ["0"%char] (repeat "0"%char (Z.to_nat (- x - 1)) ++ s)
  else
    with_fraction (firstn 1 s) (skipn 1 s) ++ "e"%char :: (if x <? 0 then "-"%char else "+"%char)
      :: (if Z.abs x <? 10 then "0"%char :: dec_u (Z.abs x) else dec_u (Z.abs x)).

Definition fmt_g (v : double) : text :=
  match v with
  | S754_zero s => if s then lit "-0" else lit "0"
  | S754_infinity s => if s then lit "-inf" else lit "inf"
  | S754_nan => lit "nan"
  | S754_finite s m e =>
      let '(d, x) := if 0 <=? e then digits6 (Z.pos m * 2 ^ e) 1 else digits6 (Z.pos m) (2 ^ (- e)) in
      (if s then ["-"%char] else []) ++ fmt_digits d x
  end.

(** *** The numbers of the JSON grammar *)

(** The characters of a JSON number. *)
Definition numeric (c : ascii) : bool :=
  is_digit c || Ascii.eqb c "-" || Ascii.eqb c "+" || Ascii.eqb c "." || Ascii.eqb c "e" || Ascii.eqb c "E".

Definition all_digits (s : text) : Prop := Forall (fun c => is_digit c = true) s.

(** [int = zero / ( digit1-9 *DIGIT )] *)
Definition int_part (s : text) : Prop :=
  s = ["0"%char] \/ exists c r, s = c :: r /\ is_digit c = true /\ c <> "0"%char /\ all_digits r.

(** [frac = decimal-point 1*DIGIT], or nothing. *)
Definition frac_part (s : text) : Prop := s = [] \/ exists d, s = "."%char :: d /\ d <> [] /\ all_digits d.

(** [exp = e [ minus / plus ] 1*DIGIT], or nothing. *)
Definition exp_part (s : text) : Prop :=
  s = [] \/ exists c g d, s = c :: g ++ d /\ (c = "e"%char \/ c = "E"%char) /\ In g [[]; ["-"%char]; ["+"%char]] /\ d <> [] /\ all_digits d.

(** [number = [ minus ] int [ frac ] [ exp ]] (RFC 8259, section 6) *)
Definition number (s : text) : Prop :=
  exists m i f e, s = m ++ i ++ f ++ e /\ In m [[]; ["-"%char]] /\ int_part i /\ frac_part f /\ exp_part e.

(** A finite double: at most 53 bits and the exponents of the format. *)
Definition finite (v : double) : Prop :=
  match v with
  | S754_zero _ => True
  | S754_finite _ m e => Z.pos m < 2 ^ 53 /\ -1074 <= e <= 971
  | S754_infinity _ | S754_nan => False
  end.

Definition finiteb (v : double) : bool :=
  match v with
  | S754_zero _ => true
  | S754_finite _ m e => (Z.pos m <? 2 ^ 53) && (-1074 <=? e) && (e <=? 971)
  | S754_infinity _ | S754_nan => false
  end.

Lemma finiteb_finite v : finiteb v = true -> finite v.
Proof.
  destruct v as [s|s| |s m e]; cbn [finiteb finite]; try discriminate; [auto|].
  intros H. apply andb_true_iff in H as [H E2]. apply andb_true_iff in H as [H E1].
  apply Z.ltb_lt in H. apply Z.leb_le in E1, E2. lia.
Qed.

Lemma digits_numeric s : all_digits s -> Forall (fun c => numeric c = true) s.
Proof. apply Forall_impl. intros c H. unfold numeric. now rewrite H. Qed.

Lemma int_digits s : int_part s -> all_digits s /\ s <> [].
Proof. intros [->|(c & r & -> & H & _ & F)]; (split; [|discriminate]); constructor; auto; constructor. Qed.

Lemma number_numeric s : number s -> s <> [] /\ Forall (fun c => numeric c = true) s.
Proof.
  intros (m & i & f & e & -> & Hm & Hi & Hf & He). destruct (int_digits i Hi) as [Di Ni]. split.
  { destruct Hm as [<-|[<-|[]]], i; try contradiction; discriminate. }
  repeat (apply Forall_app; split).
  - destruct Hm as [<-|[<-|[]]]; repeat constructor.
  - now apply digits_numeric.
  - destruct Hf as [->|(d & -> & _ & D)]; [constructor|]. constructor; [reflexivity|]. now apply digits_numeric.
  - destruct He as [->|(c & g & d & -> & Hc & Hg & _ & D)]; [constructor|].
    constructor; [now destruct Hc as [->| ->]|]. apply Forall_app; split; [|now apply digits_numeric].
    destruct Hg as [<-|[<-|[<-|[]]]]; repeat constructor.
Qed.

Lemma dec_int n : 0 <= n -> int_part (dec_u n).
Proof.
  intros H. destruct (Z.eq_dec n 0) as [->|N]; [now left|]. right. pose proof (dec_u_nonempty n). pose proof (dec_u_digits n H) as D.
  destruct (dec_u n) as [|c r] eqn:E; [contradiction|]. inversion D; subst. exists c, r. repeat split; auto.
  apply (dec_u_head n c r); [lia|exact E].
Qed.

Lemma dec_number n : 0 <= n -> number (dec_u n).
Proof.
  intros H. exists [], (dec_u n), [], []. rewrite !app_nil_r. split; [reflexivity|]. split; [now left|].
  split; [now apply dec_int|]. split; now left.
Qed.

Lemma strip_zeros_digits s : all_digits s -> all_digits (strip_zeros s).
Proof.
  induction 1 as [|c s Hc _ IH]; cbn; [constructor|].
  destruct (strip_zeros s); [destruct (Ascii.eqb c "0"); repeat constructor; auto|now constructor].
Qed.

Lemma strip_zeros_length s : (length (strip_zeros s) <= length s)%nat.
Proof.
  induction s as [|c s IH]; [cbn; lia|]. cbn [strip_zeros length]. destruct (strip_zeros s); [|cbn [length] in *; lia].
  destruct (Ascii.eqb c "0"); cbn [length]; lia.
Qed.

(** An integer part and a fraction. *)
Lemma with_fraction_parts i f : all_digits f -> exists g, with_fraction i f = i ++ g /\ frac_part g.
Proof.
  intros F. unfold with_fraction. pose proof (strip_zeros_digits f F) as D. destruct (strip_zeros f) as [|c d].
  - exists []. rewrite app_nil_r. split; [reflexivity|now left].
  - exists ("."%char :: c :: d). split; [reflexivity|]. right. exists (c :: d). repeat split; [discriminate|exact D].
Qed.

Lemma with_fraction_length i f : (length (with_fraction i f) <= length i + 1 + length f)%nat.
Proof.
  unfold with_fraction. pose proof (strip_zeros_length f). destruct (strip_zeros f); [lia|]. rewrite length_app. cbn [length] in *. lia.
Qed.

Lemma digits_split n s : all_digits s -> all_digits (firstn n s) /\ all_digits (skipn n s).
Proof. intros H. rewrite <- (firstn_skipn n s) in H. now apply Forall_app in H. Qed.

Lemma int_first n s : (0 < n)%nat -> int_part s -> int_part (firstn n s) /\ all_digits (skipn n s).
Proof.
  intros Hn H. destruct (int_digits s H) as [D _]. split.
  - destruct n as [|n]; [lia|]. destruct H as [->|(c & r & -> & Hc & Nz & F)].
    + left. cbn. now rewrite firstn_nil.
    + right. exists c, (firstn n r). repeat split; auto. now apply digits_split.
  - now apply digits_split.
Qed.

Lemma fmt_digits_number d x : 0 <= d -> number (fmt_digits d x).
Proof.
  intros Hd. pose proof (dec_int d Hd) as D. unfold fmt_digits. destruct ((-4 <=? x) && (x <? 6)).
  - destruct (Z.leb_spec 0 x) as [Hx|Hx].
    + destruct (int_first (Z.to_nat (x + 1)) (dec_u d) ltac:(lia) D) as [I R].
      destruct (with_fraction_parts (firstn (Z.to_nat (x + 1)) (dec_u d)) _ R) as (g & -> & G).
      exists [], (firstn (Z.to_nat (x + 1)) (dec_u d)), g, []. rewrite app_nil_r. repeat split; auto; now left.
    + destruct (with_fraction_parts ["0"%char] (repeat "0"%char (Z.to_nat (- x - 1)) ++ dec_u d)) as (g & -> & G).
      { apply Forall_app; split; [|now apply dec_u_digits]. apply Forall_forall. intros c Hc. now rewrite (repeat_spec _ _ _ Hc). }
      exists [], ["0"%char], g, []. rewrite app_nil_r. repeat split; auto; now left.
  - destruct (int_first 1 (dec_u d) ltac:(lia) D) as [I R]. destruct (with_fraction_parts (firstn 1 (dec_u d)) _ R) as (g & -> & G).
    eexists [], _, g, _. rewrite <- app_assoc. split; [reflexivity|]. repeat split; auto; [now left|].
    pose proof (dec_u_digits (Z.abs x) ltac:(lia)) as A. pose proof (dec_u_nonempty (Z.abs x)) as N.
    right. exists "e"%char, [if x <? 0 then "-"%char else "+"%char],
      (if Z.abs x <? 10 then "0"%char :: dec_u (Z.abs x) else dec_u (Z.abs x)).
    split; [reflexivity|]. split; [now left|]. split; [destruct (x <? 0); cbn; auto|].
    destruct (Z.abs x <? 10); split; try discriminate; auto. now constructor.
Qed.

Lemma number_minus s : number s -> (forall r, s <> "-"%char :: r) -> number ("-"%char :: s).
Proof.
  intros (m & i & f & e & -> & Hm & H) N. destruct Hm as [<-|[<-|[]]]; [|now destruct (N (i ++ f ++ e))].
  exists ["-"%char], i, f, e. split; [reflexivity|]. split; [cbn; auto|exact H].
Qed.

Lemma digit_not_minus c r s : is_digit c = true -> c :: r <> "-"%char :: s.
Proof. intros H E. injection E as -> _. discriminate. Qed.

Lemma fmt_digits_head d x s : 0 <= d -> fmt_digits d x <> "-"%char :: s.
Proof.
  intros Hd. unfold fmt_digits, with_fraction. pose proof (dec_u_digits d Hd) as D. pose proof (dec_u_nonempty d).
  destruct (dec_u d) as [|c r]; [contradiction|]. inversion D as [|? ? Hc _]; subst.
  destruct ((-4 <=? x) && (x <? 6)).
  - destruct (Z.leb_spec 0 x) as [Hx|Hx].
    + replace (Z.to_nat (x + 1)) with (S (Z.to_nat x)) by lia. cbn [firstn].
      destruct (strip_zeros _); now apply digit_not_minus.
    + destruct (strip_zeros _); now apply digit_not_minus.
  - cbn [firstn]. destruct (strip_zeros _); now apply digit_not_minus.
Qed.

Lemma round_even_bounds num den k : 0 <= num -> 0 < den -> num <= k * den -> 0 <= round_even num den <= k.
Proof.
  intros Hn Hd Hk. unfold round_even. pose proof (Z.div_pos num den Hn Hd). pose proof (Z.div_mod num den ltac:(lia)) as E.
  pose proof (Z.mod_pos_bound num den Hd). set (q := num / den) in *. set (r := num mod den) in *. clearbody q r.
  assert (q <= k) by nia. assert (0 < r -> q + 1 <= k) by nia.
  destruct (Z.ltb_spec (2 * r) den); [lia|]. destruct (Z.ltb_spec den (2 * r)); [lia|]. destruct (Z.even q); lia.
Qed.

Lemma dec_val_bound s : all_digits s -> dec_val s < 10 ^ Z.of_nat (length s).
Proof.
  intros H. unfold dec_val. enough (G : forall a, fold_left (fun a c => a * 10 + (code c - 48)) s a < (a + 1) * 10 ^ Z.of_nat (length s)) by (specialize (G 0); lia).
  induction H as [|c s Hc _ IH]; intros a; [cbn; lia|]. cbn [fold_left length]. rewrite Nat2Z.inj_succ, Z.pow_succ_r by lia.
  unfold is_digit in Hc. apply andb_true_iff in Hc as [_ Hc]. apply Z.leb_le in Hc. specialize (IH (a * 10 + (code c - 48))).
  pose proof (Z.pow_pos_nonneg 10 (Z.of_nat (length s)) ltac:(lia) ltac:(lia)). nia.
Qed.

Lemma scale_up_bounds fuel num den k : 1 <= k -> num * 10 ^ (k - 1) < den ->
  let r := scale_up fuel num den k in k <= r <= k + Z.of_nat fuel /\ num * 10 ^ (r - 1) < den.
Proof.
  revert k. induction fuel as [|f IH]; intros k Hk H; cbn [scale_up]; [split; [lia|exact H]|].
  destruct (Z.leb_spec den (num * 10 ^ k)) as [L|L]; [split; [lia|exact H]|].
  destruct (IH (k + 1) ltac:(lia)) as [B C]; [now replace (k + 1 - 1) with k by lia|]. split; [lia|exact C].
Qed.

Lemma pow10_split a b : 0 <= a -> 0 <= b -> 10 ^ (a + b) = 10 ^ a * 10 ^ b.
Proof. apply Z.pow_add_r. Qed.

(** Six digits are six digits. *)
Lemma digits6_bounds num den : 0 < num -> 0 < den -> 0 <= fst (digits6 num den) <= 10 ^ 6.
Proof.
  intros Hn Hd. unfold digits6. destruct (_ =? 10 ^ 6); [cbn; lia|]. cbn [fst]. unfold exponent10.
  destruct (Z.leb_spec den num) as [L|L].
  - pose proof (Z.div_le_lower_bound num den 1 Hd ltac:(lia)) as Q.
    pose proof (dec_val_bound _ (dec_u_digits (num / den) ltac:(lia))) as B. rewrite dec_val_dec_u in B by lia.
    pose proof (dec_u_nonempty (num / den)) as N. set (n := length (dec_u (num / den))) in *.
    assert (0 < n)%nat by (unfold n; destruct (dec_u (num / den)); [contradiction|cbn; lia]).
    pose proof (Z.mul_succ_div_gt num den Hd). assert (B' : num <= 10 ^ Z.of_nat n * den) by nia.
    pose proof (Z.pow_pos_nonneg 10 (Z.of_nat n) ltac:(lia) ltac:(lia)).
    destruct (Z.leb_spec (Z.of_nat n - 1) 5) as [C|C]; apply round_even_bounds.
    + apply Z.mul_nonneg_nonneg; [lia|apply Z.pow_nonneg; lia].
    + lia.
    + replace 6 with (Z.of_nat n + (5 - (Z.of_nat n - 1))) by lia. rewrite pow10_split by lia.
      pose proof (Z.pow_pos_nonneg 10 (5 - (Z.of_nat n - 1)) ltac:(lia) ltac:(lia)). nia.
    + lia.
    + apply Z.mul_pos_pos; [lia|apply Z.pow_pos_nonneg; lia].
    + replace (Z.of_nat n) with (6 + (Z.of_nat n - 1 - 5)) in B' at 1 by lia. rewrite pow10_split in B' by lia. lia.
  - destruct (scale_up_bounds 330 num den 1) as [B C]; [lia|cbn; lia|]. set (k := scale_up 330 num den 1) in *. clearbody k.
    destruct (Z.leb_spec (- k) 5); [|lia]. apply round_even_bounds; [apply Z.mul_nonneg_nonneg; [lia|apply Z.pow_nonneg; lia]|lia|].
    replace (5 - - k) with (6 + (k - 1)) by lia. rewrite pow10_split by lia. nia.
Qed.

Lemma exponent10_bounds num den : 0 < num -> 0 < den -> num < 10 ^ 400 -> -331 <= exponent10 num den <= 400.
Proof.
  intros Hn Hd B. unfold exponent10. destruct (Z.leb_spec den num) as [L|L].
  - pose proof (Z.div_pos num den ltac:(lia) Hd). pose proof (Z.div_le_upper_bound num den num Hd ltac:(nia)).
    pose proof (dec_u_width (num / den) 400 ltac:(lia) ltac:(change (Z.of_nat 400) with 400; lia)). lia.
  - destruct (scale_up_bounds 330 num den 1) as [C _]; [lia|cbn; lia|]. lia.
Qed.

Lemma digits6_exponent num den : 0 < num -> 0 < den -> num < 10 ^ 400 -> -331 <= snd (digits6 num den) <= 401.
Proof.
  intros Hn Hd B. pose proof (exponent10_bounds num den Hn Hd B). unfold digits6. destruct (_ =? 10 ^ 6); cbn [snd]; lia.
Qed.

Lemma fmt_digits_length d x : 0 <= d <= 10 ^ 6 -> -331 <= x <= 401 -> (length (fmt_digits d x) <= 16)%nat.
Proof.
  intros Hd Hx. pose proof (dec_u_width d 7 ltac:(lia) ltac:(change (10 ^ Z.of_nat 7) with 10000000; lia)) as L.
  pose proof (dec_u_width (Z.abs x) 3 ltac:(lia) ltac:(change (10 ^ Z.of_nat 3) with 1000; lia)) as L'.
  assert (S : forall n, (length (with_fraction (firstn n (dec_u d)) (skipn n (dec_u d))) <= 8)%nat).
  { intros n. pose proof (with_fraction_length (firstn n (dec_u d)) (skipn n (dec_u d))). rewrite length_firstn, length_skipn in *. lia. }
  unfold fmt_digits. destruct ((-4 <=? x) && (x <? 6)) eqn:C.
  - apply andb_true_iff in C as [C _]. apply Z.leb_le in C. destruct (Z.leb_spec 0 x); [specialize (S (Z.to_nat (x + 1))); lia|].
    pose proof (with_fraction_length ["0"%char] (repeat "0"%char (Z.to_nat (- x - 1)) ++ dec_u d)) as W.
    rewrite length_app, repeat_length in W. cbn [length] in W. lia.
  - rewrite length_app. specialize (S 1%nat). cbn [length]. destruct (Z.abs x <? 10); cbn [length]; lia.
Qed.

(** The rational a finite double stands for. *)
Lemma finite_bounds m e : Z.pos m < 2 ^ 53 -> -1074 <= e <= 971 ->
  let dx := if 0 <=? e then digits6 (Z.pos m * 2 ^ e) 1 else digits6 (Z.pos m) (2 ^ (- e)) in
  0 <= fst dx <= 10 ^ 6 /\ -331 <= snd dx <= 401.
Proof.
  intros Hm He. cbv zeta.
  destruct (Z.leb_spec 0 e).
  - assert (0 < 2 ^ e) by (apply Z.pow_pos_nonneg; lia). pose proof (Z.pow_le_mono_r 2 e 971 ltac:(lia) ltac:(lia)).
    split; [apply digits6_bounds; nia|]. apply digits6_exponent; nia.
  - assert (0 < 2 ^ (- e)) by (apply Z.pow_pos_nonneg; lia). split; [apply digits6_bounds; lia|]. apply digits6_exponent; lia.
Qed.

(** [%g] of a finite double is a JSON number, and fits the writer's scratch buffer. *)
Lemma fmt_g_number v : finite v -> number (fmt_g v) /\ (length (fmt_g v) <= 17)%nat.
Proof.
  destruct v as [s|s| |s m e]; cbn [finite fmt_g]; try contradiction.
  - intros _. split; [|destruct s; cbn; lia].
    exists (if s then ["-"%char] else []), ["0"%char], [], []. destruct s; (split; [reflexivity|]); repeat split; cbn; auto; now left.
  - intros [Hm He]. pose proof (finite_bounds m e Hm He) as F. cbv zeta in F.
    destruct (if 0 <=? e then _ else _) as [d x]. cbn [fst snd] in F. destruct F as [Fd Fx].
    pose proof (fmt_digits_number d x ltac:(lia)) as N. pose proof (fmt_digits_length d x Fd Fx) as L.
    destruct s; cbn [app length]; (split; [|lia]); [|exact N]. apply number_minus; [exact N|]. intros r. apply fmt_digits_head. lia.
Qed.

End Percent_g.

(** ** The writer *)
Module Writer.
Import Doubles Percent_g.

(** The bytes written, the size of the buffer, the bytes asked for, and whether they
    fitted. *)
Record jw_t := mk_jw { p : text; cap : nat; n : nat; ok : bool }.

Definition jw_ch (w : jw_t) (c : ascii) : jw_t :=
  if (n w <? cap w)%nat then mk_jw (p w ++ [c]) (cap w) (S (n w)) (ok w) else mk_jw (p w) (cap w) (S (n w)) false.

Definition jw_raw (w : jw_t) (s : text) : jw_t := fold_left jw_ch s w.

Definition jw_esc (w : jw_t) (c : ascii) : jw_t :=
  if Ascii.eqb c dquote || Ascii.eqb c "\" then jw_ch (jw_ch w "\") c
  else if code c =? 10 then jw_raw w (lit "\n")
  else if code c =? 13 then jw_raw w (lit "\r")
  else if code c =? 9 then jw_raw w (lit "\t")
  else if code c <? 32 then jw_raw w (trunc 8 (lit "\u00" ++ [hexdigit (code c / 16); hexdigit (code c mod 16)]))
  else jw_ch w c.

(** [NULL] is written as the empty string. *)
Definition jw_jstr (w : jw_t) (s : option text) : jw_t :=
  jw_ch (fold_left jw_esc (match s with Some s => s | None => [] end) (jw_ch w dquote)) dquote.

(** The parameters are 64 bits wide: an argument is converted to their type. *)
Definition jw_u64q (w : jw_t) (v : Z) : jw_t := jw_raw w (trunc 24 (dquote :: dec_u (u64 v) ++ [dquote])).
Definition jw_i64q (w : jw_t) (v : Z) : jw_t := jw_raw w (trunc 24 (dquote :: dec_s (sgn 64 v) ++ [dquote])).
Definition jw_int (w : jw_t) (v : Z) : jw_t := jw_raw w (trunc 24 (dec_s (sgn 64 v))).
Definition jw_dbl (w : jw_t) (v : double) : jw_t := jw_raw w (trunc 32 (fmt_g v)).

Definition jw_hex (w : jw_t) (b : list Z) : jw_t :=
  jw_ch (fold_left (fun w x => jw_ch (jw_ch w (hexdigit (Z.shiftr x 4))) (hexdigit (Z.land x 15))) b (jw_ch w dquote)) dquote.

(** [jw_t w = { buf, cap, 0, 1 }] and [return w.ok ? (long)w.n : -1]. *)
Definition jw_init (cap : nat) : jw_t := mk_jw [] cap 0 true.
Definition jw_done (w : jw_t) : option text := if ok w then Some (p w) else None.

(** ** What each routine writes *)

Definition esc (c : ascii) : text :=
  if Ascii.eqb c dquote || Ascii.eqb c "\" then ["\"%char; c]
  else if code c =? 10 then lit "\n"
  else if code c =? 13 then lit "\r"
  else if code c =? 9 then lit "\t"
  else if code c <? 32 then lit "\u00" ++ [hexdigit (code c / 16); hexdigit (code c mod 16)]
  else [c].

Definition quote (s : text) : text := dquote :: flat_map esc s ++ [dquote].

Lemma jw_raw_app w a b : jw_raw w (a ++ b) = jw_raw (jw_raw w a) b.
Proof. apply fold_left_app. Qed.

Lemma jw_ch_raw w c : jw_ch w c = jw_raw w [c].
Proof. reflexivity. Qed.

Lemma jw_esc_raw w c : jw_esc w c = jw_raw w (esc c).
Proof.
  unfold jw_esc, esc. destruct (_ || _); [reflexivity|]. do 3 (destruct (code c =? _); [reflexivity|]).
  destruct (code c <? 32); reflexivity.
Qed.

Lemma fold_raw {A} (f : jw_t -> A -> jw_t) (g : A -> text) l w : (forall w x, f w x = jw_raw w (g x)) ->
  fold_left f l w = jw_raw w (flat_map g l).
Proof.
  intros H. revert w. induction l as [|x l IH]; intros w; [reflexivity|]. cbn [fold_left flat_map].
  now rewrite IH, H, jw_raw_app.
Qed.

Lemma jw_jstr_raw w s : jw_jstr w (Some s) = jw_raw w (quote s).
Proof.
  unfold jw_jstr, quote. rewrite (fold_raw jw_esc esc) by apply jw_esc_raw.
  change (dquote :: flat_map esc s ++ [dquote]) with ([dquote] ++ flat_map esc s ++ [dquote]). now rewrite !jw_raw_app.
Qed.

Definition hex (b : list Z) : text := flat_map (fun x => [hexdigit (Z.shiftr x 4); hexdigit (Z.land x 15)]) b.

Lemma hexdigit_plain d : 0 <= d < 16 -> esc (hexdigit d) = [hexdigit d].
Proof.
  intros H. assert (C : d = 0 \/ d = 1 \/ d = 2 \/ d = 3 \/ d = 4 \/ d = 5 \/ d = 6 \/ d = 7 \/ d = 8 \/ d = 9 \/ d = 10 \/ d = 11
    \/ d = 12 \/ d = 13 \/ d = 14 \/ d = 15) by lia.
  repeat (destruct C as [->|C]; [reflexivity|]). now subst.
Qed.

Lemma hex_plain b : Forall (fun x => 0 <= x < 256) b -> flat_map esc (hex b) = hex b.
Proof.
  induction 1 as [|x b Hx _ IH]; [reflexivity|]. change (hex (x :: b)) with ([hexdigit (Z.shiftr x 4)] ++ [hexdigit (Z.land x 15)] ++ hex b).
  rewrite !flat_map_app, IH. cbn [flat_map]. rewrite !app_nil_r.
  rewrite Z.shiftr_div_pow2 by lia. change (Z.land x 15) with (Z.land x (Z.ones 4)). rewrite Z.land_ones by lia.
  rewrite !hexdigit_plain; [reflexivity|apply Z.mod_pos_bound; lia|].
  split; [apply Z.div_pos; lia|apply Z.div_lt_upper_bound; lia].
Qed.

Lemma jw_hex_raw w b : Forall (fun x => 0 <= x < 256) b -> jw_hex w b = jw_raw w (quote (hex b)).
Proof.
  intros H. unfold quote. rewrite hex_plain by exact H. unfold jw_hex, hex. rewrite (fold_raw _ (fun x => [hexdigit (Z.shiftr x 4); hexdigit (Z.land x 15)])) by reflexivity.
  change (dquote :: ?x) with ([dquote] ++ x). now rewrite !jw_raw_app.
Qed.

(** The buffer holds as much as fits; the count is exact either way. *)
Lemma jw_raw_spec s w : length (p w) = Nat.min (n w) (cap w) ->
  jw_raw w s = mk_jw (p w ++ firstn (cap w - n w) s) (cap w) (n w + length s) (ok w && ((length s =? 0)%nat || (n w + length s <=? cap w)%nat)).
Proof.
  revert w. induction s as [|c s IH]; intros w H.
  - cbn. rewrite firstn_nil, app_nil_r, Nat.add_0_r, andb_true_r. now destruct w.
  - change (jw_raw w (c :: s)) with (jw_raw (jw_ch w c) s). unfold jw_ch. destruct (Nat.ltb_spec (n w) (cap w)) as [L|L].
    + rewrite IH by (cbn [p cap n]; rewrite length_app, H; cbn [length]; lia). cbn [p cap n ok length Nat.eqb].
      replace (cap w - n w)%nat with (S (cap w - S (n w))) by lia. cbn [firstn]. rewrite <- app_assoc. cbn [app].
      replace (n w + S (length s))%nat with (S (n w) + length s)%nat by lia. f_equal. f_equal. cbn [orb].
      destruct s; cbn [length Nat.eqb orb]; [symmetry; apply Nat.leb_le; lia|reflexivity].
    + rewrite IH by (cbn [p cap n]; lia). cbn [p cap n ok length Nat.eqb orb andb].
      replace (cap w - n w)%nat with 0%nat by lia. replace (cap w - S (n w))%nat with 0%nat by lia. cbn [firstn]. f_equal; [lia|].
      destruct (Nat.leb_spec (n w + S (length s)) (cap w)); [lia|now rewrite andb_false_r].
Qed.

Lemma jw_done_raw cap s : jw_done (jw_raw (jw_init cap) s) = if (length s <=? cap)%nat then Some s else None.
Proof.
  rewrite jw_raw_spec by reflexivity. unfold jw_done. cbn [ok jw_init p Writer.cap n andb Nat.add app]. rewrite Nat.sub_0_r.
  destruct (Nat.eqb_spec (length s) 0) as [E|E]; cbn [orb].
  - destruct s; [|discriminate]. cbn. now rewrite firstn_nil.
  - destruct (Nat.leb_spec (length s) cap) as [L|L]; [now rewrite firstn_all2|reflexivity].
Qed.

(** Numbers of 64 bits fit their scratch buffers. *)
Lemma length_dec_s v : - 2 ^ 63 <= v < 2 ^ 63 -> (length (dec_s v) <= 20)%nat.
Proof.
  intros H. unfold dec_s, dec_u. destruct (Z.ltb_spec v 0).
  - pose proof (length_dec_u10 (dec_fuel (- v)) (- v) [] 19 ltac:(lia) ltac:(change (10 ^ Z.of_nat 19) with 10000000000000000000; lia)) as L. cbn [length] in *. lia.
  - pose proof (length_dec_u10 (dec_fuel v) v [] 19 ltac:(lia) ltac:(change (10 ^ Z.of_nat 19) with 10000000000000000000; lia)) as L. cbn [length] in *. lia.
Qed.

Lemma plain_digits s : Forall (fun c => numeric c = true) s -> flat_map esc s = s.
Proof.
  induction 1 as [|c s Hc _ IH]; [reflexivity|]. cbn [flat_map]. rewrite IH.
  destruct c as [[] [] [] [] [] [] [] []]; try discriminate; reflexivity.
Qed.

Lemma dec_s_number v : number (dec_s v).
Proof.
  unfold dec_s. destruct (Z.ltb_spec v 0); [|apply dec_number; lia]. apply number_minus; [apply dec_number; lia|].
  intros r. pose proof (dec_u_digits (- v) ltac:(lia)) as D. intros E. rewrite E in D. inversion D. discriminate.
Qed.

Lemma jw_u64q_raw w v : jw_u64q w v = jw_raw w (quote (dec_u (u64 v))).
Proof.
  pose proof (wrap_range 64 v ltac:(lia)) as R. unfold jw_u64q, quote. rewrite plain_digits by (apply number_numeric, dec_number; lia).
  f_equal. apply trunc_id. cbn [length]. rewrite length_app. cbn [length]. unfold dec_u.
  pose proof (length_dec_u10 (dec_fuel (u64 v)) (u64 v) [] 20 ltac:(lia) ltac:(change (10 ^ Z.of_nat 20) with 100000000000000000000; lia)) as L.
  cbn [length] in L. lia.
Qed.

Lemma jw_i64q_raw w v : jw_i64q w v = jw_raw w (quote (dec_s (sgn 64 v))).
Proof.
  unfold jw_i64q, quote. rewrite plain_digits by apply number_numeric, dec_s_number. f_equal. apply trunc_id. cbn [length]. rewrite length_app.
  pose proof (length_dec_s (sgn 64 v) (sgn_range 64 v ltac:(lia))). cbn [length]. lia.
Qed.

Lemma jw_int_raw w v : jw_int w v = jw_raw w (dec_s (sgn 64 v)).
Proof. unfold jw_int. rewrite trunc_id; [reflexivity|]. pose proof (length_dec_s (sgn 64 v) (sgn_range 64 v ltac:(lia))). lia. Qed.

End Writer.

(** ** Documents *)
Module Tree.
Import Doubles Percent_g Writer.

Unset Elimination Schemes.
Inductive json := JStr (s : text) | JNum (s : text) | JTrue | JObj (l : list (text * json)) | JArr (l : list json).
Set Elimination Schemes.

Fixpoint join (l : list text) : text :=
  match l with
  | [] => []
  | [x] => x
  | x :: l' => x ++ ","%char :: join l'
  end.

Fixpoint print (j : json) : text :=
  match j with
  | JStr s => quote s
  | JNum s => s
  | JTrue => lit "true"
  | JObj l => "{"%char :: join (map (fun kv => quote (fst kv) ++ ":"%char :: print (snd kv)) l) ++ ["}"%char]
  | JArr l => "["%char :: join (map print l) ++ ["]"%char]
  end.

Section Induction.
Variable P : json -> Prop.
Hypothesis str_case : forall s, P (JStr s).
Hypothesis num_case : forall s, P (JNum s).
Hypothesis true_case : P JTrue.
Hypothesis obj_case : forall l, Forall (fun kv => P (snd kv)) l -> P (JObj l).
Hypothesis arr_case : forall l, Forall P l -> P (JArr l).

Fixpoint json_nested_ind (j : json) : P j :=
  match j with
  | JStr s => str_case s
  | JNum s => num_case s
  | JTrue => true_case
  | JObj l => obj_case l ((fix go l := match l return Forall (fun kv => P (snd kv)) l with
                                       | [] => Forall_nil _
                                       | kv :: l => Forall_cons kv (json_nested_ind (snd kv)) (go l)
                                       end) l)
  | JArr l => arr_case l ((fix go l := match l return Forall P l with
                                       | [] => Forall_nil _
                                       | x :: l => Forall_cons x (json_nested_ind x) (go l)
                                       end) l)
  end.

End Induction.

(** *** A parser

    The grammar of RFC 8259 for texts without white space: a control character inside
    a string is refused, numbers have no leading zero and no empty part.  Bytes from
    0x80 on are taken as they are; whether they are UTF-8 is [Utf8.utf8]. *)

(** The rest of a string after its opening quote. *)
Fixpoint parse_string (s : text) : option (text * text) :=
  match s with
  | [] => None
  | c :: r =>
      if Ascii.eqb c dquote then Some ([], r)
      else if Ascii.eqb c "\" then
        match r with
        | e :: r' =>
            let put c r := match parse_string r with Some (t, r) => Some (c :: t, r) | None => None end in
            if Ascii.eqb e dquote || Ascii.eqb e "\" then put e r'
            else if Ascii.eqb e "n" then put (chr 10) r'
            else if Ascii.eqb e "r" then put (chr 13) r'
            else if Ascii.eqb e "t" then put (chr 9) r'
            else if Ascii.eqb e "u" then
              match r' with
              | "0"%char :: "0"%char :: a :: b :: r'' =>
                  if (0 <=? hexval a) && (hexval a <? 8) && (0 <=? hexval b) then put (chr (16 * hexval a + hexval b)) r'' else None
              | _ => None
              end
            else None
        | [] => None
        end
      else if code c <? 32 then None
      else match parse_string r with Some (t, r) => Some (c :: t, r) | None => None end
  end.

Fixpoint span_digits (s : text) : text * text :=
  match s with
  | c :: r => if is_digit c then let '(t, r) := span_digits r in (c :: t, r) else ([], s)
  | [] => ([], [])
  end.

Definition parse_minus (s : text) : text * text := match s with "-"%char :: r => (["-"%char], r) | _ => ([], s) end.

Definition parse_int (s : text) : option (text * text) :=
  match s with
  | c :: r => if Ascii.eqb c "0" then Some ([c], r)
              else if is_digit c then let '(d, r) := span_digits r in Some (c :: d, r) else None
  | [] => None
  end.

Definition parse_frac (s : text) : option (text * text) :=
  match s with
  | "."%char :: r => match span_digits r with ([], _) => None | (d, r) => Some ("."%char :: d, r) end
  | _ => Some ([], s)
  end.

Definition parse_sign (s : text) : text * text :=
  match s with "-"%char :: r => (["-"%char], r) | "+"%char :: r => (["+"%char], r) | _ => ([], s) end.

Definition parse_exp (s : text) : option (text * text) :=
  match s with
  | c :: r =>
      if Ascii.eqb c "e" || Ascii.eqb c "E" then
        let '(g, r) := parse_sign r in match span_digits r with ([], _) => None | (d, r) => Some (c :: g ++ d, r) end
      else Some ([], s)
  | [] => Some ([], [])
  end.

Definition parse_number (s : text) : option (text * text) :=
  let '(m, s) := parse_minus s in
  match parse_int s with
  | Some (i, s) =>
      match parse_frac s with
      | Some (f, s) => match parse_exp s with Some (e, s) => Some (m ++ i ++ f ++ e, s) | None => None end
      | None => None
      end
  | None => None
  end.

Fixpoint value (n : nat) (s : text) : option (json * text) :=
  match n with
  | O => None
  | S n =>
      match s with
      | [] => None
      | c :: r =>
          if Ascii.eqb c dquote then match parse_string r with Some (t, r) => Some (JStr t, r) | None => None end
          else if Ascii.eqb c "{" then
            match r with
            | "}"%char :: r => Some (JObj [], r)
            | _ => match members n r with Some (l, r) => Some (JObj l, r) | None => None end
            end
          else if Ascii.eqb c "[" then
            match r with
            | "]"%char :: r => Some (JArr [], r)
            | _ => match elements n r with Some (l, r) => Some (JArr l, r) | None => None end
            end
          else if Ascii.eqb c "t" then match strip_prefix (lit "true") s with Some r => Some (JTrue, r) | None => None end
          else match parse_number s with Some (t, r) => Some (JNum t, r) | None => None end
      end
  end
with members (n : nat) (s : text) : option (list (text * json) * text) :=
  match n with
  | O => None
  | S n =>
      match s with
      | c :: r =>
          if Ascii.eqb c dquote then
            match parse_string r with
            | Some (k, ":"%char :: r) =>
                match value n r with
                | Some (v, "}"%char :: r) => Some ([(k, v)], r)
                | Some (v, ","%char :: r) => match members n r with Some (l, r) => Some ((k, v) :: l, r) | None => None end
                | _ => None
                end
            | _ => None
            end
          else None
      | [] => None
      end
  end
with elements (n : nat) (s : text) : option (list json * text) :=
  match n with
  | O => None
  | S n =>
      match value n s with
      | Some (v, "]"%char :: r) => Some ([v], r)
      | Some (v, ","%char :: r) => match elements n r with Some (l, r) => Some (v :: l, r) | None => None end
      | _ => None
      end
  end.

(** A document and nothing after it. *)
Definition parse (s : text) : option json := match value (S (length s)) s with Some (j, []) => Some j | _ => None end.

(** *** Printing and parsing *)

Lemma parse_string_esc c r : parse_string (esc c ++ r) = match parse_string r with Some (t, r) => Some (c :: t, r) | None => None end.
Proof.
  unfold esc. destruct (Ascii.eqb_spec c dquote) as [->|Nq]; [reflexivity|].
  destruct (Ascii.eqb_spec c "\") as [->|Nb]; [reflexivity|]. cbn [orb].
  destruct (Z.eqb_spec (code c) 10) as [E|N1]; [rewrite <- (chr_code c), E; reflexivity|].
  destruct (Z.eqb_spec (code c) 13) as [E|N2]; [rewrite <- (chr_code c), E; reflexivity|].
  destruct (Z.eqb_spec (code c) 9) as [E|N3]; [rewrite <- (chr_code c), E; reflexivity|].
  destruct (Z.ltb_spec (code c) 32) as [L|L].
  - pose proof (code_range c). cbn [lit app list_ascii_of_string parse_string].
    assert (R1 : 0 <= code c / 16 < 16) by (split; [apply Z.div_pos; lia|apply Z.div_lt_upper_bound; lia]).
    assert (R2 : 0 <= code c mod 16 < 16) by (apply Z.mod_pos_bound; lia).
    change (Ascii.eqb "\" dquote) with false. change (Ascii.eqb "u" dquote) with false. cbn [Ascii.eqb Bool.eqb orb].
    rewrite !hexval_hexdigit by assumption. 
    assert (R3 : code c / 16 < 2) by (apply Z.div_lt_upper_bound; lia).
    destruct (Z.leb_spec 0 (code c / 16)), (Z.ltb_spec (code c / 16) 8), (Z.leb_spec 0 (code c mod 16)); try lia. cbn [andb].
    rewrite <- Z.div_mod by lia. now rewrite chr_code.
  - cbn [app parse_string]. destruct (Ascii.eqb_spec c dquote); [contradiction|]. destruct (Ascii.eqb_spec c "\"); [contradiction|].
    destruct (Z.ltb_spec (code c) 32); [lia|reflexivity].
Qed.

Lemma parse_string_quote s r : parse_string (flat_map esc s ++ dquote :: r) = Some (s, r).
Proof.
  induction s as [|c s IH]; [reflexivity|]. cbn [flat_map]. rewrite <- app_assoc, parse_string_esc, IH. reflexivity.
Qed.

(** What may follow a document. *)
Definition stops (r : text) : Prop := match r with [] => True | c :: _ => numeric c = false end.

Definition no_digit (r : text) : Prop := match r with [] => True | c :: _ => is_digit c = false end.

Lemma stops_no_digit r : stops r -> no_digit r.
Proof. destruct r as [|c r]; [auto|]. cbn. unfold numeric. now destruct (is_digit c). Qed.

Lemma span_digits_app d r : all_digits d -> no_digit r -> span_digits (d ++ r) = (d, r).
Proof.
  intros H S. induction H as [|c d Hc _ IH]; cbn [app span_digits]; [|now rewrite Hc, IH].
  destruct r as [|c r]; [reflexivity|]. cbn in S. cbn [span_digits]. now rewrite S.
Qed.

Lemma parse_int_app i r : int_part i -> no_digit r -> parse_int (i ++ r) = Some (i, r).
Proof.
  intros [->|(c & d & -> & Hc & Nz & D)] S; [reflexivity|]. cbn [app parse_int].
  destruct (Ascii.eqb_spec c "0"); [contradiction|]. now rewrite Hc, span_digits_app.
Qed.

Lemma parse_frac_app f r : frac_part f -> no_digit r -> (forall t, r <> "."%char :: t) -> parse_frac (f ++ r) = Some (f, r).
Proof.
  intros [->|(d & -> & N & D)] S P.
  - cbn [app]. destruct r as [|c r]; [reflexivity|]. unfold parse_frac.
    destruct c as [[] [] [] [] [] [] [] []]; try reflexivity. now destruct (P r).
  - cbn [app]. unfold parse_frac. rewrite span_digits_app by assumption. now destruct d.
Qed.

Lemma parse_sign_app g d : In g [[]; ["-"%char]; ["+"%char]] -> d <> [] -> all_digits d -> forall r, parse_sign (g ++ d ++ r) = (g, d ++ r).
Proof.
  intros Hg N D r. destruct Hg as [<-|[<-|[<-|[]]]]; try reflexivity. destruct d as [|c d]; [contradiction|].
  inversion D; subst. cbn [app]. unfold parse_sign. destruct c as [[] [] [] [] [] [] [] []]; try reflexivity; discriminate.
Qed.

Lemma parse_exp_app e r : exp_part e -> stops r -> parse_exp (e ++ r) = Some (e, r).
Proof.
  intros [->|(c & g & d & -> & Hc & Hg & N & D)] S.
  - cbn [app]. destruct r as [|c r]; [reflexivity|]. unfold parse_exp.
    destruct (Ascii.eqb_spec c "e") as [->|]; [discriminate|]. destruct (Ascii.eqb_spec c "E") as [->|]; [discriminate|reflexivity].
  - cbn [app]. rewrite <- app_assoc. unfold parse_exp. rewrite (parse_sign_app g d Hg N D r), span_digits_app by (auto using stops_no_digit).
    destruct d; [contradiction|]. now destruct Hc as [->| ->].
Qed.

Lemma parse_minus_app m i r : In m [[]; ["-"%char]] -> int_part i -> parse_minus (m ++ i ++ r) = (m, i ++ r).
Proof.
  intros [<-|[<-|[]]] H; [|reflexivity]. cbn [app]. destruct H as [->|(c & d & -> & Hc & _)]; [reflexivity|]. cbn [app]. unfold parse_minus.
  destruct c as [[] [] [] [] [] [] [] []]; try reflexivity; discriminate.
Qed.

Lemma parse_number_app t r : number t -> stops r -> parse_number (t ++ r) = Some (t, r).
Proof.
  intros (m & i & f & e & -> & Hm & Hi & Hf & He) S. unfold parse_number. rewrite <- !app_assoc, parse_minus_app by assumption.
  assert (E : no_digit (e ++ r) /\ forall t, e ++ r <> "."%char :: t).
  { destruct He as [->|(c & g & d & -> & [->| ->] & _)]; [|split; [reflexivity|discriminate] ..].
    cbn [app]. split; [now apply stops_no_digit|]. intros t ->. discriminate. }
  assert (F : no_digit (f ++ e ++ r)) by (destruct Hf as [->|(d & -> & _)]; [apply E|reflexivity]).
  rewrite parse_int_app by assumption. rewrite parse_frac_app by (assumption || apply E). now rewrite parse_exp_app.
Qed.

(** Documents whose numbers are numbers. *)
Fixpoint good (j : json) : Prop :=
  match j with
  | JNum s => number s
  | JObj l => fold_right (fun kv P => good (snd kv) /\ P) True l
  | JArr l => fold_right (fun x P => good x /\ P) True l
  | _ => True
  end.

Fixpoint size (j : json) : nat :=
  match j with
  | JObj l => S (list_sum (map (fun kv => S (size (snd kv))) l))
  | JArr l => S (list_sum (map (fun x => S (size x)) l))
  | _ => 1
  end.

Definition member (kv : text * json) : text := quote (fst kv) ++ ":"%char :: print (snd kv).

Definition parses (j : json) : Prop :=
  good j -> forall n r, (size j <= n)%nat -> stops r -> value n (print j ++ r) = Some (j, r).

Lemma quote_app k r : quote k ++ r = dquote :: flat_map esc k ++ dquote :: r.
Proof. unfold quote. cbn [app]. now rewrite <- app_assoc. Qed.

Lemma members_print l : l <> [] -> Forall (fun kv => parses (snd kv)) l ->
  forall n r, fold_right (fun kv P => good (snd kv) /\ P) True l -> (list_sum (map (fun kv => S (size (snd kv))) l) <= n)%nat ->
  members n (join (map member l) ++ "}"%char :: r) = Some (l, r).
Proof.
  induction l as [|[k v] l IH]; [contradiction|]. intros _ H n r G N. inversion H as [|? ? Hv Hl]; subst. destruct G as [Gv Gl].
  cbn [map list_sum fold_right fst snd] in *. destruct n as [|n]; [lia|].
  assert (E : forall t, members (S n) (member (k, v) ++ t) =
    match value n (print v ++ t) with
    | Some (v, "}"%char :: r) => Some ([(k, v)], r)
    | Some (v, ","%char :: r) => match members n r with Some (l, r) => Some ((k, v) :: l, r) | None => None end
    | _ => None
    end).
  { intros t. unfold member. cbn [fst snd]. rewrite <- app_assoc, quote_app. cbn [members]. rewrite Ascii.eqb_refl.
    rewrite parse_string_quote. reflexivity. }
  destruct l as [|kv l].
  - cbn [join]. rewrite E, Hv by (auto; cbn; lia || reflexivity). reflexivity.
  - change (join (member (k, v) :: map member (kv :: l))) with (member (k, v) ++ ","%char :: join (map member (kv :: l))).
    rewrite <- app_assoc. cbn [app]. rewrite E, Hv by (auto; reflexivity || lia).
    rewrite IH; [reflexivity|discriminate|exact Hl|exact Gl|cbn [map list_sum fold_right snd] in *; lia].
Qed.

Lemma elements_print l : l <> [] -> Forall parses l ->
  forall n r, fold_right (fun x P => good x /\ P) True l -> (list_sum (map (fun x => S (size x)) l) <= n)%nat ->
  elements n (join (map print l) ++ "]"%char :: r) = Some (l, r).
Proof.
  induction l as [|v l IH]; [contradiction|]. intros _ H n r G N. inversion H as [|? ? Hv Hl]; subst. destruct G as [Gv Gl].
  cbn [map list_sum fold_right] in *. destruct n as [|n]; [lia|]. destruct l as [|x l].
  - cbn [map join elements]. rewrite Hv by (auto; cbn; lia || reflexivity). reflexivity.
  - change (join (print v :: map print (x :: l))) with (print v ++ ","%char :: join (map print (x :: l))).
    rewrite <- app_assoc. cbn [app]. cbn [elements]. rewrite Hv by (auto; reflexivity || lia).
    rewrite IH; [reflexivity|discriminate|exact Hl|exact Gl|cbn [map list_sum fold_right snd] in *; lia].
Qed.

(** An opening bracket does not mistake a first item for the end. *)
Lemma value_obj n l r : l <> [] -> value (S n) ("{"%char :: join (map member l) ++ "}"%char :: r) =
  match members n (join (map member l) ++ "}"%char :: r) with Some (l, r) => Some (JObj l, r) | None => None end.
Proof.
  intros H. destruct l as [|[k v] l]; [contradiction|]. cbn [value]. change (Ascii.eqb "{" dquote) with false. cbn [Ascii.eqb Bool.eqb].
  assert (E : exists t, join (map member ((k, v) :: l)) = dquote :: t).
  { unfold member, quote. destruct l; eexists; reflexivity. }
  destruct E as [t ->]. reflexivity.
Qed.

Definition opens (c : ascii) : Prop := c <> "]"%char.

Lemma print_head j r : good j -> exists c t, print j ++ r = c :: t /\ opens c.
Proof.
  destruct j as [s|s| |l|l]; intros G.
  - exists dquote. eexists. split; [reflexivity|discriminate].
  - destruct (number_numeric s G) as [N F]. destruct s as [|c s]; [contradiction|]. exists c, (s ++ r). split; [reflexivity|]. intros ->. inversion F. discriminate.
  - exists "t"%char. eexists. split; [reflexivity|discriminate].
  - exists "{"%char. eexists. split; [reflexivity|discriminate].
  - exists "["%char. eexists. split; [reflexivity|discriminate].
Qed.

Lemma value_arr n l r : l <> [] -> fold_right (fun x P => good x /\ P) True l ->
  value (S n) ("["%char :: join (map print l) ++ "]"%char :: r) =
  match elements n (join (map print l) ++ "]"%char :: r) with Some (l, r) => Some (JArr l, r) | None => None end.
Proof.
  intros H G. destruct l as [|v l]; [contradiction|]. destruct G as [Gv _].
  assert (E : exists c t, join (map print (v :: l)) ++ "]"%char :: r = c :: t /\ opens c).
  { destruct l; [now apply print_head|].
    change (join (map print (v :: j :: l))) with (print v ++ ","%char :: join (map print (j :: l))).
    rewrite <- app_assoc. now apply print_head. }
  destruct E as (c & t & -> & O). cbn [value]. change (Ascii.eqb "[" dquote) with false. cbn [Ascii.eqb Bool.eqb].
  destruct c as [[] [] [] [] [] [] [] []]; try reflexivity. now destruct O.
Qed.

Lemma value_num n s r : number s -> stops r -> value (S n) (s ++ r) = Some (JNum s, r).
Proof.
  intros H S. destruct (number_numeric s H) as [N F]. destruct s as [|c s]; [contradiction|].
  pose proof (parse_number_app (c :: s) r H S) as P.
  inversion F as [|? ? Hc _]; subst. cbn [app] in *. cbn [value].
  destruct (Ascii.eqb_spec c dquote) as [->|]; [discriminate|]. destruct (Ascii.eqb_spec c "{") as [->|]; [discriminate|].
  destruct (Ascii.eqb_spec c "[") as [->|]; [discriminate|]. destruct (Ascii.eqb_spec c "t") as [->|]; [discriminate|].
  now rewrite P.
Qed.

Lemma print_parses j : parses j.
Proof.
  induction j as [s|s| |l IH|l IH] using json_nested_ind; intros G n r N S; (destruct n as [|n]; [cbn in N; lia|]).
  - cbn [print]. rewrite quote_app. cbn [value]. rewrite Ascii.eqb_refl, parse_string_quote. reflexivity.
  - now apply value_num.
  - reflexivity.
  - cbn [print app]. rewrite <- app_assoc. cbn [app]. fold member. destruct l as [|kv l]; [reflexivity|].
    rewrite value_obj by discriminate. cbn [size] in N. rewrite members_print; [reflexivity|discriminate|exact IH|exact G|lia].
  - cbn [print app]. rewrite <- app_assoc. cbn [app]. destruct l as [|v l]; [reflexivity|].
    rewrite value_arr by (discriminate || exact G). cbn [size] in N. rewrite elements_print; [reflexivity|discriminate|exact IH|exact G|lia].
Qed.

Lemma join_length l : (length (join l) + 1 >= list_sum (map (fun t => S (length t)) l))%nat.
Proof.
  induction l as [|x l IH]; [cbn; lia|]. destruct l as [|y l]; [cbn; lia|].
  change (join (x :: y :: l)) with (x ++ ","%char :: join (y :: l)). rewrite length_app. cbn [length map list_sum fold_right] in *. lia.
Qed.

Lemma size_print j : good j -> (size j <= length (print j))%nat.
Proof.
  induction j as [s|s| |l IH|l IH] using json_nested_ind; intros G.
  - cbn. lia.
  - destruct (number_numeric s G) as [N _]. destruct s; [contradiction|cbn; lia].
  - cbn. lia.
  - cbn [size print length]. change (map _ l) with (map member l) at 2. rewrite length_app. cbn [length].
    pose proof (join_length (map member l)) as J.
    enough (H : (list_sum (map (fun kv => S (size (snd kv))) l) <= list_sum (map (fun t => S (length t)) (map member l)))%nat) by lia.
    clear J. induction IH as [|[k v] l Hv _ IHl]; [cbn; lia|]. destruct G as [Gv Gl]. specialize (Hv Gv). specialize (IHl Gl).
    cbn [map snd] in *. change (list_sum (?a :: ?b)) with (a + list_sum b)%nat.
    change (member (k, v)) with (quote k ++ ":"%char :: print v). rewrite length_app. cbn [length]. lia.
  - cbn [size print length]. rewrite length_app. cbn [length]. pose proof (join_length (map print l)) as J.
    enough (H : (list_sum (map (fun x => S (size x)) l) <= list_sum (map (fun t => S (length t)) (map print l)))%nat) by lia.
    clear J. induction IH as [|v l Hv _ IHl]; [cbn; lia|]. destruct G as [Gv Gl]. specialize (Hv Gv). specialize (IHl Gl).
    cbn [map] in *. change (list_sum (?a :: ?b)) with (a + list_sum b)%nat. lia.
Qed.

Lemma parse_print j : good j -> parse (print j) = Some j.
Proof.
  intros G. unfold parse. pose proof (print_parses j G (S (length (print j))) [] ltac:(pose proof (size_print j G); lia) I) as H.
  rewrite app_nil_r in H. now rewrite H.
Qed.

End Tree.

(** ** UTF-8 (RFC 3629)

    JSON texts are UTF-8.  The writer copies the bytes from 0x80 on of its strings, so
    its text is UTF-8 when they are. *)
Module Utf8.
Import Percent_g Writer Tree.

Definition tail : Z * Z := (128, 191).

(** The ranges the bytes after a first byte must lie in. *)
Definition lead (c : ascii) : option (list (Z * Z)) :=
  let b := code c in
  if b <? 128 then Some []
  else if b <? 194 then None
  else if b <? 224 then Some [tail]
  else if b =? 224 then Some [(160, 191); tail]
  else if b =? 237 then Some [(128, 159); tail]
  else if b <? 240 then Some [tail; tail]
  else if b =? 240 then Some [(144, 191); tail; tail]
  else if b <? 244 then Some [tail; tail; tail]
  else if b =? 244 then Some [(128, 143); tail; tail]
  else None.

Definition step (st : list (Z * Z)) (c : ascii) : option (list (Z * Z)) :=
  match st with
  | [] => lead c
  | (lo, hi) :: st => if (lo <=? code c) && (code c <=? hi) then Some st else None
  end.

Fixpoint run (st : list (Z * Z)) (s : text) : option (list (Z * Z)) :=
  match s with [] => Some st | c :: s => match step st c with Some st => run st s | None => None end end.

Definition utf8 (s : text) : bool := match run [] s with Some [] => true | _ => false end.

Lemma run_app st a b : run st (a ++ b) = match run st a with Some st => run st b | None => None end.
Proof. revert st. induction a as [|c a IH]; intros st; [reflexivity|]. cbn [app run]. destruct (step st c); auto. Qed.

Lemma utf8_run s : utf8 s = true -> run [] s = Some [].
Proof. unfold utf8. destruct (run [] s) as [[|]|]; congruence. Qed.

Definition ascii_text (s : text) : Prop := Forall (fun c => code c < 128) s.

Lemma run_ascii s : ascii_text s -> run [] s = Some [].
Proof.
  induction 1 as [|c s Hc _ IH]; [reflexivity|]. cbn [run step]. unfold lead. destruct (Z.ltb_spec (code c) 128); [exact IH|lia].
Qed.

(** Expected bytes are not ASCII. *)
Definition pending (st : list (Z * Z)) : Prop := Forall (fun r => 128 <= fst r) st.

Lemma step_pending st c st' : pending st -> step st c = Some st' -> pending st'.
Proof.
  destruct st as [|[lo hi] st]; cbn [step].
  - intros _. unfold lead, pending, tail. repeat (destruct (_ <? _) || destruct (_ =? _)); intros E; inversion E; repeat constructor; cbn; lia.
  - intros H. inversion H; subst. destruct (_ && _); intros E; [injection E as <-; assumption|discriminate].
Qed.

Lemma esc_ascii c : code c < 128 -> ascii_text (esc c).
Proof.
  intros H. destruct c as [[] [] [] [] [] [] [] []]; try (exfalso; vm_compute in H; discriminate); repeat constructor.
Qed.

Lemma run_esc st c st' : pending st -> step st c = Some st' -> run st (esc c) = Some st'.
Proof.
  intros P H. destruct (Z.ltb_spec (code c) 128) as [L|L].
  - destruct st as [|[lo hi] st]; cbn [step] in H.
    + rewrite run_ascii by now apply esc_ascii. unfold lead in H. destruct (Z.ltb_spec (code c) 128); congruence || lia.
    + inversion P as [|? ? Hlo _]; subst. cbn [fst] in Hlo. destruct (Z.leb_spec lo (code c)); [lia|discriminate].
  - assert (E : esc c = [c]).
    { destruct c as [[] [] [] [] [] [] [] []]; try reflexivity; exfalso; vm_compute in L; now apply L. }
    rewrite E. cbn [run]. now rewrite H.
Qed.

Lemma run_quoted s : forall st st', pending st -> run st s = Some st' -> run st (flat_map esc s) = Some st'.
Proof.
  induction s as [|c s IH]; intros st st' P H; [exact H|]. cbn [run flat_map] in *. destruct (step st c) as [st1|] eqn:E; [|discriminate].
  rewrite run_app, (run_esc st c st1 P E). apply IH; [exact (step_pending st c st1 P E)|exact H].
Qed.

Lemma quote_utf8 s : utf8 s = true -> run [] (quote s) = Some [].
Proof.
  intros H. unfold quote. change (dquote :: flat_map esc s ++ [dquote]) with ([dquote] ++ flat_map esc s ++ [dquote]). rewrite run_app.
  change (run [] [dquote]) with (Some (@nil (Z * Z))). cbv iota.
  rewrite run_app, (run_quoted s [] []) by (try constructor; now apply utf8_run). reflexivity.
Qed.

(** A document whose strings are UTF-8. *)
Fixpoint strings_utf8 (j : json) : Prop :=
  match j with
  | JStr s => utf8 s = true
  | JObj l => fold_right (fun kv P => (utf8 (fst kv) = true /\ strings_utf8 (snd kv)) /\ P) True l
  | JArr l => fold_right (fun x P => strings_utf8 x /\ P) True l
  | _ => True
  end.

Lemma run_join l : Forall (fun t => run [] t = Some []) l -> run [] (join l) = Some [].
Proof.
  induction 1 as [|t l Ht Hl IH]; [reflexivity|]. destruct l as [|u l]; [exact Ht|].
  change (join (t :: u :: l)) with (t ++ ","%char :: join (u :: l)). rewrite run_app, Ht. exact IH.
Qed.

Lemma numeric_ascii s : Forall (fun c => numeric c = true) s -> ascii_text s.
Proof.
  apply Forall_impl. intros c H. destruct c as [[] [] [] [] [] [] [] []]; try reflexivity; discriminate.
Qed.

Lemma print_run j : good j -> strings_utf8 j -> run [] (print j) = Some [].
Proof.
  induction j as [s|s| |l IH|l IH] using json_nested_ind; intros G U.
  - now apply quote_utf8.
  - now apply run_ascii, numeric_ascii, number_numeric.
  - reflexivity.
  - cbn [print]. change ("{"%char :: ?x) with (["{"%char] ++ x). rewrite run_app.
    change (run [] ["{"%char]) with (Some (@nil (Z * Z))). cbv iota. rewrite run_app, run_join; [reflexivity|].
    apply Forall_map. induction IH as [|[k v] l Hv _ IHl]; [constructor|]. destruct G as [Gv Gl], U as [[Uk Uv] Ul].
    constructor; [|now apply IHl]. cbn [fst snd] in *. rewrite run_app, quote_utf8 by exact Uk. now apply Hv.
  - cbn [print]. change ("["%char :: ?x) with (["["%char] ++ x). rewrite run_app.
    change (run [] ["["%char]) with (Some (@nil (Z * Z))). cbv iota. rewrite run_app, run_join; [reflexivity|].
    apply Forall_map. induction IH as [|v l Hv _ IHl]; [constructor|]. destruct G as [Gv Gl], U as [Uv Ul].
    constructor; [now apply Hv|now apply IHl].
Qed.

Lemma print_utf8 j : good j -> strings_utf8 j -> utf8 (print j) = true.
Proof. intros G U. unfold utf8. now rewrite print_run. Qed.

End Utf8.
