(* ===== verification/OtlpJson.v ===== *)
(** * OTLP requests as JSON ([src/runtime/otlp/otlp_json.c])

    - [Build]: the JSON twins of the protocol buffer builders, as the code writes them.
    - [Documents]: the document each builder writes, and that the bytes parse to it. *)

From Stdlib Require Import SpecFloat.
From S2P Require Import Prelude Bytes CText PbEncode OtlpTraces OtlpTransport AmpDrain OtlpHist OtlpHttpSpan OtlpPb OtlpPbMetrics Json.
Local Open Scope string_scope.
Local Open Scope list_scope.
Local Open Scope Z_scope.

Module Build.
Import Ids Assemble Doubles Fold Writer.
Import OtlpPb.Common OtlpPb.Traces OtlpPbMetrics.Build Drain.

Definition otlp_want_json (p : process) : bool :=
  match getenv p (lit "OTEL_EXPORTER_OTLP_PROTOCOL") with Some v => text_eqb v (lit "http/json") | None => false end.

Definition otlp_endpoint_is_grpc (e : option text) : bool :=
  match e with Some e => has_prefix (lit "grpc://") e || has_prefix (lit "grpcs://") e | None => false end.

Declare Scope writer_scope.
Infix "|>" := (fun w f => f w) (at level 50, left associativity, only parsing) : writer_scope.
Local Open Scope writer_scope.

(** A literal of the source, with ' for the double quote. *)
Definition raw (s : string) (w : jw_t) : jw_t := jw_raw w (qlit s).
Definition jstr (s : option text) (w : jw_t) : jw_t := jw_jstr w s.
Definition u64q (v : Z) (w : jw_t) : jw_t := jw_u64q w v.
Definition i64q (v : Z) (w : jw_t) : jw_t := jw_i64q w v.
Definition int (v : Z) (w : jw_t) : jw_t := jw_int w v.
Definition dbl (v : double) (w : jw_t) : jw_t := jw_dbl w v.

(** [if (!first) jw_ch(&w, ','); first = 0;] *)
Definition sep (first : bool) (w : jw_t) : jw_t := if first then w else jw_ch w ",".

Definition jw_res_kv (st : jw_t * bool) (k : text) (v : option text) : jw_t * bool :=
  let '(w, first) := st in
  if nonempty v then
    (w |> sep first |> raw "{'key':" |> jstr (Some k) |> raw ",'value':{'stringValue':" |> jstr v |> raw "}}", false)
  else st.

Definition jw_resource (p : process) (name ver : option text) (w : jw_t) : jw_t :=
  let st := (raw "'resource':{'attributes':[" w, true) in
  let st := jw_res_kv st (lit "service.name") name in
  let st := jw_res_kv st (lit "service.version") ver in
  let st := jw_res_kv st (lit "service.instance.id") (Some (otlp_service_instance_id p)) in
  let st := jw_res_kv st (lit "telemetry.sdk.name") (Some (lit "spinel-ebpf")) in
  let st := jw_res_kv st (lit "telemetry.sdk.language") (Some (lit "ruby")) in
  let st := jw_res_kv st (lit "telemetry.sdk.version") (Some (lit "0")) in
  let st := fold_left (fun st a => jw_res_kv st (key a) (Some (val a))) (env_attrs p) st in
  raw "]}" (fst st).

Definition jw_scope (scope : option text) (w : jw_t) : jw_t :=
  w |> raw "'scope':{'name':" |> jstr (Some (match scope with Some s => s | None => lit "spinel-ebpf" end)) |> raw "}".

Definition jw_code_attrs (fn file : option text) (line : Z) (w : jw_t) : jw_t :=
  let w := w |> raw "'attributes':["
             |> raw "{'key':'code.function','value':{'stringValue':"
             |> jstr (Some (match fn with Some f => f | None => [] end)) |> raw "}}" in
  let w := if nonempty file then w |> raw ",{'key':'code.filepath','value':{'stringValue':" |> jstr file |> raw "}}" else w in
  let w := if 0 <? line then w |> raw ",{'key':'code.lineno','value':{'intValue':" |> i64q line |> raw "}}" else w in
  raw "]" w.

(** [for (...) { if (i) jw_ch(&w, ','); ... }] *)
Definition comma_loop {A} (body : A -> jw_t -> jw_t) (l : list A) (w : jw_t) : jw_t :=
  fst (fold_left (fun st x => (fst st |> sep (snd st) |> body x, false)) l (w, true)).

(** The same with [if (count == 0) continue;]. *)
Definition live_loop {A} (live : A -> Z) (body : A -> jw_t -> jw_t) (l : list A) (w : jw_t) : jw_t :=
  fst (fold_left (fun st x => if live x =? 0 then st else (fst st |> sep (snd st) |> body x, false)) l (w, true)).

Definition envelope (rs ss items : string) (p : process) (svc ver scope : option text) (body : jw_t -> jw_t) (w : jw_t) : jw_t :=
  w |> raw ("{'" ++ rs ++ "':[{") |> jw_resource p svc ver |> raw (",'" ++ ss ++ "':[{") |> jw_scope scope
    |> raw (",'" ++ items ++ "':[") |> body |> raw "]}]}]}".

Definition times (t start : Z) (w : jw_t) : jw_t :=
  w |> raw "{'startTimeUnixNano':" |> u64q start |> raw ",'timeUnixNano':" |> u64q t.

Definition count_sum (total : Z) (sum : double) (w : jw_t) : jw_t :=
  w |> raw ",'count':" |> u64q total |> raw ",'sum':" |> dbl sum.

(** The body of an exponential data point up to its attributes. *)
Definition exp_body (t start : Z) (buckets : list Z) (w : jw_t) : jw_t :=
  let '(fl, total, sum) := scan_slots buckets in
  let w := w |> times t start |> count_sum total sum |> raw ",'scale':0,'zeroCount':'0'" in
  let w := match fl with
           | Some (fs, ls) =>
               w |> raw ",'positive':{'offset':" |> int (Z.of_nat fs) |> raw ",'bucketCounts':["
                 |> comma_loop u64q (map (fun s => nth s buckets 0) (seq fs (ls - fs + 1))) |> raw "]}"
           | None => w
           end in
  jw_ch w ",".

Definition hist_body (t start total : Z) (sum : double) (counts : list Z) (bounds : list double) (w : jw_t) : jw_t :=
  w |> times t start |> count_sum total sum |> raw ",'bucketCounts':[" |> comma_loop u64q counts
    |> raw "],'explicitBounds':[" |> comma_loop dbl bounds |> raw "],".

Definition code_attrs_of (m : otlp_method_metric_t) (w : jw_t) : jw_t :=
  w |> jw_code_attrs (Some (method m)) (file m) (line m) |> raw "}".

Definition method_part (part : otlp_method_part_t) (t start : Z) (methods : list otlp_method_metric_t) (w : jw_t) : jw_t :=
  match part with
  | OTLP_MPART_CALLS =>
      w |> raw "{'name':'spnl_method_calls_total','sum':{'dataPoints':["
        |> live_loop calls (fun m w => w |> times t start |> raw ",'asInt':" |> i64q (sgn 64 (calls m)) |> raw "," |> code_attrs_of m) methods
        |> raw "],'aggregationTemporality':2,'isMonotonic':true}}"
  | OTLP_MPART_LATENCY_EXP =>
      w |> raw "{'name':'spnl_method_latency_ns','unit':'ns','exponentialHistogram':{'dataPoints':["
        |> live_loop calls (fun m w => w |> exp_body t start (buckets m) |> code_attrs_of m) methods
        |> raw "],'aggregationTemporality':2}}"
  | OTLP_MPART_LATENCY_HIST =>
      w |> raw "{'name':'spnl_method_latency_ns','unit':'ns','histogram':{'dataPoints':["
        |> live_loop calls (fun m w =>
             let '(bc, total, sum) := otlp_log2_fold (buckets m) in
             w |> hist_body t start total sum (map (fun b => nth b bc 0) (seq 0 OTLP_LOG2_NBUCKETS))
                    (map (fun b => nth b otlp_log2_ns_bounds (S754_zero false)) (seq 0 OTLP_LOG2_NBOUNDS))
               |> code_attrs_of m) methods
        |> raw "],'aggregationTemporality':2}}"
  end.

Section Requests.
Context (p : process) (cap : nat) (svc ver scope : option text).

Definition metrics_request (body : jw_t -> jw_t) : option text :=
  jw_done (envelope "resourceMetrics" "scopeMetrics" "metrics" p svc ver scope body (jw_init cap)).

Definition otlp_json_metrics_method_build (part : otlp_method_part_t) (t start : Z) (methods : list otlp_method_metric_t) : option text :=
  metrics_request (method_part part t start methods).

Definition opt_parent (has : bool) (id : list Z) (w : jw_t) : jw_t :=
  if has then w |> raw ",'parentSpanId':" |> (fun w => jw_hex w id) else w.

Definition json_span (metas : list otlp_method_meta_t) (s : otlp_span_t) (w : jw_t) : jw_t :=
  let m := find_meta metas (method_idx s) in
  let w := w |> raw "{'traceId':" |> (fun w => jw_hex w (s_trace_id s)) |> raw ",'spanId':" |> (fun w => jw_hex w (s_span_id s))
             |> opt_parent (s_has_parent s) (s_parent_span_id s)
             |> raw ",'name':"
             |> jstr (Some (match m with Some m => match Traces.method m with Some n => n | None => lit "?" end | None => lit "?" end))
             |> raw ",'kind':1" |> raw ",'startTimeUnixNano':" |> u64q (s_start s) |> raw ",'endTimeUnixNano':" |> u64q (s_end s) in
  let w := match m with Some m => w |> raw "," |> jw_code_attrs (Traces.method m) (Traces.file m) (Traces.line m) | None => w end in
  raw "}" w.

Definition otlp_json_traces_build (spans : list otlp_span_t) (metas : list otlp_method_meta_t) : option text :=
  jw_done (envelope "resourceSpans" "scopeSpans" "spans" p svc ver scope (comma_loop (json_span metas) spans) (jw_init cap)).

(** [if (c) { if (!first) jw_ch(&w, ','); first = 0; ... }] *)
Definition int_kv_if (c : bool) (st : jw_t * bool) (k : string) (v : Z) : jw_t * bool :=
  if c then (fst st |> sep (snd st) |> raw ("{'key':'" ++ k ++ "','value':{'intValue':") |> i64q v |> raw "}}", false) else st.

Definition json_http_attrs (s : Span.otlp_http_span_t) (w : jw_t) : jw_t :=
  let st := (w, true) in
  let st := jw_res_kv st (lit "http.request.method") (Span.http_method s) in
  let st := jw_res_kv st (lit "url.path") (Span.url_path s) in
  let st := int_kv_if (0 <? Span.status_code s) st "http.response.status_code" (Span.status_code s) in
  let st := jw_res_kv st (lit "server.address") (Span.server_address s) in
  let st := int_kv_if (0 <? Span.server_port s) st "server.port" (Span.server_port s) in
  let st := jw_res_kv st (lit "client.address") (Span.client_address s) in
  let st := jw_res_kv st (lit "url.scheme") (Some (Span.url_scheme s)) in
  let st := jw_res_kv st (lit "http.route") (Span.hroute s) in
  let st := jw_res_kv st (lit "tenant") (Span.tenant s) in
  let st := int_kv_if (0 <=? Span.tcp_established s) st "net.tcp.established" (Span.tcp_established s) in
  let st := int_kv_if (0 <=? Span.tcp_state_changes s) st "net.tcp.state_changes" (Span.tcp_state_changes s) in
  fst st.

Definition json_http_span (s : Span.otlp_http_span_t) (w : jw_t) : jw_t :=
  let w := w |> raw "{'traceId':" |> (fun w => jw_hex w (Span.trace_id s)) |> raw ",'spanId':" |> (fun w => jw_hex w (Span.span_id s))
             |> opt_parent (Span.has_parent s) (Span.parent_span_id s)
             |> raw ",'name':" |> jstr (Some (Span.name s)) |> raw ",'kind':2"
             |> raw ",'startTimeUnixNano':" |> u64q (Span.start_unix_ns s) |> raw ",'endTimeUnixNano':" |> u64q (Span.end_unix_ns s)
             |> raw ",'attributes':[" |> json_http_attrs s |> raw "]" in
  let w := if 500 <=? Span.status_code s then raw ",'status':{'code':2}" w else w in
  raw "}" w.

Definition otlp_json_http_span_build (s : Span.otlp_http_span_t) : option text :=
  jw_done (envelope "resourceSpans" "scopeSpans" "spans" p svc ver scope (json_http_span s) (jw_init cap)).

Definition jw_labels (labels : list otlp_kv_t) (w : jw_t) : jw_t :=
  w |> raw "'attributes':["
    |> comma_loop (fun a w => w |> raw "{'key':" |> jstr (Some (key a)) |> raw ",'value':{'stringValue':" |> jstr (Some (val a)) |> raw "}}") labels
    |> raw "]".

Definition jw_series_attrs (s : otlp_series_t) (w : jw_t) : jw_t := jw_labels (labels s) w.

(** [{"name":..., "unit":...] with the unit left out when it is empty. *)
Definition name_unit (name : text) (unit : option text) (w : jw_t) : jw_t :=
  let w := w |> raw "{'name':" |> jstr (Some name) in
  if nonempty unit then w |> raw ",'unit':" |> jstr unit else w.

Definition otlp_json_metrics_sum_build (name : text) (unit : option text) (t start : Z) (series : list otlp_series_t) : option text :=
  metrics_request (fun w =>
    w |> name_unit name unit |> raw ",'sum':{'dataPoints':["
      |> live_loop count (fun s w => w |> times t start |> raw ",'asInt':" |> i64q (sgn 64 (count s)) |> raw "," |> jw_series_attrs s |> raw "}") series
      |> raw "],'aggregationTemporality':2,'isMonotonic':true}}").

Definition otlp_json_metrics_exphist_build (name : text) (unit : option text) (t start : Z) (series : list otlp_series_t) : option text :=
  metrics_request (fun w =>
    w |> name_unit name unit |> raw ",'exponentialHistogram':{'dataPoints':["
      |> live_loop count (fun s w => w |> exp_body t start (s_buckets s) |> jw_series_attrs s |> raw "}") series
      |> raw "],'aggregationTemporality':2}}").

Definition otlp_json_metrics_hist_build (name : text) (unit : option text) (bounds : list double) (nbounds : nat) (t start : Z)
  (series : list otlp_hseries_t) : option text :=
  metrics_request (fun w =>
    w |> name_unit name unit |> raw ",'histogram':{'dataPoints':["
      |> live_loop h_count (fun s w =>
           w |> hist_body t start (h_count s) (h_sum s) (map (fun b => nth b (bucket_counts s) 0) (seq 0 (nbounds + 1)))
                  (map (fun b => nth b bounds (S754_zero false)) (seq 0 nbounds))
             |> jw_labels (h_labels s) |> raw "}") series
      |> raw "],'aggregationTemporality':2}}").

Definition json_log (r : otlp_log_record_t) (w : jw_t) : jw_t :=
  let w := w |> raw "{'timeUnixNano':" |> u64q (time_unix_ns r) |> raw ",'observedTimeUnixNano':" |> u64q (time_unix_ns r)
             |> raw ",'severityNumber':" |> int (if severity r =? 0 then 9 else severity r)
             |> raw ",'severityText':'INFO','body':{" in
  let w := if body_is_str r then w |> raw "'stringValue':" |> jstr (Some (match body_str r with Some s => s | None => [] end))
           else w |> raw "'intValue':" |> i64q (body_int r) in
  let w := raw "}" w in
  let w := if nonempty (event_name r) then w |> raw ",'eventName':" |> jstr (event_name r) else w in
  raw "}" w.

Definition otlp_json_logs_build (recs : list otlp_log_record_t) : option text :=
  jw_done (envelope "resourceLogs" "scopeLogs" "logRecords" p svc ver scope (comma_loop json_log recs) (jw_init cap)).

End Requests.

End Build.

Module Documents.
Import Ids Assemble Doubles Fold Writer Tree Utf8 Percent_g.
Import OtlpPb.Common OtlpPb.Traces OtlpPbMetrics.Build Drain Build.

Definition attr_json (a : attr) : json :=
  match a with
  | AStr k v => JObj [(lit "key", JStr k); (lit "value", JObj [(lit "stringValue", JStr v)])]
  | AInt k v => JObj [(lit "key", JStr k); (lit "value", JObj [(lit "intValue", JStr (dec_s (sgn 64 v)))])]
  end.

(** [jw_res_kv] writes nothing for an empty value. *)
Definition keep (a : attr) : bool := match a with AStr _ [] => false | _ => true end.

Definition attrs_json (l : list attr) : json := JArr (map attr_json l).

Definition request_json (rs ss items : string) (p : process) (svc ver scope : option text) (l : list json) : json :=
  JObj [(lit rs, JArr [JObj
    [(lit "resource", JObj [(lit "attributes", attrs_json (filter keep (resource_attrs p svc ver)))]);
     (lit ss, JArr [JObj [(lit "scope", JObj [(lit "name", JStr (OtlpPb.Envelope.scope_or_default scope))]); (lit items, JArr l)]])]])].

(** [f] writes the text [t]. *)
Definition writes_text (f : jw_t -> jw_t) (t : text) : Prop := forall w, f w = jw_raw w t.

Lemma jstr_writes s : writes_text (jstr (Some s)) (print (JStr s)).
Proof. intros w. apply jw_jstr_raw. Qed.
Lemma u64q_writes v : writes_text (u64q v) (print (JStr (dec_u (u64 v)))).
Proof. intros w. apply jw_u64q_raw. Qed.
Lemma i64q_writes v : writes_text (i64q v) (print (JStr (dec_s (sgn 64 v)))).
Proof. intros w. apply jw_i64q_raw. Qed.
Lemma int_writes v : writes_text (int v) (print (JNum (dec_s (sgn 64 v)))).
Proof. intros w. apply jw_int_raw. Qed.

(** Items separated by commas. *)
Definition put_item (st : jw_t * bool) (t : text) : jw_t * bool := (jw_raw (sep (snd st) (fst st)) t, false).

Lemma put_items_more l : forall w, fst (fold_left put_item l (w, false)) = jw_raw w (flat_map (fun t => ","%char :: t) l).
Proof.
  induction l as [|t l IH]; intros w; [reflexivity|]. cbn [fold_left flat_map]. unfold put_item at 2. cbn [fst snd sep].
  rewrite IH. change (","%char :: t) with ([","%char] ++ t). now rewrite !jw_raw_app.
Qed.

Lemma join_more t l : join (t :: l) = t ++ flat_map (fun t => ","%char :: t) l.
Proof.
  revert t. induction l as [|x l IH]; intros t; [cbn; now rewrite app_nil_r|].
  change (join (t :: x :: l)) with (t ++ ","%char :: join (x :: l)). now rewrite IH.
Qed.

Lemma put_items l w : fst (fold_left put_item l (w, true)) = jw_raw w (join l).
Proof.
  destruct l as [|t l]; [reflexivity|]. cbn [fold_left]. unfold put_item at 2. cbn [fst snd sep].
  rewrite put_items_more, <- jw_raw_app, join_more. reflexivity.
Qed.

Lemma comma_loop_writes {A} body (g : A -> text) l : (forall x, In x l -> writes_text (body x) (g x)) ->
  writes_text (comma_loop body l) (join (map g l)).
Proof.
  intros H w. unfold comma_loop. rewrite <- put_items. f_equal. generalize (w, true) as st. clear w.
  induction l as [|x l IH]; intros st; [reflexivity|]. cbn [fold_left map]. rewrite (H x) by now left.
  apply IH. intros y Hy. apply H. now right.
Qed.

Lemma live_loop_writes {A} live body (g : A -> text) l : (forall x, writes_text (body x) (g x)) ->
  writes_text (live_loop live body l) (join (map g (OtlpPbMetrics.Arrive.live_points live l))).
Proof.
  intros H w. unfold live_loop. rewrite <- put_items. f_equal. generalize (w, true) as st. clear w.
  induction l as [|x l IH]; intros st; [reflexivity|]. cbn [fold_left OtlpPbMetrics.Arrive.live_points filter].
  destruct (live x =? 0); [apply IH|]. cbn [negb map fold_left]. rewrite (H x). apply IH.
Qed.

Lemma jw_raw_cons w c s : jw_raw w (c :: s) = jw_raw (jw_ch w c) s.
Proof. reflexivity. Qed.

Opaque jw_ch scan_slots otlp_log2_fold.

(** Both sides as one sequence of pieces. *)
Ltac pieces := repeat rewrite ?jw_raw_cons, ?jw_raw_app, ?jw_jstr_raw, ?jw_u64q_raw, ?jw_i64q_raw, ?jw_int_raw; reflexivity.

Definition attr_items (l : list attr) : list text := map (fun a => print (attr_json a)) (filter keep l).

Lemma res_kv_item st k v : jw_res_kv st k v = fold_left put_item (attr_items (opt_attr k v)) st.
Proof.
  destruct st as [w first], v as [[|c v]|]; try reflexivity. cbn [jw_res_kv nonempty opt_attr attr_items filter keep map fold_left].
  unfold put_item. cbn [fst snd]. f_equal. unfold raw, jstr. cbn [attr_json print map fst snd join]. pieces.
Qed.

Lemma fold_items l l' st : fold_left put_item (attr_items l') (fold_left put_item (attr_items l) st) = fold_left put_item (attr_items (l ++ l')) st.
Proof. unfold attr_items. now rewrite filter_app, map_app, fold_left_app. Qed.

Lemma attrs_writes (f : jw_t -> jw_t) l : (forall w, f w = fst (fold_left put_item (attr_items l) (w, true))) ->
  writes_text f (join (map print (map attr_json (filter keep l)))).
Proof. intros H w. rewrite H, put_items. unfold attr_items. now rewrite map_map. Qed.

(** *** Resource, scope and envelope *)

Lemma res_kv_attr st k v : jw_res_kv st k (Some v) = fold_left put_item (attr_items [AStr k v]) st.
Proof. rewrite res_kv_item. now destruct v. Qed.

Lemma env_items l st : fold_left (fun st a => jw_res_kv st (key a) (Some (val a))) l st =
  fold_left put_item (attr_items (flat_map (fun a => [kv_attr a]) l)) st.
Proof.
  revert st. induction l as [|a l IH]; intros st; [reflexivity|]. cbn [fold_left flat_map].
  now rewrite IH, res_kv_attr, fold_items.
Qed.

Lemma resource_writes p svc ver : writes_text (jw_resource p svc ver)
  (qlit "'resource':" ++ print (JObj [(lit "attributes", attrs_json (filter keep (resource_attrs p svc ver)))])).
Proof.
  intros w. unfold jw_resource. rewrite env_items, !res_kv_attr, !res_kv_item, !fold_items.
  fold (resource_attrs p svc ver). rewrite put_items. unfold raw, attrs_json, attr_items.
  cbn [print map fst snd join]. rewrite map_map. pieces.
Qed.

Lemma scope_writes scope : writes_text (jw_scope scope) (qlit "'scope':" ++ print (JObj [(lit "name", JStr (OtlpPb.Envelope.scope_or_default scope))])).
Proof. intros w. unfold jw_scope, raw, jstr. cbn [print map fst snd join]. pieces. Qed.

Lemma envelope_writes rs ss items p svc ver scope body l : In (rs, ss, items)
    [("resourceMetrics", "scopeMetrics", "metrics"); ("resourceSpans", "scopeSpans", "spans"); ("resourceLogs", "scopeLogs", "logRecords")]%string ->
  writes_text body (join (map print l)) ->
  writes_text (envelope rs ss items p svc ver scope body) (print (request_json rs ss items p svc ver scope l)).
Proof.
  intros Hn H w. unfold envelope. cbv beta. rewrite scope_writes, H, resource_writes. unfold raw, request_json.
  set (R := JObj [(lit "attributes", attrs_json (filter keep (resource_attrs p svc ver)))]).
  set (S := JObj [(lit "name", JStr (OtlpPb.Envelope.scope_or_default scope))]).
  cbn [In] in Hn. destruct Hn as [E|[E|[E|[]]]]; injection E as <- <- <-; clearbody R S;
    cbn [print map fst snd join]; pieces.
Qed.

Lemma code_attrs_writes fn file line : writes_text (jw_code_attrs fn file line)
  (qlit "'attributes':" ++ print (attrs_json ([AStr (lit "code.function") (match fn with Some f => f | None => [] end)]
     ++ opt_attr (lit "code.filepath") file ++ Traces.int_attr (0 <? line) (lit "code.lineno") line))).
Proof.
  intros w. unfold jw_code_attrs, raw, jstr, i64q. unfold attrs_json, Traces.int_attr.
  destruct file as [[|c file]|], (0 <? line); cbn [nonempty opt_attr app print map attr_json fst snd join]; pieces.
Qed.

Lemma labels_writes l : writes_text (jw_labels l) (qlit "'attributes':" ++ print (attrs_json (OtlpPbMetrics.Arrive.label_attrs l))).
Proof.
  intros w. unfold jw_labels. cbv beta. rewrite (comma_loop_writes _ (fun a => print (attr_json (kv_attr a)))).
  - unfold attrs_json, OtlpPbMetrics.Arrive.label_attrs, raw. cbn [print]. rewrite map_map.
    replace (flat_map (fun a => [kv_attr a]) l) with (map kv_attr l) by (induction l as [|a l IH]; [reflexivity|cbn; now rewrite IH]).
    rewrite map_map. pieces.
  - intros a _ w'. unfold raw, jstr. cbn [kv_attr attr_json print map fst snd join]. pieces.
Qed.

(** *** Logs *)

Definition log_json (r : otlp_log_record_t) : json :=
  JObj ([(lit "timeUnixNano", JStr (dec_u (u64 (time_unix_ns r)))); (lit "observedTimeUnixNano", JStr (dec_u (u64 (time_unix_ns r))));
         (lit "severityNumber", JNum (dec_s (sgn 64 (if severity r =? 0 then 9 else severity r)))); (lit "severityText", JStr (lit "INFO"));
         (lit "body", JObj [if body_is_str r then (lit "stringValue", JStr (match body_str r with Some s => s | None => [] end))
                            else (lit "intValue", JStr (dec_s (sgn 64 (body_int r))))])]
        ++ match event_name r with Some (c :: e) => [(lit "eventName", JStr (c :: e))] | _ => [] end).

Lemma log_writes r : writes_text (json_log r) (print (log_json r)).
Proof.
  intros w. unfold json_log, log_json, raw, jstr, u64q, i64q, int.
  destruct (body_is_str r), (event_name r) as [[|c e]|]; cbn [nonempty app print map fst snd join]; pieces.
Qed.

(** *** Spans *)

Definition parent_json (has : bool) (id : list Z) : list (text * json) := if has then [(lit "parentSpanId", JStr (hex id))] else [].

Definition span_json (metas : list otlp_method_meta_t) (s : otlp_span_t) : json :=
  let m := find_meta metas (method_idx s) in
  JObj ([(lit "traceId", JStr (hex (s_trace_id s))); (lit "spanId", JStr (hex (s_span_id s)))]
        ++ parent_json (s_has_parent s) (s_parent_span_id s)
        ++ [(lit "name", JStr (method_name m)); (lit "kind", JNum (lit "1"));
            (lit "startTimeUnixNano", JStr (dec_u (u64 (s_start s)))); (lit "endTimeUnixNano", JStr (dec_u (u64 (s_end s))))]
        ++ match m with Some _ => [(lit "attributes", attrs_json (method_attrs m))] | None => [] end).

Definition byte_string (b : list Z) : Prop := Forall (fun x => 0 <= x < 256) b.

Lemma json_span_writes metas s : byte_string (s_trace_id s) -> byte_string (s_span_id s) -> byte_string (s_parent_span_id s) ->
  writes_text (json_span metas s) (print (span_json metas s)).
Proof.
  intros B1 B2 B3 w. unfold json_span, span_json, opt_parent, parent_json. cbv beta zeta.
  destruct (find_meta metas (method_idx s)) as [m|].
  - rewrite code_attrs_writes. unfold raw, jstr, u64q, method_attrs. set (A := attrs_json _). clearbody A.
    destruct (s_has_parent s); rewrite ?jw_hex_raw by assumption; cbn [method_name app print map fst snd join]; pieces.
  - unfold raw, jstr, u64q.
    destruct (s_has_parent s); rewrite ?jw_hex_raw by assumption; cbn [method_name app print map fst snd join]; pieces.
Qed.

(** An integer attribute in the list, for the keys of the HTTP span. *)
Ltac int_item :=
  let st := fresh in intros c st v; unfold int_kv_if, Traces.int_attr; destruct st as [? ?], c; [|reflexivity];
  cbn [attr_items filter keep map fold_left]; unfold put_item, raw, i64q; cbn [attr_json print map fst snd join]; f_equal; pieces.

Lemma status_item : forall c st v, int_kv_if c st "http.response.status_code" v =
  fold_left put_item (attr_items (Traces.int_attr c (lit "http.response.status_code") v)) st.
Proof. int_item. Qed.
Lemma port_item : forall c st v, int_kv_if c st "server.port" v = fold_left put_item (attr_items (Traces.int_attr c (lit "server.port") v)) st.
Proof. int_item. Qed.
Lemma established_item : forall c st v, int_kv_if c st "net.tcp.established" v =
  fold_left put_item (attr_items (Traces.int_attr c (lit "net.tcp.established") v)) st.
Proof. int_item. Qed.
Lemma changes_item : forall c st v, int_kv_if c st "net.tcp.state_changes" v =
  fold_left put_item (attr_items (Traces.int_attr c (lit "net.tcp.state_changes") v)) st.
Proof. int_item. Qed.

Lemma keep_opt k v : filter keep (opt_attr k v) = opt_attr k v.
Proof. now destruct v as [[|c v]|]. Qed.
Lemma keep_int c k v : filter keep (Traces.int_attr c k v) = Traces.int_attr c k v.
Proof. now destruct c. Qed.

Lemma http_attrs_writes s : writes_text (json_http_attrs s) (join (map print (map attr_json (http_attrs s)))).
Proof.
  assert (K : filter keep (http_attrs s) = http_attrs s)
    by (unfold http_attrs; rewrite !filter_app, !keep_opt, !keep_int; reflexivity).
  rewrite <- K. apply attrs_writes. intros w. unfold json_http_attrs.
  rewrite changes_item, established_item, port_item, status_item, !res_kv_item, !fold_items. reflexivity.
Qed.

Definition http_json (s : Span.otlp_http_span_t) : json :=
  JObj ([(lit "traceId", JStr (hex (Span.trace_id s))); (lit "spanId", JStr (hex (Span.span_id s)))]
        ++ parent_json (Span.has_parent s) (Span.parent_span_id s)
        ++ [(lit "name", JStr (Span.name s)); (lit "kind", JNum (lit "2"));
            (lit "startTimeUnixNano", JStr (dec_u (u64 (Span.start_unix_ns s)))); (lit "endTimeUnixNano", JStr (dec_u (u64 (Span.end_unix_ns s))));
            (lit "attributes", attrs_json (http_attrs s))]
        ++ if 500 <=? Span.status_code s then [(lit "status", JObj [(lit "code", JNum (lit "2"))])] else []).

Lemma json_http_writes s : byte_string (Span.trace_id s) -> byte_string (Span.span_id s) -> byte_string (Span.parent_span_id s) ->
  writes_text (json_http_span s) (print (http_json s)).
Proof.
  intros B1 B2 B3 w. unfold json_http_span, http_json, opt_parent, parent_json. cbv beta zeta.
  destruct (500 <=? Span.status_code s); rewrite http_attrs_writes; unfold raw, jstr, u64q, attrs_json;
    set (A := map attr_json (http_attrs s)); clearbody A;
    destruct (Span.has_parent s); rewrite ?jw_hex_raw by assumption; cbn [app print map fst snd join]; pieces.
Qed.

(** *** Metrics *)

Definition num (v : double) : json := JNum (trunc 32 (fmt_g v)).

Definition times_json (t start : Z) : list (text * json) :=
  [(lit "startTimeUnixNano", JStr (dec_u (u64 start))); (lit "timeUnixNano", JStr (dec_u (u64 t)))].

Definition words_json (l : list Z) : json := JArr (map (fun v => JStr (dec_u (u64 v))) l).

Definition number_json (t start v : Z) (attrs : list attr) : json :=
  JObj (times_json t start ++ [(lit "asInt", JStr (dec_s (sgn 64 (sgn 64 v)))); (lit "attributes", attrs_json attrs)]).

Definition exp_json (t start : Z) (l : list Z) (attrs : list attr) : json :=
  let '(fl, total, sum) := scan_slots l in
  JObj (times_json t start ++ [(lit "count", JStr (dec_u (u64 total))); (lit "sum", num sum); (lit "scale", JNum (lit "0")); (lit "zeroCount", JStr (lit "0"))]
        ++ match fl with
           | Some (fs, ls) => [(lit "positive", JObj [(lit "offset", JNum (dec_s (sgn 64 (Z.of_nat fs))));
                                 (lit "bucketCounts", words_json (map (fun s => nth s l 0) (seq fs (ls - fs + 1))))])]
           | None => []
           end ++ [(lit "attributes", attrs_json attrs)]).

Definition hist_json (t start total : Z) (sum : double) (counts : list Z) (bounds : list double) (attrs : list attr) : json :=
  JObj (times_json t start ++ [(lit "count", JStr (dec_u (u64 total))); (lit "sum", num sum); (lit "bucketCounts", words_json counts);
        (lit "explicitBounds", JArr (map num bounds)); (lit "attributes", attrs_json attrs)]).

Definition metric_json (name : text) (unit : option text) (kind : string) (points : list json) (tail : list (text * json)) : json :=
  JObj ((lit "name", JStr name) :: match unit with Some (c :: u) => [(lit "unit", JStr (c :: u))] | _ => [] end
        ++ [(lit kind, JObj ((lit "dataPoints", JArr points) :: (lit "aggregationTemporality", JNum (lit "2")) :: tail))]).

Definition monotonic : list (text * json) := [(lit "isMonotonic", JTrue)].

Lemma words_writes l : writes_text (comma_loop u64q l) (join (map print (map (fun v => JStr (dec_u (u64 v))) l))).
Proof. rewrite map_map. apply comma_loop_writes. intros v _. apply u64q_writes. Qed.

Lemma nums_writes l : writes_text (comma_loop dbl l) (join (map print (map num l))).
Proof. rewrite map_map. apply comma_loop_writes. intros v _ w. reflexivity. Qed.

(** The attributes of a point and its closing brace. *)
Definition ends_with (f : jw_t -> jw_t) (attrs : list attr) : Prop := writes_text f (qlit "'attributes':" ++ print (attrs_json attrs) ++ qlit "}").

Lemma code_attrs_end m : ends_with (code_attrs_of m) (OtlpPbMetrics.Arrive.code_attrs m).
Proof.
  intros w. unfold code_attrs_of. cbv beta. rewrite code_attrs_writes. unfold raw. rewrite app_assoc, <- jw_raw_app. reflexivity.
Qed.

Lemma labels_end l : ends_with (fun w => raw "}" (jw_labels l w)) (OtlpPbMetrics.Arrive.label_attrs l).
Proof. intros w. rewrite labels_writes. unfold raw. rewrite app_assoc, <- jw_raw_app. reflexivity. Qed.

Lemma number_writes t start v f attrs : ends_with f attrs ->
  writes_text (fun w => f (raw "," (i64q (sgn 64 v) (raw ",'asInt':" (times t start w))))) (print (number_json t start v attrs)).
Proof.
  intros H w. rewrite H. unfold raw, times, i64q, u64q, number_json, times_json. set (A := attrs_json attrs). clearbody A.
  cbn [app print map fst snd join]. pieces.
Qed.

Lemma exp_writes t start l f attrs : ends_with f attrs ->
  writes_text (fun w => f (exp_body t start l w)) (print (exp_json t start l attrs)).
Proof.
  intros H w. rewrite H. unfold exp_body, exp_json. destruct (scan_slots l) as [[[[fs ls]|] total] sum]; cbv beta zeta.
  - rewrite words_writes. unfold raw, times, count_sum, dbl, jw_dbl, int, u64q, words_json, times_json, num, raw.
    set (A := attrs_json attrs). clearbody A. set (C := map (fun v => JStr (dec_u (u64 v))) _). clearbody C.
    cbn [app print map fst snd join]. pieces.
  - unfold raw, times, count_sum, dbl, jw_dbl, int, u64q, words_json, times_json, num, raw. set (A := attrs_json attrs). clearbody A.
    cbn [app print map fst snd join]. pieces.
Qed.

Lemma hist_writes t start total sum counts bounds f attrs : ends_with f attrs ->
  writes_text (fun w => f (hist_body t start total sum counts bounds w)) (print (hist_json t start total sum counts bounds attrs)).
Proof.
  intros H w. rewrite H. unfold hist_body, hist_json. cbv beta. rewrite nums_writes, words_writes.
  unfold raw, times, count_sum, dbl, jw_dbl, u64q, words_json, times_json, raw.
  set (A := attrs_json attrs). clearbody A. set (C := map (fun v => JStr (dec_u (u64 v))) _). clearbody C.
  set (B := map num bounds). clearbody B. unfold num. cbn [app print map fst snd join]. pieces.
Qed.

(** *** The documents are well formed *)

Definition all_good (l : list json) : Prop := fold_right (fun x P => good x /\ P) True l.

Lemma all_good_map {A} (f : A -> json) l : (forall x, In x l -> good (f x)) -> all_good (map f l).
Proof.
  induction l as [|x l IH]; intros H; [exact I|]. split; [apply H; now left|apply IH; intros; apply H; now right].
Qed.

Lemma attrs_good l : good (attrs_json l).
Proof. apply (all_good_map attr_json). intros a _. destruct a; cbn; auto. Qed.

Lemma request_good rs ss items p svc ver scope l : all_good l -> good (request_json rs ss items p svc ver scope l).
Proof. intros H. pose proof (attrs_good (filter keep (resource_attrs p svc ver))). cbn; auto 10. Qed.

Lemma log_good r : good (log_json r).
Proof.
  pose proof (dec_s_number (sgn 64 (if severity r =? 0 then 9 else severity r))).
  unfold log_json. destruct (body_is_str r), (event_name r) as [[|c e]|]; cbn; auto 12.
Qed.

Lemma digit_number c : is_digit c = true -> number [c].
Proof.
  intros H. exists [], [c], [], []. split; [reflexivity|]. split; [now left|]. split; [|split; now left].
  destruct (Ascii.eqb_spec c "0") as [->|N]; [now left|]. right. exists c, []. repeat split; auto. constructor.
Qed.

Lemma span_good metas s : good (span_json metas s).
Proof.
  pose proof (digit_number "1" eq_refl). unfold span_json, parent_json. pose proof (attrs_good (method_attrs (find_meta metas (method_idx s)))).
  destruct (s_has_parent s), (find_meta metas (method_idx s)); cbn; auto 12.
Qed.

Lemma http_good s : good (http_json s).
Proof.
  pose proof (digit_number "2" eq_refl). unfold http_json, parent_json. pose proof (attrs_good (http_attrs s)).
  destruct (Span.has_parent s), (500 <=? Span.status_code s); cbn; auto 14.
Qed.

Lemma num_good v : finite v -> good (num v).
Proof. intros H. destruct (fmt_g_number v H) as [N L]. unfold num. rewrite trunc_id by lia. exact N. Qed.

Lemma number_good t start v attrs : good (number_json t start v attrs).
Proof. pose proof (attrs_good attrs). cbn; auto 8. Qed.

Lemma words_good l : good (words_json l).
Proof. apply (all_good_map (fun v => JStr (dec_u (u64 v)))). intros; exact I. Qed.

Lemma exp_good t start l attrs : finite (snd (scan_slots l)) -> good (exp_json t start l attrs).
Proof.
  intros H. pose proof (attrs_good attrs). pose proof (digit_number "0" eq_refl). unfold exp_json.
  destruct (scan_slots l) as [[[[fs ls]|] total] sum]; cbn [snd] in H; pose proof (num_good sum H).
  - pose proof (dec_s_number (sgn 64 (Z.of_nat fs))). pose proof (words_good (map (fun s => nth s l 0) (seq fs (ls - fs + 1)))).
    cbn -[words_json num attrs_json]; auto 14.
  - cbn -[words_json num attrs_json]; auto 14.
Qed.

Lemma hist_good t start total sum counts bounds attrs : finite sum -> Forall finite bounds ->
  good (hist_json t start total sum counts bounds attrs).
Proof.
  intros H Hb. pose proof (attrs_good attrs). pose proof (num_good sum H). pose proof (words_good counts).
  assert (good (JArr (map num bounds))).
  { apply (all_good_map num). intros b Hin. apply num_good. now apply (proj1 (Forall_forall _ _) Hb). }
  cbn -[words_json num attrs_json]; auto 14.
Qed.

(** *** Requests *)

(** The document, whole, when it fits the buffer; nothing otherwise.  The bytes are a
    JSON text that parses to the document, in UTF-8 when the strings are. *)
Definition sent (cap : nat) (out : option text) (doc : json) : Prop :=
  out = (if (length (print doc) <=? cap)%nat then Some (print doc) else None) /\
  parse (print doc) = Some doc /\ (strings_utf8 doc -> utf8 (print doc) = true).

Lemma request_sent rs ss items p cap svc ver scope body l : In (rs, ss, items)
    [("resourceMetrics", "scopeMetrics", "metrics"); ("resourceSpans", "scopeSpans", "spans"); ("resourceLogs", "scopeLogs", "logRecords")]%string ->
  writes_text body (join (map print l)) -> all_good l ->
  sent cap (jw_done (envelope rs ss items p svc ver scope body (jw_init cap))) (request_json rs ss items p svc ver scope l).
Proof.
  intros Hn Hb Hg. split.
  - rewrite (envelope_writes rs ss items p svc ver scope body l Hn Hb). apply jw_done_raw.
  - pose proof (request_good rs ss items p svc ver scope l Hg) as G. split; [now apply parse_print|now apply print_utf8].
Qed.

Definition ids_ok (s : otlp_span_t) : Prop := byte_string (s_trace_id s) /\ byte_string (s_span_id s) /\ byte_string (s_parent_span_id s).
Definition http_ids_ok (s : Span.otlp_http_span_t) : Prop :=
  byte_string (Span.trace_id s) /\ byte_string (Span.span_id s) /\ byte_string (Span.parent_span_id s).

Lemma logs_sent p cap svc ver scope recs : sent cap (otlp_json_logs_build p cap svc ver scope recs)
  (request_json "resourceLogs" "scopeLogs" "logRecords" p svc ver scope (map log_json recs)).
Proof.
  apply request_sent; [cbn; auto|rewrite map_map; apply comma_loop_writes; intros r _; apply log_writes|].
  apply all_good_map. intros r _. apply log_good.
Qed.

Lemma spans_sent p cap svc ver scope spans metas : Forall ids_ok spans ->
  sent cap (otlp_json_traces_build p cap svc ver scope spans metas)
    (request_json "resourceSpans" "scopeSpans" "spans" p svc ver scope (map (span_json metas) spans)).
Proof.
  intros Hs. rewrite Forall_forall in Hs. apply request_sent; [cbn; auto| |apply all_good_map; intros s _; apply span_good].
  rewrite map_map. apply comma_loop_writes. intros s Hin. destruct (Hs s Hin) as (B1 & B2 & B3). now apply json_span_writes.
Qed.

Lemma http_sent p cap svc ver scope s : http_ids_ok s ->
  sent cap (otlp_json_http_span_build p cap svc ver scope s)
    (request_json "resourceSpans" "scopeSpans" "spans" p svc ver scope (map http_json [s])).
Proof.
  intros (B1 & B2 & B3). apply request_sent; [cbn; auto|now apply json_http_writes|]. split; [apply http_good|exact I].
Qed.

(** *** The metrics documents *)

Lemma name_unit_writes name unit : writes_text (name_unit name unit)
  (qlit "{'name':" ++ quote name ++ match unit with Some (c :: u) => qlit ",'unit':" ++ quote (c :: u) | _ => [] end).
Proof. intros w. unfold name_unit, raw, jstr. destruct unit as [[|c u]|]; cbn [nonempty]; pieces. Qed.

(** A metric of some kind around its data points. *)
Lemma metric_writes name unit (kind : string) body points (mono : bool) : In kind ["sum"; "exponentialHistogram"; "histogram"]%string ->
  writes_text body (join (map print points)) ->
  writes_text (fun w => raw (if mono then "],'aggregationTemporality':2,'isMonotonic':true}}" else "],'aggregationTemporality':2}}")
                 (body (raw (",'" ++ kind ++ "':{'dataPoints':[") (name_unit name unit w))))
    (print (metric_json name unit kind points (if mono then monotonic else []))).
Proof.
  intros Hk H w. rewrite H, name_unit_writes. unfold raw, metric_json, monotonic.
  cbn [In] in Hk. destruct Hk as [<-|[<-|[<-|[]]]], mono, unit as [[|c u]|]; cbn [app print map fst snd join]; pieces.
Qed.

Section Metrics.
Context (t start : Z).

Definition calls_json (m : otlp_method_metric_t) : json := number_json t start (calls m) (OtlpPbMetrics.Arrive.code_attrs m).
Definition lat_json (m : otlp_method_metric_t) : json := exp_json t start (buckets m) (OtlpPbMetrics.Arrive.code_attrs m).

Definition fold_json (m : otlp_method_metric_t) : json :=
  let '(bc, total, sum) := otlp_log2_fold (buckets m) in
  hist_json t start total sum (map (fun b => nth b bc 0) (seq 0 OTLP_LOG2_NBUCKETS))
    (map (fun b => nth b otlp_log2_ns_bounds (S754_zero false)) (seq 0 OTLP_LOG2_NBOUNDS)) (OtlpPbMetrics.Arrive.code_attrs m).

Definition series_json (x : otlp_series_t) : json := number_json t start (count x) (OtlpPbMetrics.Arrive.label_attrs (labels x)).
Definition exphist_json (x : otlp_series_t) : json := exp_json t start (s_buckets x) (OtlpPbMetrics.Arrive.label_attrs (labels x)).
Definition hseries_json (bounds : list double) (nb : nat) (x : otlp_hseries_t) : json :=
  hist_json t start (h_count x) (h_sum x) (map (fun b => nth b (bucket_counts x) 0) (seq 0 (nb + 1)))
    (map (fun b => nth b bounds (S754_zero false)) (seq 0 nb)) (OtlpPbMetrics.Arrive.label_attrs (h_labels x)).

Definition live {A} (c : A -> Z) (j : A -> json) (l : list A) : list json := map j (OtlpPbMetrics.Arrive.live_points c l).

Definition method_json (part : otlp_method_part_t) (ms : list otlp_method_metric_t) : json :=
  match part with
  | OTLP_MPART_CALLS => metric_json (lit "spnl_method_calls_total") None "sum" (live calls calls_json ms) monotonic
  | OTLP_MPART_LATENCY_EXP => metric_json (lit "spnl_method_latency_ns") (Some (lit "ns")) "exponentialHistogram" (live calls lat_json ms) []
  | OTLP_MPART_LATENCY_HIST => metric_json (lit "spnl_method_latency_ns") (Some (lit "ns")) "histogram" (live calls fold_json ms) []
  end.

Lemma live_writes {A} (c : A -> Z) body (j : A -> json) l : (forall x, writes_text (body x) (print (j x))) ->
  writes_text (live_loop c body l) (join (map print (live c j l))).
Proof. intros H. unfold live. rewrite map_map. now apply live_loop_writes. Qed.

Lemma fold_writes m : writes_text (fun w =>
    let '(bc, total, sum) := otlp_log2_fold (buckets m) in
    code_attrs_of m (hist_body t start total sum (map (fun b => nth b bc 0) (seq 0 OTLP_LOG2_NBUCKETS))
      (map (fun b => nth b otlp_log2_ns_bounds (S754_zero false)) (seq 0 OTLP_LOG2_NBOUNDS)) w)) (print (fold_json m)).
Proof. intros w. unfold fold_json. destruct (otlp_log2_fold (buckets m)) as [[bc total] sum]. apply hist_writes, code_attrs_end. Qed.

Lemma method_writes part ms : writes_text (method_part part t start ms) (print (method_json part ms)).
Proof.
  intros w. destruct part; unfold method_part, method_json.
  - refine (eq_trans _ (metric_writes (lit "spnl_method_calls_total") None "sum" _ _ true _ (live_writes calls _ calls_json ms (fun m => number_writes t start (calls m) _ _ (code_attrs_end m))) w)); [|cbn; auto].
    unfold name_unit, raw, jstr. cbn [nonempty]. rewrite !jw_jstr_raw. reflexivity.
  - refine (eq_trans _ (metric_writes (lit "spnl_method_latency_ns") (Some (lit "ns")) "exponentialHistogram" _ _ false _ (live_writes calls _ lat_json ms (fun m => exp_writes t start (buckets m) _ _ (code_attrs_end m))) w)); [|cbn; auto].
    unfold name_unit, raw, jstr. cbn [nonempty]. rewrite !jw_jstr_raw. reflexivity.
  - refine (eq_trans _ (metric_writes (lit "spnl_method_latency_ns") (Some (lit "ns")) "histogram" _ _ false _ (live_writes calls _ fold_json ms fold_writes) w)); [|cbn; auto].
    unfold name_unit, raw, jstr. cbn [nonempty]. rewrite !jw_jstr_raw. reflexivity.
Qed.

End Metrics.

Lemma live_good {A} (c : A -> Z) (j : A -> json) l : (forall x, In x l -> good (j x)) -> all_good (live c j l).
Proof. intros H. apply all_good_map. intros x Hx. apply H. now apply filter_In in Hx. Qed.

Lemma metric_good name unit kind points tail : all_good points -> Forall (fun kv => good (snd kv)) tail ->
  good (metric_json name unit kind points tail).
Proof.
  intros H T. pose proof (digit_number "2" eq_refl). unfold metric_json.
  assert (G : good (JObj ((lit "dataPoints", JArr points) :: (lit "aggregationTemporality", JNum (lit "2")) :: tail))).
  { split; [exact H|]. split; [assumption|]. induction T; cbn; auto. }
  destruct unit as [[|c u]|]; (split; [exact I|]); [|split; [exact I|]|]; exact (conj G I).
Qed.

(** The sums a histogram sends are numbers. *)
Definition sums_finite (part : otlp_method_part_t) (m : otlp_method_metric_t) : Prop :=
  match part with
  | OTLP_MPART_CALLS => True
  | OTLP_MPART_LATENCY_EXP => finite (snd (scan_slots (buckets m)))
  | OTLP_MPART_LATENCY_HIST => finite (snd (otlp_log2_fold (buckets m)))
  end.

Lemma bounds_finite n : Forall finite (map (fun b => nth b otlp_log2_ns_bounds (S754_zero false)) (seq 0 n)).
Proof.
  apply Forall_map, Forall_forall. intros b _.
  assert (F : Forall finite otlp_log2_ns_bounds).
  { apply Forall_forall. intros x Hx. assert (C : forallb finiteb otlp_log2_ns_bounds = true) by (vm_compute; reflexivity).
    rewrite forallb_forall in C. now apply finiteb_finite, C. }
  destruct (nth_in_or_default b otlp_log2_ns_bounds (S754_zero false)) as [H| ->]; [|exact I].
  now apply (proj1 (Forall_forall _ _) F).
Qed.

Lemma method_good part t start ms : Forall (sums_finite part) ms -> good (method_json t start part ms).
Proof.
  intros H. rewrite Forall_forall in H.
  destruct part; (apply metric_good; [apply live_good; intros m Hm; specialize (H m Hm); cbn [sums_finite] in H|]).
  - apply number_good.
  - now repeat constructor.
  - exact (exp_good t start _ _ H).
  - constructor.
  - unfold fold_json. destruct (otlp_log2_fold (buckets m)) as [[bc total] sum]. apply hist_good; [exact H|apply bounds_finite].
  - constructor.
Qed.

(** The sum and the bounds a histogram series sends are numbers. *)
Definition hseries_finite (bounds : list double) (x : otlp_hseries_t) : Prop := finite (h_sum x) /\ Forall finite bounds.

Lemma nth_finite (l : list double) n : Forall finite l -> Forall finite (map (fun b => nth b l (S754_zero false)) (seq 0 n)).
Proof.
  intros H. apply Forall_map, Forall_forall. intros b _.
  destruct (nth_in_or_default b l (S754_zero false)) as [Hb| ->]; [now apply (proj1 (Forall_forall _ _) H)|exact I].
Qed.

Section Metric_requests.
Context (p : process) (cap : nat) (svc ver scope : option text) (t start : Z).

Definition metric_doc (m : json) : json := request_json "resourceMetrics" "scopeMetrics" "metrics" p svc ver scope [m].

Lemma method_sent part ms : Forall (sums_finite part) ms ->
  sent cap (otlp_json_metrics_method_build p cap svc ver scope part t start ms) (metric_doc (method_json t start part ms)).
Proof.
  intros H. apply request_sent; [cbn; auto|apply method_writes|]. split; [now apply method_good|exact I].
Qed.

Lemma sum_sent name unit ss : sent cap (otlp_json_metrics_sum_build p cap svc ver scope name unit t start ss)
  (metric_doc (metric_json name unit "sum" (live count (series_json t start) ss) monotonic)).
Proof.
  apply request_sent; [cbn; auto| |].
  - exact (metric_writes name unit "sum" _ _ true ltac:(cbn; auto) (live_writes count _ (series_json t start) ss (fun x => number_writes t start (count x) _ _ (labels_end (labels x))))).
  - split; [|exact I]. apply metric_good; [|repeat constructor]. apply live_good. intros x _. apply number_good.
Qed.

Lemma exphist_sent name unit ss : Forall (fun x => finite (snd (scan_slots (s_buckets x)))) ss ->
  sent cap (otlp_json_metrics_exphist_build p cap svc ver scope name unit t start ss)
    (metric_doc (metric_json name unit "exponentialHistogram" (live count (exphist_json t start) ss) [])).
Proof.
  intros H. apply request_sent; [cbn; auto| |].
  - exact (metric_writes name unit "exponentialHistogram" _ _ false ltac:(cbn; auto) (live_writes count _ (exphist_json t start) ss (fun x => exp_writes t start (s_buckets x) _ _ (labels_end (labels x))))).
  - split; [|exact I]. apply metric_good; [|constructor]. apply live_good. intros x Hx.
    exact (exp_good t start _ _ (proj1 (Forall_forall _ _) H x Hx)).
Qed.

Lemma hist_sent name unit bounds nb hs : Forall (hseries_finite bounds) hs ->
  sent cap (otlp_json_metrics_hist_build p cap svc ver scope name unit bounds nb t start hs)
    (metric_doc (metric_json name unit "histogram" (live h_count (hseries_json t start bounds nb) hs) [])).
Proof.
  intros H. apply request_sent; [cbn; auto| |].
  - exact (metric_writes name unit "histogram" _ _ false ltac:(cbn; auto) (live_writes h_count _ (hseries_json t start bounds nb) hs
      (fun x => hist_writes t start (h_count x) (h_sum x) _ _ _ _ (labels_end (h_labels x))))).
  - split; [|exact I]. apply metric_good; [|constructor]. apply live_good. intros x Hx.
    destruct (proj1 (Forall_forall _ _) H x Hx) as [Hs Hb]. apply hist_good; [exact Hs|now apply nth_finite].
Qed.

(** C26: each of the seven JSON builders (logs, method spans, HTTP spans, method
    metrics, sums, exponential and explicit histograms) writes a complete document
    when it fits the buffer and nothing otherwise.  The bytes are a text of the JSON
    grammar of RFC 8259 and parse back to exactly the intended document, whatever
    characters the service name, attributes, bodies and span names contain: quotes,
    backslashes and control characters cannot break out of their strings.  The bytes
    are UTF-8 when the strings of the document are.  Identifiers are bytes, and the
    sums and bounds of the histograms are finite doubles ([%g] writes no JSON number
    for the others). *)
Theorem json_documents_parse recs spans metas http part ms name unit ss bounds nb hs :
  Forall ids_ok spans -> http_ids_ok http ->
  Forall (sums_finite part) ms -> Forall (fun x => finite (snd (scan_slots (s_buckets x)))) ss -> Forall (hseries_finite bounds) hs ->
  sent cap (otlp_json_logs_build p cap svc ver scope recs)
    (request_json "resourceLogs" "scopeLogs" "logRecords" p svc ver scope (map log_json recs)) /\
  sent cap (otlp_json_traces_build p cap svc ver scope spans metas)
    (request_json "resourceSpans" "scopeSpans" "spans" p svc ver scope (map (span_json metas) spans)) /\
  sent cap (otlp_json_http_span_build p cap svc ver scope http)
    (request_json "resourceSpans" "scopeSpans" "spans" p svc ver scope [http_json http]) /\
  sent cap (otlp_json_metrics_method_build p cap svc ver scope part t start ms) (metric_doc (method_json t start part ms)) /\
  sent cap (otlp_json_metrics_sum_build p cap svc ver scope name unit t start ss)
    (metric_doc (metric_json name unit "sum" (live count (series_json t start) ss) monotonic)) /\
  sent cap (otlp_json_metrics_exphist_build p cap svc ver scope name unit t start ss)
    (metric_doc (metric_json name unit "exponentialHistogram" (live count (exphist_json t start) ss) [])) /\
  sent cap (otlp_json_metrics_hist_build p cap svc ver scope name unit bounds nb t start hs)
    (metric_doc (metric_json name unit "histogram" (live h_count (hseries_json t start bounds nb) hs) [])).
Proof.
  intros Hs Hh Hm Hx Hb. split; [apply logs_sent|]. split; [now apply spans_sent|]. split; [now apply http_sent|].
  split; [now apply method_sent|]. split; [apply sum_sent|]. split; [now apply exphist_sent|now apply hist_sent].
Qed.

End Metric_requests.

Definition sample_http : Span.otlp_http_span_t :=
  Span.mk_hspan (repeat 1 16) (repeat 255 8) (repeat 0 8) false 5 9 (lit "GET /") (Some (lit "GET")) (Some (lit "/")) 503 None 8080 None (lit "http")
    None None (-1) 2.

Lemma json_documents_parse_witness :
  let ms := OtlpPbMetrics.Arrive.sample_metrics in
  let http := sample_http in
  let hdoc := request_json "resourceSpans" "scopeSpans" "spans" Logs.sample_process None None None [http_json http] in
  let t := print (metric_doc Logs.sample_process None None None (method_json 7 1 OTLP_MPART_LATENCY_HIST ms)) in
  otlp_json_http_span_build Logs.sample_process 100 None None None http = None /\
  otlp_json_http_span_build Logs.sample_process 2000 None None None http = Some (print hdoc) /\ parse (print hdoc) = Some hdoc /\
  utf8 (print hdoc) = true /\
  otlp_json_metrics_method_build Logs.sample_process 2000 None None None OTLP_MPART_LATENCY_HIST 7 1 ms = Some t /\ parse t <> None.
Proof.
  intros ms http hdoc t.
  assert (B : http_ids_ok http) by (repeat split; repeat constructor; lia).
  assert (F : Forall (sums_finite OTLP_MPART_LATENCY_HIST) ms)
    by (repeat (apply Forall_cons; [apply finiteb_finite; vm_compute; reflexivity|]); apply Forall_nil).
  assert (G : forall cap, sent cap (otlp_json_http_span_build Logs.sample_process cap None None None http) hdoc /\
    sent cap (otlp_json_metrics_method_build Logs.sample_process cap None None None OTLP_MPART_LATENCY_HIST 7 1 ms)
      (metric_doc Logs.sample_process None None None (method_json 7 1 OTLP_MPART_LATENCY_HIST ms))).
  { intros cap. destruct (json_documents_parse Logs.sample_process cap None None None 7 1 [] [] [] http OTLP_MPART_LATENCY_HIST ms [] None [] [] 0 []
      (Forall_nil _) B F (Forall_nil _) (Forall_nil _)) as (_ & _ & H & M & _). now split. }
  assert (L : length (print hdoc) = 918%nat) by (vm_compute; reflexivity).
  assert (L' : (length t <=? 2000)%nat = true) by (vm_compute; reflexivity).
  destruct (G 100%nat) as [(H1 & _) _]. destruct (G 2000%nat) as [(H2 & P & U) (M & Q & _)].
  rewrite L in H1, H2. split; [exact H1|]. split; [exact H2|]. split; [exact P|].
  split; [apply U; vm_compute; repeat split|]. fold t in M, Q. rewrite L' in M. split; [exact M|]. rewrite Q. discriminate.
Defined.

(** A byte that is no UTF-8 is copied into the text: the request is then no JSON. *)
Lemma raw_byte_passes : let r := mk_log 0 0 true (Some [chr 255]) 0 None in
  exists t, otlp_json_logs_build Logs.sample_process 2000 None None None [r] = Some t /\ utf8 t = false.
Proof. eexists. split; vm_compute; reflexivity. Qed.

End Documents.
