(* ===== verification/OtlpSame.v ===== *)
(** * The two encodings compared ([src/runtime/otlp/otlp_json.c] against the protocol
    buffer builders)

    A collector's reader of the JSON mapping; what it reads of logs and spans is what
    [OtlpPb.Reader] reads of the protocol buffer request of the same data, and the
    places where the two encoders part ways. *)

From Stdlib Require Import SpecFloat.
From S2P Require Import Prelude Bytes CText PbEncode OtlpTraces OtlpTransport AmpDrain OtlpHist OtlpHttpSpan OtlpPb OtlpPbMetrics Json OtlpJson.
Local Open Scope string_scope.
Local Open Scope list_scope.
Local Open Scope Z_scope.

Module Same.
Import Ids Assemble Doubles Fold Writer Tree Percent_g.
Import OtlpPb.Common OtlpPb.Reader OtlpPb.Traces OtlpPbMetrics.Build Drain OtlpJson.Build Documents.
Local Open Scope reader_scope.

(** ** A collector's reader of the JSON mapping *)

Definition lookup (k : string) (j : json) : option json :=
  match j with JObj l => option_map snd (find (fun kv => text_eqb (fst kv) (lit k)) l) | _ => None end.

Definition arr (j : json) : option (list json) := match j with JArr l => Some l | _ => None end.
Definition jtext (j : json) : option text := match j with JStr s => Some s | _ => None end.
Definition jbytes (j : json) : option (list Z) := option_map text_bytes (jtext j).
Definition jint (j : json) : option Z := match j with JStr s | JNum s => Some (atoi s) | _ => None end.

(** An optional member. *)
Definition opt {A} (k : string) (d : A) (r : json -> option A) (j : json) : option A :=
  match lookup k j with Some v => r v | None => Some d end.

Definition req {A} (k : string) (r : json -> option A) (j : json) : option A := let? v := lookup k j in r v.

Fixpoint unhex (s : text) : list Z :=
  match s with a :: b :: s => 16 * hexval a + hexval b :: unhex s | _ => [] end.
Definition jhex (j : json) : option (list Z) := option_map unhex (jtext j).

Definition json_value (j : json) : option value :=
  match lookup "stringValue" j, lookup "intValue" j with
  | Some v, None => option_map VStr (jbytes v)
  | None, Some v => option_map VInt (jint v)
  | _, _ => None
  end.

Definition json_kv (j : json) : option (list Z * value) :=
  let? k := req "key" jbytes j in let? v := req "value" json_value j in Some (k, v).

Definition json_attrs (j : json) : option (list (list Z * value)) := let? l := arr j in traverse json_kv l.

Definition read_json {A} (rs ss items : string) (item : json -> option A) (j : json) :
  option (list (list (list Z * value) * list (list Z * list A))) :=
  let? rl := req rs arr j in
  traverse (fun r =>
    let? a := req "resource" (req "attributes" json_attrs) r in
    let? sl := req ss arr r in
    let? s := traverse (fun s => let? n := req "scope" (req "name" jbytes) s in
                                 let? l := req items (fun j => let? l := arr j in traverse item l) s in Some (n, l)) sl in
    Some (a, s)) rl.

Definition json_log_view (j : json) : option Logs.log_view :=
  let? t := req "timeUnixNano" jint j in let? s := req "severityNumber" jint j in let? st := req "severityText" jbytes j in
  let? b := req "body" json_value j in let? o := req "observedTimeUnixNano" jint j in let? e := opt "eventName" [] jbytes j in
  Some (Logs.mk_log_view t s st b o e).

Definition json_span_view (j : json) : option span_view :=
  let? t := req "traceId" jhex j in let? s := req "spanId" jhex j in let? p := opt "parentSpanId" [] jhex j in
  let? n := req "name" jbytes j in let? k := req "kind" jint j in let? b := req "startTimeUnixNano" jint j in
  let? e := req "endTimeUnixNano" jint j in let? a := opt "attributes" [] json_attrs j in
  let? c := opt "status" 0 (req "code" jint) j in
  Some (mk_span_view t s p n k b e a c).

(** ** What it reads *)

Lemma kv_view a : json_kv (attr_json a) = Some (attr_view a).
Proof. destruct a as [k v|k v]; [reflexivity|]. unfold json_kv, req; cbn. now rewrite atoi_dec_s. Qed.

Lemma attrs_view l : json_attrs (attrs_json l) = Some (map attr_view l).
Proof. apply traverse_map. intros a _. apply kv_view. Qed.

Lemma read_request_json {A X} rs ss items p svc ver scope (f : X -> json) (item : json -> option A) (h : X -> A) l :
  In (rs, ss, items) [("resourceMetrics", "scopeMetrics", "metrics"); ("resourceSpans", "scopeSpans", "spans"); ("resourceLogs", "scopeLogs", "logRecords")]%string ->
  (forall x, In x l -> item (f x) = Some (h x)) ->
  read_json rs ss items item (request_json rs ss items p svc ver scope (map f l)) =
    Some [(map attr_view (filter keep (resource_attrs p svc ver)), [(text_bytes (Envelope.scope_or_default scope), map h l)])].
Proof.
  intros Hn H. pose proof (traverse_map item f h l H) as T. unfold read_json, request_json.
  pose proof (attrs_view (filter keep (resource_attrs p svc ver))  ) as Av. set (R := attrs_json _) in *. clearbody R.
  cbn [In] in Hn. destruct Hn as [E|[E|[E|[]]]]; injection E as <- <- <-; cbn -[json_attrs]; rewrite Av; cbn; rewrite T; reflexivity.
Qed.

Lemma atoi_dec_u v : 0 <= v -> atoi (dec_u v) = v.
Proof. intros H. rewrite <- (atoi_dec_s v) at 2. unfold dec_s. destruct (Z.ltb_spec v 0); [lia|reflexivity]. Qed.

Lemma log_view_json r : 0 <= severity r < 2 ^ 31 -> json_log_view (log_json r) = Some (Logs.view r).
Proof.
  intros Hs. pose proof (wrap_range 64 (time_unix_ns r) ltac:(lia)) as Ht.
  assert (S : sgn 64 (if severity r =? 0 then 9 else severity r) = Logs.severity_or_info (severity r)).
  { unfold Logs.severity_or_info. destruct (severity r =? 0); [reflexivity|]. rewrite sgn_small, wrap_small by lia. reflexivity. }
  unfold json_log_view, log_json, Logs.view, Logs.body_attr. rewrite S.
  destruct (body_is_str r), (event_name r) as [[|c e]|]; cbn -[dec_u dec_s atoi]; rewrite ?atoi_dec_u, ?atoi_dec_s by lia; reflexivity.
Qed.

Lemma unhex_hex b : byte_string b -> unhex (hex b) = b.
Proof.
  induction 1 as [|x b Hx _ IH]; [reflexivity|]. change (hex (x :: b)) with (hexdigit (Z.shiftr x 4) :: hexdigit (Z.land x 15) :: hex b).
  cbn [unhex]. rewrite IH. rewrite Z.shiftr_div_pow2 by lia. change (Z.land x 15) with (Z.land x (Z.ones 4)). rewrite Z.land_ones by lia.
  rewrite !hexval_hexdigit; [|apply Z.mod_pos_bound; lia|split; [apply Z.div_pos; lia|apply Z.div_lt_upper_bound; lia]].
  f_equal. change (2 ^ 4) with 16. pose proof (Z.div_mod x 16 ltac:(lia)). lia.
Qed.

Lemma span_view_json metas s : ids_ok s -> json_span_view (span_json metas s) = Some (method_of span_seen metas s).
Proof.
  intros (B1 & B2 & B3). pose proof (wrap_range 64 (s_start s) ltac:(lia)). pose proof (wrap_range 64 (s_end s) ltac:(lia)).
  unfold json_span_view, span_json, method_of, span_seen, parent_json, parent_id.
  pose proof (attrs_view (method_attrs (find_meta metas (method_idx s)))) as Av. set (R := attrs_json _) in *. clearbody R.
  destruct (s_has_parent s), (find_meta metas (method_idx s)) as [m|];
    cbn -[dec_u dec_s atoi json_attrs hex unhex text_bytes method_attrs]; rewrite ?Av;
    cbn -[dec_u dec_s atoi json_attrs hex unhex text_bytes method_attrs];
    rewrite ?unhex_hex, ?atoi_dec_u by (assumption || lia); reflexivity.
Qed.

Lemma http_view_json s : http_ids_ok s -> json_span_view (http_json s) = Some (http_of span_seen s).
Proof.
  intros (B1 & B2 & B3). pose proof (wrap_range 64 (Span.start_unix_ns s) ltac:(lia)). pose proof (wrap_range 64 (Span.end_unix_ns s) ltac:(lia)).
  unfold json_span_view, http_json, http_of, span_seen, parent_json, parent_id.
  pose proof (attrs_view (http_attrs s)) as Av. set (R := attrs_json _) in *. clearbody R.
  destruct (Span.has_parent s), (500 <=? Span.status_code s);
    cbn -[dec_u dec_s atoi json_attrs hex unhex text_bytes http_attrs]; rewrite ?Av;
    cbn -[dec_u dec_s atoi json_attrs hex unhex text_bytes http_attrs];
    rewrite ?unhex_hex, ?atoi_dec_u by (assumption || lia); reflexivity.
Qed.

(** ** Agreement *)

(** Resource attributes without the empty ones, which the JSON writer leaves out. *)
Definition without_empty {A} (r : list (list (list Z * value) * A)) : list (list (list Z * value) * A) :=
  map (fun g => (filter (fun kv => match snd kv with VStr [] => false | _ => true end) (fst g), snd g)) r.

Lemma filter_keep l : map attr_view (filter keep l) = filter (fun kv => match snd kv with VStr [] => false | _ => true end) (map attr_view l).
Proof.
  induction l as [|a l IH]; [reflexivity|]. destruct a as [k [|c v]|k v]; cbn [filter keep map attr_view snd text_bytes]; now rewrite IH.
Qed.

Lemma received_keep {A X} p svc ver scope (h : X -> A) l :
  [(map attr_view (filter keep (resource_attrs p svc ver)), [(text_bytes (Envelope.scope_or_default scope), map h l)])] =
  without_empty (Envelope.received p svc ver scope h l).
Proof. unfold without_empty, Envelope.received. cbn [map fst snd]. now rewrite filter_keep. Qed.

(** What a collector gets from either kind of body. *)
Definition from_json {A} (rs ss items : string) (item : json -> option A) (out : option text) :=
  let? t := out in let? j := parse t in read_json rs ss items item j.

Definition from_protobuf {A} (item : list Wire.wfield -> option A) (out : option (list Z)) := let? b := out in read_request item b.

Section Fits.
Context (p : process) (jcap : nat) (cap : Z) (svc ver scope : option text).
Hypothesis cap_ok : 0 <= cap < 2 ^ 63.

Lemma sent_read {A X} rs ss items out (f : X -> json) (item : json -> option A) h l t :
  In (rs, ss, items) [("resourceMetrics", "scopeMetrics", "metrics"); ("resourceSpans", "scopeSpans", "spans"); ("resourceLogs", "scopeLogs", "logRecords")]%string ->
  sent jcap out (request_json rs ss items p svc ver scope (map f l)) -> out = Some t ->
  (forall x, In x l -> item (f x) = Some (h x)) ->
  from_json rs ss items item out = Some (without_empty (Envelope.received p svc ver scope h l)).
Proof.
  intros Hn (Ho & Hp & _) Ht H. rewrite Ht in *. set (doc := request_json _ _ _ _ _ _ _ _) in *.
  assert (E : t = print doc) by (destruct (_ <=? _)%nat; congruence). subst t doc.
  unfold from_json. cbn [bind]. rewrite Hp. cbn [bind]. rewrite (read_request_json rs ss items p svc ver scope f item h l Hn H).
  now rewrite received_keep.
Qed.

(** Two bodies for the items [l]: when both fit, the same is read from both. *)
Definition agree {A X} rs ss items (jitem : json -> option A) (item : list Wire.wfield -> option A) (g : X -> list Wire.wfield) (l : list X)
  (jout : option text) (out : option (list Z)) : Prop :=
  Stream.len (Wire.bytes (Envelope.request_fields p svc ver scope g l)) < 2 ^ 63 -> jout <> None -> out <> None ->
  exists r, from_protobuf item out = Some r /\ from_json rs ss items jitem jout = Some (without_empty r).

Lemma agree_of {A X} rs ss items (f : X -> json) jitem item (h : X -> A) g l jout cb :
  In (rs, ss, items) [("resourceMetrics", "scopeMetrics", "metrics"); ("resourceSpans", "scopeSpans", "spans"); ("resourceLogs", "scopeLogs", "logRecords")]%string ->
  sent jcap jout (request_json rs ss items p svc ver scope (map f l)) -> (forall x, In x l -> jitem (f x) = Some (h x)) ->
  Wire.emits (cb (Message.mk_fld 2 Message.SUBMESSAGE)) (map (fun x => (2, Wire.WLen (Wire.bytes (g x)))) l) ->
  (forall x, reads (g x) item (h x)) ->
  agree rs ss items jitem item g l jout (Message.encode_into cap (Envelope.request p svc ver scope cb)).
Proof.
  intros Hn Hj Hv He Hr. unfold agree. intros L Nj No. destruct jout as [t|]; [|contradiction].
  rewrite (Wire.encode_into_emits cap _ _ (Envelope.request_emits p svc ver scope g cb l He) cap_ok L) in *.
  destruct (_ <=? _); [|contradiction]. exists (Envelope.received p svc ver scope h l). split.
  - now apply Envelope.request_read.
  - now apply (sent_read rs ss items (Some t) f jitem h l t).
Qed.

(** C25: for the same logs or spans, when the JSON request and the protocol buffer
    request are both written (each fits its buffer), a collector reads the same from
    both: the same scope and the same records and spans, field by field, and the same
    resource attributes except that JSON leaves out the ones with an empty value
    ([without_empty], see [json_encoder_differs]).  Severities are those of a 32-bit
    field and identifiers are bytes. *)
Theorem encodings_agree recs spans metas http :
  Forall (fun r => 0 <= severity r < 2 ^ 31) recs -> Forall ids_ok spans -> http_ids_ok http ->
  agree "resourceLogs" "scopeLogs" "logRecords" json_log_view Logs.read_log Logs.log_fields recs
    (otlp_json_logs_build p jcap svc ver scope recs) (Logs.otlp_logs_build p cap svc ver scope recs) /\
  agree "resourceSpans" "scopeSpans" "spans" json_span_view read_span (method_of span_fields metas) spans
    (otlp_json_traces_build p jcap svc ver scope spans metas) (otlp_traces_build p cap svc ver scope spans metas) /\
  agree "resourceSpans" "scopeSpans" "spans" json_span_view read_span (http_of span_fields) [http]
    (otlp_json_http_span_build p jcap svc ver scope http) (otlp_traces_http_build p cap svc ver scope http).
Proof.
  intros Hr Hs Hh. rewrite Forall_forall in Hr. split; [|split].
  - apply (agree_of _ _ _ log_json _ _ Logs.view); [cbn; auto|apply logs_sent| |apply Logs.enc_log_records_emits|apply Logs.log_reads].
    intros x Hx. apply log_view_json. now apply Hr.
  - apply (agree_of _ _ _ (span_json metas) _ _ (method_of span_seen metas));
      [cbn; auto|now apply spans_sent| |apply put_spans_emits; apply method_ok|apply method_ok].
    intros x Hx. apply span_view_json. now apply (proj1 (Forall_forall _ _) Hs).
  - apply (agree_of _ _ _ http_json _ _ (http_of span_seen)); [cbn; auto|now apply http_sent| | |apply http_ok].
    + intros x [<-|[]]. now apply http_view_json.
    + apply (Wire.emits_submessage (Message.mk_fld 2 Message.SUBMESSAGE)); [reflexivity|cbn; lia|apply http_ok].
Qed.

End Fits.

Lemma encodings_agree_witness :
  exists r, from_protobuf Logs.read_log (Logs.otlp_logs_build Logs.sample_process 512 None None None Logs.sample_logs) = Some r /\
    from_json "resourceLogs" "scopeLogs" "logRecords" json_log_view (otlp_json_logs_build Logs.sample_process 2000 None None None Logs.sample_logs)
      = Some (without_empty r).
Proof.
  assert (B : byte_string (repeat 1 16) /\ byte_string (repeat 255 8) /\ byte_string (repeat 0 8))
    by (repeat split; repeat constructor; lia).
  destruct (encodings_agree Logs.sample_process 2000 512 None None None ltac:(lia) Logs.sample_logs [] [] sample_http) as [H _];
    [repeat constructor; cbn; lia|constructor|exact B|].
  apply H; [vm_compute; reflexivity|vm_compute; discriminate|vm_compute; discriminate].
Defined.

(** ** Where the two encoders part ways *)

(** The bounds of the latency histogram as JSON sends them. *)
Definition sent_bounds : list text := map fmt_g otlp_log2_ns_bounds.

(** The JSON encoder is documented to select exactly the data the protocol buffer
    encoder does, and does not: [%g] keeps six digits, so the twelve latency bounds
    from 1048575 ns on are sent rounded (1048575 as 1.04858e+06); a resource attribute
    with an empty value is dropped; and a histogram series without samples is
    dropped. *)
Theorem json_encoder_differs :
  sent_bounds = map dec_u (firstn 19 SPNL_BOUNDS_LOG2_NS_31) ++
    map lit ["1.04858e+06"; "2.09715e+06"; "4.1943e+06"; "8.38861e+06"; "1.67772e+07"; "3.35544e+07"; "6.71089e+07"; "1.34218e+08";
             "5.36871e+08"; "2.14748e+09"; "8.58993e+09"; "3.43597e+10"]%string /\
  (let p := mk_process (fun k => if text_eqb k (lit "OTEL_RESOURCE_ATTRIBUTES") then Some (lit "team=") else None) None 1 in
   In (AStr (lit "team") []) (resource_attrs p None None) /\ ~ In (AStr (lit "team") []) (filter keep (resource_attrs p None None))) /\
  (let s := mk_hseries [] 0 (d_of_Z 0) [0; 0] in
   option_map (map (fun g => map (fun s => map snd (snd s)) (snd g)))
     (from_protobuf OtlpPbMetrics.Arrive.read_metric (otlp_metrics_hist_build Logs.sample_process 512 None None None (lit "m") None [d_of_Z 1] 1 7 1 [s]))
     = Some [[[OtlpPbMetrics.Arrive.VHistogram 2 [OtlpPbMetrics.Arrive.hseries_seen [d_of_Z 1] 1 7 1 s]]]] /\
   otlp_json_metrics_hist_build Logs.sample_process 2000 None None None (lit "m") None [d_of_Z 1] 1 7 1 [s]
     = otlp_json_metrics_hist_build Logs.sample_process 2000 None None None (lit "m") None [d_of_Z 1] 1 7 1 []).
Proof.
  split; [vm_compute; reflexivity|]. split; [|split; vm_compute; reflexivity].
  split; [vm_compute; tauto|]. intros H. apply filter_In in H as [_ H]. discriminate.
Qed.

End Same.
