(* ===== verification/AgentSignals.v ===== *)
(** * The other signals of the agent ([src/runtime/otlp/otlp_agent.c], [otlp_metrics.c])

    - [Signals]: the service and method registry, the pushes of method traces, logs and
      method metrics, each one request, and the audit spans built from record triples.
    - [Arrive]: what a collector receives, and what the balance counts. *)

From S2P Require Import Prelude Bytes CText PbEncode Channels OtlpMetrics OtlpTraces OtlpTransport OtlpGrpc OtlpEnrich AmpDrain AgentRecords HostSymbols HostReports OtlpPb OtlpBatch AgentSpans OtlpAgent OtlpPbMetrics Json OtlpJson.
Import Ids Rec Fill Balance Rules.
Local Open Scope string_scope.
Local Open Scope list_scope.
Local Open Scope Z_scope.

Module Signals.
Import Assemble Batch Agent.

Definition OTLP_MAX_METHODS : nat := Z.to_nat 1024.
Definition OTLP_MAX_EVENTS : nat := Z.to_nat 65536.
Definition OTLP_NAME_LEN : nat := 256.
Definition OTLP_GRPC_PATH_METRICS : text := lit "/opentelemetry.proto.collector.metrics.v1.MetricsService/Export".
Definition OTLP_GRPC_PATH_LOGS : text := lit "/opentelemetry.proto.collector.logs.v1.LogsService/Export".

(** [g_methods], [g_start_ns] and the globals of the exporters. *)
Record method_t := mk_method { ruby : text; mfile : text; mline : Z; midx : Z }.
Record agent := mk_agent { core_st : core; g_methods : list method_t; g_start_ns : Z }.

Definition set_core c a := mk_agent c (g_methods a) (g_start_ns a).

Definition given (s : option text) (dflt : text) (cap : nat) : text := match s with Some ((_ :: _) as s) => trunc cap s | _ => dflt end.

Definition spnl_otlp_set_service (name version : option text) (a : agent) : Z * agent :=
  let x := net_io (core_st a) in
  (0, set_core (set_io (mk_io (batch x) (given name (g_service x) 128) (given version (g_version x) 64) (sends x) (events x)) (core_st a)) a).

Definition text_or_empty (s : option text) : text := match s with Some s => s | None => [] end.

Definition spnl_otlp_add_method (rb fl : option text) (line idx : Z) (a : agent) : Z * agent :=
  if (OTLP_MAX_METHODS <=? length (g_methods a))%nat then (-1, a)
  else (0, mk_agent (core_st a)
             (g_methods a ++ [mk_method (trunc OTLP_NAME_LEN (text_or_empty rb)) (trunc OTLP_NAME_LEN (text_or_empty fl)) (sgn 32 line) (sgn 32 idx)])
             (g_start_ns a)).

(** ** Ring buffer callbacks *)

Definition SPNL_HDR : nat := 16.

(** emit4: kind, method, time, thread. *)
Definition trace_rb_cb (c : list otlp_span_event_t) (data : list Z) : list otlp_span_event_t :=
  if (length data <? SPNL_HDR + 32)%nat || (OTLP_MAX_EVENTS <=? length c)%nat then c
  else
    let w k := le_dec (slice (SPNL_HDR + k) 8 data) in
    c ++ [mk_ev (sgn 32 (w 0%nat)) (sgn 32 (w 8%nat)) (w 16%nat) (w 24%nat)].

Record log_rec_raw := mk_raw { r_ktime : Z; r_ival : Z; r_sval : text }.

(** A number or a string of at most 255 characters after the header. *)
Definition log_rb_cb (is_str : bool) (c : list log_rec_raw) (data : list Z) : list log_rec_raw :=
  if (length data <? SPNL_HDR)%nat || (OTLP_MAX_LOGS <=? length c)%nat then c
  else
    let t := le_dec (slice 8 8 data) in
    if is_str then c ++ [mk_raw t 0 (cstr (map chr (firstn 255 (skipn SPNL_HDR data))))]
    else if (length data <? SPNL_HDR + 8)%nat then c
    else c ++ [mk_raw t (sgn 64 (le_dec (slice SPNL_HDR 8 data))) []].

Section Host.
Variable p : process.
Variable gzip : list Z -> option (list Z).
Variable network : nat -> Post.net * list Z.

(** The JSON request when it is asked for and the endpoint is not gRPC, else protobuf;
    with its content type. *)
Definition request_body (ep : text) (json : option text) (pb : option (list Z)) : option (text * list Z) :=
  if OtlpJson.Build.otlp_want_json p && negb (OtlpJson.Build.otlp_endpoint_is_grpc (Some ep))
  then option_map (fun t => (lit "application/json", text_bytes t)) json
  else option_map (fun b => (lit "application/x-protobuf", b)) pb.

(** One request for [n] drained records. *)
Definition post_events (ep path grpc : text) (body : option (text * list Z)) (n : Z) (st : core) : result :=
  match body with
  | None => Ret (-1) st
  | Some (ct, b) =>
      let '(r, x) := transport p gzip network (Some ep) path grpc ct b (net_io st) in
      match r with
      | None => Ret (-1) (set_io x st)
      | Some status =>
          let '(stop, k) := spnl_oneshot_add (getenv p) n (events x) in
          let st := set_io (set_events k x) st in
          if stop then Exit st else Ret status st
      end
  end.

(** ** Traces of method calls *)

Definition metas_of (l : list method_t) : list Traces.otlp_method_meta_t :=
  map (fun m => Traces.mk_meta (midx m) (Some (ruby m)) (Some (mfile m)) (mline m)) l.

Definition spnl_otlp_trace_push_obj (rs : rings) (map_name endpoint : option text) (clk : clock) (a : agent) : result :=
  match map_name, endpoint with
  | Some m, Some ep =>
      match rs m with
      | None => Ret (-1) (core_st a)
      | Some data =>
          let ev := fold_left trace_rb_cb data [] in
          let x := net_io (core_st a) in
          let spans := otlp_traces_assemble ev (otlp_ktime_to_unix_off clk) (Z.lxor (u64 (realtime clk)) (u64 (getpid p))) (Z.to_nat 32769) in
          let svc := Some (g_service x) in
          let ver := Some (g_version x) in
          let scope := Some (lit "spinel-ebpf") in
          post_events ep (lit "/v1/traces") OTLP_GRPC_PATH_TRACES
            (request_body ep (OtlpJson.Build.otlp_json_traces_build p (Z.to_nat (2 ^ 19)) svc ver scope spans (metas_of (g_methods a)))
               (Traces.otlp_traces_build p (2 ^ 18) svc ver scope spans (metas_of (g_methods a))))
            (Z.of_nat (length ev)) (core_st a)
      end
  | _, _ => Ret (-1) (core_st a)
  end.

(** ** Logs *)

Definition log_record (off : Z) (is_str : bool) (r : log_rec_raw) : Drain.otlp_log_record_t :=
  Drain.mk_log (u64 (sgn 64 (r_ktime r) + off)) 0 is_str (if is_str then Some (r_sval r) else None) (if is_str then 0 else r_ival r) None.

Definition spnl_otlp_log_push_obj (rs : rings) (map_name : option text) (is_str : bool) (endpoint : option text) (clk : clock) (st : core) : result :=
  match map_name, endpoint with
  | Some m, Some ep =>
      match rs m with
      | None => Ret (-1) st
      | Some data =>
          let raw := fold_left (log_rb_cb is_str) data [] in
          let recs := map (log_record (otlp_ktime_to_unix_off clk) is_str) raw in
          let svc := Some (g_service (net_io st)) in
          let ver := Some (g_version (net_io st)) in
          let scope := Some (lit "spinel-ebpf") in
          post_events ep (lit "/v1/logs") OTLP_GRPC_PATH_LOGS
            (request_body ep (OtlpJson.Build.otlp_json_logs_build p (Z.to_nat (2 ^ 19)) svc ver scope recs)
               (Logs.otlp_logs_build p (2 ^ 18) svc ver scope recs))
            (Z.of_nat (length raw)) st
      end
  | _, _ => Ret (-1) st
  end.

(** ** Method metrics *)

Import OtlpPbMetrics.Build.

Definition metrics_export_part (ep : text) (part : otlp_method_part_t) (svc ver scope : option text) (t start : Z) (ms : list otlp_method_metric_t) (x : io)
  : option Z * io :=
  match request_body ep (OtlpJson.Build.otlp_json_metrics_method_build p (Z.to_nat (2 ^ 19)) svc ver scope part t start ms)
          (otlp_metrics_method_build p (2 ^ 18) svc ver scope part t start ms) with
  | None => (None, x)
  | Some (ct, b) => transport p gzip network (Some ep) (lit "/v1/metrics") OTLP_GRPC_PATH_METRICS ct b x
  end.

(** The result code and the status for the two requests so far, after one more. *)
Definition tally_part (r : option Z) (acc : Z * Z) : Z * Z :=
  let '(rc, worst) := acc in
  match r with
  | None => (-1, if worst =? 200 then 0 else worst)
  | Some status => (rc, if negb (status =? 200) && (worst =? 200) then status else worst)
  end.

(** [None]: the configured aggregation is refused and the process ends. *)
Definition otlp_metrics_export (ep : text) (svc ver scope : option text) (t start : Z) (ms : list otlp_method_metric_t) (x : io) : option (Z * Z * io) :=
  match otlp_hist_aggregation p with
  | None => None
  | Some agg =>
      let lat := match agg with OTLP_HIST_AGG_EXPONENTIAL => OTLP_MPART_LATENCY_EXP | OTLP_HIST_AGG_EXPLICIT => OTLP_MPART_LATENCY_HIST end in
      let '(r1, x) := metrics_export_part ep OTLP_MPART_CALLS svc ver scope t start ms x in
      let '(r2, x) := metrics_export_part ep lat svc ver scope t start ms x in
      Some (tally_part r2 (tally_part r1 (0, 200)), x)
  end.

Definition method_sample (o : Maps.object) (name : text) (m : method_t) : otlp_method_metric_t :=
  let key := u64 (midx m) in
  mk_mm (ruby m) (Some (mfile m)) (mline m)
    (match Hist.spnl_log2_hist_count_keyed_obj (Some o) (Some name) key with inl c => c | inr _ => 0 end)
    (match Hist.spnl_hist_buckets_keyed_obj (Some o) (Some name) key with inl cs => cs | inr _ => repeat 0 64 end).

Definition spnl_otlp_push_obj (o : option Maps.object) (map_name endpoint : option text) (clk : clock) (a : agent) : option (Z * agent) :=
  match o, map_name, endpoint with
  | Some o, Some name, Some ep =>
      let now := u64 (realtime clk) in
      let a := mk_agent (core_st a) (g_methods a) (if g_start_ns a =? 0 then now else g_start_ns a) in
      let x := net_io (core_st a) in
      match otlp_metrics_export ep (Some (g_service x)) (Some (g_version x)) (Some (lit "spinel-ebpf")) now (g_start_ns a)
              (map (method_sample o name) (g_methods a)) x with
      | None => None
      | Some (rc, status, x) => Some (if rc =? 0 then status else -1, set_core (set_io x (core_st a)) a)
      end
  | _, _, _ => Some (-1, a)
  end.

(** ** Audit spans *)

Definition audit_attrs (file comm parent : text) : list otlp_kv_t :=
  when (nonempty_text file) [kv "file.path" file] ++ when (nonempty_text comm) [kv "process.executable.name" comm] ++
  when (nonempty_text parent) [kv "process.parent.executable.path" parent] ++ [kv "verdict" (lit "observe")].

(** Three records, in order: the path, the command and the parent's path. *)
Definition audit_span (off : Z) (r1 r2 r3 : log_rec_raw) (seed : Z) : otlp_generic_span_t * Z :=
  let t := u64 (sgn 64 (r_ktime r1) + off) in
  let '(a, seed) := splitmix64 seed in
  let '(b, seed) := splitmix64 seed in
  let '(c, seed) := splitmix64 seed in
  (mk_gspan (put_u64_be a ++ put_u64_be b) (put_u64_be c) (zeros 8) false t t
     (trunc 300 (lit "file_open " ++ (match r_sval r1 with [] => lit "?" | f => f end))) 0 false
     (audit_attrs (r_sval r1) (r_sval r2) (r_sval r3)), seed).

Fixpoint audit_spans (off : Z) (raw : list log_rec_raw) (seed : Z) : list otlp_generic_span_t :=
  match raw with
  | r1 :: r2 :: r3 :: raw' => let '(s, seed) := audit_span off r1 r2 r3 seed in s :: audit_spans off raw' seed
  | _ => []
  end.

Definition incomplete_triple : text * text :=
  (lit "incomplete_triple",
   lit "emit_path / emit_comm / emit_parent_path form one span only as a complete set of three. A leftover fraction means the three are emitted under different conditions, or a triple was split across a drain boundary. Call all three unconditionally in the handler.").

(** What the push does with the records it drained. *)
Definition audit_export (m ep : text) (clk : clock) (raw : list log_rec_raw) (st : core) : result :=
  let st := set_chans (spnl_channel_in (Some m) (Z.of_nat (length raw)) (spnl_channel_seen (Some m) (chans st))) st in
  let ss := audit_spans (otlp_ktime_to_unix_off clk) raw (id_seed p clk) in
  let sent := Z.of_nat (length ss) in
  let st := fold_left (add_span p gzip network) ss (begin_batch p ep st) in
  match otlp_batch_flush_final p gzip network (net_io st) with
  | Exits x => Exit (set_io x st)
  | Returns _ x =>
      let cs := spnl_channel_out (Some m) (sent * 3) (chans st) in
      let cs := if sent * 3 <? Z.of_nat (length raw) then spnl_channel_dropped (Some m) (fst incomplete_triple) (snd incomplete_triple) cs else cs in
      Ret (if 0 <? sent then last_status (batch x) else 0) (set_chans cs (set_io x st))
  end.

Definition spnl_otlp_audit_span_push_obj (rs : rings) (map_name endpoint : option text) (clk : clock) (st : core) : result :=
  match map_name, endpoint with
  | Some m, Some ep =>
      match rs m with
      | None => Ret (-1) st
      | Some data => audit_export m ep clk (fold_left (log_rb_cb true) data []) st
      end
  | _, _ => Ret (-1) st
  end.

End Host.
End Signals.

(** * What arrives *)

Module Arrive.
Import Assemble Batch Agent Signals Push Deliver.

(** ** Collecting from a ring buffer *)

Lemma Forall_first {A} (P : A -> Prop) n l : Forall P l -> Forall P (firstn n l).
Proof. rewrite <- (firstn_skipn n l) at 1. rewrite Forall_app. now intros [F _]. Qed.

Fixpoint keep {A B} (f : A -> option B) (l : list A) : list B :=
  match l with [] => [] | x :: l' => match f x with Some y => y :: keep f l' | None => keep f l' end end.

Lemma collect_keeps {A B} (f : A -> option B) cap (step : list B -> A -> list B) data :
  (forall c x, step c x = if (cap <=? length c)%nat then c else match f x with Some y => c ++ [y] | None => c end) ->
  forall l, fold_left step data l = l ++ firstn (cap - length l) (keep f data).
Proof.
  intros H. induction data as [|x data IH]; intros l; cbn [fold_left keep]; [now rewrite firstn_nil, app_nil_r|].
  rewrite H, IH. destruct (Nat.leb_spec cap (length l)) as [F|F]; [now replace (cap - length l)%nat with O by lia|].
  destruct (f x) as [y|]; [|reflexivity]. rewrite length_app. cbn [length].
  replace (cap - length l)%nat with (S (cap - (length l + 1))) by lia. cbn [firstn]. now rewrite <- app_assoc.
Qed.

(** A log record in the ring: a header whose second word is the time, then the value. *)
Definition log_entry (is_str : bool) (data : list Z) : option log_rec_raw :=
  let value := skipn 16 data in
  if (length data <? 16)%nat then None
  else if is_str then Some (mk_raw (le_dec (slice 8 8 data)) 0 (cstr (map chr (firstn 255 value))))
  else if (length value <? 8)%nat then None
  else Some (mk_raw (le_dec (slice 8 8 data)) (sgn 64 (le_dec (firstn 8 value))) []).

Lemma logs_collected is_str data : fold_left (log_rb_cb is_str) data [] = firstn OTLP_MAX_LOGS (keep (log_entry is_str) data).
Proof.
  rewrite (collect_keeps (log_entry is_str) OTLP_MAX_LOGS); [cbn [app length]; now rewrite Nat.sub_0_r|].
  intros c x. unfold log_rb_cb, log_entry. rewrite length_skipn. unfold slice, SPNL_HDR.
  destruct (Nat.ltb_spec (length x) 16) as [F|F]; cbn [orb]; [now destruct (_ <=? _)%nat|].
  destruct (OTLP_MAX_LOGS <=? length c)%nat; [reflexivity|]. destruct is_str; [reflexivity|].
  destruct (Nat.ltb_spec (length x) (16 + 8)), (Nat.ltb_spec (length x - 16) 8); try lia; reflexivity.
Qed.

(** An event of a method in the ring: four words after the header. *)
Definition event_entry (data : list Z) : option otlp_span_event_t :=
  if (length data <? 48)%nat then None
  else Some (mk_ev (sgn 32 (le_dec (slice 16 8 data))) (sgn 32 (le_dec (slice 24 8 data))) (le_dec (slice 32 8 data)) (le_dec (slice 40 8 data))).

Lemma events_collected data : fold_left trace_rb_cb data [] = firstn OTLP_MAX_EVENTS (keep event_entry data).
Proof.
  rewrite (collect_keeps event_entry OTLP_MAX_EVENTS); [cbn [app length]; now rewrite Nat.sub_0_r|].
  intros c x. unfold trace_rb_cb, event_entry, SPNL_HDR. cbn [Nat.add].
  destruct (length x <? 48)%nat; cbn [orb]; [now destruct (_ <=? _)%nat|]. reflexivity.
Qed.

(** ** One request *)

Section One.
Variable p : process.
Variable gzip : list Z -> option (list Z).
Variable network : nat -> Post.net * list Z.

(** The request is written as protocol buffers. *)
Definition as_protobuf (ep : text) : Prop :=
  OtlpJson.Build.otlp_want_json p && negb (OtlpJson.Build.otlp_endpoint_is_grpc (Some ep)) = false.

(** [o] is the end of a push of [n] records whose one request got [status]: without an
    answer the push fails; with one the records are counted, and the push returns the
    status unless that reached the event limit. *)
Definition ended (o : result) (status : option Z) (n : Z) (st : core) : Prop :=
  let tally := u64 (events (net_io st) + n) in
  chans (core_of o) = chans st /\
  match status with
  | None => o = Ret (-1) (core_of o) /\ events (net_io (core_of o)) = events (net_io st)
  | Some v => o = (if limit_reached p tally then Exit (core_of o) else Ret v (core_of o)) /\ events (net_io (core_of o)) = tally
  end.

Lemma post_once ep path grpc ct b n st : 0 <= n -> 0 <= events (net_io st) < 2 ^ 64 ->
  let o := post_events p gzip network ep path grpc (Some (ct, b)) n st in
  exists status, sends (net_io (core_of o)) = sends (net_io st) ++ [mk_sent (Some ep) path ct b status] /\ ended o status n st.
Proof.
  intros Hn He. unfold post_events, transport. destruct (network _) as [net input].
  set (r := Send.otlp_transport_send _ _ _ _ _ _ _ _ _). exists r. unfold ended.
  destruct r as [v|]; cbn [fst snd]; [|repeat split].
  assert (T : spnl_oneshot_add (getenv p) n (events (net_io st)) = (limit_reached p (u64 (events (net_io st) + n)), u64 (events (net_io st) + n))).
  { unfold spnl_oneshot_add, limit_reached. destruct (Z.ltb_spec 0 n); [reflexivity|].
    replace n with 0 by lia. now rewrite Z.add_0_r, wrap_small. }
  unfold log_send. cbn [events]. rewrite T. destruct (limit_reached p _); repeat split.
Qed.

(** What a collector sees of a log record. *)
Definition log_seen (off : Z) (is_str : bool) (r : log_rec_raw) : Logs.log_view :=
  let t := u64 (sgn 64 (r_ktime r) + off) in
  Logs.mk_log_view t 9 (text_bytes (lit "INFO")) (if is_str then Reader.VStr (text_bytes (r_sval r)) else Reader.VInt (sgn 64 (r_ival r))) t [].

Lemma log_record_seen off is_str r : Logs.view (log_record off is_str r) = log_seen off is_str r.
Proof.
  unfold Logs.view, log_record, log_seen. cbn. rewrite wrap_wrap by lia. destruct is_str; reflexivity.
Qed.

(** Pushed logs arrive.  Every record of the ring that is long enough, up to the
    buffer's size, becomes a log record with its time on the wall clock and its number
    or its string; one request is made, and a collector that decodes it finds exactly
    these records in order, with the service and its version.  Records of other sizes
    are passed over; the records are counted as events only when the request is
    answered. *)
Theorem log_push_received rs m ep is_str clk st data :
  rs m = Some data -> as_protobuf ep -> 0 <= events (net_io st) < 2 ^ 64 ->
  let off := otlp_ktime_to_unix_off clk in
  let entries := firstn OTLP_MAX_LOGS (keep (log_entry is_str) data) in
  let svc := Some (g_service (net_io st)) in
  let ver := Some (g_version (net_io st)) in
  let scope := Some (lit "spinel-ebpf") in
  let req := Wire.bytes (Envelope.request_fields p svc ver scope Logs.log_fields (map (log_record off is_str) entries)) in
  let o := spnl_otlp_log_push_obj p gzip network rs (Some m) is_str (Some ep) clk st in
  Stream.len req <= 2 ^ 18 ->
  Reader.read_request Logs.read_log req = Some (Envelope.received p svc ver scope (log_seen off is_str) entries) /\
  exists status,
    sends (net_io (core_of o)) = sends (net_io st) ++ [mk_sent (Some ep) (lit "/v1/logs") (lit "application/x-protobuf") req status] /\
    ended o status (Z.of_nat (length entries)) st.
Proof.
  intros Hr Hp He off entries svc ver scope req o L.
  destruct (Logs.otlp_logs_build_received p (2 ^ 18) svc ver scope (map (log_record off is_str) entries) ltac:(lia) ltac:(fold req; lia)) as [B R].
  fold req in B, R. split.
  { rewrite R. unfold Envelope.received. rewrite map_map. now rewrite (map_ext _ _ (log_record_seen off is_str)). }
  destruct (Z.leb_spec (Stream.len req) (2 ^ 18)); [|lia].
  subst o. unfold spnl_otlp_log_push_obj. rewrite Hr, logs_collected. cbv zeta. fold entries off svc ver scope.
  unfold request_body. rewrite Hp, B. cbn [option_map]. apply post_once; [lia|exact He].
Qed.

(** ** Traces *)

(** The record the probes of a method write: a header, then kind, method, time and thread. *)
Definition emit4_record (hdr : list Z) (e : otlp_span_event_t) : list Z :=
  hdr ++ le_enc 8 (u64 (ev_kind e)) ++ le_enc 8 (u64 (ev_idx e)) ++ le_enc 8 (ktime_ns e) ++ le_enc 8 (ev_tid e).

Definition event_ok (e : otlp_span_event_t) : Prop :=
  - 2 ^ 31 <= ev_kind e < 2 ^ 31 /\ - 2 ^ 31 <= ev_idx e < 2 ^ 31 /\ 0 <= ktime_ns e < 2 ^ 64 /\ 0 <= ev_tid e < 2 ^ 64.

Lemma sgn32_u64 x : - 2 ^ 31 <= x < 2 ^ 31 -> sgn 32 (u64 x) = x.
Proof.
  intros H. rewrite <- (sgn_small 32 x) at 2 by (cbn; lia). unfold sgn.
  replace (wrap 32 (u64 x)) with (wrap 32 x); [reflexivity|].
  unfold wrap. symmetry. apply Z.mod_mod_divide. exists (2 ^ 32). reflexivity.
Qed.

Lemma event_entry_record hdr e : length hdr = 16%nat -> event_ok e -> event_entry (emit4_record hdr e) = Some e.
Proof.
  intros Hh (H1 & H2 & H3 & H4). unfold event_entry, emit4_record. rewrite !length_app, !length_le_enc, Hh. cbn [Nat.ltb Nat.leb Nat.add].
  assert (S : forall k a b n, length a = k -> slice k n (a ++ b) = firstn n b)
    by (intros k a b n <-; unfold slice; now rewrite skipn_app, skipn_all, Nat.sub_diag).
  assert (F : forall v b, firstn 8 (le_enc 8 v ++ b) = le_enc 8 v)
    by (intros v b; rewrite firstn_app, length_le_enc, Nat.sub_diag, firstn_O, app_nil_r; apply firstn_all2; now rewrite length_le_enc).
  rewrite (S 16%nat hdr _ 8%nat Hh), F.
  rewrite (app_assoc hdr), (S 24%nat), F by (rewrite length_app, length_le_enc, Hh; reflexivity).
  rewrite (app_assoc (hdr ++ _)), (S 32%nat), F by (rewrite !length_app, !length_le_enc, Hh; reflexivity).
  rewrite (app_assoc ((hdr ++ _) ++ _)), (S 40%nat) by (rewrite !length_app, !length_le_enc, Hh; reflexivity).
  rewrite firstn_all2 by (now rewrite length_le_enc).
  pose proof (wrap_range 64 (ev_kind e) ltac:(lia)). pose proof (wrap_range 64 (ev_idx e) ltac:(lia)).
  rewrite !le_dec_enc by (change (256 ^ Z.of_nat 8) with (2 ^ 64); assumption).
  rewrite !sgn32_u64 by assumption. now destruct e.
Qed.

Lemma keep_records hdr l : length hdr = 16%nat -> Forall event_ok l -> keep event_entry (map (emit4_record hdr) l) = l.
Proof. intros Hh. induction 1 as [|e l He _ IH]; [reflexivity|]. cbn [map keep]. now rewrite event_entry_record, IH. Qed.

Lemma length_events tid f : length (Assemble.events tid f) = (2 * fsize f)%nat.
Proof. induction f as [|i a b k IHk r IHr]; [reflexivity|]. cbn [Assemble.events length fsize]. rewrite length_app. cbn [length]. lia. Qed.

(** C3: a thread's calls arrive as its call tree.  Let the ring hold the records the
    probes wrote for the calls of a thread, nested at most 64 deep and at most 32768 of
    them, and let the endpoint take protocol buffers (HTTP or gRPC, not [http/json]).
    When the request fits the 256 KiB buffer the push makes that one request; a
    collector that decodes it finds one span per call in order of completion, each with
    the enclosing call's span as parent, the trace of its outermost call, the times of
    its entry and exit on the wall clock, and the registered name, file and line of its
    method.  When it does not fit, the push fails without a request, and the drained
    calls are lost. *)
Theorem call_tree_exported rs m ep clk a hdr tid f :
  rs m = Some (map (emit4_record hdr) (Assemble.events tid f)) -> length hdr = 16%nat -> Forall event_ok (Assemble.events tid f) ->
  (fdepth f <= OTLP_TRACE_MAX_DEPTH)%nat -> (2 * fsize f <= OTLP_MAX_EVENTS)%nat ->
  as_protobuf ep -> 0 <= events (net_io (core_st a)) < 2 ^ 64 ->
  let st := core_st a in
  let metas := map (fun x => Traces.mk_meta (midx x) (Some (ruby x)) (Some (mfile x)) (mline x)) (g_methods a) in
  let calls := fst (Assemble.spans_of (realtime clk - monotonic clk) (zeros 16) None (Z.lxor (u64 (realtime clk)) (u64 (getpid p))) f) in
  let svc := Some (g_service (net_io st)) in
  let ver := Some (g_version (net_io st)) in
  let scope := Some (lit "spinel-ebpf") in
  let req := Wire.bytes (Envelope.request_fields p svc ver scope (Traces.method_of Traces.span_fields metas) calls) in
  let o := spnl_otlp_trace_push_obj p gzip network rs (Some m) (Some ep) clk a in
  Stream.len req < 2 ^ 63 ->
  if Stream.len req <=? 2 ^ 18 then
    Reader.read_request Traces.read_span req = Some (Envelope.received p svc ver scope (Traces.method_of Traces.span_seen metas) calls) /\
    exists status,
      sends (net_io (core_of o)) = sends (net_io st) ++ [mk_sent (Some ep) (lit "/v1/traces") (lit "application/x-protobuf") req status] /\
      ended o status (Z.of_nat (2 * fsize f)) st
  else o = Ret (-1) st.
Proof.
  intros Hr Hh Hok Hd Hn Hp He st metas calls svc ver scope req o L.
  destruct (Traces.build_arrives p (2 ^ 18) svc ver scope ltac:(lia) (Traces.enc_spans metas calls) _ (Traces.method_of Traces.span_seen metas) calls
    (Traces.put_spans_emits _ _ calls (fun x => proj1 (Traces.method_ok metas x))) (fun x => proj2 (Traces.method_ok metas x)) ltac:(fold req; lia)) as [B R].
  fold req in B, R.
  assert (O : o = post_events p gzip network ep (lit "/v1/traces") OTLP_GRPC_PATH_TRACES
    (option_map (fun b => (lit "application/x-protobuf", b)) (if Stream.len req <=? 2 ^ 18 then Some req else None)) (Z.of_nat (2 * fsize f)) st).
  { subst o. unfold spnl_otlp_trace_push_obj. rewrite Hr, events_collected, keep_records by assumption.
    rewrite firstn_all2 by (now rewrite length_events). cbv zeta. rewrite length_events, assemble_forest by (try assumption; unfold OTLP_MAX_EVENTS in Hn; lia).
    change (otlp_ktime_to_unix_off clk) with (realtime clk - monotonic clk). fold st calls svc ver scope. change (metas_of (g_methods a)) with metas.
    unfold request_body, Traces.otlp_traces_build. rewrite Hp, B. reflexivity. }
  rewrite O. destruct (Stream.len req <=? 2 ^ 18); cbn [option_map]; [|reflexivity]. split; [exact R|]. apply post_once; [lia|exact He].
Qed.

(** ** Audit spans *)

Definition flat (t : log_rec_raw * log_rec_raw * log_rec_raw) : list log_rec_raw := let '(a, b, c) := t in [a; b; c].

(** The span of a path, a command and a parent's path: the time of the first, and every
    string that is not empty, whole. *)
Definition audited (off : Z) (t : log_rec_raw * log_rec_raw * log_rec_raw) (s : otlp_generic_span_t) : Prop :=
  let '(path, comm, parent) := t in
  has_parent s = false /\ kind s = 0 /\ is_error s = false /\
  start_unix_ns s = u64 (sgn 64 (r_ktime path) + off) /\ end_unix_ns s = start_unix_ns s /\
  name s = lit "file_open " ++ (match r_sval path with [] => lit "?" | f => f end) /\
  attrs s = filter (fun x => nonempty_text (val x))
              [mk_kv (lit "file.path") (r_sval path); mk_kv (lit "process.executable.name") (r_sval comm);
               mk_kv (lit "process.parent.executable.path") (r_sval parent); mk_kv (lit "verdict") (lit "observe")].

Definition short (r : log_rec_raw) : Prop := (length (r_sval r) <= 255)%nat.

Lemma entries_short is_str data : Forall short (keep (log_entry is_str) data).
Proof.
  induction data as [|x data IH]; [constructor|]. cbn [keep]. destruct (log_entry is_str x) as [r|] eqn:E; [|exact IH].
  constructor; [|exact IH]. unfold log_entry in E. remember 255%nat as k eqn:Hk in E. destruct (_ <? _)%nat; [discriminate|].
  destruct is_str; [injection E as <-|destruct (_ <? _)%nat; [discriminate|injection E as <-]; unfold short; cbn; lia].
  unfold short. cbn [r_sval]. etransitivity; [apply Contract.cstr_len|]. rewrite length_map, length_firstn. lia.
Qed.

Lemma audit_span_audited off r1 r2 r3 seed : short r1 -> short r2 -> short r3 -> audited off (r1, r2, r3) (fst (audit_span off r1 r2 r3 seed)).
Proof.
  unfold short, audit_span, audited. intros H1 H2 H3.
  destruct (splitmix64 seed) as [a s1], (splitmix64 s1) as [b s2], (splitmix64 s2) as [c s3]. cbn [fst].
  cbn [has_parent kind is_error start_unix_ns end_unix_ns name attrs]. do 5 (split; [reflexivity|]). split.
  - apply trunc_id. rewrite length_app. change (length (lit "file_open ")) with 10%nat. destruct (r_sval r1); [cbn; lia|lia].
  - unfold audit_attrs, kv. rewrite (trunc_id 512 (r_sval r1)), (trunc_id 512 (r_sval r2)), (trunc_id 512 (r_sval r3)) by lia.
    destruct (r_sval r1), (r_sval r2), (r_sval r3); reflexivity.
Qed.

Lemma audit_spans_triples off raw : Forall short raw -> forall seed, exists ts rest,
  raw = flat_map flat ts ++ rest /\ (length rest < 3)%nat /\ Forall2 (audited off) ts (audit_spans off raw seed).
Proof.
  remember (length raw) as n eqn:E. revert raw E. induction n as [n IH] using lt_wf_ind. intros raw E F seed.
  destruct raw as [|r1 [|r2 [|r3 raw]]]; cbn [audit_spans];
    try (eexists [], _; split; [reflexivity|]; split; [cbn; lia|constructor]).
  inv F. inv H2. inv H4. pose proof (audit_span_audited off r1 r2 r3 seed H1 H3 H2) as A.
  destruct (audit_span off r1 r2 r3 seed) as [s seed1]. cbn [fst] in A.
  destruct (IH (length raw) ltac:(cbn; lia) raw eq_refl H5 seed1) as (ts & rest & -> & L & G).
  exists ((r1, r2, r3) :: ts), rest. split; [reflexivity|]. split; [exact L|]. now constructor.
Qed.

Lemma audited_stored off t s : (let '(a, _, _) := t in short a) -> audited off t s -> stored s = s.
Proof.
  destruct t as [[r1 r2] r3]. unfold short. intros H (_ & _ & _ & _ & _ & Hn & Ha). unfold stored. rewrite trunc_id, firstn_all2; [now destruct s| |].
  - rewrite Ha. etransitivity; [apply filter_length_le|]. cbn. unfold OTLP_BATCH_ATTR_CAP. lia.
  - rewrite Hn, length_app. change (length (lit "file_open ")) with 10%nat. unfold OTLP_BATCH_NAME_CAP. destruct (r_sval r1); [cbn; lia|lia].
Qed.

Lemma all_stored off ts ss : Forall short (flat_map flat ts) -> Forall2 (audited off) ts ss -> map stored ss = ss.
Proof.
  intros F. induction 1 as [|[[r1 r2] r3] s ts ss A _ IH]; [reflexivity|]. cbn [flat_map flat app] in F. inv F. cbn [map].
  rewrite (audited_stored off (r1, r2, r3) s H1 A), IH; [reflexivity|]. inv H2. now inv H4.
Qed.

Lemma audit_shape m ep clk st raw :
  let n := Z.of_nat (length raw) in
  let ss := audit_spans (otlp_ktime_to_unix_off clk) raw (id_seed p clk) in
  let k := Z.of_nat (length ss) in
  let x := snd (otlp_batch_flush p gzip network (fold_left (fun st s => snd (otlp_batch_add p gzip network s st)) ss
             (otlp_batch_begin p ep (service_ref p) VersionBuf (lit "spinel-ebpf") (net_io st)))) in
  let drained := fold_left Refine.perform [Refine.Seen m; Refine.In_ m n] (chans st) in
  audit_export p gzip network m ep clk raw st =
  if limit_reached p (events x) then Exit (set_io x (set_chans drained st))
  else Ret (if 0 <? k then last_status (batch x) else 0)
         (set_chans (fold_left Refine.perform (Refine.Out m (k * 3) ::
                       (if k * 3 <? n then [Refine.Dropped m (fst incomplete_triple) (snd incomplete_triple)] else [])) drained) (set_io x st)).
Proof.
  intros n ss k x drained. unfold audit_export. cbv zeta. fold n ss. rewrite add_spans. fold k.
  cbn [begin_batch set_io set_chans net_io chans].
  unfold otlp_batch_flush_final. subst x. destruct (otlp_batch_flush p gzip network _) as [r x]. cbn [snd].
  unfold spnl_oneshot_add, limit_reached. cbn [Z.ltb Z.compare]. rewrite set_events_same. subst drained.
  cbn [fold_left Refine.perform]. clearbody k n ss.
  unfold begin_batch, set_io, set_chans. cbn [net_io chans enr metrics g_offcpu_stacks set_io].
  destruct (_ && _); [reflexivity|]. destruct (k * 3 <? n); reflexivity.
Qed.

(** [o] is what exporting [raw] should come to. *)
Definition audit_outcome (m ep : text) (clk : clock) (raw : list log_rec_raw) (st : core) (o : result) : Prop :=
  let n := Z.of_nat (length raw) in
  exists ts rest gs new,
    raw = flat_map flat ts ++ rest /\ (length rest < 3)%nat /\
    Forall2 (audited (otlp_ktime_to_unix_off clk)) ts (concat gs) /\ well_grouped (otlp_batch_env_max p) gs /\
    sends (net_io (core_of o)) = sends (net_io st) ++ new /\
    (Forall (fun g => group_size p (push_names p ep st) g <= 2 ^ 20) gs ->
     map (fun x => (s_to x, Reader.read_request Traces.read_span (s_body x))) new =
     map (fun g => (Some ep, Some (group_view p (push_names p ep st) g))) gs) /\
    events (net_io (core_of o)) = u64 (events (net_io st) + Z.of_nat (length ts)) /\
    let calls := [Refine.Seen m; Refine.In_ m n; Refine.Out m (3 * Z.of_nat (length ts))] ++
                 match rest with [] => [] | _ => [Refine.Dropped m (lit "incomplete_triple") (snd incomplete_triple)] end in
    match o with
    | Ret r st' => r = last (answers new) 0 /\ chans st' = fold_left Refine.perform calls (chans st)
    | Exit st' => limit_reached p (events (net_io st')) = true /\ chans st' = fold_left Refine.perform (firstn 2 calls) (chans st)
    end.

Lemma audit_exported m ep clk raw st : Forall short raw -> 0 <= events (net_io st) < 2 ^ 64 ->
  audit_outcome m ep clk raw st (audit_export p gzip network m ep clk raw st).
Proof.
  intros F He. unfold audit_outcome. set (n := Z.of_nat (length raw)). pose proof (audit_shape m ep clk st raw) as E. cbv zeta in E. fold n in E.
destruct (audit_spans_triples (otlp_ktime_to_unix_off clk) raw F (id_seed p clk)) as (ts & rest & Er & Lr & A).
  set (ss := audit_spans _ raw _) in *. destruct (begun_posts p gzip network ss ep st He) as (gs & new & Hc & Hw & Hs & Hd & Ev & L).
  set (x := snd (otlp_batch_flush p gzip network _)) in *.
  rewrite (all_stored (otlp_ktime_to_unix_off clk) ts ss) in Hc by (auto; rewrite Er in F; now apply Forall_app in F).
  pose proof (Forall2_length A) as Lt. exists ts, rest, gs, new. rewrite Hc, E, Lt, (Z.mul_comm 3).
  assert (Hn : (Z.of_nat (length ss) * 3 <? n) = match rest with [] => false | _ => true end).
  { unfold n. rewrite Er, length_app, <- Lt. assert (length (flat_map flat ts) = (3 * length ts)%nat) as ->.
    { clear. induction ts as [|[[a b] c] ts IH]; [reflexivity|]. cbn [flat_map flat]. rewrite length_app, IH. cbn. lia. }
    destruct rest; [apply Z.ltb_ge|apply Z.ltb_lt]; cbn [length]; lia. }
  rewrite Hn. do 4 (split; [assumption|]).
  destruct (limit_reached p (events x)) eqn:Lim; cbn [core_of set_io set_chans net_io chans]; (split; [exact Hs|]; split; [exact Hd|]; split; [exact Ev|]).
  - split; [exact Lim|reflexivity].
  - split; [exact L|]. destruct rest; reflexivity.
Qed.

(** C23: audit spans.  The string records of the ring, taken three at a time, each give
    one span with the time of the first and the three strings whole; one or two left
    over are discarded.  The spans are posted in order in groups of the configured size
    and a collector decodes each group as it was made.  The channel's balance takes in
    every record, lets out three per span, and records an incomplete triple once when
    some were left over. *)
Theorem audit_push_exact rs m ep clk st data :
  rs m = Some data -> 0 <= events (net_io st) < 2 ^ 64 ->
  audit_outcome m ep clk (firstn OTLP_MAX_LOGS (keep (log_entry true) data)) st
    (spnl_otlp_audit_span_push_obj p gzip network rs (Some m) (Some ep) clk st).
Proof.
  intros Hr He. unfold spnl_otlp_audit_span_push_obj. rewrite Hr, logs_collected.
  apply audit_exported; [apply Forall_first, entries_short|exact He].
Qed.

(** ** Metrics *)

Import OtlpPbMetrics.Build.

(** The request for one part, and whether it is made. *)
Definition part_request (ep : text) (part : otlp_method_part_t) (svc ver : text) (t start : Z) (ms : list otlp_method_metric_t) : option (text * list Z) :=
  request_body p ep
    (OtlpJson.Build.otlp_json_metrics_method_build p (Z.to_nat (2 ^ 19)) (Some svc) (Some ver) (Some (lit "spinel-ebpf")) part t start ms)
    (OtlpPbMetrics.Build.otlp_metrics_method_build p (2 ^ 18) (Some svc) (Some ver) (Some (lit "spinel-ebpf")) part t start ms).

Definition made_request (ep : text) (body : option (text * list Z)) (r : option Z) : list sent :=
  match body with Some (ct, b) => [mk_sent (Some ep) (lit "/v1/metrics") ct b r] | None => [] end.

Lemma part_made ep part svc ver t start ms x : exists r,
  metrics_export_part p gzip network ep part (Some svc) (Some ver) (Some (lit "spinel-ebpf")) t start ms x =
  (r, mk_io (batch x) (g_service x) (g_version x) (sends x ++ made_request ep (part_request ep part svc ver t start ms) r) (events x)) /\
  (part_request ep part svc ver t start ms = None -> r = None).
Proof.
  unfold metrics_export_part. fold (part_request ep part svc ver t start ms). destruct (part_request _ _ _ _ _ _ _) as [[ct b]|].
  - unfold transport. destruct (network _) as [net input]. eexists. split; [reflexivity|discriminate].
  - exists None. cbn [made_request]. rewrite app_nil_r. split; [now destruct x|reflexivity].
Qed.

(** What is measured of a method: its 64 slots in the histogram, and their total. *)
Definition slots_of (o : Maps.object) (name : text) (key : Z) : list Z :=
  match Maps.open_map o name Maps.BPF_MAP_TYPE_HASH with
  | inl h => match Maps.m_lookup h [key] with Some cs => cs | None => repeat 0 64 end
  | inr _ => repeat 0 64
  end.

Definition measured (o : Maps.object) (name : text) (m : method_t) : otlp_method_metric_t :=
  let cs := slots_of o name (u64 (midx m)) in
  mk_mm (ruby m) (Some (mfile m)) (mline m) (u64 (fold_right Z.add 0 cs)) cs.

Lemma total_sum cs : Hist.total cs = u64 (fold_right Z.add 0 cs).
Proof.
  assert (H : forall t, 0 <= t < 2 ^ 64 -> fold_left (fun t c => u64 (t + c)) cs t = u64 (t + fold_right Z.add 0 cs)).
  { induction cs as [|c cs IH]; intros t H; cbn [fold_left fold_right]; [now rewrite Z.add_0_r, wrap_small|].
    rewrite IH by (apply wrap_range; lia). rewrite wrap_add_l. f_equal. lia. }
  apply (H 0). lia.
Qed.

Lemma method_measured o name m : method_sample o name m = measured o name m.
Proof.
  unfold method_sample, measured, slots_of, Hist.spnl_log2_hist_count_keyed_obj, Hist.spnl_hist_buckets_keyed_obj, Hist._spnl_hist_keyed_lookup.
  destruct (Maps.open_map o name Maps.BPF_MAP_TYPE_HASH) as [h|e]; [|reflexivity]. now rewrite total_sum.
Qed.

Definition latency_part (agg : otlp_hist_agg_t) : otlp_method_part_t :=
  match agg with OTLP_HIST_AGG_EXPONENTIAL => OTLP_MPART_LATENCY_EXP | OTLP_HIST_AGG_EXPLICIT => OTLP_MPART_LATENCY_HIST end.

(** C31: one metric refused does not take the other with it.  A push of the registered
    methods makes a request for the calls and another for the latencies, each whenever
    it can be written, whatever happened to the other; both carry every method with
    the counts of its slots and their total, between the first push and now.  The
    push returns 200 exactly when both got it, else the first other status, and -1
    when either was not written or not answered. *)
Theorem metrics_pushed_apart o name ep clk a agg : otlp_hist_aggregation p = Some agg ->
  let x := net_io (core_st a) in
  let now := u64 (realtime clk) in
  let start := if g_start_ns a =? 0 then now else g_start_ns a in
  let ask part := part_request ep part (g_service x) (g_version x) now start (map (measured o name) (g_methods a)) in
  exists r1 r2 a',
    spnl_otlp_push_obj p gzip network (Some o) (Some name) (Some ep) clk a =
    Some (match r1, r2 with Some s1, Some s2 => if s1 =? 200 then s2 else s1 | _, _ => -1 end, a') /\
    sends (net_io (core_st a')) = sends x ++ made_request ep (ask OTLP_MPART_CALLS) r1 ++ made_request ep (ask (latency_part agg)) r2 /\
    (ask OTLP_MPART_CALLS = None -> r1 = None) /\ (ask (latency_part agg) = None -> r2 = None) /\
    g_start_ns a' = start /\ g_methods a' = g_methods a /\ chans (core_st a') = chans (core_st a).
Proof.
  intros Ha x now start ask. unfold spnl_otlp_push_obj, otlp_metrics_export. rewrite Ha. cbn [core_st g_methods g_start_ns]. fold x now start.
  rewrite (map_ext _ _ (method_measured o name)).
  destruct (part_made ep OTLP_MPART_CALLS (g_service x) (g_version x) now start (map (measured o name) (g_methods a)) x) as (r1 & -> & N1).
  match goal with |- context [metrics_export_part _ _ _ _ ?q _ _ _ _ _ _ ?y] => change q with (latency_part agg);
    destruct (part_made ep (latency_part agg) (g_service x) (g_version x) now start (map (measured o name) (g_methods a)) y) as (r2 & E2 & N2) end.
  rewrite E2. exists r1, r2. fold (ask OTLP_MPART_CALLS) in N1 |- *. fold (ask (latency_part agg)) in N2 |- *.
  destruct (tally_part r2 (tally_part r1 (0, 200))) as [rc worst] eqn:T. eexists. split; [f_equal; f_equal|].
  - destruct r1 as [s1|], r2 as [s2|]; cbn [tally_part] in T.
    + destruct (Z.eqb_spec s1 200) as [->|N]; cbn [negb andb] in T.
      * rewrite Z.eqb_refl in T. destruct (Z.eqb_spec s2 200) as [->|]; cbn in T; injection T as <- <-; reflexivity.
      * rewrite Z.eqb_refl in T. destruct (Z.eqb_spec s1 200); [contradiction|]. rewrite andb_false_r in T. injection T as <- <-. reflexivity.
    + injection T as <- <-. reflexivity.
    + injection T as <- <-. reflexivity.
    + injection T as <- <-. reflexivity.
  - cbn. rewrite <- app_assoc. split; [reflexivity|auto].
Qed.

End One.

(** ** Concrete runs *)

(** Two records that count as numbers and one too short. *)
Definition number_ring : rings := fun m => if text_eqb m (lit "events") then
  Some [repeat 0 8 ++ le_enc 8 500 ++ le_enc 8 7; repeat 0 12; repeat 0 8 ++ le_enc 8 600 ++ le_enc 8 (u64 (-3))] else None.

Lemma log_push_received_witness :
  exists req status,
    sends (net_io (core_of (spnl_otlp_log_push_obj some_process (fun _ => None) answering number_ring (Some (lit "events")) false
                              (Some (lit "http://c:4318")) some_clock some_core)))
      = [mk_sent (Some (lit "http://c:4318")) (lit "/v1/logs") (lit "application/x-protobuf") req status] /\
    option_map (map (fun g => map (fun s => map (fun v => (Logs.v_time v, Logs.v_body v)) (snd s)) (snd g))) (Reader.read_request Logs.read_log req)
      = Some [[[(4500, Reader.VInt 7); (4600, Reader.VInt (-3))]]].
Proof.
  destruct (log_push_received some_process (fun _ => None) answering number_ring (lit "events") (lit "http://c:4318") false some_clock some_core _
    eq_refl eq_refl ltac:(cbn; lia) ltac:(vm_compute; discriminate)) as (R & status & S & _).
  eexists _, status. split; [exact S|]. rewrite R. vm_compute. reflexivity.
Defined.

Definition some_agent : agent := mk_agent some_core [mk_method (lit "Cart#add") (lit "cart.rb") 12 3; mk_method (lit "Cart#total") [] 0 4] 0.

(** A call of the first method that calls the second. *)
Definition two_calls : forest := Call 3 100 900 (Call 4 200 300 Nil Nil) Nil.

Definition call_ring : rings := fun m => if text_eqb m (lit "calls") then Some (map (emit4_record (repeat 0 16)) (Assemble.events 5 two_calls)) else None.

Lemma call_tree_exported_witness :
  exists req status,
    sends (net_io (core_of (spnl_otlp_trace_push_obj some_process (fun _ => None) answering call_ring (Some (lit "calls"))
                              (Some (lit "http://c:4318")) some_clock some_agent)))
      = [mk_sent (Some (lit "http://c:4318")) (lit "/v1/traces") (lit "application/x-protobuf") req status] /\
    option_map (map (fun g => map (fun s => map (fun v => (Traces.v_name v, Traces.v_start v, Traces.v_end v, length (Traces.v_parent v))) (snd s)) (snd g)))
      (Reader.read_request Traces.read_span req)
      = Some [[[(text_bytes (lit "Cart#total"), 4200, 4300, 8%nat); (text_bytes (lit "Cart#add"), 4100, 4900, 0%nat)]]].
Proof.
  destruct (call_tree_exported some_process (fun _ => None) answering call_ring (lit "calls") (lit "http://c:4318") some_clock some_agent
    (repeat 0 16) 5 two_calls eq_refl eq_refl ltac:(repeat constructor; cbn; lia) ltac:(cbn; unfold OTLP_TRACE_MAX_DEPTH; lia)
    ltac:(unfold OTLP_MAX_EVENTS; cbn [fsize two_calls]; lia) eq_refl ltac:(cbn; lia) ltac:(vm_compute; reflexivity)) as (R & status & S & _).
  eexists _, status. split; [exact S|]. rewrite R. vm_compute. reflexivity.
Defined.

(** One triple and a path left over. *)
Definition audit_ring : rings := fun m => if text_eqb m (lit "files") then
  Some (map (fun t => repeat 0 8 ++ le_enc 8 500 ++ text_bytes (lit t) ++ [0]) ["/etc/passwd"; "cat"; ""; "/tmp/x"]) else None.

Lemma audit_push_exact_witness :
  exists ts gs,
    map (fun '(a, b, c) => [r_sval a; r_sval b; r_sval c]) ts = [[lit "/etc/passwd"; lit "cat"; []]] /\
    map (map name) gs = [[lit "file_open /etc/passwd"]] /\
    map (map (fun s => map val (attrs s))) gs = [[[lit "/etc/passwd"; lit "cat"; lit "observe"]]] /\
    map (fun s => (c_in s, c_out s, map dn (drops s)))
      (chans (core_of (spnl_otlp_audit_span_push_obj some_process (fun _ => None) answering audit_ring (Some (lit "files"))
                         (Some (lit "http://c:4318")) some_clock some_core))) = [(4, 3, [1])].
Proof.
  destruct (audit_push_exact some_process (fun _ => None) answering audit_ring (lit "files") (lit "http://c:4318") some_clock some_core _
    eq_refl ltac:(cbn; lia)) as (ts & rest & gs & new & E & Lr & A & W & _).
  vm_compute in E. assert (L : length ts = 1%nat).
  { apply (f_equal (@length log_rec_raw)) in E. rewrite length_app in E. destruct ts as [|[[a b] c] [|[[d e] f] ts]]; cbn in E; [lia|reflexivity|lia]. }
  destruct ts as [|[[a b] c] [|]]; try discriminate L. cbn [flat_map flat app] in E. injection E as <- <- <- <-.
  inv A. inv H3. exists [(mk_raw 500 0 (lit "/etc/passwd"), mk_raw 500 0 (lit "cat"), mk_raw 500 0 [])], [[y]].
  destruct H2 as (_ & _ & _ & _ & _ & Hn & Ha). cbn [map]. rewrite Hn, Ha. repeat split; vm_compute; reflexivity.
Defined.

Definition latency_map : Maps.object := fun n => if text_eqb n (lit "lat") then
  Some (Maps.mk_map Maps.BPF_MAP_TYPE_HASH 16 3 [[3]] (fun k => match k with [3] => Some ([0; 2; 5] ++ repeat 0 61) | _ => None end)) else None.

Lemma metrics_pushed_apart_witness :
  exists r1 r2 b1 b2,
    option_map (fun x => (fst x, sends (net_io (core_st (snd x)))))
      (spnl_otlp_push_obj some_process (fun _ => None) answering (Some latency_map) (Some (lit "lat")) (Some (lit "http://c:4318")) some_clock some_agent)
    = Some (match r1, r2 with Some s1, Some s2 => if s1 =? 200 then s2 else s1 | _, _ => -1 end,
            [mk_sent (Some (lit "http://c:4318")) (lit "/v1/metrics") (lit "application/x-protobuf") b1 r1;
             mk_sent (Some (lit "http://c:4318")) (lit "/v1/metrics") (lit "application/x-protobuf") b2 r2]) /\
    OtlpPbMetrics.Build.calls (measured latency_map (lit "lat") (mk_method (lit "Cart#add") (lit "cart.rb") 12 3)) = 7.
Proof.
  destruct (metrics_pushed_apart some_process (fun _ => None) answering latency_map (lit "lat") (lit "http://c:4318") some_clock some_agent
    OtlpPbMetrics.Build.OTLP_HIST_AGG_EXPLICIT eq_refl) as (r1 & r2 & a' & E & S & _).
  exists r1, r2. eexists _, _. split; [|vm_compute; reflexivity]. etransitivity; [apply f_equal; exact E|]. cbn [option_map fst snd].
  rewrite S. f_equal. f_equal. vm_compute. reflexivity.
Defined.

End Arrive.
