(* ===== verification/AmpAbi.v ===== *)
(** * The fixed memory ABI ([include/spnl/amp_abi*.h])

    [Board] is the set of constants a board profile defines; [imx95m7] and
    [stm32mp2m33] are the two profiles.  The layout theorem is what the runtime
    and the ahead-of-time compiler rely on: the regions lie in their banks, never
    overlap, and every address baked into a blob has bit 31 clear.  [CmdRing] is
    the command ring both profiles declare. *)

From S2P Require Import Prelude AmpRing.

Module Abi.

(** The constants whose values differ between the profiles. *)
Class Board := {
  AMP_ABI_VERSION : Z;
  code_bank : Z * Z;
  data_bank : Z * Z;
  AMP_HELPER_BASE : Z;
  AMP_IVARS_BASE : Z;
  AMP_RING_BASE : Z;
  AMP_STAGING_BASE : Z;
  AMP_CMD_RING_BASE : Z;
  AMP_PROGRESS_BASE : Z
}.

(** The constants both profiles define alike. *)
Definition AMP_HELPER_SLOT_BYTES : Z := 8.
Definition AMP_HELPER_SLOTS : Z := 32.
Definition AMP_HELPER_SIZE : Z := AMP_HELPER_SLOT_BYTES * AMP_HELPER_SLOTS.
Definition AMP_HELPER_LDR_PC_PC : Z := 0xF000F8DF.
Definition AMP_HELPER_LITERAL (addr : Z) : Z := Z.lor (u32 addr) 1.
Definition AMP_HELPER_ID_EMIT : Z := 1.
Definition AMP_HELPER_ID_KTIME : Z := 2.
Definition AMP_IVARS_SIZE : Z := 0x100.
Definition AMP_STAGING_SIZE : Z := 0x1000.
Definition AMP_STAGING_MAGIC : Z := 0x42504D41.
Definition AMP_BLOB_MAX : Z := 512.
Definition AMP_CMD_RING_SIZE : Z := 0x1000.
Definition AMP_CMD_RING_MAGIC : Z := 0x444D4341.
Definition AMP_CMD_RING_CAP : Z := 2.

Definition AMP_HELPER_SLOT `{Board} (id : Z) : Z :=
  u32 (AMP_HELPER_BASE + u32 (id - 1) * AMP_HELPER_SLOT_BYTES).

Inductive amp_step :=
| AMP_STEP_TICK | AMP_STEP_POLL | AMP_STEP_CMD_MAGIC | AMP_STEP_CMD_FOUND | AMP_STEP_PRE_INSTALL
| AMP_STEP_PRE_WINDOW | AMP_STEP_IN_WINDOW | AMP_STEP_POST_IVARS | AMP_STEP_POST_MEMCPY
| AMP_STEP_POST_ICACHE | AMP_STEP_POST_WINDOW | AMP_STEP_POST_FLIP | AMP_STEP_RUN
| AMP_STEP_RUN_DONE | AMP_STEP_TICK_DONE.

Definition step_code (s : amp_step) : Z :=
  match s with
  | AMP_STEP_TICK => 10 | AMP_STEP_POLL => 20 | AMP_STEP_CMD_MAGIC => 25
  | AMP_STEP_CMD_FOUND => 30 | AMP_STEP_PRE_INSTALL => 40 | AMP_STEP_PRE_WINDOW => 45
  | AMP_STEP_IN_WINDOW => 50 | AMP_STEP_POST_IVARS => 55 | AMP_STEP_POST_MEMCPY => 60
  | AMP_STEP_POST_ICACHE => 65 | AMP_STEP_POST_WINDOW => 70 | AMP_STEP_POST_FLIP => 80
  | AMP_STEP_RUN => 90 | AMP_STEP_RUN_DONE => 95 | AMP_STEP_TICK_DONE => 100
  end.

Record amp_blob_staging := mk_staging {
  st_magic : Z;
  st_abi_version : Z;
  st_length : Z;
  st_ivars_size : Z
}.

(** [enum amp_cmd_type], as the [uint32_t] the record carries. *)
Definition AMP_CMD_NONE : Z := 0.
Definition AMP_CMD_INSTALL : Z := 1.
Definition AMP_CMD_TEARDOWN : Z := 2.

Record amp_cmd_rec := mk_cmd {
  cmd_type : Z;
  cmd_abi_version : Z;
  cmd_length : Z;
  cmd_ivars_size : Z;
  cmd_blob : list Z
}.

Definition sizeof_ctrl : Z := 32.
Definition sizeof_staging : Z := 16.
Definition sizeof_cmd_rec : Z := 16 + AMP_BLOB_MAX.

Definition imx95m7 : Board := {|
  AMP_ABI_VERSION := 1;
  code_bank := (0x00000000, 0x00040000);
  data_bank := (0x20000000, 0x00040000);
  AMP_HELPER_BASE := 0x0003FF00;
  AMP_IVARS_BASE := 0x2003FF00;
  AMP_RING_BASE := 0x88400000;
  AMP_STAGING_BASE := 0x88420000;
  AMP_CMD_RING_BASE := 0x88430000;
  AMP_PROGRESS_BASE := 0x88431000
|}.

Definition stm32mp2m33 : Board := {|
  AMP_ABI_VERSION := 2;
  code_bank := (0x0A060000, 0x00020000);
  data_bank := (0x0A041000, 0x0001F000);
  AMP_HELPER_BASE := 0x0A07FF00;
  AMP_IVARS_BASE := 0x0A05FF00;
  AMP_RING_BASE := 0x81300000;
  AMP_STAGING_BASE := 0x81320000;
  AMP_CMD_RING_BASE := 0x81330000;
  AMP_PROGRESS_BASE := 0x81331000
|}.

(** Only the stm32 profile declares where the capability table lives. *)
Definition AMP_CAPABILITY_BASE : Z := 0x81332000.
Definition AMP_CAPABILITY_SIZE : Z := 0x1000.

(** ** Runtime addresses (amp_m7_runtime.h, no overrides) *)

Definition AMP_BLOB_SLOTS : Z := 2.
Definition AMP_RT_RING_CAP : Z := 256.
Definition AMP_RT_BLOB_SLOT_BASE `{Board} : Z := AMP_HELPER_BASE - AMP_BLOB_SLOTS * AMP_BLOB_MAX.
Definition AMP_RT_BLOB_SLOT `{Board} (i : Z) : Z :=
  u32 (AMP_RT_BLOB_SLOT_BASE + u32 i * AMP_BLOB_MAX).

(** ** Regions *)

Definition region := (Z * Z)%type.
Definition within (a b : region) : Prop := fst b <= fst a /\ fst a + snd a <= fst b + snd b.
Definition apart (a b : region) : Prop := fst a + snd a <= fst b \/ fst b + snd b <= fst a.
Definition bit31_clear (a : region) : Prop := 0 <= fst a /\ fst a + snd a <= 2 ^ 31.

Section Layout.
Context `{B : Board}.

Definition helper_region : region := (AMP_HELPER_BASE, AMP_HELPER_SIZE).
Definition ivars_region : region := (AMP_IVARS_BASE, AMP_IVARS_SIZE).
Definition slot_region (i : Z) : region := (AMP_RT_BLOB_SLOT i, AMP_BLOB_MAX).
Definition ring_region : region := (AMP_RING_BASE, sizeof_ctrl + AMP_RT_RING_CAP * Ring.sizeof_rec).
Definition staging_region : region := (AMP_STAGING_BASE, AMP_STAGING_SIZE).
Definition cmd_region : region := (AMP_CMD_RING_BASE, AMP_CMD_RING_SIZE).
Definition progress_region : region := (AMP_PROGRESS_BASE, 4).

Definition regions : list region :=
  [helper_region; slot_region 0; slot_region 1; ivars_region; ring_region; staging_region;
   cmd_region; progress_region].

(** What the rest of the system relies on. *)
Record layout_ok : Prop := {
  lo_apart : ForallOrdPairs apart regions;
  lo_code : Forall (fun r => within r code_bank) [helper_region; slot_region 0; slot_region 1];
  lo_data : within ivars_region data_bank;
  lo_banks : apart code_bank data_bank;
  lo_baked : Forall bit31_clear [helper_region; ivars_region];
  lo_32bit : Forall (fun r => 0 <= fst r /\ 0 < snd r /\ fst r + snd r <= 2 ^ 32) regions;
  lo_staging : sizeof_staging + AMP_BLOB_MAX <= AMP_STAGING_SIZE;
  lo_cmd : sizeof_ctrl + AMP_CMD_RING_CAP * sizeof_cmd_rec <= AMP_CMD_RING_SIZE;
  lo_align : AMP_HELPER_BASE mod 8 = 0 /\ AMP_IVARS_BASE mod 8 = 0
}.

End Layout.

Ltac solve_layout :=
  split; cbv delta [regions apart within bit31_clear] beta;
  repeat first [apply FOP_cons | apply FOP_nil | apply Forall_cons | apply Forall_nil];
  cbv -[Z.le Z.lt]; lia.

(** In both board profiles the helper table, the two execution slots, the
    instance variables, the event ring, the staging area, the command ring and
    the progress word never overlap; code is in the executable bank and the
    variables in the data bank, which are apart; and every address baked into a blob has bit 31
    clear, as the ahead-of-time compiler requires. *)
Theorem board_layouts_ok : @layout_ok imx95m7 /\ @layout_ok stm32mp2m33.
Proof. split; solve_layout. Qed.

(** Every helper id from 1 to 32 has its own aligned 8-byte slot inside the
    reserved table. *)
Theorem helper_slot_in_table `{B : Board} i j :
  layout_ok -> 1 <= i <= AMP_HELPER_SLOTS -> 1 <= j <= AMP_HELPER_SLOTS ->
  within (AMP_HELPER_SLOT i, AMP_HELPER_SLOT_BYTES) helper_region /\
  AMP_HELPER_SLOT i mod AMP_HELPER_SLOT_BYTES = 0 /\
  (i <> j -> apart (AMP_HELPER_SLOT i, AMP_HELPER_SLOT_BYTES) (AMP_HELPER_SLOT j, AMP_HELPER_SLOT_BYTES)).
Proof.
  intros L Hi Hj. destruct (lo_align L) as [Ha _].
  pose proof (lo_32bit L) as H32. apply Forall_inv in H32. cbn [fst snd helper_region] in H32.
  unfold AMP_HELPER_SIZE, AMP_HELPER_SLOTS, AMP_HELPER_SLOT_BYTES in *.
  assert (E : forall k, 1 <= k <= 32 -> AMP_HELPER_SLOT k = AMP_HELPER_BASE + (k - 1) * 8).
  { intros k Hk. unfold AMP_HELPER_SLOT, AMP_HELPER_SLOT_BYTES.
    rewrite (wrap_small 32 (k - 1)), wrap_small by lia. reflexivity. }
  unfold within, apart; cbn [fst snd helper_region]; rewrite !E by assumption.
  unfold AMP_HELPER_SIZE, AMP_HELPER_SLOTS, AMP_HELPER_SLOT_BYTES. repeat split; try lia.
  rewrite Z.mod_add by lia. exact Ha.
Qed.

Lemma helper_slot_in_table_witness :
  apart (@AMP_HELPER_SLOT stm32mp2m33 1, 8) (@AMP_HELPER_SLOT stm32mp2m33 32, 8).
Proof.
  assert (L : @layout_ok stm32mp2m33) by solve_layout.
  destruct (@helper_slot_in_table stm32mp2m33 1 32 L) as (_ & _ & H); try (vm_compute; split; discriminate).
  apply H. discriminate.
Defined.

End Abi.

Module CmdRing.
Import Spsc Abi.

#[export] Instance cmd0 : Zeroed amp_cmd_rec := mk_cmd 0 0 0 0 (repeat 0 512).

Abbreviation amp_cmd_ring := (ctrl_ring amp_cmd_rec).

(** The magic is stored last; the record slots keep what memory held. *)
Definition amp_cmd_ring_init (r : amp_cmd_ring) : amp_cmd_ring :=
  mk_ring AMP_CMD_RING_MAGIC 1 AMP_CMD_RING_CAP sizeof_cmd_rec 0 0 (0, 0) (slots r).

Definition amp_cmd_ring_push (r : amp_cmd_ring) (rec : amp_cmd_rec) : amp_cmd_ring * Z :=
  if negb (magic r =? AMP_CMD_RING_MAGIC) then (r, 0)
  else
    let p := prod r in
    let c := cons r in
    if capacity r <=? u32 (p - c) then (r, 0)
    else (set_prod (set_slot r (slot_ix r p) rec) (u32 (p + 1)), 1).

Definition cmd_ring_ok (r : amp_cmd_ring) : Prop :=
  ring_ok r /\ magic r = AMP_CMD_RING_MAGIC /\ capacity r = AMP_CMD_RING_CAP.

Lemma amp_cmd_ring_init_ok r : length (slots r) = Z.to_nat AMP_CMD_RING_CAP ->
  cmd_ring_ok (amp_cmd_ring_init r) /\ pending (amp_cmd_ring_init r) = [].
Proof.
  intros Hl. split; [|reflexivity]. split; [|split; reflexivity].
  split; simpl; auto; try (vm_compute; intuition congruence).
  exists (2 ^ 31). reflexivity.
Qed.

Lemma amp_cmd_ring_push_queue r rec : cmd_ring_ok r ->
  cmd_ring_ok (fst (amp_cmd_ring_push r rec)) /\
  (pending (fst (amp_cmd_ring_push r rec)), snd (amp_cmd_ring_push r rec)) =
    fifo_push 2 (pending r) rec.
Proof.
  intros (Hok & Hm & Hc). unfold amp_cmd_ring_push. rewrite Hm, Z.eqb_refl. cbn [negb].
  change (if capacity r <=? u32 (prod r - cons r) then (r, 0)
    else (set_prod (set_slot r (slot_ix r (prod r)) rec) (u32 (prod r + 1)), 1)) with (ring_push r rec).
  split.
  - split; [now apply ring_ok_push|]. unfold ring_push. case_if; auto.
  - rewrite (ring_push_fifo r rec Hok), Hc. reflexivity.
Qed.

End CmdRing.
