(* ===== verification/AmpRuntime.v ===== *)
(** * The real-time core's runtime ([src/runtime/amp/amp_m7_runtime.c])

    The runtime's state is the tightly coupled memory (helper table, execution
    slots, instance variables) as bytes, the shared rings and the staging area as
    their structures (AmpAbi.v proves the regions apart), the interrupt and MPU
    state, and a log of the externally visible effects in program order.

    - [Machine]: effects and the write window.
    - [Runtime]: emit, install, boot, run, teardown and the command loop; the
      command loop refines a loader whose whole state is the running blob. *)

From S2P Require Import Prelude AmpRing AmpAbi.

Module Machine.
Import Spsc Ring Abi CmdRing.

(** [irq_lock]/[irq_unlock] of the RTOS: unlocking with the key a lock returned
    restores the interrupt state. *)
Class Irq := {
  irq_lock : Z -> Z * Z;
  irq_unlock : Z -> Z -> Z;
  irq_unlock_lock : forall s, irq_unlock (fst (irq_lock s)) (snd (irq_lock s)) = s
}.

Inductive action :=
| Progress (s : amp_step)
| Flush (base len : Z)
| Invalidate (base len : Z)
| Write (base len mpu_ctrl : Z)
| Flip (slot : Z)
| Exec (addr : Z).

Record rt := mk_rt {
  mem : Z -> Z;
  ring : amp_ring;
  cmd : amp_cmd_ring;
  staging : amp_blob_staging;
  staged : list Z;
  progress : Z;
  active : Z;
  mpu : Z;
  irq : Z;
  log : list action
}.

Definition note (a : action) (s : rt) : rt :=
  mk_rt (mem s) (ring s) (cmd s) (staging s) (staged s) (progress s) (active s) (mpu s) (irq s)
    (log s ++ [a]).
Definition set_ring (r : amp_ring) (s : rt) : rt :=
  mk_rt (mem s) r (cmd s) (staging s) (staged s) (progress s) (active s) (mpu s) (irq s) (log s).
Definition set_cmd (c : amp_cmd_ring) (s : rt) : rt :=
  mk_rt (mem s) (ring s) c (staging s) (staged s) (progress s) (active s) (mpu s) (irq s) (log s).
Definition set_staging (g : amp_blob_staging) (s : rt) : rt :=
  mk_rt (mem s) (ring s) (cmd s) g (staged s) (progress s) (active s) (mpu s) (irq s) (log s).
Definition set_active (a : Z) (s : rt) : rt :=
  note (Flip a)
    (mk_rt (mem s) (ring s) (cmd s) (staging s) (staged s) (progress s) a (mpu s) (irq s) (log s)).
Definition set_mpu (m : Z) (s : rt) : rt :=
  mk_rt (mem s) (ring s) (cmd s) (staging s) (staged s) (progress s) (active s) m (irq s) (log s).
Definition set_irq (i : Z) (s : rt) : rt :=
  mk_rt (mem s) (ring s) (cmd s) (staging s) (staged s) (progress s) (active s) (mpu s) i (log s).

(** [memset(base, v, n)] and [memcpy(base, bytes, length bytes)]. *)
Definition fill (m : Z -> Z) (base n v : Z) : Z -> Z :=
  fun a => if (base <=? a) && (a <? base + n) then v else m a.
Definition copy (m : Z -> Z) (base : Z) (bytes : list Z) : Z -> Z :=
  fun a => if (base <=? a) && (a <? base + Z.of_nat (length bytes))
           then nth (Z.to_nat (a - base)) bytes 0 else m a.
Definition read (m : Z -> Z) (base : Z) (n : nat) : list Z :=
  map (fun k => m (base + Z.of_nat k)) (seq 0 n).

Definition set_mem (m : Z -> Z) (s : rt) : rt :=
  mk_rt m (ring s) (cmd s) (staging s) (staged s) (progress s) (active s) (mpu s) (irq s) (log s).
Definition mem_fill (base n v : Z) (s : rt) : rt :=
  note (Write base n (mpu s)) (set_mem (fill (mem s) base n v) s).
Definition mem_copy (base : Z) (bytes : list Z) (s : rt) : rt :=
  note (Write base (Z.of_nat (length bytes)) (mpu s)) (set_mem (copy (mem s) base bytes) s).

(** The little-endian bytes of a 32-bit word. *)
Definition le32 (v : Z) : list Z :=
  [u8 v; u8 (Z.shiftr v 8); u8 (Z.shiftr v 16); u8 (Z.shiftr v 24)].

Lemma copy_read m base bytes : read (copy m base bytes) base (length bytes) = bytes.
Proof.
  unfold read, copy. apply nth_ext with (d := 0) (d' := 0); rewrite length_map, length_seq; [reflexivity|].
  intros n Hn.
  rewrite nth_indep with (d' := (fun k => if (base <=? base + Z.of_nat k) &&
    (base + Z.of_nat k <? base + Z.of_nat (length bytes)) then
    nth (Z.to_nat (base + Z.of_nat k - base)) bytes 0 else m (base + Z.of_nat k)) 0%nat)
    by (rewrite length_map, length_seq; assumption).
  rewrite (map_nth (fun k => if (base <=? base + Z.of_nat k) &&
    (base + Z.of_nat k <? base + Z.of_nat (length bytes)) then
    nth (Z.to_nat (base + Z.of_nat k - base)) bytes 0 else m (base + Z.of_nat k))), seq_nth by assumption.
  simpl. destruct (Z.leb_spec base (base + Z.of_nat n)); [|lia].
  destruct (Z.ltb_spec (base + Z.of_nat n) (base + Z.of_nat (length bytes))); [|lia].
  simpl. f_equal. lia.
Qed.

Lemma read_ext m m' base n :
  (forall a, base <= a < base + Z.of_nat n -> m a = m' a) -> read m base n = read m' base n.
Proof. intros H. apply map_ext_in. intros k Hk%in_seq. apply H. lia. Qed.

Lemma copy_outside m base bytes a : a < base \/ base + Z.of_nat (length bytes) <= a ->
  copy m base bytes a = m a.
Proof.
  intros H. unfold copy. destruct (Z.leb_spec base a), (Z.ltb_spec a (base + Z.of_nat (length bytes)));
    simpl; try reflexivity; lia.
Qed.

Lemma fill_outside m base n v a : a < base \/ base + n <= a -> fill m base n v a = m a.
Proof.
  intros H. unfold fill. destruct (Z.leb_spec base a), (Z.ltb_spec a (base + n)); simpl; try reflexivity; lia.
Qed.

Lemma fill_inside m base n v a : base <= a < base + n -> fill m base n v a = v.
Proof.
  intros H. unfold fill. destruct (Z.leb_spec base a), (Z.ltb_spec a (base + n)); simpl; try reflexivity; lia.
Qed.

End Machine.

Module Runtime.
Import Spsc Ring Abi CmdRing Machine.

Section Board.
Context `{B : Board} `{I : Irq}.

(** [CONFIG_ARM_MPU]. *)
Context (config_arm_mpu : bool).

Definition amp_m7_progress (s : amp_step) (st : rt) : rt :=
  note (Flush AMP_PROGRESS_BASE 4)
    (note (Progress s)
       (mk_rt (mem st) (ring st) (cmd st) (staging st) (staged st) (step_code s) (active st)
          (mpu st) (irq st) (log st))).

Definition amp_ktime (uptime : Z) : Z := u64 (u64 uptime * 1000000).

Definition amp_emit (uptime v : Z) (st : rt) : rt * Z :=
  let ts := amp_ktime uptime in
  let '(r, ok) := amp_ring_emit (ring st) ts (sgn 64 v) in
  let st := set_ring r st in
  if ok =? 0 then (st, 0)
  else
    let slot := u32 (prod r - 1) mod capacity r in
    let st := note (Flush (AMP_RING_BASE + sizeof_ctrl + slot * sizeof_rec) sizeof_rec) st in
    (note (Flush AMP_RING_BASE sizeof_ctrl) st, 0).

Definition amp_write_slot (slot_addr target : Z) (st : rt) : rt :=
  mem_copy (slot_addr + 4) (le32 (AMP_HELPER_LITERAL target))
    (mem_copy slot_addr (le32 AMP_HELPER_LDR_PC_PC) st).

Record amp_window := mk_window { w_key : Z; w_mpu_ctrl : Z }.

Definition amp_itcm_window_begin (st : rt) : amp_window * rt :=
  let '(key, i) := irq_lock (irq st) in
  let st := set_irq i st in
  if config_arm_mpu then (mk_window key (mpu st), set_mpu 0 st) else (mk_window key 0, st).

Definition amp_itcm_window_end (w : amp_window) (st : rt) : rt :=
  let st := if config_arm_mpu then set_mpu (w_mpu_ctrl w) st else st in
  set_irq (irq_unlock (w_key w) (irq st)) st.

Definition zero_size (ivars_size : Z) : Z :=
  let z := if ivars_size =? 0 then AMP_IVARS_SIZE else ivars_size in
  if AMP_IVARS_SIZE <? z then AMP_IVARS_SIZE else z.

Definition install_to_slot (slot : Z) (blob : list Z) (len ivars_size : Z) (st : rt) : rt :=
  let st := amp_m7_progress AMP_STEP_PRE_WINDOW st in
  let '(w, st) := amp_itcm_window_begin st in
  let st := amp_m7_progress AMP_STEP_IN_WINDOW st in
  let st := mem_fill AMP_IVARS_BASE (zero_size ivars_size) 0 st in
  let st := amp_m7_progress AMP_STEP_POST_IVARS st in
  let st := mem_copy (AMP_RT_BLOB_SLOT slot) (firstn (Z.to_nat len) blob) st in
  let st := amp_m7_progress AMP_STEP_POST_MEMCPY st in
  let st := amp_itcm_window_end w st in
  amp_m7_progress AMP_STEP_POST_WINDOW st.

Definition helper_table_install (emit_addr ktime_addr : Z) (st : rt) : rt :=
  let '(w, st) := amp_itcm_window_begin st in
  let st := amp_write_slot (AMP_HELPER_SLOT AMP_HELPER_ID_EMIT) emit_addr st in
  let st := amp_write_slot (AMP_HELPER_SLOT AMP_HELPER_ID_KTIME) ktime_addr st in
  amp_itcm_window_end w st.

Inductive amp_load_status := AMP_LOAD_OK | AMP_LOAD_NO_BLOB | AMP_LOAD_ABI_MISMATCH | AMP_LOAD_TOO_BIG.

Definition staging_status (g : amp_blob_staging) : amp_load_status :=
  if negb (st_magic g =? AMP_STAGING_MAGIC) then AMP_LOAD_NO_BLOB
  else if negb (st_abi_version g =? AMP_ABI_VERSION) then AMP_LOAD_ABI_MISMATCH
  else if (st_length g =? 0) || (AMP_BLOB_MAX <? st_length g) then AMP_LOAD_TOO_BIG
  else AMP_LOAD_OK.

(** Up to the staged blob: the rings, the active slot and the helper table. *)
Definition init_rings (emit_addr ktime_addr : Z) (st : rt) : rt :=
  let st := set_ring (amp_ring_init (ring st) AMP_RT_RING_CAP) st in
  let st := note (Flush AMP_RING_BASE sizeof_ctrl) st in
  let st := set_cmd (amp_cmd_ring_init (cmd st)) st in
  let st := note (Flush AMP_CMD_RING_BASE sizeof_ctrl) st in
  let st := set_active (-1) st in
  let st := helper_table_install emit_addr ktime_addr st in
  note (Invalidate AMP_STAGING_BASE sizeof_staging) st.

(** Slot 0 gets the staged blob; the staging header is marked consumed. *)
Definition load_staged (st : rt) : rt :=
  let g := staging st in
  let st := note (Invalidate (AMP_STAGING_BASE + sizeof_staging) (st_length g)) st in
  let st := install_to_slot 0 (staged st) (st_length g) (st_ivars_size g) st in
  let st := set_active 0 st in
  let st := set_staging (mk_staging 0 (st_abi_version g) (st_length g) (st_ivars_size g)) st in
  note (Flush AMP_STAGING_BASE sizeof_staging) st.

Definition amp_m7_runtime_init (emit_addr ktime_addr : Z) (st : rt) : rt * amp_load_status :=
  let st := init_rings emit_addr ktime_addr st in
  match staging_status (staging st) with
  | AMP_LOAD_OK => (load_staged st, AMP_LOAD_OK)
  | status => (st, status)
  end.

(** [blob_exec] stands for the call into the installed machine code. *)
Definition amp_m7_run (blob_exec : Z -> rt -> rt) (st : rt) : rt :=
  let slot := active st in
  if slot <? 0 then st
  else
    let st := amp_m7_progress AMP_STEP_RUN st in
    let addr := Z.lor (AMP_RT_BLOB_SLOT slot) 1 in
    let st := blob_exec addr (note (Exec addr) st) in
    amp_m7_progress AMP_STEP_RUN_DONE st.

Definition amp_m7_teardown (st : rt) : rt :=
  mem_fill AMP_IVARS_BASE AMP_IVARS_SIZE 0 (set_active (-1) st).

Definition install_gate (rec : amp_cmd_rec) : bool :=
  (cmd_abi_version rec =? AMP_ABI_VERSION) && (0 <? cmd_length rec) && (cmd_length rec <=? AMP_BLOB_MAX).

(** One command, after its record has been invalidated. *)
Definition handle_cmd (rec : amp_cmd_rec) (st : rt) : rt :=
  if cmd_type rec =? AMP_CMD_INSTALL then
    if install_gate rec then
      let target := if active st =? 0 then 1 else 0 in
      let st := amp_m7_progress AMP_STEP_PRE_INSTALL st in
      let st := install_to_slot target (cmd_blob rec) (cmd_length rec) (cmd_ivars_size rec) st in
      amp_m7_progress AMP_STEP_POST_FLIP (set_active target st)
    else st
  else if cmd_type rec =? AMP_CMD_TEARDOWN then amp_m7_teardown st
  else st.

(** The loop runs [u32 (prod - cons)] times: nothing in it moves [prod]. *)
Fixpoint poll_loop (fuel : nat) (c : Z) (processed : nat) (st : rt) : Z * nat * rt :=
  match fuel with
  | O => (c, processed, st)
  | S f =>
      if c =? prod (cmd st) then (c, processed, st)
      else
        let st := amp_m7_progress AMP_STEP_CMD_FOUND st in
        let ix := slot_ix (cmd st) c in
        let st := note (Invalidate (AMP_CMD_RING_BASE + sizeof_ctrl + Z.of_nat ix * sizeof_cmd_rec)
                          sizeof_cmd_rec) st in
        let st := handle_cmd (nth ix (slots (cmd st)) cmd0) st in
        poll_loop f (u32 (c + 1)) (S processed) st
  end.

Definition amp_m7_poll_cmd (st : rt) : rt * nat :=
  let st := amp_m7_progress AMP_STEP_POLL st in
  let st := note (Invalidate AMP_CMD_RING_BASE sizeof_ctrl) st in
  if negb (magic (cmd st) =? AMP_CMD_RING_MAGIC) then (st, 0%nat)
  else
    let st := amp_m7_progress AMP_STEP_CMD_MAGIC st in
    let c := cons (cmd st) in
    let '(c, n, st) := poll_loop (S (count (cmd st))) c 0 st in
    let st := set_cmd (set_cons (cmd st) c) st in
    (note (Flush AMP_CMD_RING_BASE sizeof_ctrl) st, n).

(** ** Effects of an install *)

Lemma install_effect slot blob len iv st :
  let st' := install_to_slot slot blob len iv st in
  mem st' = copy (fill (mem st) AMP_IVARS_BASE (zero_size iv) 0) (AMP_RT_BLOB_SLOT slot)
              (firstn (Z.to_nat len) blob) /\
  active st' = active st /\ cmd st' = cmd st /\ ring st' = ring st /\ staging st' = staging st /\
  mpu st' = mpu st /\ irq st' = irq st.
Proof.
  unfold install_to_slot, amp_itcm_window_begin, amp_itcm_window_end. simpl.
  destruct (irq_lock (irq st)) as [key i] eqn:E.
  assert (U : irq_unlock key i = irq st)
    by (pose proof (irq_unlock_lock (irq st)) as H; rewrite E in H; exact H).
  destruct config_arm_mpu; simpl; auto 10.
Qed.

Lemma zero_size_range iv : 0 <= iv -> 0 < zero_size iv <= AMP_IVARS_SIZE.
Proof.
  intros H. unfold zero_size, AMP_IVARS_SIZE. destruct (Z.eqb_spec iv 0); simpl; [lia|].
  destruct (Z.ltb_spec 256 iv); lia.
Qed.

Lemma zero_size_le iv : zero_size iv <= AMP_IVARS_SIZE.
Proof.
  unfold zero_size, AMP_IVARS_SIZE. destruct (Z.eqb_spec iv 0); simpl; [lia|].
  destruct (Z.ltb_spec 256 iv); lia.
Qed.

(** The facts of the layout the loader needs. *)
Lemma layout_slots : layout_ok ->
  apart (slot_region 0) (slot_region 1) /\
  (forall i, i = 0 \/ i = 1 -> apart (slot_region i) ivars_region /\ apart helper_region (slot_region i)) /\
  apart helper_region ivars_region.
Proof.
  intros L. pose proof (lo_apart L) as H. unfold regions in H.
  inversion_clear H as [|? ? Hh Ht]. inversion_clear Ht as [|? ? H0 Ht']. inversion_clear Ht' as [|? ? H1 _].
  rewrite Forall_forall in Hh, H0, H1.
  split; [apply H0; simpl; auto|]. split; [|apply Hh; simpl; auto].
  intros i [->| ->]; (split; [|apply Hh; simpl; auto]); [apply H0|apply H1]; simpl; auto.
Qed.

Lemma install_outside slot blob len iv st a :
  ~ (AMP_IVARS_BASE <= a < AMP_IVARS_BASE + AMP_IVARS_SIZE) ->
  ~ (AMP_RT_BLOB_SLOT slot <= a < AMP_RT_BLOB_SLOT slot + len) ->
  mem (install_to_slot slot blob len iv st) a = mem st a.
Proof.
  intros Hi Hs. destruct (install_effect slot blob len iv st) as [-> _].
  pose proof (zero_size_le iv). rewrite copy_outside, fill_outside; [reflexivity|lia|].
  rewrite length_firstn. lia.
Qed.

(** ** The abstract loader: its state is the blob that runs, if any *)

Definition load (running : option (list Z)) (rec : amp_cmd_rec) : option (list Z) :=
  if cmd_type rec =? AMP_CMD_INSTALL then
    if install_gate rec then Some (firstn (Z.to_nat (cmd_length rec)) (cmd_blob rec)) else running
  else if cmd_type rec =? AMP_CMD_TEARDOWN then None
  else running.

Definition runs (running : option (list Z)) (st : rt) : Prop :=
  match running with
  | None => active st = -1
  | Some b =>
      (active st = 0 \/ active st = 1) /\ (length b <= 512)%nat /\
      read (mem st) (AMP_RT_BLOB_SLOT (active st)) (length b) = b
  end.

Definition same_devices (st st' : rt) : Prop :=
  cmd st' = cmd st /\ mpu st' = mpu st /\ irq st' = irq st.

(** The helper table is never written by a command. *)
Definition same_helpers (st st' : rt) : Prop :=
  forall a, AMP_HELPER_BASE <= a < AMP_HELPER_BASE + AMP_HELPER_SIZE -> mem st' a = mem st a.

Lemma active_range b st : runs b st -> active st = -1 \/ active st = 0 \/ active st = 1.
Proof. destruct b; simpl; tauto. Qed.

Lemma handle_install rec st : cmd_type rec = AMP_CMD_INSTALL -> install_gate rec = true ->
  let t := if active st =? 0 then 1 else 0 in
  let st' := handle_cmd rec st in
  active st' = t /\ same_devices st st' /\
  mem st' = copy (fill (mem st) AMP_IVARS_BASE (zero_size (cmd_ivars_size rec)) 0) (AMP_RT_BLOB_SLOT t)
              (firstn (Z.to_nat (cmd_length rec)) (cmd_blob rec)).
Proof.
  intros Ht Hg t st'. unfold st', handle_cmd. rewrite Ht, Z.eqb_refl, Hg.
  destruct (install_effect t (cmd_blob rec) (cmd_length rec) (cmd_ivars_size rec)
              (amp_m7_progress AMP_STEP_PRE_INSTALL st)) as (Hm & _ & Hc & _ & _ & Hmp & Hi).
  fold t. split; [reflexivity|]. split; [split; [exact Hc|split; [exact Hmp|exact Hi]]|exact Hm].
Qed.

Lemma gate_length rec : install_gate rec = true ->
  (length (firstn (Z.to_nat (cmd_length rec)) (cmd_blob rec)) <= 512)%nat.
Proof.
  unfold install_gate, AMP_BLOB_MAX. intros H. bools.
  rewrite length_firstn. lia.
Qed.

Lemma handle_cmd_load running rec st : layout_ok -> runs running st ->
  let st' := handle_cmd rec st in
  runs (load running rec) st' /\ same_devices st st' /\ same_helpers st st'.
Proof.
  intros L Hr st'. destruct (layout_slots L) as (H01 & Hsi & Hhi).
  unfold load. destruct (Z.eqb_spec (cmd_type rec) AMP_CMD_INSTALL) as [Ei|Ei].
  - destruct (install_gate rec) eqn:Eg.
    + destruct (handle_install rec st Ei Eg) as (Ha & Hd & Hm). fold st' in Ha, Hd, Hm.
      set (t := if active st =? 0 then 1 else 0) in *.
      assert (Ht : t = 0 \/ t = 1) by (unfold t; case_if; auto).
      split; [|split; [exact Hd|]].
      * simpl. rewrite Ha. split; [assumption|]. split; [now apply gate_length|]. rewrite Hm. apply copy_read.
      * intros a H. rewrite Hm. destruct (Hsi t Ht) as [_ Hht].
        pose proof (gate_length rec Eg). pose proof (zero_size_le (cmd_ivars_size rec)).
        unfold apart, helper_region, ivars_region, slot_region, AMP_BLOB_MAX in *; cbn [fst snd] in *.
        rewrite copy_outside, fill_outside; [reflexivity|lia|lia].
    + unfold st', handle_cmd. rewrite Ei, Z.eqb_refl, Eg.
      repeat split; auto; apply Hr.
  - unfold st', handle_cmd. destruct (Z.eqb_spec (cmd_type rec) AMP_CMD_INSTALL); [contradiction|].
    destruct (cmd_type rec =? AMP_CMD_TEARDOWN); [|repeat split; auto; apply Hr].
    split; [reflexivity|]. split; [repeat split|]. intros a H. simpl.
    unfold apart, helper_region, ivars_region in Hhi; cbn [fst snd] in Hhi.
    apply fill_outside. lia.
Qed.

(** ** The command loop *)

Lemma same_helpers_trans s1 s2 s3 : same_helpers s1 s2 -> same_helpers s2 s3 -> same_helpers s1 s3.
Proof. intros H1 H2 a Ha. now rewrite (H2 a Ha), (H1 a Ha). Qed.

Lemma poll_loop_load running0 fuel : forall k st n, layout_ok -> ring_ok (cmd st) ->
  (k <= count (cmd st))%nat -> (count (cmd st) - k < fuel)%nat -> runs running0 st ->
  exists st',
    poll_loop fuel (u32 (cons (cmd st) + Z.of_nat k)) n st =
      (prod (cmd st), (n + (count (cmd st) - k))%nat, st') /\
    runs (fold_left load (skipn k (pending (cmd st))) running0) st' /\
    same_devices st st' /\ same_helpers st st'.
Proof.
  revert running0. induction fuel as [|f IH]; intros running0 k st n L Hok Hk Hf Hr; [lia|].
  cbn [poll_loop]. rewrite counter_meets by assumption.
  destruct (Nat.eqb_spec k (count (cmd st))) as [E|E].
  - exists st. split.
    + rewrite E, Nat.sub_diag, Nat.add_0_r. do 2 f_equal. apply Z.eqb_eq.
      rewrite counter_meets by auto. apply Nat.eqb_refl.
    + rewrite skipn_all2 by (rewrite length_pending; lia). split; [exact Hr|]. split; [repeat split|].
      intros a Ha. reflexivity.
  - set (st1 := note _ _). change (slot_ix _ _) with (slot_ix (cmd st) (u32 (cons (cmd st) + Z.of_nat k))).
    change (slots (cmd (amp_m7_progress AMP_STEP_CMD_FOUND st))) with (slots (cmd st)).
    set (rec := nth _ (slots (cmd st1)) cmd0).
    assert (Erec : rec = nth k (pending (cmd st)) cmd0) by (rewrite nth_pending by lia; reflexivity).
    assert (Hr1 : runs running0 st1) by (destruct running0; exact Hr).
    destruct (handle_cmd_load running0 rec st1 L Hr1) as (Hr2 & (Hc & Hm & Hi) & Hh).
    rewrite wrap_add_l.
    replace (cons (cmd st) + Z.of_nat k + 1) with (cons (cmd st) + Z.of_nat (S k)) by lia.
    change (cmd st1) with (cmd st) in Hc. change (mpu st1) with (mpu st) in Hm.
    change (irq st1) with (irq st) in Hi.
    destruct (IH (load running0 rec) (S k) (handle_cmd rec st1) (S n) L) as (st' & He & Hr3 & Hd3 & Hh3);
      rewrite ?Hc; auto; try lia.
    rewrite Hc in He, Hr3. exists st'. split; [rewrite He; do 2 f_equal; lia|].
    split; [|split].
    + rewrite (skipn_nth (pending (cmd st)) k cmd0) by (rewrite length_pending; lia).
      simpl fold_left. rewrite <- Erec. exact Hr3.
    + destruct Hd3 as (? & ? & ?). repeat split; congruence.
    + now apply (same_helpers_trans st1 (handle_cmd rec st1)).
Qed.

(** C19: one poll of the command ring executes the pending commands in order as
    the abstract loader would: afterwards the active slot holds exactly the last
    blob accepted (or nothing runs after a teardown), every pending command has
    been consumed and counted, the helper table is untouched, and the MPU and the
    interrupt state are what they were. *)
Theorem amp_m7_poll_cmd_refines_loader running st :
  layout_ok -> cmd_ring_ok (cmd st) -> runs running st ->
  let '(st', n) := amp_m7_poll_cmd st in
  runs (fold_left load (pending (cmd st)) running) st' /\
  n = length (pending (cmd st)) /\
  cmd_ring_ok (cmd st') /\ pending (cmd st') = [] /\
  same_helpers st st' /\ mpu st' = mpu st /\ irq st' = irq st.
Proof.
  intros L (Hok & Hm & Hcap) Hr. unfold amp_m7_poll_cmd. simpl magic. rewrite Hm, Z.eqb_refl. cbn [negb].
  set (st1 := amp_m7_progress AMP_STEP_CMD_MAGIC _).
  destruct (poll_loop_load running (S (count (cmd st))) 0 st1 0 L) as (st' & He & Hr' & (Hc & Hmp & Hi) & Hh);
    try assumption; try lia.
  { change (cmd st1) with (cmd st). lia. }
  change (cmd st1) with (cmd st) in *.
  rewrite Z.add_0_r, (wrap_small 32 (cons (cmd st))) in He by apply Hok. rewrite He, Hc.
  destruct (pending_consume (cmd st) (count (cmd st)) Hok) as [Hok' Hp]; [lia|].
  assert (Ep : u32 (cons (cmd st) + Z.of_nat (count (cmd st))) = prod (cmd st)).
  { unfold count. rewrite Z2Nat.id by apply fill_nonneg. symmetry. now apply prod_as_offset. }
  rewrite Ep in Hok', Hp. rewrite length_pending. simpl count. rewrite Nat.sub_0_r, Nat.add_0_l.
  split; [destruct (fold_left load (pending (cmd st)) running) eqn:E; simpl skipn in Hr'; rewrite E in Hr';
          exact Hr'|].
  split; [reflexivity|]. split; [split; [exact Hok'|split; assumption]|]. split; [|split; [exact Hh|split; assumption]].
  change (cmd _) with (set_cons (cmd st) (prod (cmd st))). rewrite Hp.
  apply skipn_all2. rewrite length_pending. lia.
Qed.

(** C4: a hot swap never writes the slot that is running: after an accepted
    install every byte of the previously active slot, and every byte outside the
    target slot and the instance variables, is unchanged; the target holds the
    new blob and becomes active. *)
Theorem hot_swap_isolated rec st :
  layout_ok -> cmd_type rec = AMP_CMD_INSTALL -> install_gate rec = true ->
  active st = 0 \/ active st = 1 ->
  let st' := handle_cmd rec st in
  active st' = 1 - active st /\
  read (mem st') (AMP_RT_BLOB_SLOT (active st')) (length (firstn (Z.to_nat (cmd_length rec)) (cmd_blob rec)))
    = firstn (Z.to_nat (cmd_length rec)) (cmd_blob rec) /\
  (forall a, AMP_RT_BLOB_SLOT (active st) <= a < AMP_RT_BLOB_SLOT (active st) + AMP_BLOB_MAX ->
     mem st' a = mem st a) /\
  (forall a, ~ (AMP_IVARS_BASE <= a < AMP_IVARS_BASE + AMP_IVARS_SIZE) ->
     ~ (AMP_RT_BLOB_SLOT (active st') <= a < AMP_RT_BLOB_SLOT (active st') + AMP_BLOB_MAX) ->
     mem st' a = mem st a).
Proof.
  intros L Ht Hg Hact st'. destruct (layout_slots L) as (H01 & Hsi & Hhi).
  destruct (handle_install rec st Ht Hg) as (Ha & _ & Hm). fold st' in Ha, Hm.
  assert (E : (if active st =? 0 then 1 else 0) = 1 - active st) by (destruct Hact as [->| ->]; reflexivity).
  rewrite E in Ha, Hm.
  pose proof (gate_length rec Hg) as Hl. pose proof (zero_size_le (cmd_ivars_size rec)) as Hz.
  split; [exact Ha|]. rewrite Ha, Hm. split; [apply copy_read|].
  assert (Hap : apart (slot_region (active st)) (slot_region (1 - active st))).
  { destruct Hact as [->| ->]; [exact H01|]. unfold apart in *. tauto. }
  destruct (Hsi (active st) Hact) as [Hai _].
  unfold apart, slot_region, ivars_region, AMP_BLOB_MAX in *; cbn [fst snd] in *.
  split; intros a H; [|intros H']; (rewrite copy_outside, fill_outside; [reflexivity|lia|lia]).
Qed.

(** ** Boot *)

Lemma table_effect ea ka st : 
  let st' := helper_table_install ea ka st in
  mem st' = copy (copy (copy (copy (mem st)
      (AMP_HELPER_SLOT 1) (le32 AMP_HELPER_LDR_PC_PC)) (AMP_HELPER_SLOT 1 + 4) (le32 (AMP_HELPER_LITERAL ea)))
      (AMP_HELPER_SLOT 2) (le32 AMP_HELPER_LDR_PC_PC)) (AMP_HELPER_SLOT 2 + 4) (le32 (AMP_HELPER_LITERAL ka)) /\
  active st' = active st /\ cmd st' = cmd st /\ ring st' = ring st /\ staging st' = staging st /\
  staged st' = staged st /\ mpu st' = mpu st /\ irq st' = irq st.
Proof.
  unfold helper_table_install, amp_itcm_window_begin, amp_itcm_window_end. simpl.
  destruct (irq_lock (irq st)) as [key i] eqn:E.
  assert (U : irq_unlock key i = irq st)
    by (pose proof (irq_unlock_lock (irq st)) as H; rewrite E in H; exact H).
  destruct config_arm_mpu; simpl; auto 12.
Qed.

Lemma copy2_read m base a b : read (copy (copy m base a) (base + Z.of_nat (length a)) b) base
  (length (a ++ b)) = a ++ b.
Proof.
  rewrite <- (copy_read m base (a ++ b)) at 2. apply read_ext. intros x Hx.
  rewrite length_app, Nat2Z.inj_add in Hx. unfold copy. rewrite length_app.
  destruct (Z.leb_spec base x); [|lia].
  destruct (Z.leb_spec (base + Z.of_nat (length a)) x),
    (Z.ltb_spec x (base + Z.of_nat (length a) + Z.of_nat (length b))),
    (Z.ltb_spec x (base + Z.of_nat (length a + length b))); simpl; try lia.
  - rewrite app_nth2 by lia. f_equal. lia.
  - destruct (Z.ltb_spec x (base + Z.of_nat (length a))); [|lia]. simpl. rewrite app_nth1 by lia. reflexivity.
Qed.

Lemma table_reads ea ka st : layout_ok ->
  let st' := helper_table_install ea ka st in
  read (mem st') (AMP_HELPER_SLOT 1) 8 = le32 AMP_HELPER_LDR_PC_PC ++ le32 (AMP_HELPER_LITERAL ea) /\
  read (mem st') (AMP_HELPER_SLOT 2) 8 = le32 AMP_HELPER_LDR_PC_PC ++ le32 (AMP_HELPER_LITERAL ka).
Proof.
  intros L st'. destruct (table_effect ea ka st) as [Hm _]. fold st' in Hm. rewrite Hm.
  pose proof (lo_32bit L) as H32. apply Forall_inv in H32. cbn [fst snd helper_region] in H32.
  unfold AMP_HELPER_SIZE, AMP_HELPER_SLOTS, AMP_HELPER_SLOT_BYTES in H32.
  assert (E1 : AMP_HELPER_SLOT 1 = AMP_HELPER_BASE).
  { unfold AMP_HELPER_SLOT. change (u32 (1 - 1)) with 0. rewrite Z.mul_0_l, Z.add_0_r. apply wrap_small. lia. }
  assert (E2 : AMP_HELPER_SLOT 2 = AMP_HELPER_BASE + 8).
  { unfold AMP_HELPER_SLOT, AMP_HELPER_SLOT_BYTES. change (u32 (2 - 1)) with 1. apply wrap_small. lia. }
  rewrite E1, E2. split.
  - erewrite read_ext; [apply (copy2_read (mem st) AMP_HELPER_BASE (le32 _) (le32 _))|].
    intros a Ha. cbn [length le32] in Ha.
    do 2 rewrite copy_outside by (cbn [length le32]; lia). reflexivity.
  - apply (copy2_read _ (AMP_HELPER_BASE + 8) (le32 _) (le32 _)).
Qed.

(** The table as the blobs expect it. *)
Definition helpers_installed (ea ka : Z) (st : rt) : Prop :=
  read (mem st) (AMP_HELPER_SLOT 1) 8 = le32 AMP_HELPER_LDR_PC_PC ++ le32 (AMP_HELPER_LITERAL ea) /\
  read (mem st) (AMP_HELPER_SLOT 2) 8 = le32 AMP_HELPER_LDR_PC_PC ++ le32 (AMP_HELPER_LITERAL ka).

Lemma helpers_kept ea ka st st' : layout_ok -> same_helpers st st' ->
  helpers_installed ea ka st -> helpers_installed ea ka st'.
Proof.
  intros L Hs [H1 H2]. pose proof (lo_32bit L) as H32. apply Forall_inv in H32.
  cbn [fst snd helper_region] in H32. unfold AMP_HELPER_SIZE, AMP_HELPER_SLOTS, AMP_HELPER_SLOT_BYTES in H32.
  assert (E : forall k, 1 <= k <= 2 -> AMP_HELPER_SLOT k = AMP_HELPER_BASE + (k - 1) * 8).
  { intros k Hk. unfold AMP_HELPER_SLOT, AMP_HELPER_SLOT_BYTES.
    rewrite (wrap_small 32 (k - 1)), wrap_small by lia. reflexivity. }
  unfold helpers_installed. rewrite <- H1, <- H2. rewrite !E by lia.
  split; apply read_ext; intros a Ha; apply Hs;
    unfold AMP_HELPER_SIZE, AMP_HELPER_SLOTS, AMP_HELPER_SLOT_BYTES; lia.
Qed.

Lemma install_keeps_helpers slot blob len iv st : layout_ok -> slot = 0 \/ slot = 1 ->
  len <= AMP_BLOB_MAX -> same_helpers st (install_to_slot slot blob len iv st).
Proof.
  intros L Hs Hl a Ha. destruct (layout_slots L) as (_ & Hsi & Hhi). destruct (Hsi slot Hs) as [_ H].
  unfold apart, helper_region, ivars_region, slot_region in *; cbn [fst snd] in *.
  apply install_outside; lia.
Qed.

(** What boot leaves behind whatever was staged. *)
Definition booted (ea ka : Z) (st st' : rt) : Prop :=
  ring_ok (ring st') /\ pending (ring st') = [] /\ cmd_ring_ok (cmd st') /\ pending (cmd st') = [] /\
  helpers_installed ea ka st' /\ mpu st' = mpu st /\ irq st' = irq st.

Lemma init_rings_booted ea ka st : layout_ok ->
  length (slots (cmd st)) = 2%nat -> length (slots (ring st)) = 256%nat ->
  let st' := init_rings ea ka st in
  booted ea ka st st' /\ active st' = -1 /\ staging st' = staging st /\ staged st' = staged st.
Proof.
  intros L Hcs Hrs st'. unfold st', init_rings. set (st1 := set_active (-1) _).
  destruct (table_effect ea ka st1) as (_ & Ha & Hc & Hr & Hg & Hd & Hm & Hi).
  pose proof (table_reads ea ka st1 L) as T.
  destruct (amp_cmd_ring_init_ok (cmd st) Hcs) as [Hco Hcp].
  destruct (amp_ring_init_ok (ring st) AMP_RT_RING_CAP) as [Hro Hrp];
    [vm_compute; intuition congruence|exists (2 ^ 24); reflexivity|assumption|].
  unfold booted. cbn [cmd ring mem mpu irq staging staged active note].
  rewrite Hc, Hr, Hm, Hi, Ha, Hg, Hd. split; [|auto].
  split; [exact Hro|]. split; [exact Hrp|]. split; [exact Hco|]. split; [exact Hcp|]. split; [exact T|auto].
Qed.

Lemma load_staged_runs ea ka st0 st : layout_ok -> booted ea ka st0 st ->
  0 <= st_length (staging st) <= AMP_BLOB_MAX ->
  let st' := load_staged st in
  booted ea ka st0 st' /\ active st' = 0 /\
  runs (Some (firstn (Z.to_nat (st_length (staging st))) (staged st))) st' /\ st_magic (staging st') = 0.
Proof.
  intros L (Hro & Hrp & Hco & Hcp & Hh & Hm & Hi) Hlen st'. unfold st', load_staged.
  set (g := staging st) in *. set (st1 := note _ st).
  destruct (install_effect 0 (staged st1) (st_length g) (st_ivars_size g) st1)
    as (Em & _ & Ec & Er & _ & Emp & Ei).
  pose proof (install_keeps_helpers 0 (staged st1) (st_length g) (st_ivars_size g) st1 L
                (or_introl eq_refl) ltac:(lia)) as Hk.
  apply (helpers_kept ea ka st1) in Hk; [|assumption|assumption].
  set (st2 := install_to_slot _ _ _ _ _) in *.
  unfold booted. cbn [cmd ring mem mpu irq staging active note set_staging set_active st_magic runs].
  rewrite Ec, Er, Emp, Ei. split.
  { repeat (split; [assumption|]). assumption. }
  split; [reflexivity|]. split; [|reflexivity].
  split; [auto|]. split; [unfold AMP_BLOB_MAX in Hlen; rewrite length_firstn; lia|].
  rewrite Em. apply copy_read.
Qed.

(** Boot initialises both rings empty, installs the helper table (each slot
    the jump instruction and the helper's Thumb address) and returns the status
    the staging header deserves.  A valid staged blob runs from slot 0 and is
    consumed: booting again without restaging finds no blob.  With any other
    status nothing runs and the staging area is left alone. *)
Theorem amp_m7_runtime_init_boots ea ka st :
  layout_ok -> length (slots (cmd st)) = 2%nat -> length (slots (ring st)) = 256%nat ->
  0 <= st_length (staging st) ->
  let '(st', status) := amp_m7_runtime_init ea ka st in
  status = staging_status (staging st) /\ booted ea ka st st' /\
  match status with
  | AMP_LOAD_OK =>
      runs (Some (firstn (Z.to_nat (st_length (staging st))) (staged st))) st' /\ active st' = 0 /\
      staging_status (staging st') = AMP_LOAD_NO_BLOB
  | _ => runs None st' /\ staging st' = staging st
  end.
Proof.
  intros L Hcs Hrs Hl. unfold amp_m7_runtime_init.
  destruct (init_rings_booted ea ka st L Hcs Hrs) as (Hb & Ha & Hg & Hd).
  set (st1 := init_rings ea ka st) in *. rewrite Hg.
  destruct (staging_status (staging st)) eqn:Es; try (split; [reflexivity|split; [exact Hb|split; assumption]]).
  assert (Hle : st_length (staging st) <= AMP_BLOB_MAX).
  { unfold staging_status in Es. repeat (case_if; [discriminate|]). bools. lia. }
  destruct (load_staged_runs ea ka st st1 L Hb) as (Hb' & Ha' & Hr & Hm); [rewrite Hg; lia|].
  rewrite Hg, Hd in Hr. repeat (split; [assumption || reflexivity|]). unfold staging_status. now rewrite Hm.
Qed.

(** ** The write window *)

(** A write is guarded when the MPU is off or it stays out of the code bank. *)
Definition guarded (a : action) : Prop :=
  match a with Write base len m => m = 0 \/ apart (base, len) code_bank | _ => True end.

Abbreviation log_ok st := (Forall guarded (log st)).

Lemma log_ok_note a st : guarded a -> log_ok st -> log_ok (note a st).
Proof. intros Ha Hs. simpl. apply Forall_app. auto. Qed.

Lemma ivars_out_of_code n : layout_ok -> n <= AMP_IVARS_SIZE -> apart (AMP_IVARS_BASE, n) code_bank.
Proof.
  intros L Hn. pose proof (lo_data L) as Hd. pose proof (lo_banks L) as Hb.
  unfold within, apart, ivars_region in *; cbn [fst snd] in *. lia.
Qed.

Lemma log_ok_progress p st : log_ok st -> log_ok (amp_m7_progress p st).
Proof. intros H. unfold amp_m7_progress. repeat apply log_ok_note; simpl; auto. Qed.

Lemma log_ok_install slot blob len iv st : config_arm_mpu = true -> log_ok st ->
  log_ok (install_to_slot slot blob len iv st).
Proof.
  intros Hc H. unfold install_to_slot, amp_itcm_window_begin, amp_itcm_window_end. rewrite Hc.
  destruct (irq_lock _) as [key i]. cbn. repeat (apply Forall_app; split; [|repeat constructor]).
  exact H.
Qed.

Lemma log_ok_handle rec st : layout_ok -> config_arm_mpu = true -> log_ok st -> log_ok (handle_cmd rec st).
Proof.
  intros L Hc H. unfold handle_cmd. case_if; [|case_if; [|assumption]].
  - case_if; [|assumption]. apply log_ok_progress, log_ok_note; [simpl; auto|].
    cbn [log]. apply log_ok_install, log_ok_progress; assumption.
  - unfold amp_m7_teardown. apply log_ok_note; [right; now apply ivars_out_of_code|].
    cbn [log set_mem]. apply log_ok_note; [simpl; auto|assumption].
Qed.

Lemma log_ok_poll_loop fuel : forall c n st, layout_ok -> config_arm_mpu = true -> log_ok st ->
  log_ok (snd (poll_loop fuel c n st)).
Proof.
  induction fuel as [|f IH]; intros c n st L Hc H; [exact H|]. cbn [poll_loop]. case_if; [exact H|].
  apply IH; auto. apply log_ok_handle; auto. apply log_ok_note; [simpl; auto|]. now apply log_ok_progress.
Qed.

(** With the MPU configured, every write a poll makes to the executable bank
    happens inside the write window, with the MPU disabled; writes made with the
    MPU on stay out of that bank. *)
Theorem poll_writes_guarded st : layout_ok -> config_arm_mpu = true -> log_ok st ->
  log_ok (fst (amp_m7_poll_cmd st)).
Proof.
  intros L Hc H. unfold amp_m7_poll_cmd.
  assert (H1 : log_ok (note (Invalidate AMP_CMD_RING_BASE sizeof_ctrl) (amp_m7_progress AMP_STEP_POLL st)))
    by (apply log_ok_note; [simpl; auto|now apply log_ok_progress]).
  case_if; [exact H1|]. set (st1 := amp_m7_progress AMP_STEP_CMD_MAGIC _).
  pose proof (log_ok_poll_loop (S (count (cmd st1))) (cons (cmd st1)) 0 st1 L Hc
                (log_ok_progress AMP_STEP_CMD_MAGIC _ H1)) as H2.
  destruct (poll_loop _ _ _ _) as [[c n] st2]. apply log_ok_note; [simpl; auto|exact H2].
Qed.

End Board.
(** ** A concrete board *)

#[local] Instance mask_irq : Irq := {|
  irq_lock := fun s => (s, 1);
  irq_unlock := fun key _ => key;
  irq_unlock_lock := fun s => eq_refl
|}.
#[local] Existing Instance imx95m7.

Lemma imx_layout : layout_ok.
Proof. solve_layout. Defined.

Definition install_rec (b iv : Z) : amp_cmd_rec := mk_cmd AMP_CMD_INSTALL 1 3 iv ([b; b; b] ++ repeat 0 509).
Definition teardown_rec : amp_cmd_rec := mk_cmd AMP_CMD_TEARDOWN 1 0 0 (repeat 0 512).

Definition blank : rt :=
  mk_rt (fun _ => 170) (mk_ring 0 0 0 0 0 0 (0, 0) (repeat rec0 256))
    (amp_cmd_ring_init (mk_ring 0 0 0 0 0 0 (0, 0) [cmd0; cmd0]))
    (mk_staging AMP_STAGING_MAGIC 1 4 16) [1; 2; 3; 4; 5; 6] 0 (-1) 5 0 [].

(** Slot 0 running a blob of 7s, two commands pending: replace it, then tear down. *)
Definition swapping : rt :=
  let st := handle_cmd true (install_rec 7 0) blank in
  set_cmd (fst (amp_cmd_ring_push (fst (amp_cmd_ring_push (cmd st) (install_rec 9 0))) teardown_rec)) st.

Lemma swapping_cmd_ok : cmd_ring_ok (cmd swapping) /\ pending (cmd swapping) = [install_rec 9 0; teardown_rec].
Proof.
  destruct (amp_cmd_ring_init_ok (mk_ring 0 0 0 0 0 0 (0, 0) [cmd0; cmd0]) eq_refl) as [H0 P0].
  destruct (amp_cmd_ring_push_queue _ (install_rec 9 0) H0) as [H1 P1].
  destruct (amp_cmd_ring_push_queue _ teardown_rec H1) as [H2 P2].
  split; [exact H2|reflexivity].
Defined.

Lemma amp_m7_poll_cmd_refines_loader_witness :
  runs (Some [7; 7; 7]) swapping /\ active (fst (amp_m7_poll_cmd true swapping)) = -1.
Proof.
  assert (R : runs (Some [7; 7; 7]) swapping) by (split; [left; reflexivity|split; [repeat constructor|reflexivity]]).
  split; [exact R|].
  pose proof (amp_m7_poll_cmd_refines_loader true (Some [7; 7; 7]) swapping imx_layout
                (proj1 swapping_cmd_ok) R) as H.
  destruct (amp_m7_poll_cmd true swapping) as [st' n]. destruct H as [H _].
  rewrite (proj2 swapping_cmd_ok) in H. exact H.
Defined.

Lemma hot_swap_isolated_witness :
  read (mem (handle_cmd true (install_rec 9 0) swapping)) (AMP_RT_BLOB_SLOT 1) 3 = [9; 9; 9].
Proof.
  destruct (hot_swap_isolated true (install_rec 9 0) swapping imx_layout eq_refl eq_refl (or_introl eq_refl))
    as (_ & H & _). exact H.
Defined.

Lemma amp_m7_runtime_init_boots_witness :
  runs (Some [1; 2; 3; 4]) (fst (amp_m7_runtime_init true 0x1000 0x2000 blank)).
Proof.
  pose proof (amp_m7_runtime_init_boots true 0x1000 0x2000 blank imx_layout eq_refl eq_refl) as H.
  specialize (H ltac:(vm_compute; discriminate)).
  destruct (amp_m7_runtime_init true 0x1000 0x2000 blank) as [st' status].
  destruct H as (E & _ & H). rewrite E in H. exact (proj1 H).
Defined.

(** Nothing runs yet, one install pending. *)
Definition waiting : rt := set_cmd (fst (amp_cmd_ring_push (cmd blank) (install_rec 9 0))) blank.

Lemma poll_writes_guarded_witness :
  Forall guarded (log (fst (amp_m7_poll_cmd true waiting))) /\
  In (Write (AMP_RT_BLOB_SLOT 0) 3 0) (log (fst (amp_m7_poll_cmd true waiting))).
Proof.
  split; [|vm_compute; tauto].
  apply poll_writes_guarded; [exact imx_layout|reflexivity|constructor].
Defined.

(** An install whose header gives an [ivars_size] below 256 zeroes that many
    bytes only: the instance variables above it keep the previous probe's values,
    although the ABI header says the loader zeroes [AMP_IVARS_SIZE] on every
    install. *)
Theorem install_keeps_stale_ivars rec st a :
  cmd_type rec = AMP_CMD_INSTALL -> install_gate rec = true ->
  0 < cmd_ivars_size rec -> active st = 0 \/ active st = 1 ->
  AMP_IVARS_BASE + cmd_ivars_size rec <= a < AMP_IVARS_BASE + AMP_IVARS_SIZE ->
  mem (handle_cmd true rec st) a = mem st a.
Proof.
  intros Ht Hg Hi Hact Ha. destruct (handle_install true rec st Ht Hg) as (_ & _ & Hm). rewrite Hm.
  destruct (layout_slots imx_layout) as (_ & Hsi & _).
  assert (Hz : zero_size (cmd_ivars_size rec) = cmd_ivars_size rec).
  { unfold zero_size. destruct (Z.eqb_spec (cmd_ivars_size rec) 0); [lia|].
    destruct (Z.ltb_spec AMP_IVARS_SIZE (cmd_ivars_size rec)); lia. }
  rewrite Hz. destruct (Hsi (if active st =? 0 then 1 else 0)) as [Hap _]; [case_if; auto|].
  pose proof (gate_length rec Hg).
  unfold apart, ivars_region, slot_region, AMP_BLOB_MAX in Hap; cbn [fst snd] in Hap.
  rewrite copy_outside, fill_outside; [reflexivity|lia|lia].
Qed.

Lemma install_keeps_stale_ivars_witness :
  mem (handle_cmd true (install_rec 9 16) swapping) (AMP_IVARS_BASE + 16) =
  mem swapping (AMP_IVARS_BASE + 16).
Proof.
  apply install_keeps_stale_ivars; try reflexivity; [left; reflexivity|].
  vm_compute. split; congruence.
Defined.

End Runtime.
