(* ===== verification/AmpCheck.v ===== *)
(** * The pre-deployment bytecode checker ([src/runtime/amp/amp_check.c])

    - [Checker]: decoding, the constant tracker and the linear walk, with every
      rejection as a value; reading past the tracked registers is [Undefined].
    - [Isa]: the BPF instruction set as a step relation over-approximating every
      data-dependent result, recording memory accesses.
    - The theorems: what acceptance guarantees, and the programs it lets through. *)

From S2P Require Import Prelude AmpAbi.

Module Checker.
Import Abi.

Definition amp_helper_allowed (id : Z) : bool := (id =? 1) || (id =? 2).

Definition AMP_STACK_BYTES : Z := 512.

Definition COST_ALU : Z := 1.
Definition COST_BRANCH : Z := 2.
Definition COST_MEM : Z := 4.
Definition COST_LDDW : Z := 2.

Definition amp_helper_cost (id : Z) : Z := if id =? 1 then 60 else if id =? 2 then 12 else 0.

(** [struct regv]: [known] is 0, 1 or 2. *)
Inductive regv := Unknown | Const (v : Z) | Stack.

Inductive reason :=
| BadLength
| LocalCall
| HelperDenied (id : Z)
| OutsideStack (off : Z)
| OutsideIvars (addr : Z)
| Unverifiable
| AddressingMode (mode : Z)
| LdForm
| BackwardBranch (off : Z)
| UnknownAlu
| OutsideSubset.

Inductive verdict := Accept (cost : Z) | Reject (insn : nat) (why : reason) | Undefined (insn : nat).

Definition check_addr `{Board} (base : regv) (off : Z) : option reason :=
  match base with
  | Stack => if (off <? - AMP_STACK_BYTES) || (0 <=? off) then Some (OutsideStack off) else None
  | Const v =>
      let addr := u64 (v + off) in
      if (AMP_IVARS_BASE <=? addr) && (addr <? AMP_IVARS_BASE + AMP_IVARS_SIZE) then None
      else Some (OutsideIvars addr)
  | Unknown => Some Unverifiable
  end.

(** A decoded instruction: the immediate and the offset are signed. *)
Record insn := mk_insn { opcode : Z; dst : Z; src : Z; off : Z; imm : Z }.

Definition byte (text : list Z) (k : nat) : Z := nth k text 0.

Definition word32 (text : list Z) (k : nat) : Z :=
  Z.lor (Z.lor (byte text k) (Z.shiftl (byte text (k + 1)) 8))
    (Z.lor (Z.shiftl (byte text (k + 2)) 16) (Z.shiftl (byte text (k + 3)) 24)).

Definition decode (text : list Z) (i : nat) : insn :=
  let b := (i * 8)%nat in
  mk_insn (byte text b) (Z.land (byte text (b + 1)) 0xf)
    (Z.land (Z.shiftr (byte text (b + 1)) 4) 0xf)
    (sgn 16 (Z.lor (byte text (b + 2)) (Z.shiftl (byte text (b + 3)) 8)))
    (sgn 32 (word32 text (b + 4))).

Definition cls (i : insn) : Z := Z.land (opcode i) 0x07.
Definition mode (i : insn) : Z := Z.land (opcode i) 0xe0.

Definition get (reg : list regv) (r : Z) : option regv := nth_error reg (Z.to_nat r).
Definition set (reg : list regv) (r : Z) (v : regv) : list regv := upd reg (Z.to_nat r) v.

(** The 64-bit immediate of the two-slot load; a missing second slot reads as 0. *)
Definition lddw_val (text : list Z) (n i : nat) : Z :=
  let lo := u32 (imm (decode text i)) in
  let hi := if (i + 1 <? n)%nat then word32 text ((i + 1) * 8 + 4) else 0 in
  Z.lor lo (Z.shiftl hi 32).

Definition clobber (reg : list regv) : list regv := repeat Unknown 6 ++ skipn 6 reg.

Inductive outcome := Continue (reg : list regv) (cost : Z) (next : nat) | Refuse (why : reason) | OutOfBounds.

(** Branches, other arithmetic, and the refusal of everything else. *)
Definition check_tail (x : insn) (i : nat) (reg : list regv) : outcome :=
  if (cls x =? 5) || (cls x =? 6) then
    if off x <? 0 then Refuse (BackwardBranch (off x)) else Continue reg COST_BRANCH (i + 1)
  else if (cls x =? 4) || (cls x =? 7) then
    if 0xd0 <? Z.land (opcode x) 0xf0 then Refuse UnknownAlu
    else Continue (set reg (dst x) Unknown) COST_ALU (i + 1)
  else Refuse OutsideSubset.

(** One iteration of the walk at instruction [i]; [cost] is what it adds. *)
Definition check_insn `{Board} (text : list Z) (n i : nat) (reg : list regv) : outcome :=
  let x := decode text i in
  let op := opcode x in
  if op =? 0x18 then Continue (set reg (dst x) (Const (lddw_val text n i))) COST_LDDW (i + 2)
  else if op =? 0x85 then
    if src x =? 1 then Refuse LocalCall
    else if negb (amp_helper_allowed (imm x)) then Refuse (HelperDenied (imm x))
    else Continue (clobber reg) (amp_helper_cost (imm x)) (i + 1)
  else if op =? 0x95 then Continue reg 0 (i + 1)
  else if (cls x =? 0) || (cls x =? 1) || (cls x =? 2) || (cls x =? 3) then
    if negb (mode x =? 0x60) then Refuse (AddressingMode (mode x))
    else if cls x =? 1 then
      match get reg (src x) with
      | None => OutOfBounds
      | Some base =>
          match check_addr base (off x) with
          | Some w => Refuse w
          | None => Continue (set reg (dst x) Unknown) COST_MEM (i + 1)
          end
      end
    else if (cls x =? 2) || (cls x =? 3) then
      match get reg (dst x) with
      | None => OutOfBounds
      | Some base =>
          match check_addr base (off x) with
          | Some w => Refuse w
          | None => Continue reg COST_MEM (i + 1)
          end
      end
    else Refuse LdForm
  else if (op =? 0xb7) || (op =? 0xb4) then
    Continue (set reg (dst x) (Const (if op =? 0xb7 then u64 (imm x) else u32 (imm x)))) COST_ALU (i + 1)
  else if (op =? 0xbf) || (op =? 0xbc) then
    if dst x <? 11 then
      match get reg (src x) with
      | None => OutOfBounds
      | Some v => Continue (set reg (dst x) v) COST_ALU (i + 1)
      end
    else Continue reg COST_ALU (i + 1)
  else
    match (if (op =? 0x07) || (op =? 0x04) then get reg (dst x) else None) with
    | Some (Const v) => Continue (set reg (dst x) (Const (u64 (v + imm x)))) COST_ALU (i + 1)
    | _ => check_tail x i reg
    end.

Definition entry_regs : list regv := repeat Unknown 10 ++ [Stack].

(** The walk; [n] instructions need at most [n] iterations. *)
Fixpoint walk `{Board} (fuel : nat) (text : list Z) (n i : nat) (reg : list regv) (cost : Z) : verdict :=
  match fuel with
  | O => Accept cost
  | S f =>
      if (n <=? i)%nat then Accept cost
      else
        match check_insn text n i reg with
        | Continue reg' c next => walk f text n next reg' (u32 (cost + c))
        | Refuse w => Reject i w
        | OutOfBounds => Undefined i
        end
  end.

Definition insns (text : list Z) : nat := (length text / 8)%nat.

Definition amp_check_text `{Board} (text : list Z) : verdict :=
  if negb ((length text mod 8 =? 0)%nat) then Reject 0 BadLength
  else walk (insns text) text (insns text) 0 entry_regs 0.

(** The verdict of [main]: the exit code after a successful read of [.text]. *)
Definition amp_check_exit `{Board} (text : list Z) (max_cost : Z) (cost_only : bool) : option Z :=
  match amp_check_text text with
  | Undefined _ => None
  | Reject _ _ => Some 1
  | Accept cost =>
      if cost_only then Some 0
      else if (0 <=? max_cost) && (max_cost <? cost) then Some 1
      else Some 0
  end.

End Checker.

(** The instruction set (RFC 9669) on a core with 32-bit addresses.  Loaded
    values, call results, the results of arithmetic other than moves and constant
    additions, and the outcome of conditional branches are left open: the relation
    contains every concrete behaviour. *)
Module Isa.
Import Abi Checker.

Record bpf := mk_bpf { pc : nat; regs : list Z }.

Record access := mk_access { a_addr : Z; a_width : Z }.

Definition width (i : insn) : Z :=
  let s := Z.land (opcode i) 0x18 in
  if s =? 0x00 then 4 else if s =? 0x08 then 2 else if s =? 0x10 then 1 else 8.

Definition rget (s : bpf) (r : Z) : Z := nth (Z.to_nat r) (regs s) 0.
Definition rset (s : bpf) (r v : Z) : list Z := upd (regs s) (Z.to_nat r) (u64 v).

Definition is_mov_reg (i : insn) : bool := (opcode i =? 0xbf) || (opcode i =? 0xbc).
Definition is_mov_imm (i : insn) : bool := (opcode i =? 0xb7) || (opcode i =? 0xb4).
Definition is_add_imm (i : insn) : bool := (opcode i =? 0x07) || (opcode i =? 0x04).
Definition is_alu (i : insn) : bool := (cls i =? 4) || (cls i =? 7).
Definition is_mem (i : insn) : bool := (mode i =? 0x60) && ((cls i =? 1) || (cls i =? 2) || (cls i =? 3)).
Definition is_branch (i : insn) : bool :=
  ((cls i =? 5) || (cls i =? 6)) && negb (opcode i =? 0x85) && negb (opcode i =? 0x95).

(** Where a branch goes: [gotol] (0x06) takes its distance from the immediate. *)
Definition target (i : nat) (x : insn) : Z :=
  Z.of_nat i + 1 + (if opcode x =? 0x06 then imm x else off x).

Definition trunc32 (op v : Z) : Z := if (op =? 0xbc) || (op =? 0x04) || (op =? 0xb4) then u32 v else v.

Section Steps.
Context (text : list Z).

Inductive bstep (s : bpf) : list access -> bpf -> Prop :=
| b_lddw x : (pc s + 1 < insns text)%nat -> x = decode text (pc s) -> opcode x = 0x18 -> dst x < 11 ->
    bstep s [] (mk_bpf (pc s + 2) (rset s (dst x) (lddw_val text (insns text) (pc s))))
| b_call x rs : (pc s < insns text)%nat -> x = decode text (pc s) -> opcode x = 0x85 ->
    length rs = 6%nat -> bstep s [] (mk_bpf (pc s + 1) (rs ++ skipn 6 (regs s)))
| b_load x v : (pc s < insns text)%nat -> x = decode text (pc s) -> is_mem x = true -> cls x = 1 ->
    dst x < 11 -> src x < 11 ->
    bstep s [mk_access (u32 (rget s (src x) + off x)) (width x)] (mk_bpf (pc s + 1) (rset s (dst x) v))
| b_store x : (pc s < insns text)%nat -> x = decode text (pc s) -> is_mem x = true ->
    cls x = 2 \/ cls x = 3 -> dst x < 11 ->
    bstep s [mk_access (u32 (rget s (dst x) + off x)) (width x)] (mk_bpf (pc s + 1) (regs s))
| b_mov_imm x : (pc s < insns text)%nat -> x = decode text (pc s) -> is_mov_imm x = true -> dst x < 11 ->
    bstep s [] (mk_bpf (pc s + 1) (rset s (dst x) (trunc32 (opcode x) (imm x))))
| b_mov_reg x : (pc s < insns text)%nat -> x = decode text (pc s) -> is_mov_reg x = true -> off x = 0 ->
    dst x < 11 -> src x < 11 ->
    bstep s [] (mk_bpf (pc s + 1) (rset s (dst x) (trunc32 (opcode x) (rget s (src x)))))
| b_mov_sx x v : (pc s < insns text)%nat -> x = decode text (pc s) -> is_mov_reg x = true -> off x <> 0 ->
    dst x < 11 -> src x < 11 -> bstep s [] (mk_bpf (pc s + 1) (rset s (dst x) v))
| b_add_imm x : (pc s < insns text)%nat -> x = decode text (pc s) -> is_add_imm x = true -> dst x < 11 ->
    bstep s [] (mk_bpf (pc s + 1) (rset s (dst x) (trunc32 (opcode x) (rget s (dst x) + imm x))))
| b_alu x v : (pc s < insns text)%nat -> x = decode text (pc s) -> is_alu x = true ->
    is_mov_imm x = false -> is_mov_reg x = false -> is_add_imm x = false -> dst x < 11 ->
    bstep s [] (mk_bpf (pc s + 1) (rset s (dst x) v))
| b_taken x : (pc s < insns text)%nat -> x = decode text (pc s) -> is_branch x = true ->
    0 <= target (pc s) x -> bstep s [] (mk_bpf (Z.to_nat (target (pc s) x)) (regs s))
| b_not_taken x : (pc s < insns text)%nat -> x = decode text (pc s) -> is_branch x = true ->
    opcode x <> 0x05 -> opcode x <> 0x06 -> bstep s [] (mk_bpf (pc s + 1) (regs s)).

(** A run: the instructions it executes and the accesses it makes. *)
Inductive run : list nat -> bpf -> list access -> bpf -> Prop :=
| run0 s : run [] s [] s
| runS t s s1 s2 a b : bstep s a s1 -> run t s1 b s2 -> run (pc s :: t) s (a ++ b) s2.

End Steps.

(** The machine at entry: eleven registers, the frame pointer in r10. *)
Definition entry (fp : Z) (rs : list Z) : bpf := mk_bpf 0 (rs ++ [fp]).

(** In the frame below [fp], or in the instance variables. *)
Definition in_frame (fp a : Z) : Prop := exists o, - AMP_STACK_BYTES <= o < 0 /\ a = u32 (fp + o).
Definition in_ivars `{Board} (a : Z) : Prop := AMP_IVARS_BASE <= a < AMP_IVARS_BASE + AMP_IVARS_SIZE.

(** The instructions the walk looks at: a two-slot load skips its second slot. *)
Fixpoint walked (fuel : nat) (text : list Z) (n i : nat) : list nat :=
  match fuel with
  | O => []
  | S f => if (n <=? i)%nat then []
           else i :: walked f text n (if opcode (decode text i) =? 0x18 then i + 2 else i + 1)
  end.

Definition starts (text : list Z) : list nat := walked (insns text) text (insns text) 0.

End Isa.

Module CheckerSound.
Import Abi Checker Isa.

Section Sound.
Context `{B : Board}.
Context (text : list Z).
Local Abbreviation n := (insns text).

(** ** What the walk visits *)

(** Where the walk goes after instruction [i]. *)
Definition nxt (i : nat) : nat := if opcode (decode text i) =? 0x18 then (i + 2)%nat else (i + 1)%nat.

Definition insn_cost (x : insn) : Z :=
  if opcode x =? 0x18 then COST_LDDW
  else if opcode x =? 0x85 then amp_helper_cost (imm x)
  else if opcode x =? 0x95 then 0
  else if (cls x =? 0) || (cls x =? 1) || (cls x =? 2) || (cls x =? 3) then COST_MEM
  else if (cls x =? 5) || (cls x =? 6) then COST_BRANCH
  else COST_ALU.

Ltac split_check E :=
  repeat match type of E with
  | (if ?b then _ else _) = _ => destruct b eqn:?; try discriminate
  | match ?m with _ => _ end = _ => destruct m eqn:?; try discriminate
  end.

Lemma check_next i reg reg' k nx : check_insn text n i reg = Continue reg' k nx -> nx = nxt i.
Proof. unfold check_insn, check_tail, nxt. intros E. split_check E; now inv E. Qed.

(** The walk accepts only if it could interpret every instruction it visits. *)
Lemma walk_visits fuel : forall i reg cost c, walk fuel text n i reg cost = Accept c ->
  forall j, In j (walked fuel text n i) ->
  exists rg rg' k nx, check_insn text n j rg = Continue rg' k nx.
Proof.
  induction fuel as [|f IH]; intros i reg cost c H j Hj; [destruct Hj|].
  cbn [walk walked] in *. destruct (n <=? i)%nat; [destruct Hj|].
  destruct (check_insn text n i reg) as [reg' k nx| |] eqn:E; try discriminate.
  destruct Hj as [<-|Hj]; [eauto 6|].
  apply (IH nx reg' (u32 (cost + k)) c H). unfold nxt in Hj.
  rewrite (check_next _ _ _ _ _ E) in *. assumption.
Qed.

(** The instructions an accepted program may contain. *)
Definition admissible (x : insn) : Prop :=
  opcode x = 0x18 \/ opcode x = 0x95 \/
  (opcode x = 0x85 /\ src x <> 1 /\ (imm x = 1 \/ imm x = 2)) \/
  is_mem x = true \/
  (is_alu x = true /\ (Z.land (opcode x) 0xf0 <= 0xd0)) \/
  (is_branch x = true /\ 0 <= off x).

Lemma tail_admissible x i reg reg' k nx : opcode x <> 0x85 -> opcode x <> 0x95 ->
  check_tail x i reg = Continue reg' k nx -> admissible x.
Proof.
  unfold check_tail, admissible, is_alu, is_branch. intros H1%Z.eqb_neq H2%Z.eqb_neq.
  destruct ((cls x =? 5) || (cls x =? 6)).
  - destruct (Z.ltb_spec (off x) 0); [discriminate|]. rewrite H1, H2. cbn [andb negb]. tauto.
  - destruct ((cls x =? 4) || (cls x =? 7)); [|discriminate].
    destruct (Z.ltb_spec 0xd0 (Z.land (opcode x) 0xf0)); [discriminate|]. tauto.
Qed.

(** Moves and constant additions are arithmetic. *)
Lemma alu_admissible x op op' : (opcode x =? op) || (opcode x =? op') = true ->
  (op = 0xb7 /\ op' = 0xb4) \/ (op = 0xbf /\ op' = 0xbc) \/ (op = 0x07 /\ op' = 0x04) -> admissible x.
Proof.
  intros H%orb_true_iff Hop. rewrite !Z.eqb_eq in H. unfold admissible, is_alu, cls. do 4 right. left.
  destruct H as [->| ->]; destruct Hop as [[-> ->]|[[-> ->]|[-> ->]]]; vm_compute; split; congruence.
Qed.

Lemma continue_admissible i reg reg' k nx : check_insn text n i reg = Continue reg' k nx ->
  admissible (decode text i).
Proof.
  unfold check_insn. set (x := decode text i).
  destruct (Z.eqb_spec (opcode x) 0x18); [unfold admissible; auto|].
  destruct (Z.eqb_spec (opcode x) 0x85) as [E|E85].
  { destruct (Z.eqb_spec (src x) 1); [discriminate|]. destruct (amp_helper_allowed (imm x)) eqn:Ea; [|discriminate].
    intros _. do 2 right. left. apply orb_true_iff in Ea. rewrite !Z.eqb_eq in Ea. auto. }
  destruct (Z.eqb_spec (opcode x) 0x95) as [E|E95]; [unfold admissible; auto|].
  destruct ((cls x =? 0) || (cls x =? 1) || (cls x =? 2) || (cls x =? 3)).
  { destruct (mode x =? 0x60) eqn:M; [|discriminate]. cbn [negb]. intros H. do 3 right. left.
    unfold is_mem. rewrite M. cbn [andb]. destruct (cls x =? 1); [reflexivity|].
    destruct ((cls x =? 2) || (cls x =? 3)) eqn:E23; [|discriminate]. now rewrite orb_false_l. }
  destruct ((opcode x =? 0xb7) || (opcode x =? 0xb4)) eqn:E1; [intros _; apply (alu_admissible x _ _ E1); auto|].
  destruct ((opcode x =? 0xbf) || (opcode x =? 0xbc)) eqn:E2; [intros _; apply (alu_admissible x _ _ E2); auto|].
  destruct ((opcode x =? 0x07) || (opcode x =? 0x04)) eqn:E3; [|now apply tail_admissible].
  intros _. apply (alu_admissible x _ _ E3). auto.
Qed.

Lemma admissible_branch x : admissible x -> is_branch x = true -> 0 <= off x.
Proof.
  unfold admissible. intros H Hb.
  destruct H as [E|[E|[[E _]|[E|[[E _]|[_ E]]]]]]; [| | | | |exact E]; exfalso;
    unfold is_branch, is_mem, is_alu, cls, mode in *.
  1-3: rewrite E in Hb; discriminate Hb.
  all: repeat rewrite ?andb_true_iff, ?orb_true_iff, ?Z.eqb_eq in *; lia.
Qed.

(** ** What one accepted iteration did, by kind of instruction *)

Section Kinds.
Context (i : nat) (reg reg' : list regv) (k : Z) (nx : nat).
Hypothesis Hc : check_insn text n i reg = Continue reg' k nx.
Local Abbreviation x := (decode text i).

Lemma kind_lddw : opcode x = 0x18 -> reg' = set reg (dst x) (Const (lddw_val text n i)) /\ nx = (i + 2)%nat.
Proof. intros E. unfold check_insn in Hc. rewrite E in Hc. cbn -[decode get set wrap] in Hc. now inv Hc. Qed.

Lemma kind_call : opcode x = 0x85 -> reg' = clobber reg /\ nx = (i + 1)%nat.
Proof.
  intros E. unfold check_insn in Hc. rewrite E in Hc. cbn -[decode get set wrap] in Hc.
  destruct (src x =? 1); [discriminate|]. destruct (negb _); [discriminate|]. now inv Hc.
Qed.

Lemma mem_opcode : is_mem x = true -> opcode x <> 0x18 /\ opcode x <> 0x85 /\ opcode x <> 0x95.
Proof.
  unfold is_mem, mode, cls. intros H. repeat split; intros E; rewrite E in H; discriminate H.
Qed.

Lemma kind_mem : is_mem x = true -> nx = (i + 1)%nat /\
  exists base, get reg (if cls x =? 1 then src x else dst x) = Some base /\
    check_addr base (off x) = None /\
    reg' = if cls x =? 1 then set reg (dst x) Unknown else reg.
Proof.
  intros H. destruct (mem_opcode H) as (H1 & H2 & H3).
  apply Z.eqb_neq in H1, H2, H3. unfold check_insn in Hc. rewrite H1, H2, H3 in Hc.
  unfold is_mem in H. apply andb_true_iff in H. destruct H as [Hm Hk]. rewrite Hm in Hc. cbn [negb] in Hc.
  assert (Hor : (cls x =? 0) || (cls x =? 1) || (cls x =? 2) || (cls x =? 3) = true)
    by (rewrite <- !orb_assoc, (orb_assoc (cls x =? 1)), Hk; apply orb_true_r).
  rewrite Hor in Hc. destruct (cls x =? 1).
  - destruct (get reg (src x)) as [base|]; [|discriminate].
    destruct (check_addr base (off x)) eqn:Ea; [discriminate|]. inv Hc. eauto.
  - rewrite orb_false_l in Hk. rewrite Hk in Hc. destruct (get reg (dst x)) as [base|]; [|discriminate].
    destruct (check_addr base (off x)) eqn:Ea; [discriminate|]. inv Hc. eauto.
Qed.

Lemma kind_mov_imm : is_mov_imm x = true -> nx = (i + 1)%nat /\
  reg' = set reg (dst x) (Const (if opcode x =? 0xb7 then u64 (imm x) else u32 (imm x))).
Proof.
  intros [E|E]%orb_true_iff; apply Z.eqb_eq in E; unfold check_insn, cls in Hc; rewrite E in *;
    cbn -[decode get set wrap] in Hc; now inv Hc.
Qed.

Lemma kind_mov_reg : is_mov_reg x = true -> dst x < 11 -> nx = (i + 1)%nat /\
  exists v, get reg (src x) = Some v /\ reg' = set reg (dst x) v.
Proof.
  intros [E|E]%orb_true_iff Hd%Z.ltb_lt; apply Z.eqb_eq in E; unfold check_insn, cls in Hc; rewrite E in *;
    cbn -[decode get set wrap] in Hc; rewrite Hd in Hc; destruct (get reg (src x)) as [v|]; try discriminate; inv Hc; eauto.
Qed.

Lemma kind_add_imm : is_add_imm x = true -> nx = (i + 1)%nat /\
  reg' = set reg (dst x) (match get reg (dst x) with Some (Const v) => Const (u64 (v + imm x)) | _ => Unknown end).
Proof.
  intros [E|E]%orb_true_iff; apply Z.eqb_eq in E; unfold check_insn, check_tail, cls in Hc; rewrite E in *;
    cbn -[decode get set wrap] in Hc; destruct (get reg (dst x)) as [[| |]|]; now inv Hc.
Qed.

Lemma kind_alu : is_alu x = true -> is_mov_imm x = false -> is_mov_reg x = false -> is_add_imm x = false ->
  nx = (i + 1)%nat /\ reg' = set reg (dst x) Unknown.
Proof.
  intros Ha H1 H2 H3. unfold check_insn, check_tail in Hc.
  unfold is_mov_imm in H1. unfold is_mov_reg in H2. unfold is_add_imm in H3. rewrite H1, H2, H3 in Hc.
  unfold is_alu in Ha.
  assert (Ho : (opcode x =? 0x18) = false /\ (opcode x =? 0x85) = false /\ (opcode x =? 0x95) = false).
  { unfold cls in Ha. rewrite !Z.eqb_neq. repeat split; intros E; rewrite E in Ha; discriminate Ha. }
  destruct Ho as (O1 & O2 & O3). rewrite O1, O2, O3 in Hc.
  assert (Hm : (cls x =? 0) || (cls x =? 1) || (cls x =? 2) || (cls x =? 3) = false /\
               (cls x =? 5) || (cls x =? 6) = false)
    by (apply orb_true_iff in Ha; rewrite !Z.eqb_eq in Ha; destruct Ha as [->| ->]; auto).
  destruct Hm as [M1 M2]. rewrite M1, M2, Ha in Hc. destruct (0xd0 <? _); [discriminate|]. now inv Hc.
Qed.

End Kinds.

(** ** The constant tracker agrees with the machine, modulo the address width *)

Definition val_ok (fp : Z) (v : regv) (w : Z) : Prop :=
  match v with
  | Unknown => True
  | Const c => u32 w = u32 c
  | Stack => u32 w = u32 fp
  end.

Definition agree (fp : Z) (reg : list regv) (s : bpf) : Prop :=
  length reg = 11%nat /\ length (regs s) = 11%nat /\
  forall r v, nth_error reg r = Some v -> val_ok fp v (nth r (regs s) 0).

Lemma u32_u64 a : u32 (u64 a) = u32 a.
Proof. unfold wrap. apply Z.mod_mod_divide. exists (2 ^ 32). reflexivity. Qed.

Lemma reg_field_range b : 0 <= Z.land b 0xf < 16.
Proof.
  change 0xf with (Z.ones 4). rewrite Z.land_ones by lia. apply (Z.mod_pos_bound b 16). lia.
Qed.

Lemma dst_range i : 0 <= dst (decode text i) < 16.
Proof. apply reg_field_range. Qed.

Lemma src_range i : 0 <= src (decode text i) < 16.
Proof. apply reg_field_range. Qed.

Lemma agree_set fp reg s r v w p : agree fp reg s -> 0 <= r < 11 -> val_ok fp v (u64 w) ->
  agree fp (set reg r v) (mk_bpf p (rset s r w)).
Proof.
  intros (L1 & L2 & H) Hr Hv. unfold agree, set, rset; simpl regs. rewrite !length_upd.
  split; [assumption|]. split; [assumption|]. intros j v' Hj.
  destruct (Nat.eq_dec j (Z.to_nat r)) as [->|Hne].
  - rewrite nth_upd_eq by lia. rewrite nth_error_upd_eq in Hj by lia. now inv Hj.
  - rewrite nth_upd_ne by auto. rewrite nth_error_upd_ne in Hj by auto. now apply H.
Qed.

Lemma agree_set_unknown fp reg s r w p : agree fp reg s -> 0 <= r < 11 ->
  agree fp (set reg r Unknown) (mk_bpf p (rset s r w)).
Proof. intros. apply agree_set; auto. exact I. Qed.

Lemma agree_move fp reg s p : agree fp reg s -> agree fp reg (mk_bpf p (regs s)).
Proof. intros H. exact H. Qed.

Lemma agree_clobber fp reg s rs p : agree fp reg s -> length rs = 6%nat ->
  agree fp (clobber reg) (mk_bpf p (rs ++ skipn 6 (regs s))).
Proof.
  intros (L1 & L2 & H) Hl. unfold agree, clobber; cbn [regs].
  split; [rewrite length_app, length_skipn, repeat_length; lia|].
  split; [rewrite length_app, length_skipn; lia|]. intros r v Hr.
  destruct (Nat.lt_ge_cases r 6) as [Hlt|Hge].
  - rewrite nth_error_app1 in Hr by (rewrite repeat_length; lia).
    apply nth_error_In, repeat_spec in Hr. subst v. exact I.
  - rewrite nth_error_app2 in Hr by (rewrite repeat_length; lia). rewrite repeat_length in Hr.
    rewrite app_nth2 by lia. rewrite Hl, nth_skipn. rewrite nth_error_skipn in Hr.
    replace (6 + (r - 6))%nat with r in * by lia. now apply H.
Qed.

Lemma agree_get fp reg s r v : agree fp reg s -> get reg r = Some v -> val_ok fp v (rget s r).
Proof. intros (_ & _ & H) Hg. now apply H. Qed.

(** An address the checker accepted is in the frame or among the variables. *)
Definition safe (fp : Z) (a : access) : Prop := in_frame fp (a_addr a) \/ in_ivars (a_addr a).

Lemma check_addr_safe fp base w o wd : layout_ok -> check_addr base o = None -> val_ok fp base w ->
  safe fp (mk_access (u32 (w + o)) wd).
Proof.
  intros L Hc Hv. unfold safe; simpl a_addr. destruct base as [|c|]; cbn [check_addr val_ok] in Hc, Hv;
    [discriminate| |].
  - right. destruct ((AMP_IVARS_BASE <=? u64 (c + o)) && (u64 (c + o) <? AMP_IVARS_BASE + AMP_IVARS_SIZE)) eqn:E;
      [|discriminate]. bools. unfold in_ivars.
    pose proof (lo_32bit L) as H32. rewrite Forall_forall in H32.
    specialize (H32 ivars_region ltac:(simpl; auto)). cbn [fst snd ivars_region] in H32.
    rewrite <- wrap_add_l, Hv, wrap_add_l, <- u32_u64, (wrap_small 32 (u64 (c + o))); lia.
  - left. destruct ((o <? - AMP_STACK_BYTES) || (0 <=? o)) eqn:E; [discriminate|]. bools.
    exists o. split; [lia|]. now rewrite <- wrap_add_l, Hv, wrap_add_l.
Qed.

(** One step, not a branch, keeps the tracker right and touches only safe memory. *)
Lemma step_sound fp reg reg' k nx s a s' : layout_ok -> agree fp reg s ->
  check_insn text n (pc s) reg = Continue reg' k nx ->
  is_branch (decode text (pc s)) = false ->
  (is_mov_reg (decode text (pc s)) = true -> off (decode text (pc s)) = 0) ->
  bstep text s a s' -> agree fp reg' s' /\ pc s' = nx /\ Forall (safe fp) a.
Proof.
  intros L Ha Hc Hb Hm Hs. pose proof (dst_range (pc s)) as Hd. pose proof (src_range (pc s)) as Hsr.
  destruct Hs; subst x; try congruence.
  - destruct (kind_lddw _ _ _ _ _ Hc H1) as [-> ->]. split; [|auto].
    apply agree_set; [assumption|lia|]. simpl. apply u32_u64.
  - destruct (kind_call _ _ _ _ _ Hc H1) as [-> ->]. split; [now apply agree_clobber|auto].
  - destruct (kind_mem _ _ _ _ _ Hc H1) as (-> & base & Hg & Hck & ->).
    rewrite H2 in Hg |- *. rewrite Z.eqb_refl in *. split; [apply agree_set_unknown; auto; lia|].
    split; [reflexivity|]. constructor; [|constructor]. eapply check_addr_safe; eauto using agree_get.
  - destruct (kind_mem _ _ _ _ _ Hc H1) as (-> & base & Hg & Hck & ->).
    assert (E : (cls (decode text (pc s)) =? 1) = false) by (destruct H2 as [->| ->]; reflexivity).
    rewrite E in *. split; [assumption|].
    split; [reflexivity|]. constructor; [|constructor]. eapply check_addr_safe; eauto using agree_get.
  - destruct (kind_mov_imm _ _ _ _ _ Hc H1) as [-> ->]. split; [|auto].
    apply agree_set; [assumption|lia|]. cbn [val_ok]. unfold trunc32.
    apply orb_true_iff in H1. rewrite !Z.eqb_eq in H1.
    destruct H1 as [->| ->]; cbn; rewrite ?u32_u64, ?wrap_wrap by lia; reflexivity.
  - destruct (kind_mov_reg _ _ _ _ _ Hc H1 H3) as (-> & v & Hg & ->). split; [|auto].
    apply agree_set; [assumption|lia|]. pose proof (agree_get _ _ _ _ _ Ha Hg) as Hv.
    assert (Et : u32 (u64 (trunc32 (opcode (decode text (pc s))) (rget s (src (decode text (pc s)))))) =
                 u32 (rget s (src (decode text (pc s)))))
      by (rewrite u32_u64; unfold trunc32; case_if; rewrite ?wrap_wrap by lia; reflexivity).
    destruct v; cbn [val_ok] in *; [exact I| |]; now rewrite Et.
  - now specialize (Hm H1).
  - destruct (kind_add_imm _ _ _ _ _ Hc H1) as [-> ->]. split; [|auto].
    apply agree_set; [assumption|lia|].
    destruct (get reg (dst (decode text (pc s)))) as [[|c|]|] eqn:Hg; try exact I.
    pose proof (agree_get _ _ _ _ _ Ha Hg) as Hv. cbn [val_ok] in *. rewrite !u32_u64.
    assert (Et : forall y, u32 (trunc32 (opcode (decode text (pc s))) y) = u32 y)
      by (intros y; unfold trunc32; case_if; rewrite ?wrap_wrap by lia; reflexivity).
    rewrite Et, <- wrap_add_l, Hv, wrap_add_l. reflexivity.
  - destruct (kind_alu _ _ _ _ _ Hc H1 H2 H3 H4) as [-> ->]. split; [|auto].
    apply agree_set_unknown; auto; lia.
Qed.

Lemma bstep_lt s a s' : bstep text s a s' -> (pc s < n)%nat.
Proof. intros H; destruct H; lia. Qed.

Lemma run_sound fp t s a s' : layout_ok -> run text t s a s' -> forall fuel reg cost c,
  (n - pc s <= fuel)%nat -> walk fuel text n (pc s) reg cost = Accept c -> agree fp reg s ->
  (forall j, In j (walked fuel text n (pc s)) ->
     is_branch (decode text j) = false /\ (is_mov_reg (decode text j) = true -> off (decode text j) = 0)) ->
  Forall (safe fp) a.
Proof.
  intros L Hr. induction Hr as [|t s s1 s2 a b Hs Hr IH]; intros fuel reg cost c Hf Hw Ha Hp; [constructor|].
  pose proof (bstep_lt _ _ _ Hs) as Hlt. destruct fuel as [|f]; [lia|].
  cbn [walk walked] in *. destruct (Nat.leb_spec n (pc s)); [lia|].
  destruct (check_insn text n (pc s) reg) as [reg' k nx| |] eqn:Ec; try discriminate.
  destruct (Hp (pc s) (or_introl eq_refl)) as [Hb Hm].
  destruct (step_sound fp reg reg' k nx s a s1 L Ha Ec Hb Hm Hs) as (Ha' & Hpc & Hsafe).
  apply Forall_app. split; [assumption|]. subst nx.
  pose proof (check_next _ _ _ _ _ Ec) as Hnx. unfold nxt in Hnx.
  apply (IH f reg' (u32 (cost + k)) c); auto.
  - rewrite Hnx. destruct (opcode _ =? 0x18); lia.
  - intros j Hj. apply Hp. right. now rewrite <- Hnx.
Qed.

Lemma entry_agree fp rs : length rs = 10%nat -> agree fp entry_regs (entry fp rs).
Proof.
  intros Hl. unfold agree, entry; cbn [regs]. rewrite length_app, Hl. split; [reflexivity|]. split; [reflexivity|].
  intros r v Hr. unfold entry_regs in Hr. destruct (Nat.lt_ge_cases r 10) as [Hlt|Hge].
  - rewrite nth_error_app1 in Hr by (rewrite repeat_length; lia).
    apply nth_error_In, repeat_spec in Hr. subst v. exact I.
  - rewrite nth_error_app2 in Hr by (rewrite repeat_length; lia). rewrite repeat_length in Hr.
    destruct (r - 10)%nat as [|m] eqn:E; [|destruct m; discriminate]. inv Hr.
    replace r with 10%nat by lia. rewrite app_nth2 by lia. rewrite Hl. reflexivity.
Qed.

(** C5: if the checker accepts a program without branches and without
    sign-extending moves (moves between registers with a nonzero offset, which the
    checker tracks as plain copies: [accepted_sx_store]), every load and store it
    ever makes starts inside its own 512-byte frame or inside the instance
    variables, whatever the inputs and the helpers' results. *)
Theorem straight_line_confined c fp rs t a s' :
  layout_ok -> amp_check_text text = Accept c -> length rs = 10%nat ->
  (forall j, In j (starts text) ->
     is_branch (decode text j) = false /\ (is_mov_reg (decode text j) = true -> off (decode text j) = 0)) ->
  run text t (entry fp rs) a s' -> Forall (safe fp) a.
Proof.
  intros L Hc Hl Hp Hr. unfold amp_check_text in Hc. case_if; [discriminate|].
  apply (run_sound fp t (entry fp rs) a s' L Hr n entry_regs 0 c); auto using entry_agree. simpl. lia.
Qed.

(** In an accepted program every instruction the walk reaches is one it
    knows: a two-slot load, an exit, a call to helper 1 or 2, a plain memory
    access, arithmetic with a defined operation, or a forward branch. *)
Theorem accepted_admissible c : amp_check_text text = Accept c ->
  forall j, In j (starts text) -> admissible (decode text j).
Proof.
  intros Hc j Hj. unfold amp_check_text in Hc. case_if; [discriminate|].
  destruct (walk_visits _ _ _ _ _ Hc j Hj) as (rg & rg' & k & nx & H). now apply continue_admissible in H.
Qed.

(** ** Running time *)

Lemma alu_not_branch x op : opcode x = op -> (Z.land op 7 =? 5) || (Z.land op 7 =? 6) = false ->
  (cls x =? 5) || (cls x =? 6) = false.
Proof. intros <- H. exact H. Qed.

Lemma check_cost i reg reg' k nx : check_insn text n i reg = Continue reg' k nx ->
  k = insn_cost (decode text i).
Proof.
  unfold check_insn, check_tail, insn_cost. intros E. split_check E; inv E; try reflexivity;
    repeat match goal with
    | H : (opcode ?x =? ?a) || (opcode ?x =? ?b) = true |- _ =>
        apply orb_true_iff in H; rewrite !Z.eqb_eq in H; destruct H as [H|H];
        rewrite (alu_not_branch _ _ H eq_refl)
    | H : context [if ?b then get _ _ else None] |- _ => destruct b eqn:?; try discriminate
    end; try reflexivity.
Qed.

Definition total (l : list nat) : Z := fold_right (fun j acc => insn_cost (decode text j) + acc) 0 l.

Lemma insn_cost_range x : 0 <= insn_cost x <= 60.
Proof.
  unfold insn_cost, amp_helper_cost, COST_LDDW, COST_MEM, COST_BRANCH, COST_ALU.
  repeat case_if; lia.
Qed.

Lemma total_range l : 0 <= total l <= 60 * Z.of_nat (length l).
Proof.
  induction l as [|j l IH]; [simpl; lia|]. pose proof (insn_cost_range (decode text j)).
  cbn [total fold_right length]. fold (total l). lia.
Qed.

Lemma walk_total fuel : forall i reg cost c, walk fuel text n i reg (u32 cost) = Accept c ->
  c = u32 (cost + total (walked fuel text n i)).
Proof.
  induction fuel as [|f IH]; intros i reg cost c H; cbn [walk walked] in *.
  - inv H. simpl. now rewrite Z.add_0_r.
  - destruct (n <=? i)%nat; [inv H; simpl; now rewrite Z.add_0_r|].
    destruct (check_insn text n i reg) as [reg' k nx| |] eqn:E; try discriminate.
    rewrite wrap_add_l in H. apply IH in H. rewrite H, (check_cost _ _ _ _ _ E), (check_next _ _ _ _ _ E).
    fold (nxt i). cbn [total fold_right]. fold (total (walked f text n (nxt i))). f_equal. lia.
Qed.

Lemma walked_next fuel : forall i, (n - i <= fuel)%nat -> forall j, In j (walked fuel text n i) ->
  (i <= j < n)%nat /\ (In (nxt j) (walked fuel text n i) \/ (n <= nxt j)%nat).
Proof.
  induction fuel as [|f IH]; intros i Hf j Hj; [destruct Hj|].
  cbn [walked] in *. destruct (Nat.leb_spec n i); [destruct Hj|]. fold (nxt i) in *.
  assert (Hgt : (i < nxt i)%nat) by (unfold nxt; case_if; lia).
  destruct Hj as [<-|Hj].
  - split; [lia|]. destruct (Nat.lt_ge_cases (nxt i) n) as [Hlt|Hge]; [|auto].
    left. right. destruct f as [|f']; [unfold nxt in *; destruct (opcode _ =? _); lia|].
    cbn [walked]. destruct (Nat.leb_spec n (nxt i)); [lia|]. now left.
  - destruct (IH (nxt i) ltac:(lia) j Hj) as [H1 H2]. split; [lia|]. destruct H2; [left; now right|auto].
Qed.

Lemma length_walked fuel i : (length (walked fuel text n i) <= fuel)%nat.
Proof.
  revert i; induction fuel as [|f IH]; intros i; cbn [walked]; [simpl; lia|].
  destruct (n <=? i)%nat; cbn [length]; [lia|]. fold (nxt i). specialize (IH (nxt i)). lia.
Qed.

(** Branches land on instructions the walk looked at (or leave the program), and
    none is the long form whose distance the walk does not read. *)
Definition well_targeted : Prop := forall j, In j (starts text) -> is_branch (decode text j) = true ->
  opcode (decode text j) <> 0x06 /\
  (In (Z.to_nat (target j (decode text j))) (starts text) \/ (n <= Z.to_nat (target j (decode text j)))%nat).

Lemma branch_opcode x : is_branch x = true -> opcode x <> 0x18.
Proof. unfold is_branch, cls. intros H E. rewrite E in H. discriminate H. Qed.

Lemma bstep_pc s a s' : bstep text s a s' ->
  pc s' = nxt (pc s) \/
  (is_branch (decode text (pc s)) = true /\ pc s' = Z.to_nat (target (pc s) (decode text (pc s)))).
Proof.
  assert (E18 : forall x, opcode x <> 0x18 -> (opcode x =? 0x18) = false) by (intros; now apply Z.eqb_neq).
  intros H. destruct H; subst; cbn [pc]; try (left; unfold nxt; rewrite E18; [reflexivity|]).
  - left. unfold nxt. now rewrite H1.
  - congruence.
  - apply mem_opcode in H1. tauto.
  - apply mem_opcode in H1. tauto.
  - intros E. unfold is_mov_imm in H1. rewrite E in H1. discriminate.
  - intros E. unfold is_mov_reg in H1. rewrite E in H1. discriminate.
  - intros E. unfold is_mov_reg in H1. rewrite E in H1. discriminate.
  - intros E. unfold is_add_imm in H1. rewrite E in H1. discriminate.
  - intros E. unfold is_alu, cls in H1. rewrite E in H1. discriminate.
  - auto.
  - now apply branch_opcode.
Qed.

(** A run only ever moves forward, over instructions the walk looked at. *)
Lemma run_forward c t s a s' : amp_check_text text = Accept c -> well_targeted ->
  run text t s a s' -> In (pc s) (starts text) \/ (n <= pc s)%nat ->
  incl t (starts text) /\ NoDup t /\ Forall (fun j => (pc s <= j)%nat) t.
Proof.
  intros Hc Hw Hr. induction Hr as [|t s s1 s2 a b Hs Hr IH]; intros Hin.
  { repeat split; [intros j []|constructor|constructor]. }
  pose proof (bstep_lt _ _ _ Hs) as Hlt. destruct Hin as [Hin|Hge]; [|lia].
  assert (Hnext : (In (pc s1) (starts text) \/ (n <= pc s1)%nat) /\ (pc s < pc s1)%nat).
  { destruct (bstep_pc _ _ _ Hs) as [->|[Hb ->]].
    - split; [|unfold nxt; case_if; lia].
      apply (walked_next n 0 ltac:(lia) (pc s) Hin).
    - destruct (Hw _ Hin Hb) as [H06 Ht]. split; [exact Ht|].
      assert (Ho : 0 <= off (decode text (pc s))).
      { unfold amp_check_text in Hc. case_if; [discriminate|].
        destruct (walk_visits _ _ _ _ _ Hc _ Hin) as (rg & rg' & k & nx & Hk).
        apply continue_admissible in Hk. apply admissible_branch; assumption. }
      apply Z.eqb_neq in H06. unfold target. rewrite H06. lia. }
  destruct Hnext as [Hin1 Hlt1]. destruct (IH Hin1) as (Hi & Hn & Hf).
  rewrite Forall_forall in Hf.
  split; [|split].
  - intros j [<-|Hj]; [assumption|now apply Hi].
  - constructor; [|assumption]. intros Hj. apply Hf in Hj. lia.
  - constructor; [lia|]. apply Forall_forall. intros j Hj. apply Hf in Hj. lia.
Qed.

Lemma total_app l1 l2 : total (l1 ++ l2) = total l1 + total l2.
Proof.
  induction l1 as [|j l1 IH]; [reflexivity|]. cbn [app total fold_right]. fold (total (l1 ++ l2)) (total l1). lia.
Qed.

Lemma total_incl t : forall l, NoDup t -> incl t l -> total t <= total l.
Proof.
  induction t as [|j t IH]; intros l Hn Hi; [simpl; apply total_range|].
  inv Hn. destruct (in_split j l (Hi j (or_introl eq_refl))) as (l1 & l2 & ->).
  assert (H : incl t (l1 ++ l2)).
  { intros i Hin. assert (i <> j) by (intros ->; contradiction).
    specialize (Hi i (or_intror Hin)). rewrite in_app_iff in *. destruct Hi as [|[|]]; [auto|congruence|auto]. }
  specialize (IH _ H2 H). rewrite total_app in IH |- *. cbn [total fold_right]. fold (total t) (total l2). lia.
Qed.

Lemma starts_entry : In 0%nat (starts text) \/ (n <= 0)%nat.
Proof.
  unfold starts. destruct n as [|m] eqn:E; [auto|]. left. simpl. auto.
Qed.

(** C20: take an accepted program whose branches, the long one not among them, land
    on instructions of the walk; the checker does not test this itself, and without it
    an accepted program may loop ([accepted_infinite_loop]).  Every run from the entry
    executes each instruction at most once and only instructions the walk looked at,
    so it is at most as long as the program; and when the program is short enough for
    the 32-bit sum not to wrap (60 times its length below 2^32), the static cost the
    checker reports bounds the cost of everything the run executes. *)
Theorem accepted_bounded c fp rs t a s' :
  amp_check_text text = Accept c -> well_targeted -> length rs = 10%nat ->
  run text t (entry fp rs) a s' ->
  NoDup t /\ incl t (starts text) /\ (length t <= n)%nat /\ (60 * Z.of_nat n < 2 ^ 32 -> total t <= c).
Proof.
  intros Hc Hw Hl Hr.
  destruct (run_forward c t _ a s' Hc Hw Hr starts_entry) as (Hi & Hn & _).
  pose proof (length_walked n 0) as Hlen. split; [exact Hn|]. split; [exact Hi|]. split.
  - pose proof (NoDup_incl_length Hn Hi). unfold starts in *. lia.
  - intros Hb. unfold amp_check_text in Hc. case_if; [discriminate|].
    change (walk n text n 0 entry_regs (u32 0) = Accept c) in Hc. apply walk_total in Hc. rewrite Z.add_0_l in Hc.
    pose proof (total_range (walked n text n 0)). rewrite wrap_small in Hc by lia. subst c.
    now apply total_incl.
Qed.

End Sound.

(** ** Witnesses *)

#[local] Existing Instance imx95m7.

Definition enc (op dst src off imm : Z) : list Z :=
  [op; Z.lor dst (Z.shiftl src 4); u8 off; u8 (Z.shiftr off 8);
   u8 imm; u8 (Z.shiftr imm 8); u8 (Z.shiftr imm 16); u8 (Z.shiftr imm 24)].

(** [r6 = IVARS; r1 = *(u64 * )(r6 + 8); call emit; exit]. *)
Definition sample_program : list Z :=
  enc 0xb7 6 0 0 0x2003FF00 ++ enc 0x79 1 6 8 0 ++ enc 0x85 0 0 0 1 ++ enc 0x95 0 0 0 0.

Lemma imx_layout_ok : layout_ok.
Proof. solve_layout. Defined.

Lemma sample_accepted : amp_check_text sample_program = Accept 65.
Proof. vm_compute. reflexivity. Defined.

Lemma run_cons text p t s a s1 b s2 c : bstep text s a s1 -> run text t s1 b s2 -> pc s = p -> a ++ b = c ->
  run text (p :: t) s c s2.
Proof. intros Hs Hr <- <-. econstructor; eauto. Qed.

(** [now_step c] takes the step of constructor [c] and leaves the rest of the run. *)
Ltac side := first [reflexivity | vm_compute; reflexivity | vm_compute; discriminate | vm_compute; solve [repeat constructor]].
Tactic Notation "now_step" uconstr(c) := eapply run_cons; [eapply c; side| |reflexivity|reflexivity].

Definition sample_regs : list Z := repeat 77 10.

Lemma sample_run : exists s', run sample_program [0; 1]%nat (entry 0x20001000 sample_regs)
  [mk_access 0x2003FF08 8] s'.
Proof. eexists. now_step b_mov_imm. now_step (b_load _ _ _ 5). apply run0. Defined.

Lemma straight_line_confined_witness : Forall (safe 0x20001000) [mk_access 0x2003FF08 8].
Proof.
  destruct sample_run as [s' H].
  apply (straight_line_confined sample_program 65 0x20001000 sample_regs [0; 1]%nat _ s'
           imx_layout_ok sample_accepted eq_refl); [|exact H].
  intros j Hj. vm_compute in Hj. repeat (destruct Hj as [<-|Hj]; [split; [reflexivity|discriminate]|]).
  destruct Hj.
Defined.

Lemma accepted_admissible_witness : admissible (decode sample_program 2).
Proof. apply (accepted_admissible sample_program 65 sample_accepted). vm_compute. auto. Defined.

Lemma accepted_bounded_witness : total sample_program [0; 1]%nat <= 65.
Proof.
  destruct sample_run as [s' H].
  apply (accepted_bounded sample_program 65 0x20001000 sample_regs [0; 1]%nat [mk_access 0x2003FF08 8] s'
    sample_accepted); [|reflexivity|exact H|vm_compute; reflexivity].
  intros j Hj. vm_compute in Hj. repeat (destruct Hj as [<-|Hj]; [discriminate|]). destruct Hj.
Defined.

(** ** What acceptance does not guarantee *)

(** [goto +1; r1 = IVARS; *(u64 * )(r1 + 0) = r0; exit]. *)
Definition skip_const : list Z :=
  enc 0x05 0 0 1 0 ++ enc 0xb7 1 0 0 0x2003FF00 ++ enc 0x7b 1 0 0 0 ++ enc 0x95 0 0 0 0.

(** the tracker follows the text, not the control flow.  A program that
    branches over the load of its base register is accepted, and it stores at
    whatever address the register held on entry. *)
Theorem accepted_wild_store v fp :
  amp_check_text skip_const = Accept 7 /\
  exists s', run skip_const [0; 2]%nat (entry fp [0; u64 v; 0; 0; 0; 0; 0; 0; 0; 0]) [mk_access (u32 v) 8] s'.
Proof.
  split; [vm_compute; reflexivity|]. eexists. now_step b_taken.
  eapply run_cons; [eapply (b_store _ _ (decode skip_const 2)); [side|side|side|right; side|side]|apply run0|reflexivity|].
  cbn [app]. do 2 f_equal. change (rget _ _) with (u64 v). change (off _) with 0. rewrite Z.add_0_r. apply u32_u64.
Qed.

(** [goto +1; r0 = <64-bit load whose second slot is "call 99">; exit]. *)
Definition hidden_call : list Z :=
  enc 0x05 0 0 1 0 ++ enc 0x18 0 0 0 0 ++ enc 0x85 0 0 0 99 ++ enc 0x95 0 0 0 0.

(** The second slot of a 64-bit load is never inspected, although a branch
    may land on it: an accepted program executes a call to a helper that is not on
    the allowlist. *)
Theorem accepted_hidden_call fp rs :
  amp_check_text hidden_call = Accept 4 /\ ~ In 2%nat (starts hidden_call) /\
  exists s', run hidden_call [0; 2]%nat (entry fp rs) [] s' /\
    opcode (decode hidden_call 2) = 0x85 /\ amp_helper_allowed (imm (decode hidden_call 2)) = false.
Proof.
  split; [vm_compute; reflexivity|]. split; [vm_compute; intuition discriminate|].
  eexists. split; [|split; vm_compute; reflexivity].
  now_step b_taken. eapply run_cons; [eapply (b_call _ _ _ (repeat 0 6)); side|apply run0|reflexivity|reflexivity].
Qed.

(** [gotol -1]: the distance is in the immediate, the offset is 0. *)
Definition gotol_self : list Z := enc 0x06 0 0 0 (-1).

(** The long unconditional branch takes its distance from the immediate,
    which the walk does not read: a one-instruction infinite loop is accepted at
    cost 2, and it has runs of every length. *)
Theorem accepted_infinite_loop k s : pc s = 0%nat ->
  amp_check_text gotol_self = Accept 2 /\
  exists t s', run gotol_self t s [] s' /\ length t = k.
Proof.
  intros Hs. split; [vm_compute; reflexivity|].
  revert s Hs. induction k as [|k IH]; intros s Hs; [exists [], s; split; [constructor|reflexivity]|].
  destruct s as [p r]. simpl in Hs. subst p.
  destruct (IH (mk_bpf 0 r) eq_refl) as (t & s' & Hr & Hl). exists (0%nat :: t), s'.
  split; [|simpl; congruence].
  eapply run_cons; [eapply (b_taken _ _ (decode gotol_self 0)); side|exact Hr|reflexivity|reflexivity].
Qed.

(** [*(u64 * )(r10 - 1) = r0; exit] and [*(u64 * )(IVARS + 255) = r0; exit]. *)
Definition wide_stack : list Z := enc 0x7b 10 0 (-1) 0 ++ enc 0x95 0 0 0 0.
Definition wide_ivar : list Z := enc 0xb7 1 0 0 0x2003FF00 ++ enc 0x7b 1 0 255 0 ++ enc 0x95 0 0 0 0.

(** The range check ignores the width of the access: accepted programs write
    seven bytes past the frame pointer and seven bytes past the instance
    variables. *)
Theorem accepted_wide_store :
  amp_check_text wide_stack = Accept 4 /\ amp_check_text wide_ivar = Accept 5 /\
  (exists s', run wide_stack [0]%nat (entry 0x20001000 sample_regs) [mk_access 0x20000FFF 8] s') /\
  (exists s', run wide_ivar [0; 1]%nat (entry 0x20001000 sample_regs) [mk_access 0x2003FFFF 8] s').
Proof.
  split; [vm_compute; reflexivity|]. split; [vm_compute; reflexivity|]. split; eexists.
  - eapply run_cons; [eapply (b_store _ _ (decode wide_stack 0)); [side|side|side|right; side|side]|apply run0|side|side].
  - now_step b_mov_imm.
    eapply run_cons; [eapply (b_store _ _ (decode wide_ivar 1)); [side|side|side|right; side|side]|apply run0|side|side].
Qed.

(** [r1 = (s8)r10; *(u64 * )(r1 - 8) = r0; exit]. *)
Definition sx_frame : list Z := enc 0xbf 1 10 8 0 ++ enc 0x7b 1 0 (-8) 0 ++ enc 0x95 0 0 0 0.

(** The tracker takes a sign-extending move (the offset gives the width) for a copy:
    a program that narrows the frame pointer to its low byte is accepted, and stores
    near address 0 instead of into its frame. *)
Theorem accepted_sx_store :
  amp_check_text sx_frame = Accept 5 /\
  exists s', run sx_frame [0; 1]%nat (entry 0x20001040 sample_regs) [mk_access (u32 (sgn 8 0x20001040 - 8)) 8] s'.
Proof.
  split; [vm_compute; reflexivity|]. eexists. now_step (b_mov_sx _ _ _ (u64 (sgn 8 0x20001040))).
  eapply run_cons; [eapply (b_store _ _ (decode sx_frame 1)); [side|side|side|right; side|side]|apply run0|side|side].
Qed.

(** The walk does not refuse every instruction it cannot interpret: jump
    operations the instruction set does not define, an indirect call, and a
    program with no exit (the empty one included) are accepted; and a register
    field above 10 makes it read past the array of tracked registers. *)
Theorem accepted_outside_subset :
  amp_check_text (enc 0xe5 0 0 0 0) = Accept 2 /\ amp_check_text (enc 0x8d 0 0 0 0) = Accept 2 /\
  amp_check_text [] = Accept 0 /\
  amp_check_text (enc 0xbf 1 11 0 0) = Undefined 0 /\ amp_check_text (enc 0x79 1 15 0 0) = Undefined 0.
Proof. repeat split; vm_compute; reflexivity. Qed.

End CheckerSound.
