(* ===== verification/CgAmp.v ===== *)
(** * Code generation for the real-time core

    [src/src/codegen_c/spinel_ebpf_cc.c]: the instance variables of a probe and the
    trigger of each handler.

    - [Ivars]: the registry [g_amp_ivars] ([amp_ivar_slot], the real-time branch of
      [cc_ivar_map]) as explicit state, and how it meets the bytecode checker
      (AmpCheck.v) and the loader (AmpRuntime.v): a variable's word is in the window
      the checker admits and is zero after an install.
    - [Triggers]: the trigger a handler's name denotes and the trigger table. *)

From S2P Require Import Prelude CText CgText CgIr CgConst AmpRing AmpAbi AmpRuntime AmpCheck.

Module Ivars.
Import CNames Abi.

(** [g_amp_ivars]: the names in the order of their slots. *)
Definition registry := list text.

Fixpoint find_slot (reg : registry) (bare : text) (i : nat) : option nat :=
  match reg with
  | [] => None
  | x :: reg' => if text_eqb x bare then Some i else find_slot reg' bare (S i)
  end.

(** [None]: the generator gives up, the registry being full. *)
Definition amp_ivar_slot (iv : text) (reg : registry) : option (nat * registry) :=
  let bare := strip_at iv in
  match find_slot reg bare 0 with
  | Some i => Some (i, reg)
  | None => if (64 <=? length reg)%nat then None else Some (length reg, reg ++ [bare])
  end.

(** [cc_ivar_map] when [g_amp] is set: an lvalue expression.  The name has already
    lost its sign when [amp_ivar_slot] looks for it again. *)
Definition ivar_expr (slot : nat) : text :=
  lit "(*(volatile __u32 *)(SPNL_AMP_IVARS_BASE + " ++ dec_s (4 * Z.of_nat slot) ++ lit "u))".

Definition cc_ivar_map_amp (ivar : text) (reg : registry) : option (text * registry) :=
  match amp_ivar_slot (strip_at ivar) reg with
  | Some (slot, reg') => Some (ivar_expr slot, reg')
  | None => None
  end.

(** The value of [amp_ivars_size] in the manifest. *)
Definition amp_ivars_size (reg : registry) : Z := u32 (Z.of_nat (length reg) * 4).

(** The references of a whole program, in the order they are lowered. *)
Fixpoint refer (refs : list text) (reg : registry) : option (list text * registry) :=
  match refs with
  | [] => Some ([], reg)
  | r :: refs' =>
      match cc_ivar_map_amp r reg with
      | None => None
      | Some (e, reg1) =>
          match refer refs' reg1 with Some (l, reg2) => Some (e :: l, reg2) | None => None end
      end
  end.

(** ** The registry *)

Definition reg_ok (reg : registry) : Prop := NoDup reg /\ (length reg <= 64)%nat.

Lemma find_slot_spec reg bare i k : find_slot reg bare i = Some k ->
  (i <= k)%nat /\ nth_error reg (k - i) = Some bare.
Proof.
  revert i; induction reg as [|x reg IH]; intros i H; [discriminate|]. simpl in H.
  destruct (text_eqb_spec x bare) as [->|].
  - injection H as <-. split; [lia|]. now rewrite Nat.sub_diag.
  - destruct (IH _ H) as [Hk Hn]. split; [lia|]. now replace (k - i)%nat with (S (k - S i)) by lia.
Qed.

Lemma find_slot_none reg bare i : find_slot reg bare i = None <-> ~ In bare reg.
Proof.
  revert i; induction reg as [|x reg IH]; intros i; simpl; [tauto|].
  destruct (text_eqb_spec x bare) as [->|Hx]; [intuition discriminate|].
  rewrite IH. tauto.
Qed.

Lemma amp_ivar_slot_ok iv reg i reg' : reg_ok reg -> amp_ivar_slot iv reg = Some (i, reg') ->
  reg_ok reg' /\ (exists new, reg' = reg ++ new) /\ nth_error reg' i = Some (strip_at iv) /\
  (forall x, In x reg' <-> In x reg \/ x = strip_at iv).
Proof.
  intros [Hd Hl] H. unfold amp_ivar_slot in H. destruct (find_slot reg (strip_at iv) 0) as [k|] eqn:E.
  - injection H as <- <-. destruct (find_slot_spec _ _ _ _ E) as [_ Hn]. rewrite Nat.sub_0_r in Hn.
    repeat split; auto; [exists []; now rewrite app_nil_r|].
    intros [Hx| ->]; [exact Hx|]. now apply nth_error_In in Hn.
  - destruct (Nat.leb_spec 64 (length reg)); [discriminate|]. injection H as <- <-.
    apply find_slot_none in E. repeat split.
    + apply NoDup_app; [exact Hd|constructor; [tauto|constructor]|]. now intros x Hx [<-|[]].
    + rewrite length_app. simpl. lia.
    + now eexists.
    + rewrite nth_error_app2, Nat.sub_diag by lia. reflexivity.
    + rewrite in_app_iff. simpl. intuition.
    + rewrite in_app_iff. simpl. intuition.
Qed.

Lemma amp_ivar_slot_full iv reg : reg_ok reg ->
  amp_ivar_slot iv reg = None <-> ~ In (strip_at iv) reg /\ length reg = 64%nat.
Proof.
  intros [_ Hl]. unfold amp_ivar_slot. destruct (find_slot reg (strip_at iv) 0) as [k|] eqn:E.
  - split; [discriminate|]. intros [Hn _]. apply (find_slot_none reg _ 0) in Hn. congruence.
  - apply find_slot_none in E. destruct (Nat.leb_spec 64 (length reg)); intuition (congruence || lia).
Qed.

(** A Ruby instance variable: one sign, then the name. *)
Definition ivar_name (r : text) : Prop := exists x, r = "@"%char :: x /\ hd_error x <> Some "@"%char.

Lemma strip_ivar r : ivar_name r -> strip_at (strip_at r) = strip_at r.
Proof.
  intros (x & -> & Hx). simpl. destruct x as [|c x]; [reflexivity|]. simpl.
  destruct (Ascii.eqb_spec c "@"); [subst; simpl in Hx; congruence|reflexivity].
Qed.

Lemma strip_ivar_inj r r' : ivar_name r -> ivar_name r' -> strip_at r = strip_at r' -> r = r'.
Proof. intros (x & -> & _) (y & -> & _). simpl. congruence. Qed.

Lemma ivar_expr_inj i j : ivar_expr i = ivar_expr j -> i = j.
Proof.
  unfold ivar_expr. intros H. apply app_inv_head, app_inv_tail in H. apply (f_equal atoi) in H.
  rewrite !atoi_dec_s in H. lia.
Qed.

Lemma refer_ok refs : Forall ivar_name refs -> forall reg l reg', reg_ok reg -> refer refs reg = Some (l, reg') ->
  reg_ok reg' /\ (exists new, reg' = reg ++ new) /\
  Forall2 (fun r e => exists i, e = ivar_expr i /\ nth_error reg' i = Some (strip_at r)) refs l /\
  (forall x, In x reg' <-> In x reg \/ In x (map strip_at refs)).
Proof.
  induction 1 as [|r refs Hn _ IH]; intros reg l reg' Hr H; cbn [refer] in H.
  - injection H as <- <-. repeat split; try apply Hr; auto; [exists []; now rewrite app_nil_r|simpl; tauto].
  - unfold cc_ivar_map_amp in H. destruct (amp_ivar_slot (strip_at r) reg) as [[i reg1]|] eqn:E; [|discriminate].
    destruct (refer refs reg1) as [[l2 reg2]|] eqn:E2; [|discriminate]. injection H as <- <-.
    destruct (amp_ivar_slot_ok _ _ _ _ Hr E) as (H1 & (n1 & ->) & Hi & Hm). rewrite strip_ivar in Hi, Hm by assumption.
    destruct (IH _ _ _ H1 E2) as (H2 & (n2 & ->) & Hf & Hm2).
    split; [exact H2|]. split; [exists (n1 ++ n2); now rewrite app_assoc|]. split.
    + constructor; [|exact Hf]. exists i. split; [reflexivity|].
      rewrite nth_error_app1; [exact Hi|]. apply nth_error_Some. congruence.
    + intros x. rewrite Hm2, Hm. simpl. intuition.
Qed.

Lemma refer_full refs : Forall ivar_name refs -> forall reg, reg_ok reg -> refer refs reg = None ->
  exists l, NoDup l /\ length l = 65%nat /\ incl l (reg ++ map strip_at refs).
Proof.
  induction 1 as [|r refs Hn _ IH]; intros reg Hr H; cbn [refer] in H; [discriminate|].
  unfold cc_ivar_map_amp in H. destruct (amp_ivar_slot (strip_at r) reg) as [[i reg1]|] eqn:E.
  - destruct (refer refs reg1) as [[l2 reg2]|] eqn:E2; [discriminate|].
    destruct (amp_ivar_slot_ok _ _ _ _ Hr E) as (H1 & _ & _ & Hm). rewrite strip_ivar in Hm by assumption.
    destruct (IH _ H1 E2) as (l & Hd & Hl & Hi). exists l. repeat split; auto.
    intros x Hx. specialize (Hi x Hx). rewrite in_app_iff, Hm in Hi. rewrite in_app_iff. simpl. intuition.
  - apply amp_ivar_slot_full in E as [Hni Hl]; [|exact Hr]. rewrite strip_ivar in Hni by assumption.
    exists (strip_at r :: reg). repeat split; [constructor; [exact Hni|apply Hr]|simpl; lia|].
    intros x [<-|Hx]; rewrite in_app_iff; simpl; auto.
Qed.

(** The number of instance variables a program mentions. *)
Definition distinct (refs : list text) : nat := length (nodup (list_eq_dec ascii_dec) refs).

Lemma distinct_map refs : Forall ivar_name refs -> distinct refs = length (nodup (list_eq_dec ascii_dec) (map strip_at refs)).
Proof.
  intros H. unfold distinct. rewrite <- (length_map strip_at (nodup _ refs)). apply Nat.le_antisymm; apply NoDup_incl_length.
  - apply NoDup_map_NoDup_ForallPairs; [|apply NoDup_nodup].
    intros a b Ha Hb. rewrite nodup_In in Ha, Hb. rewrite Forall_forall in H. apply strip_ivar_inj; auto.
  - intros x Hx. apply in_map_iff in Hx as (r & <- & Hr). rewrite nodup_In in Hr |- *. now apply in_map.
  - apply NoDup_nodup.
  - intros x Hx. rewrite nodup_In in Hx. apply in_map_iff in Hx as (r & <- & Hr). apply in_map. now apply nodup_In.
Qed.

Lemma registry_distinct refs l reg : Forall ivar_name refs -> refer refs [] = Some (l, reg) ->
  length reg = distinct refs.
Proof.
  intros H E. destruct (refer_ok refs H [] l reg) as ((Hd & _) & _ & _ & Hm); [split; [constructor|simpl; lia]|exact E|].
  rewrite distinct_map by assumption. apply Nat.le_antisymm; apply NoDup_incl_length; auto using NoDup_nodup.
  - intros x Hx. apply nodup_In. apply Hm in Hx. simpl in Hx. tauto.
  - intros x Hx. apply nodup_In in Hx. apply Hm. auto.
Qed.

Lemma amp_ivars_size_length reg : reg_ok reg -> amp_ivars_size reg = 4 * Z.of_nat (length reg).
Proof. intros [_ H]. unfold amp_ivars_size. rewrite wrap_small; lia. Qed.

Section Sound.
Context `{B : Board}.

(** The word of a slot, and its bytes. *)
Definition ivar_addr (slot : nat) : Z := AMP_IVARS_BASE + 4 * Z.of_nat slot.

Lemma ivar_addr_checked reg i k : layout_ok -> reg_ok reg -> (i < length reg)%nat -> 0 <= k < 4 ->
  Checker.check_addr (Checker.Const (ivar_addr i)) k = None.
Proof.
  intros L [_ H] Hi Hk. pose proof (lo_baked L) as Hb. inversion_clear Hb as [|? ? _ Hb']. inversion_clear Hb' as [|? ? Hiv _].
  unfold bit31_clear, ivars_region, AMP_IVARS_SIZE in Hiv. cbn [fst snd] in Hiv.
  unfold Checker.check_addr, ivar_addr, AMP_IVARS_SIZE. rewrite wrap_small by lia.
  rewrite (proj2 (Z.leb_le _ _)), (proj2 (Z.ltb_lt _ _)) by lia. reflexivity.
Qed.

(** What one program's references are promised. *)
Definition ivars_promise (refs exprs : list text) (reg : registry) : Prop :=
  Forall2 (fun r e => exists i, e = ivar_expr i /\ nth_error reg i = Some (strip_at r) /\
    4 * Z.of_nat i + 4 <= amp_ivars_size reg /\
    forall k, 0 <= k < 4 -> Checker.check_addr (Checker.Const (ivar_addr i)) k = None) refs exprs.

(** C39: the instance variables of a probe fit what the real-time core gives it.  The
    generator gives up exactly when a program has more than 64 of them; otherwise
    two references are compiled to the same word exactly when they name the same
    variable, every byte of the word passes the bytecode checker and lies in the
    first [amp_ivars_size] bytes of the carveout, four for each variable, which are
    at most the [AMP_IVARS_SIZE] the board reserves. *)
Theorem amp_ivars_sound refs : layout_ok -> Forall ivar_name refs ->
  match refer refs [] with
  | None => (64 < distinct refs)%nat
  | Some (exprs, reg) =>
      (distinct refs <= 64)%nat /\ amp_ivars_size reg = 4 * Z.of_nat (distinct refs) /\
      amp_ivars_size reg <= AMP_IVARS_SIZE /\ ivars_promise refs exprs reg /\
      forall i j r r' e e', nth_error refs i = Some r -> nth_error refs j = Some r' ->
        nth_error exprs i = Some e -> nth_error exprs j = Some e' -> (r = r' <-> e = e')
  end.
Proof.
  intros L Hn. assert (H0 : reg_ok []) by (split; [constructor|simpl; lia]).
  destruct (refer refs []) as [[exprs reg]|] eqn:E.
  - destruct (refer_ok refs Hn [] exprs reg H0 E) as (Hr & _ & Hf & _).
    pose proof (registry_distinct refs exprs reg Hn E) as Hd. pose proof (amp_ivars_size_length reg Hr) as Hz.
    split; [rewrite <- Hd; apply Hr|]. split; [now rewrite <- Hd|].
    split; [rewrite Hz; destruct Hr as [_ Hr]; unfold AMP_IVARS_SIZE; lia|]. split.
    + eapply Forall2_impl; [|exact Hf]. intros r e (i & -> & Hi). exists i.
      assert (i < length reg)%nat by (apply nth_error_Some; congruence).
      repeat split; auto; [rewrite Hz; lia|]. intros k Hk. now apply (ivar_addr_checked reg).
    + intros i j r r' e e' Hi Hj Hei Hej.
      destruct (Forall2_nth_error _ _ _ _ _ _ Hf Hi Hei) as (s & -> & Hs).
      destruct (Forall2_nth_error _ _ _ _ _ _ Hf Hj Hej) as (s' & -> & Hs').
      rewrite Forall_forall in Hn. split.
      * intros <-. f_equal. destruct Hr as [Hr _]. rewrite NoDup_nth_error in Hr. apply Hr; [|congruence].
        apply nth_error_Some. congruence.
      * intros He%ivar_expr_inj. subst s'. apply strip_ivar_inj; [apply Hn; eapply nth_error_In; eauto..|congruence].
  - destruct (refer_full refs Hn [] H0 E) as (l & Hd & Hl & Hi). rewrite distinct_map by assumption.
    enough (length l <= length (nodup (list_eq_dec ascii_dec) (map strip_at refs)))%nat by lia.
    apply NoDup_incl_length; [exact Hd|]. intros x Hx. apply nodup_In. exact (Hi x Hx).
Qed.

(** A probe never sees another probe's values.  After an install whose command
    carries the [ivars_size] the generator computed, the word of every instance
    variable the new probe mentions is zero, whatever ran before and on either
    slot; the blob's bytes, copied afterwards, do not reach them. *)
Theorem installed_ivars_zero `{I : Machine.Irq} mpu refs exprs reg rec st i r :
  layout_ok -> Forall ivar_name refs -> refer refs [] = Some (exprs, reg) ->
  cmd_type rec = AMP_CMD_INSTALL -> Runtime.install_gate rec = true ->
  cmd_ivars_size rec = amp_ivars_size reg ->
  nth_error reg i = Some (strip_at r) ->
  Machine.read (Machine.mem (Runtime.handle_cmd mpu rec st)) (ivar_addr i) 4 = [0; 0; 0; 0].
Proof.
  intros L Hn E Ht Hg Hz Hi. assert (H0 : reg_ok []) by (split; [constructor|simpl; lia]).
  destruct (refer_ok refs Hn [] exprs reg H0 E) as (Hr & _).
  assert (Hlt : (i < length reg)%nat) by (apply nth_error_Some; congruence).
  destruct (Runtime.handle_install mpu rec st Ht Hg) as (_ & _ & ->).
  destruct (Runtime.layout_slots L) as (_ & Hsi & _).
  destruct (Hsi (if Machine.active st =? 0 then 1 else 0)) as [Hap _]; [case_if; auto|].
  pose proof (Runtime.gate_length rec Hg) as Hgl. rewrite Hz, amp_ivars_size_length by assumption.
  destruct Hr as [_ Hl]. unfold apart, ivars_region, slot_region, AMP_BLOB_MAX, AMP_IVARS_SIZE in Hap. cbn [fst snd] in Hap.
  assert (Hzs : Runtime.zero_size (4 * Z.of_nat (length reg)) = 4 * Z.of_nat (length reg)).
  { unfold Runtime.zero_size, AMP_IVARS_SIZE. destruct (Z.eqb_spec (4 * Z.of_nat (length reg)) 0); [lia|].
    destruct (Z.ltb_spec 256 (4 * Z.of_nat (length reg))); lia. }
  rewrite Hzs. unfold Machine.read, ivar_addr. cbn [seq map].
  repeat (f_equal; try (rewrite Machine.copy_outside, Machine.fill_inside by lia; reflexivity)).
Qed.

End Sound.

(** ** A probe with two variables on the i.MX95 *)

#[local] Existing Instance imx95m7.
#[local] Existing Instance Runtime.mask_irq.

Definition two_ivars : list text := [lit "@n"; lit "@sum"; lit "@n"].

Lemma two_ivars_ok : Forall ivar_name two_ivars.
Proof. repeat (constructor; [eexists; split; [reflexivity|discriminate]|]). constructor. Defined.

Lemma amp_ivars_sound_witness :
  exists reg, refer two_ivars [] = Some ([ivar_expr 0; ivar_expr 1; ivar_expr 0], reg) /\ amp_ivars_size reg = 8.
Proof.
  pose proof (amp_ivars_sound two_ivars Runtime.imx_layout two_ivars_ok) as H.
  exists [lit "n"; lit "sum"]. split; [reflexivity|].
  change (refer two_ivars []) with (Some ([ivar_expr 0; ivar_expr 1; ivar_expr 0], [lit "n"; lit "sum"])) in H.
  exact (proj1 (proj2 H)).
Defined.

Lemma installed_ivars_zero_witness :
  Machine.read (Machine.mem (Runtime.handle_cmd true (Runtime.install_rec 9 8) Runtime.swapping)) (ivar_addr 1) 4 = [0; 0; 0; 0].
Proof.
  apply (installed_ivars_zero true two_ivars [ivar_expr 0; ivar_expr 1; ivar_expr 0] [lit "n"; lit "sum"]
           (Runtime.install_rec 9 8) Runtime.swapping 1 (lit "@sum")); try reflexivity.
  - exact Runtime.imx_layout.
  - exact two_ivars_ok.
Defined.

End Ivars.

(** * Triggers *)

Module Triggers.
Import CNames Ir Partition.

Inductive amp_trig := AMP_TRIG_MANUAL | AMP_TRIG_TIMER | AMP_TRIG_IRQ | AMP_TRIG_CMD.

Definition trig_code (k : amp_trig) : Z :=
  match k with AMP_TRIG_MANUAL => 0 | AMP_TRIG_TIMER => 1 | AMP_TRIG_IRQ => 2 | AMP_TRIG_CMD => 3 end.

Definition amp_all_digits (s : text) : bool := match s with [] => false | _ => forallb is_digit s end.

Definition numbered (prefix name : text) : option text :=
  match strip_prefix prefix name with
  | Some rest => if amp_all_digits rest then Some rest else None
  | None => None
  end.

Definition amp_trigger_of (name : text) : amp_trig * Z :=
  match numbered (lit "timer_") name with
  | Some ms => (AMP_TRIG_TIMER, u32 (strtoul 10 ms))
  | None =>
      match numbered (lit "irq_") name with
      | Some n => (AMP_TRIG_IRQ, u32 (strtoul 10 n))
      | None => if text_eqb name (lit "cmd") then (AMP_TRIG_CMD, 0) else (AMP_TRIG_MANUAL, 0)
      end
  end.

(** A row of [amp_triggers]. *)
Record amp_trigger := mk_trigger { tr_fn : text; tr_kind : amp_trig; tr_param : Z }.

Definition amp_triggers (native : option text) (ir : IR) : list amp_trigger :=
  map (fun me => let fn := cc_func_name me in
                 let '(k, p) := amp_trigger_of fn in mk_trigger fn k p)
    (filter (cc_method_eligible native) (ir_m ir)).

(** The convention, on every number of 32 bits. *)
Lemma numbered_dec p n : 0 <= n -> numbered p (p ++ dec_u n) = Some (dec_u n).
Proof.
  intros H. unfold numbered. rewrite (proj2 (strip_prefix_spec p _ _) eq_refl).
  pose proof (dec_u_digits n H) as Hd. pose proof (dec_u_nonempty n) as Hne.
  unfold amp_all_digits. destruct (dec_u n) as [|c s] eqn:E; [congruence|]. rewrite <- E in *.
  now rewrite (proj2 (forallb_forall _ _) (proj1 (Forall_forall _ _) Hd)).
Qed.

Lemma amp_trigger_of_numbered n : 0 <= n < 2 ^ 32 ->
  amp_trigger_of (lit "timer_" ++ dec_u n) = (AMP_TRIG_TIMER, n) /\
  amp_trigger_of (lit "irq_" ++ dec_u n) = (AMP_TRIG_IRQ, n).
Proof.
  intros H. assert (Hs : u32 (strtoul 10 (dec_u n)) = n).
  { rewrite strtoul_dec by lia. now apply wrap_small. }
  unfold amp_trigger_of. rewrite !numbered_dec by lia. rewrite Hs. auto.
Qed.

(** A number of 2^32 or more is reduced: a timer of 4294967296 ms has period 0. *)
Lemma amp_trigger_wraps : amp_trigger_of (lit "timer_4294967296") = (AMP_TRIG_TIMER, 0).
Proof. reflexivity. Qed.

Lemma amp_trigger_param name : 0 <= snd (amp_trigger_of name) < 2 ^ 32.
Proof.
  unfold amp_trigger_of. destruct (numbered _ name) as [ms|]; [apply wrap_range; lia|].
  destruct (numbered _ name) as [ms|]; [apply wrap_range; lia|]. case_if; simpl; lia.
Qed.

End Triggers.
