(* ===== verification/CgExpr.v ===== *)
(** * C expressions of the code generator

    [src/src/codegen_c/spinel_ebpf_cc.c], [CExpr] and [ce_print]: the structured
    expressions the generator builds and the printer that inserts the parentheses.
    [CgRead] reads the printed text back with C's grammar. *)

From S2P Require Import Prelude CText CgAmp.

Module CExprs.

(** What the generator captures as the text of a primary expression ([CE_RAW]):
    the forms its lowering produces, with their text below. *)
Inductive atom :=
| AInt (z : Z)                        (* a decimal literal *)
| AName (x : text)                    (* a variable, a temporary or a macro *)
| ACapture (x : text)                 (* a captured local of a loop body *)
| ALookup (p : Z)                     (* the value behind a map lookup *)
| AMem (slot : nat)                   (* a word of the carveout *)
| ACallText (t : text).               (* a call, by its text *)

Definition atom_text (a : atom) : text :=
  match a with
  | AInt z => dec_s z
  | AName x => x
  | ACapture x => lit "(*_lc->" ++ x ++ lit ")"
  | ALookup p => lit "(_p" ++ dec_s p ++ lit " ? *_p" ++ dec_s p ++ lit " : 0)"
  | AMem slot => Ivars.ivar_expr slot
  | ACallText t => t
  end.

(** [CE_FLAT e] is the [CE_RAW] that holds the already printed text of [e]. *)
Inductive CExpr :=
| CE_RAW (a : atom)
| CE_FLAT (e : CExpr)
| CE_PAREN (e : CExpr)
| CE_CAST (ty : text) (e : CExpr)
| CE_UNARY (op : text) (e : CExpr)
| CE_BINOP (op : text) (l r : CExpr)
| CE_CALL (callee : text) (args : list CExpr)
| CE_SUBSCRIPT (e i : CExpr).

Definition CE_PREC_CAST : Z := 80.
Definition CE_PREC_UNARY : Z := 80.
Definition CE_PREC_POSTFIX : Z := 90.
Definition CE_PREC_PRIMARY : Z := 100.

Definition binop_precs : list (string * Z) :=
  [("||", 20); ("&&", 25); ("|", 30); ("^", 35); ("&", 40); ("==", 45); ("!=", 45); ("<", 50); ("<=", 50); (">", 50);
   (">=", 50); ("<<", 55); (">>", 55); ("+", 60); ("-", 60); ("*", 70); ("/", 70); ("%", 70)]%string.

(** [None]: the generator gives up. *)
Definition ce_binop_prec (op : text) : option Z :=
  option_map snd (find (fun p => text_eqb (lit (fst p)) op) binop_precs).

(** The strength of a known operator; unknown ones are never printed. *)
Definition prec_of (op : text) : Z := match ce_binop_prec op with Some p => p | None => 0 end.

Definition ce_prec (e : CExpr) : Z :=
  match e with
  | CE_BINOP op _ _ => prec_of op
  | CE_CAST _ _ | CE_UNARY _ _ => CE_PREC_CAST
  | CE_CALL _ _ | CE_SUBSCRIPT _ _ => CE_PREC_POSTFIX
  | CE_RAW _ | CE_FLAT _ | CE_PAREN _ => CE_PREC_PRIMARY
  end.

Definition parens (needs : bool) (s : text) : text := if needs then lit "(" ++ s ++ lit ")" else s.

Fixpoint commas (l : list text) : text :=
  match l with
  | [] => []
  | [x] => x
  | x :: l' => x ++ lit ", " ++ commas l'
  end.

Fixpoint ce_text (e : CExpr) : text :=
  match e with
  | CE_RAW a => atom_text a
  | CE_FLAT e => ce_text e
  | CE_PAREN e => lit "(" ++ ce_text e ++ lit ")"
  | CE_CAST ty e => lit "(" ++ ty ++ lit ")" ++ parens (ce_prec e <? CE_PREC_CAST) (ce_text e)
  | CE_UNARY op e => op ++ parens (ce_prec e <? CE_PREC_UNARY) (ce_text e)
  | CE_BINOP op l r =>
      parens (ce_prec l <? prec_of op) (ce_text l) ++ lit " " ++ op ++ lit " " ++
      parens (ce_prec r <=? prec_of op) (ce_text r)
  | CE_CALL f args => f ++ lit "(" ++ commas (map ce_text args) ++ lit ")"
  | CE_SUBSCRIPT e i => parens (ce_prec e <? CE_PREC_POSTFIX) (ce_text e) ++ lit "[" ++ ce_text i ++ lit "]"
  end.

(** Every operator is known. *)
Fixpoint ops_known (e : CExpr) : bool :=
  match e with
  | CE_RAW _ => true
  | CE_FLAT e | CE_PAREN e | CE_CAST _ e | CE_UNARY _ e => ops_known e
  | CE_BINOP op l r => match ce_binop_prec op with Some _ => ops_known l && ops_known r | None => false end
  | CE_CALL _ args => forallb ops_known args
  | CE_SUBSCRIPT e i => ops_known e && ops_known i
  end.

(** [None]: the generator gives up at an operator it does not know. *)
Definition ce_print (e : CExpr) : option text := if ops_known e then Some (ce_text e) else None.

(** Induction over the argument lists as well. *)
Section Induction.
Variable P : CExpr -> Prop.
Hypothesis Hraw : forall a, P (CE_RAW a).
Hypothesis Hflat : forall e, P e -> P (CE_FLAT e).
Hypothesis Hparen : forall e, P e -> P (CE_PAREN e).
Hypothesis Hcast : forall ty e, P e -> P (CE_CAST ty e).
Hypothesis Hunary : forall op e, P e -> P (CE_UNARY op e).
Hypothesis Hbinop : forall op l r, P l -> P r -> P (CE_BINOP op l r).
Hypothesis Hcall : forall f args, Forall P args -> P (CE_CALL f args).
Hypothesis Hsub : forall e i, P e -> P i -> P (CE_SUBSCRIPT e i).

Fixpoint CExpr_nested_ind (e : CExpr) : P e :=
  match e with
  | CE_RAW a => Hraw a
  | CE_FLAT e => Hflat e (CExpr_nested_ind e)
  | CE_PAREN e => Hparen e (CExpr_nested_ind e)
  | CE_CAST ty e => Hcast ty e (CExpr_nested_ind e)
  | CE_UNARY op e => Hunary op e (CExpr_nested_ind e)
  | CE_BINOP op l r => Hbinop op l r (CExpr_nested_ind l) (CExpr_nested_ind r)
  | CE_CALL f args =>
      Hcall f args ((fix go (l : list CExpr) : Forall P l :=
        match l with [] => Forall_nil P | a :: l' => Forall_cons a (CExpr_nested_ind a) (go l') end) args)
  | CE_SUBSCRIPT e i => Hsub e i (CExpr_nested_ind e) (CExpr_nested_ind i)
  end.
End Induction.

(** ** The tree that is meant *)

Inductive ctree :=
| TrAtom (a : atom)
| TrCast (ty : text) (t : ctree)
| TrUnary (op : text) (t : ctree)
| TrBin (op : text) (l r : ctree)
| TrCall (f : text) (args : list ctree)
| TrIndex (t i : ctree).

(** Parentheses group and nothing else. *)
Fixpoint tree (e : CExpr) : ctree :=
  match e with
  | CE_RAW a => TrAtom a
  | CE_FLAT e | CE_PAREN e => tree e
  | CE_CAST ty e => TrCast ty (tree e)
  | CE_UNARY op e => TrUnary op (tree e)
  | CE_BINOP op l r => TrBin op (tree l) (tree r)
  | CE_CALL f args => TrCall f (map tree args)
  | CE_SUBSCRIPT e i => TrIndex (tree e) (tree i)
  end.

(** Printed text used again as a primary is one, or is enclosed: [top] says that
    the context encloses it. *)
Fixpoint flat_ok (top : bool) (e : CExpr) : Prop :=
  match e with
  | CE_RAW _ => True
  | CE_FLAT e => flat_ok top e /\ (top = true \/ ce_prec e = CE_PREC_PRIMARY)
  | CE_PAREN e => flat_ok true e
  | CE_CAST _ e | CE_UNARY _ e => flat_ok false e
  | CE_BINOP _ l r => flat_ok false l /\ flat_ok false r
  | CE_CALL _ args => fold_right (fun a P => flat_ok true a /\ P) True args
  | CE_SUBSCRIPT e i => flat_ok false e /\ flat_ok true i
  end.

(** Every sufficiently large bound gives the result. *)
Definition ev {A} (F : nat -> A) (r : A) : Prop := exists n, forall f, (n <= f)%nat -> F f = r.

Lemma ev_now {A} (F : nat -> A) r : (forall f, F (S f) = r) -> ev F r.
Proof. intros H. exists 1%nat. intros [|f] Hf; [lia|apply H]. Qed.

Lemma ev_step {A B} (F : nat -> A) (G : nat -> B) (k : B -> nat -> A) b r :
  (forall f, F (S f) = k (G f) f) -> ev G b -> ev (k b) r -> ev F r.
Proof.
  intros H [n Hn] [m Hm]. exists (S (n + m)). intros [|f] Hf; [lia|]. rewrite H, Hn by lia. apply Hm. lia.
Qed.

Lemma ev_const {A} (r : A) : ev (fun _ => r) r.
Proof. now exists O. Qed.

Lemma prec_of_range op : 0 <= prec_of op <= 70.
Proof.
  unfold prec_of, ce_binop_prec. destruct (find _ binop_precs) as [[s p]|] eqn:E; [|simpl; lia].
  apply find_some in E as [H _]. simpl in H |- *. repeat destruct H as [H|H]; try (injection H as _ <-; lia). destruct H.
Qed.

Lemma ce_prec_range e : 0 <= ce_prec e <= 100.
Proof.
  destruct e; cbn [ce_prec]; unfold CE_PREC_CAST, CE_PREC_POSTFIX, CE_PREC_PRIMARY;
    try (pose proof (prec_of_range op)); lia.
Qed.

Lemma flat_ok_top e : flat_ok false e -> flat_ok true e.
Proof. induction e using CExpr_nested_ind; simpl; auto. intuition. Qed.

End CExprs.
