(* ===== verification/CgRead.v ===== *)
(** * Reading the emitted C expressions

    [Lexer] splits text into C's tokens and [Grammar] reads them with the grammar of
    expressions of the C standard; both are written from the standard and know nothing
    of the generator.  [Printed] shows that what [ce_print] of [CgExpr] writes is read
    as the expression that was meant, so that the parentheses it leaves out were not
    needed and those it writes are in the right places. *)

From S2P Require Import Prelude CText CgAmp CgExpr.

(** ** Tokens *)
Module Lexer.

Definition word_char (c : ascii) : bool :=
  let k := code c in
  is_digit c || ((65 <=? k) && (k <=? 90)) || ((97 <=? k) && (k <=? 122)) || (k =? 95).

Definition tok_is (w : text) (s : string) : bool := text_eqb w (lit s).
Definition among (l : list string) (w : text) : bool := existsb (tok_is w) l.

(** The punctuators of more than one character (6.4.6) and the beginnings of comments;
    every beginning of one is one, so the longest is found step by step. *)
Definition long_puncts : list string :=
  ["->"; "++"; "--"; "<<"; ">>"; "<="; ">="; "=="; "!="; "&&"; "||"; "*="; "/="; "%="; "+="; "-="; "<<="; ">>="; "&="; "^=";
   "|="; "##"; "/*"; "//"]%string.

(** The character [c] continues the token [cur]. *)
Definition joins (cur : text) (c : ascii) : bool :=
  match cur with
  | [] => true
  | d :: _ => if word_char d then word_char c else among long_puncts (cur ++ [c])
  end.

Definition flush (cur : text) : list text := match cur with [] => [] | _ => [cur] end.

(** The longest token is taken each time (6.4); [cur] is the one being read. *)
Fixpoint lex_from (cur : text) (s : text) : list text :=
  match s with
  | [] => flush cur
  | c :: s' =>
      if is_space c then flush cur ++ lex_from [] s'
      else if joins cur c then lex_from (cur ++ [c]) s'
      else flush cur ++ lex_from [c] s'
  end.

Definition lex (s : text) : list text := lex_from [] s.

(** A character that is a token of its own wherever it stands. *)
Definition solo (c : ascii) : bool := existsb (Ascii.eqb c) (lit "()[],").

Lemma solo_facts c : solo c = true -> is_space c = false /\ word_char c = false.
Proof.
  unfold solo. cbn [existsb lit list_ascii_of_string]. intros H. repeat (apply orb_true_iff in H as [H|H]; [apply Ascii.eqb_eq in H as ->; now split|]). discriminate.
Qed.

Lemma among_In l w : among l w = true -> exists s, In s l /\ w = lit s.
Proof. unfold among. intros H. apply existsb_exists in H as (s & Hs & E). apply text_eqb_eq in E. eauto. Qed.

(** No longer token has such a character. *)
Lemma solo_starts cur c : solo c = true -> cur <> [] -> joins cur c = false.
Proof.
  intros S N. destruct cur as [|d cur]; [congruence|]. unfold joins. destruct (word_char d); [now apply solo_facts|].
  destruct (among long_puncts ((d :: cur) ++ [c])) eqn:A; [|reflexivity]. exfalso. apply among_In in A as (s & Hs & E).
  assert (In c (lit s)) as I by (rewrite <- E; apply in_or_app; right; now left). clear E.
  assert (forallb (fun s => forallb (fun c => negb (solo c)) (lit s)) long_puncts = true) as F by reflexivity.
  rewrite forallb_forall in F. specialize (F s Hs). rewrite forallb_forall in F. specialize (F c I). now rewrite S in F.
Qed.

Lemma solo_alone c d : solo c = true -> joins [c] d = false.
Proof.
  intros S. unfold joins. rewrite (proj2 (solo_facts c S)). destruct (among long_puncts ([c] ++ [d])) eqn:A; [|reflexivity].
  exfalso. apply among_In in A as (s & Hs & E). assert (In c (lit s)) as I by (rewrite <- E; now left). clear E.
  assert (forallb (fun s => forallb (fun c => negb (solo c)) (lit s)) long_puncts = true) as F by reflexivity.
  rewrite forallb_forall in F. specialize (F s Hs). rewrite forallb_forall in F. specialize (F c I). now rewrite S in F.
Qed.

(** Text ends a token before a space or such a character. *)
Lemma lex_from_break c b : solo c || is_space c = true -> forall a cur, lex_from cur (a ++ c :: b) = lex_from cur a ++ lex_from [] (c :: b).
Proof.
  intros H. induction a as [|d a IH]; intros cur; cbn [app].
  - cbn [lex_from]. destruct (is_space c) eqn:Sp; [reflexivity|]. rewrite orb_false_r in H.
    destruct cur as [|e cur]; [reflexivity|]. now rewrite solo_starts by (auto; discriminate).
  - cbn [lex_from]. destruct (is_space d); [now rewrite IH, app_assoc|]. destruct (joins cur d); [apply IH|]. now rewrite IH, app_assoc.
Qed.

Lemma lex_break a c b : solo c || is_space c = true -> lex (a ++ c :: b) = lex a ++ lex (c :: b).
Proof. intros H. now apply lex_from_break. Qed.

Lemma lex_space b : lex (" "%char :: b) = lex b.
Proof. reflexivity. Qed.

Lemma lex_solo c b : solo c = true -> lex (c :: b) = [c] :: lex b.
Proof.
  intros H. unfold lex. cbn [lex_from]. rewrite (proj1 (solo_facts c H)). cbn [joins app]. destruct b as [|d b]; [reflexivity|]. cbn [lex_from].
  destruct (is_space d); [reflexivity|]. rewrite (solo_alone c d H). reflexivity.
Qed.

Definition wordy (w : text) : bool := negb (text_eqb w []) && forallb word_char w.

Lemma word_not_space c : word_char c = true -> is_space c = false.
Proof.
  unfold word_char, is_digit, is_space. intros H. apply not_true_is_false. intros S.
  rewrite !orb_true_iff, !andb_true_iff, !Z.leb_le, !Z.eqb_eq in *. lia.
Qed.

Lemma lex_from_word w : forallb word_char w = true -> forall d cur, word_char d = true -> lex_from (d :: cur) w = [(d :: cur) ++ w].
Proof.
  induction w as [|c w IH]; intros H d cur Hd; cbn [lex_from]; [now rewrite app_nil_r|]. cbn [forallb] in H. apply andb_true_iff in H as [Hc Hw].
  rewrite word_not_space by assumption. cbn [joins]. rewrite Hd, Hc. cbn [app]. rewrite IH by assumption. cbn [app]. now rewrite <- app_assoc.
Qed.

Lemma lex_word w : wordy w = true -> lex w = [w].
Proof.
  unfold wordy, lex. destruct w as [|c w]; [discriminate|]. cbn [text_eqb negb andb forallb]. intros H. apply andb_true_iff in H as [Hc Hw].
  cbn [lex_from]. rewrite word_not_space by assumption. cbn [joins app]. now apply lex_from_word.
Qed.

(** A word behind a punctuator. *)
Lemma punct_ends d cur c : word_char d = false -> word_char c = true -> joins (d :: cur) c = false.
Proof.
  intros Hd Hc. unfold joins. rewrite Hd. destruct (among long_puncts ((d :: cur) ++ [c])) eqn:A; [|reflexivity].
  exfalso. apply among_In in A as (s & Hs & E).
  assert (In c (lit s)) as I by (rewrite <- E; apply in_or_app; right; now left). clear E.
  assert (forallb (fun s => forallb (fun c => negb (word_char c)) (lit s)) long_puncts = true) as F by reflexivity.
  rewrite forallb_forall in F. specialize (F s Hs). rewrite forallb_forall in F. specialize (F c I). now rewrite Hc in F.
Qed.

Lemma lex_punct_word d cur w : word_char d = false -> wordy w = true -> lex_from (d :: cur) w = [d :: cur; w].
Proof.
  unfold wordy. destruct w as [|c w]; [discriminate|]. cbn [text_eqb negb andb forallb]. intros Hd H. apply andb_true_iff in H as [Hc Hw].
  cbn [lex_from]. rewrite word_not_space, punct_ends by assumption. cbn [flush app]. now rewrite lex_from_word by assumption.
Qed.

Lemma digits_wordy n : 0 <= n -> wordy (dec_u n) = true.
Proof.
  intros H. pose proof (dec_u_digits n H) as D. pose proof (dec_u_nonempty n) as N. unfold wordy.
  destruct (dec_u n) as [|c w]; [congruence|]. cbn [text_eqb negb andb]. apply forallb_forall. intros x I.
  rewrite Forall_forall in D. unfold word_char. now rewrite (D x I).
Qed.

Lemma wordy_app a b : wordy a = true -> forallb word_char b = true -> wordy (a ++ b) = true.
Proof.
  unfold wordy. intros Ha Hb. apply andb_true_iff in Ha as [N A]. rewrite forallb_app, A, Hb. destruct a; [discriminate|reflexivity].
Qed.

Lemma wordy_after c w : word_char c = true -> wordy w = true -> wordy (c :: w) = true.
Proof. unfold wordy. intros Hc H. apply andb_true_iff in H as [_ H]. cbn. now rewrite Hc, H. Qed.

End Lexer.

(** ** The grammar of expressions *)
Module Grammar.
Import Lexer.

Inductive cst :=
| Num (d : text)
| Name (x : text)
| Un (op : text) (t : cst)
| Cast (ty : list text) (t : cst)
| Bin (op : text) (l r : cst)
| Call (f : cst) (args : list cst)
| Index (t i : cst)
| Arrow (t : cst) (x : text)
| Cond (c a b : cst).

(** The operators from multiplicative to logical-OR expressions (6.5.5 to 6.5.14), each
    production loosest first; all of them group to the left. *)
Definition productions : list (list string) :=
  [["||"]; ["&&"]; ["|"]; ["^"]; ["&"]; ["=="; "!="]; ["<"; ">"; "<="; ">="]; ["<<"; ">>"]; ["+"; "-"]; ["*"; "/"; "%"]]%string.

Fixpoint level_in (k : Z) (l : list (list string)) (w : text) : Z :=
  match l with
  | [] => 0
  | ops :: l' => if among ops w then k else level_in (k + 1) l' w
  end.

(** The place of an operator in the list, from 1; 0: not a binary operator. *)
Definition c_level (w : text) : Z := level_in 1 productions w.

Definition unary_ops : list string := ["&"; "*"; "+"; "-"; "~"; "!"]%string.

(** The words a type name begins with: keywords and the kernel's names of integers. *)
Definition type_words : list string :=
  ["void"; "char"; "short"; "int"; "long"; "signed"; "unsigned"; "const"; "volatile"; "struct"; "union"; "enum";
   "__u8"; "__u16"; "__u32"; "__u64"; "__s8"; "__s16"; "__s32"; "__s64"]%string.

Definition first_is (p : ascii -> bool) (w : text) : bool := match w with c :: _ => p c | [] => false end.
Definition is_word (w : text) : bool := first_is word_char w.
Definition is_number (w : text) : bool := first_is is_digit w.
Definition type_part (w : text) : bool := is_word w || tok_is w "*".

Fixpoint span (l : list text) : list text * list text :=
  match l with
  | w :: l' => if type_part w then let (a, b) := span l' in (w :: a, b) else ([], l)
  | [] => ([], [])
  end.

(** A type name and the parenthesis behind it. *)
Definition p_type (l : list text) : option (list text * list text) :=
  match l with
  | w :: _ =>
      if among type_words w then
        match span l with
        | (ty, c :: l') => if tok_is c ")" then Some (ty, l') else None
        | _ => None
        end
      else None
  | [] => None
  end.

(** The expressions of 6.5.1 to 6.5.15 without [sizeof], compound literals, members by
    [.] and increments.  [p_bin f m] reads operators of level [m] and tighter. [f] bounds
    the depth. *)
Fixpoint p_full (f : nat) (l : list text) : option (cst * list text) :=
  match f with
  | O => None
  | S f =>
      match p_bin f 1 l with
      | Some (c, q :: l1) =>
          if tok_is q "?" then
            match p_full f l1 with
            | Some (a, k :: l2) =>
                if tok_is k ":" then match p_full f l2 with Some (b, l3) => Some (Cond c a b, l3) | None => None end else None
            | _ => None
            end
          else Some (c, q :: l1)
      | r => r
      end
  end
with p_bin (f : nat) (m : Z) (l : list text) : option (cst * list text) :=
  match f with
  | O => None
  | S f => match p_cast f l with Some (t, l') => p_loop f m t l' | None => None end
  end
with p_loop (f : nat) (m : Z) (t : cst) (l : list text) : option (cst * list text) :=
  match f with
  | O => None
  | S f =>
      match l with
      | w :: l1 =>
          if m <=? c_level w then
            match p_bin f (c_level w + 1) l1 with Some (r, l2) => p_loop f m (Bin w t r) l2 | None => None end
          else Some (t, l)
      | [] => Some (t, [])
      end
  end
with p_cast (f : nat) (l : list text) : option (cst * list text) :=
  match f with
  | O => None
  | S f =>
      match l with
      | w :: l1 =>
          if tok_is w "(" then
            match p_type l1 with
            | Some (ty, l2) => match p_cast f l2 with Some (t, l3) => Some (Cast ty t, l3) | None => None end
            | None =>
                match p_full f l1 with
                | Some (t, c :: l2) => if tok_is c ")" then p_postfix f t l2 else None
                | _ => None
                end
            end
          else if among unary_ops w then match p_cast f l1 with Some (t, l2) => Some (Un w t, l2) | None => None end
          else if is_number w then p_postfix f (Num w) l1
          else if is_word w && negb (among type_words w) then p_postfix f (Name w) l1
          else None
      | [] => None
      end
  end
with p_postfix (f : nat) (t : cst) (l : list text) : option (cst * list text) :=
  match f with
  | O => None
  | S f =>
      match l with
      | w :: l1 =>
          if tok_is w "[" then
            match p_full f l1 with
            | Some (i, c :: l2) => if tok_is c "]" then p_postfix f (Index t i) l2 else None
            | _ => None
            end
          else if tok_is w "(" then
            match p_args f l1 with Some (ts, l2) => p_postfix f (Call t ts) l2 | None => None end
          else if tok_is w "->" then
            match l1 with x :: l2 => if is_word x then p_postfix f (Arrow t x) l2 else None | [] => None end
          else Some (t, l)
      | [] => Some (t, [])
      end
  end
with p_args (f : nat) (l : list text) : option (list cst * list text) :=
  match f with
  | O => None
  | S f =>
      if tok_is (hd [] l) ")" then Some ([], tl l) else
      match p_full f l with
      | Some (t, c :: l2) =>
          if tok_is c ")" then Some ([t], l2)
          else if tok_is c "," then match p_args f l2 with Some (ts, l3) => Some (t :: ts, l3) | None => None end
          else None
      | _ => None
      end
  end.

End Grammar.

(** ** What is printed *)
Module Printed.
Import CExprs Lexer Grammar.

(** *** The expression that is meant *)

Definition clocks : list string := ["((__s64)amp_ktime())"; "((__s64)bpf_ktime_get_ns())"]%string.

Definition atom_cst (a : atom) : cst :=
  match a with
  | AInt z => if z <? 0 then Un (lit "-") (Num (dec_u (- z))) else Num (dec_u z)
  | AName x => Name x
  | ACapture x => Un (lit "*") (Arrow (Name (lit "_lc")) x)
  | ALookup p => let v := Name (lit "_p" ++ dec_s p) in Cond v (Un (lit "*") v) (Num (lit "0"))
  | AMem slot =>
      Un (lit "*") (Cast [lit "volatile"; lit "__u32"; lit "*"]
        (Bin (lit "+") (Name (lit "SPNL_AMP_IVARS_BASE")) (Num (dec_s (4 * Z.of_nat slot) ++ lit "u"))))
  | ACallText t =>
      Cast [lit "__s64"] (Call (Name (lit (if tok_is t "((__s64)amp_ktime())" then "amp_ktime" else "bpf_ktime_get_ns"))) [])
  end.

Fixpoint cst_of (t : ctree) : cst :=
  match t with
  | TrAtom a => atom_cst a
  | TrCast ty t => Cast (lex ty) (cst_of t)
  | TrUnary op t => Un op (cst_of t)
  | TrBin op l r => Bin op (cst_of l) (cst_of r)
  | TrCall f args => Call (Name f) (map cst_of args)
  | TrIndex t i => Index (cst_of t) (cst_of i)
  end.

Definition meant (e : CExpr) : cst := cst_of (tree e).

(** *** Names that C can read *)

Definition identifier (x : text) : bool := wordy x && negb (is_number x) && negb (among type_words x).

Definition type_name (ty : text) : bool := among type_words (hd [] (lex ty)) && forallb type_part (lex ty).

Definition atom_ok (a : atom) : bool :=
  match a with
  | AInt _ | AMem _ => true
  | AName x => identifier x
  | ACapture x => wordy x
  | ALookup p => 0 <=? p
  | ACallText t => among clocks t
  end.

(** Not a negative number, whose sign would be left outside of a subscript. *)
Fixpoint unsigned (e : CExpr) : bool :=
  match e with CE_RAW (AInt z) => 0 <=? z | CE_FLAT e => unsigned e | _ => true end.

(** Variables and functions are identifiers, casts name types.  The generator has no
    builder of prefix operators, whose text would run into a sign behind it. *)
Fixpoint named (e : CExpr) : bool :=
  match e with
  | CE_RAW a => atom_ok a
  | CE_FLAT e | CE_PAREN e => named e
  | CE_CAST ty e => type_name ty && named e
  | CE_UNARY _ _ => false
  | CE_BINOP _ l r => named l && named r
  | CE_CALL f args => identifier f && forallb named args
  | CE_SUBSCRIPT e i => named e && unsigned e && named i
  end.

(** *** The tokens of the printed text *)

Definition ptoks (needs : bool) (l : list text) : list text := if needs then lit "(" :: l ++ [lit ")"] else l.

Fixpoint tcommas (l : list (list text)) : list text :=
  match l with
  | [] => []
  | [x] => x
  | x :: l' => x ++ lit "," :: tcommas l'
  end.

Fixpoint toks (e : CExpr) : list text :=
  match e with
  | CE_RAW a => lex (atom_text a)
  | CE_FLAT e => toks e
  | CE_PAREN e => lit "(" :: toks e ++ [lit ")"]
  | CE_CAST ty e => lit "(" :: lex ty ++ lit ")" :: ptoks (ce_prec e <? CE_PREC_CAST) (toks e)
  | CE_UNARY op e => op :: ptoks (ce_prec e <? CE_PREC_UNARY) (toks e)
  | CE_BINOP op l r =>
      ptoks (ce_prec l <? prec_of op) (toks l) ++ op :: ptoks (ce_prec r <=? prec_of op) (toks r)
  | CE_CALL f args => f :: lit "(" :: tcommas (map toks args) ++ [lit ")"]
  | CE_SUBSCRIPT e i => ptoks (ce_prec e <? CE_PREC_POSTFIX) (toks e) ++ lit "[" :: toks i ++ [lit "]"]
  end.

Lemma known_op op : ce_binop_prec op <> None -> exists p, In p binop_precs /\ op = lit (fst p) /\ prec_of op = snd p.
Proof.
  unfold prec_of, ce_binop_prec. destruct (find _ binop_precs) as [p|] eqn:E; [|intros []; reflexivity]. intros _.
  apply find_some in E as [I T]. apply text_eqb_eq in T. now exists p.
Qed.

Lemma lex_op op : ce_binop_prec op <> None -> lex op = [op].
Proof.
  intros H. destruct (known_op op H) as (p & I & -> & _).
  assert (forallb (fun p => match lex (lit (fst p)) with [w] => text_eqb w (lit (fst p)) | _ => false end) binop_precs = true) as F by reflexivity.
  rewrite forallb_forall in F. specialize (F p I). cbv beta in F. destruct (lex (lit (fst p))) as [|w [|? ?]]; try discriminate.
  now apply text_eqb_eq in F as ->.
Qed.

Lemma lex_parens b s : lex (parens b s) = ptoks b (lex s).
Proof.
  destruct b; [|reflexivity]. unfold parens, ptoks. change (lit "(" ++ s ++ lit ")") with ("("%char :: s ++ [")"%char]).
  rewrite lex_solo by reflexivity. f_equal. now rewrite lex_break by reflexivity.
Qed.

Lemma identifier_wordy x : identifier x = true -> wordy x = true.
Proof. unfold identifier. intros H. now bools. Qed.

(** The text is split into these tokens. *)
Lemma lex_ce_text e : named e = true -> ops_known e = true -> lex (ce_text e) = toks e.
Proof.
  induction e as [a|e IH|e IH|ty e IH|op e IH|op l r IHl IHr|f args IH|e i IHe IHi] using CExpr_nested_ind; cbn [named ops_known ce_text toks]; intros N K.
  - reflexivity.
  - auto.
  - exact (eq_trans (lex_parens true (ce_text e)) (f_equal (ptoks true) (IH N K))).
  - apply andb_true_iff in N as [_ N]. change (lit "(" ++ ty ++ lit ")" ++ ?x) with ("("%char :: ty ++ ")"%char :: x).
    rewrite lex_solo, lex_break, lex_solo, lex_parens, IH by auto. reflexivity.
  - discriminate.
  - destruct (ce_binop_prec op) eqn:E; [|discriminate]. apply andb_true_iff in N as [Nl Nr], K as [Kl Kr].
    change (lit " " ++ op ++ lit " " ++ ?x) with (" "%char :: op ++ " "%char :: x).
    rewrite lex_break, lex_space, lex_break, lex_space, !lex_parens, (lex_op op), IHl, IHr by (reflexivity || assumption || congruence). reflexivity.
  - apply andb_true_iff in N as [Nf N]. change (f ++ lit "(" ++ ?x) with (f ++ "("%char :: x).
    rewrite lex_break, lex_solo, lex_word by auto using identifier_wordy. cbn [app]. do 2 f_equal.
    change (lit ")") with [")"%char] at 1. rewrite lex_break by reflexivity. f_equal.
    induction IH as [|a args Ha _ IH]; [reflexivity|]. cbn [forallb map] in *. apply andb_true_iff in N as [Na N], K as [Ka K].
    specialize (IH N K). destruct args as [|b args]; [now apply Ha|].
    cbn [map commas tcommas] in *. change (lit ", " ++ ?x) with (","%char :: " "%char :: x).
    rewrite lex_break, lex_solo, lex_space, Ha, IH by auto. reflexivity.
  - apply andb_true_iff in N as [N Ni]. apply andb_true_iff in N as [N _]. apply andb_true_iff in K as [Ke Ki].
    change (lit "[" ++ ?x ++ lit "]") with ("["%char :: x ++ ["]"%char]).
    rewrite lex_break, lex_parens, lex_solo, lex_break, IHe, IHi by auto. reflexivity.
Qed.

(** *** Steps of the reader *)

Definition quiet (l : list text) : Prop :=
  match l with [] => True | w :: _ => tok_is w "[" = false /\ tok_is w "(" = false /\ tok_is w "->" = false end.

Lemma postfix_stops t l : quiet l -> ev (fun f => p_postfix f t l) (Some (t, l)).
Proof. intros H. apply ev_now. intros f. cbn [p_postfix]. destruct l as [|w l]; [reflexivity|]. destruct H as (-> & -> & ->). reflexivity. Qed.

Lemma loop_stops m t l : 1 <= m -> match l with [] => True | w :: _ => c_level w < m end -> ev (fun f => p_loop f m t l) (Some (t, l)).
Proof.
  intros Hm H. apply ev_now. intros f. cbn [p_loop]. destruct l as [|w l]; [reflexivity|]. now rewrite (proj2 (Z.leb_gt _ _)) by assumption.
Qed.

Lemma loop_op m t w l r l' res : m <= c_level w -> ev (fun f => p_bin f (c_level w + 1) l) (Some (r, l')) ->
  ev (fun f => p_loop f m (Bin w t r) l') res -> ev (fun f => p_loop f m t (w :: l)) res.
Proof.
  intros Hm Hr. apply ev_step with (G := fun f => p_bin f (c_level w + 1) l) (b := Some (r, l'))
    (k := fun q f => match q with Some (r', l2) => p_loop f m (Bin w t r') l2 | None => None end); [|exact Hr].
  intros f. cbn [p_loop]. now rewrite (proj2 (Z.leb_le _ _)) by assumption.
Qed.

Lemma bin_cast m l t l' res : ev (fun f => p_cast f l) (Some (t, l')) -> ev (fun f => p_loop f m t l') res -> ev (fun f => p_bin f m l) res.
Proof.
  intros Hc. apply ev_step with (G := fun f => p_cast f l) (b := Some (t, l'))
    (k := fun q f => match q with Some (t', l2) => p_loop f m t' l2 | None => None end); [reflexivity|exact Hc].
Qed.

Lemma full_bin l t l' : match l' with [] => True | w :: _ => tok_is w "?" = false end ->
  ev (fun f => p_bin f 1 l) (Some (t, l')) -> ev (fun f => p_full f l) (Some (t, l')).
Proof.
  intros H [n Hn]. exists (S n). intros [|f] Hf; [lia|]. cbn [p_full]. rewrite Hn by lia. destruct l' as [|w l']; [reflexivity|]. now rewrite H.
Qed.

Lemma full_cond l c l1 a l2 b l3 : ev (fun f => p_bin f 1 l) (Some (c, lit "?" :: l1)) ->
  ev (fun f => p_full f l1) (Some (a, lit ":" :: l2)) -> ev (fun f => p_full f l2) (Some (b, l3)) ->
  ev (fun f => p_full f l) (Some (Cond c a b, l3)).
Proof.
  intros [n Hn] [m Hm] [k Hk]. exists (S (n + m + k)). intros [|f] Hf; [lia|]. cbn [p_full]. rewrite Hn by lia.
  change (tok_is (lit "?") "?") with true. cbv iota. rewrite Hm by lia. change (tok_is (lit ":") ":") with true. cbv iota. now rewrite Hk by lia.
Qed.

Lemma cast_paren l t l' res : p_type l = None -> ev (fun f => p_full f l) (Some (t, lit ")" :: l')) ->
  ev (fun f => p_postfix f t l') res -> ev (fun f => p_cast f (lit "(" :: l)) res.
Proof.
  intros T Hf. apply ev_step with (G := fun f => p_full f l) (b := Some (t, lit ")" :: l'))
    (k := fun q f => match q with Some (t', c :: l2) => if tok_is c ")" then p_postfix f t' l2 else None | _ => None end); [|exact Hf].
  intros f. cbn [p_cast]. change (tok_is (lit "(") "(") with true. cbv iota. now rewrite T.
Qed.

Lemma cast_type l ty l1 t l2 : p_type l = Some (ty, l1) -> ev (fun f => p_cast f l1) (Some (t, l2)) ->
  ev (fun f => p_cast f (lit "(" :: l)) (Some (Cast ty t, l2)).
Proof.
  intros T Hf. apply ev_step with (G := fun f => p_cast f l1) (b := Some (t, l2))
    (k := fun q _ => match q with Some (t', l3) => Some (Cast ty t', l3) | None => None end); [|exact Hf|apply ev_const].
  intros f. cbn [p_cast]. change (tok_is (lit "(") "(") with true. cbv iota. now rewrite T.
Qed.

Lemma cast_un s l t l1 : existsb (String.eqb s) unary_ops = true -> ev (fun f => p_cast f l) (Some (t, l1)) ->
  ev (fun f => p_cast f (lit s :: l)) (Some (Un (lit s) t, l1)).
Proof.
  intros U Hf. apply ev_step with (G := fun f => p_cast f l) (b := Some (t, l1))
    (k := fun q _ => match q with Some (t', l3) => Some (Un (lit s) t', l3) | None => None end); [|exact Hf|apply ev_const].
  intros f. unfold unary_ops in U. cbn [existsb] in U.
  repeat (apply orb_true_iff in U as [U|U]; [apply String.eqb_eq in U as ->; reflexivity|]). discriminate.
Qed.

(** A word is none of the punctuators. *)
Lemma wordy_not w s : wordy w = true -> first_is word_char (lit s) = false -> tok_is w s = false.
Proof.
  intros W F. unfold tok_is. destruct (text_eqb_spec w (lit s)) as [->|]; [|reflexivity]. unfold wordy in W.
  destruct (lit s) as [|c l]; [discriminate|]. cbn in *. now rewrite F in W.
Qed.

Lemma wordy_word w : wordy w = true -> is_word w = true.
Proof. unfold wordy. destruct w; [discriminate|]. cbn. intros H. now bools. Qed.

Lemma wordy_un w : wordy w = true -> among unary_ops w = false.
Proof. intros W. unfold among, unary_ops. cbn [existsb]. now rewrite !wordy_not by (assumption || reflexivity). Qed.

Lemma cast_name x l res : identifier x = true -> ev (fun f => p_postfix f (Name x) l) res -> ev (fun f => p_cast f (x :: l)) res.
Proof.
  intros I [n H]. exists (S n). intros [|f] Hf; [lia|]. cbn [p_cast]. pose proof (identifier_wordy x I) as W.
  rewrite (wordy_not x "(") by (assumption || reflexivity). rewrite wordy_un, (wordy_word x W) by assumption.
  unfold identifier in I. bools.
  repeat match goal with E : _ = false |- _ => rewrite E; clear E end. cbn [negb andb]. apply H. lia.
Qed.

Lemma cast_num d l res : wordy d = true -> is_number d = true -> ev (fun f => p_postfix f (Num d) l) res -> ev (fun f => p_cast f (d :: l)) res.
Proof.
  intros W I [n H]. exists (S n). intros [|f] Hf; [lia|]. cbn [p_cast].
  rewrite (wordy_not d "(") by (assumption || reflexivity). rewrite wordy_un, I by assumption. apply H. lia.
Qed.

Lemma postfix_index t l i l1 res : ev (fun f => p_full f l) (Some (i, lit "]" :: l1)) -> ev (fun f => p_postfix f (Index t i) l1) res ->
  ev (fun f => p_postfix f t (lit "[" :: l)) res.
Proof.
  intros Hf. apply ev_step with (G := fun f => p_full f l) (b := Some (i, lit "]" :: l1))
    (k := fun q f => match q with Some (i', c :: l2) => if tok_is c "]" then p_postfix f (Index t i') l2 else None | _ => None end);
    [reflexivity|exact Hf].
Qed.

Lemma postfix_call t l ts l1 res : ev (fun f => p_args f l) (Some (ts, l1)) -> ev (fun f => p_postfix f (Call t ts) l1) res ->
  ev (fun f => p_postfix f t (lit "(" :: l)) res.
Proof.
  intros Hf. apply ev_step with (G := fun f => p_args f l) (b := Some (ts, l1))
    (k := fun q f => match q with Some (ts', l2) => p_postfix f (Call t ts') l2 | None => None end); [reflexivity|exact Hf].
Qed.

Lemma postfix_arrow t x l res : wordy x = true -> ev (fun f => p_postfix f (Arrow t x) l) res ->
  ev (fun f => p_postfix f t (lit "->" :: x :: l)) res.
Proof. intros W [n H]. exists (S n). intros [|f] Hf; [lia|]. cbn [p_postfix]. change (tok_is (lit "->") "[") with false. 
  change (tok_is (lit "->") "(") with false. change (tok_is (lit "->") "->") with true. cbv iota. rewrite (wordy_word x W). apply H. lia.
Qed.

Lemma span_type ty l : forallb type_part ty = true -> span (ty ++ lit ")" :: l) = (ty, lit ")" :: l).
Proof.
  induction ty as [|w ty IH]; intros H; [reflexivity|]. cbn [forallb app] in *. apply andb_true_iff in H as [Hw H]. cbn [span].
  now rewrite Hw, IH.
Qed.

Lemma type_read ty l : type_name ty = true -> p_type (lex ty ++ lit ")" :: l) = Some (lex ty, l).
Proof.
  unfold type_name. intros H. apply andb_true_iff in H as [A P]. pose proof (span_type (lex ty) l P) as S.
  destruct (lex ty) as [|w tl]; [discriminate|]. cbn [hd] in A. unfold p_type. cbn [app] in *. now rewrite A, S.
Qed.

(** *** What is printed is read, construct by construct *)

Definition closer (w : text) : bool := among [")"; "]"; ","]%string w.

Definition ends (l : list text) : Prop := match l with [] => True | w :: _ => closer w = true end.

(** What may follow an expression of level [p] without being taken into it. *)
Definition stops (p : Z) (l : list text) : Prop :=
  match l with [] => True | w :: _ => closer w = true \/ 1 <= c_level w <= p end.

Lemma closer_facts w l : closer w = true -> c_level w = 0 /\ quiet (w :: l) /\ tok_is w "?" = false.
Proof. intros H. apply among_In in H as (s & [<-|[<-|[<-|[]]]] & ->); repeat split. Qed.

Lemma op_facts w l : 1 <= c_level w -> quiet (w :: l) /\ tok_is w "?" = false.
Proof.
  intros H. assert (N : forall s, c_level (lit s) = 0 -> tok_is w s = false).
  { intros s Hs. unfold tok_is. destruct (text_eqb_spec w (lit s)) as [->|]; [lia|reflexivity]. }
  repeat split; apply N; reflexivity.
Qed.

Lemma stops_quiet p l : stops p l -> quiet l.
Proof. destruct l as [|w l]; [easy|]. intros [H|[H _]]; [now apply closer_facts|now apply op_facts]. Qed.

Lemma ends_stops p l : ends l -> stops p l.
Proof. destruct l; [easy|]. now left. Qed.

Definition reads_top (e : CExpr) : Prop := forall rest, ends rest -> ev (fun f => p_full f (toks e ++ rest)) (Some (meant e, rest)).

Definition reads_post (s : list text) (t : cst) : Prop :=
  forall rest res, ev (fun f => p_postfix f t rest) res -> ev (fun f => p_cast f (s ++ rest)) res.

Definition reads_cast (s : list text) (t : cst) : Prop := forall rest, quiet rest -> ev (fun f => p_cast f (s ++ rest)) (Some (t, rest)).

(** Read at [m], up to a continuation that does not bind more strongly than [p]. *)
Definition reads_at (m p : Z) (s : list text) (t : cst) : Prop :=
  forall rest res, stops p rest -> ev (fun f => p_loop f m t rest) res -> ev (fun f => p_bin f m (s ++ rest)) res.

Lemma post_cast s t : reads_post s t -> reads_cast s t.
Proof. intros H rest Hr. now apply H, postfix_stops. Qed.

Lemma cast_at m p s t : reads_cast s t -> reads_at m p s t.
Proof. intros H rest res Hr Hl. apply (bin_cast m _ t rest); [|exact Hl]. apply H. now apply stops_quiet in Hr. Qed.

Lemma at_top e p : reads_at 1 p (toks e) (meant e) -> reads_top e.
Proof.
  intros H rest Hr. apply full_bin.
  - destruct rest as [|w rest]; [exact I|]. now apply (closer_facts w rest).
  - apply H; [now apply ends_stops|]. apply loop_stops; [lia|]. destruct rest as [|w rest]; [exact I|].
    destruct (closer_facts w rest Hr) as [-> _]. lia.
Qed.

Definition begins (l : list text) : Prop := match l with [] => False | w :: _ => closer w = false /\ among type_words w = false end.

Lemma begins_app a b : begins a -> begins (a ++ b).
Proof. now destruct a. Qed.

Lemma begins_no_type l : begins l -> p_type l = None.
Proof. destruct l as [|w l]; [easy|]. intros [_ H]. cbn [p_type]. now rewrite H. Qed.

Lemma begins_arg l : begins l -> tok_is (hd [] l) ")" = false.
Proof. destruct l as [|w l]; [easy|]. intros [H _]. unfold closer, among in H. cbn [existsb hd] in *. now destruct (tok_is w ")"). Qed.

Lemma enclosed_post e : begins (toks e) -> reads_top e -> reads_post (lit "(" :: toks e ++ [lit ")"]) (meant e).
Proof.
  intros B H rest res Hp. cbn [app]. rewrite <- app_assoc. apply (cast_paren _ (meant e) rest); [|now apply H|exact Hp].
  now apply begins_no_type, begins_app.
Qed.

(** *** Leaves *)

Lemma number_dec n : 0 <= n -> wordy (dec_u n) = true /\ is_number (dec_u n) = true.
Proof.
  intros H. split; [now apply digits_wordy|]. pose proof (dec_u_digits n H) as D. pose proof (dec_u_nonempty n).
  destruct (dec_u n); [congruence|]. now inv D.
Qed.

Lemma dec_s_unsigned n : 0 <= n -> dec_s n = dec_u n.
Proof. intros H. unfold dec_s. now rewrite (proj2 (Z.ltb_ge n 0)). Qed.

Definition lookup_name (p : Z) : text := lit "_p" ++ dec_s p.

Lemma lookup_identifier p : 0 <= p -> identifier (lookup_name p) = true.
Proof.
  intros H. unfold identifier, lookup_name. rewrite dec_s_unsigned by assumption.
  change (lit "_p" ++ dec_u p) with ("_"%char :: "p"%char :: dec_u p). 
  rewrite wordy_after; [reflexivity|reflexivity|]. apply wordy_after; [reflexivity|now apply number_dec].
Qed.

(** The tokens of a leaf. *)
Definition leaf_toks (a : atom) : list text :=
  match a with
  | AInt z => if z <? 0 then [lit "-"; dec_u (- z)] else [dec_u z]
  | AName x => [x]
  | ACapture x => [lit "("; lit "*"; lit "_lc"; lit "->"; x; lit ")"]
  | ALookup p => [lit "("; lookup_name p; lit "?"; lit "*"; lookup_name p; lit ":"; lit "0"; lit ")"]
  | AMem slot =>
      [lit "("; lit "*"; lit "("; lit "volatile"; lit "__u32"; lit "*"; lit ")"; lit "("; lit "SPNL_AMP_IVARS_BASE"; lit "+";
       dec_s (4 * Z.of_nat slot) ++ lit "u"; lit ")"; lit ")"]
  | ACallText t =>
      [lit "("; lit "("; lit "__s64"; lit ")"; lit (if tok_is t "((__s64)amp_ktime())" then "amp_ktime" else "bpf_ktime_get_ns"); lit "("; lit ")"; lit ")"]
  end.

Lemma lex_leaf a : atom_ok a = true -> lex (atom_text a) = leaf_toks a.
Proof.
  destruct a as [z|x|x|p|slot|t]; cbn [atom_ok atom_text leaf_toks]; intros H.
  - unfold dec_s. destruct (Z.ltb_spec z 0) as [Z|Z]; [|apply lex_word; now apply number_dec].
    apply (lex_punct_word "-"%char []); [reflexivity|]. apply number_dec. lia.
  - now apply lex_word, identifier_wordy.
  - rewrite app_assoc. change (lit ")") with [")"%char] at 1. rewrite lex_break by reflexivity.
    change (lex (lit "(*_lc->" ++ x)) with ([lit "("; lit "*"; lit "_lc"] ++ lex_from ["-"; ">"]%char x).
    now rewrite lex_punct_word.
  - apply Z.leb_le in H. pose proof (lookup_identifier p H) as I. apply identifier_wordy in I. fold (lookup_name p).
    change (lit "(_p" ++ dec_s p ++ lit " ? *_p" ++ dec_s p ++ lit " : 0)")
      with ("("%char :: lookup_name p ++ " "%char :: "?"%char :: " "%char :: "*"%char :: lookup_name p ++ " "%char :: lit ": 0)").
    rewrite lex_solo, lex_break, lex_space, lex_word by (reflexivity || assumption). do 2 f_equal.
    change (lex ("?"%char :: " "%char :: ?x)) with (lit "?" :: lex x). f_equal.
    change ("*"%char :: lookup_name p ++ ?x) with (("*"%char :: lookup_name p) ++ x). rewrite lex_break by reflexivity.
    change (lex ("*"%char :: lookup_name p)) with (lex_from ["*"%char] (lookup_name p)). rewrite lex_punct_word by (reflexivity || assumption). reflexivity.
  - unfold Ivars.ivar_expr.
    change (lit "(*(volatile __u32 *)(SPNL_AMP_IVARS_BASE + " ++ ?x) with (lit "(*(volatile __u32 *)(SPNL_AMP_IVARS_BASE +" ++ " "%char :: x).
    rewrite lex_break, lex_space by reflexivity. change (lit "u))") with (lit "u" ++ ")"%char :: lit ")"). rewrite app_assoc.
    rewrite lex_break by reflexivity. rewrite (lex_word (_ ++ _)); [reflexivity|].
    rewrite dec_s_unsigned by lia. apply wordy_app; [apply number_dec; lia|reflexivity].
  - apply among_In in H as (s & [<-|[<-|[]]] & ->); reflexivity.
Qed.

(** Followers inside a leaf. *)
Ltac follower := first [exact I | repeat split; reflexivity | reflexivity].
Ltac name_read := apply cast_name; [first [reflexivity | assumption]|]; try (apply postfix_stops; follower).
Ltac alone_read := eapply bin_cast; [|apply loop_stops; [first [lia | vm_compute; discriminate]|reflexivity]].
Ltac full_read := apply full_bin; [reflexivity|]; alone_read.

Lemma leaf_post a : atom_ok a = true -> match a with AInt z => 0 <= z | _ => True end -> reads_post (leaf_toks a) (atom_cst a).
Proof.
  intros H Hz rest res Hp. destruct a as [z|x|x|p|slot|t]; cbn [atom_ok leaf_toks atom_cst app] in *.
  - destruct (Z.ltb_spec z 0); [lia|]. cbn [app]. destruct (number_dec z) as [W N]; [lia|]. now apply cast_num.
  - now apply cast_name.
  - eapply cast_paren; [reflexivity| |exact Hp]. full_read. apply cast_un; [reflexivity|]. apply cast_name; [reflexivity|].
    apply postfix_arrow; [exact H|]. apply postfix_stops. follower.
  - apply Z.leb_le in H. pose proof (lookup_identifier p H) as I. fold (lookup_name p).
    eapply cast_paren; [reflexivity| |exact Hp]. eapply full_cond.
    + alone_read. name_read.
    + full_read. apply cast_un; [reflexivity|]. name_read.
    + full_read. apply cast_num; [reflexivity|reflexivity|]. apply postfix_stops. follower.
  - eapply cast_paren; [reflexivity| |exact Hp]. full_read. apply cast_un; [reflexivity|].
    eapply cast_type; [reflexivity|]. eapply cast_paren; [reflexivity| |apply postfix_stops; follower].
    apply full_bin; [reflexivity|]. eapply bin_cast; [name_read|]. eapply loop_op; [discriminate| |apply loop_stops; [lia|reflexivity]].
    alone_read. pose proof (number_dec (4 * Z.of_nat slot) ltac:(lia)) as [W N]. rewrite dec_s_unsigned by lia.
    apply cast_num; [now apply wordy_app|destruct (dec_u _); [discriminate|exact N]|]. apply postfix_stops. follower.
  - eapply cast_paren; [reflexivity| |exact Hp]. full_read. eapply cast_type; [reflexivity|].
    apply cast_name; [now destruct (tok_is t _)|]. eapply postfix_call; [apply ev_now; reflexivity|]. apply postfix_stops. follower.
Qed.

Lemma leaf_cast a : atom_ok a = true -> reads_cast (leaf_toks a) (atom_cst a).
Proof.
  intros H. assert (D : match a with AInt z => 0 <= z | _ => True end \/ exists z, a = AInt z /\ z < 0).
  { destruct a as [z|x|x|p|slot|t]; auto. destruct (Z.ltb_spec z 0); eauto. }
  destruct D as [D|(z & -> & D)]; [now apply post_cast, leaf_post|]. intros rest Hr. cbn [leaf_toks atom_cst].
  destruct (Z.ltb_spec z 0); [|lia]. cbn [app]. apply cast_un; [reflexivity|]. destruct (number_dec (- z)) as [W N]; [lia|].
  apply cast_num; auto. now apply postfix_stops.
Qed.

Lemma wordy_begins w l : wordy w = true -> among type_words w = false -> begins (w :: l).
Proof. intros W T. split; [|exact T]. unfold closer, among. cbn [existsb]. now rewrite !wordy_not by (assumption || reflexivity). Qed.

Lemma number_no_type w : is_number w = true -> among type_words w = false.
Proof.
  intros H. destruct (among type_words w) eqn:A; [|reflexivity]. apply among_In in A as (s & Hs & ->).
  assert (forallb (fun s => negb (is_number (lit s))) type_words = true) as F by reflexivity.
  rewrite forallb_forall in F. specialize (F s Hs). now rewrite H in F.
Qed.

Lemma leaf_begins a : atom_ok a = true -> begins (leaf_toks a).
Proof.
  intros H. destruct a as [z|x|x|p|slot|t]; cbn [leaf_toks atom_ok] in *; try (split; reflexivity).
  - destruct (Z.ltb_spec z 0); [split; reflexivity|]. destruct (number_dec z) as [W N]; [lia|]. auto using wordy_begins, number_no_type.
  - apply wordy_begins; [now apply identifier_wordy|]. unfold identifier in H. now bools.
Qed.

Lemma ptoks_begins b l : begins l -> begins (ptoks b l).
Proof. destruct b; [split; reflexivity|auto]. Qed.

Lemma toks_begin e : named e = true -> begins (toks e).
Proof.
  induction e as [a|e IH|e IH|ty e IH|op e IH|op l r IHl IHr|f args IH|e i IHe IHi] using CExpr_nested_ind; cbn [named toks]; intros N; auto; try (split; reflexivity).
  - rewrite lex_leaf by assumption. now apply leaf_begins.
  - discriminate.
  - bools. apply begins_app, ptoks_begins. auto.
  - apply andb_true_iff in N as [N _]. apply wordy_begins; [now apply identifier_wordy|]. unfold identifier in N. now bools.
  - bools. apply begins_app, ptoks_begins. auto.
Qed.

(** *** Levels and the printer's strengths *)

Definition ce_level (e : CExpr) : Z :=
  match e with
  | CE_BINOP op _ _ => c_level op
  | CE_CAST _ _ | CE_UNARY _ _ => 11
  | CE_CALL _ _ | CE_SUBSCRIPT _ _ => 12
  | CE_RAW _ | CE_FLAT _ | CE_PAREN _ => 13
  end.

(** The printer's table orders the operators as the grammar does. *)
Lemma same_order : forallb (fun p => forallb (fun q =>
  Bool.eqb (snd p <? snd q) (c_level (lit (fst p)) <? c_level (lit (fst q))) &&
  Bool.eqb (snd p <=? snd q) (c_level (lit (fst p)) <=? c_level (lit (fst q)))) binop_precs) binop_precs = true.
Proof. reflexivity. Qed.

Lemma op_level op : ce_binop_prec op <> None -> 1 <= c_level op <= 10 /\ prec_of op < CE_PREC_CAST.
Proof.
  intros H. destruct (known_op op H) as (p & I & -> & ->).
  assert (forallb (fun p => (1 <=? c_level (lit (fst p))) && (c_level (lit (fst p)) <=? 10) && (snd p <? CE_PREC_CAST)) binop_precs = true) as F by reflexivity.
  rewrite forallb_forall in F. specialize (F p I). cbv beta in F. bools. lia.
Qed.

Lemma level_order e op : ops_known e = true -> ce_binop_prec op <> None ->
  (ce_prec e <? prec_of op) = (ce_level e <? c_level op) /\ (ce_prec e <=? prec_of op) = (ce_level e <=? c_level op).
Proof.
  intros K H. destruct (op_level op H) as [L P]. unfold CE_PREC_CAST in P.
  destruct e; cbn [ce_prec ce_level]; unfold CE_PREC_CAST, CE_PREC_POSTFIX, CE_PREC_PRIMARY;
    try (rewrite !(proj2 (Z.ltb_ge _ _)), !(proj2 (Z.leb_gt _ _)) by lia; now split).
  cbn [ops_known] in K. destruct (ce_binop_prec op0) eqn:E; [|discriminate].
  destruct (known_op op H) as (q & Iq & -> & ->). destruct (known_op op0) as (p & Ip & -> & ->); [congruence|].
  pose proof same_order as S. rewrite forallb_forall in S. specialize (S p Ip). rewrite forallb_forall in S. specialize (S q Iq).
  apply andb_true_iff in S as [A B]. apply Bool.eqb_prop in A, B. now split.
Qed.

(** *** Every expression *)

(** The four ways an expression is met. *)
Record reads (e : CExpr) : Prop := mk_reads {
  rd_top : flat_ok true e -> reads_top e;
  rd_post : flat_ok false e -> CE_PREC_POSTFIX <= ce_prec e -> unsigned e = true -> reads_post (toks e) (meant e);
  rd_cast : flat_ok false e -> CE_PREC_CAST <= ce_prec e -> reads_cast (toks e) (meant e);
  rd_at : flat_ok false e -> forall m, m <= ce_level e -> reads_at m (ce_level e) (toks e) (meant e) }.

Definition flat_free (e : CExpr) : Prop := match e with CE_FLAT _ => False | _ => True end.

Lemma flat_free_ok e : flat_free e -> flat_ok true e -> flat_ok false e.
Proof. now destruct e. Qed.

Lemma reads_of_cast e : flat_free e -> (CE_PREC_POSTFIX <= ce_prec e -> unsigned e = true -> flat_ok false e -> reads_post (toks e) (meant e)) ->
  (flat_ok false e -> reads_cast (toks e) (meant e)) -> reads e.
Proof.
  intros Hf Hp H. constructor; [|auto|now intros; apply H|now intros; apply cast_at, H].
  intros Ht. apply at_top with (p := 1). apply cast_at, H. now apply flat_free_ok.
Qed.

Lemma reads_of_post e : flat_free e -> (flat_ok false e -> reads_post (toks e) (meant e)) -> reads e.
Proof. intros Hf H. apply reads_of_cast; auto using post_cast. Qed.

(** A child, with the parentheses the printer decides on. *)
Lemma child_post e needs : reads e -> begins (toks e) -> flat_ok false e -> unsigned e = true -> (needs = false -> CE_PREC_POSTFIX <= ce_prec e) ->
  reads_post (ptoks needs (toks e)) (meant e).
Proof. intros H B Hf Hu Hn. destruct needs; [apply enclosed_post, rd_top|apply rd_post]; auto using flat_ok_top. Qed.

Lemma child_cast e needs : reads e -> begins (toks e) -> flat_ok false e -> (needs = false -> CE_PREC_CAST <= ce_prec e) ->
  reads_cast (ptoks needs (toks e)) (meant e).
Proof. intros H B Hf Hn. destruct needs; [apply post_cast, enclosed_post, rd_top|apply rd_cast]; auto using flat_ok_top. Qed.

Lemma child_at e needs m p : reads e -> begins (toks e) -> flat_ok false e -> (needs = false -> m <= ce_level e /\ p <= ce_level e) ->
  reads_at m p (ptoks needs (toks e)) (meant e).
Proof.
  intros H B Hf Hn. destruct needs; [apply cast_at, post_cast, enclosed_post, rd_top; auto using flat_ok_top|].
  destruct (Hn eq_refl) as [Hm Hp]. intros rest res Hr. apply (rd_at e H Hf m Hm).
  destruct rest as [|w rest]; [exact I|]. destruct Hr as [Hr|Hr]; [now left|right; lia].
Qed.

Lemma binop_reads op l r : reads l -> reads r -> begins (toks l) -> begins (toks r) -> ops_known l = true -> ops_known r = true ->
  ce_binop_prec op <> None -> reads (CE_BINOP op l r).
Proof.
  intros Hl Hr Bl Br Kl Kr Ho. destruct (op_level op Ho) as [L P]. unfold CE_PREC_CAST in P.
  assert (At : flat_ok false (CE_BINOP op l r) -> forall m, m <= c_level op ->
    reads_at m (c_level op) (toks (CE_BINOP op l r)) (meant (CE_BINOP op l r))).
  { intros [Fl Fr] m Hm rest res Hs Hk. cbn [toks meant tree cst_of] in *. rewrite <- app_assoc. cbn [app].
    rewrite (proj1 (level_order l op Kl Ho)), (proj2 (level_order r op Kr Ho)).
    apply (child_at l (ce_level l <? c_level op) m (c_level op)); auto; [intros E; apply Z.ltb_ge in E; lia|right; lia|].
    apply (loop_op m _ op _ (meant r) rest); [exact Hm| |exact Hk].
    apply (child_at r (ce_level r <=? c_level op) (c_level op + 1) (c_level op)); auto; [intros E; apply Z.leb_gt in E; lia|].
    apply loop_stops; [lia|]. destruct rest as [|w rest]; [exact I|]. destruct Hs as [Hs|Hs]; [|lia].
    destruct (closer_facts w rest Hs) as [-> _]. lia. }
  constructor; cbn [ce_prec ce_level]; unfold CE_PREC_POSTFIX, CE_PREC_CAST; try lia; [|exact At].
  intros Ht. apply at_top with (p := c_level op). apply At; [exact Ht|lia].
Qed.

Lemma args_one l t l2 : begins l -> ev (fun f => p_full f l) (Some (t, lit ")" :: l2)) -> ev (fun f => p_args f l) (Some ([t], l2)).
Proof. intros B [n H]. exists (S n). intros [|f] Hf; [lia|]. cbn [p_args]. rewrite begins_arg by assumption. now rewrite H by lia. Qed.

Lemma args_more l t l2 ts l3 : begins l -> ev (fun f => p_full f l) (Some (t, lit "," :: l2)) -> ev (fun f => p_args f l2) (Some (ts, l3)) ->
  ev (fun f => p_args f l) (Some (t :: ts, l3)).
Proof.
  intros B [n H] [m Hm]. exists (S (n + m)). intros [|f] Hf; [lia|]. cbn [p_args]. rewrite begins_arg by assumption. rewrite H by lia.
  change (tok_is (lit ",") ")") with false. change (tok_is (lit ",") ",") with true. cbv iota. now rewrite Hm by lia.
Qed.

Lemma args_read args : Forall (fun a => begins (toks a) /\ reads a) args -> fold_right (fun a P => flat_ok true a /\ P) True args -> forall rest,
  ev (fun f => p_args f (tcommas (map toks args) ++ lit ")" :: rest)) (Some (map meant args, rest)).
Proof.
  induction 1 as [|a args [Ba Ha] _ IH]; intros Hf rest; [apply ev_now; reflexivity|]. destruct Hf as [Fa Ff].
  destruct args as [|b args].
  - apply args_one; [now apply begins_app|]. now apply (rd_top a Ha Fa).
  - change (tcommas (map toks (a :: b :: args)) ++ ?x) with ((toks a ++ lit "," :: tcommas (map toks (b :: args))) ++ x).
    rewrite <- app_assoc. cbn [app]. eapply args_more; [now apply begins_app|now apply (rd_top a Ha Fa)|exact (IH Ff rest)].
Qed.

Lemma reads_all e : named e = true -> ops_known e = true -> reads e.
Proof.
  induction e as [a|e IH|e IH|ty e IH|op e IH|op l r IHl IHr|f args IH|e i IHe IHi] using CExpr_nested_ind; cbn [named ops_known]; intros N K.
  - apply reads_of_cast; [exact I| |]; cbn [toks meant tree cst_of]; rewrite (lex_leaf a N); [|intros _; now apply leaf_cast].
    intros _ U _. apply leaf_post; [exact N|]. destruct a; auto. now apply Z.leb_le.
  - specialize (IH N K). constructor; change (toks (CE_FLAT e)) with (toks e); change (meant (CE_FLAT e)) with (meant e); cbn [ce_prec ce_level].
    + intros [F _]. exact (rd_top e IH F).
    + intros [F [|E]] _ U; [discriminate|]. apply (rd_post e IH F); [now rewrite E|exact U].
    + intros [F [|E]] _; [discriminate|]. apply (rd_cast e IH F). now rewrite E.
    + intros [F [|E]] m Hm; [discriminate|]. apply cast_at, (rd_cast e IH F). now rewrite E.
  - specialize (IH N K). apply reads_of_post; [exact I|]. intros F. exact (enclosed_post e (toks_begin e N) (rd_top e IH F)).
  - apply andb_true_iff in N as [Nt N]. specialize (IH N K). apply reads_of_cast; [exact I|cbn [ce_prec]; unfold CE_PREC_CAST, CE_PREC_POSTFIX; lia|].
    intros F rest Hr. cbn [toks meant tree cst_of app]. rewrite <- app_assoc. cbn [app].
    eapply cast_type; [now apply type_read|]. apply (child_cast e); auto using toks_begin. now intros E%Z.ltb_ge.
  - discriminate.
  - destruct (ce_binop_prec op) eqn:E; [|discriminate]. bools. apply binop_reads; auto using toks_begin. congruence.
  - apply andb_true_iff in N as [Nf N]. apply reads_of_post; [exact I|]. intros F rest res Hp. cbn [toks meant tree cst_of app] in *. rewrite <- app_assoc.
    apply cast_name; [exact Nf|]. eapply postfix_call; [|exact Hp]. rewrite map_map. apply args_read; [|exact F].
    rewrite Forall_forall in *. rewrite forallb_forall in N, K. intros x Hx. auto using toks_begin.
  - bools. apply reads_of_post; [exact I|]. intros [F Fi] rest res Hp. cbn [toks meant tree cst_of]. rewrite <- app_assoc.
    apply (child_post e); auto using toks_begin; [now intros E%Z.ltb_ge|]. cbn [app]. rewrite <- app_assoc.
    eapply postfix_index; [apply (rd_top i); auto; reflexivity|exact Hp].
Qed.

(** C14: What [ce_print] writes is read by C as the expression that was meant.  The
    printed text of an expression the generator builds, with any nesting of operators,
    casts, calls, subscripts and parentheses, is split into tokens by C's longest match
    and read by C's grammar; the reader, which is written from the standard and does not
    use the printer's table, returns the intended operators and operands with nothing
    left over.  So the minimal parentheses are always enough.  Supposed is that text
    used again as a leaf is enclosed ([flat_ok], which [CgSem] proves of what it lowers)
    and that variables and functions are identifiers and casts name types ([named]);
    prefix operators, for which the generator has no builder, are left out. *)
Theorem ce_print_reads_back (e : CExpr) (s : text) : ce_print e = Some s -> flat_ok true e -> named e = true ->
  exists n, forall f, (n <= f)%nat -> p_full f (lex s) = Some (cst_of (tree e), []).
Proof.
  unfold ce_print. intros E F N. destruct (ops_known e) eqn:K; [|discriminate]. injection E as <-. rewrite (lex_ce_text e N K).
  destruct (rd_top e (reads_all e N K) F [] I) as [n H]. exists n. intros f Hf. specialize (H f Hf). now rewrite app_nil_r in H.
Qed.

Definition sample_expr : CExpr :=
  let v (x : string) := CE_RAW (AName (lit x)) in
  CE_BINOP (lit "-") (v "a"%string)
    (CE_BINOP (lit "-") (CE_BINOP (lit "*") (CE_RAW (AMem 3)) (CE_CAST (lit "__u64") (CE_BINOP (lit "+") (v "c"%string) (CE_RAW (AInt (-1))))))
       (CE_RAW (ALookup 2))).

Lemma ce_print_reads_back_witness :
  let s := lit "a - ((*(volatile __u32 *)(SPNL_AMP_IVARS_BASE + 12u)) * (__u64)(c + -1) - (_p2 ? *_p2 : 0))" in
  ce_print sample_expr = Some s /\ named sample_expr = true /\
  exists n, forall f, (n <= f)%nat -> p_full f (lex s) = Some (cst_of (tree sample_expr), []).
Proof.
  split; [reflexivity|]. split; [reflexivity|]. apply (ce_print_reads_back sample_expr); [reflexivity|cbn; repeat split|reflexivity].
Defined.

End Printed.
