(* ===== verification/CgLower.v ===== *)
(** * Lowering of method bodies

    [src/src/codegen_c/spinel_ebpf_cc.c]: from the node table to lines of C.

    - [Schema]: the builtin tables of [builtin_schema.h].
    - [Lower]: [cc_lower_expr], [cc_build_expr], [cc_lower_stmt], [cc_if_node],
      [cc_branch_block], [cc_collect_locals], [cc_emit_method_body], for both targets
      and for the language of the real-time core: integers, constants, locals,
      instance variables, operators, [if], [return], [spnl_emit] and [ktime_ns].
      A call to another builtin gives [Unmodelled].
    - [AmpUnit]: [amp_scan_supported], [cc_scan_common_filter] and the text of the
      translation unit of the real-time core ([amp_codegen_program]).

    The accumulator [g_body], the counter [g_if_counter] and the registry
    [g_amp_ivars] are explicit state; lines are structured, and [line_texts] is the
    text the code pushes. *)

From S2P Require Import Prelude CText CgText CgIr CgAst CgConst CgAmp CgExpr.

(** * The builtin tables *)

Module Schema.

Definition cc_declared_arity : list (string * Z) :=
  [("ktime_ns", 0); ("pid", 0); ("tgid", 0); ("tid", 0); ("cpu_id", 0); ("uid", 0); ("gid", 0); ("ppid", 0);
   ("cgroup_id", 0); ("comm_hash", 0); ("emit_comm", 0); ("cap_effective", 0); ("latency_start", 0); ("latency_end", 0);
   ("stack_id", 0); ("user_stack_id", 0); ("queue_pop", 0); ("fifo_pop", 0); ("lifo_pop", 0); ("task_load", 0);
   ("sock_addr_ip4", 0); ("sock_addr_port", 0); ("pkt_len", 0); ("pkt_eth_proto", 0); ("pkt_ip4_src", 0);
   ("pkt_ip4_dst", 0); ("pkt_ip6_src_hi", 0); ("pkt_ip6_src_lo", 0); ("pkt_ip6_dst_hi", 0); ("pkt_ip6_dst_lo", 0);
   ("pkt_l4_proto", 0); ("pkt_l4_sport", 0); ("pkt_l4_dport", 0); ("pkt_l4_payload_len", 0); ("pkt_tcp_flags", 0);
   ("pkt_tcp_seq", 0); ("pkt_tcp_ack", 0); ("flow_del", 1)]%string.

Definition CC_TGT_LINUX : Z := 1.
Definition CC_TGT_AMP : Z := 2.

Definition cc_builtin_targets : list (string * Z) :=
  [("spnl_emit", Z.lor CC_TGT_LINUX CC_TGT_AMP); ("ktime_ns", Z.lor CC_TGT_LINUX CC_TGT_AMP)]%string.

Definition cc_builtin_on_target (name : text) (tgt : Z) : bool :=
  match Const.lookup cc_builtin_targets name with
  | Some targets => negb (Z.land targets tgt =? 0)
  | None => tgt =? CC_TGT_LINUX
  end.

End Schema.

(** * Expressions and statements *)

Module Lower.
Import Names Ir Ivars CNames Const CExprs Schema Ast.

(** Why the generator stops.  The long advisory texts are constructors. *)
Inductive diag :=
| Msg (msg : text) (detail : option text)
| TooManyIvars (bare : text)
| SurplusArgument (name : text) (got : Z)
| NotABuiltin (name : text)
| NotInSubset (ty : text)
| TupleReturn
| ValuedReturn
| NotOnAmp (name : text).

Inductive result (A : Type) :=
| Ok (a : A)
| Die (d : diag)
| Smashed                       (* a fixed buffer is written past its end *)
| Unmodelled (name : text)      (* a builtin outside this model *)
| NoFuel.
Arguments Ok {A}. Arguments Die {A}. Arguments Smashed {A}. Arguments Unmodelled {A}. Arguments NoFuel {A}.

(** The lines a body is made of. *)
Inductive cline :=
| LDecl (x : text)
| LSet (x : text) (e : CExpr)
| LSetCapture (x : text) (e : CExpr)
| LMemSet (slot : nat) (e : CExpr)
| LMemRmw (slot : nat) (op : text) (e : CExpr)
| LKey (k : Z)
| LLookup (p : Z) (map : text) (k : Z)
| LVal (v : Z) (e : CExpr)
| LValRmw (v p : Z) (op : text) (e : CExpr)
| LUpdate (map : text) (k v : Z)
| LAmpEmit (e : CExpr)
| LRingEmit (g_unit : text) (n : Z) (e : CExpr)
| LVoid (e : CExpr)
| LReturn (e : option CExpr)
| LIf (c : CExpr) (th : list cline) (el : option (list cline)).

Record genv := mk_env {
  g_amp : bool;
  g_unit : text;
  g_method : Method;
  g_captures : list text;
  g_ebpf : text -> bool           (* [cc_is_ebpf_method] of the unit *)
}.

Record gst := mk_g {
  g_body : list cline;
  g_if_counter : Z;
  g_amp_ivars : registry
}.

Definition M (A : Type) := gst -> result (A * gst).

Definition ret {A} (a : A) : M A := fun s => Ok (a, s).
Definition bind {A B} (m : M A) (k : A -> M B) : M B :=
  fun s => match m s with
           | Ok (a, s') => k a s'
           | Die d => Die d | Smashed => Smashed | Unmodelled n => Unmodelled n | NoFuel => NoFuel
           end.
Definition fail {A} (d : diag) : M A := fun _ => Die d.
Definition die {A} (msg : string) (detail : option text) : M A := fail (Msg (lit msg) detail).

Notation "x <- m ;; k" := (bind m (fun x => k)) (at level 61, m at next level, right associativity).
Notation "m ;;; k" := (bind m (fun _ => k)) (at level 61, right associativity).

Definition push (l : cline) : M unit := fun s => Ok (tt, mk_g (g_body s ++ [l]) (g_if_counter s) (g_amp_ivars s)).
Definition fresh : M Z := fun s => Ok (g_if_counter s + 1, mk_g (g_body s) (g_if_counter s + 1) (g_amp_ivars s)).
Definition body_n : M nat := fun s => Ok (length (g_body s), s).

(** Lines pushed while [m] runs, apart from the enclosing ones. *)
Definition collect {A} (m : M A) : M (A * list cline) :=
  fun s => match m (mk_g [] (g_if_counter s) (g_amp_ivars s)) with
           | Ok (a, s') => Ok ((a, g_body s'), mk_g (g_body s) (g_if_counter s') (g_amp_ivars s'))
           | Die d => Die d | Smashed => Smashed | Unmodelled n => Unmodelled n | NoFuel => NoFuel
           end.

Definition num (z : Z) : CExpr := CE_RAW (AInt z).
Definition var (x : text) : CExpr := CE_RAW (AName x).

Definition temp (pfx : string) (n : Z) : text := lit pfx ++ dec_s n.

(** The place of an instance variable: a word of the carveout or a map. *)
Inductive ivar_place := InMem (slot : nat) | InMap (map : text).

Section Target.
Variable E : genv.

Definition cc_ivar_map (iv : text) : M ivar_place :=
  if g_amp E then
    fun s => match amp_ivar_slot (strip_at iv) (g_amp_ivars s) with
             | Some (slot, reg) => Ok (InMem slot, mk_g (g_body s) (g_if_counter s) reg)
             | None => Die (TooManyIvars (strip_at (strip_at iv)))
             end
  else ret (InMap (CNames.cc_ivar_map (g_unit E) (Some (g_method E)) iv)).

Definition cc_emit_ivar_read (m : ivar_place) : M CExpr :=
  match m with
  | InMem slot => ret (CE_RAW (AMem slot))
  | InMap map =>
      kk <- fresh ;; pp <- fresh ;;
      push (LKey kk) ;;; push (LLookup pp map kk) ;;; ret (CE_RAW (ALookup pp))
  end.

Definition cc_emit_ivar_write (m : ivar_place) (rhs : CExpr) : M CExpr :=
  match m with
  | InMem slot => push (LMemSet slot rhs) ;;; ret (CE_RAW (AMem slot))
  | InMap map =>
      kk <- fresh ;; vv <- fresh ;;
      push (LKey kk) ;;; push (LVal vv rhs) ;;; push (LUpdate map kk vv) ;;; ret (var (temp "_v" vv))
  end.

Definition cc_emit_ivar_rmw (m : ivar_place) (op : text) (rhs : CExpr) : M CExpr :=
  match m with
  | InMem slot => push (LMemRmw slot op rhs) ;;; ret (CE_RAW (AMem slot))
  | InMap map =>
      kk <- fresh ;; pp <- fresh ;; vv <- fresh ;;
      push (LKey kk) ;;; push (LLookup pp map kk) ;;; push (LValRmw vv pp op rhs) ;;; push (LUpdate map kk vv) ;;;
      ret (var (temp "_v" vv))
  end.

Variable ast : AST.

Definition args_of (nid : Z) : list Z :=
  let args_id := nt_ref ast nid (lit "arguments") in
  if 0 <=? args_id then nt_arr ast args_id (lit "arguments") else [].

Definition cc_require_declared_arity (nid : Z) (name : option text) : M unit :=
  match name with
  | None => ret tt
  | Some name =>
      if 0 <=? nt_ref ast nid (lit "receiver") then ret tt
      else match Const.lookup cc_declared_arity name with
           | None => ret tt
           | Some arity =>
               let na := Z.of_nat (length (args_of nid)) in
               if na =? arity then ret tt else fail (SurplusArgument name na)
           end
  end.

(** The names of a constant path, last first; at most eight. *)
Fixpoint path_parts (guard : nat) (cur : Z) : list text :=
  match guard with
  | O => []
  | S guard =>
      if cur <? 0 then []
      else match nt_type ast cur, nt_str ast cur (lit "name") with
           | Some ct, Some nm =>
               if text_eqb ct (lit "ConstantPathNode") then nm :: path_parts guard (nt_ref ast cur (lit "parent"))
               else if text_eqb ct (lit "ConstantReadNode") then [nm]
               else []
           | _, _ => []
           end
  end.

Fixpoint colons (l : list text) : text :=
  match l with
  | [] => []
  | [x] => x
  | x :: l' => x ++ lit "::" ++ colons l'
  end.

(** The path is built in [char path[128]]. *)
Definition lower_const_path (nid : Z) : M CExpr :=
  let path := colons (rev (path_parts 8 nid)) in
  if (128 <=? length path)%nat then fun _ => Smashed
  else match cc_macro_path path with
       | Some macro => ret (var (lit macro))
       | None => match cc_const_path_value path with
                 | Some pv => ret (num pv)
                 | None => die "ConstantPathNode not lowerable (Stage 1)" (Some path)
                 end
       end.

Definition lower_ktime : CExpr :=
  CE_RAW (ACallText (lit (if g_amp E then "((__s64)amp_ktime())" else "((__s64)bpf_ktime_get_ns())"))).

Definition isa (ty : text) (s : string) : bool := text_eqb ty (lit s).

(** The operands of an operator call. *)
Definition binop_operands (nid : Z) (name : text) : M (Z * Z) :=
  let recv := nt_ref ast nid (lit "receiver") in
  let args_id := nt_ref ast nid (lit "arguments") in
  if (recv <? 0) || (args_id <? 0) then die "binop CallNode missing operand" (Some name)
  else match nt_type ast args_id with
       | Some at_ =>
           if isa at_ "ArgumentsNode" then
             match nt_arr ast args_id (lit "arguments") with
             | [a] => ret (recv, a)
             | _ => die "binop expects 1 arg" (Some name)
             end
           else die "binop args not ArgumentsNode" None
       | None => die "binop args not ArgumentsNode" None
       end.

(** Value-less statements print as 0 where a value is needed. *)
Definition or_zero (v : option CExpr) : CExpr := match v with Some e => e | None => num 0 end.

Definition nonempty_text (e : CExpr) : bool := match ce_text e with [] => false | _ => true end.

(** The functions of the lowering call each other on smaller nodes.  Each is
    written over the [calls] it makes; [lowering f] ties the knot, with [f] bounding
    the depth of the tree. *)
Record calls := mk_calls {
  do_expr : Z -> M CExpr;
  do_build : Z -> M CExpr;
  do_stmt : Z -> M (option CExpr);
  do_stmts : list Z -> option CExpr -> M (option CExpr);
  do_branch : Z -> text -> M (list cline);
  do_if : Z -> M (option CExpr) }.

(** [cc_lower_expr]; its text is [ce_text] of the result. *)
Definition cc_lower_expr (R : calls) (nid : Z) : M CExpr :=
  match nt_type ast nid with
  | None => die "missing node" None
  | Some ty =>
      if isa ty "LocalVariableReadNode" then
        match nt_str ast nid (lit "name") with
        | None => die "LocalVariableReadNode missing name" None
        | Some nm =>
            let s := cc_safe_dup nm in
            ret (CE_RAW (if existsb (text_eqb s) (g_captures E) then ACapture s else AName s))
        end
      else if isa ty "IntegerNode" then ret (num (nt_int ast nid (lit "value") 0))
      else if isa ty "OrNode" || isa ty "AndNode" then do_build R nid
      else if isa ty "ParenthesesNode" then
        let body := nt_ref ast nid (lit "body") in
        if body <? 0 then ret (num 0)
        else e <- do_expr R body ;; ret (CE_PAREN e)
      else if isa ty "StatementsNode" || isa ty "IfNode" then
        v <- do_stmt R nid ;; ret (or_zero v)
      else if isa ty "ConstantReadNode" then
        match nt_str ast nid (lit "name") with
        | None => die "constant not lowerable (Stage 1 KNOWN_CONSTANTS)" (Some (lit "?"))
        | Some nm =>
            match cc_known_const nm with
            | Some v => ret (num v)
            | None => die "constant not lowerable (Stage 1 KNOWN_CONSTANTS)" (Some nm)
            end
        end
      else if isa ty "ConstantPathNode" then lower_const_path nid
      else if isa ty "InstanceVariableReadNode" then
        match nt_str ast nid (lit "name") with
        | None => die "InstanceVariableReadNode missing name" None
        | Some iv => m <- cc_ivar_map iv ;; cc_emit_ivar_read m
        end
      else if isa ty "CallNode" then
        let name := nt_str ast nid (lit "name") in
        cc_require_declared_arity nid name ;;;
        match name with
        | None => fun _ => Unmodelled (lit "?")
        | Some name =>
            if cc_is_binary_op name then do_build R nid
            else if (0 <=? nt_ref ast nid (lit "receiver")) || g_ebpf E name then fun _ => Unmodelled name
            else if isa name "ktime_ns" then ret lower_ktime
            else if g_amp E && isa name "spnl_emit" then fail (NotABuiltin name)
            else fun _ => Unmodelled name
        end
      else fail (NotInSubset ty)
  end.

(** [cc_build_expr]: operators keep their tree, everything else is a leaf. *)
Definition cc_build_expr (R : calls) (nid : Z) : M CExpr :=
  let leaf := e <- do_expr R nid ;; ret (CE_FLAT e) in
  match nt_type ast nid with
  | None => leaf
  | Some ty =>
      if isa ty "ParenthesesNode" then
        let body := nt_ref ast nid (lit "body") in
        if body <? 0 then ret (num 0)
        else e <- do_build R body ;; ret (CE_PAREN e)
      else if isa ty "OrNode" || isa ty "AndNode" then
        let l := nt_ref ast nid (lit "left") in
        let r := nt_ref ast nid (lit "right") in
        if (l <? 0) || (r <? 0) then die "OrNode/AndNode missing operand" (Some ty)
        else lhs <- do_build R l ;; rhs <- do_build R r ;;
             ret (CE_BINOP (lit (if isa ty "OrNode" then "||" else "&&")) lhs rhs)
      else if isa ty "CallNode" then
        match nt_str ast nid (lit "name") with
        | None => leaf
        | Some name =>
            if cc_is_binary_op name then
              ops <- binop_operands nid name ;;
              lhs <- do_build R (fst ops) ;; rhs <- do_build R (snd ops) ;;
              ret (CE_BINOP name lhs rhs)
            else leaf
        end
      else leaf
  end.

(** [cc_lower_stmt]: pushes lines; the value of the statement, if it has one. *)
Definition cc_lower_stmt (R : calls) (nid : Z) : M (option CExpr) :=
  match nt_type ast nid with
  | None => die "missing node" None
  | Some ty =>
      if isa ty "LocalVariableWriteNode" then
        let v := nt_ref ast nid (lit "value") in
        match nt_str ast nid (lit "name") with
        | Some nm =>
            if v <? 0 then die "LocalVariableWriteNode missing name/value" None
            else
              e <- do_expr R v ;;
              let s := cc_safe_dup nm in
              if existsb (text_eqb s) (g_captures E) then push (LSetCapture s e) ;;; ret (Some (CE_RAW (ACapture s)))
              else push (LSet s e) ;;; ret (Some (var s))
        | None => die "LocalVariableWriteNode missing name/value" None
        end
      else if isa ty "InstanceVariableWriteNode" then
        let v := nt_ref ast nid (lit "value") in
        match nt_str ast nid (lit "name") with
        | Some iv =>
            if v <? 0 then die "InstanceVariableWriteNode missing name/value" None
            else rhs <- do_expr R v ;; m <- cc_ivar_map iv ;; r <- cc_emit_ivar_write m rhs ;; ret (Some r)
        | None => die "InstanceVariableWriteNode missing name/value" None
        end
      else if isa ty "InstanceVariableOperatorWriteNode" then
        match nt_str ast nid (lit "name"), nt_str ast nid (lit "binary_operator") with
        | Some iv, Some op =>
            if isa op "+" || isa op "-" || isa op "*" then
              rhs <- do_expr R (nt_ref ast nid (lit "value")) ;;
              m <- cc_ivar_map iv ;; r <- cc_emit_ivar_rmw m op rhs ;; ret (Some r)
            else die "ivar operator not supported (Stage 1)" (Some op)
        | _, op => die "ivar operator not supported (Stage 1)" (Some match op with Some o => o | None => lit "?" end)
        end
      else if isa ty "ReturnNode" then
        let ids := args_of nid in
        if (1 <? length ids)%nat then fail TupleReturn
        else match m_ret (g_method E), m_so_kind (g_method E), ids with
             | Types.CC_TY_VOID, SO_NONE, [] => push (LReturn None) ;;; ret None
             | Types.CC_TY_VOID, SO_NONE, _ => fail ValuedReturn
             | _, _, a :: _ => v <- do_expr R a ;; push (LReturn (Some v)) ;;; ret None
             | _, _, [] => push (LReturn (Some (num 0))) ;;; ret None
             end
      else if isa ty "IfNode" then do_if R nid
      else if isa ty "ElseNode" then
        let s := nt_ref ast nid (lit "statements") in
        if 0 <=? s then do_stmt R s else ret None
      else if isa ty "StatementsNode" then do_stmts R (nt_arr ast nid (lit "body")) None
      else if isa ty "CallOperatorWriteNode" then fun _ => Unmodelled ty
      else if isa ty "CallNode" then
        let name := nt_str ast nid (lit "name") in
        cc_require_declared_arity nid name ;;;
        match name with
        | None => e <- do_expr R nid ;; ret (Some e)
        | Some name =>
            if isa name "spnl_emit" then
              match args_of nid with
              | [a] =>
                  val <- do_expr R a ;;
                  (if g_amp E then push (LAmpEmit val)
                   else e <- fresh ;; push (LRingEmit (g_unit E) e val)) ;;;
                  ret (Some (num 0))
              | _ => die "spnl_emit expects 1 arg" None
              end
            else if cc_is_binary_op name || isa name "ktime_ns" then e <- do_expr R nid ;; ret (Some e)
            else fun _ => Unmodelled name
        end
      else e <- do_expr R nid ;; ret (Some e)
  end.

(** The loop over the statements of a [StatementsNode]. *)
Definition stmts_loop (R : calls) (ids : list Z) (last : option CExpr) : M (option CExpr) :=
  match ids with
  | [] => ret last
  | i :: ids' =>
      before <- body_n ;;
      v <- do_stmt R i ;;
      after <- body_n ;;
      (match ids', v with
       | _ :: _, Some e => if (after =? before)%nat && nonempty_text e then push (LVoid e) else ret tt
       | _, _ => ret tt
       end) ;;;
      do_stmts R ids' v
  end.

(** [cc_branch_block]: the lines of a branch, its value stored in the result variable. *)
Definition cc_branch_block (R : calls) (bid : Z) (result_var : text) : M (list cline) :=
  r <- collect (if 0 <=? bid then
                  last <- do_stmt R bid ;;
                  match last with Some v => push (LSet result_var v) | None => ret tt end
                else ret tt) ;;
  ret (snd r).

Definition cc_if_node (R : calls) (nid : Z) : M (option CExpr) :=
  let pred := nt_ref ast nid (lit "predicate") in
  let then_id := nt_ref ast nid (lit "statements") in
  let else_id := nt_ref ast nid (lit "subsequent") in
  if pred <? 0 then die "IfNode missing predicate" None
  else
    cond <- do_build R pred ;;
    n <- fresh ;;
    let tmp := temp "_if" n in
    push (LDecl tmp) ;;;
    then_b <- do_branch R then_id tmp ;;
    else_b <- (if 0 <=? else_id then b <- do_branch R else_id tmp ;; ret (Some b) else ret None) ;;
    push (LIf cond then_b else_b) ;;;
    ret (Some (var tmp)).

Fixpoint lowering (f : nat) : calls :=
  match f with
  | O => mk_calls (fun _ _ => NoFuel) (fun _ _ => NoFuel) (fun _ _ => NoFuel) (fun _ _ _ => NoFuel)
           (fun _ _ _ => NoFuel) (fun _ _ => NoFuel)
  | S f =>
      let R := lowering f in
      mk_calls (cc_lower_expr R) (cc_build_expr R) (cc_lower_stmt R) (stmts_loop R) (cc_branch_block R) (cc_if_node R)
  end.

(** The names assigned in a body, in the order of their first occurrence; bodies of
    nested definitions are skipped. *)
Fixpoint cc_collect_locals (f : nat) (nid : Z) (names : list text) {struct f} : result (list text) :=
  match f with
  | O => NoFuel
  | S f =>
      match node_at ast nid with
      | None => Ok names
      | Some n =>
          let ty := match n_type n with Some t => t | None => [] end in
          if isa ty "DefNode" || isa ty "ClassNode" || isa ty "ModuleNode" then Ok names
          else
            let names1 :=
              if isa ty "LocalVariableWriteNode" then
                match nt_str ast nid (lit "name") with
                | Some nm => let s := cc_safe_dup nm in if existsb (text_eqb s) names then names else names ++ [s]
                | None => names
                end
              else names in
            fold_left (fun acc i => match acc with Ok ns => cc_collect_locals f i ns | r => r end)
              (map snd (n_r n) ++ concat (map snd (n_a n))) (Ok names1)
      end
  end.

(** Declarations of the locals, the statements, the return.  [fuel] bounds the depth
    of the tree; the counter restarts for each method, the registry does not. *)
Definition cc_emit_method_body (fuel : nat) : M unit := fun s0 =>
  let me := g_method E in
  match nt_type ast (m_body me) with
  | Some ty =>
      if isa ty "StatementsNode" then
        match cc_collect_locals fuel (m_body me) [] with
        | Ok locals =>
            let decls := filter (fun x => negb (existsb (fun p => text_eqb x (fst p)) (m_params me))) locals in
            (v <- do_stmt (lowering fuel) (m_body me) ;;
             match m_ret me, m_so_kind me with
             | Types.CC_TY_VOID, SO_NONE => ret tt
             | _, _ => push (LReturn (Some (or_zero v)))
             end) (mk_g (map LDecl decls) 0 (g_amp_ivars s0))
        | Die d => Die d | Smashed => Smashed | Unmodelled n => Unmodelled n | NoFuel => NoFuel
        end
      else Die (Msg (lit "body not StatementsNode (Stage 1)") (Some ty))
  | None => Die (Msg (lit "body not StatementsNode (Stage 1)") (Some (lit "?")))
  end.

End Target.

(** ** The text of the lines *)

(** [cc_indent_each]: four spaces before every physical line. *)
Fixpoint indent_rest (s : text) : text :=
  match s with
  | [] => []
  | c :: s' => if Ascii.eqb c "010" then c :: lit "    " ++ indent_rest s' else c :: indent_rest s'
  end.
Definition cc_indent_each (s : text) : text := lit "    " ++ indent_rest s.

Definition cc_push_evt_hdr (ind var : text) : list text :=
  [ind ++ var ++ lit "->hdr.type = SPNL_EVT_USER_BASE;";
   ind ++ var ++ lit "->hdr.version = SPNL_EVENT_HDR_VERSION;";
   ind ++ var ++ lit "->hdr.reserved = 0;";
   ind ++ var ++ lit "->hdr.timestamp = bpf_ktime_get_ns();"].

Definition ring_emit_texts (u : text) (n : Z) (val : text) : list text :=
  let e := temp "_e" n in
  [lit "{";
   lit "    struct " ++ u ++ lit "_event *" ++ e ++ lit " = bpf_ringbuf_reserve(&" ++ u ++ lit "_events, sizeof(*" ++ e ++ lit "), 0);";
   lit "    if (" ++ e ++ lit ") {"] ++
  cc_push_evt_hdr (lit "        ") e ++
  [lit "        " ++ e ++ lit "->value = " ++ val ++ lit ";";
   lit "        bpf_ringbuf_submit(" ++ e ++ lit ", 0);";
   lit "    } else spnl_lost_inc();   /* ring full -> account the dropped record */";
   lit "}"].

(** What is pushed for a line; the branches of an [if] are indented by [cs_emit]. *)
Fixpoint line_texts (l : cline) : list text :=
  match l with
  | LDecl x => [lit "__s64 " ++ x ++ lit " = 0;"]
  | LSet x e => [x ++ lit " = " ++ ce_text e ++ lit ";"]
  | LSetCapture x e => [lit "*_lc->" ++ x ++ lit " = " ++ ce_text e ++ lit ";"]
  | LMemSet slot e => [ivar_expr slot ++ lit " = (" ++ ce_text e ++ lit ");"]
  | LMemRmw slot op e =>
      [ivar_expr slot ++ lit " = " ++ ivar_expr slot ++ lit " " ++ op ++ lit " (" ++ ce_text e ++ lit ");"]
  | LKey k => [lit "__u32 " ++ temp "_k" k ++ lit " = 0;"]
  | LLookup p map k =>
      [lit "__s64 *" ++ temp "_p" p ++ lit " = bpf_map_lookup_elem(&" ++ map ++ lit ", &" ++ temp "_k" k ++ lit ");"]
  | LVal v e => [lit "__s64 " ++ temp "_v" v ++ lit " = " ++ ce_text e ++ lit ";"]
  | LValRmw v p op e =>
      [lit "__s64 " ++ temp "_v" v ++ lit " = " ++ atom_text (ALookup p) ++ lit " " ++ op ++ lit " (" ++ ce_text e ++ lit ");"]
  | LUpdate map k v =>
      [lit "bpf_map_update_elem(&" ++ map ++ lit ", &" ++ temp "_k" k ++ lit ", &" ++ temp "_v" v ++ lit ", BPF_ANY);"]
  | LAmpEmit e => [lit "amp_emit(" ++ ce_text e ++ lit ");"]
  | LRingEmit u n e => ring_emit_texts u n (ce_text e)
  | LVoid e => [lit "(void)(" ++ ce_text e ++ lit ");"]
  | LReturn None => [lit "return;"]
  | LReturn (Some e) => [lit "return " ++ ce_text e ++ lit ";"]
  | LIf c th el =>
      [lit "if (" ++ ce_text c ++ lit ") {"] ++ map cc_indent_each (flat_map line_texts th) ++
      match el with
      | Some b => lit "} else {" :: map cc_indent_each (flat_map line_texts b)
      | None => []
      end ++ [lit "}"]
  end.

End Lower.

(** * The unit of the real-time core *)

Module AmpUnit.
Import Names Ir Ivars CNames Const Partition Triggers CExprs Schema Ast Lower.

Section Scan.
Variable ast : AST.

(** Every call of the body is an operator or a builtin the target has. *)
Fixpoint amp_scan_supported (f : nat) (nid : Z) {struct f} : result unit :=
  match f with
  | O => NoFuel
  | S f =>
      match node_at ast nid with
      | None => Ok tt
      | Some n =>
          let ty := match n_type n with Some t => t | None => [] end in
          if isa ty "DefNode" || isa ty "ClassNode" || isa ty "ModuleNode" then Ok tt
          else
            let descend :=
              fold_left (fun acc i => match acc with Ok _ => amp_scan_supported f i | r => r end)
                (map snd (n_r n) ++ concat (map snd (n_a n))) (Ok tt) in
            if isa ty "CallNode" then
              match nt_str ast nid (lit "name") with
              | Some nm =>
                  if negb (cc_is_binary_op nm) && negb (cc_builtin_on_target nm CC_TGT_AMP) then Die (NotOnAmp nm) else descend
              | None => descend
              end
            else descend
      end
  end.

Definition filter_keys : list string := ["pid"; "tid"; "uid"; "gid"; "cgroup_id"; "comm"]%string.

Definition cc_filter_key_index (name : option text) : option nat :=
  match name with
  | None => None
  | Some k => find_slot (map lit filter_keys) k 0
  end.

(** [g_filter_mask] as the list of its bits. *)
Fixpoint filter_args (args : list Z) (mask : list nat) : result (list nat) :=
  match args with
  | [] => Ok mask
  | a :: args' =>
      match nt_type ast a with
      | Some at_ =>
          if isa at_ "SymbolNode" then
            let k := nt_str ast a (lit "value") in
            match cc_filter_key_index k with
            | None => Die (Msg (lit "filter_by: unknown key") k)
            | Some ki => if existsb (Nat.eqb ki) mask then Die (Msg (lit "filter_by: key listed twice") k)
                         else filter_args args' (mask ++ [ki])
            end
          else Die (Msg (lit "filter_by: every key must be a symbol literal") None)
      | None => Die (Msg (lit "filter_by: every key must be a symbol literal") None)
      end
  end.

(** A top-level [filter_by] without a receiver. *)
Definition is_filter (nid : Z) : bool :=
  match nt_type ast nid, nt_str ast nid (lit "name") with
  | Some ty, Some cn => isa ty "CallNode" && isa cn "filter_by" && (nt_ref ast nid (lit "receiver") <? 0)
  | _, _ => false
  end.

Fixpoint filter_stmts (body : list Z) (declared : bool) (mask : list nat) : result (bool * list nat) :=
  match body with
  | [] => Ok (declared, mask)
  | b :: body' =>
      if is_filter b then
        if declared then Die (Msg (lit "filter_by: declared twice") None)
        else match args_of ast b with
             | [] => Die (Msg (lit "filter_by expects at least one key") None)
             | args =>
                 match filter_args args mask with
                 | Ok mask' => filter_stmts body' true mask'
                 | Die d => Die d | Smashed => Smashed | Unmodelled n => Unmodelled n | NoFuel => NoFuel
                 end
             end
      else filter_stmts body' declared mask
  end.

Definition cc_scan_common_filter : result (bool * list nat) :=
  let stmts := nt_ref ast 0 (lit "statements") in
  if stmts <? 0 then Ok (false, []) else filter_stmts (nt_arr ast stmts (lit "body")) false [].

End Scan.

Section Program.
(** [SPNL_PARTITION_NATIVE], the method table, the tree and the base name. *)
Variable native : option text.
Variable ir : IR.
Variable ast : AST.
Variable base : text.
Variable fuel : nat.

Definition handlers : list Method := filter (cc_method_eligible native) (ir_m ir).

Definition env_of (me : Method) : genv := mk_env true (cc_sanitize base) me [] (cc_is_ebpf_method native ir).

(** The bodies, in the order of the table; the registry of instance variables is
    shared. *)
Fixpoint lower_handlers (l : list Method) (reg : registry) : result (list (Method * list cline) * registry) :=
  match l with
  | [] => Ok ([], reg)
  | me :: l' =>
      match m_params me with
      | _ :: _ => Die (Msg (lit "amp-m7 handler takes no params (v0)") (Some (m_name me)))
      | [] =>
          match amp_scan_supported ast fuel (m_body me) with
          | Ok _ =>
              match cc_emit_method_body (env_of me) ast fuel (mk_g [] 0 reg) with
              | Ok (_, s) =>
                  match lower_handlers l' (g_amp_ivars s) with
                  | Ok (bodies, reg') => Ok ((me, g_body s) :: bodies, reg')
                  | r => r
                  end
              | Die d => Die d | Smashed => Smashed | Unmodelled n => Unmodelled n | NoFuel => NoFuel
              end
          | Die d => Die d | Smashed => Smashed | Unmodelled n => Unmodelled n | NoFuel => NoFuel
          end
      end
  end.

Definition preamble : list text :=
  [lit "/* generated by spinel-ebpf --target amp-m7. Build:";
   lit " *   clang -O2 -target bpf -c " ++ base ++ lit ".bpf.c -o " ++ base ++ lit ".bpf.o";
   lit " * then host-AOT to ARMv7E-M via the micro-bpf JIT. */";
   lit "typedef unsigned int __u32;";
   lit "typedef long long __s64;";
   lit "#ifndef SPNL_AMP_IVARS_BASE";
   lit "#define SPNL_AMP_IVARS_BASE 0x2003ff00u   /* = AMP_IVARS_BASE (spnl/amp_abi_imx95m7.h); single-pass default, override at build */";
   lit "#endif";
   lit "/* spnl_emit -> amp_emit(): helper id 1; the M7 runtime publishes to the DDR ring. */";
   lit "static unsigned long long (*amp_emit)(unsigned long long) = (void *)1;";
   lit "/* ktime_ns -> amp_ktime(): helper id 2; the M7 runtime returns NETC PHC ns (gPTP-synced). */";
   lit "static unsigned long long (*amp_ktime)(void) = (void *)2;"].

Definition handler_texts (h : Method * list cline) : list text :=
  let '(me, body) := h in
  [[]; lit "int " ++ cc_func_name me ++ lit "(void *ctx)"; lit "{"; lit "    (void)ctx;"] ++
  map (fun l => lit "    " ++ l) (flat_map line_texts body) ++
  (if Types.CcTy_eqb (m_ret me) Types.CC_TY_VOID then [lit "    return 0;"] else []) ++ [lit "}"].

Definition amp_trigger_kw (k : amp_trig) : text :=
  match k with
  | AMP_TRIG_TIMER => lit "AMP_TRIG_TIMER"
  | AMP_TRIG_IRQ => lit "AMP_TRIG_IRQ"
  | AMP_TRIG_CMD => lit "AMP_TRIG_CMD"
  | AMP_TRIG_MANUAL => lit "AMP_TRIG_MANUAL"
  end.

Definition trigger_row (t : amp_trigger) : text :=
  qlit "    { '" ++ tr_fn t ++ qlit "', " ++ amp_trigger_kw (tr_kind t) ++ lit ", " ++ dec_u (tr_param t) ++ lit " },".

Definition manifest_texts (reg : registry) : list text :=
  [[];
   lit "#ifdef SPNL_AMP_MANIFEST   /* M7 loader reads this; clang -target bpf skips it */";
   lit "enum { AMP_TRIG_MANUAL = 0, AMP_TRIG_TIMER = 1, AMP_TRIG_IRQ = 2, AMP_TRIG_CMD = 3 };";
   lit "/* fixed-ABI manifest fields the M7 loader gates on.";
   lit " *   amp_abi_version -- must equal the board profile's AMP_ABI_VERSION";
   lit " *                     (spnl/amp_abi.h); the loader rejects a mismatch loudly,";
   lit " *                     so neither a firmware/blob ABI revision nor a blob built";
   lit " *                     for another board's address map goes through silently.";
   lit " *                     Override with -DSPNL_AMP_ABI_VERSION when building for a";
   lit " *                     board other than the default profile.";
   lit " *   amp_ivars_size  -- bytes of the IVARS carveout this probe uses (= 4 * #ivars);";
   lit " *                     the loader zeroes exactly this span per slot-install so a";
   lit " *                     hot-swapped probe never reads the previous probe's ivars. */";
   lit "#ifndef SPNL_AMP_ABI_VERSION";
   lit "#define SPNL_AMP_ABI_VERSION 1u";
   lit "#endif";
   lit "static const unsigned amp_abi_version = SPNL_AMP_ABI_VERSION;";
   lit "static const unsigned amp_ivars_size  = " ++ dec_u (amp_ivars_size reg) ++ lit "u;";
   lit "struct amp_trigger { const char *fn; int kind; unsigned param; };";
   lit "static const struct amp_trigger amp_triggers[] = {"] ++
  map trigger_row (amp_triggers native ir) ++
  [lit "};";
   lit "static const unsigned amp_triggers_n = sizeof(amp_triggers)/sizeof(amp_triggers[0]);";
   lit "#endif /* SPNL_AMP_MANIFEST */"].

Definition amp_codegen_program : result text :=
  match cc_scan_common_filter ast with
  | Ok (declared, _) =>
      if declared then Die (Msg (lit "filter_by is not available on the AMP target") (Some base))
      else match handlers with
           | [] => Die (Msg (lit "amp-m7: no eBPF-eligible handler method found") (Some base))
           | hs =>
               match lower_handlers hs [] with
               | Ok (bodies, reg) =>
                   Ok (Fields.unlines (preamble ++ flat_map handler_texts bodies ++ manifest_texts reg))
               | Die d => Die d | Smashed => Smashed | Unmodelled n => Unmodelled n | NoFuel => NoFuel
               end
           end
  | Die d => Die d | Smashed => Smashed | Unmodelled n => Unmodelled n | NoFuel => NoFuel
  end.

End Program.

End AmpUnit.
