(* ===== verification/CgSem.v ===== *)
(** * What the generated handlers compute

    The meaning of the lowering of CgLower.v on the real-time core: [Source] is the
    Ruby the handlers are written in, [Target] the C that is emitted, and
    [Simulation] proves that a lowered handler does what the Ruby handler does.

    C is given its integer types: literals are [int] or [long long], locals
    [long long], an instance variable is a 32-bit unsigned word; the usual
    conversions apply and undefined behaviour is the absence of a value. *)

From S2P Require Import Prelude CText CgText CgIr CgAst CgConst CgAmp CgExpr CgLower.

(** * C *)

Module CTarget.
Import CExprs Lower.

Inductive cty := I32 | U32 | I64.

Definition fits (t : cty) (z : Z) : bool :=
  match t with
  | I32 => (- 2 ^ 31 <=? z) && (z <? 2 ^ 31)
  | U32 => (0 <=? z) && (z <? 2 ^ 32)
  | I64 => (- 2 ^ 63 <=? z) && (z <? 2 ^ 63)
  end.

(** The usual arithmetic conversions. *)
Definition common (a b : cty) : cty :=
  match a, b with
  | I64, _ | _, I64 => I64
  | U32, _ | _, U32 => U32
  | I32, I32 => I32
  end.

Definition conv (t : cty) (z : Z) : Z :=
  match t with I32 => sgn 32 z | U32 => u32 z | I64 => sgn 64 z end.

(** The result of an operation in type [t]: signed overflow is undefined. *)
Definition result_in (t : cty) (z : Z) : option (cty * Z) :=
  match t with
  | U32 => Some (U32, u32 z)
  | _ => if fits t z then Some (t, z) else None
  end.

Definition truth (b : bool) : option (cty * Z) := Some (I32, if b then 1 else 0).

Definition width (t : cty) : Z := match t with I64 => 64 | _ => 32 end.

(** A binary operator other than [&&] and [||]. *)
Definition c_binop (op : text) (x y : cty * Z) : option (cty * Z) :=
  let '(tx, zx) := x in
  let '(ty, zy) := y in
  let t := common tx ty in
  let a := conv t zx in
  let b := conv t zy in
  if isa op "+" then result_in t (a + b)
  else if isa op "-" then result_in t (a - b)
  else if isa op "*" then result_in t (a * b)
  else if isa op "/" then if b =? 0 then None else result_in t (Z.quot a b)
  else if isa op "%" then if b =? 0 then None else if fits t (Z.quot a b) then result_in t (Z.rem a b) else None
  else if isa op "&" then result_in t (Z.land a b)
  else if isa op "|" then result_in t (Z.lor a b)
  else if isa op "^" then result_in t (Z.lxor a b)
  else if isa op "==" then truth (a =? b)
  else if isa op "!=" then truth (negb (a =? b))
  else if isa op "<" then truth (a <? b)
  else if isa op ">" then truth (b <? a)
  else if isa op "<=" then truth (a <=? b)
  else if isa op ">=" then truth (b <=? a)
  else if isa op "<<" then
    if (0 <=? zy) && (zy <? width tx) && (0 <=? zx) then result_in tx (Z.shiftl zx zy) else None
  else if isa op ">>" then
    if (0 <=? zy) && (zy <? width tx) then result_in tx (Z.shiftr zx zy) else None
  else None.

Record cst := mk_c {
  c_vars : text -> option Z;
  c_mem : nat -> Z;
  c_out : list Z
}.

(** A literal is an [int] when it fits; the minus sign is an operator. *)
Definition lit_ty (z : Z) : cty := if fits I32 (Z.abs z) then I32 else I64.

Definition atom_val (c : cst) (a : atom) : option (cty * Z) :=
  match a with
  | AInt z => if fits (lit_ty z) (Z.abs z) then Some (lit_ty z, z) else None
  | AName x => match c_vars c x with Some z => Some (I64, z) | None => None end
  | AMem slot => Some (U32, c_mem c slot)
  | _ => None
  end.

(** Expressions have no side effects; [None] is undefined or outside this model. *)
Fixpoint ceval (c : cst) (t : ctree) : option (cty * Z) :=
  match t with
  | TrAtom a => atom_val c a
  | TrBin op l r =>
      if isa op "&&" then
        match ceval c l with
        | Some (_, zl) =>
            if zl =? 0 then truth false
            else match ceval c r with Some (_, zr) => truth (negb (zr =? 0)) | None => None end
        | None => None
        end
      else if isa op "||" then
        match ceval c l with
        | Some (_, zl) =>
            if zl =? 0 then match ceval c r with Some (_, zr) => truth (negb (zr =? 0)) | None => None end
            else truth true
        | None => None
        end
      else
        match ceval c l, ceval c r with
        | Some x, Some y => c_binop op x y
        | _, _ => None
        end
  | _ => None
  end.

Definition set_var (x : text) (v : option Z) (c : cst) : cst :=
  mk_c (fun y => if text_eqb x y then v else c_vars c y) (c_mem c) (c_out c).
Definition set_mem (i : nat) (z : Z) (c : cst) : cst :=
  mk_c (c_vars c) (fun j => if (i =? j)%nat then z else c_mem c j) (c_out c).
Definition add_out (z : Z) (c : cst) : cst := mk_c (c_vars c) (c_mem c) (c_out c ++ [z]).

(** Leaving a block: what was declared in it is gone. *)
Definition leave (c0 c : cst) : cst :=
  mk_c (fun x => match c_vars c0 x with Some _ => c_vars c x | None => None end) (c_mem c) (c_out c).

Inductive cout :=
| CNext (c : cst)
| CReturn (v : option Z) (c : cst)
| CStuck.

Definition leave_out (c0 : cst) (o : cout) : cout :=
  match o with
  | CNext c => CNext (leave c0 c)
  | CReturn v c => CReturn v (leave c0 c)
  | CStuck => CStuck
  end.

(** The value of an expression, for a statement that uses it. *)
Definition with_val (c : cst) (e : CExpr) (k : Z -> cout) : cout :=
  match ceval c (tree e) with Some (_, z) => k z | None => CStuck end.

(** One line.  A second declaration of a name, a use of an undeclared one and a call
    of [amp_emit] where a variable hides it do not compile. *)
Fixpoint exec_line (l : cline) (c : cst) : cout :=
  let fix exec (ls : list cline) (c : cst) : cout :=
    match ls with
    | [] => CNext c
    | l :: ls' => match exec_line l c with CNext c' => exec ls' c' | o => o end
    end in
  match l with
  | LDecl x => match c_vars c x with Some _ => CStuck | None => CNext (set_var x (Some 0) c) end
  | LSet x e =>
      match c_vars c x with
      | Some _ => with_val c e (fun z => CNext (set_var x (Some (conv I64 z)) c))
      | None => CStuck
      end
  | LMemSet slot e => with_val c e (fun z => CNext (set_mem slot (conv U32 z) c))
  | LMemRmw slot op e =>
      match ceval c (TrBin op (TrAtom (AMem slot)) (tree e)) with
      | Some (_, z) => CNext (set_mem slot (conv U32 z) c)
      | None => CStuck
      end
  | LAmpEmit e =>
      match c_vars c (lit "amp_emit") with
      | Some _ => CStuck
      | None => with_val c e (fun z => CNext (add_out (u64 z) c))
      end
  | LVoid e => with_val c e (fun _ => CNext c)
  | LReturn None => CReturn None c
  | LReturn (Some e) => with_val c e (fun z => CReturn (Some (conv I32 z)) c)
  | LIf e th el =>
      with_val c e (fun z =>
        if negb (z =? 0) then leave_out c (exec th c)
        else match el with Some b => leave_out c (exec b c) | None => CNext c end)
  | _ => CStuck
  end.

Fixpoint exec (ls : list cline) (c : cst) : cout :=
  match ls with
  | [] => CNext c
  | l :: ls' => match exec_line l c with CNext c' => exec ls' c' | o => o end
  end.

Lemma exec_app a b c : exec (a ++ b) c = match exec a c with CNext c' => exec b c' | o => o end.
Proof.
  revert c; induction a as [|l a IH]; intros c; [reflexivity|]. cbn [app exec].
  destruct (exec_line l c); auto.
Qed.

Lemma exec_line_if e th el c : exec_line (LIf e th el) c =
  with_val c e (fun z =>
    if negb (z =? 0) then leave_out c (exec th c)
    else match el with Some b => leave_out c (exec b c) | None => CNext c end).
Proof. reflexivity. Qed.

End CTarget.

(** * Ruby *)

Module Source.
Import Names Ir Const Schema Ast Lower CTarget.

Inductive rval := VInt (z : Z) | VBool (b : bool) | VNil.

(** Only [false] and [nil] are false. *)
Definition truthy (v : rval) : bool := match v with VBool false | VNil => false | _ => true end.

Definition rval_eqb (a b : rval) : bool :=
  match a, b with
  | VInt x, VInt y => x =? y
  | VBool x, VBool y => Bool.eqb x y
  | VNil, VNil => true
  | _, _ => false
  end.

Inductive rexp :=
| RInt (z : Z)
| RConst (name : text)
| RLocal (x : text)
| RIvar (x : text)
| RParen (e : rexp)
| RBin (op : text) (a b : rexp)
| RAnd (a b : rexp)
| ROr (a b : rexp).

Inductive rstmt :=
| SLocal (x : text) (e : rexp)
| SIvar (x : text) (e : rexp)
| SIvarOp (x op : text) (e : rexp)
| SEmit (e : rexp)
| SReturn (e : rexp)
| SExpr (e : rexp)
| SIf (c : rexp) (th : rblock) (el : relse)
with rblock :=
| BNil
| BCons (s : rstmt) (b : rblock)
with relse :=
| ENone
| EElse (b : rblock)
| EElsif (c : rexp) (th : rblock) (el : relse).

Scheme rstmt_mut := Induction for rstmt Sort Prop
with rblock_mut := Induction for rblock Sort Prop
with relse_mut := Induction for relse Sort Prop.
Combined Scheme rsyntax_mutind from rstmt_mut, rblock_mut, relse_mut.

(** A handler sees its locals, the instance variables, which persist, and what has
    been published. *)
Record rst := mk_r {
  r_locals : text -> rval;
  r_ivars : text -> rval;
  r_out : list Z
}.

(** Integers are unbounded; [/] and [%] round towards minus infinity; [None] is an
    exception. *)
Definition r_int_op (op : text) (a b : Z) : option rval :=
  if isa op "+" then Some (VInt (a + b))
  else if isa op "-" then Some (VInt (a - b))
  else if isa op "*" then Some (VInt (a * b))
  else if isa op "/" then if b =? 0 then None else Some (VInt (a / b))
  else if isa op "%" then if b =? 0 then None else Some (VInt (a mod b))
  else if isa op "&" then Some (VInt (Z.land a b))
  else if isa op "|" then Some (VInt (Z.lor a b))
  else if isa op "^" then Some (VInt (Z.lxor a b))
  else if isa op "<" then Some (VBool (a <? b))
  else if isa op ">" then Some (VBool (b <? a))
  else if isa op "<=" then Some (VBool (a <=? b))
  else if isa op ">=" then Some (VBool (b <=? a))
  else if isa op "<<" then Some (VInt (Z.shiftl a b))
  else if isa op ">>" then Some (VInt (Z.shiftr a b))
  else None.

Definition r_binop (op : text) (a b : rval) : option rval :=
  if isa op "==" then Some (VBool (rval_eqb a b))
  else if isa op "!=" then Some (VBool (negb (rval_eqb a b)))
  else match a, b with VInt x, VInt y => r_int_op op x y | _, _ => None end.

Fixpoint reval (s : rst) (e : rexp) : option rval :=
  match e with
  | RInt z => Some (VInt z)
  | RConst n => option_map VInt (cc_known_const n)
  | RLocal x => Some (r_locals s x)
  | RIvar x => Some (r_ivars s x)
  | RParen e => reval s e
  | RBin op a b =>
      match reval s a, reval s b with
      | Some x, Some y => r_binop op x y
      | _, _ => None
      end
  | RAnd a b => match reval s a with Some x => if truthy x then reval s b else Some x | None => None end
  | ROr a b => match reval s a with Some x => if truthy x then Some x else reval s b | None => None end
  end.

Definition set_local (x : text) (v : rval) (s : rst) : rst :=
  mk_r (fun y => if text_eqb x y then v else r_locals s y) (r_ivars s) (r_out s).
Definition set_ivar (x : text) (v : rval) (s : rst) : rst :=
  mk_r (r_locals s) (fun y => if text_eqb x y then v else r_ivars s y) (r_out s).
Definition publish (z : Z) (s : rst) : rst := mk_r (r_locals s) (r_ivars s) (r_out s ++ [z]).

(** The value goes on, or the handler returns. *)
Inductive rout :=
| RNext (v : rval) (s : rst)
| RRet (v : rval) (s : rst).

Definition pub (v : rval) : option Z := match v with VInt z => Some (u64 z) | _ => None end.

Fixpoint rexec (s : rst) (st : rstmt) : option rout :=
  match st with
  | SLocal x e => option_map (fun v => RNext v (set_local x v s)) (reval s e)
  | SIvar x e => option_map (fun v => RNext v (set_ivar x v s)) (reval s e)
  | SIvarOp x op e => option_map (fun v => RNext v (set_ivar x v s)) (reval s (RBin op (RIvar x) e))
  | SEmit e =>
      match reval s e with
      | Some v => option_map (fun z => RNext VNil (publish z s)) (pub v)
      | None => None
      end
  | SReturn e => option_map (fun v => RRet v s) (reval s e)
  | SExpr e => option_map (fun v => RNext v s) (reval s e)
  | SIf c th el =>
      match reval s c with
      | Some v => if truthy v then rexec_block VNil s th else rexec_else s el
      | None => None
      end
  end
with rexec_block (last : rval) (s : rst) (b : rblock) : option rout :=
  match b with
  | BNil => Some (RNext last s)
  | BCons st b' =>
      match rexec s st with
      | Some (RNext v s') => rexec_block v s' b'
      | o => o
      end
  end
with rexec_else (s : rst) (el : relse) : option rout :=
  match el with
  | ENone => Some (RNext VNil s)
  | EElse b => rexec_block VNil s b
  | EElsif c th el =>
      match reval s c with
      | Some v => if truthy v then rexec_block VNil s th else rexec_else s el
      | None => None
      end
  end.

(** ** The nodes that stand for a program *)

Section Nodes.
Variable ast : AST.

Definition node_is (nid : Z) (ty : string) : Prop := nt_type ast nid = Some (lit ty).

(** An operand: parentheses hold their expression in a [StatementsNode]. *)
Fixpoint expr_at (e : rexp) (nid : Z) : Prop :=
  match e with
  | RInt z => node_is nid "IntegerNode" /\ nt_int ast nid (lit "value") 0 = z
  | RConst n => node_is nid "ConstantReadNode" /\ nt_str ast nid (lit "name") = Some n
  | RLocal x => node_is nid "LocalVariableReadNode" /\ nt_str ast nid (lit "name") = Some x
  | RIvar x => node_is nid "InstanceVariableReadNode" /\ nt_str ast nid (lit "name") = Some x
  | RParen e =>
      node_is nid "ParenthesesNode" /\
      exists b i, nt_ref ast nid (lit "body") = b /\ 0 <= b /\ node_is b "StatementsNode" /\
        nt_arr ast b (lit "body") = [i] /\ expr_at e i
  | RBin op a b =>
      node_is nid "CallNode" /\ nt_str ast nid (lit "name") = Some op /\ cc_is_binary_op op = true /\
      exists l g r, nt_ref ast nid (lit "receiver") = l /\ 0 <= l /\ nt_ref ast nid (lit "arguments") = g /\ 0 <= g /\
        node_is g "ArgumentsNode" /\ nt_arr ast g (lit "arguments") = [r] /\ expr_at a l /\ expr_at b r
  | RAnd a b =>
      node_is nid "AndNode" /\
      exists l r, nt_ref ast nid (lit "left") = l /\ 0 <= l /\ nt_ref ast nid (lit "right") = r /\ 0 <= r /\
        expr_at a l /\ expr_at b r
  | ROr a b =>
      node_is nid "OrNode" /\
      exists l r, nt_ref ast nid (lit "left") = l /\ 0 <= l /\ nt_ref ast nid (lit "right") = r /\ 0 <= r /\
        expr_at a l /\ expr_at b r
  end.

(** The expression under the key [k] of a node. *)
Definition expr_under (e : rexp) (nid : Z) (k : string) : Prop := 0 <= nt_ref ast nid (lit k) /\ expr_at e (nt_ref ast nid (lit k)).

Definition arg_of (e : rexp) (nid : Z) : Prop := exists a, args_of ast nid = [a] /\ expr_at e a.

(** The statements of a block: an absent node has none. *)
Definition block_at (P : list Z -> Prop) (nid : Z) : Prop :=
  if nid <? 0 then P [] else node_is nid "StatementsNode" /\ P (nt_arr ast nid (lit "body")).

Fixpoint stmt_at (st : rstmt) (nid : Z) : Prop :=
  match st with
  | SLocal x e => node_is nid "LocalVariableWriteNode" /\ nt_str ast nid (lit "name") = Some x /\ expr_under e nid "value"
  | SIvar x e => node_is nid "InstanceVariableWriteNode" /\ nt_str ast nid (lit "name") = Some x /\ expr_under e nid "value"
  | SIvarOp x op e =>
      node_is nid "InstanceVariableOperatorWriteNode" /\ nt_str ast nid (lit "name") = Some x /\
      nt_str ast nid (lit "binary_operator") = Some op /\ In op [lit "+"; lit "-"; lit "*"] /\ expr_under e nid "value"
  | SEmit e =>
      node_is nid "CallNode" /\ nt_str ast nid (lit "name") = Some (lit "spnl_emit") /\
      nt_ref ast nid (lit "receiver") < 0 /\ arg_of e nid
  | SReturn e => node_is nid "ReturnNode" /\ arg_of e nid
  | SExpr e => expr_at e nid
  | SIf c th el =>
      node_is nid "IfNode" /\ expr_under c nid "predicate" /\
      block_at (stmts_at th) (nt_ref ast nid (lit "statements")) /\ else_at el (nt_ref ast nid (lit "subsequent"))
  end
with stmts_at (b : rblock) (ids : list Z) : Prop :=
  match b, ids with
  | BNil, [] => True
  | BCons st b', i :: ids' => stmt_at st i /\ stmts_at b' ids'
  | _, _ => False
  end
with else_at (el : relse) (nid : Z) : Prop :=
  match el with
  | ENone => nid < 0
  | EElse b => 0 <= nid /\ node_is nid "ElseNode" /\ block_at (stmts_at b) (nt_ref ast nid (lit "statements"))
  | EElsif c th el =>
      0 <= nid /\ node_is nid "IfNode" /\ expr_under c nid "predicate" /\
      block_at (stmts_at th) (nt_ref ast nid (lit "statements")) /\ else_at el (nt_ref ast nid (lit "subsequent"))
  end.

End Nodes.

End Source.

(** * The generated code does what the source says *)

Module Simulation.
Import Names Ir Ivars CNames Const CExprs Schema Ast Lower CTarget Source.

(** Evaluates the comparisons of literals in the goal. *)
Ltac isa_eval :=
  repeat match goal with
  | |- context [isa (lit ?a) ?b] =>
      let v := eval vm_compute in (isa (lit a) b) in change (isa (lit a) b) with v
  end; cbn [orb andb negb].

Ltac isa_evals :=
  isa_eval;
  repeat match goal with
  | H : context [isa (lit ?a) ?b] |- _ =>
      let v := eval vm_compute in (isa (lit a) b) in change (isa (lit a) b) with v in H
  end; cbn [orb andb negb] in *.

(** ** Expressions *)

(** The word or variable that holds a value. *)
Definition enc (v : rval) : Z := match v with VInt z => z | VBool true => 1 | _ => 0 end.

Definition is_cmp (op : text) : bool :=
  existsb (isa op) ["=="; "!="; "<"; ">"; "<="; ">="]%string.
Definition is_shift (op : text) : bool := isa op "<<" || isa op ">>".

(** The C type of the expression an expression becomes. *)
Fixpoint rty (e : rexp) : cty :=
  match e with
  | RInt z => lit_ty z
  | RConst n => match cc_known_const n with Some z => lit_ty z | None => I32 end
  | RLocal _ => I64
  | RIvar _ => U32
  | RParen e => rty e
  | RBin op a b => if is_cmp op then I32 else if is_shift op then rty a else common (rty a) (rty b)
  | RAnd _ _ | ROr _ _ => I32
  end.

(** No condition is an integer: 0 is true in Ruby and false in C. *)
Definition logical (v : option rval) : bool := match v with Some (VBool _) | Some VNil => true | _ => false end.

(** An operation that Ruby and C agree on: operands and result are in the range of
    the C type, division is of non-negative numbers, shifts are within the width. *)
Definition tame_op (op : text) (ta tb : cty) (x y : rval) : bool :=
  let t := common ta tb in
  match x, y with
  | VInt a, VInt b =>
      if is_shift op then (0 <=? a) && (0 <=? b) && (b <? width ta) && (if isa op "<<" then fits ta (Z.shiftl a b) else true)
      else fits t a && fits t b &&
        (if isa op "/" || isa op "%" then (0 <=? a) && (0 <? b) else true) &&
        match r_int_op op a b with Some (VInt z) => fits t z | _ => true end
  | VBool _, VBool _ => isa op "==" || isa op "!="
  | _, _ => false
  end.

Fixpoint tame (s : rst) (e : rexp) : bool :=
  match e with
  | RInt z => fits (lit_ty z) (Z.abs z)
  | RConst n => match cc_known_const n with Some z => fits (lit_ty z) (Z.abs z) | None => true end
  | RLocal _ | RIvar _ => true
  | RParen e => tame s e
  | RBin op a b =>
      tame s a && tame s b &&
      match reval s a, reval s b with Some x, Some y => tame_op op (rty a) (rty b) x y | _, _ => true end
  | RAnd a b | ROr a b =>
      let shortcut := match e with RAnd _ _ => false | _ => true end in
      tame s a && logical (reval s a) &&
      match reval s a with
      | Some x => if Bool.eqb (truthy x) shortcut then true else tame s b && logical (reval s b)
      | None => true
      end
  end.

(** The slot of an instance variable in the final registry. *)
Definition slot_of (R : registry) (x : text) : nat := match find_slot R (strip_at x) 0 with Some i => i | None => 0 end.

(** The expression as C reads it. *)
Fixpoint cx (R : registry) (e : rexp) : ctree :=
  match e with
  | RInt z => TrAtom (AInt z)
  | RConst n => TrAtom (AInt match cc_known_const n with Some z => z | None => 0 end)
  | RLocal x => TrAtom (AName (cc_safe_dup x))
  | RIvar x => TrAtom (AMem (slot_of R x))
  | RParen e => cx R e
  | RBin op a b => TrBin op (cx R a) (cx R b)
  | RAnd a b => TrBin (lit "&&") (cx R a) (cx R b)
  | ROr a b => TrBin (lit "||") (cx R a) (cx R b)
  end.

Lemma conv_fits t z : fits t z = true -> conv t z = z.
Proof.
  destruct t; unfold fits, conv; intros H; bools.
  - apply sgn_small; lia.
  - apply wrap_small; lia.
  - apply sgn_small; lia.
Qed.

Lemma result_fits t z : fits t z = true -> result_in t z = Some (t, z).
Proof.
  intros H. unfold result_in. rewrite H. pose proof (conv_fits t z H) as E. destruct t; simpl in E; congruence.
Qed.

Lemma is_binary_op_cases op : cc_is_binary_op op = true ->
  In op (map lit ["+"; "-"; "*"; "/"; "%"; "=="; "!="; "<"; ">"; "<="; ">="; "&"; "|"; "^"; "<<"; ">>"]%string).
Proof.
  unfold cc_is_binary_op. rewrite existsb_exists. intros (s & Hs & E). apply text_eqb_eq in E. subst. now apply in_map.
Qed.

Section Handler.
(** The locals of the handler, and that their C names are distinct from each other,
    from the temporaries, from the parameter and from the helper. *)
Variable Locals : list text.
Hypothesis safe_inj : forall x y, In x Locals -> In y Locals -> cc_safe_dup x = cc_safe_dup y -> x = y.
Hypothesis safe_temp : forall x n, In x Locals -> cc_safe_dup x <> temp "_if" n.
Hypothesis safe_emit : forall x, In x Locals -> cc_safe_dup x <> lit "amp_emit".

(** The C state holds the Ruby state: locals in their variables, the instance
    variables of the registry in their words. *)
Record rel (R : registry) (s : rst) (c : cst) : Prop := mk_rel {
  rel_locals : forall x, In x Locals -> c_vars c (cc_safe_dup x) = Some (enc (r_locals s x)) /\ fits I64 (enc (r_locals s x)) = true;
  rel_ivars : forall x, ivar_name x -> In (strip_at x) R ->
    c_mem c (slot_of R x) = enc (r_ivars s x) /\ fits U32 (enc (r_ivars s x)) = true;
  rel_out : c_out c = r_out s;
  rel_emit : c_vars c (lit "amp_emit") = None
}.

(** Names are declared: locals of the handler, instance variables of the registry. *)
Fixpoint scoped (R : registry) (e : rexp) : Prop :=
  match e with
  | RInt _ | RConst _ => True
  | RLocal x => In x Locals
  | RIvar x => ivar_name x /\ In (strip_at x) R
  | RParen e => scoped R e
  | RBin op a b => cc_is_binary_op op = true /\ scoped R a /\ scoped R b
  | RAnd a b | ROr a b => scoped R a /\ scoped R b
  end.

Lemma fits_bool t (b : bool) : fits t (if b then 1 else 0) = true.
Proof. now destruct t, b. Qed.

Lemma lit_ty_fits z : fits (lit_ty z) (Z.abs z) = true -> fits (lit_ty z) z = true.
Proof.
  unfold lit_ty. destruct (fits I32 (Z.abs z)); cbn [fits]; intros H; bools; apply andb_true_iff; rewrite Z.leb_le, Z.ltb_lt; lia.
Qed.

Lemma fits_below t a z : fits t a = true -> 0 <= z <= a -> fits t z = true.
Proof. destruct t; cbn [fits]; intros H Hz; bools; apply andb_true_iff; rewrite Z.leb_le, Z.ltb_lt; lia. Qed.

Lemma binary_not_logical op : cc_is_binary_op op = true -> isa op "&&" = false /\ isa op "||" = false.
Proof.
  intros H. apply is_binary_op_cases in H. cbn [map In] in H.
  repeat destruct H as [<-|H]; try contradiction; split; reflexivity.
Qed.

Lemma enc_logical v : logical (Some v) = true -> (enc v =? 0) = negb (truthy v).
Proof. now destruct v as [|[]|]. Qed.

(** The operators agree where they are tame: integers. *)
Lemma int_op_agrees op ta tb a b v : cc_is_binary_op op = true -> tame_op op ta tb (VInt a) (VInt b) = true ->
  r_binop op (VInt a) (VInt b) = Some v -> fits ta a = true ->
  let t := if is_cmp op then I32 else if is_shift op then ta else common ta tb in
  c_binop op (ta, a) (tb, b) = Some (t, enc v) /\ fits t (enc v) = true.
Proof.
  intros Hop Ht Hv Ha. apply is_binary_op_cases in Hop. cbn [map In] in Hop.
  repeat destruct Hop as [<-|Hop]; try contradiction; unfold tame_op, r_binop, c_binop, r_int_op, is_cmp, is_shift in *;
    cbn [existsb rval_eqb] in *; isa_evals; bools; cbv zeta;
    rewrite ?conv_fits by assumption; try (injection Hv as <-; cbn [enc]).
  all: try (split; [apply result_fits|]; assumption).
  all: try (split; [reflexivity|apply fits_bool]).
  - destruct (Z.eqb_spec b 0); [discriminate|]. injection Hv as <-. cbn [enc]. rewrite Z.quot_div_nonneg by lia.
    now split; [apply result_fits|].
  - destruct (Z.eqb_spec b 0); [discriminate|]. injection Hv as <-. cbn [enc].
    rewrite Z.quot_div_nonneg, Z.rem_mod_nonneg by lia.
    rewrite (fits_below _ a (a / b)); [|assumption|split; [apply Z.div_pos|apply Z.div_le_upper_bound]; nia].
    now split; [apply result_fits|].
  - rewrite (proj2 (Z.leb_le 0 b)), (proj2 (Z.ltb_lt b (width ta))), (proj2 (Z.leb_le 0 a)) by assumption.
    now split; [apply result_fits|].
  - rewrite (proj2 (Z.leb_le 0 b)), (proj2 (Z.ltb_lt b (width ta))) by assumption.
    assert (F : fits ta (Z.shiftr a b) = true).
    { apply (fits_below _ a); [exact Ha|]. split; [now apply Z.shiftr_nonneg|].
      rewrite Z.shiftr_div_pow2 by assumption. pose proof (pow2_pos b). apply Z.div_le_upper_bound; nia. }
    now split; [apply result_fits|].
Qed.

Lemma binop_agrees op ta tb x y v : cc_is_binary_op op = true -> tame_op op ta tb x y = true -> r_binop op x y = Some v ->
  fits ta (enc x) = true ->
  let t := if is_cmp op then I32 else if is_shift op then ta else common ta tb in
  c_binop op (ta, enc x) (tb, enc y) = Some (t, enc v) /\ fits t (enc v) = true.
Proof.
  intros Hop Ht Hv Hx. destruct x as [a|a|], y as [b|b|]; try discriminate Ht; [now apply int_op_agrees|].
  cbn [tame_op] in Ht. apply orb_true_iff in Ht. unfold isa in Ht. rewrite !text_eqb_eq in Ht.
  assert (Hc : forall z : bool, conv (common ta tb) (if z then 1 else 0) = if z then 1 else 0)
    by (intros; apply conv_fits, fits_bool).
  destruct Ht as [->| ->]; unfold r_binop, c_binop, is_cmp in *; cbn [existsb rval_eqb] in *; isa_evals;
    injection Hv as <-; split; try apply fits_bool;
    change (enc (VBool a)) with (if a then 1 else 0); change (enc (VBool b)) with (if b then 1 else 0);
    rewrite !Hc; now destruct a, b.
Qed.

(** The lowered expression has the type that was computed and the value of the
    source. *)
Lemma ceval_cx R s c : rel R s c -> forall e v, scoped R e -> tame s e = true -> reval s e = Some v ->
  ceval c (cx R e) = Some (rty e, enc v) /\ fits (rty e) (enc v) = true.
Proof.
  intros HR. induction e as [z|n|x|x|e IH|op a IHa b IHb|a IHa b IHb|a IHa b IHb]; intros v Hs Ht Hv; cbn [scoped tame reval cx rty] in *.
  - injection Hv as <-. cbn [ceval atom_val enc]. rewrite Ht. auto using lit_ty_fits.
  - destruct (cc_known_const n) as [z|]; [|discriminate]. injection Hv as <-. cbn [ceval atom_val enc]. rewrite Ht. auto using lit_ty_fits.
  - injection Hv as <-. destruct (rel_locals _ _ _ HR x Hs) as [E F]. cbn [ceval atom_val]. now rewrite E.
  - injection Hv as <-. destruct Hs as [Hn Hi]. destruct (rel_ivars _ _ _ HR x Hn Hi) as [E F]. cbn [ceval atom_val]. now rewrite E.
  - auto.
  - destruct Hs as (Hop & Ha & Hb). bools. destruct (reval s a) as [x|]; [|discriminate]. destruct (reval s b) as [y|]; [|discriminate].
    destruct (IHa x) as [Ea Fa]; auto. destruct (IHb y) as [Eb Fb]; auto.
    cbn [ceval]. rewrite Ea, Eb. rewrite !(proj2 (binary_not_logical op Hop)), !(proj1 (binary_not_logical op Hop)).
    now apply binop_agrees.
  - destruct Hs as [Ha Hb]. bools. destruct (reval s a) as [x|]; [|discriminate]. destruct (IHa x) as [Ea Fa]; auto.
    cbn [ceval]. isa_eval. rewrite Ea, (enc_logical x) by assumption.
    destruct (truthy x) eqn:Tx; [|injection Hv as <-; now destruct x as [|[]|]].
    cbn [Bool.eqb negb] in *. bools. destruct (IHb v) as [Eb Fb]; try assumption.
    match goal with H : logical (reval s b) = true |- _ => rewrite Hv in H end. rewrite Eb, (enc_logical v) by assumption.
    now destruct v as [|[]|].
  - destruct Hs as [Ha Hb]. bools. destruct (reval s a) as [x|]; [|discriminate]. destruct (IHa x) as [Ea Fa]; auto.
    cbn [ceval]. isa_eval. rewrite Ea, (enc_logical x) by assumption.
    destruct (truthy x) eqn:Tx; [injection Hv as <-; now destruct x as [|[]|]|].
    cbn [Bool.eqb negb] in *. bools. destruct (IHb v) as [Eb Fb]; try assumption.
    match goal with H : logical (reval s b) = true |- _ => rewrite Hv in H end. rewrite Eb, (enc_logical v) by assumption.
    now destruct v as [|[]|].
Qed.

(** ** Lowering expressions *)

Variable E : genv.
Hypothesis amp : g_amp E = true.
Hypothesis no_captures : g_captures E = [].
Variable ast : AST.

(** The instance variables of the whole program fit the registry. *)
Variable U : list text.
Hypothesis U_room : (length U <= 64)%nat.

Definition reg_in (reg : registry) : Prop := reg_ok reg /\ incl reg U.

(** [R] is a later registry. *)
Definition ext (reg R : registry) : Prop := reg_ok R /\ exists new, R = reg ++ new.

Lemma ext_trans a b c : ext a b -> ext b c -> ext a c.
Proof. intros [_ [n ->]] [H [m ->]]. split; [exact H|]. exists (n ++ m). now rewrite app_assoc. Qed.

Lemma ext_refl a : reg_ok a -> ext a a.
Proof. intros H. split; [exact H|]. exists []. now rewrite app_nil_r. Qed.

Lemma find_slot_nth reg : NoDup reg -> forall b i k, nth_error reg k = Some b -> find_slot reg b i = Some (i + k)%nat.
Proof.
  induction 1 as [|x reg Hx _ IH]; intros b i k Hk; [now destruct k|]. cbn [find_slot].
  destruct k as [|k]; simpl in Hk.
  - injection Hk as ->. rewrite text_eqb_refl. f_equal. lia.
  - destruct (text_eqb_spec x b) as [->|_]; [exfalso; apply Hx; now apply nth_error_In in Hk|].
    rewrite (IH b (S i) k Hk). f_equal. lia.
Qed.

Lemma slot_ext reg R x i : ext reg R -> nth_error reg i = Some (strip_at x) -> slot_of R x = i /\ In (strip_at x) R.
Proof.
  intros [[HR _] [n ->]] H. assert (Hn : nth_error (reg ++ n) i = Some (strip_at x)).
  { rewrite nth_error_app1; [exact H|]. apply nth_error_Some. congruence. }
  split; [|now apply nth_error_In in Hn]. unfold slot_of. now rewrite (find_slot_nth _ HR _ 0 i Hn).
Qed.

(** The place of an instance variable of the program. *)
Lemma ivar_map_ok x s : reg_in (g_amp_ivars s) -> ivar_name x -> In (strip_at x) U ->
  exists i reg', cc_ivar_map E x s = Ok (InMem i, mk_g (g_body s) (g_if_counter s) reg') /\
    reg_in reg' /\ ext (g_amp_ivars s) reg' /\ forall R, ext reg' R -> slot_of R x = i /\ In (strip_at x) R.
Proof.
  intros [Hr Hi] Hn Hu. unfold cc_ivar_map. rewrite amp. rewrite <- (strip_ivar x Hn) in Hu.
  destruct (amp_ivar_slot (strip_at x) (g_amp_ivars s)) as [[i reg']|] eqn:Ea.
  - destruct (amp_ivar_slot_ok _ _ _ _ Hr Ea) as (H1 & H2 & H3 & H4). rewrite (strip_ivar x Hn) in H3.
    exists i, reg'. split; [reflexivity|]. split; [split; [exact H1|]|split; [now split|]].
    + intros y Hy. apply H4 in Hy as [Hy| ->]; auto.
    + intros R HR. now apply (slot_ext reg').
  - exfalso. apply amp_ivar_slot_full in Ea; [|exact Hr]. destruct Ea as [Hx Hl].
    assert (H : (length (strip_at (strip_at x) :: g_amp_ivars s) <= length U)%nat).
    { apply NoDup_incl_length; [constructor; [exact Hx|apply Hr]|]. intros y [<-|Hy]; auto. }
    cbn [length] in H. lia.
Qed.

Lemma ev_succ {A} (F : nat -> A) r : ev (fun f => F (S f)) r -> ev F r.
Proof. intros [n H]. exists (S n). intros [|f] Hf; [lia|]. apply H. lia. Qed.

Lemma ev_ext {A} (F G : nat -> A) r : (forall f, F f = G f) -> ev G r -> ev F r.
Proof. intros HE [n H]. exists n. intros f Hf. rewrite HE. auto. Qed.

Lemma ev_bind {A B} (m : nat -> M A) (k : nat -> A -> M B) s a s' r :
  ev (fun f => m f s) (Ok (a, s')) -> ev (fun f => k f a s') r -> ev (fun f => bind (m f) (k f) s) r.
Proof.
  intros [n Hn] [p Hp]. exists (n + p)%nat. intros f Hf. unfold bind. rewrite Hn by lia. apply Hp. lia.
Qed.

(** [m] lowers [e] without emitting lines: what is built is, for every later registry,
    the C expression of [e], and it prints as that expression. *)
Definition lowers_expr (m : nat -> M CExpr) (top : bool) (e : rexp) : Prop :=
  forall s, reg_in (g_amp_ivars s) ->
  exists le reg', ev (fun f => m f s) (Ok (le, mk_g (g_body s) (g_if_counter s) reg')) /\
    reg_in reg' /\ ext (g_amp_ivars s) reg' /\ flat_ok top le /\ ops_known le = true /\
    forall R, ext reg' R -> tree le = cx R e /\ scoped R e.

(** A leaf is lowered to one primary. *)
Definition lowers_leaf (m : nat -> M CExpr) (e : rexp) : Prop :=
  forall s, reg_in (g_amp_ivars s) ->
  exists a reg', ev (fun f => m f s) (Ok (CE_RAW a, mk_g (g_body s) (g_if_counter s) reg')) /\
    reg_in reg' /\ ext (g_amp_ivars s) reg' /\ forall R, ext reg' R -> TrAtom a = cx R e /\ scoped R e.

Lemma mk_g_eta s : mk_g (g_body s) (g_if_counter s) (g_amp_ivars s) = s.
Proof. now destruct s. Qed.

Lemma leaf_ret (m : nat -> M CExpr) e a : (forall f s, m (S f) s = Ok (CE_RAW a, s)) ->
  (forall R, TrAtom a = cx R e /\ scoped R e) -> lowers_leaf m e.
Proof.
  intros H Ha s Hs. exists a, (g_amp_ivars s). rewrite mk_g_eta. split; [|split; [exact Hs|split; [apply ext_refl, Hs|auto]]].
  apply ev_now. intros f. apply H.
Qed.

Lemma leaf_lowers m top e : lowers_leaf m e -> lowers_expr m top e.
Proof.
  intros H s Hs. destruct (H s Hs) as (a & reg' & H1 & H2 & H3 & H4). exists (CE_RAW a), reg'.
  repeat (split; [now trivial|]). exact H4.
Qed.

Lemma leaf_flat m (build : nat -> M CExpr) e : lowers_leaf m e ->
  (forall f, build (S f) = (x <- m f ;; ret (CE_FLAT x))) -> lowers_expr build false e.
Proof.
  intros H Hb s Hs. destruct (H s Hs) as (a & reg' & H1 & H2 & H3 & H4). exists (CE_FLAT (CE_RAW a)), reg'.
  split.
  { apply ev_succ. eapply ev_ext; [intros f; rewrite Hb; reflexivity|].
    apply (ev_bind m (fun _ x => ret (CE_FLAT x))) with (1 := H1). apply ev_const. }
  repeat (split; [now (trivial || (split; [exact I|now right]))|]). exact H4.
Qed.

(** One level of the lowering. *)
Ltac unroll :=
  cbn [lowering do_expr do_build do_stmt do_stmts do_branch do_if];
  unfold cc_lower_expr, cc_build_expr, cc_lower_stmt, stmts_loop, cc_branch_block, cc_if_node.

(** The equations of the lowering at each kind of node. *)
Ltac at_node H := unfold node_is in H; rewrite H; isa_eval.

Lemma binary_not_emit op : cc_is_binary_op op = true -> isa op "spnl_emit" = false.
Proof.
  intros H. apply is_binary_op_cases in H. cbn [map In] in H. repeat destruct H as [<-|H]; try contradiction; reflexivity.
Qed.

Lemma binary_prec op : cc_is_binary_op op = true -> ce_binop_prec op <> None.
Proof.
  intros H. apply is_binary_op_cases in H. cbn [map In] in H. repeat destruct H as [<-|H]; try contradiction; discriminate.
Qed.

Lemma arity_receiver nid name : 0 <= nt_ref ast nid (lit "receiver") -> cc_require_declared_arity ast nid (Some name) = ret tt.
Proof. intros H. unfold cc_require_declared_arity. now rewrite (proj2 (Z.leb_le _ _) H). Qed.

(** A node that is no statement form is an expression. *)
Lemma lower_stmt_default i f ty : nt_type ast i = Some ty ->
  existsb (isa ty) ["LocalVariableWriteNode"; "InstanceVariableWriteNode"; "InstanceVariableOperatorWriteNode"; "ReturnNode";
    "IfNode"; "ElseNode"; "StatementsNode"; "CallOperatorWriteNode"; "CallNode"]%string = false ->
  do_stmt (lowering E ast (S f)) i = (x <- do_expr (lowering E ast f) i ;; ret (Some x)).
Proof.
  intros Ht H. cbn [existsb] in H. repeat (apply orb_false_iff in H; destruct H as [?H H]).
  unroll. rewrite Ht. repeat match goal with H : isa ty _ = false |- _ => rewrite H; clear H end. reflexivity.
Qed.

Lemma lower_stmt_binop i f op : node_is ast i "CallNode" -> nt_str ast i (lit "name") = Some op -> cc_is_binary_op op = true ->
  0 <= nt_ref ast i (lit "receiver") -> do_stmt (lowering E ast (S f)) i = (x <- do_expr (lowering E ast f) i ;; ret (Some x)).
Proof.
  intros Ht Hn Hop Hl. unroll. at_node Ht. rewrite Hn, arity_receiver by lia.
  cbn [bind ret]. rewrite binary_not_emit, Hop by exact Hop. reflexivity.
Qed.

Lemma lower_stmt_expr e i f : expr_at ast e i ->
  do_stmt (lowering E ast (S f)) i = (x <- do_expr (lowering E ast f) i ;; ret (Some x)).
Proof.
  destruct e; cbn [expr_at]; intros H; try (destruct H as [T _]; now apply (lower_stmt_default i f _ T)).
  destruct H as (Ht & Hn & Hop & l & g & r & <- & Pl & _). now apply (lower_stmt_binop i f op).
Qed.

Lemma lower_bin f nid op l : node_is ast nid "CallNode" -> nt_str ast nid (lit "name") = Some op -> cc_is_binary_op op = true ->
  nt_ref ast nid (lit "receiver") = l -> 0 <= l ->
  do_expr (lowering E ast (S f)) nid = do_build (lowering E ast f) nid.
Proof. intros Ht Hn Hop Hl Pl. unroll. at_node Ht. rewrite Hn, arity_receiver by lia. cbn [bind ret]. now rewrite Hop. Qed.

Lemma build_bin f nid op l g r : node_is ast nid "CallNode" -> nt_str ast nid (lit "name") = Some op -> cc_is_binary_op op = true ->
  nt_ref ast nid (lit "receiver") = l -> 0 <= l -> nt_ref ast nid (lit "arguments") = g -> 0 <= g ->
  node_is ast g "ArgumentsNode" -> nt_arr ast g (lit "arguments") = [r] ->
  do_build (lowering E ast (S f)) nid =
  (lhs <- do_build (lowering E ast f) l ;; rhs <- do_build (lowering E ast f) r ;; ret (CE_BINOP op lhs rhs)).
Proof.
  intros Ht Hn Hop Hl Pl Hg Pg Hgt Ha. unroll. at_node Ht. rewrite Hn, Hop. unfold binop_operands.
  rewrite Hl, Hg, (proj2 (Z.ltb_ge l 0) Pl), (proj2 (Z.ltb_ge g 0) Pg). cbn [orb]. at_node Hgt. now rewrite Ha.
Qed.

Lemma build_logical f nid ty l r : ty = "OrNode"%string \/ ty = "AndNode"%string -> node_is ast nid ty ->
  nt_ref ast nid (lit "left") = l -> 0 <= l -> nt_ref ast nid (lit "right") = r -> 0 <= r ->
  do_expr (lowering E ast (S f)) nid = do_build (lowering E ast f) nid /\
  do_build (lowering E ast (S f)) nid =
  (lhs <- do_build (lowering E ast f) l ;; rhs <- do_build (lowering E ast f) r ;;
   ret (CE_BINOP (lit (if isa (lit ty) "OrNode" then "||" else "&&")) lhs rhs)).
Proof.
  intros Hty Ht Hl Pl Hr Pr. unroll. unfold node_is in Ht. rewrite Ht.
  rewrite Hl, Hr, (proj2 (Z.ltb_ge l 0) Pl), (proj2 (Z.ltb_ge r 0) Pr). destruct Hty as [->| ->]; isa_eval; split; reflexivity.
Qed.

(** Operators: the operands, left to right. *)
Lemma lowers_binop op l r a b (m : nat -> M CExpr) e :
  (forall f, m (S f) = (lhs <- do_build (lowering E ast f) l ;; rhs <- do_build (lowering E ast f) r ;; ret (CE_BINOP op lhs rhs))) ->
  ce_binop_prec op <> None -> (forall R, cx R e = TrBin op (cx R a) (cx R b)) -> (forall R, scoped R a -> scoped R b -> scoped R e) ->
  lowers_expr (fun f => do_build (lowering E ast f) l) false a -> lowers_expr (fun f => do_build (lowering E ast f) r) false b ->
  lowers_expr m false e.
Proof.
  intros Hm Hop Hc Hsc Ha Hb s Hs.
  destruct (Ha s Hs) as (la & ra & A1 & A2 & A3 & A4 & A5 & A6).
  destruct (Hb (mk_g (g_body s) (g_if_counter s) ra) A2) as (lb & rb & B1 & B2 & B3 & B4 & B5 & B6).
  exists (CE_BINOP op la lb), rb. split.
  { apply ev_succ. eapply ev_ext; [intros f; rewrite Hm; reflexivity|].
    eapply (ev_bind (fun f => do_build (lowering E ast f) l)); [exact A1|].
    eapply (ev_bind (fun f => do_build (lowering E ast f) r)); [exact B1|]. apply ev_const. }
  split; [exact B2|]. split; [now apply (ext_trans _ ra)|]. split; [now split|]. split.
  { cbn [ops_known]. rewrite A5, B5. now destruct (ce_binop_prec op). }
  intros R HR. destruct (B6 R HR) as [Tb Sb]. destruct (A6 R (ext_trans _ _ _ B3 HR)) as [Ta Sa].
  cbn [tree]. rewrite Ta, Tb, Hc. auto.
Qed.

Lemma lowers_succ (m m' : nat -> M CExpr) top e : (forall f, m (S f) = m' f) -> lowers_expr m' top e -> lowers_expr m top e.
Proof.
  intros Hm H s Hs. destruct (H s Hs) as (le & reg & H1 & H2). exists le, reg. split; [|exact H2].
  apply ev_succ. eapply ev_ext; [intros f; rewrite Hm; reflexivity|exact H1].
Qed.

Lemma lowers_top m e : lowers_expr m false e -> lowers_expr m true e.
Proof.
  intros H s Hs. destruct (H s Hs) as (le & reg & H1 & H2 & H3 & H4 & H5). exists le, reg.
  split; [exact H1|]. split; [exact H2|]. split; [exact H3|]. split; [now apply flat_ok_top|exact H5].
Qed.

(** One expression in a [StatementsNode]. *)
Lemma lowers_single b i e : node_is ast b "StatementsNode" -> nt_arr ast b (lit "body") = [i] -> expr_at ast e i ->
  lowers_expr (fun f => do_expr (lowering E ast f) i) true e -> lowers_expr (fun f => do_expr (lowering E ast f) b) true e.
Proof.
  intros Hb Ha He H s Hs. destruct (H s Hs) as (le & reg & H1 & H2). exists le, reg. split; [|exact H2].
  apply ev_succ. eapply ev_ext; [intros f; unroll; at_node Hb; reflexivity|].
  eapply (ev_bind (fun f => do_stmt (lowering E ast f) b)) with (a := Some le); [|apply ev_const].
  apply ev_succ. eapply ev_ext; [intros f; unroll; at_node Hb; rewrite Ha; reflexivity|].
  apply ev_succ. eapply ev_ext; [intros f; unroll; reflexivity|].
  eapply (ev_bind (fun _ => body_n)); [apply ev_const|].
  eapply (ev_bind (fun f => do_stmt (lowering E ast f) i) (fun f v => after <- body_n;; (ret tt) ;;; do_stmts (lowering E ast f) [] v)).
  { apply ev_succ. eapply ev_ext; [intros f; rewrite (lower_stmt_expr e) by exact He; reflexivity|].
    eapply (ev_bind (fun f => do_expr (lowering E ast f) i)); [exact H1|apply ev_const]. }
  eapply (ev_bind (fun _ => body_n)); [apply ev_const|]. apply ev_now. reflexivity.
Qed.

Lemma lowers_paren nid b i e : node_is ast nid "ParenthesesNode" -> nt_ref ast nid (lit "body") = b -> 0 <= b ->
  node_is ast b "StatementsNode" -> nt_arr ast b (lit "body") = [i] -> expr_at ast e i ->
  lowers_expr (fun f => do_expr (lowering E ast f) i) true e ->
  lowers_expr (fun f => do_expr (lowering E ast f) nid) true (RParen e) /\
  lowers_expr (fun f => do_build (lowering E ast f) nid) false (RParen e).
Proof.
  intros Hn Hb Pb Hs Ha He H. pose proof (lowers_single b i e Hs Ha He H) as Hl. apply Z.ltb_ge in Pb. split; intros s Hr.
  - destruct (Hl s Hr) as (le & reg & H1 & H2 & H3 & H4 & H5 & H6). exists (CE_PAREN le), reg.
    split; [|repeat (split; [assumption|]); exact H6].
    apply ev_succ. eapply ev_ext; [intros f; unroll; at_node Hn; rewrite Hb, Pb; reflexivity|].
    eapply (ev_bind (fun f => do_expr (lowering E ast f) b)); [exact H1|apply ev_const].
  - destruct (Hl s Hr) as (le & reg & H1 & H2 & H3 & H4 & H5 & H6). exists (CE_PAREN (CE_FLAT le)), reg.
    split; [|repeat (split; [assumption || (split; [assumption|now left])|]); exact H6].
    apply ev_succ. eapply ev_ext; [intros f; unroll; at_node Hn; rewrite Hb, Pb; reflexivity|].
    eapply (ev_bind (fun f => do_build (lowering E ast f) b)) with (a := CE_FLAT le); [|apply ev_const].
    apply ev_succ. eapply ev_ext; [intros f; unroll; at_node Hs; reflexivity|].
    eapply (ev_bind (fun f => do_expr (lowering E ast f) b)); [exact H1|apply ev_const].
Qed.

Lemma lowers_both e nid : lowers_leaf (fun f => do_expr (lowering E ast f) nid) e ->
  (forall f, do_build (lowering E ast (S f)) nid = (x <- do_expr (lowering E ast f) nid ;; ret (CE_FLAT x))) ->
  lowers_expr (fun f => do_expr (lowering E ast f) nid) true e /\ lowers_expr (fun f => do_build (lowering E ast f) nid) false e.
Proof. intros H Hb. split; [now apply leaf_lowers|now apply (leaf_flat (fun f => do_expr (lowering E ast f) nid))]. Qed.

(** Constants of the program are known. *)
Fixpoint consts_known (e : rexp) : Prop :=
  match e with
  | RConst n => cc_known_const n <> None
  | RInt _ | RLocal _ | RIvar _ => True
  | RParen e => consts_known e
  | RBin _ a b | RAnd a b | ROr a b => consts_known a /\ consts_known b
  end.

(** Every expression of the subset is lowered, in both positions. *)
Lemma expr_lowers e : forall nid, expr_at ast e nid -> scoped U e -> consts_known e ->
  lowers_expr (fun f => do_expr (lowering E ast f) nid) true e /\ lowers_expr (fun f => do_build (lowering E ast f) nid) false e.
Proof.
  induction e as [z|n|x|x|e IH|op a IHa b IHb|a IHa b IHb|a IHa b IHb]; intros nid H Hs Hk; cbn [expr_at scoped consts_known] in *.
  - destruct H as [Ht Hz]. apply lowers_both; [|intros f; unroll; at_node Ht; reflexivity].
    apply (leaf_ret _ _ (AInt z)); [|now split]. intros f s. unroll. at_node Ht. now rewrite Hz.
  - destruct H as [Ht Hn]. apply lowers_both; [|intros f; unroll; at_node Ht; reflexivity].
    destruct (cc_known_const n) as [z|] eqn:Ez; [|congruence].
    apply (leaf_ret _ _ (AInt z)); [|intros R; cbn [cx]; now rewrite Ez].
    intros f s. unroll. at_node Ht. now rewrite Hn, Ez.
  - destruct H as [Ht Hn]. apply lowers_both; [|intros f; unroll; at_node Ht; reflexivity].
    apply (leaf_ret _ _ (AName (cc_safe_dup x))); [|now split].
    intros f s. unroll. at_node Ht. now rewrite Hn, no_captures.
  - destruct H as [Ht Hn]. apply lowers_both; [|intros f; unroll; at_node Ht; reflexivity].
    destruct Hs as [Hi Hu]. intros s Hr. destruct (ivar_map_ok x s Hr Hi Hu) as (i & reg & H1 & H2 & H3 & H4).
    exists (AMem i), reg. split; [|split; [exact H2|split; [exact H3|]]].
    + apply ev_now. intros f. unroll. at_node Ht. rewrite Hn. unfold bind. rewrite H1. reflexivity.
    + intros R HR. cbn [cx scoped]. destruct (H4 R HR) as [-> ?]. auto.
  - destruct H as (Ht & b & i & Hb & Pb & Hbt & Ha & He). apply (lowers_paren nid b i e); auto. now apply IH.
  - destruct H as (Ht & Hn & Hop & l & g & r & Hl & Pl & Hg & Pg & Hgt & Ha & Ea & Eb). destruct Hs as (_ & Sa & Sb), Hk as [Ka Kb].
    assert (H : lowers_expr (fun f => do_build (lowering E ast f) nid) false (RBin op a b)).
    { apply (lowers_binop op l r a b); [intros f; now apply (build_bin f nid op l g r)|now apply binary_prec|reflexivity|now split| |];
        [now apply IHa|now apply IHb]. }
    split; [|exact H]. apply (lowers_succ _ (fun f => do_build (lowering E ast f) nid)); [|now apply lowers_top].
    intros f. now apply (lower_bin f nid op l).
  - destruct H as (Ht & l & r & Hl & Pl & Hr & Pr & Ea & Eb). destruct Hs as [Sa Sb], Hk as [Ka Kb].
    pose proof (fun f => build_logical f nid "AndNode" l r (or_intror eq_refl) Ht Hl Pl Hr Pr) as Hq.
    assert (H : lowers_expr (fun f => do_build (lowering E ast f) nid) false (RAnd a b)).
    { apply (lowers_binop (lit "&&") l r a b); [intros f; apply Hq|discriminate|reflexivity|now split| |]; [now apply IHa|now apply IHb]. }
    split; [|exact H]. apply (lowers_succ _ (fun f => do_build (lowering E ast f) nid)); [|now apply lowers_top]. intros f. apply Hq.
  - destruct H as (Ht & l & r & Hl & Pl & Hr & Pr & Ea & Eb). destruct Hs as [Sa Sb], Hk as [Ka Kb].
    pose proof (fun f => build_logical f nid "OrNode" l r (or_introl eq_refl) Ht Hl Pl Hr Pr) as Hq.
    assert (H : lowers_expr (fun f => do_build (lowering E ast f) nid) false (ROr a b)).
    { apply (lowers_binop (lit "||") l r a b); [intros f; apply Hq|discriminate|reflexivity|now split| |]; [now apply IHa|now apply IHb]. }
    split; [|exact H]. apply (lowers_succ _ (fun f => do_build (lowering E ast f) nid)); [|now apply lowers_top]. intros f. apply Hq.
Qed.

(** ** Statements *)

(** The run stays where Ruby and C agree. *)
Fixpoint tame_stmt (s : rst) (st : rstmt) : Prop :=
  match st with
  | SLocal _ e | SEmit e | SReturn e | SExpr e => tame s e = true
  | SIvar _ e => tame s e = true /\ forall v, reval s e = Some v -> fits U32 (enc v) = true
  | SIvarOp x op e =>
      let e' := RBin op (RIvar x) e in tame s e' = true /\ forall v, reval s e' = Some v -> fits U32 (enc v) = true
  | SIf c th el =>
      tame s c = true /\ logical (reval s c) = true /\
      match reval s c with Some v => if truthy v then tame_block s th else tame_else s el | None => True end
  end
with tame_block (s : rst) (b : rblock) : Prop :=
  match b with
  | BNil => True
  | BCons st b' => tame_stmt s st /\ match rexec s st with Some (RNext _ s') => tame_block s' b' | _ => True end
  end
with tame_else (s : rst) (el : relse) : Prop :=
  match el with
  | ENone => True
  | EElse b => tame_block s b
  | EElsif c th el =>
      tame s c = true /\ logical (reval s c) = true /\
      match reval s c with Some v => if truthy v then tame_block s th else tame_else s el | None => True end
  end.

(** Names and constants of the handler are declared; a value is returned only where
    the method has one. *)
Definition expr_ok (e : rexp) : Prop := scoped U e /\ consts_known e.
Definition ivar_ok (x : text) : Prop := ivar_name x /\ In (strip_at x) U.
Definition valued : Prop := ~ (m_ret (g_method E) = Types.CC_TY_VOID /\ m_so_kind (g_method E) = SO_NONE).

Fixpoint stmt_ok (st : rstmt) : Prop :=
  match st with
  | SLocal x e => In x Locals /\ expr_ok e
  | SIvar x e | SIvarOp x _ e => ivar_ok x /\ expr_ok e
  | SEmit e | SExpr e => expr_ok e
  | SReturn e => valued /\ expr_ok e
  | SIf c th el => expr_ok c /\ block_ok th /\ else_ok el
  end
with block_ok (b : rblock) : Prop :=
  match b with BNil => True | BCons st b' => stmt_ok st /\ block_ok b' end
with else_ok (el : relse) : Prop :=
  match el with
  | ENone => True
  | EElse b => block_ok b
  | EElsif c th el => expr_ok c /\ block_ok th /\ else_ok el
  end.

(** Every expression of the lines prints as the tree it is. *)
Definition good (e : CExpr) : Prop := flat_ok true e /\ ops_known e = true.

Fixpoint line_good (l : cline) : Prop :=
  match l with
  | LSet _ e | LSetCapture _ e | LMemSet _ e | LMemRmw _ _ e | LVal _ e | LValRmw _ _ _ e | LAmpEmit e
  | LRingEmit _ _ e | LVoid e | LReturn (Some e) => good e
  | LIf c th el =>
      good c /\ fold_right (fun x P => line_good x /\ P) True th /\
      match el with Some b => fold_right (fun x P => line_good x /\ P) True b | None => True end
  | _ => True
  end.

Definition lines_good (L : list cline) : Prop := fold_right (fun x P => line_good x /\ P) True L.

Lemma lines_good_app a b : lines_good a -> lines_good b -> lines_good (a ++ b).
Proof. intros Ha Hb. induction a; simpl in *; [exact Hb|]. intuition. Qed.

Definition val_good (v : option CExpr) : Prop := match v with Some e => good e | None => True end.

(** The value of a statement, where it is used. *)
Definition val_ok (v : option CExpr) (w : rval) (c : cst) : Prop :=
  match v with
  | Some e => (exists t, ceval c (tree e) = Some (t, enc w)) /\ fits I64 (enc w) = true
  | None => w = VNil
  end.

Definition fresh_above (n : Z) (c : cst) : Prop := forall k, n < k -> c_vars c (temp "_if" k) = None.
Definition frame (n : Z) (c c' : cst) : Prop := forall k, k <= n -> c_vars c' (temp "_if" k) = c_vars c (temp "_if" k).

(** What a run of the lines owes to the run of the source. *)
Definition result_ok (R : registry) (n n' : Z) (v : option CExpr) (L : list cline) (c : cst) (out : rout) : Prop :=
  match out with
  | RNext w s' => exists c', exec L c = CNext c' /\ rel R s' c' /\ fresh_above n' c' /\ frame n c c' /\ val_ok v w c'
  | RRet w s' => exists c', exec L c = CReturn (Some (conv I32 (enc w))) c' /\ rel R s' c'
  end.

(** [m] lowers a statement whose runs are [ex]. *)
Definition lowers_stmt (m : nat -> M (option CExpr)) (tm : rst -> Prop) (ex : rst -> option rout) : Prop :=
  forall s, reg_in (g_amp_ivars s) ->
  exists L v n' reg', ev (fun f => m f s) (Ok (v, mk_g (g_body s ++ L) n' reg')) /\
    reg_in reg' /\ ext (g_amp_ivars s) reg' /\ g_if_counter s <= n' /\ lines_good L /\ val_good v /\
    forall R st c out, ext reg' R -> rel R st c -> fresh_above (g_if_counter s) c -> tm st -> ex st = Some out ->
      result_ok R (g_if_counter s) n' v L c out.

Lemma temp_inj a b : temp "_if" a = temp "_if" b -> a = b.
Proof.
  unfold temp. intros H. apply app_inv_head in H. apply (f_equal atoi) in H. now rewrite !atoi_dec_s in H.
Qed.

Lemma fits_I64 t z : fits t z = true -> fits I64 z = true.
Proof. destruct t; cbn [fits]; intros H; bools; apply andb_true_iff; rewrite Z.leb_le, Z.ltb_lt; lia. Qed.

Lemma set_var_eq x v c : c_vars (set_var x v c) x = v.
Proof. simpl. now rewrite text_eqb_refl. Qed.

Lemma set_var_ne x y v c : x <> y -> c_vars (set_var x v c) y = c_vars c y.
Proof. intros H. simpl. destruct (text_eqb_spec x y); congruence. Qed.

Lemma rel_set_local R s c x w : rel R s c -> In x Locals -> fits I64 (enc w) = true ->
  rel R (set_local x w s) (set_var (cc_safe_dup x) (Some (enc w)) c).
Proof.
  intros H Hx Hw. constructor; try apply H.
  - intros y Hy. cbn [set_local r_locals]. destruct (text_eqb_spec x y) as [->|Hn].
    + now rewrite set_var_eq.
    + rewrite set_var_ne; [now apply H|]. intros Hc. now apply Hn, safe_inj.
  - rewrite set_var_ne; [apply H|]. now apply safe_emit.
Qed.

Lemma slot_of_inj R x y : reg_ok R -> ivar_name x -> ivar_name y -> In (strip_at x) R -> In (strip_at y) R ->
  slot_of R x = slot_of R y -> x = y.
Proof.
  intros [HR _] Nx Ny Hx Hy H. unfold slot_of in H.
  destruct (find_slot R (strip_at x) 0) as [i|] eqn:Ei; [|now apply find_slot_none in Ei].
  destruct (find_slot R (strip_at y) 0) as [j|] eqn:Ej; [|now apply find_slot_none in Ej]. subst j.
  apply find_slot_spec in Ei, Ej. apply strip_ivar_inj; [exact Nx|exact Ny|]. destruct Ei, Ej. congruence.
Qed.

Lemma rel_set_ivar R s c x w : reg_ok R -> rel R s c -> ivar_name x -> In (strip_at x) R -> fits U32 (enc w) = true ->
  rel R (set_ivar x w s) (set_mem (slot_of R x) (enc w) c).
Proof.
  intros HR H Hn Hx Hw. constructor; try apply H. intros y Ny Hy. cbn [set_ivar r_ivars set_mem c_mem].
  destruct (text_eqb_spec x y) as [->|Hne]; [now rewrite Nat.eqb_refl|].
  destruct (Nat.eqb_spec (slot_of R x) (slot_of R y)) as [He|_]; [exfalso; apply Hne; now apply (slot_of_inj R)|].
  now apply H.
Qed.

Lemma rel_temp R s c n v : rel R s c -> rel R s (set_var (temp "_if" n) v c).
Proof.
  intros H. constructor; try apply H.
  - intros x Hx. rewrite set_var_ne; [now apply H|]. intros Hc. now apply (safe_temp x n Hx).
Qed.

Lemma rel_leave R s0 s c0 c : rel R s0 c0 -> rel R s c -> rel R s (leave c0 c).
Proof.
  intros H0 H. constructor; try apply H.
  - intros x Hx. cbn [leave c_vars]. rewrite (proj1 (rel_locals _ _ _ H0 x Hx)). now apply H.
  - cbn [leave c_vars]. now rewrite (rel_emit _ _ _ H0).
Qed.

Lemma fresh_above_mono n n' c : n <= n' -> fresh_above n c -> fresh_above n' c.
Proof. intros Hn H k Hk. apply H. lia. Qed.

(** The value of a lowered expression in a related state. *)
Lemma good_val R st c e le v : rel R st c -> tree le = cx R e -> scoped R e -> tame st e = true -> reval st e = Some v ->
  ceval c (tree le) = Some (rty e, enc v) /\ fits I64 (enc v) = true.
Proof.
  intros HR -> Hs Ht Hv. destruct (ceval_cx R st c HR e v Hs Ht Hv) as [H F]. split; [exact H|]. now apply fits_I64 in F.
Qed.

(** A statement that lowers its expression and pushes one line. *)
Lemma lowers_one (m : nat -> M (option CExpr)) nid e tm ex (line : CExpr -> cline) v :
  (forall f, m (S f) = (x <- do_expr (lowering E ast f) nid ;; push (line x) ;;; ret v)) ->
  expr_at ast e nid -> expr_ok e -> (forall x, good x -> line_good (line x)) -> val_good v ->
  (forall R st c out le n, ext [] R -> rel R st c -> fresh_above n c -> tm st -> ex st = Some out ->
     tree le = cx R e -> scoped R e -> result_ok R n n v [line le] c out) ->
  lowers_stmt m tm ex.
Proof.
  intros Hm He [Hs Hk] Hl Hv Hsem s Hr.
  destruct (proj1 (expr_lowers e nid He Hs Hk) s Hr) as (le & reg & H1 & H2 & H3 & H4 & H5 & H6).
  exists [line le], v, (g_if_counter s), reg. split.
  { apply ev_succ. eapply ev_ext; [intros f; rewrite Hm; reflexivity|].
    eapply (ev_bind (fun f => do_expr (lowering E ast f) nid)); [exact H1|apply ev_const]. }
  repeat (split; [first [assumption | lia | (split; [now apply Hl|exact I])]|]).
  intros R st c out HR Hrel Hf Ht Hx. destruct (H6 R HR) as [T S]. apply (Hsem R st c out le); auto.
  split; [apply HR|]. now exists R.
Qed.

Lemma frame_refl n c c' : (forall k, c_vars c' (temp "_if" k) = c_vars c (temp "_if" k)) -> frame n c c'.
Proof. intros H k _. apply H. Qed.

Lemma fresh_same n c c' : (forall k, c_vars c' (temp "_if" k) = c_vars c (temp "_if" k)) -> fresh_above n c -> fresh_above n c'.
Proof. intros H Hf k Hk. rewrite H. auto. Qed.

Lemma lower_local_eq f nid x v : node_is ast nid "LocalVariableWriteNode" -> nt_str ast nid (lit "name") = Some x ->
  nt_ref ast nid (lit "value") = v -> 0 <= v ->
  do_stmt (lowering E ast (S f)) nid =
  (e <- do_expr (lowering E ast f) v ;;
   (if existsb (text_eqb (cc_safe_dup x)) (g_captures E)
    then push (LSetCapture (cc_safe_dup x) e) ;;; ret (Some (CE_RAW (ACapture (cc_safe_dup x))))
    else push (LSet (cc_safe_dup x) e) ;;; ret (Some (var (cc_safe_dup x))))).
Proof.
  intros Ht Hn Hv Pv. unroll. at_node Ht. rewrite Hn, Hv, (proj2 (Z.ltb_ge v 0) Pv). reflexivity.
Qed.

Lemma local_lowers x e nid : stmt_at ast (SLocal x e) nid -> stmt_ok (SLocal x e) ->
  lowers_stmt (fun f => do_stmt (lowering E ast f) nid) (fun s => tame_stmt s (SLocal x e)) (fun s => rexec s (SLocal x e)).
Proof.
  intros (Ht & Hn & Pv & He) [Hx Hok].
  apply (lowers_one _ (nt_ref ast nid (lit "value")) e _ _ (LSet (cc_safe_dup x)) (Some (var (cc_safe_dup x))));
    [intros f; erewrite (lower_local_eq f nid x) by (eauto || reflexivity); now rewrite no_captures|exact He|exact Hok|auto|now split|].
  intros R st c out le n HR Hrel Hf Htm Hex T S. cbn [tame_stmt rexec] in *. destruct (reval st e) as [w|] eqn:Ew; [|discriminate].
  injection Hex as <-. destruct (good_val R st c e le w Hrel T S Htm Ew) as [Hc F].
  assert (Hd : forall k, c_vars (set_var (cc_safe_dup x) (Some (enc w)) c) (temp "_if" k) = c_vars c (temp "_if" k))
    by (intros k; apply set_var_ne, safe_temp, Hx).
  exists (set_var (cc_safe_dup x) (Some (enc w)) c). split.
  { cbn [exec exec_line]. rewrite (proj1 (rel_locals _ _ _ Hrel x Hx)). unfold with_val. now rewrite Hc, conv_fits. }
  split; [now apply rel_set_local|]. split; [now apply (fresh_same _ c)|]. split; [now apply frame_refl|].
  split; [|exact F]. exists I64. cbn [tree var ceval atom_val]. now rewrite set_var_eq.
Qed.

Lemma lower_emit_eq f nid a : node_is ast nid "CallNode" -> nt_str ast nid (lit "name") = Some (lit "spnl_emit") ->
  nt_ref ast nid (lit "receiver") < 0 -> args_of ast nid = [a] ->
  do_stmt (lowering E ast (S f)) nid =
  (val <- do_expr (lowering E ast f) a ;;
   (if g_amp E then push (LAmpEmit val) else e <- fresh ;; push (LRingEmit (g_unit E) e val)) ;;;
   ret (Some (num 0))).
Proof.
  intros Ht Hn Hrc Ha. unroll. at_node Ht. rewrite Hn. unfold cc_require_declared_arity.
  rewrite (proj2 (Z.leb_gt _ _) Hrc). change (Const.lookup cc_declared_arity (lit "spnl_emit")) with (@None Z).
  cbn [bind ret]. isa_eval. rewrite Ha. reflexivity.
Qed.

Lemma emit_lowers e nid : stmt_at ast (SEmit e) nid -> stmt_ok (SEmit e) ->
  lowers_stmt (fun f => do_stmt (lowering E ast f) nid) (fun s => tame_stmt s (SEmit e)) (fun s => rexec s (SEmit e)).
Proof.
  intros (Ht & Hn & Hrc & a & Ha & He) Hok.
  eapply (lowers_one _ a e _ _ LAmpEmit (Some (num 0))); [|exact He|exact Hok|auto|now split|].
  { intros f. rewrite (lower_emit_eq f nid a) by assumption. now rewrite amp. }
  intros R st c out le n HR Hrel Hf Htm Hex T S. cbn [tame_stmt rexec] in *. destruct (reval st e) as [w|] eqn:Ew; [|discriminate].
  destruct w as [z| |]; try discriminate Hex. injection Hex as <-.
  destruct (good_val R st c e le (VInt z) Hrel T S Htm Ew) as [Hc F].
  exists (add_out (u64 z) c). split.
  { cbn [exec exec_line]. rewrite (rel_emit _ _ _ Hrel). unfold with_val. now rewrite Hc. }
  split; [|split; [exact Hf|split; [now apply frame_refl|split; [now exists I32|reflexivity]]]].
  constructor; try apply Hrel. cbn [add_out c_out publish r_out]. now rewrite (rel_out _ _ _ Hrel).
Qed.

Lemma lower_return_eq f nid a : node_is ast nid "ReturnNode" -> args_of ast nid = [a] ->
  do_stmt (lowering E ast (S f)) nid =
  match m_ret (g_method E), m_so_kind (g_method E) with
  | Types.CC_TY_VOID, SO_NONE => fail ValuedReturn
  | _, _ => x <- do_expr (lowering E ast f) a ;; push (LReturn (Some x)) ;;; ret None
  end.
Proof. intros Ht Ha. unroll. at_node Ht. rewrite Ha. reflexivity. Qed.

Lemma return_lowers e nid : stmt_at ast (SReturn e) nid -> stmt_ok (SReturn e) ->
  lowers_stmt (fun f => do_stmt (lowering E ast f) nid) (fun s => tame_stmt s (SReturn e)) (fun s => rexec s (SReturn e)).
Proof.
  intros (Ht & a & Ha & He) [Hv Hok].
  eapply (lowers_one _ a e _ _ (fun x => LReturn (Some x)) None); [|exact He|exact Hok|auto|exact I|].
  { intros f. rewrite (lower_return_eq f nid a) by assumption. unfold valued in Hv.
    destruct (m_ret (g_method E)), (m_so_kind (g_method E)); try reflexivity. exfalso. now apply Hv. }
  intros R st c out le n HR Hrel Hf Htm Hex T S. cbn [tame_stmt rexec] in *. destruct (reval st e) as [w|] eqn:Ew; [|discriminate].
  injection Hex as <-. destruct (good_val R st c e le w Hrel T S Htm Ew) as [Hc F].
  exists c. split; [|exact Hrel]. cbn [exec exec_line]. unfold with_val. now rewrite Hc.
Qed.

Lemma expr_stmt_lowers e nid : stmt_at ast (SExpr e) nid -> stmt_ok (SExpr e) ->
  lowers_stmt (fun f => do_stmt (lowering E ast f) nid) (fun s => tame_stmt s (SExpr e)) (fun s => rexec s (SExpr e)).
Proof.
  intros He [Hs Hk] s Hr.
  destruct (proj1 (expr_lowers e nid He Hs Hk) s Hr) as (le & reg & H1 & H2 & H3 & H4 & H5 & H6).
  exists [], (Some le), (g_if_counter s), reg. split.
  { apply ev_succ. eapply ev_ext; [intros f; rewrite (lower_stmt_expr e nid f He); reflexivity|].
    eapply (ev_bind (fun f => do_expr (lowering E ast f) nid)); [exact H1|]. rewrite app_nil_r. apply ev_const. }
  repeat (split; [first [assumption | lia | exact I | now split]|]).
  intros R st c out HR Hrel Hf Htm Hex. cbn [tame_stmt rexec] in *. destruct (reval st e) as [w|] eqn:Ew; [|discriminate].
  injection Hex as <-. destruct (H6 R HR) as [T S]. destruct (good_val R st c e le w Hrel T S Htm Ew) as [Hc F].
  exists c. repeat (split; [first [reflexivity | assumption | now apply frame_refl]|]). split; [now exists (rty e)|exact F].
Qed.

(** Assignments to an instance variable: the right-hand side first, then the slot. *)
Lemma lowers_mem (m : nat -> M (option CExpr)) nid x e e' tm ex (K : ivar_place -> CExpr -> M CExpr) line :
  (forall f, m (S f) = (rhs <- do_expr (lowering E ast f) nid ;; p <- cc_ivar_map E x ;; r <- K p rhs ;; ret (Some r))) ->
  (forall i rhs, K (InMem i) rhs = (push (line i rhs) ;;; ret (CE_RAW (AMem i)))) ->
  (forall i rhs, good rhs -> line_good (line i rhs)) ->
  expr_at ast e nid -> expr_ok e -> ivar_ok x ->
  (forall R, scoped R e -> ivar_name x -> In (strip_at x) R -> scoped R e') ->
  (forall st, tm st -> tame st e' = true /\ forall v, reval st e' = Some v -> fits U32 (enc v) = true) ->
  (forall st, ex st = option_map (fun v => RNext v (set_ivar x v st)) (reval st e')) ->
  (forall R c rhs i w t, tree rhs = cx R e -> slot_of R x = i -> ceval c (cx R e') = Some (t, enc w) -> fits U32 (enc w) = true ->
     exec [line i rhs] c = CNext (set_mem i (enc w) c)) ->
  lowers_stmt m tm ex.
Proof.
  intros Hm HK Hl He [Hs Hk] [Hn Hu] Hsc Htm Hex Hrun s Hr.
  destruct (proj1 (expr_lowers e nid He Hs Hk) s Hr) as (le & reg & H1 & H2 & H3 & H4 & H5 & H6).
  destruct (ivar_map_ok x (mk_g (g_body s) (g_if_counter s) reg) H2 Hn Hu) as (i & reg2 & J1 & J2 & J3 & J4).
  exists [line i le], (Some (CE_RAW (AMem i))), (g_if_counter s), reg2. split.
  { apply ev_succ. eapply ev_ext; [intros f; rewrite Hm; reflexivity|].
    eapply (ev_bind (fun f => do_expr (lowering E ast f) nid)); [exact H1|].
    eapply (ev_bind (fun _ => cc_ivar_map E x)); [rewrite J1; apply ev_const|]. eapply ev_ext; [intros f; rewrite HK; reflexivity|].
    apply ev_const. }
  split; [exact J2|]. split; [now apply (ext_trans _ reg)|]. split; [lia|]. split; [split; [now apply Hl|exact I]|]. split; [now split|].
  intros R st c out HR Hrel Hf Ht Hx. rewrite Hex in Hx. destruct (reval st e') as [w|] eqn:Ew; [|discriminate]. injection Hx as <-.
  destruct (H6 R (ext_trans _ _ _ J3 HR)) as [T S], (J4 R HR) as [Hi Hin], (Htm st Ht) as [Hte Hfw].
  destruct (ceval_cx R st c Hrel e' w (Hsc R S Hn Hin) Hte Ew) as [Hc _]. specialize (Hfw w Ew).
  exists (set_mem i (enc w) c). split; [now apply (Hrun R c le i w (rty e'))|].
  subst i. split; [apply rel_set_ivar; auto; apply HR|]. split; [exact Hf|]. split; [now apply frame_refl|].
  split; [|now apply (fits_I64 U32)]. exists U32. cbn [tree ceval atom_val set_mem c_mem]. now rewrite Nat.eqb_refl.
Qed.

Lemma lower_ivar_eq f nid x v : node_is ast nid "InstanceVariableWriteNode" -> nt_str ast nid (lit "name") = Some x ->
  nt_ref ast nid (lit "value") = v -> 0 <= v ->
  do_stmt (lowering E ast (S f)) nid =
  (rhs <- do_expr (lowering E ast f) v ;; p <- cc_ivar_map E x ;; r <- cc_emit_ivar_write p rhs ;; ret (Some r)).
Proof. intros Ht Hn Hv Pv. unroll. at_node Ht. rewrite Hn, Hv, (proj2 (Z.ltb_ge v 0) Pv). reflexivity. Qed.

Lemma ivar_lowers x e nid : stmt_at ast (SIvar x e) nid -> stmt_ok (SIvar x e) ->
  lowers_stmt (fun f => do_stmt (lowering E ast f) nid) (fun s => tame_stmt s (SIvar x e)) (fun s => rexec s (SIvar x e)).
Proof.
  intros (Ht & Hn & Pv & He) [Hx Hok].
  eapply (lowers_mem _ (nt_ref ast nid (lit "value")) x e e _ _ cc_emit_ivar_write LMemSet); try easy.
  - intros f. now apply lower_ivar_eq.
  - intros R c rhs i w t T Hi Hc F. cbn [exec exec_line]. unfold with_val. rewrite T, Hc. now rewrite conv_fits.
Qed.

Lemma lower_ivar_op_eq f nid x op v : node_is ast nid "InstanceVariableOperatorWriteNode" -> nt_str ast nid (lit "name") = Some x ->
  nt_str ast nid (lit "binary_operator") = Some op -> isa op "+" || isa op "-" || isa op "*" = true ->
  nt_ref ast nid (lit "value") = v ->
  do_stmt (lowering E ast (S f)) nid =
  (rhs <- do_expr (lowering E ast f) v ;; p <- cc_ivar_map E x ;; r <- cc_emit_ivar_rmw p op rhs ;; ret (Some r)).
Proof. intros Ht Hn Ho Hop Hv. unroll. at_node Ht. rewrite Hn, Ho, Hop, Hv. reflexivity. Qed.

Lemma ivar_op_lowers x op e nid : stmt_at ast (SIvarOp x op e) nid -> stmt_ok (SIvarOp x op e) ->
  lowers_stmt (fun f => do_stmt (lowering E ast f) nid) (fun s => tame_stmt s (SIvarOp x op e)) (fun s => rexec s (SIvarOp x op e)).
Proof.
  intros (Ht & Hn & Ho & Hop & Pv & He) [Hx Hok].
  assert (Hops : isa op "+" || isa op "-" || isa op "*" = true /\ cc_is_binary_op op = true)
    by (destruct Hop as [<-|[<-|[<-|[]]]]; split; reflexivity).
  eapply (lowers_mem _ (nt_ref ast nid (lit "value")) x e (RBin op (RIvar x) e) _ _ (fun p => cc_emit_ivar_rmw p op) (fun i => LMemRmw i op)); try easy.
  - intros f. now apply lower_ivar_op_eq.
  - intros R c rhs i w t T <- Hc F. cbn [exec exec_line]. rewrite T. cbn [cx] in Hc. rewrite Hc. now rewrite conv_fits.
Qed.

(** ** Sequences and branches *)

Definition lowers_loop (ids : list Z) (b : rblock) : Prop :=
  forall s last, reg_in (g_amp_ivars s) -> val_good last ->
  exists L v n' reg', ev (fun f => do_stmts (lowering E ast f) ids last s) (Ok (v, mk_g (g_body s ++ L) n' reg')) /\
    reg_in reg' /\ ext (g_amp_ivars s) reg' /\ g_if_counter s <= n' /\ lines_good L /\ val_good v /\
    forall R st c w out, ext reg' R -> rel R st c -> fresh_above (g_if_counter s) c -> val_ok last w c ->
      tame_block st b -> rexec_block w st b = Some out -> result_ok R (g_if_counter s) n' v L c out.

(** The line a value-only statement leaves behind when it is not the last. *)
Definition void_line (ids' : list Z) (v : option CExpr) (L : list cline) : list cline :=
  match ids', v with
  | _ :: _, Some e => if (length L =? 0)%nat && nonempty_text e then [LVoid e] else []
  | _, _ => []
  end.

Lemma void_runs ids' v L w c : val_ok v w c -> exec (void_line ids' v L) c = CNext c.
Proof.
  intros H. unfold void_line. destruct ids', v as [e|]; try reflexivity. destruct (_ && _); [|reflexivity].
  destruct H as [[t Ht] _]. cbn [exec exec_line]. unfold with_val. now rewrite Ht.
Qed.

Lemma void_good ids' v L : val_good v -> lines_good (void_line ids' v L).
Proof. intros H. unfold void_line. destruct ids', v as [e|]; try exact I. destruct (_ && _); [now split|exact I]. Qed.

Lemma void_pushed ids' v L s s1 : g_body s1 = g_body s ++ L ->
  (match ids', v with
   | _ :: _, Some e => if (length (g_body s1) =? length (g_body s))%nat && nonempty_text e then push (LVoid e) else ret tt
   | _, _ => ret tt
   end) s1 = Ok (tt, mk_g (g_body s ++ L ++ void_line ids' v L) (g_if_counter s1) (g_amp_ivars s1)).
Proof.
  intros Hb. assert (Hl : (length (g_body s1) =? length (g_body s))%nat = (length L =? 0)%nat).
  { rewrite Hb, length_app. destruct L as [|x L]; simpl.
    - now rewrite Nat.add_0_r, Nat.eqb_refl.
    - apply Nat.eqb_neq. lia. }
  rewrite Hl. unfold void_line. destruct ids', v as [e|]; try destruct (_ && _); unfold push, ret;
    rewrite ?app_nil_r, ?Hb, <- ?app_assoc; destruct s1; simpl in *; subst; now rewrite ?app_nil_r.
Qed.

Lemma frame_trans n n1 a b c : n <= n1 -> frame n a b -> frame n1 b c -> frame n a c.
Proof. intros Hn H1 H2 k Hk. rewrite H2 by lia. now apply H1. Qed.

Lemma loop_nil : lowers_loop [] BNil.
Proof.
  intros s last Hr Hl. exists [], last, (g_if_counter s), (g_amp_ivars s). split.
  { apply ev_now. intros f. unroll. rewrite app_nil_r. now rewrite mk_g_eta. }
  split; [exact Hr|]. split; [apply ext_refl, Hr|]. split; [lia|]. split; [exact I|]. split; [exact Hl|].
  intros R st c w out HR Hrel Hf Hv _ Hx. injection Hx as <-. exists c. now repeat (split; [easy|]).
Qed.

(** A statement and the rest. *)
Lemma loop_cons i ids st b :
  lowers_stmt (fun f => do_stmt (lowering E ast f) i) (fun s => tame_stmt s st) (fun s => rexec s st) ->
  lowers_loop ids b -> lowers_loop (i :: ids) (BCons st b).
Proof.
  intros H1 H2 s last Hr Hl. destruct (H1 s Hr) as (L1 & v1 & n1 & r1 & E1 & R1 & X1 & C1 & G1 & V1 & S1).
  set (X := void_line ids v1 L1).
  destruct (H2 (mk_g (g_body s ++ L1 ++ X) n1 r1) v1 R1 V1) as (L2 & v2 & n2 & r2 & E2 & R2 & X2 & C2 & G2 & V2 & S2).
  cbn [g_body g_if_counter g_amp_ivars] in *.
  exists (L1 ++ X ++ L2), v2, n2, r2. split.
  { apply ev_succ. eapply ev_ext; [intros f; unroll; reflexivity|].
    eapply (ev_bind (fun _ => body_n)); [apply ev_const|].
    eapply (ev_bind (fun f => do_stmt (lowering E ast f) i) (fun f v => after <- body_n ;; _ ;;; do_stmts (lowering E ast f) ids v)); [exact E1|].
    eapply (ev_bind (fun _ => body_n)); [apply ev_const|]. cbn beta.
    eapply ev_bind with (m := fun _ : nat => _); [|].
    - rewrite (void_pushed ids v1 L1) by reflexivity. apply ev_const.
    - cbn [g_if_counter g_amp_ivars]. eapply ev_ext; [reflexivity|]. rewrite <- !app_assoc in *. exact E2. }
  split; [exact R2|]. split; [now apply (ext_trans _ r1)|]. split; [lia|].
  split; [apply lines_good_app; [exact G1|apply lines_good_app; [now apply void_good|exact G2]]|]. split; [exact V2|].
  intros R s0 c w out HR Hrel Hf Hv [Ht Hb] Hx. cbn [rexec_block] in Hx.
  specialize (S1 R s0 c). destruct (rexec s0 st) as [[w1 s1|w1 s1]|]; [| |discriminate].
  - destruct (S1 _ (ext_trans _ _ _ X2 HR) Hrel Hf Ht eq_refl) as (c1 & Ex & Hrel1 & Hf1 & Hfr & Hv1).
    specialize (S2 R s1 c1 w1 out HR Hrel1 Hf1 Hv1 Hb Hx). unfold result_ok in *.
    assert (Eq : exec (L1 ++ X ++ L2) c = exec L2 c1) by (rewrite exec_app, Ex, exec_app; unfold X; now rewrite (void_runs _ _ _ w1)).
    rewrite Eq.
    destruct out as [w2 s2|w2 s2]; [|exact S2]. destruct S2 as (c2 & ? & ? & ? & Hfr2 & ?). exists c2.
    repeat (split; [assumption|]). split; [now apply (frame_trans _ n1 _ c1)|assumption].
  - injection Hx as <-. destruct (S1 _ (ext_trans _ _ _ X2 HR) Hrel Hf Ht eq_refl) as (c1 & Ex & Hrel1).
    exists c1. rewrite exec_app, Ex. auto.
Qed.

(** A branch leaves its value in the temporary [k]. *)
Definition branch_ok (R : registry) (k : Z) (L : list cline) (c : cst) (out : rout) : Prop :=
  match out with
  | RNext w s' => exists c', exec L c = CNext c' /\ rel R s' c' /\ c_vars c' (temp "_if" k) = Some (enc w) /\
                             fits I64 (enc w) = true /\ frame (k - 1) c c'
  | RRet w s' => exists c', exec L c = CReturn (Some (conv I32 (enc w))) c' /\ rel R s' c'
  end.

Definition lowers_branch (m : nat -> M (list cline)) (k : Z) (tm : rst -> Prop) (ex : rst -> option rout) : Prop :=
  forall s, reg_in (g_amp_ivars s) -> k <= g_if_counter s ->
  exists L n' reg', ev (fun f => m f s) (Ok (L, mk_g (g_body s) n' reg')) /\
    reg_in reg' /\ ext (g_amp_ivars s) reg' /\ g_if_counter s <= n' /\ lines_good L /\
    forall R st c out, ext reg' R -> rel R st c -> fresh_above (g_if_counter s) c -> c_vars c (temp "_if" k) = Some 0 ->
      tm st -> ex st = Some out -> branch_ok R k L c out.

Lemma ev_collect {A} (m : nat -> M A) s a L n' reg' :
  ev (fun f => m f (mk_g [] (g_if_counter s) (g_amp_ivars s))) (Ok (a, mk_g L n' reg')) ->
  ev (fun f => collect (m f) s) (Ok ((a, L), mk_g (g_body s) n' reg')).
Proof. intros [n H]. exists n. intros f Hf. unfold collect. now rewrite H. Qed.

Lemma branch_stmt bid k tm ex : 0 <= bid ->
  lowers_stmt (fun f => do_stmt (lowering E ast f) bid) tm ex ->
  lowers_branch (fun f => do_branch (lowering E ast f) bid (temp "_if" k)) k tm ex.
Proof.
  intros Pb H s Hr Hk. destruct (H (mk_g [] (g_if_counter s) (g_amp_ivars s)) Hr) as (L & v & n' & reg & E1 & R1 & X1 & C1 & G1 & V1 & S1).
  cbn [g_body g_if_counter g_amp_ivars app] in *.
  set (X := match v with Some e => [LSet (temp "_if" k) e] | None => [] end).
  exists (L ++ X), n', reg. split.
  { apply ev_succ. eapply ev_ext; [intros f; unroll; rewrite (proj2 (Z.leb_le 0 bid) Pb); reflexivity|].
    eapply ev_bind with (a := (tt, L ++ X)); [|apply ev_const]. apply ev_collect. eapply (ev_bind (fun f => do_stmt (lowering E ast f) bid)); [exact E1|].
    unfold X. destruct v as [e|]; [apply ev_const|]. rewrite app_nil_r. apply ev_const. }
  split; [exact R1|]. split; [exact X1|]. split; [exact C1|]. split.
  { apply lines_good_app; [exact G1|]. unfold X. destruct v as [e|]; [now split|exact I]. }
  intros R st c out HR Hrel Hf Htmp Ht Hx. specialize (S1 R st c out HR Hrel Hf Ht Hx).
  destruct out as [w s'|w s']; [|destruct S1 as (c' & Ex & Hr'); exists c'; rewrite exec_app, Ex; auto].
  destruct S1 as (c' & Ex & Hrel' & Hf' & Hfr & Hv). pose proof (Hfr k Hk) as Htmp'. rewrite Htmp in Htmp'.
  cbn [branch_ok]. rewrite exec_app, Ex. unfold X. destruct v as [e|].
  - destruct Hv as [[t Hc] F]. exists (set_var (temp "_if" k) (Some (enc w)) c'). split.
    { cbn [exec exec_line]. rewrite Htmp'. unfold with_val. now rewrite Hc, conv_fits. }
    split; [now apply rel_temp|]. split; [apply set_var_eq|]. split; [exact F|].
    intros j Hj. rewrite set_var_ne by (intros Hc'; apply temp_inj in Hc'; lia). apply Hfr. lia.
  - cbn [val_ok] in Hv. subst w. exists c'. split; [reflexivity|]. split; [exact Hrel'|]. split; [exact Htmp'|]. split; [reflexivity|].
    intros j Hj. apply Hfr. lia.
Qed.

Lemma branch_absent bid k tm : bid < 0 ->
  lowers_branch (fun f => do_branch (lowering E ast f) bid (temp "_if" k)) k tm (fun s => Some (RNext VNil s)).
Proof.
  intros Pb s Hr Hk. exists [], (g_if_counter s), (g_amp_ivars s). split.
  { apply ev_now. intros f. unroll. now rewrite (proj2 (Z.leb_gt 0 bid) Pb). }
  split; [exact Hr|]. split; [apply ext_refl, Hr|]. split; [lia|]. split; [exact I|].
  intros R st c out HR Hrel Hf Htmp _ Hx. injection Hx as <-. exists c. now repeat (split; [easy|]).
Qed.

(** After the branch, outside its block. *)
Lemma branch_leaves R n N n' L c out st : N = n + 1 -> N <= n' -> rel R st c -> fresh_above n c ->
  let c1 := set_var (temp "_if" N) (Some 0) c in
  branch_ok R N L c1 out ->
  match out with
  | RNext w s' => exists c', leave_out c1 (exec L c1) = CNext c' /\ rel R s' c' /\ fresh_above n' c' /\ frame n c c' /\
                             val_ok (Some (var (temp "_if" N))) w c'
  | RRet w s' => exists c', leave_out c1 (exec L c1) = CReturn (Some (conv I32 (enc w))) c' /\ rel R s' c'
  end.
Proof.
  intros HN Hn' Hrel Hf c1 H. pose proof (rel_temp R st c N (Some 0) Hrel) as Hrel1. fold c1 in Hrel1.
  assert (Hd : forall j, j <> N -> c_vars c1 (temp "_if" j) = c_vars c (temp "_if" j)).
  { intros j Hj. apply set_var_ne. intros Hc. apply temp_inj in Hc. lia. }
  destruct out as [w s'|w s'].
  - destruct H as (c2 & Ex & Hrel2 & Ht & F & Hfr). exists (leave c1 c2). rewrite Ex. split; [reflexivity|].
    split; [now apply (rel_leave R st)|]. split; [|split].
    + intros j Hj. cbn [leave c_vars]. rewrite Hd, Hf by lia. reflexivity.
    + intros j Hj. cbn [leave c_vars]. rewrite Hfr, Hd by lia. now destruct (c_vars c (temp "_if" j)).
    + split; [|exact F]. exists I64. cbn [tree var ceval atom_val leave c_vars]. unfold c1 at 1. now rewrite set_var_eq, Ht.
  - destruct H as (c2 & Ex & Hrel2). exists (leave c1 c2). rewrite Ex. split; [reflexivity|]. now apply (rel_leave R st).
Qed.

Lemma lower_if_eq f nid : node_is ast nid "IfNode" -> do_stmt (lowering E ast (S f)) nid = do_if (lowering E ast f) nid.
Proof. intros Ht. unroll. at_node Ht. reflexivity. Qed.

Lemma if_node_eq f nid : 0 <= nt_ref ast nid (lit "predicate") ->
  do_if (lowering E ast (S f)) nid =
  (cond <- do_build (lowering E ast f) (nt_ref ast nid (lit "predicate")) ;;
   n <- fresh ;;
   push (LDecl (temp "_if" n)) ;;;
   then_b <- do_branch (lowering E ast f) (nt_ref ast nid (lit "statements")) (temp "_if" n) ;;
   else_b <- (if 0 <=? nt_ref ast nid (lit "subsequent")
              then b <- do_branch (lowering E ast f) (nt_ref ast nid (lit "subsequent")) (temp "_if" n) ;; ret (Some b)
              else ret None) ;;
   push (LIf cond then_b else_b) ;;; ret (Some (var (temp "_if" n)))).
Proof. intros Hp. unroll. rewrite (proj2 (Z.ltb_ge _ 0) Hp). reflexivity. Qed.

(** The else part of an [if]: absent, or a branch. *)
Lemma lowers_else (else_id k : Z) el :
  (else_id < 0 /\ el = ENone \/
   0 <= else_id /\ lowers_branch (fun f => do_branch (lowering E ast f) else_id (temp "_if" k)) k (fun s => tame_else s el) (fun s => rexec_else s el)) ->
  forall s, reg_in (g_amp_ivars s) -> k <= g_if_counter s ->
  exists eb n' reg', ev (fun f => (if 0 <=? else_id then b <- do_branch (lowering E ast f) else_id (temp "_if" k) ;; ret (Some b) else ret None) s)
      (Ok (eb, mk_g (g_body s) n' reg')) /\
    reg_in reg' /\ ext (g_amp_ivars s) reg' /\ g_if_counter s <= n' /\
    match eb with Some b => lines_good b | None => True end /\
    forall R st c out, ext reg' R -> rel R st c -> fresh_above (g_if_counter s) c -> c_vars c (temp "_if" k) = Some 0 ->
      tame_else st el -> rexec_else st el = Some out ->
      branch_ok R k match eb with Some b => b | None => [] end c out.
Proof.
  intros [[Pe ->]|[Pe H]] s Hr Hk.
  - exists None, (g_if_counter s), (g_amp_ivars s). rewrite (proj2 (Z.leb_gt 0 else_id) Pe), mk_g_eta.
    split; [apply ev_const|]. split; [exact Hr|]. split; [apply ext_refl, Hr|]. split; [lia|]. split; [exact I|].
    intros R st c out HR Hrel Hf Ht _ Hx. injection Hx as <-. exists c. now repeat (split; [easy|]).
  - destruct (H s Hr Hk) as (L & n' & reg' & E1 & R1 & X1 & C1 & G1 & S1). exists (Some L), n', reg'.
    split; [|repeat (split; [assumption|]); exact S1]. rewrite (proj2 (Z.leb_le 0 else_id) Pe).
    eapply (ev_bind (fun f => do_branch (lowering E ast f) else_id (temp "_if" k))); [exact E1|apply ev_const].
Qed.

(** The two lines of an [if]. *)
Lemma if_runs lc L1 eb c0 N v t : c_vars c0 (temp "_if" N) = None -> logical (Some v) = true ->
  let c1 := set_var (temp "_if" N) (Some 0) c0 in
  ceval c1 (tree lc) = Some (t, enc v) ->
  exec [LDecl (temp "_if" N); LIf lc L1 eb] c0 =
  if truthy v then leave_out c1 (exec L1 c1)
  else match eb with Some b => leave_out c1 (exec b c1) | None => CNext c1 end.
Proof.
  intros Hn Hl c1 Hc. assert (H1 : exec_line (LDecl (temp "_if" N)) c0 = CNext c1) by (cbn [exec_line]; now rewrite Hn).
  cbn [exec]. rewrite H1, exec_line_if. unfold with_val. rewrite Hc, (enc_logical v Hl), negb_involutive.
  destruct (truthy v); [now destruct (leave_out c1 (exec L1 c1))|].
  destruct eb as [b|]; [now destruct (leave_out c1 (exec b c1))|reflexivity].
Qed.

(** ... owe what the chosen branch gives. *)
Lemma if_result R n N n' lc L1 eb c0 st v t out : N = n + 1 -> N <= n' -> rel R st c0 -> fresh_above n c0 -> logical (Some v) = true ->
  let c1 := set_var (temp "_if" N) (Some 0) c0 in
  ceval c1 (tree lc) = Some (t, enc v) ->
  branch_ok R N (if truthy v then L1 else match eb with Some b => b | None => [] end) c1 out ->
  result_ok R n n' (Some (var (temp "_if" N))) [LDecl (temp "_if" N); LIf lc L1 eb] c0 out.
Proof.
  intros HN Hn' Hrel Hf Hl c1 Hc Hb. unfold result_ok. rewrite (if_runs _ _ _ _ _ v t) by (auto; apply Hf; lia). fold c1.
  pose proof (branch_leaves R n N n' _ c0 out st HN Hn' Hrel Hf Hb) as H. fold c1 in H.
  destruct (truthy v); [exact H|]. destruct eb as [b|]; [exact H|].
  destruct out as [w s'|w s']; [|destruct Hb as (c' & Hb & _); discriminate Hb].
  destruct Hb as (c' & Ex & Hrel' & Ht & F & Hfr). injection Ex as <-. exists c1. split; [reflexivity|]. split; [exact Hrel'|].
  split; [|split; [|split; [|exact F]]].
  - intros j Hj. unfold c1. rewrite set_var_ne by (intros Hj'; apply temp_inj in Hj'; lia). apply Hf. lia.
  - intros j Hj. unfold c1. rewrite set_var_ne by (intros Hj'; apply temp_inj in Hj'; lia). reflexivity.
  - exists I64. cbn [tree var ceval atom_val]. now rewrite Ht.
Qed.

(** An [if] with lowered condition and branches. *)
Lemma lowers_if nid c th el : node_is ast nid "IfNode" -> 0 <= nt_ref ast nid (lit "predicate") ->
  lowers_expr (fun f => do_build (lowering E ast f) (nt_ref ast nid (lit "predicate"))) false c ->
  (forall k, lowers_branch (fun f => do_branch (lowering E ast f) (nt_ref ast nid (lit "statements")) (temp "_if" k)) k
               (fun s => tame_block s th) (fun s => rexec_block VNil s th)) ->
  (forall k, nt_ref ast nid (lit "subsequent") < 0 /\ el = ENone \/
     0 <= nt_ref ast nid (lit "subsequent") /\
     lowers_branch (fun f => do_branch (lowering E ast f) (nt_ref ast nid (lit "subsequent")) (temp "_if" k)) k
       (fun s => tame_else s el) (fun s => rexec_else s el)) ->
  lowers_stmt (fun f => do_stmt (lowering E ast f) nid)
    (fun s => tame s c = true /\ logical (reval s c) = true /\
       match reval s c with Some v => if truthy v then tame_block s th else tame_else s el | None => True end)
    (fun s => match reval s c with Some v => if truthy v then rexec_block VNil s th else rexec_else s el | None => None end).
Proof.
  intros Ht Hp Hc Hth Hel s Hr. set (N := g_if_counter s + 1).
  destruct (Hc s Hr) as (lc & r0 & E0 & R0 & X0 & F0 & O0 & S0).
  destruct (Hth N (mk_g (g_body s ++ [LDecl (temp "_if" N)]) N r0) R0 ltac:(simpl; lia)) as (L1 & n1 & r1 & E1 & R1 & X1 & C1 & G1 & S1).
  cbn [g_body g_if_counter g_amp_ivars] in *.
  destruct (lowers_else _ N el (Hel N) (mk_g (g_body s ++ [LDecl (temp "_if" N)]) n1 r1) R1 C1) as (eb & n2 & r2 & E2 & R2 & X2 & C2 & G2 & S2).
  cbn [g_body g_if_counter g_amp_ivars] in *.
  exists [LDecl (temp "_if" N); LIf lc L1 eb], (Some (var (temp "_if" N))), n2, r2. split.
  { apply ev_succ. eapply ev_ext; [intros f; rewrite (lower_if_eq f nid Ht); reflexivity|].
    apply ev_succ. eapply ev_ext; [intros f; rewrite (if_node_eq f nid Hp); reflexivity|].
    eapply (ev_bind (fun f => do_build (lowering E ast f) _)); [exact E0|].
    eapply (ev_bind (fun _ => fresh)); [apply ev_const|]. cbn [g_body g_if_counter g_amp_ivars]. fold N.
    eapply (ev_bind (fun _ => push (LDecl (temp "_if" N)))); [apply ev_const|]. cbn [g_body g_if_counter g_amp_ivars].
    eapply (ev_bind (fun f => do_branch (lowering E ast f) _ _)); [exact E1|].
    eapply ev_bind; [exact E2|]. cbn [g_body g_if_counter g_amp_ivars].
    replace (g_body s ++ [LDecl (temp "_if" N); LIf lc L1 eb]) with ((g_body s ++ [LDecl (temp "_if" N)]) ++ [LIf lc L1 eb])
      by (now rewrite <- app_assoc).
    apply ev_const. }
  split; [exact R2|]. split; [apply (ext_trans _ r0); [exact X0|now apply (ext_trans _ r1)]|]. split; [lia|].
  split; [repeat split; auto using flat_ok_top|]. split; [now split|].
  intros R st c0 out HR Hrel Hf (Htc & Hlc & Htb) Hx. destruct (reval st c) as [v|] eqn:Ev; [|discriminate].
  pose proof (ext_trans _ _ _ X2 HR) as HR1. destruct (S0 R (ext_trans _ _ _ X1 HR1)) as [T S].
  set (c1 := set_var (temp "_if" N) (Some 0) c0). pose proof (rel_temp R st c0 N (Some 0) Hrel : rel R st c1) as Hrel1.
  destruct (good_val R st c1 c lc v Hrel1 T S Htc Ev) as [Hcv _].
  assert (Hf1 : fresh_above N c1).
  { intros j Hj. unfold c1. rewrite set_var_ne by (intros Hj'; apply temp_inj in Hj'; lia). apply Hf. lia. }
  apply (if_result R _ N n2 lc L1 eb c0 st v (rty c)); auto; [lia|]. fold c1. destruct (truthy v).
  - apply (S1 R st c1); auto. apply set_var_eq.
  - apply (S2 R st c1); auto; [now apply (fresh_above_mono N)|apply set_var_eq].
Qed.

Lemma block_stmt nid b : node_is ast nid "StatementsNode" -> lowers_loop (nt_arr ast nid (lit "body")) b ->
  lowers_stmt (fun f => do_stmt (lowering E ast f) nid) (fun s => tame_block s b) (fun s => rexec_block VNil s b).
Proof.
  intros Ht H s Hr. destruct (H s None Hr I) as (L & v & n & reg & E1 & R1 & X1 & C1 & G1 & V1 & S1).
  exists L, v, n, reg. split.
  { apply ev_succ. eapply ev_ext; [intros f; unroll; at_node Ht; reflexivity|exact E1]. }
  repeat (split; [assumption|]). intros R st c out HR Hrel Hf Htm Hx. now apply (S1 R st c VNil).
Qed.

Lemma block_branch nid b k : block_at ast (stmts_at ast b) nid ->
  (forall ids, stmts_at ast b ids -> lowers_loop ids b) ->
  lowers_branch (fun f => do_branch (lowering E ast f) nid (temp "_if" k)) k (fun s => tame_block s b) (fun s => rexec_block VNil s b).
Proof.
  unfold block_at. intros Hb H. destruct (Z.ltb_spec nid 0).
  - destruct b; [|contradiction]. now apply (branch_absent nid k (fun s => tame_block s BNil)).
  - destruct Hb as [Ht Hs]. apply branch_stmt; [lia|]. apply block_stmt; auto.
Qed.

Lemma lower_else_eq f nid : node_is ast nid "ElseNode" ->
  do_stmt (lowering E ast (S f)) nid =
  if 0 <=? nt_ref ast nid (lit "statements") then do_stmt (lowering E ast f) (nt_ref ast nid (lit "statements")) else ret None.
Proof. intros Ht. unroll. at_node Ht. reflexivity. Qed.

Lemma else_stmt nid b : node_is ast nid "ElseNode" -> block_at ast (stmts_at ast b) (nt_ref ast nid (lit "statements")) ->
  (forall ids, stmts_at ast b ids -> lowers_loop ids b) ->
  lowers_stmt (fun f => do_stmt (lowering E ast f) nid) (fun s => tame_block s b) (fun s => rexec_block VNil s b).
Proof.
  unfold block_at. intros Ht Hb H s Hr. destruct (Z.ltb_spec (nt_ref ast nid (lit "statements")) 0) as [Hn|Hn].
  - destruct b; [|contradiction]. exists [], None, (g_if_counter s), (g_amp_ivars s). split.
    { apply ev_now. intros f. rewrite (lower_else_eq f nid Ht), (proj2 (Z.leb_gt _ _) Hn), app_nil_r. now rewrite mk_g_eta. }
    split; [exact Hr|]. split; [apply ext_refl, Hr|]. split; [lia|]. do 2 (split; [exact I|]).
    intros R st c out HR Hrel Hf _ Hx. injection Hx as <-. exists c. now repeat (split; [easy|]).
  - destruct Hb as [Hs Hb]. destruct (block_stmt _ b Hs (H _ Hb) s Hr) as (L & v & n & reg & E1 & Rest).
    exists L, v, n, reg. split; [|exact Rest]. apply ev_succ.
    eapply ev_ext; [intros f; rewrite (lower_else_eq f nid Ht), (proj2 (Z.leb_le _ _) Hn); reflexivity|exact E1].
Qed.

(** Every statement of the subset. *)
Lemma program_lowers :
  (forall st nid, stmt_at ast st nid -> stmt_ok st ->
     lowers_stmt (fun f => do_stmt (lowering E ast f) nid) (fun s => tame_stmt s st) (fun s => rexec s st)) /\
  (forall b ids, stmts_at ast b ids -> block_ok b -> lowers_loop ids b) /\
  (forall el nid k, else_at ast el nid -> else_ok el ->
     nid < 0 /\ el = ENone \/
     0 <= nid /\ lowers_branch (fun f => do_branch (lowering E ast f) nid (temp "_if" k)) k (fun s => tame_else s el) (fun s => rexec_else s el)).
Proof.
  apply rsyntax_mutind.
  - intros x e nid. apply local_lowers.
  - intros x e nid. apply ivar_lowers.
  - intros x op e nid. apply ivar_op_lowers.
  - intros e nid. apply emit_lowers.
  - intros e nid. apply return_lowers.
  - intros e nid. apply expr_stmt_lowers.
  - intros c th IHt el IHe nid (Ht & [Hp Hc] & Hth & Hel) ([Sc Kc] & Ot & Oe).
    apply (lowers_if nid c th el Ht Hp); [now apply expr_lowers| |].
    + intros k. apply block_branch; auto.
    + intros k. auto.
  - intros ids H _. destruct ids; [apply loop_nil|contradiction].
  - intros st IHs b IHb ids H [Os Ob]. destruct ids as [|i ids]; [contradiction|]. destruct H. apply loop_cons; auto.
  - intros nid k H _. left. auto.
  - intros b IHb nid k (Pn & Ht & Hb) Ob. right. split; [exact Pn|]. apply branch_stmt; [exact Pn|]. apply else_stmt; auto.
  - intros c th IHt el IHe nid k (Pn & Ht & [Hp Hc] & Hth & Hel) ([Sc Kc] & Ot & Oe). right. split; [exact Pn|].
    apply branch_stmt; [exact Pn|]. apply (lowers_if nid c th el Ht Hp); [now apply expr_lowers| |].
    + intros k'. apply block_branch; auto.
    + intros k'. auto.
Qed.

End Handler.

End Simulation.
