(* ===== verification/CgSim.v ===== *)
(** * Handlers and units of the real-time core

    The simulation of CgSem.v lifted to [cc_emit_method_body] and to the handlers of
    a unit ([lower_handlers] of [amp_codegen_program]): the declarations of the locals
    cover every assignment ([Collect]), and each lowered handler, started with the
    instance variables in their words, ends with the words, the published values and
    the result of the Ruby handler ([Unit]). *)

From S2P Require Import Prelude CText CgText CgIr CgAst CgConst CgAmp CgExpr CgLower CgSem.

Module Collect.
Import Names Ir CExprs Ast Lower Source.

Section Table.
Variable ast : AST.

Definition children (n : SpNode) : list Z := map snd (n_r n) ++ concat (map snd (n_a n)).

(** The tree below a node has at most [d] levels. *)
Fixpoint fin (d : nat) (nid : Z) : Prop :=
  match d with
  | O => False
  | S d => match node_at ast nid with None => True | Some n => forall c, In c (children n) -> fin d c end
  end.

Definition own_name (n : SpNode) (nid : Z) (names : list text) : list text :=
  if isa (match n_type n with Some t => t | None => [] end) "LocalVariableWriteNode" then
    match nt_str ast nid (lit "name") with
    | Some nm => if existsb (text_eqb (cc_safe_dup nm)) names then names else names ++ [cc_safe_dup nm]
    | None => names
    end
  else names.

Definition opaque_node (n : SpNode) : bool :=
  let ty := match n_type n with Some t => t | None => [] end in isa ty "DefNode" || isa ty "ClassNode" || isa ty "ModuleNode".

(** The traversal of a list of nodes. *)
Fixpoint collect_all (f : nat) (ids : list Z) (names : list text) : result (list text) :=
  match ids with
  | [] => Ok names
  | i :: ids' => match cc_collect_locals ast f i names with Ok ns => collect_all f ids' ns | r => r end
  end.

Lemma fold_stuck f ids (r : result (list text)) : (forall ns, r <> Ok ns) ->
  fold_left (fun acc i => match acc with Ok ns => cc_collect_locals ast f i ns | r => r end) ids r = r.
Proof. intros H. induction ids as [|i ids IH]; [reflexivity|]. cbn [fold_left]. destruct r; try exact IH. now destruct (H a). Qed.

Lemma collect_fold f ids names :
  fold_left (fun acc i => match acc with Ok ns => cc_collect_locals ast f i ns | r => r end) ids (Ok names) = collect_all f ids names.
Proof.
  revert names; induction ids as [|i ids IH]; intros names; [reflexivity|]. cbn [fold_left collect_all].
  destruct (cc_collect_locals ast f i names) eqn:Hc; [apply IH|now apply fold_stuck..].
Qed.

Lemma collect_eq f nid names : cc_collect_locals ast (S f) nid names =
  match node_at ast nid with
  | None => Ok names
  | Some n => if opaque_node n then Ok names else collect_all f (children n) (own_name n nid names)
  end.
Proof.
  cbn [cc_collect_locals]. destruct (node_at ast nid) as [n|]; [|reflexivity]. unfold opaque_node.
  destruct (_ || _); [reflexivity|]. apply collect_fold.
Qed.

(** Enough fuel collects, and more does not change the result. *)
Lemma collect_fin d : forall nid names, fin d nid -> exists r, forall f, (d <= f)%nat -> cc_collect_locals ast f nid names = Ok r.
Proof.
  induction d as [|d IH]; intros nid names H; [destruct H|]. cbn [fin] in H.
  assert (Hall : forall ids ns, (forall c, In c ids -> fin d c) -> exists r, forall f, (d <= f)%nat -> collect_all f ids ns = Ok r).
  { induction ids as [|i ids IHi]; intros ns Hi; [now exists ns|].
    destruct (IH i ns (Hi i (or_introl eq_refl))) as [r1 H1]. destruct (IHi r1) as [r2 H2]; [intros c Hc; apply Hi; now right|].
    exists r2. intros f Hf. cbn [collect_all]. rewrite (H1 f Hf). auto. }
  destruct (node_at ast nid) as [n|] eqn:En.
  - destruct (Hall (children n) (own_name n nid names) H) as [r Hr]. destruct (opaque_node n) eqn:Eo.
    + exists names. intros [|f] Hf; [lia|]. now rewrite collect_eq, En, Eo.
    + exists r. intros [|f] Hf; [lia|]. rewrite collect_eq, En, Eo. apply Hr. lia.
  - exists names. intros [|f] Hf; [lia|]. now rewrite collect_eq, En.
Qed.

(** What is collected: the old names, and names of assignments of the table. *)
Definition assigned (x : text) : Prop :=
  exists nid nm, node_is ast nid "LocalVariableWriteNode" /\ nt_str ast nid (lit "name") = Some nm /\ x = cc_safe_dup nm.

Lemma own_name_spec n nid names : node_at ast nid = Some n ->
  incl names (own_name n nid names) /\ (NoDup names -> NoDup (own_name n nid names)) /\
  (forall x, In x (own_name n nid names) -> In x names \/ assigned x).
Proof.
  intros En. unfold own_name. destruct (isa _ _) eqn:Et; [|repeat split; auto using incl_refl].
  destruct (nt_str ast nid (lit "name")) as [nm|] eqn:Em; [|repeat split; auto using incl_refl].
  destruct (existsb _ names) eqn:Ex; [repeat split; auto using incl_refl|]. repeat split.
  - now apply incl_appl, incl_refl.
  - intros Hd. apply NoDup_app; [exact Hd|constructor; [intros []|constructor]|]. intros x Hx [<-|[]].
    assert (existsb (text_eqb (cc_safe_dup nm)) names = true); [|congruence].
    apply existsb_exists. exists (cc_safe_dup nm). split; [exact Hx|apply text_eqb_refl].
  - intros x Hx. apply in_app_iff in Hx as [Hx|[<-|[]]]; [now left|right].
    exists nid, nm. unfold isa in Et. apply text_eqb_eq in Et. unfold node_is, nt_type. rewrite En.
    pose proof En as En'. unfold node_at in En'. destruct (_ || _); [discriminate|].
    destruct (nth_error ast (Z.to_nat nid)) as [n'|]; [|discriminate]. destruct (n_type n') eqn:Ety; [|discriminate].
    injection En' as <-. rewrite Ety in *. subst. auto.
Qed.

Lemma collect_spec f : forall nid names r, cc_collect_locals ast f nid names = Ok r ->
  incl names r /\ (NoDup names -> NoDup r) /\ (forall x, In x r -> In x names \/ assigned x).
Proof.
  induction f as [|f IH]; intros nid names r H; [discriminate|]. rewrite collect_eq in H.
  destruct (node_at ast nid) as [n|] eqn:En; [|injection H as <-; repeat split; auto using incl_refl].
  destruct (opaque_node n); [injection H as <-; repeat split; auto using incl_refl|].
  destruct (own_name_spec n nid names En) as (O1 & O2 & O3).
  assert (Hall : forall ids ns r, collect_all f ids ns = Ok r ->
    incl ns r /\ (NoDup ns -> NoDup r) /\ (forall x, In x r -> In x ns \/ assigned x)).
  { induction ids as [|i ids IHi]; intros ns r' Hr; cbn [collect_all] in Hr; [injection Hr as <-; repeat split; auto using incl_refl|].
    destruct (cc_collect_locals ast f i ns) as [ns1| | | |] eqn:Hc; try discriminate.
    destruct (IH _ _ _ Hc) as (A1 & A2 & A3), (IHi _ _ Hr) as (B1 & B2 & B3).
    split; [now apply (incl_tran A1)|]. split; [auto|]. intros x Hx. destruct (B3 x Hx) as [Hx'|]; auto. }
  destruct (Hall _ _ _ H) as (A1 & A2 & A3). split; [now apply (incl_tran O1)|]. split; [auto|].
  intros x Hx. destruct (A3 x Hx) as [Hx'|]; auto.
Qed.

(** ** Every assignment of a program is collected *)

Lemma assoc_in {A} key (l : list (text * A)) v : assoc key l = Some v -> In v (map snd l).
Proof. induction l as [|[k x] l IH]; cbn [assoc]; [discriminate|]. destruct (text_eqb k key); [injection 1 as ->; now left|right; auto]. Qed.

Lemma ref_child nid key : 0 <= nt_ref ast nid key -> exists n, node_at ast nid = Some n /\ In (nt_ref ast nid key) (children n).
Proof.
  unfold nt_ref. destruct (node_at ast nid) as [n|]; [|lia]. intros H. exists n. split; [reflexivity|].
  destruct (assoc key (n_r n)) as [r|] eqn:Ea; [|lia]. apply in_app_iff. left. now apply (assoc_in key).
Qed.

Lemma arr_child nid key c : In c (nt_arr ast nid key) -> exists n, node_at ast nid = Some n /\ In c (children n).
Proof.
  unfold nt_arr. destruct (node_at ast nid) as [n|]; [|intros []]. intros H. exists n. split; [reflexivity|].
  destruct (assoc key (n_a n)) as [l|] eqn:Ea; [|destruct H]. apply in_app_iff. right. apply in_concat. exists l.
  split; [now apply (assoc_in key)|exact H].
Qed.

Lemma node_type nid n ty : node_is ast nid ty -> node_at ast nid = Some n -> n_type n = Some (lit ty).
Proof. unfold node_is, nt_type. intros H Hn. now rewrite Hn in H. Qed.

(** [sub nid r]: the names collected at [nid] are among [r]. *)
Definition sub (nid : Z) (r : list text) : Prop := exists f ns r', cc_collect_locals ast f nid ns = Ok r' /\ incl r' r.

Lemma collect_all_sub f ids : forall ns r, collect_all f ids ns = Ok r -> forall c, In c ids -> sub c r.
Proof.
  induction ids as [|i ids IH]; intros ns r H c Hc; [destruct Hc|]. cbn [collect_all] in H.
  destruct (cc_collect_locals ast f i ns) as [ns1| | | |] eqn:E1; try discriminate. destruct Hc as [->|Hc]; [|now apply (IH ns1)].
  exists f, ns, ns1. split; [exact E1|]. clear - H. revert ns1 H. induction ids as [|j ids IH]; intros ns1 H; cbn [collect_all] in H.
  - injection H as <-. apply incl_refl.
  - destruct (cc_collect_locals ast f j ns1) as [ns2| | | |] eqn:E2; try discriminate.
    apply (incl_tran (proj1 (collect_spec _ _ _ _ E2))). now apply IH.
Qed.

Lemma sub_child nid n c ty r : sub nid r -> node_is ast nid ty -> node_at ast nid = Some n -> In c (children n) ->
  existsb (isa (lit ty)) ["DefNode"; "ClassNode"; "ModuleNode"]%string = false -> sub c r.
Proof.
  intros (f & ns & r' & H & Hi) Ht Hn Hc Ho. destruct f as [|f]; [discriminate|]. rewrite collect_eq, Hn in H.
  assert (Hop : opaque_node n = false).
  { unfold opaque_node. rewrite (node_type nid n ty Ht Hn). cbn [existsb] in Ho. now rewrite orb_false_r, orb_assoc in Ho. }
  rewrite Hop in H. destruct (collect_all_sub _ _ _ _ H c Hc) as (f1 & ns1 & r1 & H1 & H2).
  exists f1, ns1, r1. split; [exact H1|]. now apply (incl_tran H2).
Qed.

Lemma sub_ref nid key ty r : sub nid r -> node_is ast nid ty -> 0 <= nt_ref ast nid key ->
  existsb (isa (lit ty)) ["DefNode"; "ClassNode"; "ModuleNode"]%string = false -> sub (nt_ref ast nid key) r.
Proof. intros H Ht Hp Ho. destruct (ref_child nid key Hp) as (n & Hn & Hc). now apply (sub_child nid n _ ty). Qed.

Lemma sub_arr nid key ty r c : sub nid r -> node_is ast nid ty -> In c (nt_arr ast nid key) ->
  existsb (isa (lit ty)) ["DefNode"; "ClassNode"; "ModuleNode"]%string = false -> sub c r.
Proof. intros H Ht Hp Ho. destruct (arr_child nid key c Hp) as (n & Hn & Hc). now apply (sub_child nid n c ty). Qed.

Lemma sub_own nid nm r : sub nid r -> node_is ast nid "LocalVariableWriteNode" -> nt_str ast nid (lit "name") = Some nm ->
  In (cc_safe_dup nm) r.
Proof.
  intros (f & ns & r' & H & Hi) Ht Hn. apply Hi. destruct f as [|f]; [discriminate|]. rewrite collect_eq in H.
  destruct (node_at ast nid) as [n|] eqn:En; [|unfold node_is, nt_type in Ht; now rewrite En in Ht].
  pose proof (node_type nid n _ Ht En) as Hty. unfold opaque_node in H. rewrite Hty in H.
  change (isa (lit "LocalVariableWriteNode") "DefNode" || isa (lit "LocalVariableWriteNode") "ClassNode" ||
          isa (lit "LocalVariableWriteNode") "ModuleNode") with false in H. cbv iota in H.
  assert (Hin : In (cc_safe_dup nm) (own_name n nid ns)).
  { unfold own_name. rewrite Hty, Hn. change (isa (lit "LocalVariableWriteNode") "LocalVariableWriteNode") with true. cbv iota.
    destruct (existsb _ ns) eqn:Ex; [|apply in_app_iff; right; now left].
    apply existsb_exists in Ex as (x & Hx & Ex). apply text_eqb_eq in Ex. now subst. }
  assert (Hall : forall ids ns, collect_all f ids ns = Ok r' -> incl ns r').
  { clear. induction ids as [|j ids IH]; intros ns H; cbn [collect_all] in H; [injection H as <-; apply incl_refl|].
    destruct (cc_collect_locals ast f j ns) as [ns2| | | |] eqn:E2; try discriminate.
    apply (incl_tran (proj1 (collect_spec _ _ _ _ E2))). now apply IH. }
  exact (Hall _ _ H _ Hin).
Qed.

Fixpoint writes (st : rstmt) : list text :=
  match st with
  | SLocal x _ => [x]
  | SIf _ th el => block_writes th ++ else_writes el
  | _ => []
  end
with block_writes (b : rblock) : list text :=
  match b with BNil => [] | BCons st b' => writes st ++ block_writes b' end
with else_writes (el : relse) : list text :=
  match el with
  | ENone => []
  | EElse b => block_writes b
  | EElsif _ th el => block_writes th ++ else_writes el
  end.

Lemma block_sub b nid r ty key : (forall ids, stmts_at ast b ids -> (forall i, In i ids -> sub i r) -> forall x, In x (block_writes b) -> In (cc_safe_dup x) r) ->
  sub nid r -> node_is ast nid ty -> existsb (isa (lit ty)) ["DefNode"; "ClassNode"; "ModuleNode"]%string = false ->
  block_at ast (stmts_at ast b) (nt_ref ast nid key) -> forall x, In x (block_writes b) -> In (cc_safe_dup x) r.
Proof.
  intros H Hs Ht Ho Hb. unfold block_at in Hb. destruct (Z.ltb_spec (nt_ref ast nid key) 0); [now apply (H [])|].
  destruct Hb as [Hbt Hb]. pose proof (sub_ref nid key ty r Hs Ht ltac:(lia) Ho) as Hs2.
  apply (H _ Hb). intros i Hi. now apply (sub_arr _ (lit "body") "StatementsNode" r i Hs2 Hbt).
Qed.

(** The names declared include the names assigned. *)
Lemma writes_collected r :
  (forall st nid, stmt_at ast st nid -> sub nid r -> forall x, In x (writes st) -> In (cc_safe_dup x) r) /\
  (forall b ids, stmts_at ast b ids -> (forall i, In i ids -> sub i r) -> forall x, In x (block_writes b) -> In (cc_safe_dup x) r) /\
  (forall el nid, else_at ast el nid -> (0 <= nid -> sub nid r) -> forall x, In x (else_writes el) -> In (cc_safe_dup x) r).
Proof.
  apply rsyntax_mutind; try (now intros; contradiction).
  - intros y e nid (Ht & Hn & _) Hs x [<-|[]]. now apply (sub_own nid).
  - intros c th IHt el IHe nid (Ht & _ & Hth & Hel) Hs x Hx. cbn [writes] in Hx. apply in_app_iff in Hx as [Hx|Hx].
    + now apply (block_sub th nid r "IfNode" (lit "statements") (IHt)).
    + apply (IHe _ Hel); [|exact Hx]. intros P. now apply (sub_ref nid _ "IfNode").
  - intros st IHs b IHb ids H Hs x Hx. destruct ids as [|i ids]; [destruct H|]. destruct H as [H1 H2].
    cbn [block_writes] in Hx. apply in_app_iff in Hx as [Hx|Hx].
    + apply (IHs i H1); [apply Hs; now left|exact Hx].
    + apply (IHb ids H2); [intros j Hj; apply Hs; now right|exact Hx].
  - intros b IHb nid (Pn & Ht & Hb) Hs x Hx. now apply (block_sub b nid r "ElseNode" (lit "statements") IHb (Hs Pn)).
  - intros c th IHt el IHe nid (Pn & Ht & _ & Hth & Hel) Hs x Hx. cbn [else_writes] in Hx. apply in_app_iff in Hx as [Hx|Hx].
    + now apply (block_sub th nid r "IfNode" (lit "statements") IHt (Hs Pn)).
    + apply (IHe _ Hel); [|exact Hx]. intros P. apply (sub_ref nid _ "IfNode"); auto.
Qed.

End Table.

End Collect.

(** * Handlers *)

Module Handlers.
Import Names Ir Ivars CNames CExprs Ast Lower CTarget Source Simulation Collect.

(** The words hold the instance variables of the registry. *)
Definition ivars_in (R : registry) (iv : text -> rval) (mem : nat -> Z) : Prop :=
  forall x, ivar_name x -> In (strip_at x) R -> mem (slot_of R x) = enc (iv x) /\ fits U32 (enc (iv x)) = true.

(** A handler is entered with its parameter only. *)
Definition c_start (mem : nat -> Z) (out : list Z) : cst :=
  mk_c (fun x => if text_eqb (lit "ctx") x then Some 0 else None) mem out.

Definition r_start (iv : text -> rval) (out : list Z) : rst := mk_r (fun _ => VNil) iv out.

Definition is_void (me : Method) : bool :=
  match m_ret me, m_so_kind me with Types.CC_TY_VOID, SO_NONE => true | _, _ => false end.

(** The call of the C function: [int f(void *ctx)] with the lines, and the
    [return 0;] of a method without a value. *)
Definition call (me : Method) (L : list cline) (c : cst) : option (Z * cst) :=
  match exec L c with
  | CReturn (Some v) c' => Some (v, c')
  | CNext c' => if is_void me then Some (0, c') else None
  | _ => None
  end.

(** The lines of [me] do what the Ruby body [b] does. *)
Definition simulates (R : registry) (me : Method) (b : rblock) (L : list cline) : Prop :=
  forall iv mem out o, ivars_in R iv mem -> tame_block (r_start iv out) b -> rexec_block VNil (r_start iv out) b = Some o ->
  exists v c', call me L (c_start mem out) = Some (v, c') /\
    match o with
    | RNext w s' => v = (if is_void me then 0 else conv I32 (enc w)) /\ ivars_in R (r_ivars s') (c_mem c') /\ c_out c' = r_out s'
    | RRet w s' => v = conv I32 (enc w) /\ ivars_in R (r_ivars s') (c_mem c') /\ c_out c' = r_out s'
    end.

(** No assigned local collides with a name of the generated code. *)
Definition name_ok (x : text) : Prop := x <> lit "ctx" /\ x <> lit "amp_emit" /\ forall n, x <> temp "_if" n.

Lemma exec_decls decls : forall c, NoDup decls -> (forall x, In x decls -> c_vars c x = None) ->
  exists c', exec (map LDecl decls) c = CNext c' /\ c_mem c' = c_mem c /\ c_out c' = c_out c /\
    forall x, c_vars c' x = if existsb (text_eqb x) decls then Some 0 else c_vars c x.
Proof.
  induction decls as [|d decls IH]; intros c Hd Hn; [now exists c|]. inversion Hd as [|? ? Hd1 Hd2]; subst.
  destruct (IH (set_var d (Some 0) c) Hd2) as (c' & E1 & E2 & E3 & E4).
  { intros x Hx. rewrite set_var_ne; [apply Hn; now right|]. intros ->. contradiction. }
  exists c'. split; [|split; [exact E2|split; [exact E3|]]].
  - cbn [map exec exec_line]. rewrite (Hn d) by now left. exact E1.
  - intros x. rewrite E4. cbn [existsb]. destruct (text_eqb_spec x d) as [->|Hx]; cbn [orb].
    + rewrite set_var_eq. now destruct (existsb _ _).
    + now rewrite set_var_ne by congruence.
Qed.

Lemma filter_all {A} (f : A -> bool) l : (forall x, f x = true) -> filter f l = l.
Proof. intros H. induction l as [|x l IH]; [reflexivity|]. cbn [filter]. now rewrite H, IH. Qed.

Section Handler.
Variable E : genv.
Hypothesis amp : g_amp E = true.
Hypothesis no_captures : g_captures E = [].
Variable ast : AST.
Variable U : list text.
Hypothesis U_room : (length U <= 64)%nat.
Hypothesis names_ok : forall x, assigned ast x -> name_ok x.
Variable b : rblock.
Hypothesis distinct : forall x y, In x (block_writes b) -> In y (block_writes b) -> cc_safe_dup x = cc_safe_dup y -> x = y.
Hypothesis no_params : m_params (g_method E) = [].
Hypothesis body : node_is ast (m_body (g_method E)) "StatementsNode".
Hypothesis stmts : stmts_at ast b (nt_arr ast (m_body (g_method E)) (lit "body")).
Hypothesis ok : block_ok (block_writes b) E U b.
Variable d : nat.
Hypothesis finite : fin ast d (m_body (g_method E)).

(** The locals are declared, and the state after the declarations is related to the
    state Ruby starts in. *)
Lemma declared r : (forall f, (d <= f)%nat -> cc_collect_locals ast f (m_body (g_method E)) [] = Ok r) ->
  NoDup r /\ Forall name_ok r /\ forall x, In x (block_writes b) -> In (cc_safe_dup x) r.
Proof.
  intros H. specialize (H d (le_n d)). destruct (collect_spec ast d _ _ _ H) as (_ & H2 & H3). split; [apply H2; constructor|]. split.
  - apply Forall_forall. intros x Hx. destruct (H3 x Hx) as [[]|Ha]. now apply names_ok.
  - apply (proj1 (proj2 (writes_collected ast r)) b _ stmts). intros i Hi.
    apply (sub_arr ast (m_body (g_method E)) (lit "body") "StatementsNode" r i); auto. exists d, [], r. split; [exact H|apply incl_refl].
Qed.

Lemma start_related r R iv mem out : NoDup r -> Forall name_ok r -> (forall x, In x (block_writes b) -> In (cc_safe_dup x) r) ->
  ivars_in R iv mem ->
  exists c, exec (map LDecl r) (c_start mem out) = CNext c /\ rel (block_writes b) R (r_start iv out) c /\ fresh_above 0 c.
Proof.
  intros Hd Hn Hw Hi. rewrite Forall_forall in Hn. destruct (exec_decls r (c_start mem out) Hd) as (c & E1 & E2 & E3 & E4).
  { intros x Hx. cbn [c_start c_vars]. destruct (text_eqb_spec (lit "ctx") x) as [<-|]; [exfalso; now apply (proj1 (Hn _ Hx))|reflexivity]. }
  assert (Hout : forall x, ~ In x r -> existsb (text_eqb x) r = false).
  { intros x Hx. destruct (existsb (text_eqb x) r) eqn:Ex; [|reflexivity]. apply existsb_exists in Ex as (y & Hy & Ey).
    apply text_eqb_eq in Ey. now subst. }
  exists c. split; [exact E1|]. split; [constructor|].
  - intros x Hx. split; [|reflexivity]. rewrite E4. replace (existsb _ r) with true; [reflexivity|]. symmetry.
    apply existsb_exists. exists (cc_safe_dup x). split; [auto|apply text_eqb_refl].
  - intros x Nx Hx. rewrite E2. now apply Hi.
  - now rewrite E3.
  - rewrite E4, Hout by (intros Hx; now apply (proj1 (proj2 (Hn _ Hx)))). reflexivity.
  - intros k Hk. rewrite E4, Hout by (intros Hx; now apply (proj2 (proj2 (Hn _ Hx)) k)). reflexivity.
Qed.

Lemma safe_facts r : Forall name_ok r -> (forall x, In x (block_writes b) -> In (cc_safe_dup x) r) ->
  (forall x n, In x (block_writes b) -> cc_safe_dup x <> temp "_if" n) /\
  (forall x, In x (block_writes b) -> cc_safe_dup x <> lit "amp_emit").
Proof.
  intros Hn Hw. rewrite Forall_forall in Hn. split; intros x; intros; destruct (Hn _ (Hw x ltac:(assumption))) as (_ & ? & ?); auto.
Qed.

Definition last_line (v : option CExpr) : list cline := if is_void (g_method E) then [] else [LReturn (Some (or_zero v))].

Lemma body_eq r v L reg n' reg' : (forall f, (d <= f)%nat -> cc_collect_locals ast f (m_body (g_method E)) [] = Ok r) ->
  ev (fun f => do_stmt (lowering E ast f) (m_body (g_method E)) (mk_g (map LDecl r) 0 reg)) (Ok (v, mk_g (map LDecl r ++ L) n' reg')) ->
  ev (fun f => cc_emit_method_body E ast f (mk_g [] 0 reg)) (Ok (tt, mk_g (map LDecl r ++ L ++ last_line v) n' reg')).
Proof.
  intros Hc [n H]. exists (n + d)%nat. intros f Hf. unfold cc_emit_method_body. unfold node_is in body. rewrite body.
  change (isa (lit "StatementsNode") "StatementsNode") with true. cbv iota. rewrite Hc by lia. rewrite no_params.
  rewrite filter_all by reflexivity.
  unfold bind, last_line, is_void, g_amp_ivars at 1. rewrite H by lia.
  destruct (m_ret (g_method E)), (m_so_kind (g_method E)); unfold push, ret; cbn [g_body g_if_counter g_amp_ivars];
    now rewrite ?app_nil_r, <- ?app_assoc.
Qed.

(** The whole body of a handler. *)
Lemma handler_lowers reg : reg_in U reg ->
  exists L n' reg', ev (fun f => cc_emit_method_body E ast f (mk_g [] 0 reg)) (Ok (tt, mk_g L n' reg')) /\
    reg_in U reg' /\ ext reg reg' /\ lines_good L /\ forall R, ext reg' R -> simulates R (g_method E) b L.
Proof.
  intros Hr. destruct (collect_fin ast d _ [] finite) as [r Hc]. destruct (declared r Hc) as (Hd & Hn & Hw).
  destruct (safe_facts r Hn Hw) as [Ht He].
  pose proof (proj1 (proj2 (program_lowers _ distinct Ht He E amp no_captures ast U U_room)) b _ stmts ok) as Hb.
  assert (Hl : lowers_stmt (block_writes b) U (fun f => do_stmt (lowering E ast f) (m_body (g_method E)))
    (fun s => tame_block s b) (fun s => rexec_block VNil s b)) by (eapply block_stmt; eassumption).
  destruct (Hl (mk_g (map LDecl r) 0 reg) Hr) as (L & v & n' & reg' & E1 & R1 & X1 & _ & G1 & V1 & S1). cbn [g_body g_if_counter g_amp_ivars] in *.
  exists (map LDecl r ++ L ++ last_line v), n', reg'. split; [now apply (body_eq r v)|].
  split; [exact R1|]. split; [exact X1|]. split.
  { apply lines_good_app; [clear; induction r; simpl; auto|]. apply lines_good_app; [exact G1|]. unfold last_line.
    destruct (is_void _); [exact I|]. destruct v as [e|]; now split. }
  intros R HR iv mem out o Hi Htm Hx. destruct (start_related r R iv mem out Hd Hn Hw Hi) as (c & Ec & Hrel & Hf).
  specialize (S1 R _ c o HR Hrel Hf Htm Hx). unfold call. rewrite exec_app, Ec, exec_app.
  destruct o as [w s'|w s'].
  - destruct S1 as (c' & Ex & Hrel' & _ & _ & Hv). rewrite Ex. unfold last_line. destruct (is_void (g_method E)).
    + exists 0, c'. split; [reflexivity|]. split; [reflexivity|]. split; [exact (rel_ivars _ _ _ _ Hrel')|exact (rel_out _ _ _ _ Hrel')].
    + exists (conv I32 (enc w)), c'. split; [|split; [reflexivity|split; [exact (rel_ivars _ _ _ _ Hrel')|exact (rel_out _ _ _ _ Hrel')]]].
      cbn [exec exec_line]. unfold with_val. destruct v as [e|]; cbn [or_zero]; [now destruct Hv as [[t ->] _]|]. cbn [val_ok] in Hv. now subst w.
  - destruct S1 as (c' & Ex & Hrel'). rewrite Ex. exists (conv I32 (enc w)), c'. split; [reflexivity|].
    split; [reflexivity|]. split; [exact (rel_ivars _ _ _ _ Hrel')|exact (rel_out _ _ _ _ Hrel')].
Qed.

End Handler.

End Handlers.

(** * The unit *)

Module Units.
Import Names Ir Ivars CNames Partition CExprs Ast Lower AmpUnit CTarget Source Simulation Collect Handlers.

Section Program.
Variable native : option text.
Variable ir : IR.
Variable ast : AST.
Variable base : text.
(** The instance variables of the unit. *)
Variable U : list text.

(** The method [me] of the table is the Ruby body [b]: it is in the tree, its names
    are declared, its calls are supported. *)
Record handler_ok (me : Method) (b : rblock) : Prop := mk_handler_ok {
  h_params : m_params me = [];
  h_body : node_is ast (m_body me) "StatementsNode";
  h_stmts : stmts_at ast b (nt_arr ast (m_body me) (lit "body"));
  h_scoped : block_ok (block_writes b) (env_of native ir base me) U b;
  h_distinct : forall x y, In x (block_writes b) -> In y (block_writes b) -> cc_safe_dup x = cc_safe_dup y -> x = y;
  h_finite : exists d, fin ast d (m_body me);
  h_scan : exists f, amp_scan_supported ast f (m_body me) = Ok tt
}.

(** More fuel does not change the verdict of the scan. *)
Fixpoint scan_all (f : nat) (ids : list Z) : result unit :=
  match ids with
  | [] => Ok tt
  | i :: ids' => match amp_scan_supported ast f i with Ok _ => scan_all f ids' | r => r end
  end.

Lemma scan_fold f ids : fold_left (fun acc i => match acc with Ok _ => amp_scan_supported ast f i | r => r end) ids (Ok tt) = scan_all f ids.
Proof.
  assert (Hs : forall ids (r : result unit), (forall u, r <> Ok u) ->
    fold_left (fun acc i => match acc with Ok _ => amp_scan_supported ast f i | r => r end) ids r = r).
  { clear. induction ids as [|i ids IH]; intros r H; [reflexivity|]. cbn [fold_left]. destruct r; try now apply IH. now destruct (H a). }
  induction ids as [|i ids IH]; [reflexivity|]. cbn [fold_left scan_all].
  destruct (amp_scan_supported ast f i) as [[]| | | |]; [exact IH|now apply Hs..].
Qed.

Lemma scan_mono f : forall nid, amp_scan_supported ast f nid = Ok tt -> amp_scan_supported ast (S f) nid = Ok tt.
Proof.
  induction f as [|f IH]; intros nid H; [discriminate|].
  assert (Hall : forall ids, scan_all f ids = Ok tt -> scan_all (S f) ids = Ok tt).
  { induction ids as [|i ids IHi]; [auto|]. cbn [scan_all]. destruct (amp_scan_supported ast f i) as [[]| | | |] eqn:Ei; try discriminate.
    rewrite (IH i Ei). exact IHi. }
  remember (S f) as g. cbn [amp_scan_supported]. subst g. cbn [amp_scan_supported] in H.
  destruct (node_at ast nid) as [n|]; [|exact H]. rewrite scan_fold in *. fold (children n) in *.
  destruct (_ || _); [exact H|]. destruct (isa _ "CallNode"); [|now apply Hall].
  destruct (nt_str ast nid (lit "name")) as [nm|]; [|now apply Hall]. destruct (_ && _); [discriminate|now apply Hall].
Qed.

Lemma scan_ev f nid : amp_scan_supported ast f nid = Ok tt -> ev (fun f => amp_scan_supported ast f nid) (Ok tt).
Proof. intros H. exists f. intros g Hg. induction Hg as [|g _ IH]; [exact H|]. now apply scan_mono. Qed.


(** Every handler's lines simulate its Ruby body under one registry, and print as
    the expressions they are. *)
Definition handler_done (R : registry) (me : Method) (b : rblock) (h : Method * list cline) : Prop :=
  fst h = me /\ lines_good (snd h) /\ simulates R me b (snd h).

Fixpoint all_done (R : registry) (hs : list Method) (bs : list rblock) (out : list (Method * list cline)) : Prop :=
  match hs, bs, out with
  | [], [], [] => True
  | me :: hs', b :: bs', h :: out' => handler_done R me b h /\ all_done R hs' bs' out'
  | _, _, _ => False
  end.

Lemma handlers_lower : (length U <= 64)%nat -> (forall x, assigned ast x -> name_ok x) ->
  forall hs bs, Forall2 handler_ok hs bs -> forall reg, reg_in U reg ->
  exists out reg', ev (fun f => lower_handlers native ir ast base f hs reg) (Ok (out, reg')) /\
    reg_in U reg' /\ ext reg reg' /\ forall R, ext reg' R -> all_done R hs bs out.
Proof.
  intros Hu Hn. induction 1 as [|me b hs bs H _ IH]; intros reg Hr.
  - exists [], reg. split; [now exists O|]. split; [exact Hr|]. split; [apply ext_refl, Hr|]. intros. exact I.
  - destruct (h_finite _ _ H) as [d Hd].
    destruct (handler_lowers (env_of native ir base me) eq_refl eq_refl ast U Hu Hn b (h_distinct _ _ H) (h_params _ _ H)
                (h_body _ _ H) (h_stmts _ _ H) (h_scoped _ _ H) d Hd reg Hr) as (L & n & r1 & [k1 E1] & R1 & X1 & G1 & S1).
    destruct (IH r1 R1) as (out & r2 & [k2 E2] & R2 & X2 & S2). destruct (h_scan _ _ H) as [k0 Hk0]. destruct (scan_ev k0 _ Hk0) as [k3 E3].
    exists ((me, L) :: out), r2. split; [|split; [exact R2|split; [now apply (ext_trans _ r1)|]]].
    + exists (k1 + k2 + k3)%nat. intros f Hf. cbn [lower_handlers]. rewrite (h_params _ _ H), E3, E1 by lia.
      cbn [g_amp_ivars g_body]. now rewrite E2 by lia.
    + intros R HR. split; [|now apply S2]. split; [reflexivity|]. split; [exact G1|]. apply S1. now apply (ext_trans _ r2).
Qed.


End Program.

(** ** A unit

    [def timer_100; @n += 1; x = @n * 3; if x > 10 && @n < 100; spnl_emit(x); else; @n = (x); end; end] *)
Definition node (ty : string) (ss : list (string * string)) (ii : list (string * Z)) (rr : list (string * Z)) (aa : list (string * list Z)) : SpNode :=
  mk_node (Some (lit ty)) (map (fun p => (lit (fst p), lit (snd p))) ss) (map (fun p => (lit (fst p), snd p)) ii)
    (map (fun p => (lit (fst p), snd p)) rr) (map (fun p => (lit (fst p), snd p)) aa).

Definition sample_ast : AST :=
  [node "ProgramNode" [] [] [] [];
   node "StatementsNode" [] [] [] [("body", [2; 4; 9])];
   node "InstanceVariableOperatorWriteNode" [("name", "@n"); ("binary_operator", "+")] [] [("value", 3)] [];
   node "IntegerNode" [] [("value", 1)] [] [];
   node "LocalVariableWriteNode" [("name", "x")] [] [("value", 5)] [];
   node "CallNode" [("name", "*")] [] [("receiver", 6); ("arguments", 7)] [];
   node "InstanceVariableReadNode" [("name", "@n")] [] [] [];
   node "ArgumentsNode" [] [] [] [("arguments", [8])];
   node "IntegerNode" [] [("value", 3)] [] [];
   node "IfNode" [] [] [("predicate", 10); ("statements", 19); ("subsequent", 23)] [];
   node "AndNode" [] [] [("left", 11); ("right", 15)] [];
   node "CallNode" [("name", ">")] [] [("receiver", 12); ("arguments", 13)] [];
   node "LocalVariableReadNode" [("name", "x")] [] [] [];
   node "ArgumentsNode" [] [] [] [("arguments", [14])];
   node "IntegerNode" [] [("value", 10)] [] [];
   node "CallNode" [("name", "<")] [] [("receiver", 16); ("arguments", 17)] [];
   node "InstanceVariableReadNode" [("name", "@n")] [] [] [];
   node "ArgumentsNode" [] [] [] [("arguments", [18])];
   node "IntegerNode" [] [("value", 100)] [] [];
   node "StatementsNode" [] [] [] [("body", [20])];
   node "CallNode" [("name", "spnl_emit")] [] [("arguments", 21)] [];
   node "ArgumentsNode" [] [] [] [("arguments", [22])];
   node "LocalVariableReadNode" [("name", "x")] [] [] [];
   node "ElseNode" [] [] [("statements", 24)] [];
   node "StatementsNode" [] [] [] [("body", [25])];
   node "InstanceVariableWriteNode" [("name", "@n")] [] [("value", 26)] [];
   node "ParenthesesNode" [] [] [("body", 27)] [];
   node "StatementsNode" [] [] [] [("body", [28])];
   node "LocalVariableReadNode" [("name", "x")] [] [] []]%string.

Definition sample_body : rblock :=
  let n := lit "@n" in
  let x := lit "x" in
  BCons (SIvarOp n (lit "+") (RInt 1))
  (BCons (SLocal x (RBin (lit "*") (RIvar n) (RInt 3)))
  (BCons (SIf (RAnd (RBin (lit ">") (RLocal x) (RInt 10)) (RBin (lit "<") (RIvar n) (RInt 100)))
            (BCons (SEmit (RLocal x)) BNil) (EElse (BCons (SIvar n (RParen (RLocal x))) BNil)))
   BNil)).

Definition sample_ir : IR := mk_IR [mk_method (lit "timer_100") None [] Types.CC_TY_INT 1 SO_NONE None] [] [] [] [].

(** The tree of the sample is the program. *)
Fixpoint finb (ast : AST) (d : nat) (nid : Z) : bool :=
  match d with
  | O => false
  | S d => match node_at ast nid with None => true | Some n => forallb (finb ast d) (children n) end
  end.

Lemma finb_fin ast d : forall nid, finb ast d nid = true -> fin ast d nid.
Proof.
  induction d as [|d IH]; intros nid H; [discriminate|]. cbn [finb fin] in *. destruct (node_at ast nid) as [n|]; [|exact I].
  rewrite forallb_forall in H. auto.
Qed.

Definition plain (x : text) : bool :=
  negb (text_eqb x (lit "ctx")) && negb (text_eqb x (lit "amp_emit")) && match x with c :: _ => negb (Ascii.eqb c "_") | [] => true end.

Definition plain_node (n : SpNode) : bool :=
  match assoc (lit "name") (n_s n) with Some nm => plain (cc_safe_dup nm) | None => true end.

Lemma plain_names ast : forallb (fun n => match n_type n with Some ty => negb (isa ty "LocalVariableWriteNode") || plain_node n | None => true end) ast = true ->
  forall x, assigned ast x -> name_ok x.
Proof.
  intros H x (nid & nm & Ht & Hn & ->). rewrite forallb_forall in H. unfold node_is, nt_type, nt_str, node_at in *.
  destruct (_ || _); [discriminate|]. destruct (nth_error ast (Z.to_nat nid)) as [n|] eqn:En; [|discriminate].
  destruct (n_type n) eqn:Ety; [|discriminate]. injection (eq_trans (eq_sym Ety) Ht) as ->.
  specialize (H n (nth_error_In _ _ En)). rewrite Ety in H. change (isa (lit "LocalVariableWriteNode") "LocalVariableWriteNode") with true in H.
  cbn [negb orb] in H. unfold plain_node in H. rewrite Hn in H. unfold plain in H. bools.
  split; [intros Hc; rewrite Hc in *; discriminate|]. split; [intros Hc; rewrite Hc in *; discriminate|].
  intros k Hc. rewrite Hc in *. discriminate.
Qed.

(** The C function of the sample. *)
Definition sample_lines : list string :=
  ["int timer_100(void *ctx)"; "{"; "    (void)ctx;"; "    __s64 x = 0;";
   "    (*(volatile __u32 *)(SPNL_AMP_IVARS_BASE + 0u)) = (*(volatile __u32 *)(SPNL_AMP_IVARS_BASE + 0u)) + (1);";
   "    x = (*(volatile __u32 *)(SPNL_AMP_IVARS_BASE + 0u)) * 3;";
   "    __s64 _if1 = 0;";
   "    if (x > 10 && (*(volatile __u32 *)(SPNL_AMP_IVARS_BASE + 0u)) < 100) {";
   "        amp_emit(x);";
   "        _if1 = 0;";
   "    } else {";
   "        (*(volatile __u32 *)(SPNL_AMP_IVARS_BASE + 0u)) = ((x));";
   "        _if1 = (*(volatile __u32 *)(SPNL_AMP_IVARS_BASE + 0u));";
   "    }";
   "    return _if1;"; "}"]%string.

Lemma sample_text :
  match lower_handlers None sample_ir sample_ast (lit "probe") 40 (handlers None sample_ir) [] with
  | Ok ([h], reg) => Some (tl (handler_texts h), reg)
  | _ => None
  end = Some (map lit sample_lines, [lit "n"]).
Proof. vm_compute. reflexivity. Qed.

(** Evaluates lookups in a concrete table, goal by goal. *)
Ltac in_table :=
  repeat match goal with
  | |- _ /\ _ => split
  | |- exists _, _ => eexists
  | |- expr_under _ _ _ _ => unfold expr_under
  | |- arg_of _ _ _ => unfold arg_of
  | |- context [block_at ?t _ ?n] =>
      unfold block_at; let v := eval vm_compute in (n <? 0) in change (n <? 0) with v; cbv iota
  | |- context [stmts_at ?t _ (nt_arr ?t' ?n ?k)] =>
      let v := eval vm_compute in (nt_arr t' n k) in change (nt_arr t' n k) with v; cbn [stmts_at]
  | |- stmt_at _ _ _ => cbn [stmt_at]
  | |- else_at _ _ _ => cbn [else_at]
  | |- expr_at _ _ _ => cbn [expr_at]
  | |- True => exact I
  | |- In _ _ => cbn [In]; auto
  | |- _ = _ => reflexivity
  | |- _ < _ => reflexivity
  | |- _ <= _ => discriminate
  | |- node_is _ _ _ => reflexivity
  end.

Lemma sample_stmts : stmts_at sample_ast sample_body (nt_arr sample_ast 1 (lit "body")).
Proof. unfold sample_body. in_table. Qed.

Lemma n_is_ivar : ivar_name (lit "@n").
Proof. exists (lit "n"). split; [reflexivity|discriminate]. Qed.

Lemma sample_handler : handler_ok None sample_ir sample_ast (lit "probe") [lit "n"] (nth 0 (ir_m sample_ir) (mk_method [] None [] Types.CC_TY_INT 0 SO_NONE None)) sample_body.
Proof.
  constructor; try reflexivity; [exact sample_stmts| | | |].
  - unfold sample_body, expr_ok, ivar_ok. cbn. unfold expr_ok, ivar_ok. cbn. pose proof n_is_ivar. repeat split; auto.
  - cbn. intros x y [<-|[]] [<-|[]] _. reflexivity.
  - exists 12%nat. now apply finb_fin.
  - exists 12%nat. reflexivity.
Qed.


(** The premises of [simulates] hold on it. *)
Lemma sample_runs :
  let s := r_start (fun _ => VInt 4) [] in
  tame_block s sample_body /\
  match rexec_block VNil s sample_body with
  | Some (RNext VNil s') => r_ivars s' (lit "@n") = VInt 5 /\ r_out s' = [15]
  | _ => False
  end.
Proof.
  cbv zeta. split; [|vm_compute; auto].
  split; [split; [reflexivity|intros v H; injection H as <-; reflexivity]|].
  split; [reflexivity|]. split; [|exact I]. split; [reflexivity|]. split; [reflexivity|]. split; [reflexivity|exact I].
Qed.

End Units.
