(* ===== verification/CgLimits.v ===== *)
(** * The limits of the subset

    [Scan]: what [amp_scan_supported] accepts ([src/src/codegen_c/spinel_ebpf_cc.c]):
    exactly the trees whose calls the real-time core has.

    [Divergence]: programs outside the hypotheses of CgSim.v on which the generated C
    and Ruby differ, or on which the generated text is no C program: each is a closed
    computation on the lowering of CgLower.v and the semantics of CgSem.v. *)

From S2P Require Import Prelude CText CgText CgIr CgAst CgConst CgAmp CgExpr CgLower CgSem CgSim.

Module Scan.
Import Ast Const Schema Lower AmpUnit Source Collect Units.

Section Table.
Variable ast : AST.

(** The nodes the scan visits: bodies of nested definitions are not. *)
Inductive visits : Z -> Z -> Prop :=
| visits_here nid n : node_at ast nid = Some n -> opaque_node n = false -> visits nid nid
| visits_child nid n c m : node_at ast nid = Some n -> opaque_node n = false -> In c (children n) -> visits c m -> visits nid m.

Definition calls (m : Z) (nm : text) : Prop := node_is ast m "CallNode" /\ nt_str ast m (lit "name") = Some nm.

(** An operator, or [spnl_emit], or [ktime_ns]. *)
Definition supported (nm : text) : Prop := cc_is_binary_op nm = true \/ nm = lit "spnl_emit" \/ nm = lit "ktime_ns".

Lemma on_amp nm : cc_builtin_on_target nm CC_TGT_AMP = true <-> nm = lit "spnl_emit" \/ nm = lit "ktime_ns".
Proof.
  unfold cc_builtin_on_target, cc_builtin_targets. cbn [lookup].
  destruct (text_eqb_spec (lit "spnl_emit") nm) as [<-|H1]; [vm_compute; intuition|].
  destruct (text_eqb_spec (lit "ktime_ns") nm) as [<-|H2]; [vm_compute; intuition|].
  split; [discriminate|]. intros [->| ->]; congruence.
Qed.

Lemma supported_dec nm : negb (cc_is_binary_op nm) && negb (cc_builtin_on_target nm CC_TGT_AMP) = false <-> supported nm.
Proof.
  unfold supported. rewrite <- on_amp. destruct (cc_is_binary_op nm), (cc_builtin_on_target nm CC_TGT_AMP); cbn; intuition congruence.
Qed.

Lemma scan_eq f nid : amp_scan_supported ast (S f) nid =
  match node_at ast nid with
  | None => Ok tt
  | Some n =>
      if opaque_node n then Ok tt
      else if isa (match n_type n with Some t => t | None => [] end) "CallNode" then
        match nt_str ast nid (lit "name") with
        | Some nm => if negb (cc_is_binary_op nm) && negb (cc_builtin_on_target nm CC_TGT_AMP) then Die (NotOnAmp nm)
                     else scan_all ast f (children n)
        | None => scan_all ast f (children n)
        end
      else scan_all ast f (children n)
  end.
Proof. cbn [amp_scan_supported]. destruct (node_at ast nid) as [n|]; [|reflexivity]. now rewrite scan_fold. Qed.

(** What a verdict says of the visited nodes. *)
Definition verdict (r : result unit) (seen : Z -> Prop) : Prop :=
  r = Ok tt /\ (forall m nm, seen m -> calls m nm -> supported nm) \/
  exists m nm, r = Die (NotOnAmp nm) /\ seen m /\ calls m nm /\ ~ supported nm.

Lemma is_call_node nid n : node_at ast nid = Some n ->
  isa (match n_type n with Some t => t | None => [] end) "CallNode" = true <-> node_is ast nid "CallNode".
Proof.
  intros Hn. unfold node_is, nt_type. rewrite Hn. unfold isa. rewrite text_eqb_eq.
  unfold node_at in Hn. destruct (_ || _); [discriminate|]. destruct (nth_error ast (Z.to_nat nid)) as [n'|]; [|discriminate].
  destruct (n_type n') eqn:E; [|discriminate]. injection Hn as <-. rewrite E. split; [now intros ->|intros Hx; now injection Hx].
Qed.

Lemma scan_all_verdict f ids : (forall i, In i ids -> verdict (amp_scan_supported ast f i) (visits i)) ->
  verdict (scan_all ast f ids) (fun m => exists i, In i ids /\ visits i m).
Proof.
  induction ids as [|i ids IH]; intros H; [left; split; [reflexivity|now intros m nm (i & [] & _)]|]. cbn [scan_all].
  destruct (H i (or_introl eq_refl)) as [[-> Hi]|(m & nm & -> & Hs & Hc & Hn)].
  - destruct IH as [[-> Hr]|(m & nm & -> & (j & Hj & Hs) & Hc & Hn)]; [intros j Hj; apply H; now right| |].
    + left. split; [reflexivity|]. intros m nm (j & [->|Hj] & Hs) Hc; [now apply (Hi m)|apply (Hr m); eauto].
    + right. exists m, nm. repeat split; try apply Hc; auto. exists j. split; [now right|exact Hs].
  - right. exists m, nm. repeat split; try apply Hc; auto. exists i. split; [now left|exact Hs].
Qed.

Lemma scan_verdict d : forall nid, fin ast d nid -> verdict (amp_scan_supported ast d nid) (visits nid).
Proof.
  induction d as [|d IH]; intros nid H; [destruct H|]. cbn [fin] in H. rewrite scan_eq.
  destruct (node_at ast nid) as [n|] eqn:En.
  2:{ left. split; [reflexivity|]. intros m nm Hv. inversion Hv; congruence. }
  destruct (opaque_node n) eqn:Eo.
  { left. split; [reflexivity|]. intros m nm Hv. inversion Hv; congruence. }
  pose proof (scan_all_verdict d (children n) (fun i Hi => IH i (H i Hi))) as Hall.
  assert (Hsub : forall m, (exists i, In i (children n) /\ visits i m) -> visits nid m).
  { intros m (i & Hi & Hv). now apply (visits_child nid n i). }
  assert (Hdesc : (forall nm, calls nid nm -> supported nm) -> verdict (scan_all ast d (children n)) (visits nid)).
  { intros Hown. destruct Hall as [[-> Ha]|(m & nm & -> & Hs & Hc & Hn)]; [left|right; exists m, nm; repeat split; try apply Hc; auto].
    split; [reflexivity|]. intros m nm Hv Hc. inversion Hv as [? ? ? ?|? n' c ? Hn' _ Hin Hv']; subst; [now apply Hown|].
    apply (Ha m nm); [|exact Hc]. exists c. split; [congruence|exact Hv']. }
  destruct (isa _ "CallNode") eqn:Ec.
  - apply (is_call_node nid n En) in Ec. destruct (nt_str ast nid (lit "name")) as [nm|] eqn:Em.
    + destruct (negb _ && negb _) eqn:Es.
      * right. exists nid, nm. split; [reflexivity|]. split; [now apply (visits_here nid n)|]. split; [now split|].
        intros Hs. apply supported_dec in Hs. congruence.
      * apply Hdesc. intros nm' [_ Hm]. rewrite Em in Hm. injection Hm as <-. now apply supported_dec.
    + apply Hdesc. intros nm [_ Hm]. congruence.
  - apply Hdesc. intros nm [Hc _]. apply (is_call_node nid n En) in Hc. congruence.
Qed.

End Table.

(** C16: The gate of the real-time core is exact.  On every finite tree the scan accepts
    if and only if each call it visits is one of the sixteen operators, [spnl_emit] or
    [ktime_ns]; otherwise it stops with a diagnostic naming a call that is visited and
    not supported; and more fuel does not change the verdict.  So no other builtin is
    left to the C compiler, and no supported program is refused. *)
Theorem amp_scan_exact (ast : AST) (d : nat) (nid : Z) : fin ast d nid ->
  (amp_scan_supported ast d nid = Ok tt <-> forall m nm, visits ast nid m -> calls ast m nm -> supported nm) /\
  (amp_scan_supported ast d nid <> Ok tt ->
   exists m nm, amp_scan_supported ast d nid = Die (NotOnAmp nm) /\ visits ast nid m /\ calls ast m nm /\ ~ supported nm) /\
  (amp_scan_supported ast d nid = Ok tt -> forall f, (d <= f)%nat -> amp_scan_supported ast f nid = Ok tt).
Proof.
  intros H. destruct (scan_verdict ast d nid H) as [[Hr Ha]|(m & nm & Hr & Hs & Hc & Hn)]; rewrite Hr.
  - split; [tauto|]. split; [congruence|]. intros _ f Hf. induction Hf; [exact Hr|]. now apply scan_mono.
  - split; [split; [discriminate|intros Ha; now destruct Hn; apply (Ha m)]|]. split; [|discriminate]. intros _. exists m, nm. auto.
Qed.

Lemma amp_scan_exact_witness :
  amp_scan_supported sample_ast 12 1 = Ok tt /\
  (forall m nm, visits sample_ast 1 m -> calls sample_ast m nm -> supported nm).
Proof. split; [reflexivity|]. apply (amp_scan_exact sample_ast 12 1); [now apply finb_fin|reflexivity]. Defined.

End Scan.

(** * Where C and Ruby part *)

Module Divergence.
Import Names Ir Ivars CNames CExprs Ast Lower AmpUnit CTarget Source Simulation Handlers Units.

Definition handler (ret : Types.CcTy) : Method := mk_method (lit "tick") None [] ret 1 SO_NONE None.
Definition unit_ir (ret : Types.CcTy) : IR := mk_IR [handler ret] [] [] [] [].

(** The lines of the one handler of a unit. *)
Definition lines_of_unit (ret : Types.CcTy) (ast : AST) : result (list cline) :=
  match lower_handlers None (unit_ir ret) ast (lit "u") 20 (handlers None (unit_ir ret)) [] with
  | Ok ([(_, L)], _) => Ok L
  | Ok _ => NoFuel
  | Die d => Die d | Smashed => Smashed | Unmodelled n => Unmodelled n | NoFuel => NoFuel
  end.

(** Replaces the lowering of a concrete tree by its result. *)
Ltac lowered :=
  match goal with
  | |- context [lines_of_unit ?t ?a] =>
      let v := eval vm_compute in (lines_of_unit t a) in
      let H := fresh in assert (H : lines_of_unit t a = v) by (vm_compute; reflexivity); rewrite H; clear H
  end; intros.

(** [0 > 1 && (@x = 7)]: Ruby does not evaluate the assignment; the generated code
    executes it before it looks at the left operand. *)
Definition guarded_write : AST :=
  [node "ProgramNode" [] [] [] []; node "StatementsNode" [] [] [] [("body", [2])];
   node "AndNode" [] [] [("left", 3); ("right", 6)] [];
   node "CallNode" [("name", ">")] [] [("receiver", 4); ("arguments", 5)] [];
   node "IntegerNode" [] [("value", 0)] [] []; node "ArgumentsNode" [] [] [] [("arguments", [7])];
   node "ParenthesesNode" [] [] [("body", 8)] []; node "IntegerNode" [] [("value", 1)] [] [];
   node "StatementsNode" [] [] [] [("body", [9])];
   node "InstanceVariableWriteNode" [("name", "@x")] [] [("value", 10)] []; node "IntegerNode" [] [("value", 7)] [] []]%string.

Lemma guarded_write_executed :
  match lines_of_unit Types.CC_TY_VOID guarded_write with
  | Ok L => forall mem out, match exec L (c_start mem out) with CNext c => c_mem c 0%nat = 7 | _ => False end
  | _ => False
  end.
Proof. lowered. reflexivity. Qed.

(** [@x + (@x = 3)]: Ruby adds the old value; the generated code reads it after the
    assignment and returns 6 whatever it was. *)
Definition read_then_write : AST :=
  [node "ProgramNode" [] [] [] []; node "StatementsNode" [] [] [] [("body", [2])];
   node "CallNode" [("name", "+")] [] [("receiver", 3); ("arguments", 4)] [];
   node "InstanceVariableReadNode" [("name", "@x")] [] [] []; node "ArgumentsNode" [] [] [] [("arguments", [5])];
   node "ParenthesesNode" [] [] [("body", 6)] []; node "StatementsNode" [] [] [] [("body", [7])];
   node "InstanceVariableWriteNode" [("name", "@x")] [] [("value", 8)] []; node "IntegerNode" [] [("value", 3)] [] []]%string.

Lemma operand_read_after_write :
  match lines_of_unit Types.CC_TY_INT read_then_write with
  | Ok L => forall mem out, match exec L (c_start mem out) with CReturn (Some v) _ => v = 6 | _ => False end
  | _ => False
  end.
Proof. lowered. reflexivity. Qed.

(** Division and remainder of negative numbers round differently. *)
Lemma division_truncates s c R :
  let q := RBin (lit "/") (RInt (-7)) (RInt 2) in
  let r := RBin (lit "%") (RInt (-7)) (RInt 2) in
  reval s q = Some (VInt (-4)) /\ ceval c (cx R q) = Some (I32, -3) /\
  reval s r = Some (VInt 1) /\ ceval c (cx R r) = Some (I32, -1).
Proof. repeat split. Qed.

(** The number 0 is true in Ruby and false in C. *)
Lemma zero_is_false s c R :
  let e := RAnd (RInt 0) (RInt 5) in
  reval s e = Some (VInt 5) /\ ceval c (cx R e) = Some (I32, 0).
Proof. split; reflexivity. Qed.

(** An instance variable is unsigned: after [@x = 0 - 1] the test [@x < 0] fails, and
    [@x] is 4294967295 when it is published. *)
Lemma negative_ivar_lost c :
  let c' := set_mem 0 (conv U32 (-1)) c in
  ceval c' (TrBin (lit "<") (TrAtom (AMem 0)) (TrAtom (AInt 0))) = Some (I32, 0) /\
  ceval c' (TrAtom (AMem 0)) = Some (U32, 4294967295).
Proof. split; reflexivity. Qed.

(** A local called [ctx] is declared in the block of the parameter [ctx]. *)
Definition ctx_local : AST :=
  [node "ProgramNode" [] [] [] []; node "StatementsNode" [] [] [] [("body", [2])];
   node "LocalVariableWriteNode" [("name", "ctx")] [] [("value", 3)] []; node "IntegerNode" [] [("value", 1)] [] []]%string.

Lemma ctx_redeclared :
  match lines_of_unit Types.CC_TY_INT ctx_local with
  | Ok L => forall mem out, exec L (c_start mem out) = CStuck
  | _ => False
  end.
Proof. lowered. reflexivity. Qed.

(** A local called [_if1] is the temporary of the first [if]. *)
Definition temp_local : AST :=
  [node "ProgramNode" [] [] [] []; node "StatementsNode" [] [] [] [("body", [2; 4])];
   node "LocalVariableWriteNode" [("name", "_if1")] [] [("value", 3)] []; node "IntegerNode" [] [("value", 1)] [] [];
   node "IfNode" [] [] [("predicate", 5); ("statements", 7)] []; node "CallNode" [("name", ">")] [] [("receiver", 3); ("arguments", 6)] [];
   node "ArgumentsNode" [] [] [] [("arguments", [3])]; node "StatementsNode" [] [] [] [("body", [3])]]%string.

Lemma temporary_redeclared :
  match lines_of_unit Types.CC_TY_INT temp_local with
  | Ok L => forall mem out, exec L (c_start mem out) = CStuck
  | _ => False
  end.
Proof. lowered. reflexivity. Qed.

(** [return] in a handler without a value: a function declared [int] with a
    [return;]. *)
Definition bare_return : AST :=
  [node "ProgramNode" [] [] [] []; node "StatementsNode" [] [] [] [("body", [2])]; node "ReturnNode" [] [] [] []]%string.

Lemma bare_return_in_int :
  match lower_handlers None (unit_ir Types.CC_TY_VOID) bare_return (lit "u") 20 (handlers None (unit_ir Types.CC_TY_VOID)) [] with
  | Ok (hs, _) => flat_map handler_texts hs
  | _ => []
  end = [[]; lit "int tick(void *ctx)"; lit "{"; lit "    (void)ctx;"; lit "    return;"; lit "    return 0;"; lit "}"].
Proof. vm_compute. reflexivity. Qed.

(** The advice for [unless] is [if !(cond)]: the call [!] is refused as well. *)
Definition negated : AST :=
  [node "ProgramNode" [] [] [] []; node "StatementsNode" [] [] [] [("body", [2])];
   node "CallNode" [("name", "!")] [] [("receiver", 3)] []; node "IntegerNode" [] [("value", 1)] [] []]%string.

Lemma negation_refused : lines_of_unit Types.CC_TY_INT negated = Die (NotOnAmp (lit "!")).
Proof. vm_compute. reflexivity. Qed.

(** [x = spnl_emit(1)] passes the scan and is then called no builtin. *)
Definition emit_value : AST :=
  [node "ProgramNode" [] [] [] []; node "StatementsNode" [] [] [] [("body", [2])];
   node "LocalVariableWriteNode" [("name", "x")] [] [("value", 3)] []; node "CallNode" [("name", "spnl_emit")] [] [("arguments", 4)] [];
   node "ArgumentsNode" [] [] [] [("arguments", [5])]; node "IntegerNode" [] [("value", 1)] [] []]%string.

Lemma emit_value_refused : lines_of_unit Types.CC_TY_INT emit_value = Die (NotABuiltin (lit "spnl_emit")).
Proof. vm_compute. reflexivity. Qed.

(** A constant path of 128 characters or more is written past [char path[128]]. *)
Definition long_name : string := "AAAAAAAAAAAAAAAAAAAAAAAAAAAAAAAAAAAAAAAAAAAAAAAAAAAAAAAAAAAAAAAA"%string.
Definition long_path : AST :=
  [node "ProgramNode" [] [] [] []; node "StatementsNode" [] [] [] [("body", [2])]%string;
   node "ConstantPathNode" [("name"%string, long_name)] [] [("parent"%string, 3)] []; node "ConstantReadNode" [("name"%string, long_name)] [] [] []].

Lemma long_path_overruns : lines_of_unit Types.CC_TY_INT long_path = Smashed.
Proof. vm_compute. reflexivity. Qed.

End Divergence.
