(* ===== verification/CgScope.v ===== *)
(** * The C the lowering emits is well formed

    [src/src/codegen_c/spinel_ebpf_cc.c]: whatever body [cc_emit_method_body] accepts, on
    either target, the lines it pushes obey the rules of C for names.

    - [Rules]: a checker of emitted lines, in the manner of a C compiler: every name is
      declared once before it is used and is used in the block of its declaration or an
      inner one, and statements are those of the target.
    - [Emits]: the lowering passes it. *)

From S2P Require Import Prelude CText CgText CgIr CgAst CgConst CgAmp CgExpr CgLower.
Import Names Ir Ivars CNames Const CExprs Schema Ast Lower.

Module Rules.

Section Target.
Variable E : genv.

Definition mem (x : text) (G : list text) : bool := existsb (text_eqb x) G.

(** The constants of the kernel headers that are printed by name. *)
Definition is_macro (x : text) : bool := existsb (fun p => text_eqb x (lit (snd p))) macro_paths.

Definition atom_ok (G : list text) (a : atom) : bool :=
  match a with
  | AInt _ => true
  | AName x => mem x G || is_macro x
  | ACapture x => mem x (g_captures E)
  | ALookup p => mem (temp "_p" p) G
  | AMem slot => g_amp E && (slot <? 64)%nat
  | ACallText t => text_eqb t (lit (if g_amp E then "((__s64)amp_ktime())" else "((__s64)bpf_ktime_get_ns())"))
  end.

Fixpoint expr_ok (G : list text) (e : CExpr) : bool :=
  match e with
  | CE_RAW a => atom_ok G a
  | CE_FLAT e | CE_PAREN e | CE_CAST _ e | CE_UNARY _ e => expr_ok G e
  | CE_BINOP op l r => match ce_binop_prec op with Some _ => expr_ok G l && expr_ok G r | None => false end
  | CE_CALL _ args => forallb (expr_ok G) args
  | CE_SUBSCRIPT e i => expr_ok G e && expr_ok G i
  end.

(** A declaration: the scope after it. *)
Definition declared (x : text) (G : list text) : option (list text) := if mem x G then None else Some (x :: G).
Definition only_if (b : bool) (r : option (list text)) : option (list text) := if b then r else None.

(** A method without a value returns none, any other one. *)
Definition is_void : bool :=
  match m_ret (g_method E), m_so_kind (g_method E) with Types.CC_TY_VOID, SO_NONE => true | _, _ => false end.

(** The C function around the lines: on the real-time core it is [int f(void *ctx)]
    whatever the method returns, on the kernel targets [static __noinline T f_inner(...)]
    with the type of the method, whose parameters may follow the kernel's context, the
    index of an attached symbol and a pointer to packed arguments. *)
Definition c_void : bool := negb (g_amp E) && is_void.

Definition kernel_extra (ctx sym packed : bool) : list text :=
  (if ctx then [lit "ctx"] else []) ++ (if sym then [lit "__spnl_sym"] else []) ++ (if packed then [lit "__a"] else []).

Definition c_params (extra : list text) : list text := if g_amp E then [lit "ctx"] else extra ++ map fst (m_params (g_method E)).

(** The scope after a line, or [None] for a line a compiler rejects. *)
Fixpoint line_ok (l : cline) (G : list text) : option (list text) :=
  let block := fix block (ls : list cline) (G : list text) :=
    match ls with [] => Some G | l :: ls' => match line_ok l G with Some G' => block ls' G' | None => None end end in
  match l with
  | LDecl x => declared x G
  | LSet x e => only_if (mem x G && expr_ok G e) (Some G)
  | LSetCapture x e => only_if (mem x (g_captures E) && expr_ok G e) (Some G)
  | LMemSet slot e => only_if (g_amp E && (slot <? 64)%nat && expr_ok G e) (Some G)
  | LMemRmw slot op e => only_if (g_amp E && (slot <? 64)%nat && match ce_binop_prec op with Some _ => expr_ok G e | None => false end) (Some G)
  | LKey k => only_if (negb (g_amp E)) (declared (temp "_k" k) G)
  | LLookup p _ k => only_if (negb (g_amp E) && mem (temp "_k" k) G) (declared (temp "_p" p) G)
  | LVal v e => only_if (negb (g_amp E) && expr_ok G e) (declared (temp "_v" v) G)
  | LValRmw v p op e =>
      only_if (negb (g_amp E) && mem (temp "_p" p) G && match ce_binop_prec op with Some _ => expr_ok G e | None => false end)
        (declared (temp "_v" v) G)
  | LUpdate _ k v => only_if (negb (g_amp E) && mem (temp "_k" k) G && mem (temp "_v" v) G) (Some G)
  | LAmpEmit e => only_if (g_amp E && expr_ok G e) (Some G)
  | LRingEmit _ n e => only_if (negb (g_amp E) && negb (mem (temp "_e" n) G) && expr_ok G e) (Some G)
  | LVoid e => only_if (expr_ok G e) (Some G)
  | LReturn None => only_if c_void (Some G)
  | LReturn (Some e) => only_if (negb c_void && expr_ok G e) (Some G)
  | LIf c th el =>
      match block th G, (match el with Some b => block b G | None => Some G end) with
      | Some _, Some _ => only_if (expr_ok G c) (Some G)
      | _, _ => None
      end
  end.

Fixpoint lines_ok (ls : list cline) (G : list text) : option (list text) :=
  match ls with [] => Some G | l :: ls' => match line_ok l G with Some G' => lines_ok ls' G' | None => None end end.

Lemma line_ok_if c th el G : line_ok (LIf c th el) G =
  match lines_ok th G, (match el with Some b => lines_ok b G | None => Some G end) with
  | Some _, Some _ => only_if (expr_ok G c) (Some G)
  | _, _ => None
  end.
Proof. reflexivity. Qed.

Lemma lines_ok_app a b G : lines_ok (a ++ b) G = match lines_ok a G with Some G' => lines_ok b G' | None => None end.
Proof. revert G. induction a as [|l a IH]; intros G; [reflexivity|]. cbn [app lines_ok]. destruct (line_ok l G); [apply IH|reflexivity]. Qed.

Lemma mem_In x G : mem x G = true <-> In x G.
Proof.
  unfold mem. rewrite existsb_exists. split; [intros (y & H & E')|intros H; exists x; split; [exact H|apply text_eqb_refl]].
  apply text_eqb_eq in E'. now subst.
Qed.

Lemma mem_incl x G G' : incl G G' -> mem x G = true -> mem x G' = true.
Proof. rewrite !mem_In. auto. Qed.

(** More names in scope keep an expression well formed. *)
Lemma expr_ok_incl G G' : incl G G' -> forall e, expr_ok G e = true -> expr_ok G' e = true.
Proof.
  intros I e. induction e as [a|e IH|e IH|ty e IH|op e IH|op l r IHl IHr|f args IH|l r IHl IHr] using CExpr_nested_ind; cbn [expr_ok]; auto.
  - destruct a; cbn [atom_ok]; auto; [|eauto using mem_incl]. rewrite !orb_true_iff. intros [H|H]; eauto using mem_incl.
  - destruct (ce_binop_prec op); [|auto]. rewrite !andb_true_iff. tauto.
  - induction IH as [|e args H _ IHa]; cbn [forallb]; auto. rewrite !andb_true_iff. tauto.
  - rewrite !andb_true_iff. tauto.
Qed.

End Target.
End Rules.

Module Emits.
Import Rules.

(** ** The nodes of a body *)

Section Tree.
Variable ast : AST.

Definition definition_like (ty : text) : bool := isa ty "DefNode" || isa ty "ClassNode" || isa ty "ModuleNode".
Definition children (n : SpNode) : list Z := map snd (n_r n) ++ concat (map snd (n_a n)).

(** [i] is [nid] or below it, outside nested definitions. *)
Inductive below (nid : Z) : Z -> Prop :=
| Here : below nid nid
| Under i n c : below nid i -> node_at ast i = Some n -> (forall ty, n_type n = Some ty -> definition_like ty = false) ->
    In c (children n) -> below nid c.

Lemma assoc_In {A} key (l : list (text * A)) v : assoc key l = Some v -> In v (map snd l).
Proof. induction l as [|[k w] l IH]; cbn [assoc map snd]; [discriminate|]. destruct (text_eqb k key); [injection 1 as <-; now left|right; auto]. Qed.

(** A node to lower: none, or one of the body. *)
Definition inside (body i : Z) : Prop := node_at ast i = None \/ below body i.

Lemma ref_inside body i ty k : inside body i -> nt_type ast i = Some ty -> definition_like ty = false -> inside body (nt_ref ast i (lit k)).
Proof.
  intros [N|B] T D; unfold nt_type in T; [rewrite N in T; discriminate|]. unfold nt_ref. destruct (node_at ast i) as [n|] eqn:N; [|discriminate].
  destruct (assoc (lit k) (n_r n)) as [r|] eqn:A; [|now left]. right.
  apply (Under body i n r B N); [intros ty' T'; congruence|]. unfold children. rewrite in_app_iff. left. now apply (assoc_In (lit k)).
Qed.

Lemma arr_inside body i ty k : inside body i -> nt_type ast i = Some ty -> definition_like ty = false -> Forall (inside body) (nt_arr ast i (lit k)).
Proof.
  intros [N|B] T D; unfold nt_type in T; [rewrite N in T; discriminate|]. unfold nt_arr. destruct (node_at ast i) as [n|] eqn:N; [|discriminate].
  destruct (assoc (lit k) (n_a n)) as [l|] eqn:A; [|constructor]. apply Forall_forall. intros c Hc. right.
  apply (Under body i n c B N); [intros ty' T'; congruence|]. unfold children. rewrite in_app_iff. right. apply in_concat. exists l.
  split; [now apply (assoc_In (lit k))|exact Hc].
Qed.

(** ** The locals that are collected *)

Definition writes (i : Z) (x : text) : Prop :=
  exists nm, nt_type ast i = Some (lit "LocalVariableWriteNode") /\ nt_str ast i (lit "name") = Some nm /\ x = cc_safe_dup nm.

Definition add_all (f : nat) (ids : list Z) (acc : result (list text)) : result (list text) :=
  fold_left (fun acc i => match acc with Ok ns => cc_collect_locals ast f i ns | r => r end) ids acc.

Lemma add_all_ok f ids : forall acc out, add_all f ids acc = Ok out -> exists ns, acc = Ok ns.
Proof.
  induction ids as [|i ids IH]; intros acc out H; [eauto|]. cbn [add_all fold_left] in H. destruct (IH _ _ H) as [ns E].
  destruct acc; [eauto|discriminate..].
Qed.

(** What collecting below [nid] adds: distinct names, and every name written there. *)
Definition collected (nid : Z) (names out : list text) : Prop :=
  incl names out /\ (NoDup names -> NoDup out) /\ forall i x, below nid i -> writes i x -> In x out.

(** Nothing else is collected. *)
Lemma only_written f : forall nid names out, cc_collect_locals ast f nid names = Ok out -> forall x, In x out -> In x names \/ exists i, writes i x.
Proof.
  induction f as [|f IH]; intros nid names out H x Hx; [discriminate|]. cbn [cc_collect_locals] in H.
  destruct (node_at ast nid) as [n|] eqn:N; [|injection H as <-; now left]. cbv zeta in H.
  set (ty := match n_type n with Some t => t | None => [] end) in H. destruct (_ || isa ty "ModuleNode"); [injection H as <-; now left|].
  assert (A : forall ids acc, add_all f ids (Ok acc) = Ok out -> In x acc \/ exists i, writes i x).
  { induction ids as [|i ids IHi]; intros acc Ha; cbn [add_all fold_left] in Ha; [injection Ha as <-; now left|].
    destruct (add_all_ok f ids _ _ Ha) as [ns En]. rewrite En in Ha. destruct (IHi _ Ha) as [Hn|W]; [|now right]. exact (IH _ _ _ En x Hn). }
  destruct (A _ _ H) as [Hn|W]; [|now right]. clear H A. destruct (isa ty "LocalVariableWriteNode") eqn:L; [|now left].
  destruct (nt_str ast nid (lit "name")) as [nm|] eqn:Nm; [|now left]. destruct (existsb _ names); [now left|].
  apply in_app_iff in Hn as [Hn|[<-|[]]]; [now left|]. right. exists nid, nm. split; [|auto]. apply text_eqb_eq in L. unfold ty in L.
  unfold nt_type. rewrite N. destruct (n_type n); [now rewrite L|discriminate L].
Qed.

Lemma below_cases nid i : below nid i -> i = nid \/
  exists n c, node_at ast nid = Some n /\ (forall ty, n_type n = Some ty -> definition_like ty = false) /\ In c (children n) /\ below c i.
Proof.
  induction 1 as [|i n c B IH N D I]; [now left|]. right. destruct IH as [->|(m & d & Hm & Dm & Hd & Bd)].
  - exists n, c. repeat split; auto. constructor.
  - exists m, d. repeat split; auto. now apply (Under d i n c).
Qed.

Lemma add_all_collected f : (forall nid names out, cc_collect_locals ast f nid names = Ok out -> collected nid names out) ->
  forall ids names out, add_all f ids (Ok names) = Ok out ->
  incl names out /\ (NoDup names -> NoDup out) /\ forall c i x, In c ids -> below c i -> writes i x -> In x out.
Proof.
  intros Hf. induction ids as [|c ids IH]; intros names out H; cbn [add_all fold_left] in H.
  { injection H as <-. repeat split; auto using incl_refl. contradiction. }
  destruct (add_all_ok f ids _ _ H) as [ns E]. rewrite E in H. destruct (Hf _ _ _ E) as (I1 & N1 & W1). destruct (IH _ _ H) as (I2 & N2 & W2).
  split; [eapply incl_tran; eauto|]. split; [auto|]. intros d i x [<-|Hd] B W; [apply I2|]; eauto.
Qed.

Lemma locals_collected f : forall nid names out, cc_collect_locals ast f nid names = Ok out -> collected nid names out.
Proof.
  induction f as [|f IH]; intros nid names out H; [discriminate|]. cbn [cc_collect_locals] in H.
  destruct (node_at ast nid) as [n|] eqn:N.
  2: { injection H as <-. repeat split; auto using incl_refl. intros i x B (nm & T & _). apply below_cases in B as [->|(n & _ & N' & _)]; [|congruence].
       unfold nt_type in T. rewrite N in T. discriminate. }
  set (ty := match n_type n with Some t => t | None => [] end) in *.
  assert (T : nt_type ast nid = Some ty).
  { unfold nt_type. rewrite N. unfold node_at in N. subst ty. destruct (_ || _); [discriminate|]. destruct (nth_error _ _) as [m|]; [|discriminate].
    destruct (n_type m) eqn:Tm; [|discriminate]. injection N as <-. now rewrite Tm. }
  assert (Tn : n_type n = Some ty) by (unfold nt_type in T; now rewrite N in T).
  fold (definition_like ty) in H. destruct (definition_like ty) eqn:D.
  { injection H as <-. repeat split; auto using incl_refl. intros i x B (nm & T' & _). apply below_cases in B as [->|(n' & _ & N' & D' & _)].
    - rewrite T in T'. injection T' as ->. discriminate D.
    - rewrite N in N'. injection N' as <-. specialize (D' _ Tn). congruence. }
  apply (add_all_collected f IH) in H as (I & U & W).
  assert (S : incl names out /\ (NoDup names -> NoDup out) /\ (forall x, writes nid x -> In x out)).
  { destruct (isa ty "LocalVariableWriteNode") eqn:L.
    2: { repeat split; auto. intros x (nm & T' & _). rewrite T in T'. injection T' as ->. discriminate L. }
    destruct (nt_str ast nid (lit "name")) as [nm|] eqn:Nm.
    2: { repeat split; auto. intros x (nm & _ & S & _). congruence. }
    destruct (existsb (text_eqb (cc_safe_dup nm)) names) eqn:X.
    - repeat split; auto. intros x (nm' & _ & S & ->). rewrite Nm in S. injection S as <-. apply I, mem_In, X.
    - repeat split; [intros y Hy; apply I, in_app_iff; now left| |].
      + intros Nd. apply U. apply NoDup_app; [exact Nd|repeat constructor; intros []|]. intros y Hy [<-|[]]. apply mem_In in Hy. unfold mem in Hy. congruence.
      + intros x (nm' & _ & S & ->). rewrite Nm in S. injection S as <-. apply I, in_app_iff. right. now left. }
  destruct S as (S1 & S2 & S3). repeat split; auto. intros i x B Wr. apply below_cases in B as [->|(n' & c & N' & _ & Hc & Bc)]; [auto|].
  rewrite N in N'. injection N' as <-. eauto.
Qed.

End Tree.
(** ** Names of temporaries *)

Definition prefixes : list string := ["_if"; "_k"; "_p"; "_v"; "_e"]%string.

Lemma temp_number a b m n : In a prefixes -> In b prefixes -> temp a m = temp b n -> m = n.
Proof.
  intros Ha Hb H. assert (a = b) as <-.
  { repeat (destruct Ha as [<-|Ha]; [repeat (destruct Hb as [<-|Hb]; [reflexivity || discriminate H|]); contradiction|]). contradiction. }
  unfold temp in H. apply app_inv_head in H. apply (f_equal atoi) in H. now rewrite !atoi_dec_s in H.
Qed.

Section Body.
Variable E : genv.
Variable ast : AST.
Variable body : Z.

(** The names in scope before the first statement. *)
Variable Base : list text.

Hypothesis written : forall i x, below ast body i -> writes ast i x -> mem x (g_captures E) = false -> In x Base.
Hypothesis read : forall i nm, below ast body i -> nt_type ast i = Some (lit "LocalVariableReadNode") -> nt_str ast i (lit "name") = Some nm ->
  mem (cc_safe_dup nm) (g_captures E) = false -> In (cc_safe_dup nm) Base.

(** An argument list is not a definition. *)
Hypothesis arguments : forall i ty, below ast body i -> nt_type ast (nt_ref ast i (lit "arguments")) = Some ty -> definition_like ty = false.

(** The functions of the real-time core are [int]: no [return] without a value. *)
Hypothesis no_bare : g_amp E = true -> is_void E = true -> forall i, below ast body i -> nt_type ast i <> Some (lit "ReturnNode").

(** Temporaries in scope have been numbered. *)
Definition inv (G : list text) (s : gst) : Prop :=
  incl Base G /\ (forall a m, In a prefixes -> In (temp a m) G -> m <= g_if_counter s) /\ reg_ok (g_amp_ivars s).

(** A run of [m] that succeeds pushes lines that pass the checker. *)
Definition good {A} (pre : list text -> Prop) (m : M A) (post : list text -> A -> Prop) : Prop :=
  forall s a s' G, m s = Ok (a, s') -> inv G s -> pre G ->
  exists L G', g_body s' = g_body s ++ L /\ lines_ok E L G = Some G' /\ incl G G' /\ inv G' s' /\ g_if_counter s <= g_if_counter s' /\ post G' a.

Definition always (G : list text) : Prop := True.
Definition grows (R : list text -> Prop) : Prop := forall G G', incl G G' -> R G -> R G'.

Lemma good_ret {A} (pre : list text -> Prop) (a : A) (post : list text -> A -> Prop) : (forall G, pre G -> post G a) -> good pre (ret a) post.
Proof. intros H s b s' G E1 I P. injection E1 as <- <-. exists [], G. rewrite app_nil_r. split; [reflexivity|]. split; [reflexivity|]. auto using incl_refl, Z.le_refl. Qed.

Lemma good_stuck {A} pre (m : M A) post : (forall s x, m s <> Ok x) -> good pre m post.
Proof. intros H s a s' G E1. now apply H in E1. Qed.

Lemma good_bind {A B} pre (m : M A) mid (k : A -> M B) post : good pre m mid -> (forall a, good (fun G => mid G a) (k a) post) -> good pre (bind m k) post.
Proof.
  intros Hm Hk s b s' G E1 I P. unfold bind in E1. destruct (m s) as [[a s1]| | | |] eqn:Em; try discriminate.
  destruct (Hm _ _ _ _ Em I P) as (L1 & G1 & B1 & C1 & I1 & V1 & N1 & P1). destruct (Hk a _ _ _ _ E1 V1 P1) as (L2 & G2 & B2 & C2 & I2 & V2 & N2 & P2).
  exists (L1 ++ L2), G2. rewrite B2, B1, app_assoc, lines_ok_app, C1. split; [reflexivity|]. split; [exact C2|].
  split; [eapply incl_tran; eauto|]. split; [exact V2|]. split; [lia|exact P2].
Qed.

(** What was in scope stays in scope. *)
Lemma good_frame {A} (R : list text -> Prop) (m : M A) post : grows R -> good always m post -> good R m (fun G a => post G a /\ R G).
Proof.
  intros HR Hm s a s' G E1 I P. destruct (Hm _ _ _ _ E1 I Logic.I) as (L & G' & B & C & I' & V & N & Q). exists L, G'. do 5 (split; [assumption|]). split; [exact Q|].
  eapply HR; eauto.
Qed.

Lemma good_weaken {A} (pre pre' : list text -> Prop) (m : M A) (post post' : list text -> A -> Prop) :
  good pre m post -> (forall G, pre' G -> pre G) -> (forall G a, post G a -> post' G a) -> good pre' m post'.
Proof. intros H H1 H2 s a s' G E1 I P. destruct (H _ _ _ _ E1 I (H1 _ P)) as (L & G' & B & C & I' & V & N & Q). exists L, G'. auto 10. Qed.

Lemma expr_grows e : grows (fun G => expr_ok E G e = true).
Proof. intros G G' I. now apply expr_ok_incl. Qed.

(** A line that declares nothing. *)
Lemma good_push (pre : list text -> Prop) l : (forall G s, inv G s -> pre G -> line_ok E l G = Some G) -> good pre (push l) (fun G _ => pre G).
Proof.
  intros H s a s' G E1 I P. injection E1 as <- <-. exists [l], G. cbn [g_body lines_ok g_if_counter]. rewrite (H G s I P).
  do 2 (split; [reflexivity|]). split; [apply incl_refl|]. split; [exact I|]. split; [apply Z.le_refl|exact P].
Qed.

(** ** Instance variables *)

(** A new temporary is in scope nowhere. *)
Lemma fresh_mem G s a n : inv G s -> In a prefixes -> g_if_counter s < n -> mem (temp a n) G = false.
Proof.
  intros (_ & H & _) Ha Hn. destruct (mem (temp a n) G) eqn:M; [|reflexivity]. apply mem_In in M. specialize (H a n Ha M). lia.
Qed.

Lemma mem_cons x y G : mem x (y :: G) = text_eqb x y || mem x G.
Proof. reflexivity. Qed.

(** The invariant after declaring temporaries numbered by [fresh]. *)
Lemma inv_cons G s s' a n : inv G s -> In a prefixes -> n <= g_if_counter s' -> g_if_counter s <= g_if_counter s' -> g_amp_ivars s' = g_amp_ivars s ->
  inv (temp a n :: G) s'.
Proof.
  intros (I & H & R) Ha Hn Hs Hr. split; [now apply incl_tl|]. split; [|now rewrite Hr].
  intros b m Hb [M|M]; [apply temp_number in M; auto; lia|]. specialize (H b m Hb M). lia.
Qed.

Lemma inv_later G s s' : inv G s -> g_if_counter s <= g_if_counter s' -> g_amp_ivars s' = g_amp_ivars s -> inv G s'.
Proof. intros (I & H & R) Hs Hr. split; [exact I|]. split; [|now rewrite Hr]. intros b m Hb M. specialize (H b m Hb M). lia. Qed.

Definition place_ok (m : ivar_place) : Prop := match m with InMem slot => g_amp E = true /\ (slot < 64)%nat | InMap _ => g_amp E = false end.

Lemma ivar_map_good iv : good always (Lower.cc_ivar_map E iv) (fun _ m => place_ok m).
Proof.
  unfold Lower.cc_ivar_map. destruct (g_amp E) eqn:A; [|apply good_ret; auto].
  intros s m s' G E1 I _. destruct (amp_ivar_slot _ _) as [[slot reg]|] eqn:S; [|discriminate]. injection E1 as <- <-.
  destruct I as (I & H & R). destruct (amp_ivar_slot_ok _ _ _ _ R S) as (R' & _ & N & _).
  exists [], G. cbn [g_body g_if_counter]. rewrite app_nil_r. do 2 (split; [reflexivity|]). split; [apply incl_refl|]. split; [exact (conj I (conj H R'))|].
  split; [apply Z.le_refl|]. split; [exact A|]. assert (slot < length reg)%nat by (apply nth_error_Some; congruence). destruct R'. lia.
Qed.

Ltac temps := repeat first
  [ rewrite mem_cons
  | rewrite text_eqb_refl
  | match goal with |- context [text_eqb (temp ?a ?m) (temp ?b ?n)] => change (text_eqb (temp a m) (temp b n)) with false end
  | rewrite orb_true_r | rewrite orb_false_l | rewrite orb_true_l ].

Ltac numbered s := refine (inv_cons _ s _ _ _ _ _ _ _ _); [|cbn; tauto|cbn; lia|cbn; lia|reflexivity].

Ltac mapped A F :=
  cbn [lines_ok line_ok]; rewrite ?A; unfold only_if, declared; cbn [negb andb]; repeat (progress (temps; rewrite ?F by (cbn; auto || lia)); cbn [andb orb]).

Lemma read_good m : place_ok m -> good always (cc_emit_ivar_read m) (fun G e => expr_ok E G e = true).
Proof.
  destruct m as [slot|map]; cbn [place_ok cc_emit_ivar_read].
  - intros [A Hs]. apply good_ret. intros G _. cbn [expr_ok atom_ok]. rewrite A. cbn [andb]. now apply Nat.ltb_lt.
  - intros A s e s' G E1 I _. injection E1 as <- <-. set (n := g_if_counter s).
    pose proof (fun a k H => fresh_mem G s a k I H) as F. fold n in F.
    exists [LKey (n + 1); LLookup (n + 1 + 1) map (n + 1)], (temp "_p" (n + 1 + 1) :: temp "_k" (n + 1) :: G). cbn [g_body g_if_counter].
    split; [now rewrite <- app_assoc|]. split; [mapped A F; reflexivity|]. split; [now do 2 apply incl_tl|].
    split; [|split; [lia|cbn [expr_ok atom_ok]; temps; reflexivity]].
    numbered (mk_g [] (n + 1) (g_amp_ivars s)). now numbered s.
Qed.

Lemma write_good m rhs : place_ok m -> good (fun G => expr_ok E G rhs = true) (cc_emit_ivar_write m rhs) (fun G e => expr_ok E G e = true).
Proof.
  destruct m as [slot|map]; cbn [place_ok cc_emit_ivar_write].
  - intros [A Hs]. apply Nat.ltb_lt in Hs. eapply good_bind; [apply good_push|].
    + intros G s _ H. cbn [line_ok]. now rewrite A, Hs, H.
    + intros u. apply good_ret. intros G _. cbn [expr_ok atom_ok]. now rewrite A, Hs.
  - intros A s e s' G E1 I P. injection E1 as <- <-. set (n := g_if_counter s).
    pose proof (fun a k H => fresh_mem G s a k I H) as F. fold n in F.
    assert (P' : expr_ok E (temp "_k" (n + 1) :: G) rhs = true) by (apply (expr_ok_incl E G); [apply incl_tl, incl_refl|exact P]).
    exists [LKey (n + 1); LVal (n + 1 + 1) rhs; LUpdate map (n + 1) (n + 1 + 1)], (temp "_v" (n + 1 + 1) :: temp "_k" (n + 1) :: G).
    cbn [g_body g_if_counter]. split; [now rewrite <- !app_assoc|]. split.
    { cbn [lines_ok line_ok]. rewrite A. unfold only_if, declared. cbn [negb andb]. rewrite F by (cbn; auto || lia). cbn iota. rewrite P'. mapped A F. reflexivity. }
    split; [now do 2 apply incl_tl|]. split; [|split; [lia|cbn [expr_ok atom_ok var]; temps; reflexivity]].
    numbered (mk_g [] (n + 1) (g_amp_ivars s)). now numbered s.
Qed.

Lemma rmw_good m op rhs : place_ok m -> ce_binop_prec op <> None ->
  good (fun G => expr_ok E G rhs = true) (cc_emit_ivar_rmw m op rhs) (fun G e => expr_ok E G e = true).
Proof.
  intros Hm Ho. destruct (ce_binop_prec op) as [pr|] eqn:O; [clear Ho|contradiction].
  destruct m as [slot|map]; cbn [place_ok cc_emit_ivar_rmw] in *.
  - destruct Hm as [A Hs]. apply Nat.ltb_lt in Hs. eapply good_bind; [apply good_push|].
    + intros G s _ H. cbn [line_ok]. now rewrite A, Hs, O, H.
    + intros u. apply good_ret. intros G _. cbn [expr_ok atom_ok]. now rewrite A, Hs.
  - intros s e s' G E1 I P. injection E1 as <- <-. set (n := g_if_counter s).
    pose proof (fun a k H => fresh_mem G s a k I H) as F. fold n in F.
    set (G2 := temp "_p" (n + 1 + 1) :: temp "_k" (n + 1) :: G).
    assert (P' : expr_ok E G2 rhs = true) by (apply (expr_ok_incl E G); [now do 2 apply incl_tl|exact P]).
    exists [LKey (n + 1); LLookup (n + 1 + 1) map (n + 1); LValRmw (n + 1 + 1 + 1) (n + 1 + 1) op rhs; LUpdate map (n + 1) (n + 1 + 1 + 1)],
      (temp "_v" (n + 1 + 1 + 1) :: G2).
    cbn [g_body g_if_counter]. split; [now rewrite <- !app_assoc|]. split.
    { cbn [lines_ok line_ok]. rewrite Hm, O. unfold only_if, declared. cbn [negb andb]. rewrite F by (cbn; auto || lia). cbn iota.
      temps. rewrite F by (cbn; auto || lia). cbn [andb orb]. fold G2. rewrite P'. unfold G2. mapped Hm F. reflexivity. }
    split; [now do 3 apply incl_tl|]. split; [|split; [lia|cbn [expr_ok atom_ok var]; temps; reflexivity]].
    numbered (mk_g [] (n + 1 + 1) (g_amp_ivars s)). numbered (mk_g [] (n + 1) (g_amp_ivars s)). now numbered s.
Qed.

(** ** The functions of the lowering *)

Definition expr_post (G : list text) (e : CExpr) : Prop := expr_ok E G e = true.
Definition val_post (G : list text) (v : option CExpr) : Prop := match v with Some e => expr_ok E G e = true | None => True end.

Lemma val_grows v : grows (fun G => val_post G v).
Proof. destruct v; [apply expr_grows|now intros]. Qed.

Lemma or_zero_post G v : val_post G v -> expr_post G (or_zero v).
Proof. now destruct v. Qed.

(** A branch pushes nothing outside, and its lines pass on their own. *)
Definition branch_good (m : M (list cline)) (x : text) : Prop :=
  forall s L s' G, m s = Ok (L, s') -> inv G s -> In x G ->
  g_body s' = g_body s /\ lines_ok E L G <> None /\ inv G s' /\ g_if_counter s <= g_if_counter s'.

Record calls_good (R : calls) : Prop := mk_good {
  g_expr : forall nid, inside ast body nid -> good always (do_expr R nid) expr_post;
  g_build : forall nid, inside ast body nid -> good always (do_build R nid) expr_post;
  g_stmt : forall nid, inside ast body nid -> good always (do_stmt R nid) val_post;
  g_stmts : forall ids last, Forall (inside ast body) ids -> good (fun G => val_post G last) (do_stmts R ids last) val_post;
  g_branch : forall nid x, inside ast body nid -> branch_good (do_branch R nid x) x;
  g_if : forall nid, inside ast body nid -> nt_type ast nid = Some (lit "IfNode") -> good always (do_if R nid) val_post }.

Ltac stuck := apply good_stuck; intros ? ?; discriminate.

(** The cases of a node's type. *)
Ltac kind H := match goal with |- context [isa ?ty ?k] => destruct (isa ty k) eqn:H; [apply text_eqb_eq in H; subst ty|] end.

Lemma then_ret {A B} (m : M A) (mid : list text -> A -> Prop) (f : A -> B) (post : list text -> B -> Prop) :
  good always m mid -> (forall G a, mid G a -> post G (f a)) -> good always (a <- m ;; ret (f a)) post.
Proof. intros H1 H2. eapply good_bind; [exact H1|]. intros a. apply good_ret. auto. Qed.

Lemma arity_good nid name : good always (cc_require_declared_arity ast nid name) (fun _ _ => True).
Proof.
  unfold cc_require_declared_arity. destruct name as [name|]; [|now apply good_ret]. destruct (0 <=? _); [now apply good_ret|].
  destruct (Const.lookup _ name); [|now apply good_ret]. cbv zeta. destruct (_ =? _); [now apply good_ret|stuck].
Qed.

Lemma const_path_good nid : good always (lower_const_path ast nid) expr_post.
Proof.
  unfold lower_const_path. cbv zeta. destruct (128 <=? _)%nat; [stuck|]. destruct (cc_macro_path _) as [macro|] eqn:P.
  2: { destruct (cc_const_path_value _); [now apply good_ret|stuck]. }
  apply good_ret. intros G _. unfold expr_post. cbn [expr_ok atom_ok var]. apply orb_true_iff. right.
  unfold is_macro. apply existsb_exists. unfold cc_macro_path in P. revert P. generalize macro_paths.
  induction l as [|[k v] l IH]; cbn [Const.lookup]; [discriminate|]. destruct (text_eqb (lit k) _).
  - injection 1 as ->. exists (k, macro). split; [now left|apply text_eqb_refl].
  - intros H. destruct (IH H) as (x & Hx & Ex). exists x. split; [now right|exact Ex].
Qed.

Lemma args_inside nid ty : inside ast body nid -> nt_type ast nid = Some ty -> definition_like ty = false -> Forall (inside ast body) (args_of ast nid).
Proof.
  intros V T D. unfold args_of. destruct (0 <=? _); [|constructor]. pose proof (ref_inside ast body nid ty "arguments" V T D) as Va.
  destruct (nt_type ast (nt_ref ast nid (lit "arguments"))) as [ta|] eqn:Ta.
  - destruct V as [N|B]; [unfold nt_type in T; rewrite N in T; discriminate|]. exact (arr_inside ast body _ ta "arguments" Va Ta (arguments nid ta B Ta)).
  - unfold nt_type in Ta. unfold nt_arr. destruct (node_at ast (nt_ref ast nid (lit "arguments"))) as [n|] eqn:N; [|constructor].
    unfold node_at in N. destruct (_ || _); [discriminate|]. destruct (nth_error _ _) as [m|]; [|discriminate].
    destruct (n_type m) eqn:Tm; [|discriminate]. injection N as <-. congruence.
Qed.

Lemma operands_good nid name : inside ast body nid -> nt_type ast nid = Some (lit "CallNode") ->
  good always (binop_operands ast nid name) (fun _ p => inside ast body (fst p) /\ inside ast body (snd p)).
Proof.
  intros V T. unfold binop_operands. cbv zeta. destruct (_ || _); [stuck|].
  destruct (nt_type ast (nt_ref ast nid (lit "arguments"))) as [ta|] eqn:Ta; [|stuck]. kind K; [|stuck].
  pose proof (arr_inside ast body _ _ "arguments" (ref_inside ast body nid _ "arguments" V T eq_refl) Ta eq_refl) as F.
  destruct (nt_arr ast _ _) as [|a [|]]; [stuck| |stuck]. apply good_ret. intros G _. split; [|now inv F].
  exact (ref_inside ast body nid _ "receiver" V T eq_refl).
Qed.

Section Step.
Variable R : calls.
Hypothesis HR : calls_good R.

Lemma binop_good op l r : inside ast body l -> inside ast body r -> ce_binop_prec op <> None ->
  good always (lhs <- do_build R l ;; rhs <- do_build R r ;; ret (CE_BINOP op lhs rhs)) expr_post.
Proof.
  intros Vl Vr Ho. eapply good_bind; [apply (g_build R HR l Vl)|]. intros lhs.
  eapply good_bind; [apply good_frame; [apply expr_grows|apply (g_build R HR r Vr)]|].
  intros rhs. apply good_ret. intros G [Hr Hl]. unfold expr_post in *. cbn [expr_ok]. destruct (ce_binop_prec op); [|contradiction].
  now rewrite Hl, Hr.
Qed.

Lemma binary_known op : cc_is_binary_op op = true -> ce_binop_prec op <> None.
Proof.
  unfold cc_is_binary_op. intros H. apply existsb_exists in H as (s & Hs & Es). apply text_eqb_eq in Es. subst op. revert s Hs.
  assert (F : forallb (fun s => match ce_binop_prec (lit s) with Some _ => true | None => false end)
    ["+"; "-"; "*"; "/"; "%"; "=="; "!="; "<"; ">"; "<="; ">="; "&"; "|"; "^"; "<<"; ">>"]%string = true) by reflexivity.
  rewrite forallb_forall in F. intros s Hs. specialize (F s Hs). now destruct (ce_binop_prec (lit s)).
Qed.

Lemma build_good nid : inside ast body nid -> good always (cc_build_expr ast R nid) expr_post.
Proof.
  intros V. unfold cc_build_expr.
  assert (Leaf : good always (e <- do_expr R nid ;; ret (CE_FLAT e)) expr_post) by (eapply then_ret; [apply (g_expr R HR nid V)|auto]).
  destruct (nt_type ast nid) as [ty|] eqn:T; [|exact Leaf]. cbv zeta. kind K.
  { destruct (_ <? 0); [now apply good_ret|]. eapply then_ret; [apply (g_build R HR), (ref_inside ast body nid _ "body" V T eq_refl)|auto]. }
  destruct (isa ty "OrNode" || isa ty "AndNode") eqn:K2.
  { destruct ((_ <? 0) || _); [stuck|]. assert (D : definition_like ty = false).
    { apply orb_prop in K2 as [K2|K2]; apply text_eqb_eq in K2; subst ty; reflexivity. }
    apply binop_good; [eapply ref_inside; eauto|eapply ref_inside; eauto|destruct (isa ty "OrNode"); discriminate]. }
  kind K3; [|exact Leaf]. destruct (nt_str ast nid (lit "name")) as [name|]; [|exact Leaf]. destruct (cc_is_binary_op name) eqn:O; [|exact Leaf].
  eapply good_bind; [apply (operands_good nid name V T)|]. intros [l r]. cbn [fst snd].
  intros s a s' G E1 I [Vl Vr]. exact (binop_good name l r Vl Vr (binary_known name O) s a s' G E1 I Logic.I).
Qed.

Lemma lower_expr_good nid : inside ast body nid -> good always (cc_lower_expr E ast R nid) expr_post.
Proof.
  intros V. unfold cc_lower_expr. destruct (nt_type ast nid) as [ty|] eqn:T; [|stuck]. kind K.
  { destruct (nt_str ast nid (lit "name")) as [nm|] eqn:Nm; [|stuck]. cbv zeta. intros s a s' G E1 I P.
    revert s a s' G E1 I P. change (good always (ret (CE_RAW (if mem (cc_safe_dup nm) (g_captures E) then ACapture (cc_safe_dup nm) else AName (cc_safe_dup nm)))) expr_post).
    intros s a s' G E1 I P. injection E1 as <- <-. exists [], G. rewrite app_nil_r. do 2 (split; [reflexivity|]). split; [apply incl_refl|]. split; [exact I|].
    split; [apply Z.le_refl|]. unfold expr_post. cbn [expr_ok]. destruct (mem (cc_safe_dup nm) (g_captures E)) eqn:C; cbn [atom_ok]; [exact C|].
    apply orb_true_iff. left. apply mem_In, (proj1 I). destruct V as [N|B]; [unfold nt_type in T; rewrite N in T; discriminate|]. eauto. }
  kind K1; [now apply good_ret|]. destruct (isa ty "OrNode" || isa ty "AndNode"); [now apply (g_build R HR)|]. kind K2.
  { cbv zeta. destruct (_ <? 0); [now apply good_ret|]. eapply then_ret; [apply (g_expr R HR), (ref_inside ast body nid _ "body" V T eq_refl)|auto]. }
  destruct (isa ty "StatementsNode" || isa ty "IfNode"); [eapply then_ret; [now apply (g_stmt R HR)|apply or_zero_post]|].
  kind K3. { destruct (nt_str ast nid (lit "name")) as [nm|]; [|stuck]. destruct (cc_known_const nm); [now apply good_ret|stuck]. }
  kind K4; [apply const_path_good|]. kind K5.
  { destruct (nt_str ast nid (lit "name")) as [iv|]; [|stuck]. eapply good_bind; [apply ivar_map_good|]. intros m s a s' G E1 I P.
    exact (read_good m P s a s' G E1 I Logic.I). }
  kind K6; [|stuck]. cbv zeta. eapply good_bind; [apply arity_good|]. intros u.
  destruct (nt_str ast nid (lit "name")) as [name|]; [|stuck]. destruct (cc_is_binary_op name).
  { eapply good_weaken; [apply (g_build R HR nid V)|now intros|auto]. }
  destruct ((0 <=? _) || _); [stuck|]. destruct (isa name "ktime_ns").
  { apply good_ret. intros G _. unfold expr_post, lower_ktime. cbn [expr_ok atom_ok]. apply text_eqb_refl. }
  destruct (_ && _); stuck.
Qed.

Lemma stmts_good ids last : Forall (inside ast body) ids -> good (fun G => val_post G last) (stmts_loop R ids last) val_post.
Proof.
  intros F. unfold stmts_loop. destruct ids as [|i ids]; [now apply good_ret|]. inv F.
  eapply good_bind with (mid := fun _ _ => True).
  { intros s a s' G E1 I _. injection E1 as <- <-. exists [], G. rewrite app_nil_r. do 2 (split; [reflexivity|]). auto using incl_refl, Z.le_refl. }
  intros before. eapply good_bind; [eapply good_weaken; [apply (g_stmt R HR i H1)|now intros|intros G v H; exact H]|].
  intros v. eapply good_bind with (mid := fun G _ => val_post G v).
  { intros s a s' G E1 I P. injection E1 as <- <-. exists [], G. rewrite app_nil_r. do 2 (split; [reflexivity|]). auto using incl_refl, Z.le_refl. }
  intros after. eapply good_bind with (mid := fun G _ => val_post G v); [|intros u; now apply (g_stmts R HR)].
  destruct ids as [|j ids], v as [e|]; try (now apply good_ret). destruct (_ && _); [|now apply good_ret].
  apply (good_push (fun G => val_post G (Some e))). intros G s _ H. cbn [line_ok]. cbn [val_post] in H. now rewrite H.
Qed.

Lemma branch_block_good nid x : inside ast body nid -> branch_good (cc_branch_block R nid x) x.
Proof.
  intros V s L s' G E1 I Hx. unfold cc_branch_block, bind, collect in E1.
  set (m := if 0 <=? nid then _ else _) in E1.
  assert (Gm : good (fun G => In x G) m (fun _ _ => True)).
  { subst m. destruct (0 <=? nid); [|now apply good_ret]. eapply good_bind; [apply good_frame; [intros G1 G2 I12; apply I12|apply (g_stmt R HR nid V)]|].
    intros [v|]; [|now apply good_ret]. eapply good_weaken; [apply (good_push (fun G => val_post G (Some v) /\ In x G))|auto|auto].
    intros G1 s1 _ [Hv Hi]. cbn [line_ok]. cbn [val_post] in Hv. apply mem_In in Hi. now rewrite Hi, Hv. }
  set (s1 := mk_g [] (g_if_counter s) (g_amp_ivars s)) in E1. destruct (m s1) as [[u s2]| | | |] eqn:Em; try discriminate. injection E1 as <- <-.
  destruct (Gm s1 u s2 G Em (inv_later G s s1 I (Z.le_refl _) eq_refl) Hx) as (L & G' & B & C & I' & (V1 & V2 & V3) & N & _).
  cbn [g_body s1 app] in B. cbn [snd g_body g_if_counter]. rewrite B, C. split; [reflexivity|]. split; [discriminate|]. split; [|exact N].
  destruct I as (Ib & It & _). split; [exact Ib|]. split; [|exact V3]. intros a k Ha Hk. cbn [g_if_counter]. specialize (V2 a k Ha (I' _ Hk)). exact V2.
Qed.

Lemma else_good nid x : inside ast body nid ->
  forall s b s' G, (if 0 <=? nid then b <- do_branch R nid x ;; ret (Some b) else ret None) s = Ok (b, s') -> inv G s -> In x G ->
  g_body s' = g_body s /\ match b with Some L => lines_ok E L G <> None | None => True end /\ inv G s' /\ g_if_counter s <= g_if_counter s'.
Proof.
  intros V s b s' G E1 I Hx. destruct (0 <=? nid); [|injection E1 as <- <-; auto using Z.le_refl].
  unfold bind in E1. destruct (do_branch R nid x s) as [[L s1]| | | |] eqn:Eb; try discriminate. injection E1 as <- <-.
  exact (g_branch R HR nid x V s L s1 G Eb I Hx).
Qed.

Lemma if_node_good nid : inside ast body nid -> nt_type ast nid = Some (lit "IfNode") -> good always (cc_if_node ast R nid) val_post.
Proof.
  intros V T. unfold cc_if_node. cbv zeta. destruct (_ <? 0); [stuck|].
  pose proof (fun k => ref_inside ast body nid _ k V T eq_refl) as VR.
  eapply good_bind; [apply (g_build R HR), VR|]. intros cond s v s' G E1 I P. unfold expr_post in P.
  set (n := g_if_counter s + 1). set (x := temp "_if" n). unfold bind, fresh, push in E1. cbn [g_body g_if_counter g_amp_ivars] in E1. fold n in E1. fold x in E1.
  set (s1 := mk_g (g_body s ++ [LDecl x]) n (g_amp_ivars s)) in E1.
  assert (I1 : inv (x :: G) s1) by (apply (inv_cons G s s1 "_if" n I); cbn; auto; unfold n; lia).
  destruct (do_branch R _ x s1) as [[th s2]| | | |] eqn:Et; try discriminate.
  destruct (g_branch R HR _ x (VR "statements"%string) s1 th s2 (x :: G) Et I1 (or_introl eq_refl)) as (B2 & C2 & I2 & N2).
  match type of E1 with match ?m with _ => _ end = _ => destruct m as [[el s3]| | | |] eqn:Ee; try discriminate end.
  destruct (else_good _ x (VR "subsequent"%string) s2 el s3 (x :: G) Ee I2 (or_introl eq_refl)) as (B3 & C3 & I3 & N3).
  injection E1 as <- <-. cbn [g_body g_if_counter] in *. exists [LDecl x; LIf cond th el], (x :: G).
  split; [rewrite B3, B2; cbn [s1 g_body]; now rewrite <- app_assoc|]. split.
  { assert (D : line_ok E (LDecl x) G = Some (x :: G))
      by (cbn [line_ok]; unfold declared, x; rewrite (fresh_mem G s "_if" n I) by (cbn; auto; unfold n; lia); reflexivity).
    cbn [lines_ok]. rewrite D, line_ok_if. destruct (lines_ok E th (x :: G)); [|contradiction].
    rewrite (expr_ok_incl E G) by (auto using incl_tl, incl_refl). destruct el as [b|]; [|reflexivity].
    destruct (lines_ok E b (x :: G)); [reflexivity|contradiction]. }
  split; [now apply incl_tl|]. split; [exact (inv_later _ s3 _ I3 (Z.le_refl _) eq_refl)|]. split; [cbn [s1 g_if_counter] in N2; unfold n in N2; lia|].
  cbn [val_post expr_ok var atom_ok]. now rewrite mem_cons, text_eqb_refl.
Qed.

Lemma return_good nid ids : inside ast body nid -> nt_type ast nid = Some (lit "ReturnNode") -> Forall (inside ast body) ids ->
  good always
    (match m_ret (g_method E), m_so_kind (g_method E), ids with
     | Types.CC_TY_VOID, SO_NONE, [] => push (LReturn None) ;;; ret None
     | Types.CC_TY_VOID, SO_NONE, _ => fail ValuedReturn
     | _, _, a :: _ => v <- do_expr R a ;; push (LReturn (Some v)) ;;; ret None
     | _, _, [] => push (LReturn (Some (num 0))) ;;; ret None
     end) val_post.
Proof.
  intros V T F. assert (Void : is_void E = true -> good always (push (LReturn None) ;;; ret None) val_post).
  { intros Vd. assert (C : c_void E = true).
    { unfold c_void. rewrite Vd. destruct (g_amp E) eqn:A; [|reflexivity]. exfalso.
      destruct V as [N|B]; [unfold nt_type in T; rewrite N in T; discriminate|]. exact (no_bare eq_refl Vd nid B T). }
    eapply good_bind; [apply (good_push always)|intros u; now apply good_ret]. intros G s _ _. cbn [line_ok]. now rewrite C. }
  assert (Valued : is_void E = false -> good always (match ids with a :: _ => v <- do_expr R a ;; push (LReturn (Some v)) ;;; ret None
                                                      | [] => push (LReturn (Some (num 0))) ;;; ret None end) val_post).
  { intros Vd. assert (C : c_void E = false) by (unfold c_void; now rewrite Vd, andb_false_r). destruct ids as [|a ids].
    - eapply good_bind; [apply (good_push always)|intros u; now apply good_ret]. intros G s _ _. cbn [line_ok]. now rewrite C.
    - inv F. eapply good_bind; [now apply (g_expr R HR)|]. intros v. eapply good_bind; [apply good_push|intros u; now apply good_ret].
      intros G s _ H. cbn [line_ok]. unfold expr_post in H. now rewrite C, H. }
  unfold is_void in *. destruct (m_ret (g_method E)), (m_so_kind (g_method E)); auto; destruct ids; auto; stuck.
Qed.

Lemma emit_good a : inside ast body a ->
  good always (val <- do_expr R a ;; (if g_amp E then push (LAmpEmit val) else e <- fresh ;; push (LRingEmit (g_unit E) e val)) ;;; ret (Some (num 0))) val_post.
Proof.
  intros V. eapply good_bind; [now apply (g_expr R HR)|]. intros val. eapply good_bind with (mid := fun _ _ => True); [|intros u; now apply good_ret].
  destruct (g_amp E) eqn:A.
  - eapply good_weaken; [apply good_push|intros G H; exact H|auto]. intros G s _ H. cbn [line_ok]. unfold expr_post in H. now rewrite A, H.
  - intros s u s' G E1 I P. injection E1 as <- <-. exists [LRingEmit (g_unit E) (g_if_counter s + 1) val], G. cbn [g_body g_if_counter].
    split; [reflexivity|]. split.
    { cbn [lines_ok line_ok]. unfold expr_post in P. rewrite A, P, (fresh_mem G s "_e" (g_if_counter s + 1) I) by first [cbn; tauto | lia]. reflexivity. }
    split; [apply incl_refl|]. split; [|split; [lia|exact Logic.I]]. apply (inv_later G s); cbn; auto; lia.
Qed.

Lemma local_write_good nid : inside ast body nid -> nt_type ast nid = Some (lit "LocalVariableWriteNode") -> forall nm, nt_str ast nid (lit "name") = Some nm ->
  forall v, inside ast body v ->
  good always (e <- do_expr R v ;;
    let s := cc_safe_dup nm in
    if existsb (text_eqb s) (g_captures E) then push (LSetCapture s e) ;;; ret (Some (CE_RAW (ACapture s)))
    else push (LSet s e) ;;; ret (Some (var s))) val_post.
Proof.
  intros V T nm Nm v Vv. eapply good_bind; [now apply (g_expr R HR)|]. intros e. cbv zeta. fold (mem (cc_safe_dup nm) (g_captures E)).
  destruct (mem (cc_safe_dup nm) (g_captures E)) eqn:C.
  { eapply good_bind; [apply good_push|intros u; apply good_ret; intros G _; exact C]. intros G s _ H. cbn [line_ok]. unfold expr_post in H. now rewrite C, H. }
  assert (B : In (cc_safe_dup nm) Base).
  { destruct V as [N|B]; [unfold nt_type in T; rewrite N in T; discriminate|]. apply (written nid); auto. exists nm. auto. }
  intros s a s' G E1 I P. injection E1 as <- <-. pose proof (proj2 (mem_In _ G) (proj1 I _ B)) as M.
  exists [LSet (cc_safe_dup nm) e], G. cbn [g_body g_if_counter lines_ok line_ok]. unfold expr_post in P. rewrite M, P. cbn [andb only_if].
  do 2 (split; [reflexivity|]). split; [apply incl_refl|]. split; [exact (inv_later G s _ I (Z.le_refl _) eq_refl)|]. split; [apply Z.le_refl|].
  cbn [val_post expr_ok var atom_ok]. now rewrite M.
Qed.

Lemma lower_stmt_good nid : inside ast body nid -> good always (cc_lower_stmt E ast R nid) val_post.
Proof.
  intros V. unfold cc_lower_stmt.
  assert (Value : good always (e <- do_expr R nid ;; ret (Some e)) val_post) by (eapply then_ret; [now apply (g_expr R HR)|auto]).
  destruct (nt_type ast nid) as [ty|] eqn:T; [|stuck]. cbv zeta. kind K.
  { pose proof (ref_inside ast body nid _ "value" V T eq_refl) as Vv. destruct (nt_str ast nid (lit "name")) as [nm|] eqn:Nm; [|stuck].
    destruct (_ <? 0); [stuck|]. now apply (local_write_good nid). }
  kind K1.
  { pose proof (ref_inside ast body nid _ "value" V T eq_refl) as Vv. destruct (nt_str ast nid (lit "name")) as [iv|]; [|stuck]. destruct (_ <? 0); [stuck|].
    eapply good_bind; [now apply (g_expr R HR)|]. intros rhs. eapply good_bind; [apply good_frame; [apply expr_grows|apply ivar_map_good]|].
    intros m s a s' G E1 I [Pm Pr]. revert s a s' G E1 I Pr. eapply good_bind; [now apply write_good|]. intros r. now apply good_ret. }
  kind K2.
  { pose proof (ref_inside ast body nid _ "value" V T eq_refl) as Vv.
    destruct (nt_str ast nid (lit "name")) as [iv|], (nt_str ast nid (lit "binary_operator")) as [op|]; try stuck.
    destruct (_ || isa op "*") eqn:O; [|stuck].
    assert (Ho : ce_binop_prec op <> None) by (apply orb_prop in O as [O|O]; [apply orb_prop in O as [O|O]|]; apply text_eqb_eq in O; subst op; discriminate).
    eapply good_bind; [now apply (g_expr R HR)|]. intros rhs. eapply good_bind; [apply good_frame; [apply expr_grows|apply ivar_map_good]|].
    intros m s a s' G E1 I [Pm Pr]. revert s a s' G E1 I Pr. eapply good_bind; [now apply rmw_good|]. intros r. now apply good_ret. }
  kind K3. { destruct (1 <? _)%nat; [stuck|]. apply (return_good nid); [exact V|exact T|]. exact (args_inside nid _ V T eq_refl). }
  kind K4; [now apply (g_if R HR)|]. kind K5.
  { destruct (0 <=? _); [|now apply good_ret]. apply (g_stmt R HR). exact (ref_inside ast body nid _ "statements" V T eq_refl). }
  kind K6.
  { eapply good_weaken; [apply (g_stmts R HR _ None)|now intros|auto]. exact (arr_inside ast body nid _ "body" V T eq_refl). }
  kind K7; [stuck|]. kind K8; [|exact Value].
  eapply good_bind; [apply arity_good|]. intros u. eapply good_weaken; [|intros G _; exact Logic.I|intros G a H; exact H].
  destruct (nt_str ast nid (lit "name")) as [name|]; [|exact Value]. destruct (isa name "spnl_emit").
  { pose proof (args_inside nid _ V T eq_refl) as F. destruct (args_of ast nid) as [|a [|]]; [stuck| |stuck]. inv F. now apply emit_good. }
  destruct (_ || _); [exact Value|stuck].
Qed.

End Step.

Lemma lowering_good f : calls_good (lowering E ast f).
Proof.
  induction f as [|f IH]; constructor; cbn [lowering do_expr do_build do_stmt do_stmts do_branch do_if].
  all: intros; try (apply good_stuck; intros; discriminate); try (intros ? ? ? ? X; discriminate X).
  - now apply lower_expr_good.
  - now apply build_good.
  - now apply lower_stmt_good.
  - now apply stmts_good.
  - now apply branch_block_good.
  - now apply if_node_good.
Qed.

End Body.
(** ** A whole body *)

Lemma declarations_ok E decls : forall G, NoDup decls -> (forall x, In x decls -> ~ In x G) -> lines_ok E (map LDecl decls) G = Some (rev decls ++ G).
Proof.
  induction decls as [|x decls IH]; intros G N D; [reflexivity|]. inv N. cbn [map lines_ok line_ok rev]. unfold declared.
  destruct (mem x G) eqn:M; [apply mem_In in M; now apply D in M; [|left]|].
  rewrite IH; [now rewrite <- app_assoc|assumption|]. intros y Hy [<-|Hg]; [contradiction|]. apply (D y); auto. now right.
Qed.

(** What the parser guarantees of a method's tree: a local that is read is a parameter
    or is assigned somewhere in the body; argument lists are not definitions.  What
    nobody checks: that no name of the program looks like a temporary of the generator
    or is a name of the function around the lines, and that a handler of the real-time
    core without a value has no [return] (its function is an [int]). *)
Record source_ok (E : genv) (ast : AST) : Prop := mk_source {
  reads_known : forall i nm, below ast (m_body (g_method E)) i -> nt_type ast i = Some (lit "LocalVariableReadNode") -> nt_str ast i (lit "name") = Some nm ->
    In (cc_safe_dup nm) (map fst (m_params (g_method E))) \/ exists j, below ast (m_body (g_method E)) j /\ writes ast j (cc_safe_dup nm);
  args_plain : forall i ty, below ast (m_body (g_method E)) i -> nt_type ast (nt_ref ast i (lit "arguments")) = Some ty -> definition_like ty = false;
  no_temps : forall x a m, In x (map fst (m_params (g_method E))) \/ (exists i, writes ast i x) -> In a prefixes -> x <> temp a m;
  no_clash : forall x, In x (map fst (m_params (g_method E))) \/ (exists i, writes ast i x) -> ~ In x (kernel_extra true true true);
  params_distinct : NoDup (map fst (m_params (g_method E)));
  no_bare_return : g_amp E = true -> is_void E = true -> forall i, below ast (m_body (g_method E)) i -> nt_type ast i <> Some (lit "ReturnNode") }.

(** The function's statements: the lines of the body, and on the real-time core the
    closing [return 0;] of a method without a value. *)
Definition function_lines (E : genv) (body : list cline) : list cline :=
  body ++ match g_amp E, m_ret (g_method E) with true, Types.CC_TY_VOID => [LReturn (Some (num 0))] | _, _ => [] end.

Lemma extra_names b1 b2 b3 x : In x (kernel_extra b1 b2 b3) -> In x (kernel_extra true true true).
Proof. unfold kernel_extra. rewrite !in_app_iff. destruct b1, b2, b3; cbn; tauto. Qed.

Lemma extra_distinct b1 b2 b3 : NoDup (kernel_extra b1 b2 b3).
Proof. destruct b1, b2, b3; repeat constructor; cbn; intuition discriminate. Qed.

Lemma extra_no_temp a m : In a prefixes -> ~ In (temp a m) (kernel_extra true true true).
Proof.
  intros Ha H. repeat (destruct Ha as [<-|Ha]; [cbn in H; intuition discriminate|]). contradiction.
Qed.

Lemma amp_ctx : In (lit "ctx") (kernel_extra true true true).
Proof. now left. Qed.

(** The parameters of the C function: distinct, and those of the method among them. *)
Lemma c_params_names E b1 b2 b3 x : In x (c_params E (kernel_extra b1 b2 b3)) ->
  In x (kernel_extra true true true) \/ In x (map fst (m_params (g_method E))).
Proof.
  unfold c_params. destruct (g_amp E); [intros [<-|[]]; left; exact amp_ctx|]. rewrite in_app_iff. intros [H|H]; [left; now apply extra_names in H|now right].
Qed.


(** ** A method

    [def probe; <x> = @n; if <x> > 0; spnl_emit(<x>); end; end], compiled for the kernel. *)
Definition node (ty : string) (ss : list (string * text)) (rr : list (string * Z)) (aa : list (string * list Z)) : SpNode :=
  mk_node (Some (lit ty)) (map (fun p => (lit (fst p), snd p)) ss) [] (map (fun p => (lit (fst p), snd p)) rr) (map (fun p => (lit (fst p), snd p)) aa).

Definition sample_ast (x : text) : AST :=
  [node "ProgramNode" [] [] [];
   node "StatementsNode" [] [] [("body", [2; 4])];
   node "LocalVariableWriteNode" [("name", x)] [("value", 3)] [];
   node "InstanceVariableReadNode" [("name", lit "@n")] [] [];
   node "IfNode" [] [("predicate", 5); ("statements", 9)] [];
   node "CallNode" [("name", lit ">")] [("receiver", 6); ("arguments", 7)] [];
   node "LocalVariableReadNode" [("name", x)] [] [];
   node "ArgumentsNode" [] [] [("arguments", [8])];
   node "IntegerNode" [] [] [];
   node "StatementsNode" [] [] [("body", [10])];
   node "CallNode" [("name", lit "spnl_emit")] [("arguments", 11)] [];
   node "ArgumentsNode" [] [] [("arguments", [12])];
   node "LocalVariableReadNode" [("name", x)] [] []]%string.

Definition sample_env : genv := mk_env false (lit "probe") (mk_method (lit "probe") None [] Types.CC_TY_INT 1 SO_NONE None) [] (fun _ => false).

Definition sample_lines (x : text) : option (list cline) :=
  match cc_emit_method_body sample_env (sample_ast x) 20 (mk_g [] 0 []) with Ok (_, s) => Some (g_body s) | _ => None end.

Lemma node_range ast i n : node_at ast i = Some n -> 0 <= i < Z.of_nat (length ast).
Proof. unfold node_at. destruct (Z.ltb_spec i 0), (Z.leb_spec (Z.of_nat (length ast)) i); try discriminate. lia. Qed.

Lemma sample_source : source_ok sample_env (sample_ast (lit "x")).
Proof.
  assert (Range : forall i ty, nt_type (sample_ast (lit "x")) i = Some ty -> In i [0; 1; 2; 3; 4; 5; 6; 7; 8; 9; 10; 11; 12]).
  { intros i ty T. unfold nt_type in T. destruct (node_at _ i) eqn:N; [|discriminate]. apply node_range in N. cbn in N. cbn [In]. lia. }
  assert (Written : forall x, (exists i, writes (sample_ast (lit "x")) i x) -> x = cc_safe_dup (lit "x")).
  { intros x (i & nm & T & Nm & ->). f_equal. specialize (Range i _ T). cbn [In] in Range. intuition (subst i; first [discriminate T | now injection Nm as <-]). }
  constructor; cbn [sample_env g_method m_params m_body map].
  - intros i nm _ T Nm. right. exists 2. split; [eapply (Under _ 1 1); [constructor|reflexivity|intros ty Ty; injection Ty as <-; reflexivity|now left]|].
    exists (lit "x"). split; [reflexivity|]. split; [reflexivity|]. f_equal.
    specialize (Range i _ T). cbn [In] in Range. intuition (subst i; first [discriminate T | now injection Nm as <-]).
  - intros i ty _ T. assert (In (nt_ref (sample_ast (lit "x")) i (lit "arguments")) [-1; 7; 11]) as [X|[X|[X|[]]]].
    { unfold nt_ref. destruct (node_at _ i) as [n|] eqn:N; [|now left]. pose proof (node_range _ _ _ N) as Rg. cbn in Rg.
      assert (In i [0; 1; 2; 3; 4; 5; 6; 7; 8; 9; 10; 11; 12]) as Hi by (cbn [In]; lia). cbn [In] in Hi.
      intuition (subst i; injection N as <-; cbn; auto). }
    all: rewrite <- X in T; vm_compute in T; try discriminate T; injection T as <-; reflexivity.
  - intros x a m [[]|W] Ha. rewrite (Written x W). cbn [In prefixes] in Ha. intuition (subst a; discriminate).
  - intros x [[]|W]. rewrite (Written x W). cbn. intuition discriminate.
  - constructor.
  - discriminate.
Qed.


(** A local called like a temporary of the generator is declared twice in one block. *)
Lemma temporary_name_clashes :
  match sample_lines (lit "_if3"), sample_lines (lit "x") with
  | Some bad, Some fine => lines_ok sample_env bad [] = None /\ lines_ok sample_env fine [] <> None
  | _, _ => False
  end.
Proof. vm_compute. split; [reflexivity|discriminate]. Qed.

End Emits.
