(* ===== verification/AmpManifest.v ===== *)
(** * The manifest of a real-time probe

    The compiler driver prints [<base>.manifest] ([src/src/runtime/amp/amp_manifest_dump.c]
    and [write_amp_manifest] of [src/bin/spinel-ebpf]); the drain on the application
    core reads it ([src/src/runtime/amp/amp_manifest.c]).  [Manifest] models both and
    proves that the reader gets what the generator computed. *)

From S2P Require Import Prelude CText CgText CgIr CgConst CgAmp.

Module Manifest.
Import Fields Triggers.

Record amp_manifest := mk_manifest {
  service_name : text;
  endpoint : text;
  abi_version : Z;
  ivars_size : Z;
  n_triggers : Z
}.

Definition set_str (cap : nat) (v : text) : text := trunc cap v.

Definition set_service s m := mk_manifest (set_str 64 s) (endpoint m) (abi_version m) (ivars_size m) (n_triggers m).
Definition set_endpoint s m := mk_manifest (service_name m) (set_str 160 s) (abi_version m) (ivars_size m) (n_triggers m).
Definition set_abi n m := mk_manifest (service_name m) (endpoint m) n (ivars_size m) (n_triggers m).
Definition set_ivars n m := mk_manifest (service_name m) (endpoint m) (abi_version m) n (n_triggers m).
Definition add_trigger m := mk_manifest (service_name m) (endpoint m) (abi_version m) (ivars_size m) (u32 (n_triggers m + 1)).

Definition default_manifest : amp_manifest := mk_manifest (set_str 64 (lit "spinel-amp-m7")) [] 0 0 0.

Definition set_key (k v : text) (m : amp_manifest) : amp_manifest :=
  if text_eqb k (lit "service.name") then set_service v m
  else if text_eqb k (lit "otlp.endpoint") then set_endpoint v m
  else if text_eqb k (lit "abi_version") then set_abi (u32 (strtoul 0 v)) m
  else if text_eqb k (lit "ivars_size") then set_ivars (u32 (strtoul 0 v)) m
  else if text_eqb k (lit "trigger") then add_trigger m
  else m.

(** The body of the loop, on what one [fgets] stored. *)
Definition load_line (stored : text) (m : amp_manifest) : amp_manifest :=
  let line := cstr stored in
  match line with
  | [] => m
  | c :: _ =>
      if Ascii.eqb c "#" || Ascii.eqb c "010" then m
      else
        let line := match split_at "010" line with Some (a, _) => a | None => line end in
        match split_at "=" line with
        | Some (k, v) => set_key k v m
        | None => m
        end
  end.

(** [char line[256]]; every call of [fgets] consumes something. *)
Fixpoint load_loop (fuel : nat) (file : text) (m : amp_manifest) : amp_manifest :=
  match fuel, file with
  | S f, _ :: _ => let '(stored, rest) := fgets 255 file in load_loop f rest (load_line stored m)
  | _, _ => m
  end.

(** [None]: the file cannot be opened. *)
Definition amp_manifest_load (file : option text) : Z * amp_manifest :=
  match file with
  | None => (-1, default_manifest)
  | Some s => (0, load_loop (length s) s default_manifest)
  end.

(** ** The printers *)

Definition trigger_line (t : amp_trigger) : text :=
  lit "trigger=" ++ tr_fn t ++ lit " kind=" ++ dec_s (trig_code (tr_kind t)) ++ lit " param=" ++ dec_u (tr_param t).

Definition amp_manifest_dump (abi ivars : Z) (triggers : list amp_trigger) : list text :=
  (lit "abi_version=" ++ dec_u abi) :: (lit "ivars_size=" ++ dec_u ivars) :: map trigger_line triggers.

Definition write_amp_manifest (board service endpoint : text) (fields : list text) : text :=
  unlines ([lit "# spinel-ebpf amp manifest"; lit "board=" ++ board; lit "service.name=" ++ service;
            lit "otlp.endpoint=" ++ endpoint] ++ fields).

(** ** Reading back *)

Definition manifest_line (l : text) : Prop :=
  (length l < 255)%nat /\ ~ In "010"%char l /\ no_nul l.

Lemma load_loop_fuel f1 f2 s m : (length s <= f1)%nat -> (length s <= f2)%nat -> load_loop f1 s m = load_loop f2 s m.
Proof.
  revert f2 s m; induction f1 as [|f1 IH]; intros f2 s m H1 H2.
  - destruct s; [destruct f2; reflexivity|simpl in H1; lia].
  - destruct s as [|c s]; [destruct f2; reflexivity|]. destruct f2 as [|f2]; [simpl in H2; lia|].
    cbn [load_loop]. pose proof (fgets_shorter 255 (c :: s) ltac:(lia) ltac:(discriminate)) as Hs.
    destruct (fgets 255 (c :: s)) as [a b]. cbn [snd length] in *. apply IH; lia.
Qed.

(** A file of lines that fit the buffer is read line by line. *)
Lemma load_loop_lines ls : Forall manifest_line ls -> forall f m, (length (unlines ls) <= f)%nat ->
  load_loop f (unlines ls) m = fold_left (fun m l => load_line (l ++ ["010"%char]) m) ls m.
Proof.
  induction 1 as [|l ls (Hl & Hn & _) _ IH]; intros f m Hf; [destruct f; reflexivity|].
  change (unlines (l :: ls)) with ((l ++ ["010"%char]) ++ unlines ls) in *.
  rewrite <- app_assoc in *. cbn [app] in *. cbn [fold_left]. rewrite length_app in Hf. cbn [length] in Hf.
  rewrite <- (IH (f - 1)%nat) by lia. destruct f as [|f]; [lia|].
  replace (S f - 1)%nat with f by lia.
  cbn [load_loop]. destruct (l ++ "010"%char :: unlines ls) as [|c s] eqn:E; [destruct l; discriminate|].
  rewrite <- E, fgets_line by (assumption || lia). reflexivity.
Qed.

Lemma load_line_comment s m : load_line ("#"%char :: s) m = m.
Proof. reflexivity. Qed.

Lemma load_line_key k v m : manifest_line (k ++ "="%char :: v) -> ~ In "="%char k -> hd_error k <> Some "#"%char ->
  load_line ((k ++ "="%char :: v) ++ ["010"%char]) m = set_key k v m.
Proof.
  intros (Hl & Hn & Hz) Hk Hh. unfold load_line.
  rewrite cstr_app by exact Hz. change (cstr ["010"%char]) with ["010"%char].
  destruct ((k ++ "="%char :: v) ++ ["010"%char]) as [|c s] eqn:E; [destruct k; discriminate|].
  assert (Hc : Ascii.eqb c "#" || Ascii.eqb c "010" = false).
  { destruct k as [|d k]; cbn [app] in E; injection E as <- _; [reflexivity|].
    apply orb_false_iff. split; apply Ascii.eqb_neq; [simpl in Hh; congruence|].
    intros ->. apply Hn. now left. }
  rewrite Hc, <- E, split_at_app, split_at_app by assumption. reflexivity.
Qed.

Lemma count_triggers ts : forall m, Forall (fun t => manifest_line (trigger_line t)) ts ->
  0 <= n_triggers m -> n_triggers m + Z.of_nat (length ts) < 2 ^ 32 ->
  fold_left (fun m l => load_line (l ++ ["010"%char]) m) (map trigger_line ts) m =
  mk_manifest (service_name m) (endpoint m) (abi_version m) (ivars_size m) (n_triggers m + Z.of_nat (length ts)).
Proof.
  induction ts as [|t ts IH]; intros m Hf H0 Hb.
  - cbn [map fold_left length]. rewrite Z.add_0_r. now destruct m.
  - inv Hf. cbn [map fold_left length] in *.
    change (trigger_line t) with (lit "trigger" ++ "="%char :: tr_fn t ++ lit " kind=" ++ dec_s (trig_code (tr_kind t)) ++
      lit " param=" ++ dec_u (tr_param t)) in *.
    rewrite load_line_key; [|assumption|simpl; intuition discriminate|simpl; discriminate].
    change (set_key (lit "trigger") _ m) with (add_trigger m).
    unfold add_trigger. rewrite wrap_small by lia. rewrite IH; cbn [n_triggers service_name endpoint abi_version ivars_size];
      [f_equal; lia|assumption|lia|lia].
Qed.

(** What a value must be to sit in a line. *)
Definition value_ok (cap : nat) (v : text) : Prop := (length v < cap)%nat /\ ~ In "010"%char v /\ no_nul v.

Lemma dec_u_value n : 0 <= n < 2 ^ 32 -> value_ok 33 (dec_u n).
Proof.
  intros H. split; [pose proof (length_dec_u_pow n 32 H); lia|]. pose proof (dec_u_digits n ltac:(lia)) as Hd. split.
  - intros Hin. rewrite Forall_forall in Hd. specialize (Hd _ Hin). discriminate.
  - eapply Forall_impl; [|exact Hd]. intros c Hc. apply Ascii.eqb_neq. intros ->. discriminate.
Qed.

Lemma value_app a b n m : value_ok n a -> value_ok m b -> value_ok (n + m) (a ++ b).
Proof.
  intros (Ha & Na & Za) (Hb & Nb & Zb). split; [rewrite length_app; lia|]. split; [rewrite in_app_iff; tauto|].
  apply Forall_app. auto.
Qed.

Lemma value_lit s n : (length (lit s) <? n)%nat && forallb (fun c => negb (Ascii.eqb c "010") && negb (Ascii.eqb c "000")) (lit s) = true ->
  value_ok n (lit s).
Proof.
  intros H. apply andb_true_iff in H as [Hl H]. apply Nat.ltb_lt in Hl. rewrite forallb_forall in H.
  split; [exact Hl|]. split; [intros Hin; specialize (H _ Hin); discriminate|].
  apply Forall_forall. intros c Hc. specialize (H c Hc). apply andb_true_iff in H as [_ H]. now destruct (Ascii.eqb c "000").
Qed.

Lemma value_line n v : value_ok n v -> (n <= 255)%nat -> manifest_line v.
Proof. intros (Hl & Hn & Hz) H. split; [lia|auto]. Qed.

Lemma trigger_line_ok t : value_ok 190 (tr_fn t) -> 0 <= tr_param t < 2 ^ 32 -> manifest_line (trigger_line t).
Proof.
  intros Hf Hp. apply (value_line (9 + (190 + (7 + (2 + (8 + 33)))))); [|lia]. unfold trigger_line.
  repeat apply value_app; try (apply value_lit; reflexivity); [exact Hf| |now apply dec_u_value].
  destruct t as [fn [] p]; apply (value_lit "0") || apply (value_lit "1") || apply (value_lit "2") || apply (value_lit "3"); reflexivity.
Qed.

Lemma amp_triggers_ok native ir :
  Forall (fun me => value_ok 190 (CNames.cc_func_name me)) (filter (Partition.cc_method_eligible native) (Ir.ir_m ir)) ->
  Forall (fun t => manifest_line (trigger_line t)) (amp_triggers native ir).
Proof.
  intros H. unfold amp_triggers. apply Forall_map. eapply Forall_impl; [|exact H]. intros me Hm.
  pose proof (amp_trigger_param (CNames.cc_func_name me)) as Hp.
  destruct (amp_trigger_of (CNames.cc_func_name me)) as [k p]. now apply trigger_line_ok.
Qed.

(** The keys of the format. *)
Definition keys : list text :=
  [lit "board"; lit "service.name"; lit "otlp.endpoint"; lit "abi_version"; lit "ivars_size"].

Lemma key_ok k : In k keys -> value_ok 20 k /\ ~ In "="%char k /\ hd_error k <> Some "#"%char.
Proof.
  revert k. apply Forall_forall.
  repeat (apply Forall_cons; [split; [now apply value_lit|split; [simpl; intuition discriminate|discriminate]]|]).
  constructor.
Qed.

Lemma key_line k v n : In k keys -> value_ok n v -> (n <= 230)%nat -> manifest_line (k ++ "="%char :: v).
Proof.
  intros Hk Hv Hn. apply (value_line (20 + (2 + n))); [|lia]. apply value_app; [now apply key_ok|].
  apply (value_app (lit "=")); [now apply value_lit|exact Hv].
Qed.

Lemma load_key k v n m : In k keys -> value_ok n v -> (n <= 230)%nat ->
  load_line ((k ++ "="%char :: v) ++ ["010"%char]) m = set_key k v m.
Proof. intros Hk Hv Hn. apply load_line_key; [now apply (key_line k v n)|now apply key_ok..]. Qed.

Lemma set_known_keys v m :
  set_key (lit "board") v m = m /\ set_key (lit "service.name") v m = set_service v m /\
  set_key (lit "otlp.endpoint") v m = set_endpoint v m /\
  set_key (lit "abi_version") v m = set_abi (u32 (strtoul 0 v)) m /\
  set_key (lit "ivars_size") v m = set_ivars (u32 (strtoul 0 v)) m.
Proof. repeat split. Qed.

(** C40: the drain learns what the generator computed.  Loading the manifest written
    for a program gives the service name and endpoint configured for it, the ABI
    version, the size of its instance variables and the number of its handlers,
    for every program whose handler names fit a line of the reader's buffer. *)
Theorem manifest_roundtrip board service ep abi reg native ir :
  value_ok 200 board -> value_ok 64 service -> value_ok 160 ep -> 0 <= abi < 2 ^ 32 ->
  Forall (fun me => value_ok 190 (CNames.cc_func_name me)) (filter (Partition.cc_method_eligible native) (Ir.ir_m ir)) ->
  Z.of_nat (length (Ir.ir_m ir)) < 2 ^ 32 ->
  amp_manifest_load (Some (write_amp_manifest board service ep
     (amp_manifest_dump abi (Ivars.amp_ivars_size reg) (amp_triggers native ir)))) =
  (0, mk_manifest service ep abi (Ivars.amp_ivars_size reg)
        (Z.of_nat (length (filter (Partition.cc_method_eligible native) (Ir.ir_m ir))))).
Proof.
  intros Hb Hs He Ha Hm Hc. set (iv := Ivars.amp_ivars_size reg).
  assert (Hiv : 0 <= iv < 2 ^ 32) by (apply wrap_range; lia).
  pose proof (amp_triggers_ok native ir Hm) as Ht.
  assert (Hlen : length (amp_triggers native ir) = length (filter (Partition.cc_method_eligible native) (Ir.ir_m ir)))
    by apply length_map.
  pose proof (filter_length_le (Partition.cc_method_eligible native) (Ir.ir_m ir)) as Hfl.
  pose proof (dec_u_value abi Ha) as Hva. pose proof (dec_u_value iv Hiv) as Hvi.
  unfold amp_manifest_load, write_amp_manifest, amp_manifest_dump. f_equal.
  change (lit "board=" ++ board) with (lit "board" ++ "="%char :: board).
  change (lit "service.name=" ++ service) with (lit "service.name" ++ "="%char :: service).
  change (lit "otlp.endpoint=" ++ ep) with (lit "otlp.endpoint" ++ "="%char :: ep).
  change (lit "abi_version=" ++ dec_u abi) with (lit "abi_version" ++ "="%char :: dec_u abi).
  change (lit "ivars_size=" ++ dec_u iv) with (lit "ivars_size" ++ "="%char :: dec_u iv).
  rewrite load_loop_lines; [|
    apply Forall_cons; [apply (value_line 255); [now apply value_lit|lia]|];
    repeat (apply Forall_cons; [eapply key_line; [unfold keys; auto 7 using in_eq, in_cons|eassumption|lia]|]); now apply Forall_map|lia].
  cbn [app fold_left]. change (load_line (lit "# spinel-ebpf amp manifest" ++ ["010"%char]) default_manifest) with default_manifest.
  rewrite (load_key (lit "board") board 200), (load_key (lit "service.name") service 64),
    (load_key (lit "otlp.endpoint") ep 160), (load_key (lit "abi_version") (dec_u abi) 33),
    (load_key (lit "ivars_size") (dec_u iv) 33) by (assumption || lia || (simpl; tauto)).
  rewrite (proj1 (set_known_keys _ _)), (proj1 (proj2 (set_known_keys _ _))), (proj1 (proj2 (proj2 (set_known_keys _ _)))),
    (proj1 (proj2 (proj2 (proj2 (set_known_keys _ _))))), (proj2 (proj2 (proj2 (proj2 (set_known_keys _ _))))).
  rewrite count_triggers by (assumption || (cbn [n_triggers default_manifest set_service set_endpoint set_abi set_ivars]; lia)).
  rewrite Hlen, !strtoul0_dec, !wrap_small by lia.
  cbn [service_name endpoint abi_version ivars_size n_triggers default_manifest set_service set_endpoint set_abi set_ivars].
  f_equal; apply trunc_id; [apply Hs|apply He].
Qed.

(** A timer and a command handler. *)
Definition sample_methods : Ir.IR :=
  Ir.mk_IR [Ir.mk_method (lit "timer_100") None [] Types.CC_TY_INT 1 Ir.SO_NONE None;
            Ir.mk_method (lit "cmd") None [] Types.CC_TY_INT 2 Ir.SO_NONE None] [] [] [] [].

Lemma manifest_roundtrip_witness :
  amp_manifest_load (Some (write_amp_manifest (lit "imx95m7") (lit "probe") (lit "http://127.0.0.1:4318")
     (amp_manifest_dump 1 (Ivars.amp_ivars_size [lit "n"; lit "sum"]) (amp_triggers None sample_methods)))) =
  (0, mk_manifest (lit "probe") (lit "http://127.0.0.1:4318") 1 8 2).
Proof.
  apply (manifest_roundtrip (lit "imx95m7") (lit "probe") (lit "http://127.0.0.1:4318") 1 [lit "n"; lit "sum"] None sample_methods);
    try (apply value_lit; reflexivity); try lia; [|vm_compute; reflexivity].
  vm_compute filter. repeat (constructor; [now apply (value_lit "timer_100") || now apply (value_lit "cmd")|]). constructor.
Defined.

(** A comment longer than the buffer: its tail is read as a line of its own. *)
Lemma long_comment_sets_key :
  amp_manifest_load (Some (lit "#" ++ repeat "-"%char 254 ++ lit "abi_version=7" ++ ["010"%char])) =
  (0, set_abi 7 default_manifest).
Proof. vm_compute. reflexivity. Qed.

End Manifest.
