(* ===== verification/Capability.v ===== *)
(** * The probe capability table ([src/runtime/amp/probe_capability.c])

    The firmware publishes the table into shared memory, the installer and the
    loader read it back and decide admission.  The region is a byte buffer; the
    width of [size_t] is a parameter, since the same source is built for the
    32-bit core and for Linux.

    - [Table]: the layout, the FNV-1a hash, [probe_capability_publish] and
      [probe_capability_open].
    - [Admission]: [probe_capability_admit] against its declarative meaning. *)

From S2P Require Import Prelude Bytes.

Module Table.

Definition PROBE_CAP_MAGIC : Z := 0x50414341.
Definition PROBE_CTX_FORMAT_VERSION : Z := 1.
Definition PROBE_CTX_BITMAP_WORDS : nat := 4.

Record probe_attach_capability := mk_cap {
  attach_id : Z;
  exec_class : Z;
  max_cycle_budget : Z;
  field_bitmap_words : Z;
  field_bitmap : list Z
}.

Record probe_capability_header := mk_hdr {
  magic : Z;
  format_version : Z;
  firmware_abi_version : Z;
  boot_generation : Z;
  firmware_build_id : list Z;
  table_hash : Z;
  n_attach : Z;
  entry_bytes : Z
}.

Definition sizeof_header : nat := 56.
Definition sizeof_entry : nat := 48.

(** ** Layout in memory *)

Definition enc_entry (e : probe_attach_capability) : list Z :=
  le_enc 4 (attach_id e) ++ le_enc 4 (exec_class e) ++ le_enc 4 (max_cycle_budget e) ++
  le_enc 4 (field_bitmap_words e) ++ flat_map (le_enc 8) (field_bitmap e).

Definition dec_entry (b : list Z) : probe_attach_capability :=
  mk_cap (le_dec (slice 0 4 b)) (le_dec (slice 4 4 b)) (le_dec (slice 8 4 b)) (le_dec (slice 12 4 b))
    [le_dec (slice 16 8 b); le_dec (slice 24 8 b); le_dec (slice 32 8 b); le_dec (slice 40 8 b)].

(** Four bytes of padding align [table_hash]. *)
Definition enc_header (h : probe_capability_header) : list Z :=
  le_enc 4 (magic h) ++ le_enc 2 (format_version h) ++ le_enc 2 (firmware_abi_version h) ++
  le_enc 8 (boot_generation h) ++ firmware_build_id h ++ repeat 0 4 ++ le_enc 8 (table_hash h) ++
  le_enc 4 (n_attach h) ++ le_enc 4 (entry_bytes h).

Definition dec_header (b : list Z) : probe_capability_header :=
  mk_hdr (le_dec (slice 0 4 b)) (le_dec (slice 4 2 b)) (le_dec (slice 6 2 b)) (le_dec (slice 8 8 b))
    (slice 16 20 b) (le_dec (slice 40 8 b)) (le_dec (slice 48 4 b)) (le_dec (slice 52 4 b)).

(** ** The hash *)

Definition fnv_step (h b : Z) : Z := u64 (Z.lxor h b * 1099511628211).

Definition fnv1a (l : list Z) : Z := fold_left fnv_step l 1469598103934665603.

(** [(size_t)n * sizeof(entry)], at the platform's width of [size_t]. *)
Definition table_bytes (wsz n : Z) : Z := wrap wsz (n * Z.of_nat sizeof_entry).

(** [probe_capability_hash] over the bytes at [entries]. *)
Definition probe_capability_hash (wsz : Z) (entries : list Z) (n : Z) : Z :=
  fnv1a (firstn (Z.to_nat (table_bytes wsz n)) entries).

(** ** Publish and open *)

(** The region's new contents and the bytes written; 0 when it does not fit. *)
Definition probe_capability_publish (wsz : Z) (dst : list Z) (entries : list probe_attach_capability)
  (build_id : option (list Z)) (generation : Z) : list Z * Z :=
  let n := Z.of_nat (length entries) in
  let need := wrap wsz (Z.of_nat sizeof_header + table_bytes wsz n) in
  if Z.of_nat (length dst) <? need then (dst, 0)
  else
    let body := flat_map enc_entry entries in
    let h := mk_hdr PROBE_CAP_MAGIC PROBE_CTX_FORMAT_VERSION 0 generation
               (match build_id with Some b => b | None => repeat 0 20 end)
               (probe_capability_hash wsz body n) n (Z.of_nat sizeof_entry) in
    (enc_header h ++ body ++ repeat 0 (length dst - (sizeof_header + length body)), need).

Inductive probe_cap_status :=
| PROBE_CAP_OK
| PROBE_CAP_NOT_PUBLISHED
| PROBE_CAP_BAD_FORMAT
| PROBE_CAP_TRUNCATED
| PROBE_CAP_BAD_HASH.

(** [entries] points into the region: it is the memory behind the header. *)
Record probe_capability_view := mk_view { hdr : probe_capability_header; entries : list Z; count : Z }.

Definition probe_capability_open (wsz : Z) (src : list Z) : probe_cap_status * option probe_capability_view :=
  if (length src <? sizeof_header)%nat then (PROBE_CAP_NOT_PUBLISHED, None)
  else
    let h := dec_header src in
    if negb (magic h =? PROBE_CAP_MAGIC) then (PROBE_CAP_NOT_PUBLISHED, None)
    else if negb (format_version h =? PROBE_CTX_FORMAT_VERSION) then (PROBE_CAP_BAD_FORMAT, None)
    else if negb (entry_bytes h =? Z.of_nat sizeof_entry) then (PROBE_CAP_BAD_FORMAT, None)
    else
      let need := wrap wsz (Z.of_nat sizeof_header + table_bytes wsz (n_attach h)) in
      if Z.of_nat (length src) <? need then (PROBE_CAP_TRUNCATED, None)
      else
        let e := skipn sizeof_header src in
        if negb (probe_capability_hash wsz e (n_attach h) =? table_hash h) then (PROBE_CAP_BAD_HASH, None)
        else (PROBE_CAP_OK, Some (mk_view h e (n_attach h))).

(** Entry [i] of a view; [None] would be a read outside the region. *)
Definition entry_at (v : probe_capability_view) (i : nat) : option probe_attach_capability :=
  let b := slice (i * sizeof_entry) sizeof_entry (entries v) in
  if (length b =? sizeof_entry)%nat then Some (dec_entry b) else None.

(** ** Well-formed entries and headers *)

Definition u32_ok (v : Z) : Prop := 0 <= v < 2 ^ 32.
Definition u64_ok (v : Z) : Prop := 0 <= v < 2 ^ 64.

Definition entry_ok (e : probe_attach_capability) : Prop :=
  u32_ok (attach_id e) /\ u32_ok (exec_class e) /\ u32_ok (max_cycle_budget e) /\
  u32_ok (field_bitmap_words e) /\ length (field_bitmap e) = 4%nat /\ Forall u64_ok (field_bitmap e).

Lemma length_enc_entry e : length (field_bitmap e) = 4%nat -> length (enc_entry e) = sizeof_entry.
Proof.
  intros H. unfold enc_entry. rewrite !length_app, !length_le_enc.
  destruct (field_bitmap e) as [|a [|b [|c [|d [|]]]]]; try discriminate.
  cbn [flat_map]. rewrite !length_app, !length_le_enc. reflexivity.
Qed.

Lemma dec_enc_entry e : entry_ok e -> dec_entry (enc_entry e) = e.
Proof.
  destruct e as [a x m w bm]. unfold entry_ok; cbn [attach_id exec_class max_cycle_budget field_bitmap_words field_bitmap].
  intros (Ha & Hx & Hm & Hw & Hl & Hb).
  destruct bm as [|b0 [|b1 [|b2 [|b3 [|]]]]]; try discriminate.
  rewrite Forall_forall in Hb. unfold u32_ok, u64_ok in *.
  unfold dec_entry, enc_entry; cbn [attach_id exec_class max_cycle_budget field_bitmap_words field_bitmap flat_map].
  slices. rewrite !le_dec_enc by (first [apply Hb; simpl; auto | assumption]). reflexivity.
Qed.

Definition header_ok (h : probe_capability_header) : Prop :=
  u32_ok (magic h) /\ 0 <= format_version h < 2 ^ 16 /\ 0 <= firmware_abi_version h < 2 ^ 16 /\
  u64_ok (boot_generation h) /\ length (firmware_build_id h) = 20%nat /\ u64_ok (table_hash h) /\
  u32_ok (n_attach h) /\ u32_ok (entry_bytes h).

Lemma length_enc_header h : length (firmware_build_id h) = 20%nat -> length (enc_header h) = sizeof_header.
Proof.
  intros H. unfold enc_header. rewrite !length_app, !length_le_enc, repeat_length, H. reflexivity.
Qed.

Lemma dec_enc_header h rest : header_ok h -> dec_header (enc_header h ++ rest) = h.
Proof.
  destruct h as [m f a g bi t n e]. unfold header_ok, u32_ok, u64_ok, dec_header, enc_header.
  cbn [magic format_version firmware_abi_version boot_generation firmware_build_id table_hash n_attach entry_bytes].
  intros (Hm & Hf & Ha & Hg & Hb & Ht & Hn & He). rewrite <- !app_assoc. slices.
  rewrite !le_dec_enc by assumption. reflexivity.
Qed.

(** ** The hash notices any single changed byte *)

Definition fnv_prime_inv : Z := 0xce965057aff6957b.

Lemma byte_u64 b : is_byte b -> 0 <= b < 2 ^ 64.
Proof. unfold is_byte. lia. Qed.

Lemma fnv_step_range h b : 0 <= fnv_step h b < 2 ^ 64.
Proof. apply wrap_range. lia. Qed.

Lemma fnv_fold_range l h : u64_ok h -> u64_ok (fold_left fnv_step l h).
Proof. revert h; induction l as [|b l IH]; intros h H; simpl; auto. apply IH, fnv_step_range. Qed.

Lemma fnv_step_inj h1 h2 b1 b2 : u64_ok h1 -> u64_ok h2 -> is_byte b1 -> is_byte b2 ->
  fnv_step h1 b1 = fnv_step h2 b2 -> Z.lxor h1 b1 = Z.lxor h2 b2.
Proof.
  intros H1 H2 Hb1 Hb2 E. apply (mul_odd_inj _ fnv_prime_inv) in E; [assumption|reflexivity| |];
    apply lxor_range; auto using byte_u64; lia.
Qed.

Lemma fnv_fold_inj l : Forall is_byte l -> forall h1 h2, u64_ok h1 -> u64_ok h2 ->
  fold_left fnv_step l h1 = fold_left fnv_step l h2 -> h1 = h2.
Proof.
  induction 1 as [|b l Hb Hl IH]; intros h1 h2 H1 H2 E; [exact E|]. simpl in E.
  apply IH in E; try apply fnv_step_range. apply fnv_step_inj in E; auto.
  assert (F : forall h, Z.lxor (Z.lxor h b) b = h)
    by (intros; now rewrite Z.lxor_assoc, Z.lxor_nilpotent, Z.lxor_0_r).
  rewrite <- (F h1), <- (F h2). now rewrite E.
Qed.

Lemma fnv1a_one_byte l1 b b' l2 : Forall is_byte l1 -> Forall is_byte l2 -> is_byte b -> is_byte b' ->
  fnv1a (l1 ++ b :: l2) = fnv1a (l1 ++ b' :: l2) -> b = b'.
Proof.
  intros H1 H2 Hb Hb' E. unfold fnv1a in E. rewrite !fold_left_app in E. simpl in E.
  assert (Hs : u64_ok (fold_left fnv_step l1 1469598103934665603)) by (apply fnv_fold_range; split; reflexivity || discriminate).
  apply fnv_fold_inj in E; auto; try apply fnv_step_range. apply fnv_step_inj in E; auto.
  set (h := fold_left fnv_step l1 _) in *.
  assert (F : forall x, Z.lxor h (Z.lxor h x) = x)
    by (intros; now rewrite <- Z.lxor_assoc, Z.lxor_nilpotent, Z.lxor_0_l).
  rewrite <- (F b), <- (F b'). now rewrite E.
Qed.

(** ** What publish leaves in the region *)

Section Published.
Context (dst : list Z) (es : list probe_attach_capability) (bid : list Z) (gen : Z).
Hypothesis Hes : Forall entry_ok es.
Hypothesis Hn : Z.of_nat (length es) < 2 ^ 32.
Hypothesis Hbid : length bid = 20%nat.
Hypothesis Hgen : u64_ok gen.
Hypothesis Hfit : (sizeof_header + length es * sizeof_entry <= length dst)%nat.

Definition body : list Z := flat_map enc_entry es.
Definition pub_header : probe_capability_header :=
  mk_hdr PROBE_CAP_MAGIC PROBE_CTX_FORMAT_VERSION 0 gen bid (fnv1a body) (Z.of_nat (length es)) 48.
Definition tail : list Z := repeat 0 (length dst - (sizeof_header + length body)).
Definition region : list Z := enc_header pub_header ++ body ++ tail.

Lemma length_body : length body = (length es * sizeof_entry)%nat.
Proof.
  unfold body. clear -Hes. induction es as [|e l IH]; [reflexivity|]. inv Hes. cbn [flat_map length].
  rewrite length_app, IH, length_enc_entry by (auto; apply H1). lia.
Qed.

Lemma table_bytes_64 : table_bytes 64 (Z.of_nat (length es)) = Z.of_nat (length body).
Proof.
  clear Hfit. unfold table_bytes. rewrite length_body, Nat2Z.inj_mul. apply wrap_small. unfold sizeof_entry. lia.
Qed.

Lemma hash_body rest : probe_capability_hash 64 (body ++ rest) (Z.of_nat (length es)) = fnv1a body.
Proof.
  unfold probe_capability_hash. rewrite table_bytes_64, Nat2Z.id, firstn_app, firstn_all, Nat.sub_diag.
  simpl. now rewrite app_nil_r.
Qed.

Lemma publish_region : probe_capability_publish 64 dst es (Some bid) gen =
  (region, Z.of_nat (sizeof_header + length body)).
Proof.
  unfold probe_capability_publish. rewrite table_bytes_64.
  assert (W : wrap 64 (Z.of_nat sizeof_header + Z.of_nat (length body)) = Z.of_nat (sizeof_header + length body)).
  { rewrite <- Nat2Z.inj_add. apply wrap_small. rewrite length_body. unfold sizeof_header, sizeof_entry. lia. }
  rewrite W. pose proof length_body.
  destruct (Z.ltb_spec (Z.of_nat (length dst)) (Z.of_nat (sizeof_header + length body))); [lia|].
  fold body. rewrite <- (app_nil_r body) at 1. rewrite hash_body. reflexivity.
Qed.

Lemma header_region_ok : header_ok pub_header.
Proof.
  clear Hfit. assert (Hh : u64_ok (fnv1a body)) by (apply fnv_fold_range; split; reflexivity || discriminate).
  unfold header_ok, pub_header, u32_ok;
    cbn [magic format_version firmware_abi_version boot_generation firmware_build_id table_hash n_attach entry_bytes].
  unfold PROBE_CAP_MAGIC, PROBE_CTX_FORMAT_VERSION. repeat (split; [first [assumption | lia]|]). lia.
Qed.

Lemma length_region : length region = length dst.
Proof.
  unfold region, tail. rewrite !length_app, length_enc_header, repeat_length by assumption.
  rewrite length_body in *. lia.
Qed.

End Published.

(** Opening a region that starts with a published header and [bytes] behind it. *)
Lemma open_region es bid gen bytes : Forall entry_ok es -> Z.of_nat (length es) < 2 ^ 32 ->
  length bid = 20%nat -> u64_ok gen -> (length es * sizeof_entry <= length bytes)%nat ->
  probe_capability_open 64 (enc_header (pub_header es bid gen) ++ bytes) =
    if fnv1a (firstn (length es * sizeof_entry) bytes) =? fnv1a (body es)
    then (PROBE_CAP_OK, Some (mk_view (pub_header es bid gen) bytes (Z.of_nat (length es))))
    else (PROBE_CAP_BAD_HASH, None).
Proof.
  intros Hes Hn Hbid Hgen Hb. unfold probe_capability_open.
  pose proof (header_region_ok es bid gen Hn Hbid Hgen) as Hh.
  rewrite length_app, length_enc_header by exact Hbid.
  destruct (Nat.ltb_spec (sizeof_header + length bytes) sizeof_header); [unfold sizeof_header in *; lia|].
  rewrite dec_enc_header by exact Hh.
  change (magic _ =? PROBE_CAP_MAGIC) with true. change (format_version _ =? PROBE_CTX_FORMAT_VERSION) with true.
  change (entry_bytes _ =? Z.of_nat sizeof_entry) with true. cbn [negb].
  change (n_attach (pub_header es bid gen)) with (Z.of_nat (length es)).
  assert (T : table_bytes 64 (Z.of_nat (length es)) = Z.of_nat (length es * sizeof_entry))
    by (unfold table_bytes; rewrite Nat2Z.inj_mul; apply wrap_small; unfold sizeof_entry; lia).
  rewrite T, <- Nat2Z.inj_add, wrap_small by (unfold sizeof_header, sizeof_entry; lia).
  destruct (Z.ltb_spec (Z.of_nat (sizeof_header + length bytes)) (Z.of_nat (sizeof_header + length es * sizeof_entry))); [lia|].
  replace (skipn sizeof_header (enc_header (pub_header es bid gen) ++ bytes)) with bytes
    by (rewrite skipn_app, length_enc_header, Nat.sub_diag, skipn_all2 by (try exact Hbid; rewrite length_enc_header by exact Hbid; lia);
        reflexivity).
  unfold probe_capability_hash. rewrite T, Nat2Z.id. cbn [table_hash pub_header].
  now destruct (fnv1a (firstn (length es * sizeof_entry) bytes) =? fnv1a (body es)).
Qed.

Lemma body_nth es i e rest : Forall entry_ok es -> nth_error es i = Some e ->
  slice (i * sizeof_entry) sizeof_entry (body es ++ rest) = enc_entry e.
Proof.
  revert i; induction es as [|e0 es IH]; intros [|i] He Hi; try discriminate; inv He; cbn [body flat_map].
  - inv Hi. rewrite <- app_assoc. apply slice_here. apply length_enc_entry, H1.
  - rewrite <- app_assoc. rewrite slice_app_r by (rewrite length_enc_entry by apply H1; unfold sizeof_entry; lia).
    rewrite length_enc_entry by apply H1.
    replace (S i * sizeof_entry - sizeof_entry)%nat with (i * sizeof_entry)%nat by (unfold sizeof_entry; lia).
    now apply IH.
Qed.

(** What the firmware publishes is what a 64-bit reader opens: the status is
    OK, the header carries the image's build id and generation, and every entry
    reads back exactly. *)
Theorem publish_open_roundtrip dst es bid gen :
  Forall entry_ok es -> Z.of_nat (length es) < 2 ^ 32 -> length bid = 20%nat -> u64_ok gen ->
  (sizeof_header + length es * sizeof_entry <= length dst)%nat ->
  let '(r, written) := probe_capability_publish 64 dst es (Some bid) gen in
  written = Z.of_nat (sizeof_header + length es * sizeof_entry) /\ length r = length dst /\
  exists v, probe_capability_open 64 r = (PROBE_CAP_OK, Some v) /\
    firmware_build_id (hdr v) = bid /\ boot_generation (hdr v) = gen /\ count v = Z.of_nat (length es) /\
    forall i e, nth_error es i = Some e -> entry_at v i = Some e.
Proof.
  intros Hes Hn Hbid Hgen Hfit. rewrite publish_region by assumption.
  pose proof (length_body es Hes) as Hl.
  split; [now rewrite Hl|]. split; [now apply length_region|].
  unfold region.
  exists (mk_view (pub_header es bid gen) (body es ++ tail dst es) (Z.of_nat (length es))).
  split; [|split; [reflexivity|split; [reflexivity|split; [reflexivity|]]]].
  - rewrite open_region by (try assumption; rewrite length_app; lia).
    rewrite <- Hl, firstn_app, firstn_all, Nat.sub_diag. simpl firstn. rewrite app_nil_r, Z.eqb_refl. reflexivity.
  - intros i e He. unfold entry_at; cbn [entries]. rewrite (body_nth es i e) by assumption.
    assert (Hok : entry_ok e) by (rewrite Forall_forall in Hes; eauto using nth_error_In).
    rewrite length_enc_entry by apply Hok. cbn [Nat.eqb sizeof_entry]. now rewrite dec_enc_entry.
Qed.

Lemma enc_entry_bytes e : Forall is_byte (enc_entry e).
Proof.
  unfold enc_entry. repeat (apply Forall_app; split; [apply le_enc_bytes|]).
  induction (field_bitmap e); cbn [flat_map]; [constructor|]. apply Forall_app. auto using le_enc_bytes.
Qed.

Lemma body_bytes es : Forall is_byte (body es).
Proof. unfold body. induction es; cbn [flat_map]; [constructor|]. apply Forall_app. auto using enc_entry_bytes. Qed.

Lemma upd_app_r {A} (a b : list A) k x : (length a <= k)%nat -> upd (a ++ b) k x = a ++ upd b (k - length a) x.
Proof.
  revert k; induction a as [|y a IH]; intros k H; simpl in *; [now rewrite Nat.sub_0_r|].
  destruct k; [lia|]. simpl. f_equal. apply IH. lia.
Qed.

Lemma upd_app_l {A} (a b : list A) k x : (k < length a)%nat -> upd (a ++ b) k x = upd a k x ++ b.
Proof.
  revert k; induction a as [|y a IH]; intros k H; simpl in *; [lia|].
  destruct k; simpl; [reflexivity|]. f_equal. apply IH. lia.
Qed.

Lemma upd_split {A} (l : list A) k x : (k < length l)%nat ->
  exists l1 y l2, l = l1 ++ y :: l2 /\ upd l k x = l1 ++ x :: l2 /\ nth_error l k = Some y.
Proof.
  revert k; induction l as [|y l IH]; intros k H; simpl in *; [lia|].
  destruct k as [|k]; [exists [], y, l; auto|].
  destruct (IH k ltac:(lia)) as (l1 & z & l2 & -> & E2 & E3). exists (y :: l1), z, l2. simpl. rewrite E2. auto.
Qed.

(** If any single byte of the published entries changes, opening the region
    reports a hash mismatch. *)
Theorem corrupted_entry_detected dst es bid gen k b :
  Forall entry_ok es -> Z.of_nat (length es) < 2 ^ 32 -> length bid = 20%nat -> u64_ok gen ->
  (sizeof_header + length es * sizeof_entry <= length dst)%nat ->
  (sizeof_header <= k < sizeof_header + length es * sizeof_entry)%nat -> is_byte b ->
  let r := fst (probe_capability_publish 64 dst es (Some bid) gen) in
  nth_error r k <> Some b ->
  probe_capability_open 64 (upd r k b) = (PROBE_CAP_BAD_HASH, None).
Proof.
  intros Hes Hn Hbid Hgen Hfit Hk Hb r. unfold r. rewrite publish_region by assumption. cbn [fst].
  pose proof (length_body es Hes) as Hl. unfold region. intros Hne.
  assert (Hh : length (enc_header (pub_header es bid gen)) = sizeof_header) by now apply length_enc_header.
  rewrite upd_app_r, Hh by lia. rewrite upd_app_l by lia.
  rewrite nth_error_app2, Hh, nth_error_app1 in Hne by lia.
  destruct (upd_split (body es) (k - sizeof_header) b ltac:(lia)) as (l1 & y & l2 & E1 & E2 & E3).
  rewrite open_region by (try assumption; rewrite length_app, length_upd; lia).
  rewrite <- Hl, firstn_app, length_upd, Nat.sub_diag. simpl firstn. rewrite app_nil_r.
  rewrite (firstn_all2 (upd (body es) _ _)) by (rewrite length_upd; lia).
  pose proof (body_bytes es) as Hbb. rewrite E1 in Hbb. apply Forall_app in Hbb. destruct Hbb as [B1 B2]. inv B2.
  destruct (Z.eqb_spec (fnv1a (upd (body es) (k - sizeof_header) b)) (fnv1a (body es))) as [E|E]; [|reflexivity].
  exfalso. rewrite E2, E1 in E. apply fnv1a_one_byte in E; auto. congruence.
Qed.

(** On a platform with a 32-bit [size_t] the size computation wraps: a
    56-byte region claiming 2^28 entries is accepted, so the installer's search
    would walk past the end of the region. *)
Theorem open_wraps_on_32bit :
  let h := mk_hdr PROBE_CAP_MAGIC PROBE_CTX_FORMAT_VERSION 0 0 (repeat 0 20) 1469598103934665603 (2 ^ 28) 48 in
  (exists v, probe_capability_open 32 (enc_header h) = (PROBE_CAP_OK, Some v) /\
     count v = 2 ^ 28 /\ entry_at v 0 = None) /\
  probe_capability_open 64 (enc_header h) = (PROBE_CAP_TRUNCATED, None).
Proof. split; [eexists; split; [vm_compute; reflexivity|split; vm_compute; reflexivity]|vm_compute; reflexivity]. Qed.

(** The table of the generated header: one attach point, three fields. *)
Definition sample_entry : probe_attach_capability := mk_cap 1 1 500 4 [0xe; 0; 0; 0].

Lemma sample_entry_ok : Forall entry_ok [sample_entry].
Proof.
  constructor; [|constructor]. unfold entry_ok, u32_ok, sample_entry; cbn. repeat (split; [lia|]).
  repeat constructor; discriminate || reflexivity.
Defined.

Lemma publish_open_roundtrip_witness :
  exists v, probe_capability_open 64
              (fst (probe_capability_publish 64 (repeat 255 200) [sample_entry] (Some (repeat 7 20)) 3)) =
            (PROBE_CAP_OK, Some v) /\ entry_at v 0 = Some sample_entry.
Proof.
  assert (Hg : u64_ok 3) by (split; [discriminate|reflexivity]).
  pose proof (publish_open_roundtrip (repeat 255 200) [sample_entry] (repeat 7 20) 3 sample_entry_ok
                eq_refl eq_refl Hg ltac:(vm_compute; repeat constructor)) as H.
  destruct (probe_capability_publish 64 (repeat 255 200) [sample_entry] (Some (repeat 7 20)) 3) as [r w].
  destruct H as (_ & _ & v & Ho & _ & _ & _ & He). exists v. split; [exact Ho|]. now apply He.
Defined.

Lemma corrupted_entry_detected_witness :
  probe_capability_open 64
    (upd (fst (probe_capability_publish 64 (repeat 255 200) [sample_entry] (Some (repeat 7 20)) 3)) 72 15) =
  (PROBE_CAP_BAD_HASH, None).
Proof.
  assert (Hg : u64_ok 3) by (split; [discriminate|reflexivity]).
  apply (corrupted_entry_detected (repeat 255 200) [sample_entry] (repeat 7 20) 3 72 15 sample_entry_ok
           eq_refl eq_refl Hg); vm_compute; repeat constructor; discriminate.
Defined.

End Table.

Module Admission.
Import Table.

Record probe_requirement := mk_req {
  r_attach_id : Z;
  context_fields : list Z;
  cost_units : Z;
  r_build_id : list Z;
  bind_build_id : bool
}.

Inductive probe_admit_status :=
| PROBE_ADMIT_OK
| PROBE_ADMIT_NO_SUCH_ATTACH
| PROBE_ADMIT_MISSING_FIELD
| PROBE_ADMIT_OVER_BUDGET
| PROBE_ADMIT_WRONG_FIRMWARE.

(** [memcmp] of two 20-byte ids. *)
Fixpoint bytes_eqb (a b : list Z) : bool :=
  match a, b with
  | [], [] => true
  | x :: a', y :: b' => (x =? y) && bytes_eqb a' b'
  | _, _ => false
  end.

(** The search over [view->entries]; the outer [None] is a read outside the region. *)
Fixpoint find_attach (v : probe_capability_view) (id : Z) (i left : nat)
  : option (option probe_attach_capability) :=
  match left with
  | O => Some None
  | S l =>
      match entry_at v i with
      | None => None
      | Some e => if attach_id e =? id then Some (Some e) else find_attach v id (S i) l
      end
  end.

(** The first set bit of a 64-bit word. *)
Definition first_bit (x : Z) : option nat := find (fun b => Z.testbit x (Z.of_nat b)) (seq 0 64).

(** The first field of word [w] asked for and not provided.  Below
    [field_bitmap_words] it is [want & ~have]; above, everything asked for. *)
Definition missing_in_word (e : probe_attach_capability) (req : probe_requirement) (w : nat) : option Z :=
  let want := nth w (context_fields req) 0 in
  let missing := if Z.of_nat w <? field_bitmap_words e then Z.ldiff want (nth w (field_bitmap e) 0) else want in
  if missing =? 0 then None
  else match first_bit missing with
       | Some b => Some (Z.of_nat w * 64 + Z.of_nat b)
       | None => Some 0
       end.

Fixpoint first_missing (e : probe_attach_capability) (req : probe_requirement) (ws : list nat) : option Z :=
  match ws with
  | [] => None
  | w :: ws' => match missing_in_word e req w with Some f => Some f | None => first_missing e req ws' end
  end.

(** Status and [*missing_field_id]; [None] is a read outside the region. *)
Definition probe_capability_admit (view : option probe_capability_view) (req : option probe_requirement)
  : option (probe_admit_status * Z) :=
  match view, req with
  | Some v, Some q =>
      if bind_build_id q && negb (bytes_eqb (r_build_id q) (firmware_build_id (hdr v))) then
        Some (PROBE_ADMIT_WRONG_FIRMWARE, 0)
      else
        match find_attach v (r_attach_id q) 0 (Z.to_nat (count v)) with
        | None => None
        | Some None => Some (PROBE_ADMIT_NO_SUCH_ATTACH, 0)
        | Some (Some e) =>
            match first_missing e q (seq 0 PROBE_CTX_BITMAP_WORDS) with
            | Some f => Some (PROBE_ADMIT_MISSING_FIELD, f)
            | None =>
                if max_cycle_budget e <? cost_units q then Some (PROBE_ADMIT_OVER_BUDGET, 0)
                else Some (PROBE_ADMIT_OK, 0)
            end
        end
  | _, _ => Some (PROBE_ADMIT_NO_SUCH_ATTACH, 0)
  end.

(** ** What admission means *)

Definition requested (q : probe_requirement) (f : Z) : bool :=
  Z.testbit (nth (Z.to_nat (f / 64)) (context_fields q) 0) (f mod 64).

Definition provided (e : probe_attach_capability) (f : Z) : bool :=
  (f / 64 <? field_bitmap_words e) && Z.testbit (nth (Z.to_nat (f / 64)) (field_bitmap e) 0) (f mod 64).

Definition fields_ok (e : probe_attach_capability) (q : probe_requirement) : Prop :=
  forall f, 0 <= f < 256 -> requested q f = true -> provided e f = true.

Definition words_ok (l : list Z) : Prop := Forall u64_ok l.

Lemma bytes_eqb_eq a b : bytes_eqb a b = true <-> a = b.
Proof.
  revert b; induction a as [|x a IH]; intros [|y b]; simpl; try (split; congruence).
  rewrite andb_true_iff, Z.eqb_eq, IH. intuition congruence.
Qed.

Lemma nth_u64 l w : words_ok l -> u64_ok (nth w l 0).
Proof.
  intros H. destruct (nth_in_or_default w l 0) as [Hi| ->]; [|split; reflexivity || discriminate].
  unfold words_ok in H. rewrite Forall_forall in H. auto.
Qed.

Lemma testbit_high x b : u64_ok x -> 64 <= b -> Z.testbit x b = false.
Proof.
  intros [H0 H1] Hb. destruct (Z.eq_dec x 0) as [->|Hx]; [apply Z.testbit_0_l|].
  apply Z.bits_above_log2; [assumption|].
  assert (Z.log2 x < 64) by (apply Z.log2_lt_pow2; lia). lia.
Qed.

(** The bits of a missing word, read back as fields. *)
Definition lacking (e : probe_attach_capability) (q : probe_requirement) (w : nat) : Z :=
  if Z.of_nat w <? field_bitmap_words e then Z.ldiff (nth w (context_fields q) 0) (nth w (field_bitmap e) 0)
  else nth w (context_fields q) 0.

Lemma lacking_bit e q w b : 0 <= b < 64 -> words_ok (context_fields q) ->
  Z.testbit (lacking e q w) b = requested q (Z.of_nat w * 64 + b) && negb (provided e (Z.of_nat w * 64 + b)).
Proof.
  intros Hb Hq. unfold lacking, requested, provided.
  rewrite Z.div_add_l, (Z.div_small b), Z.add_0_r, Nat2Z.id by lia.
  rewrite (Z.add_comm (Z.of_nat w * 64)), Z.mod_add, Z.mod_small by lia.
  destruct (Z.of_nat w <? field_bitmap_words e); simpl; [apply Z.ldiff_spec|now rewrite andb_true_r].
Qed.

Lemma lacking_u64 e q w : words_ok (context_fields q) -> forall b, 64 <= b -> Z.testbit (lacking e q w) b = false.
Proof.
  intros Hq b Hb. unfold lacking. pose proof (nth_u64 _ w Hq) as Hw. case_if.
  - rewrite Z.ldiff_spec, (testbit_high _ b Hw Hb). reflexivity.
  - now apply testbit_high.
Qed.

Lemma first_bit_spec x : (forall b, 64 <= b -> Z.testbit x b = false) -> x <> 0 ->
  exists b, first_bit x = Some b /\ (b < 64)%nat /\ Z.testbit x (Z.of_nat b) = true.
Proof.
  intros Hh Hx. unfold first_bit. destruct (find _ (seq 0 64)) as [b|] eqn:E.
  - apply find_some in E. rewrite in_seq in E. exists b. intuition lia.
  - exfalso. apply Hx. apply Z.bits_inj'. intros k Hk. rewrite Z.testbit_0_l.
    destruct (Z_lt_le_dec k 64) as [Hlt|Hge]; [|auto].
    pose proof (find_none _ _ E (Z.to_nat k) ltac:(apply in_seq; lia)) as E'. simpl in E'.
    rewrite Z2Nat.id in E' by lia. exact E'.
Qed.

Lemma missing_some e q w f : words_ok (context_fields q) -> missing_in_word e q w = Some f ->
  Z.of_nat w * 64 <= f < Z.of_nat w * 64 + 64 /\ requested q f = true /\ provided e f = false.
Proof.
  intros Hq. unfold missing_in_word. fold (lacking e q w). destruct (Z.eqb_spec (lacking e q w) 0); [discriminate|].
  destruct (first_bit_spec _ (lacking_u64 e q w Hq) n) as (b & -> & Hb & Ht). intros [= <-].
  rewrite lacking_bit in Ht by (auto; lia). bools. auto with zarith.
Qed.

Lemma missing_none e q w : words_ok (context_fields q) -> missing_in_word e q w = None ->
  forall f, Z.of_nat w * 64 <= f < Z.of_nat w * 64 + 64 -> requested q f = true -> provided e f = true.
Proof.
  intros Hq. unfold missing_in_word. fold (lacking e q w).
  destruct (Z.eqb_spec (lacking e q w) 0) as [E|E].
  - intros _ f Hf Hr. pose proof (lacking_bit e q w (f - Z.of_nat w * 64) ltac:(lia) Hq) as H.
    rewrite E, Z.testbit_0_l in H. replace (Z.of_nat w * 64 + (f - Z.of_nat w * 64)) with f in H by lia.
    rewrite Hr in H. destruct (provided e f); [reflexivity|discriminate].
  - destruct (first_bit_spec _ (lacking_u64 e q w Hq) E) as (b & -> & _). discriminate.
Qed.

Lemma first_missing_some e q ws f : words_ok (context_fields q) -> first_missing e q ws = Some f ->
  exists w, In w ws /\ missing_in_word e q w = Some f.
Proof.
  intros Hq. induction ws as [|w ws IH]; simpl; [discriminate|].
  destruct (missing_in_word e q w) eqn:E; [intros [= <-]; eauto|]. intros H. destruct (IH H) as (w' & ? & ?). eauto.
Qed.

Lemma first_missing_none e q ws : first_missing e q ws = None -> forall w, In w ws -> missing_in_word e q w = None.
Proof.
  induction ws as [|w ws IH]; simpl; [intros _ w []|].
  destruct (missing_in_word e q w) eqn:E; [discriminate|]. intros H w' [<-|Hin]; auto.
Qed.

Lemma all_fields e q : words_ok (context_fields q) ->
  first_missing e q (seq 0 PROBE_CTX_BITMAP_WORDS) = None <-> fields_ok e q.
Proof.
  intros Hq. split.
  - intros H f Hf Hr. apply (missing_none e q (Z.to_nat (f / 64)) Hq); auto.
    + apply (first_missing_none _ _ _ H). apply in_seq. unfold PROBE_CTX_BITMAP_WORDS.
      assert (0 <= f / 64 < 4) by (split; [apply Z.div_pos|apply Z.div_lt_upper_bound]; lia). lia.
    + pose proof (Z.div_mod f 64 ltac:(lia)). pose proof (Z.mod_pos_bound f 64 ltac:(lia)).
      rewrite Z2Nat.id by (apply Z.div_pos; lia). lia.
  - intros H. destruct (first_missing e q _) as [f|] eqn:E; [|reflexivity]. exfalso.
    destruct (first_missing_some _ _ _ _ Hq E) as (w & Hw & Hm). apply in_seq in Hw. unfold PROBE_CTX_BITMAP_WORDS in Hw.
    destruct (missing_some _ _ _ _ Hq Hm) as (Hf & Hr & Hp). rewrite (H f ltac:(lia) Hr) in Hp. discriminate.
Qed.

(** The attach point a view exports under an id: the first entry that carries it. *)
Definition exports (v : probe_capability_view) (id : Z) (e : probe_attach_capability) : Prop :=
  exists i, (i < Z.to_nat (count v))%nat /\ entry_at v i = Some e /\ attach_id e = id /\
    forall j e', (j < i)%nat -> entry_at v j = Some e' -> attach_id e' <> id.

Lemma find_attach_spec v id : forall left i,
  match find_attach v id i left with
  | Some (Some e) => exists j, (i <= j < i + left)%nat /\ entry_at v j = Some e /\ attach_id e = id /\
      forall k e', (i <= k < j)%nat -> entry_at v k = Some e' -> attach_id e' <> id
  | Some None => forall j e, (i <= j < i + left)%nat -> entry_at v j = Some e -> attach_id e <> id
  | None => exists j, (i <= j < i + left)%nat /\ entry_at v j = None
  end.
Proof.
  induction left as [|l IH]; intros i; cbn [find_attach]; [lia|].
  destruct (entry_at v i) as [e|] eqn:E; [|exists i; split; [lia|assumption]].
  destruct (Z.eqb_spec (attach_id e) id) as [Hid|Hid].
  - exists i. split; [lia|]. repeat split; auto. lia.
  - specialize (IH (S i)). destruct (find_attach v id (S i) l) as [[e'|]|].
    + destruct IH as (j & Hj & He & Hi & Hk). exists j. split; [lia|]. repeat split; auto.
      intros k e'' Hk' Hek. destruct (Nat.eq_dec k i) as [->|]; [congruence|apply (Hk k); auto; lia].
    + intros j e' Hj He. destruct (Nat.eq_dec j i) as [->|]; [congruence|apply (IH j); auto; lia].
    + destruct IH as (j & Hj & He). exists j. split; [lia|assumption].
Qed.

Lemma exports_unique v id e e' : exports v id e -> exports v id e' -> e' = e.
Proof.
  intros (i & Hi & He & Hid & Hk) (i' & Hi' & He' & Hid' & Hk').
  destruct (Nat.lt_trichotomy i i') as [H|[H|H]].
  - exfalso. apply (Hk' i e); auto.
  - subst i'. congruence.
  - exfalso. apply (Hk i' e'); auto.
Qed.

Lemma open_ok_inv wsz src v : probe_capability_open wsz src = (PROBE_CAP_OK, Some v) ->
  v = mk_view (dec_header src) (skipn sizeof_header src) (n_attach (dec_header src)) /\
  wrap wsz (Z.of_nat sizeof_header + table_bytes wsz (n_attach (dec_header src))) <= Z.of_nat (length src).
Proof.
  unfold probe_capability_open. repeat (case_if; [discriminate|]). intros [= <-]. bools. split; [reflexivity|lia].
Qed.

Lemma dec32_range k l : Forall is_byte l -> 0 <= le_dec (slice k 4 l) < 2 ^ 32.
Proof.
  intros H. pose proof (le_dec_range _ (slice_bytes k 4 l H)) as R. split; [apply R|].
  eapply Z.lt_le_trans; [apply R|]. change (2 ^ 32) with (256 ^ 4). apply Z.pow_le_mono_r; [lia|].
  unfold slice. rewrite length_firstn. lia.
Qed.

(** The size of a table of [n] entries does not wrap in a [size_t] of [wsz] bits:
    always so with 64 bits, and with 32 for up to 89478484 entries. *)
Definition size_exact (wsz n : Z) : Prop := wsz = 64 \/ 0 < wsz /\ Z.of_nat sizeof_header + n * Z.of_nat sizeof_entry < 2 ^ wsz.

Lemma opened_in_region wsz src v : Forall is_byte src -> probe_capability_open wsz src = (PROBE_CAP_OK, Some v) -> size_exact wsz (count v) ->
  forall i, (i < Z.to_nat (count v))%nat -> entry_at v i <> None.
Proof.
  intros Hb Ho Hw i Hi. apply open_ok_inv in Ho. destruct Ho as [-> Hfit]. cbn [count] in Hi, Hw.
  assert (Hn : 0 <= n_attach (dec_header src) < 2 ^ 32) by (apply dec32_range; assumption).
  assert (W : 0 < wsz /\ 56 + n_attach (dec_header src) * 48 < 2 ^ wsz)
    by (destruct Hw as [->|Hw]; [lia|exact Hw]).
  unfold table_bytes, sizeof_header, sizeof_entry in Hfit.
  rewrite (wrap_small wsz (n_attach (dec_header src) * Z.of_nat 48)), wrap_small in Hfit by lia.
  assert (L : length (slice (i * 48) 48 (skipn 56 src)) = 48%nat).
  { unfold slice. rewrite length_firstn, !length_skipn. lia. }
  unfold entry_at, sizeof_header, sizeof_entry; cbn [entries]. rewrite L. discriminate.
Qed.

(** C21: on a table opened by a reader in whose [size_t] the size of the table does
    not wrap (every table with 64 bits, up to 89478484 entries with 32; for what
    happens beyond see [open_wraps_on_32bit]), admission never reads outside the
    region; it admits exactly the probes whose image (when bound) is the running
    one, whose attach point is exported, whose requested fields are all provided
    there, and whose cost fits that point's budget; and a field it reports
    missing was indeed requested and is indeed not provided. *)
Theorem admission_exact wsz src v q :
  Forall is_byte src -> probe_capability_open wsz src = (PROBE_CAP_OK, Some v) -> size_exact wsz (count v) -> words_ok (context_fields q) ->
  exists status f, probe_capability_admit (Some v) (Some q) = Some (status, f) /\
    (status = PROBE_ADMIT_OK <->
       (bind_build_id q = true -> r_build_id q = firmware_build_id (hdr v)) /\
       exists e, exports v (r_attach_id q) e /\ fields_ok e q /\ cost_units q <= max_cycle_budget e) /\
    (status = PROBE_ADMIT_MISSING_FIELD ->
       exists e, exports v (r_attach_id q) e /\ 0 <= f < 256 /\ requested q f = true /\ provided e f = false).
Proof.
  intros Hb Ho Hz Hq. pose proof (opened_in_region wsz src v Hb Ho Hz) as Hin. unfold probe_capability_admit.
  destruct (bind_build_id q && negb (bytes_eqb (r_build_id q) (firmware_build_id (hdr v)))) eqn:Eb.
  { do 2 eexists. split; [reflexivity|]. split; [|discriminate]. split; [discriminate|]. intros [H _]. bools.
    specialize (H H0). apply bytes_eqb_eq in H. congruence. }
  assert (Hbind : bind_build_id q = true -> r_build_id q = firmware_build_id (hdr v)).
  { intros E. rewrite E in Eb. cbn [andb] in Eb. bools. now apply bytes_eqb_eq. }
  pose proof (find_attach_spec v (r_attach_id q) (Z.to_nat (count v)) 0) as Hf.
  destruct (find_attach v (r_attach_id q) 0 (Z.to_nat (count v))) as [[e|]|].
  - destruct Hf as (j & Hj & He & Hid & Hk).
    assert (Hex : exports v (r_attach_id q) e)
      by (exists j; repeat split; auto; [lia|intros k e' Hk'; apply (Hk k e'); lia]).
    assert (Huniq : forall e', exports v (r_attach_id q) e' -> e' = e) by (intros e' H'; eapply exports_unique; eauto).
    destruct (first_missing e q (seq 0 PROBE_CTX_BITMAP_WORDS)) as [f|] eqn:Em.
    + exists PROBE_ADMIT_MISSING_FIELD, f. split; [reflexivity|]. split; [|intros _; exists e; split; [assumption|]].
      * split; [discriminate|]. intros (_ & e' & He' & Hfo & _). rewrite (Huniq e' He') in Hfo.
        apply (all_fields e q Hq) in Hfo. congruence.
      * destruct (first_missing_some _ _ _ _ Hq Em) as (w & Hw & Hm). apply in_seq in Hw.
        unfold PROBE_CTX_BITMAP_WORDS in Hw. destruct (missing_some _ _ _ _ Hq Hm) as (Hr & H1 & H2). split; [lia|auto].
    + apply (all_fields e q Hq) in Em. destruct (Z.ltb_spec (max_cycle_budget e) (cost_units q)).
      * do 2 eexists. split; [reflexivity|]. split; [|discriminate]. split; [discriminate|].
        intros (_ & e' & He' & _ & Hc). rewrite (Huniq e' He') in Hc. lia.
      * do 2 eexists. split; [reflexivity|]. split; [|discriminate]. split; [|reflexivity].
        intros _. split; [assumption|]. exists e. repeat split; auto; lia.
  - do 2 eexists. split; [reflexivity|]. split; [|discriminate]. split; [discriminate|].
    intros (_ & e & (i & Hi & He & Hid & _) & _). exfalso. apply (Hf i e); auto; lia.
  - destruct Hf as (j & Hj & He). exfalso. apply (Hin j); [lia|assumption].
Qed.

(** A probe that reads fields 1 and 2 within budget, and one that asks for field 5. *)
Definition sample_region : list Z :=
  fst (probe_capability_publish 64 (repeat 255 200) [sample_entry] (Some (repeat 7 20)) 3).
Definition sample_view : probe_capability_view :=
  mk_view (dec_header sample_region) (skipn 56 sample_region) 1.
Definition sample_req (fields : Z) : probe_requirement := mk_req 1 [fields; 0; 0; 0] 65 (repeat 7 20) true.

Lemma admission_exact_witness :
  probe_capability_admit (Some sample_view) (Some (sample_req 6)) = Some (PROBE_ADMIT_OK, 0) /\
  exists e, exports sample_view 1 e /\ fields_ok e (sample_req 6).
Proof.
  assert (Ha : probe_capability_admit (Some sample_view) (Some (sample_req 6)) = Some (PROBE_ADMIT_OK, 0))
    by (vm_compute; reflexivity).
  split; [exact Ha|].
  destruct (admission_exact 32 sample_region sample_view (sample_req 6)) as (st & f & E & H & _).
  - vm_compute. repeat constructor; discriminate.
  - vm_compute. reflexivity.
  - right. vm_compute. split; reflexivity.
  - unfold words_ok, u64_ok; cbn. repeat constructor; discriminate || reflexivity.
  - rewrite Ha in E. injection E as <- <-. destruct (proj1 H eq_refl) as (_ & e & He & Hf & _). eauto.
Defined.

End Admission.
